(* ===== verification/_CoqProject ===== *)
-Q . S2P
Prelude.v
Pcie.v
BoyerMoore.v
Automata.v
AhoCorasick.v
Cursor.v
Extract.v
ParseUtils.v
MString.v
Content.v
Hash.v
IpsCommon.v
ByteTest.v
ByteJump.v
ByteExtract.v
ByteMath.v
IsDataAt.v
Range.v
Headers.v
RangeOptions.v
BitOptions.v
XHash.v
KeyedTable.v
Intern.v
OptionTable.v
OptionEval.v
OptionTree.v
RuleEval.v
EventQueue.v
FpDetect.v
Threshold.v
RateFilter.v
Detect.v
FastPattern.v
FpSelect.v
Checksum.v
Base64.v
IpVar.v
Offload.v
PrimeTable.v
GHash.v
PortObject.v
PortTable.v
RuleHeader.v
BitOp.v
Flowbits.v
Hyperscan.v
Pcrm.v
PortRules.v
PortParse.v
ParseStream.v
RuleFile.v
Pigasus.v
