(* ===== verification/Prelude.v ===== *)
(** * Pigasus: a verification of the CPU side of an FPGA intrusion detection system

    Pigasus splits Snort 3 between an FPGA and a CPU.  The FPGA parses and
    reassembles traffic, runs the fast pattern and port stages and sends every
    suspicious PDU, with the compressed ids of the rules that may match it,
    over PCIe into a ring buffer of the host.  The CPU takes the PDUs out of
    the ring, evaluates the detection trees of the named rules on the payload
    ("full match") and counts the verdicts.  The host program is Snort 3, so the
    same sources hold Snort's own detection path: a software fast pattern
    matcher, option trees with retries, event selection and event filters.  Both
    paths are modelled, with the libraries they stand on.  All paths below are
    relative to src/pigasus/software/src/.

    ** Parts, files and how they fit together

    The FPGA path.

    - [Pcie]: pigasus/pcie/pcie.cc and pcie.h.  The shared memory is a function
      from word index to 32-bit word; [dma_setup] and [dma_body] are the set-up
      and one iteration of [dma_run]; [fpga_dma] is the FPGA's descriptor logic
      (pigasus/hardware/rtl_sim/src/pcie/fpga2cpu_pcie.sv); [ring_step]
      interleaves the two.  [fill_block], [c2f_copy_head], [get_dev_handles].
    - [Pigasus]: pigasus/pigasus.cc.  [process_block] is the handler the ring
      calls with every PDU: [collect_sids], [process_pdu] (port groups through
      [Pcrm], rules through the SID maps of [Hyperscan]) and [eval_tree] over
      the detection trees; [pigasus_init] builds the SID maps.  Tree evaluation
      is proved against the class [ContentEval], which [Content] implements
      (instance [content_interface]).
    - [Pcrm]: detection/pcrm.cc, the port groups of a port pair.
    - [Hyperscan]: search_engines/hyperscan.{h,cc}, patterns, escaping, SID map.

    Rule options.

    - [Cursor]: framework/cursor.{h,cc}, a buffer with a read position.
    - [Content]: ips_options/ips_content.cc and detection/pattern_match_data.h,
      the content option from parsing to search, on [BoyerMoore]
      (utils/boyer_moore.cc).
    - [ParseUtils]: parser/parse_utils.cc, pattern text to bytes; [MString]:
      parser/mstring.cc, text split into tokens.
    - [Extract]: ips_options/extract.{h,cc}, numbers in buffers and the rule
      variables; [IpsCommon]: what the byte options share; [ByteTest],
      [ByteJump], [ByteExtract], [ByteMath], [IsDataAt]: ips_options/ips_*.cc
      of these names, each with data, module, hash, equality and evaluation.
    - [Range]: framework/range.cc, interval expressions; [Headers]: the members
      of protocols/*.h that options read; [RangeOptions]: the thirteen options
      that compare one number (dsize, ttl, ack, itype, ...), a Module each;
      [BitOptions]: ips_options/ips_flags.cc and ips_fragbits.cc, the options
      that test flag bits, from the text to the packets they match.
    - [BitOp], [Flowbits]: utils/bitop.h and ips_options/ips_flowbits.cc, the
      named bits of a flow, from rule text to evaluation.
    - [Hash]: hash/hashfcn.{h,cc} and the key part of framework/ips_option.cc;
      the class [OptionKey] (equal options have equal hashes) is implemented by
      every option.

    Tables and trees.

    - [XHash]: hash/xhash.{h,cc} on utils/sfmemcap.cc; the class [KeyOps] is
      what the table expects of hash and comparison; [GHash], [PrimeTable]:
      hash/ghash.cc, hash/primetable.cc.
    - [Intern], [OptionTable]: the tables of detection/detection_options.cc that
      keep equal options (and equal trees) once; [OptionKey] discharges
      [KeyOps].
    - [OptionTree]: detection/fp_create.cc (finishing a rule's tree) and the
      tree table of detection_options.cc.
    - [OptionEval]: [detection_option_node_evaluate], with node states, retries
      and flowbits, against the classes [IpsOptionApi] and [OptionLaws];
      [RuleEval]: the options above as instances of these classes.

    Detection.

    - [Automata], [AhoCorasick]: search_engines/acsmx.cc and ac_std.cc, the
      automaton, its construction and its release.
    - [FastPattern]: the fast pattern stage of detection/fp_detect.cc against
      the class [Mpse] (framework/mpse.h), which the automaton implements.
    - [FpSelect]: detection/fp_utils.cc and fp_create.cc, the fast pattern of a
      rule.
    - [FpDetect], [EventQueue]: match collection and event selection
      (detection/fp_detect.cc), events/sfeventq.cc.
    - [KeyedTable], [Threshold], [RateFilter]: filters/ (sfthd.cc,
      sfthreshold.cc, detection_filter.cc, sfrf.cc, rate_filter.cc), counters
      per address in an [XHash]; [KeyedTable] is what they share.
    - [Detect]: trees, evaluator, selection and queue put together for a packet.
    - [Offload]: detection/context_switcher.cc, detection/regex_offload.cc and
      the offloading of detection/detection_engine.cc, with the worker threads.
    - [IpVar], [RuleHeader]: sfip/ (addresses, networks, variables) and
      detection/rtn_checks.cc with the header checks parser/parse_rule.cc sets
      up.
    - [PortObject], [PortTable]: ports/ (items, objects, merged objects,
      tables).
    - [PortRules]: [FinishPortListRule] of parser/parse_rule.cc, the port tables
      of the protocols and the port groups and maps of detection/fp_create.cc,
      from which [Pcrm] selects; [PortParse]: parser/parse_ports.cc, the port
      variables and the reading of a rule's protocol, ports and direction.
    - [ParseStream]: parser/parse_stream.cc, from the text of rules to the calls
      of the rule parser: scanner, state table and loops.
    - [RuleFile]: the calls carried out by parser/parse_rule.cc, and the whole
      way from the text of a rule file to the groups selected for a packet.

    Libraries of the codecs and inspectors.

    - [Checksum]: codecs/ip/checksum.h.
    - [Base64]: helpers/base64_encoder.cc and the decoder of mime/decode_b64.cc.

    [Prelude] (this file) has machine integers ([u8] .. [u64], [s32]), arrays
    indexed by [Z] ([rd], [wr], [slice], [Zlen]), labelled steps ([star]),
    tactics and hint databases.

    ** What is proved

    - [Pcie]: under every interleaving of FPGA and CPU the handler receives
      exactly the transferred PDUs, whole, in order and once; nothing is written
      outside the allocation; polling drains the ring.  The FPGA may transfer
      only what its own free-slot computation permits, and PDUs of at most 65
      flits, a bound that neither side checks and that is shown to be exact.
    - [Pigasus]: composed with the ring, on its memory, the counters are the
      number of PDUs that match and that do not match, where "match" is stated
      without the code: a named rule, in a port group selected by the PDU's
      ports, all of whose paths of content options succeed in sequence.
    - [BoyerMoore], [Content]: the table-driven searches return the first
      occurrence; the option returns the first occurrence in the window of its
      modifiers; everything the module accepts is well formed.
    - Byte and range options: evaluation on every branch, against the number the
      bytes denote; a range expression means what it says.
    - [Flowbits]: the options of a rule set act on the bits of a flow as their
      texts say on a set of names, whatever the order of evaluation.
    - [ParseUtils], [MString], [Hyperscan]: tokens come back, patterns survive
      printing and parsing, escaping.
    - [XHash], [OptionTable]: every sequence of operations refines an
      association list with least-recently-used eviction, limits and recovery
      ([lru_add]), releases all memory, is enumerated completely, and stores
      equal options once.
    - [OptionTree], [OptionEval]: building and finishing a tree keeps its rules;
      evaluation ends, reports only rules with a chain of matching options and,
      without retries, exactly those.
    - [AhoCorasick], [FastPattern]: the automaton reports exactly the
      occurrences of its patterns; the stage evaluates exactly the trees of the
      matches, each once per fill of the stash, within the queue limit.
    - [FpSelect]: which content is selected; its bytes are found wherever the
      content matches, and contents that are not evaluated again match where
      they are found.
    - [FpDetect], [EventQueue], [Detect]: the events queued are the best of each
      action group in the configured order, a queue that is large enough keeps
      and logs them in order; from rules without fast pattern to queued events
      in one theorem.
    - [Threshold], [RateFilter]: event filters, detection filters and rate
      filters of a positive time answer as specified over any sequence of events
      of any addresses while the memory is enough; a suppression wins over every
      other filter.
    - [IpVar], [RuleHeader]: a variable denotes the union of what was added less
      what was negated (networks with an address other than 0); a header matches
      exactly when addresses, ports and direction do.
    - [GHash]: every sequence of calls refines a finite map.
    - [PortObject], [PortParse], [PortTable], [PortRules]: a written port list
      is read as the normal form of its elements; compiling a table of lists
      gives every port an object with exactly the lists' rules; from the text of
      rules to packets, each rule whose ports match a packet is in a group
      selected for it (while a port has at most 500 lists and some port has
      none).
    - [Offload]: in every reachable state no assertion fails; packets come back
      in order, evaluated once; the waiting loops end when the workers run,
      also when onloaded packets lead to further offloads.
    - [ParseStream]: rules written in any layout, with line, block and
      #begin/#end comments, lists and escaped strings, are read as exactly the
      calls for these rules; the parser ends on every text.
    - [RuleFile]: from text to packets, with rules of equal numbers merged by
      revision, each rule that is entered and whose ports match a packet is in a
      group selected for it.
    - [Checksum], [Base64]: equal to RFC 1071 on both code paths and verified by
      the same functions; decoding undoes encoding in any pieces.
    - Behaviour the code should not have, each with a theorem on a concrete
      input: an accepted byte_math rule divides by zero (for which divisors is a
      theorem for all of them); a full event queue drops events whatever they
      are; the tree evaluation of pigasus.cc never retries a content; a failed
      ioctl is reported as success; the jump after a match can skip an
      occurrence; the order on addresses compares words as loaded; the last byte
      at an odd address is not summed; a rate filter passes its state on to
      another address when memory runs out, and counts dropped sessions for
      ever; flowbits:reset writes outside an empty vector, 256 names in one
      option are none, the 65537th name shares the bit of the first; a port list
      from which all ports are removed becomes "any", as do [[]] and a variable
      with "any" in its text, lists of exceptions alone are accepted, and
      4294967376 is port 80; the rules of an object merged over all ports are
      never selected; a fast pattern with an offset alone reaches behind its
      buffer; contents with an offset in a variable are not evaluated; a block
      comment with a star ends at the next slash, a hexadecimal escape of one
      digit takes the closing quote, a flag without an initial value decides
      about a call; the table of primes is indexed wrongly from 128M on.

    ** Modelling conventions

    Integers are [Z], wrapped where the source's type wraps.  [option] stands
    for null pointers, undefined operations and loops that do not end; sums
    carry the source's error codes.  Fuel is always a bound from the data and
    shown to be enough: buffer length for [search_loop] and [add_words], the
    number of rule-id slots for [collect_sids] (from 2048 lines of ids on no
    fuel is enough, because the 16-bit counter wraps), the number of nodes for
    [walk], the lengths of both lists for [in_loop], and for the retries of
    [OptionEval] any bound on the size of the buffers, since every retry moves
    the cursor forward.  The waiting loop of [c2f_copy_head] runs over the list
    of values the FPGA's register shows.  The string loops of [Hash] take the
    string length as fuel and consume at least one byte a round.

    Parameters are what the sources do not contain or what a caller passes in:
    system calls ([setup_env], [handles_env]), qsort (a sorted permutation), the
    hyperscan library and its callbacks, configuration flags, the clock, the
    user's recovery callback of a table, the session that remembers alerts, the
    latency check, and the callbacks the matchers call.

    ** Not modelled

    The OFFLINE and CAPTURE builds, printing, profiling, threads other than the
    interplay of FPGA and CPU; the rule options that need libraries or the flow
    table (pcre, asn1, flow) and the check for unused flowbits; the rule and
    configuration parser beyond the parts named, search engines of the groups
    and service groups, codecs beyond the checksum, stream reassembly,
    inspectors, loggers and the FPGA design, which the CPU side of Pigasus does
    not run or uses only at start-up. *)

From stdpp Require Export base list option numbers sets gmap strings.
From Stdlib Require Export ZArith Lia.

Open Scope Z_scope.

(** ** Machine integers

    An integer of the C++ source is a [Z]; the width is applied where the
    source's type applies it.  [uN z] is the conversion to an unsigned N-bit
    type, [s32 z] and [s8 z] the (two's complement) conversion to [int32_t]
    and [int8_t]. *)

Definition u8 (z : Z) : Z := z mod 256.
Definition u16 (z : Z) : Z := z mod 65536.
Definition u32 (z : Z) : Z := z mod 4294967296.
Definition u64 (z : Z) : Z := z mod 18446744073709551616.
Definition s8 (z : Z) : Z := (z + 128) mod 256 - 128.
Definition s32 (z : Z) : Z := (z + 2147483648) mod 4294967296 - 2147483648.

(** The range predicates of the same types. *)
Definition is_u8 (z : Z) : Prop := 0 <= z < 256.
Definition is_u16 (z : Z) : Prop := 0 <= z < 65536.
Definition is_u32 (z : Z) : Prop := 0 <= z < 4294967296.
Definition is_s32 (z : Z) : Prop := -2147483648 <= z < 2147483648.

(** A truth value stored in an integer, and the integer read back as one. *)
Definition b2z (b : bool) : Z := if b then 1 else 0.
Definition truth (z : Z) : bool := negb (z =? 0).

(** [mlia]: linear arithmetic that also knows the machine-integer wrappers. *)
Ltac munfold :=
  unfold is_u8, is_u16, is_u32, is_s32, u8, u16, u32, u64, s8, s32, b2z, truth in *.
Ltac mlia := munfold; Z.div_mod_to_equations; lia.

Create HintDb mach.
Create Rewrite HintDb zlen.

Lemma u8_small z : is_u8 z -> u8 z = z.
Proof. mlia. Qed.
Lemma u16_small z : is_u16 z -> u16 z = z.
Proof. mlia. Qed.
Lemma u32_small z : is_u32 z -> u32 z = z.
Proof. mlia. Qed.
Lemma s32_small z : is_s32 z -> s32 z = z.
Proof. mlia. Qed.
Lemma u8_range z : is_u8 (u8 z).
Proof. mlia. Qed.
Lemma u16_range z : is_u16 (u16 z).
Proof. mlia. Qed.
Lemma u32_range z : is_u32 (u32 z).
Proof. mlia. Qed.
Lemma s32_range z : is_s32 (s32 z).
Proof. mlia. Qed.
#[export] Hint Resolve u8_range u16_range u32_range s32_range : mach.

Lemma truth_true z : truth z = true <-> z <> 0.
Proof. unfold truth. destruct (Z.eqb_spec z 0); naive_solver. Qed.
Lemma truth_false z : truth z = false <-> z = 0.
Proof. unfold truth. destruct (Z.eqb_spec z 0); naive_solver. Qed.

(** Shifted-in fields: [a << n | b] with [b] below bit [n]. *)
Lemma lor_shiftl a b n : 0 <= n -> 0 <= b < 2 ^ n -> Z.lor (Z.shiftl a n) b = a * 2 ^ n + b.
Proof.
  intros Hn Hb. rewrite <- Z.add_nocarry_lor; [by rewrite Z.shiftl_mul_pow2|].
  apply Z.bits_inj'. intros i Hi. rewrite Z.land_spec, Z.bits_0.
  destruct (Z.lt_ge_cases i n).
  - rewrite Z.shiftl_spec_low by done. done.
  - rewrite andb_comm. replace (Z.testbit b i) with false; [done|].
    symmetry. destruct (Z.eq_dec b 0) as [->|]; [apply Z.bits_0|].
    apply Z.bits_above_log2; [lia|]. apply Z.log2_lt_pow2; [lia|].
    pose proof (Z.pow_le_mono_r 2 n i). lia.
Qed.

Lemma land_u32 a b : is_u32 a -> is_u32 (Z.land a b).
Proof.
  intros Ha. replace (Z.land a b) with (u32 (Z.land a b)); [apply u32_range|].
  unfold u32. change 4294967296 with (2 ^ 32). rewrite <- Z.land_ones by lia.
  rewrite <- Z.land_assoc, (Z.land_comm b), Z.land_assoc, Z.land_ones by lia.
  f_equal. unfold is_u32 in Ha. apply Z.mod_small. lia.
Qed.

Lemma shiftr_u32 a t : is_u32 a -> 0 <= t -> is_u32 (Z.shiftr a t).
Proof.
  unfold is_u32. intros Ha Ht. rewrite Z.shiftr_div_pow2 by lia.
  pose proof (Z.pow_pos_nonneg 2 t). split; [apply Z.div_pos; lia|].
  apply Z.div_lt_upper_bound; nia.
Qed.

(** ** Boolean tests

    [bcase] splits on the first boolean comparison of the goal and turns it
    into the arithmetic fact. *)
Ltac breflect :=
  repeat match goal with
  | H : (_ && _)%bool = true |- _ => apply andb_true_iff in H as [? ?]
  | H : (_ && _)%bool = false |- _ => apply andb_false_iff in H
  | H : (_ || _)%bool = true |- _ => apply orb_true_iff in H
  | H : (_ || _)%bool = false |- _ => apply orb_false_iff in H as [? ?]
  | H : negb _ = true |- _ => apply negb_true_iff in H
  | H : negb _ = false |- _ => apply negb_false_iff in H
  | H : (_ =? _) = true |- _ => apply Z.eqb_eq in H
  | H : (_ =? _) = false |- _ => apply Z.eqb_neq in H
  | H : (_ <? _) = true |- _ => apply Z.ltb_lt in H
  | H : (_ <? _) = false |- _ => apply Z.ltb_ge in H
  | H : (_ <=? _) = true |- _ => apply Z.leb_le in H
  | H : (_ <=? _) = false |- _ => apply Z.leb_gt in H
  | H : (_ >? _) = true |- _ => rewrite Z.gtb_ltb in H
  | H : (_ >? _) = false |- _ => rewrite Z.gtb_ltb in H
  | H : (_ >=? _) = true |- _ => rewrite Z.geb_leb in H
  | H : (_ >=? _) = false |- _ => rewrite Z.geb_leb in H
  | H : truth _ = true |- _ => apply truth_true in H
  | H : truth _ = false |- _ => apply truth_false in H
  end.

Tactic Notation "bcase" constr(b) "as" ident(E) := destruct b eqn:E; breflect.
Ltac bcases :=
  repeat (match goal with
          | |- context [if ?b then _ else _] => destruct b eqn:?
          end; breflect).

Ltac bcases_hyp :=
  repeat (match goal with
          | H : context [if ?b then _ else _] |- _ => destruct b eqn:?
          end; breflect).

(** ** Arrays

    A C array or buffer is a list; [rd l i] is the element at the (signed)
    index [i], [None] when [i] is outside the array.  [Zlen] is its length. *)

Definition Zlen {A} (l : list A) : Z := Z.of_nat (length l).

Definition rd {A} (l : list A) (i : Z) : option A :=
  if i <? 0 then None else l !! Z.to_nat i.

(** [rd0]: the same on integer arrays, reading 0 outside.  Definitions use it
    where an explicit guard of the source (or a theorem) keeps the index in
    range. *)
Definition rd0 (l : list Z) (i : Z) : Z := default 0 (rd l i).

(** [wr l i x]: the array with [x] stored at index [i]. *)
Definition wr {A} (l : list A) (i : Z) (x : A) : list A :=
  if i <? 0 then l else <[Z.to_nat i := x]> l.

Lemma Zlen_nonneg {A} (l : list A) : 0 <= Zlen l.
Proof. unfold Zlen. lia. Qed.
Lemma Zlen_app {A} (l k : list A) : Zlen (l ++ k) = Zlen l + Zlen k.
Proof. unfold Zlen. rewrite length_app. lia. Qed.
Lemma Zlen_cons {A} (x : A) l : Zlen (x :: l) = 1 + Zlen l.
Proof. unfold Zlen. simpl. lia. Qed.
Lemma Zlen_nil {A} : Zlen (@nil A) = 0.
Proof. done. Qed.
Lemma Zlen_wr {A} (l : list A) i x : Zlen (wr l i x) = Zlen l.
Proof. unfold Zlen, wr. case_match; [done|]. by rewrite length_insert. Qed.
#[export] Hint Resolve Zlen_nonneg : mach.
#[export] Hint Rewrite @Zlen_app @Zlen_cons @Zlen_nil @Zlen_wr : zlen.

Lemma rd_Some_range {A} (l : list A) i x : rd l i = Some x -> 0 <= i < Zlen l.
Proof.
  unfold rd, Zlen. bcases; [done|]. intros H%lookup_lt_Some. lia.
Qed.

Lemma rd_is_Some {A} (l : list A) i : 0 <= i < Zlen l -> exists x, rd l i = Some x.
Proof.
  unfold rd, Zlen. intros H. bcases; [lia|]. apply lookup_lt_is_Some_2. lia.
Qed.

Lemma rd_None {A} (l : list A) i : ~ (0 <= i < Zlen l) -> rd l i = None.
Proof.
  unfold rd, Zlen. intros H. bcases; [done|]. apply lookup_ge_None_2. lia.
Qed.

Lemma rd_rd0 (l : list Z) i : 0 <= i < Zlen l -> rd l i = Some (rd0 l i).
Proof. intros H. unfold rd0. by destruct (rd_is_Some l i H) as [x ->]. Qed.

Lemma rd_cons {A} (x : A) l i : 0 < i -> rd (x :: l) i = rd l (i - 1).
Proof.
  intros H. unfold rd. bcases; [lia..|].
  replace (Z.to_nat i) with (S (Z.to_nat (i - 1))) by lia. done.
Qed.

Lemma rd_app_l {A} (l k : list A) i : i < Zlen l -> rd (l ++ k) i = rd l i.
Proof.
  unfold rd, Zlen. intros H. bcases; [done|]. apply lookup_app_l. lia.
Qed.

Lemma rd_app_r {A} (l k : list A) i : Zlen l <= i -> rd (l ++ k) i = rd k (i - Zlen l).
Proof.
  unfold rd, Zlen. intros H. bcases; [lia..|].
  rewrite lookup_app_r by lia. f_equal. lia.
Qed.

Lemma rd_wr_eq {A} (l : list A) i x : 0 <= i < Zlen l -> rd (wr l i x) i = Some x.
Proof.
  unfold rd, wr, Zlen. intros H. bcases; [lia|]. apply list_lookup_insert_eq. lia.
Qed.

Lemma rd_wr_ne {A} (l : list A) i j x : i <> j -> rd (wr l i x) j = rd l j.
Proof.
  unfold rd, wr. intros H. bcases; try done.
  apply list_lookup_insert_ne. lia.
Qed.

Lemma list_eq_rd {A} (l k : list A) :
  Zlen l = Zlen k -> (forall i, 0 <= i < Zlen l -> rd l i = rd k i) -> l = k.
Proof.
  unfold Zlen, rd. intros Hlen H. apply (list_eq_same_length l k (length l)); [lia|lia|].
  intros i x y Hi Hx Hy. specialize (H (Z.of_nat i) ltac:(lia)).
  rewrite Nat2Z.id in H. rewrite (proj2 (Z.ltb_ge _ _)) in H by lia. congruence.
Qed.

(** ** Slices *)

(** [slice l i n]: the [n] elements from index [i]; the bytes a pointer to
    index [i] and a length [n] denote. *)
Definition slice {A} (l : list A) (i n : Z) : list A :=
  take (Z.to_nat n) (drop (Z.to_nat i) l).

Lemma Zlen_slice {A} (l : list A) i n :
  0 <= i -> 0 <= n -> i + n <= Zlen l -> Zlen (slice l i n) = n.
Proof. unfold Zlen, slice. intros. rewrite length_take, length_drop. lia. Qed.

Lemma rd_slice {A} (l : list A) i n k :
  0 <= i -> 0 <= k < n -> rd (slice l i n) k = rd l (i + k).
Proof.
  intros Hi Hk. unfold rd, slice. bcases; [lia..|].
  rewrite lookup_take_lt by lia. rewrite lookup_drop. f_equal. lia.
Qed.

(** ** Integer arrays and byte strings *)

Definition bytes (l : list Z) : Prop := Forall is_u8 l.

Lemma bytes_rd0 l i : bytes l -> is_u8 (rd0 l i).
Proof.
  intros H. unfold rd0. destruct (rd l i) as [x|] eqn:E; simpl; [|mlia].
  unfold rd in E. bcases_hyp; [done|]. eapply Forall_lookup_1 in H; eauto.
Qed.

Lemma rd0_cons_0 x (l : list Z) : rd0 (x :: l) 0 = x.
Proof. done. Qed.
Lemma rd0_cons_pos x (l : list Z) i : 0 < i -> rd0 (x :: l) i = rd0 l (i - 1).
Proof. intros H. unfold rd0. by rewrite rd_cons. Qed.
Lemma rd0_app_l (l k : list Z) i : i < Zlen l -> rd0 (l ++ k) i = rd0 l i.
Proof. intros H. unfold rd0. by rewrite rd_app_l. Qed.
Lemma rd0_app_r (l k : list Z) i : Zlen l <= i -> rd0 (l ++ k) i = rd0 k (i - Zlen l).
Proof. intros H. unfold rd0. by rewrite rd_app_r. Qed.
Lemma rd0_slice (l : list Z) i n k :
  0 <= i -> 0 <= k < n -> rd0 (slice l i n) k = rd0 l (i + k).
Proof. intros. unfold rd0. by rewrite rd_slice. Qed.
Lemma slice_cons (l : list Z) i n :
  0 <= i < Zlen l -> 0 < n -> slice l i n = rd0 l i :: slice l (i + 1) (n - 1).
Proof.
  intros Hi Hn. unfold slice, rd0, rd, Zlen in *. bcases; [lia|].
  destruct (lookup_lt_is_Some_2 l (Z.to_nat i)) as [x Hx]; [lia|]. rewrite Hx. simpl.
  rewrite (drop_S l x _ Hx). replace (Z.to_nat n) with (S (Z.to_nat (n - 1))) by lia.
  simpl. do 2 f_equal. f_equal. lia.
Qed.
Lemma drop_cons_inv (l rest : list Z) c i :
  0 <= i -> c :: rest = drop (Z.to_nat i) l ->
  rd0 l i = c /\ rest = drop (Z.to_nat (i + 1)) l /\ i < Zlen l.
Proof.
  intros Hi Hd.
  assert (l !! Z.to_nat i = Some c) as Hl.
  { rewrite <- (Nat.add_0_r (Z.to_nat i)), <- lookup_drop, <- Hd. done. }
  rewrite (drop_S l c _ Hl) in Hd. injection Hd as ->.
  apply lookup_lt_Some in Hl as Hlt. unfold rd0, rd, Zlen. bcases; [lia|].
  rewrite Hl. split_and!; [done|f_equal; lia|lia].
Qed.
Lemma slice_nil {A} (l : list A) i n : n <= 0 -> slice l i n = [].
Proof. intros H. unfold slice. replace (Z.to_nat n) with 0%nat by lia. done. Qed.
Lemma bytes_slice l i n : bytes l -> bytes (slice l i n).
Proof. intros H. unfold slice. by apply Forall_take, Forall_drop. Qed.
Lemma rd0_wr_eq (l : list Z) i x : 0 <= i < Zlen l -> rd0 (wr l i x) i = x.
Proof. intros H. unfold rd0. by rewrite rd_wr_eq. Qed.
Lemma rd0_wr_ne (l : list Z) i j x : i <> j -> rd0 (wr l i x) j = rd0 l j.
Proof. intros H. unfold rd0. by rewrite rd_wr_ne. Qed.
Lemma rd0_replicate n x i : 0 <= i < Z.of_nat n -> rd0 (replicate n x) i = x.
Proof.
  intros H. unfold rd0, rd. bcases; [lia|]. by rewrite lookup_replicate_2 by lia.
Qed.
Lemma Zlen_replicate {A} n (x : A) : Zlen (replicate n x) = Z.of_nat n.
Proof. unfold Zlen. by rewrite length_replicate. Qed.

(** ** Reachability

    [star R]: finitely many steps of a labelled transition relation, with the
    list of labels. *)
Inductive star {S L : Type} (R : S -> L -> S -> Prop) : S -> list L -> S -> Prop :=
| star_nil s : star R s [] s
| star_snoc s ls s' l s'' : star R s ls s' -> R s' l s'' -> star R s (ls ++ [l]) s''.

Lemma star_invariant {S L} (R : S -> L -> S -> Prop) (I : list L -> S -> Prop) s0 :
  I [] s0 ->
  (forall ls s l s', I ls s -> R s l s' -> I (ls ++ [l]) s') ->
  forall ls s, star R s0 ls s -> I ls s.
Proof. intros H0 Hstep ls s H. induction H; eauto. Qed.
