(* ===== verification/Pcie.v ===== *)
(** * Pcie: the FPGA-to-CPU and CPU-to-FPGA ring buffers
    (src/pigasus/software/src/pigasus/pcie/pcie.cc, pcie.h)

    The kernel memory shared with the FPGA is an array of 32-bit words
    ([kdata]).  Slot 0 (16 words) holds the global registers, of which word 0
    is [tail]; slots 1 .. BUFFER_SIZE are the ring; one more page (64 slots)
    follows, into which [dma_run] copies the start of the ring so that a PDU
    that wraps is contiguous.  The FPGA side of the protocol is the descriptor
    logic of src/pigasus/hardware/rtl_sim/src/pcie/fpga2cpu_pcie.sv. *)

From S2P Require Import Prelude.

(** ** Constants of pcie.h *)

Definition BUFFER_SIZE : Z := 16384 * 16 - 1.
Definition C2F_BUFFER_SIZE : Z := 512.
Definition C2F_BUFFER_OFFSET : Z := (BUFFER_SIZE + 1) * 16 + 1024.
Definition PDU_ID_OFFSET : Z := 0.
Definition PDU_SIZE_OFFSET : Z := 6.
Definition PDU_FLIT_OFFSET : Z := 7.
Definition ACTION_OFFSET : Z := 8.
Definition ACTION_NO_MATCH : Z := 1.

(** [allocated_size] of [dma_run], in bytes and in 32-bit words. *)
Definition allocated_size : Z := u32 ((BUFFER_SIZE + 1) * 16 * 4 + 4096).
Definition allocated_words : Z := allocated_size / 4.

(** ** Memory *)

(** The mapped region, word-addressed. *)
Definition mem := Z -> Z.

Definition store (m : mem) (a v : Z) : mem := fun x => if x =? a then v else m x.

(** [memcpy (dst, src, 4 * n)] on words. *)
Definition memcpy (m : mem) (dst src n : Z) : mem :=
  fun x => if (dst <=? x) && (x <? dst + n) then m (src + (x - dst)) else m x.

(** A block of words written by a DMA transfer. *)
Definition write_words (m : mem) (a : Z) (w : list Z) : mem :=
  fun x => if (a <=? x) && (x <? a + Zlen w) then rd0 w (x - a) else m x.

(** [n] words read from address [a]. *)
Definition read_words (m : mem) (a n : Z) : list Z :=
  map (fun k => m (a + Z.of_nat k)) (seq 0 (Z.to_nat n)).

(** ** [block_s] and [fill_block] *)

(** Pointer fields are word addresses into the mapped region. *)
Record block_s := Block {
  pdu_id : Z; dst_port : Z; src_port : Z; dst_ip : Z; src_ip : Z;
  protocol : Z; num_rule_id : Z; pdu_size : Z; pdu_flit : Z; action : Z;
  pdu_payload : Z; rule_id : Z }.

Definition fill_block (m : mem) (addr : Z) (block : block_s) : block_s :=
  let size := m (addr + 6) in
  let reminder := Z.land size 63 in
  let offset := Z.shiftr size 6 in
  let offset := if reminder >? 0 then offset + 1 else offset in
  let offset := (offset + 1) * 16 in
  {| pdu_id := m (addr + 0);
     dst_port := Z.land (m (addr + 1)) 65535;
     src_port := Z.land (Z.shiftr (m (addr + 1)) 16) 65535;
     dst_ip := m (addr + 2);
     src_ip := m (addr + 3);
     protocol := m (addr + 4);
     num_rule_id := m (addr + 5);
     pdu_size := size;
     pdu_flit := m (addr + 7);
     action := action block;
     pdu_payload := addr + 16;
     rule_id := addr + offset |}.

(** ** The main loop of [dma_run] *)

Record dma_state (S : Type) := DmaState {
  kdata : mem;
  cpu_head : Z;
  cpu_head_reg : Z;
  free_slot : Z;
  pdu : block_s;
  rx_pkts : Z;
  num_rules : Z;
  user : S }.
Arguments DmaState {S}. Arguments kdata {S}. Arguments cpu_head {S}.
Arguments cpu_head_reg {S}. Arguments free_slot {S}. Arguments pdu {S}.
Arguments rx_pkts {S}. Arguments num_rules {S}. Arguments user {S}.

(** The copy of the beginning of the ring to the page behind it, for a PDU
    that ends [last] slots from the start of the ring. *)
Definition wrap_copy (m : mem) (last : Z) : mem :=
  if last >? BUFFER_SIZE then
    if negb (last =? BUFFER_SIZE) then
      let copy_size := u32 (last - BUFFER_SIZE) in
      memcpy m ((BUFFER_SIZE + 1) * 16) (1 * 16) (u32 (copy_size * 16 * 4) / 4)
    else m
  else m.

Section dma_run.
Context {S : Type}.
(** [proc_pkt], the callback; its effect is on the caller's own state. *)
Variable proc_pkt : mem -> block_s -> S -> S.

(** One iteration of the loop, in the build without OFFLINE and CAPTURE. *)
Definition dma_body (st : dma_state S) : dma_state S :=
  let cpu_tail := kdata st 0 in
  if cpu_tail =? cpu_head st then st else
  let free := if cpu_tail <=? cpu_head st
              then s32 (u32 (cpu_head st - cpu_tail))
              else s32 (u32 (BUFFER_SIZE - cpu_tail + cpu_head st)) in
  let b := fill_block (kdata st) ((cpu_head st + 1) * 16) (pdu st) in
  let last := u32 (cpu_head st + pdu_flit b) in
  let m := wrap_copy (kdata st) last in
  let s' := proc_pkt m b (user st) in
  let head := if last <? BUFFER_SIZE then last else u32 (last - BUFFER_SIZE) in
  {| kdata := m; cpu_head := head; cpu_head_reg := head; free_slot := free;
     pdu := b; rx_pkts := u64 (rx_pkts st + 1);
     num_rules := u64 (num_rules st + num_rule_id b); user := s' |}.

(** The loop, run for one iteration per element of [env]: the element is
    what the FPGA did to the shared memory before that iteration (given the
    head register); the list ends when [*keep_running] is found 0. *)
Fixpoint dma_loop (env : list (Z -> mem -> mem)) (st : dma_state S) : dma_state S :=
  match env with
  | [] => st
  | f :: env =>
      dma_loop env
        (dma_body {| kdata := f (cpu_head_reg st) (kdata st); cpu_head := cpu_head st;
                     cpu_head_reg := cpu_head_reg st; free_slot := free_slot st;
                     pdu := pdu st; rx_pkts := rx_pkts st; num_rules := num_rules st;
                     user := user st |})
  end.
End dma_run.

(** What the system calls made by [dma_run] before the loop answer. *)
Record setup_env := SetupEnv {
  core_id : Z;              (* sched_getcpu *)
  set_kmem_size : Z;        (* ioctl SET_KMEM_SIZE; non-zero is failure *)
  mmap_kmem : option mem;   (* mmap of the kernel memory, None = MAP_FAILED *)
  mmap_bar2 : bool }.       (* mmap of BAR 2 succeeded *)

(** The part of [dma_run] before the loop: [None] is an early [return]; the
    write [*cpu_head_reg = 0] happens before the loop starts. *)
Definition dma_setup {S} (e : setup_env) (b0 : block_s) (s0 : S) : option (dma_state S) :=
  if core_id e <? 0 then None else
  if truth (set_kmem_size e) then None else
  match mmap_kmem e with
  | None => None
  | Some m =>
      if negb (mmap_bar2 e) then None else
      Some {| kdata := m; cpu_head := 0; cpu_head_reg := 0; free_slot := 0; pdu := b0;
              rx_pkts := 0; num_rules := 0; user := s0 |}
  end.

(** ** The FPGA's side of the ring (fpga2cpu_pcie.sv)

    With [head] the register the CPU writes: the transfer of the words [w]
    (a multiple of 16) waits ([None]) until there is room; then one or two
    data descriptors and the [done] descriptor that publishes the new tail. *)
Definition fpga_free_slot (tail head : Z) : Z :=
  if tail >=? head then BUFFER_SIZE - tail + head - 1 else head - tail - 1.

Definition fpga_dma (head : Z) (m : mem) (w : list Z) : option mem :=
  let rb_size := BUFFER_SIZE in
  let tail := m 0 in
  let dma_size := Zlen w / 16 in
  if fpga_free_slot tail head >=? dma_size then
    let data_addr := 16 * tail + 16 in
    let wrap := tail + dma_size >? rb_size in
    let new_tail := if tail + dma_size >=? rb_size
                    then tail + dma_size - rb_size else tail + dma_size in
    let low := 16 * (rb_size - tail) in
    let m1 := if wrap
              then write_words (write_words m data_addr (slice w 0 low)) 16
                     (slice w low (Zlen w - low))
              else write_words m data_addr w in
    Some (store m1 0 new_tail)
  else None.

(** ** The CPU-to-FPGA ring: [c2f_copy_head] *)

Definition c2f_free_slot (c2f_tail c2f_head : Z) : Z :=
  if c2f_tail <? c2f_head then u32 (c2f_head - c2f_tail - 1)
  else u32 (C2F_BUFFER_SIZE - c2f_tail + c2f_head - 1).

(** The reads of [global_block->c2f_head] until there is a free slot; [heads]
    are the values read, [None] when they end and the loop still spins. *)
Fixpoint c2f_wait (c2f_tail : Z) (heads : list Z) : option Z :=
  match heads with
  | [] => None
  | h :: heads =>
      if c2f_free_slot c2f_tail h <? 1 then c2f_wait c2f_tail heads
      else Some (c2f_free_slot c2f_tail h)
  end.

Definition c2f_copy_head (c2f_tail : Z) (heads : list Z) (block : block_s) (kdata : mem)
    : option (Z * mem) :=
  match c2f_wait c2f_tail heads with
  | None => None
  | Some _ =>
      let base_addr := u32 (C2F_BUFFER_OFFSET + c2f_tail * 16) in
      let kdata := store kdata (base_addr + PDU_ID_OFFSET) (pdu_id block) in
      let kdata := store kdata (base_addr + PDU_SIZE_OFFSET) (pdu_size block) in
      let kdata := store kdata (base_addr + PDU_FLIT_OFFSET)
                     (u32 (pdu_flit block - num_rule_id block - 1)) in
      let kdata := store kdata (base_addr + ACTION_OFFSET) ACTION_NO_MATCH in
      Some (if c2f_tail =? C2F_BUFFER_SIZE - 1 then 0 else c2f_tail + 1, kdata)
  end.

(** ** [get_dev_handles] *)

Record handles_env := HandlesEnv {
  open_drv : Z; open_uio : Z;       (* open(2) results, negative on error *)
  ioctl_get_dev : Z; ioctl_get_bar : Z }.

(** The result: the returned value, the two handles as the function leaves
    them ([None]: not assigned) and the descriptors it closed, in order. *)
Definition get_dev_handles (e : handles_env) : Z * option Z * option Z * list Z :=
  let fd := open_drv e in
  if fd <? 0 then (fd, None, None, []) else
  let dev_handle := fd in
  let fd := open_uio e in
  if fd <? 0 then (fd, Some dev_handle, None, [dev_handle]) else
  let uio_dev_handle := fd in
  let c1 := if truth (ioctl_get_dev e) then [dev_handle; uio_dev_handle] else [] in
  let c2 := if truth (ioctl_get_bar e) then [dev_handle; uio_dev_handle] else [] in
  (0, Some dev_handle, Some uio_dev_handle, c1 ++ c2).

(** ** The abstract queue and the representation invariant *)

Definition ring_words : Z := 16 * BUFFER_SIZE.

(** Address of the word at distance [p] (in words, [p] below twice the ring)
    from the start of the ring. *)
Definition ring_addr (p : Z) : Z := 16 + (if p <? ring_words then p else p - ring_words).

(** A PDU as the FPGA sends it: whole flits, the flit count in word 7 of the
    header.  65 flits are what the extra page can straighten out; neither side
    of the ring checks this limit. *)
Definition pdu_wf (w : list Z) : Prop :=
  exists f, Zlen w = 16 * f /\ 1 <= f <= 65 /\ rd0 w 7 = f.

(** [ring_rep head m q]: memory [m], with the consumer at [head], holds the
    queue [q] of PDUs. *)
Record ring_rep (head : Z) (m : mem) (q : list (list Z)) : Prop := {
  rr_head : 0 <= head < BUFFER_SIZE;
  rr_wf : Forall pdu_wf q;
  rr_room : Zlen (concat q) <= 16 * (BUFFER_SIZE - 1);
  rr_tail : 16 + 16 * m 0 = ring_addr (16 * head + Zlen (concat q));
  rr_data : forall k, 0 <= k < Zlen (concat q) ->
              m (ring_addr (16 * head + k)) = rd0 (concat q) k }.

(** The words of the PDU whose header [block] was filled from. *)
Definition pdu_words (m : mem) (b : block_s) : list Z :=
  read_words m (pdu_payload b - 16) (16 * pdu_flit b).

(** A handler that looks at its PDU only. *)
Definition on_words {S} (handle : list Z -> S -> S) (m : mem) (b : block_s) (s : S) : S := handle (pdu_words m b) s.

Section ring.
Context {S : Type} (proc : mem -> block_s -> S -> S).

(** Steps of the whole system: the FPGA transfers a PDU, or the CPU runs one
    iteration of its loop, with the handler on the shared memory. *)
Inductive label := Transfer (w : list Z) | Poll.

Inductive mem_step : dma_state S -> label -> dma_state S -> Prop :=
| step_transfer st w m :
    pdu_wf w ->
    fpga_dma (cpu_head_reg st) (kdata st) w = Some m ->
    mem_step st (Transfer w)
      {| kdata := m; cpu_head := cpu_head st; cpu_head_reg := cpu_head_reg st;
         free_slot := free_slot st; pdu := pdu st; rx_pkts := rx_pkts st;
         num_rules := num_rules st; user := user st |}
| step_poll st : mem_step st Poll (dma_body proc st).

Definition transfers (ls : list label) : list (list Z) :=
  omap (fun l => match l with Transfer w => Some w | Poll => None end) ls.
End ring.
Abbreviation ring_step handle := (mem_step (on_words handle)).

(** *** Arithmetic of the ring *)

Ltac ring_unfold := unfold ring_addr, ring_words, BUFFER_SIZE in *.
Ltac ring_lia := ring_unfold; bcases_hyp; bcases; lia.

Lemma concat_words q : Forall pdu_wf q -> exists F, Zlen (concat q) = 16 * F /\ 0 <= F.
Proof.
  induction 1 as [|w q (f & Hf & ? & _) _ (F & HF & ?)]; simpl; [by exists 0|].
  exists (f + F). rewrite Zlen_app. lia.
Qed.

Lemma read_words_eq m a (w : list Z) :
  (forall k, 0 <= k < Zlen w -> m (a + k) = rd0 w k) -> read_words m a (Zlen w) = w.
Proof.
  intros H. apply list_eq. intros i. unfold read_words, Zlen. rewrite Nat2Z.id.
  destruct (decide (i < length w)%nat) as [Hi|Hi].
  - rewrite list_lookup_fmap, lookup_seq_lt by done. simpl.
    rewrite H by (unfold Zlen; lia). unfold rd0, rd.
    bcases; [lia|]. rewrite Nat2Z.id.
    by destruct (lookup_lt_is_Some_2 w i Hi) as [x ->].
  - rewrite !lookup_ge_None_2; [done|lia|]. rewrite length_map, length_seq. lia.
Qed.

(** *** The producer preserves the representation *)

Lemma ring_rep_tail head m q F :
  ring_rep head m q -> Zlen (concat q) = 16 * F ->
  m 0 = (if head + F <? BUFFER_SIZE then head + F else head + F - BUFFER_SIZE) /\
  fpga_free_slot (m 0) head = BUFFER_SIZE - F - 1.
Proof.
  intros [Hh Hwf Hroom Htail _] HF. rewrite HF in *.
  assert (m 0 = if head + F <? BUFFER_SIZE then head + F else head + F - BUFFER_SIZE) as Hm0.
  { ring_unfold. revert Htail. bcases; lia. }
  pose proof (Zlen_nonneg (concat q)).
  split; [done|]. unfold fpga_free_slot. rewrite Hm0. ring_unfold. bcases; lia.
Qed.

Lemma fpga_dma_room head m q w :
  ring_rep head m q -> pdu_wf w ->
  fpga_dma head m w = None <-> Zlen (concat q) + Zlen w > 16 * (BUFFER_SIZE - 1).
Proof.
  intros Hrep (f & Hf & ? & _).
  destruct (concat_words q (rr_wf _ _ _ Hrep)) as (F & HF & ?).
  destruct (ring_rep_tail _ _ _ _ Hrep HF) as [_ Hfree].
  unfold fpga_dma. rewrite Hfree, Hf, HF, (Z.mul_comm 16 f), Z.div_mul by lia.
  bcase (BUFFER_SIZE - F - 1 >=? f) as E; split; try done; lia.
Qed.

(** What a transfer writes, addressed by distance from the old tail. *)
Lemma fpga_dma_words head m q w m' F :
  ring_rep head m q -> pdu_wf w -> Zlen (concat q) = 16 * F ->
  fpga_dma head m w = Some m' ->
  (forall k, 0 <= k < 16 * F -> m' (ring_addr (16 * head + k)) = m (ring_addr (16 * head + k))) /\
  (forall k, 0 <= k < Zlen w -> m' (ring_addr (16 * head + (16 * F + k))) = rd0 w k) /\
  16 + 16 * m' 0 = ring_addr (16 * head + (16 * F + Zlen w)).
Proof.
  intros Hrep Hw HF Hdma.
  assert (Zlen (concat q) + Zlen w <= 16 * (BUFFER_SIZE - 1)) as Hfit.
  { pose proof (fpga_dma_room head m q w Hrep Hw) as [_ Hr].
    destruct (Z.le_gt_cases (Zlen (concat q) + Zlen w) (16 * (BUFFER_SIZE - 1))); [done|].
    rewrite Hr in Hdma by lia. done. }
  pose proof (rr_head _ _ _ Hrep). pose proof (Zlen_nonneg (concat q)).
  destruct (ring_rep_tail _ _ _ _ Hrep HF) as [Hm0 _].
  destruct Hw as (f & Hf & ? & _).
  unfold fpga_dma in Hdma. rewrite Hf, (Z.mul_comm 16 f), Z.div_mul in Hdma by lia.
  destruct (_ >=? _) in Hdma; [|done]. injection Hdma as <-. rewrite Hm0.
  rewrite (Z.mul_comm f 16), Hf. clear Hm0 Hrep. unfold store.
  set (t := if head + F <? BUFFER_SIZE then _ else _).
  assert (0 <= t < BUFFER_SIZE /\ (t = head + F \/ t = head + F - BUFFER_SIZE)) as [Ht Ht']
    by (subst t; ring_lia).
  clearbody t. repeat split.
  - intros k Hk. bcase (ring_addr (16 * head + k) =? 0) as E0; [ring_lia|].
    destruct (t + f >? BUFFER_SIZE) eqn:Ew; breflect; unfold write_words.
    + rewrite !Zlen_slice by ring_lia. ring_unfold. bcases; try lia.
    + rewrite Hf. ring_unfold. bcases; lia.
  - intros k Hk. bcase (ring_addr (16 * head + (16 * F + k)) =? 0) as E0; [ring_lia|].
    destruct (t + f >? BUFFER_SIZE) eqn:Ew; breflect; unfold write_words.
    + rewrite !Zlen_slice by ring_lia. ring_unfold.
      bcases; try lia; rewrite rd0_slice by lia; f_equal; lia.
    + rewrite Hf. ring_unfold. bcases; try lia; f_equal; lia.
  - ring_unfold. bcases; try lia.
Qed.

Lemma fpga_dma_rep head m q w m' :
  ring_rep head m q -> pdu_wf w -> fpga_dma head m w = Some m' ->
  ring_rep head m' (q ++ [w]).
Proof.
  intros Hrep Hw Hdma.
  destruct (concat_words q (rr_wf _ _ _ Hrep)) as (F & HF & ?).
  destruct (fpga_dma_words _ _ _ _ _ _ Hrep Hw HF Hdma) as (Hold & Hnew & Htail).
  assert (concat (q ++ [w]) = concat q ++ w) as Hcat
    by (rewrite concat_app; simpl; by rewrite app_nil_r).
  assert (~ Zlen (concat q) + Zlen w > 16 * (BUFFER_SIZE - 1)) as Hroom.
  { intros Hbig%(fpga_dma_room head m q w Hrep Hw). congruence. }
  destruct Hrep as [Hh Hwf _ _ Hdata].
  constructor; rewrite ?Hcat, ?Zlen_app, ?HF; auto using Forall_app_2; [lia|].
  intros k Hk. destruct (Z.lt_ge_cases k (16 * F)).
  - rewrite Hold, rd0_app_l, Hdata by lia. done.
  - rewrite rd0_app_r by lia. rewrite HF, <- Hnew by lia. do 2 f_equal. lia.
Qed.

(** *** The consumer takes the first PDU *)

Lemma wrap_copy_spec m last :
  0 <= last < BUFFER_SIZE + 65 ->
  (forall x, x < (BUFFER_SIZE + 1) * 16 -> wrap_copy m last x = m x) /\
  (forall j, 0 <= j < 16 * (last - BUFFER_SIZE) ->
     wrap_copy m last ((BUFFER_SIZE + 1) * 16 + j) = m (16 + j)) /\
  (forall x, allocated_words <= x -> wrap_copy m last x = m x).
Proof.
  intros Hl. assert (allocated_words = (BUFFER_SIZE + 1) * 16 + 1024) as Ha by done.
  rewrite Ha. clear Ha. unfold wrap_copy.
  bcase (last >? BUFFER_SIZE) as E; [|split_and!; intros; [done|lia|done]].
  bcase (negb (last =? BUFFER_SIZE)) as E2; [|lia].
  assert (u32 (u32 (last - BUFFER_SIZE) * 16 * 4) / 4 = 16 * (last - BUFFER_SIZE)) as ->
    by (unfold BUFFER_SIZE in *; mlia).
  unfold memcpy. split_and!; intros; bcases; try lia; try done; f_equal; lia.
Qed.

(** The loop body on a non-empty ring whose head flit count is [f]. *)
Lemma dma_body_eq {S} (proc : mem -> block_s -> S -> S) st f :
  let b := fill_block (kdata st) ((cpu_head st + 1) * 16) (pdu st) in
  let m := wrap_copy (kdata st) (cpu_head st + f) in
  let st' := dma_body proc st in
  0 <= cpu_head st < BUFFER_SIZE -> 1 <= f <= 65 -> kdata st 0 <> cpu_head st ->
  pdu_flit b = f ->
  kdata st' = m /\ pdu st' = b /\ user st' = proc m b (user st) /\
  rx_pkts st' = u64 (rx_pkts st + 1) /\ cpu_head_reg st' = cpu_head st' /\
  cpu_head st' = if cpu_head st + f <? BUFFER_SIZE then cpu_head st + f
                 else cpu_head st + f - BUFFER_SIZE.
Proof.
  intros b m st' Hh Hf Hne Hb. subst st'. unfold dma_body.
  bcase (kdata st 0 =? cpu_head st) as E; [done|]. fold b. rewrite Hb.
  rewrite (u32_small (cpu_head st + f)) by (unfold BUFFER_SIZE in *; mlia).
  simpl. repeat split. bcases; [done|]. apply u32_small. unfold BUFFER_SIZE in *. mlia.
Qed.

(** The PDU at the head of a represented queue is read in full: after the
    wrap-around copy its words are contiguous from the header on. *)
Lemma dma_body_take {S} (proc : mem -> block_s -> S -> S) st w q :
  ring_rep (cpu_head st) (kdata st) (w :: q) ->
  let st' := dma_body proc st in
  user st' = proc (kdata st') (pdu st') (user st) /\
  pdu_words (kdata st') (pdu st') = w /\
  pdu st' = fill_block (kdata st') ((cpu_head st + 1) * 16) (pdu st) /\
  ring_rep (cpu_head st') (kdata st') q /\ cpu_head_reg st' = cpu_head st' /\
  rx_pkts st' = u64 (rx_pkts st + 1) /\
  (forall x, ~ (BUFFER_SIZE + 1) * 16 <= x < allocated_words -> kdata st' x = kdata st x).
Proof.
  intros Hrep st'. destruct (concat_words _ (rr_wf _ _ _ Hrep)) as (T & HT & HT0).
  destruct (ring_rep_tail _ _ _ _ Hrep HT) as [Hm0 _].
  destruct Hrep as [Hh Hwf Hroom _ Hdata].
  apply Forall_cons_1 in Hwf as [(f & Hf & Hfr & Hf7) Hwfq]. simpl in *.
  rewrite Zlen_app in *. destruct (concat_words q Hwfq) as (F & HF & ?).
  destruct (dma_body_eq proc st f) as (Hk & Hp & Hu & Hrx & Hreg & Hhd);
    [done|done| |rewrite <- Hf7; unfold fill_block; simpl|].
  { rewrite Hm0. ring_lia. }
  { rewrite <- (rd0_app_l w (concat q)), <- Hdata by lia. f_equal. ring_lia. }
  destruct (wrap_copy_spec (kdata st) (cpu_head st + f)) as (Hlow & Hhigh & Hout); [lia|].
  fold st' in Hk, Hp, Hu, Hrx, Hreg, Hhd. rewrite Hk, Hp, Hu. split_and!; auto;
    [..|intros x Hx; destruct (Z.lt_ge_cases x ((BUFFER_SIZE + 1) * 16)); [by apply Hlow|apply Hout; lia]].
  - unfold pdu_words, fill_block. simpl.
    replace (kdata st ((cpu_head st + 1) * 16 + 7)) with f.
    2: { rewrite <- Hf7, <- (rd0_app_l w (concat q)), <- Hdata by lia. f_equal. ring_lia. }
    rewrite <- Hf. apply read_words_eq. intros k Hk'.
    rewrite <- (rd0_app_l w (concat q)), <- Hdata by lia.
    destruct (Z.lt_ge_cases (16 * cpu_head st + k) ring_words).
    + rewrite Hlow by ring_lia. f_equal. ring_lia.
    + replace ((cpu_head st + 1) * 16 + 16 - 16 + k)
        with ((BUFFER_SIZE + 1) * 16 + (16 * cpu_head st + k - ring_words)) by ring_lia.
      rewrite Hhigh by ring_lia. f_equal. ring_lia.
  - unfold fill_block. rewrite !Hlow by ring_lia. done.
  - rewrite Hhd. constructor; auto.
    + ring_lia.
    + lia.
    + rewrite Hlow by (unfold BUFFER_SIZE; lia). rewrite Hm0. ring_lia.
    + intros k Hk'. rewrite Hlow by ring_lia.
      replace (rd0 (concat q) k) with (rd0 (w ++ concat q) (16 * f + k))
        by (rewrite rd0_app_r by lia; f_equal; lia).
      rewrite <- Hdata by lia. f_equal. ring_lia.
Qed.

(** A PDU that ends too far behind the ring: the copy leaves the region. *)
Lemma dma_body_overrun {S} (proc : mem -> block_s -> S -> S) st :
  let f := kdata st ((cpu_head st + 1) * 16 + PDU_FLIT_OFFSET) in
  0 <= cpu_head st < BUFFER_SIZE -> kdata st 0 <> cpu_head st -> f <= BUFFER_SIZE ->
  BUFFER_SIZE + 64 < cpu_head st + f -> kdata (dma_body proc st) allocated_words = kdata st (16 + 1024).
Proof.
  intros f Hh Hne Hf1 Hf2. unfold dma_body. bcase (kdata st 0 =? cpu_head st) as E; [done|].
  cbn [kdata pdu_flit fill_block]. change (kdata st ((cpu_head st + 1) * 16 + 7)) with f.
  rewrite (u32_small (cpu_head st + f)) by (unfold BUFFER_SIZE in *; mlia).
  change allocated_words with ((BUFFER_SIZE + 1) * 16 + 1024). unfold wrap_copy. bcases; try lia.
  assert (u32 (u32 (cpu_head st + f - BUFFER_SIZE) * 16 * 4) / 4 = 16 * (cpu_head st + f - BUFFER_SIZE)) as ->
    by (unfold BUFFER_SIZE in *; mlia).
  unfold memcpy. bcases; try lia; f_equal; lia.
Qed.

Lemma dma_body_idle {S} (proc : mem -> block_s -> S -> S) st :
  ring_rep (cpu_head st) (kdata st) [] -> dma_body proc st = st.
Proof.
  intros Hrep. destruct (ring_rep_tail _ _ _ 0 Hrep eq_refl) as [Hm0 _].
  pose proof (rr_head _ _ _ Hrep). unfold dma_body. rewrite Hm0.
  rewrite Z.add_0_r. bcases; try done; lia.
Qed.

(** *** Invariant of the reachable states *)

Lemma transfers_snoc ls l :
  transfers (ls ++ [l]) =
  transfers ls ++ match l with Transfer w => [w] | Poll => [] end.
Proof. unfold transfers. rewrite omap_app. by destruct l. Qed.

Section reachable.
Context {S : Type} (proc : mem -> block_s -> S -> S) (handle : list Z -> S -> S) (good : list Z -> Prop).
(** On the memory with a good PDU the handler does what [handle] does on its
    words. *)
Hypothesis proc_handle : forall m addr b0 s w, good w -> pdu_words m (fill_block m addr b0) = w ->
  proc m (fill_block m addr b0) s = handle w s.

Definition run_handler (ws : list (list Z)) (s : S) : S :=
  fold_left (fun s w => handle w s) ws s.

(** After the steps [ls] the ring holds the last of the transferred PDUs and, if
    all are good, the handler has run on the others. *)
Definition ring_inv (s0 : S) (ls : list label) (st : dma_state S) : Prop :=
  exists taken q, transfers ls = taken ++ q /\
    ring_rep (cpu_head st) (kdata st) q /\ cpu_head_reg st = cpu_head st /\ rx_pkts st = u64 (Zlen taken) /\
    (Forall good (transfers ls) -> user st = run_handler taken s0).

Lemma take_handled st w q : ring_rep (cpu_head st) (kdata st) (w :: q) -> good w ->
  user (dma_body proc st) = handle w (user st).
Proof.
  intros Hrep Hw. pose proof (dma_body_take proc st w q Hrep) as (-> & Ew & Eb & _).
  rewrite Eb in Ew |- *. by apply proc_handle.
Qed.

Lemma ring_inv_poll s0 ls st :
  ring_inv s0 ls st -> ring_inv s0 (ls ++ [Poll]) (dma_body proc st).
Proof.
  intros (taken & q & Htr & Hrep & Hreg & Hrx & Hu).
  destruct q as [|w q].
  - rewrite dma_body_idle by done. exists taken, [].
    rewrite transfers_snoc, app_nil_r. auto.
  - pose proof (dma_body_take proc st w q Hrep) as (_ & _ & _ & Hrep' & Hreg' & Hrx' & _).
    exists (taken ++ [w]), q. rewrite transfers_snoc, app_nil_r, <- app_assoc.
    split_and!; auto.
    + rewrite Hrx', Hrx, Zlen_app, Zlen_cons, Zlen_nil. mlia.
    + intros Hgood. assert (good w) as Hw by (rewrite Htr in Hgood; by apply Forall_app in Hgood as [_ [? _]%Forall_cons_1]).
      rewrite (take_handled st w q Hrep Hw), Hu by done. unfold run_handler. by rewrite fold_left_app.
Qed.

Lemma ring_inv_transfer s0 ls st w m :
  ring_inv s0 ls st -> pdu_wf w -> fpga_dma (cpu_head_reg st) (kdata st) w = Some m ->
  ring_inv s0 (ls ++ [Transfer w])
    {| kdata := m; cpu_head := cpu_head st; cpu_head_reg := cpu_head_reg st;
       free_slot := free_slot st; pdu := pdu st; rx_pkts := rx_pkts st;
       num_rules := num_rules st; user := user st |}.
Proof.
  intros (taken & q & Htr & Hrep & Hreg & Hrx & Hu) Hw Hm.
  exists taken, (q ++ [w]). rewrite transfers_snoc, Htr, <- app_assoc. simpl.
  rewrite Hreg in Hm. split_and!; auto; [by eapply fpga_dma_rep|].
  rewrite app_assoc, <- Htr. intros [Hg _]%Forall_app. by apply Hu.
Qed.

Lemma ring_inv_init e b0 (s0 : S) m st0 :
  mmap_kmem e = Some m -> m 0 = 0 -> dma_setup e b0 s0 = Some st0 -> ring_inv s0 [] st0.
Proof.
  intros Hm H0 Hst. unfold dma_setup in Hst. rewrite Hm in Hst.
  repeat (case_match; [done|]). injection Hst as <-.
  exists [], []. split_and!; try done. constructor; simpl; try done.
  - rewrite H0. done.
  - intros k Hk. unfold Zlen in Hk. simpl in Hk. lia.
Qed.

Lemma ring_reachable e b0 (s0 : S) m st0 ls st :
  mmap_kmem e = Some m -> m 0 = 0 -> dma_setup e b0 s0 = Some st0 ->
  star (mem_step proc) st0 ls st -> ring_inv s0 ls st.
Proof.
  intros Hm H0 Hst. apply star_invariant.
  - eapply ring_inv_init; eauto.
  - intros ls' s l s' HI Hstep. destruct Hstep; auto using ring_inv_poll, ring_inv_transfer.
Qed.

(** [n] iterations without a transfer take the first [n] PDUs (or all). *)
Lemma poll_many (n : nat) st q :
  ring_rep (cpu_head st) (kdata st) q -> Forall good q ->
  let st' := Nat.iter n (dma_body proc) st in
  ring_rep (cpu_head st') (kdata st') (drop n q) /\
  user st' = run_handler (take n q) (user st).
Proof.
  intros Hrep Hgood. induction n as [|n [IHr IHu]]; [done|].
  rewrite Nat.iter_succ. set (st' := Nat.iter n _ st) in *.
  destruct (drop n q) as [|w q'] eqn:Hq.
  - rewrite dma_body_idle by done. apply (f_equal length) in Hq as Hlen.
    rewrite length_drop in Hlen. simpl in Hlen.
    rewrite drop_ge, take_ge by lia. rewrite take_ge in IHu by lia. auto.
  - pose proof (dma_body_take proc st' w q' IHr) as (_ & _ & _ & Hrep' & _).
    assert (q !! n = Some w) as Hn by (rewrite <- (Nat.add_0_r n), <- lookup_drop; by rewrite Hq).
    assert (drop (Datatypes.S n) q = q') as ->
      by (rewrite (drop_S q w n Hn) in Hq; by injection Hq).
    rewrite (take_S_r _ _ w) by done. split; [done|].
    rewrite (take_handled st' w q' IHr), IHu by (eapply Forall_lookup_1; eauto). unfold run_handler. by rewrite fold_left_app.
Qed.

(** Iterating as often as there were transfers handles all of them. *)
Lemma ring_drained e b0 s0 m st0 ls st :
  mmap_kmem e = Some m -> m 0 = 0 -> dma_setup e b0 s0 = Some st0 ->
  star (mem_step proc) st0 ls st -> Forall good (transfers ls) ->
  user (Nat.iter (length (transfers ls)) (dma_body proc) st) =
  fold_left (fun s w => handle w s) (transfers ls) s0.
Proof.
  intros Hm H0 Hst Hstar Hgood.
  destruct (ring_reachable _ _ _ _ _ _ _ Hm H0 Hst Hstar) as (taken & q & Htr & Hrep & _ & _ & Hu).
  specialize (Hu Hgood). rewrite Htr in Hgood. apply Forall_app in Hgood as [_ Hgood].
  destruct (poll_many (length (transfers ls)) st q Hrep Hgood) as [_ ->].
  rewrite Hu, Htr, take_ge by (rewrite length_app; lia).
  unfold run_handler. by rewrite fold_left_app.
Qed.
End reachable.

(** Handlers on the words of their PDU. *)
Lemma on_words_handle {S} (handle : list Z -> S -> S) m addr b0 s w :
  True -> pdu_words m (fill_block m addr b0) = w -> on_words handle m (fill_block m addr b0) s = handle w s.
Proof. by intros _ <-. Qed.

(** *** Properties *)

(** C1. The ring is a lossless FIFO: whatever the interleaving of FPGA
    transfers and loop iterations after a successful setup (on memory whose
    tail register is 0), the packet handler has been run exactly on the first
    [rx_pkts] PDUs transferred, in order and each with all its words in place
    (PDUs that wrap around the end of the ring included), and the ring holds
    exactly the others. *)
Theorem dma_run_fifo {S} (handle : list Z -> S -> S) e b0 s0 m st0 ls st :
  mmap_kmem e = Some m -> m 0 = 0 -> dma_setup e b0 s0 = Some st0 ->
  star (ring_step handle) st0 ls st ->
  exists taken q, transfers ls = taken ++ q /\
    user st = fold_left (fun s w => handle w s) taken s0 /\
    rx_pkts st = u64 (Zlen taken) /\
    ring_rep (cpu_head st) (kdata st) q.
Proof.
  intros Hm H0 Hst Hstar.
  destruct (ring_reachable _ handle (fun _ => True) (on_words_handle handle) _ _ _ _ _ _ _ Hm H0 Hst Hstar)
    as (taken & q & ? & ? & _ & ? & Hu).
  exists taken, q. split_and!; auto. apply Hu. by apply Forall_true.
Qed.

(** C2. Nothing stays in the ring: from every reachable state, as many loop
    iterations as there are transferred PDUs run the handler on all of them. *)
Theorem dma_run_drains {S} (handle : list Z -> S -> S) e b0 s0 m st0 ls st :
  mmap_kmem e = Some m -> m 0 = 0 -> dma_setup e b0 s0 = Some st0 ->
  star (ring_step handle) st0 ls st ->
  user (Nat.iter (length (transfers ls)) (dma_body (on_words handle)) st) =
  fold_left (fun s w => handle w s) (transfers ls) s0.
Proof.
  intros Hm H0 Hst Hstar. eapply (ring_drained _ handle (fun _ => True) (on_words_handle handle)); eauto. by apply Forall_true.
Qed.

(** C3. Memory safety of an iteration, for any handler.  As long as the FPGA
    transfers PDUs of at most 65 flits, in every reachable state nothing but the
    page behind the ring is written, and the flits of the PDU handed to the
    handler lie inside the allocated region, straightened copy included.  Nothing
    checks the number of flits, and what the page takes is exact: a PDU that ends
    more than 64 slots behind the ring makes the copy write behind the region. *)
Theorem dma_run_in_bounds {S} (proc : mem -> block_s -> S -> S) e b0 s0 m st0 ls st :
  mmap_kmem e = Some m -> m 0 = 0 -> dma_setup e b0 s0 = Some st0 ->
  star (mem_step proc) st0 ls st ->
  (let st' := dma_body proc st in
   (forall x, ~ (BUFFER_SIZE + 1) * 16 <= x < allocated_words -> kdata st' x = kdata st x) /\
   (rx_pkts st' <> rx_pkts st ->
    16 <= pdu_payload (pdu st') - 16 /\
    pdu_payload (pdu st') - 16 + 16 * pdu_flit (pdu st') <= allocated_words)) /\
  (forall st1 : dma_state S, let f := kdata st1 ((cpu_head st1 + 1) * 16 + PDU_FLIT_OFFSET) in
   0 <= cpu_head st1 < BUFFER_SIZE -> kdata st1 0 <> cpu_head st1 -> f <= BUFFER_SIZE ->
   BUFFER_SIZE + 64 < cpu_head st1 + f -> kdata (dma_body proc st1) allocated_words = kdata st1 (16 + 1024)).
Proof.
  intros Hm H0 Hst Hstar. split; [|intros st1 f Hh Hne Hf1 Hf2; by apply dma_body_overrun].
  destruct (ring_reachable proc (fun _ s => s) (fun _ => False) ltac:(done) _ _ _ _ _ _ _ Hm H0 Hst Hstar)
    as (taken & q & Htr & Hrep & _).
  destruct q as [|w q]; [by rewrite dma_body_idle|].
  pose proof (dma_body_take proc st w q Hrep) as (_ & Hw & Hpay & _ & _ & _ & Hout).
  split; [done|]. intros _. rewrite Hpay. cbn [pdu_payload fill_block].
  pose proof (rr_head _ _ _ Hrep) as Hh.
  pose proof (rr_wf _ _ _ Hrep) as [(f & Hf & Hfr & _) _]%Forall_cons_1.
  rewrite <- Hw, Hpay in Hf. unfold pdu_words, read_words, Zlen in Hf.
  rewrite length_map, length_seq in Hf.
  assert (allocated_words = (BUFFER_SIZE + 1) * 16 + 1024) as -> by done. lia.
Qed.

(** A run of the system: one PDU of one flit is transferred, then polled. *)
Definition demo_env : setup_env :=
  {| core_id := 0; set_kmem_size := 0; mmap_kmem := Some (fun _ => 0); mmap_bar2 := true |}.
Definition demo_block : block_s := Block 0 0 0 0 0 0 0 0 0 0 0 0.
Definition demo_pdu : list Z := [11; 22; 33; 44; 6; 0; 0; 1; 0; 0; 0; 0; 0; 0; 0; 0].
Definition demo_handle (w : list Z) (s : list (list Z)) : list (list Z) := s ++ [w].
Definition demo_st0 : dma_state (list (list Z)) :=
  DmaState (fun _ => 0) 0 0 0 demo_block 0 0 [].
Definition demo_st1 : dma_state (list (list Z)) :=
  DmaState (store (write_words (fun _ => 0) 16 demo_pdu) 0 1) 0 0 0 demo_block 0 0 [].

Lemma demo_star1 : star (ring_step demo_handle) demo_st0 [Transfer demo_pdu] demo_st1.
Proof.
  apply (star_snoc _ _ [] demo_st0 (Transfer demo_pdu)); [constructor|].
  apply (step_transfer (on_words demo_handle) demo_st0); [|reflexivity].
  exists 1. split_and!; vm_compute; congruence.
Qed.
Lemma demo_star :
  star (ring_step demo_handle) demo_st0 [Transfer demo_pdu; Poll]
    (dma_body (on_words demo_handle) demo_st1).
Proof. apply (star_snoc _ _ [Transfer demo_pdu] demo_st1 Poll); [exact demo_star1|constructor]. Qed.

Lemma dma_run_fifo_witness :
  exists taken q, [demo_pdu] = taken ++ q /\
    user (dma_body (on_words demo_handle) demo_st1) =
      fold_left (fun s w => demo_handle w s) taken [] /\
    rx_pkts (dma_body (on_words demo_handle) demo_st1) = u64 (Zlen taken) /\
    ring_rep (cpu_head (dma_body (on_words demo_handle) demo_st1))
      (kdata (dma_body (on_words demo_handle) demo_st1)) q.
Proof.
  apply (dma_run_fifo demo_handle demo_env demo_block [] (fun _ => 0) demo_st0
           [Transfer demo_pdu; Poll] (dma_body (on_words demo_handle) demo_st1));
    [reflexivity..|exact demo_star].
Defined.

Lemma dma_run_drains_witness :
  user (dma_body (on_words demo_handle) (dma_body (on_words demo_handle) demo_st1)) = [demo_pdu].
Proof.
  apply (dma_run_drains demo_handle demo_env demo_block [] (fun _ => 0) demo_st0
           [Transfer demo_pdu; Poll] (dma_body (on_words demo_handle) demo_st1));
    [reflexivity..|exact demo_star].
Defined.

(** The consumer at the last slot, with a PDU of 66 flits. *)
Definition overrun_st : dma_state (list (list Z)) :=
  DmaState (fun x => if x =? BUFFER_SIZE * 16 + 7 then 66 else x) (BUFFER_SIZE - 1) (BUFFER_SIZE - 1) 0 demo_block 0 0 [].

Lemma dma_run_in_bounds_witness :
  let st' := dma_body (on_words demo_handle) demo_st1 in
  (forall x, ~ (BUFFER_SIZE + 1) * 16 <= x < allocated_words -> kdata st' x = kdata demo_st1 x) /\
  rx_pkts st' = 1 /\
  (16 <= pdu_payload (pdu st') - 16 /\ pdu_payload (pdu st') - 16 + 16 * pdu_flit (pdu st') <= allocated_words) /\
  kdata (dma_body (on_words demo_handle) overrun_st) allocated_words = 1040.
Proof.
  destruct (dma_run_in_bounds (on_words demo_handle) demo_env demo_block [] (fun _ => 0) demo_st0
           [Transfer demo_pdu] demo_st1 eq_refl eq_refl eq_refl demo_star1) as [[H1 H2] H3].
  split; [exact H1|]. split; [reflexivity|]. split; [apply H2; discriminate|].
  apply (H3 overrun_st); vm_compute; [split; congruence|congruence|congruence|reflexivity].
Defined.

(** [fill_block] decodes the header the FPGA writes: the ports are the
    halves of word 1, the payload starts one flit after the header, and the
    rule ids start at the first flit boundary at or after the payload's last
    byte. *)
Theorem fill_block_layout m addr b0 src dst :
  is_u16 src -> is_u16 dst -> is_u32 (m (addr + 6)) ->
  m (addr + 1) = Z.lor (Z.shiftl src 16) dst ->
  let b := fill_block m addr b0 in
  src_port b = src /\ dst_port b = dst /\
  pdu_payload b = addr + 16 /\
  (exists n, rule_id b = pdu_payload b + 16 * n /\
             64 * (n - 1) < pdu_size b <= 64 * n).
Proof.
  intros Hs Hd Hsz H1. simpl. rewrite H1.
  rewrite lor_shiftl by (unfold is_u16 in *; lia).
  rewrite Z.shiftr_div_pow2 by lia. change 65535 with (Z.ones 16).
  rewrite !Z.land_ones by lia. split_and!; [mlia..|done|].
  change 63 with (Z.ones 6). rewrite Z.land_ones, Z.shiftr_div_pow2 by lia.
  set (z := m (addr + 6)) in *. change (2 ^ 6) with 64.
  bcase (z mod 64 >? 0) as E; [exists (z / 64 + 1)|exists (z / 64)]; mlia.
Qed.

Lemma fill_block_layout_witness :
  let b := fill_block (fun a => if a =? 1 then 5242900 else if a =? 6 then 65 else 0) 0 demo_block in
  src_port b = 80 /\ dst_port b = 20 /\ pdu_payload b = 0 + 16 /\
  (exists n, rule_id b = pdu_payload b + 16 * n /\ 64 * (n - 1) < pdu_size b <= 64 * n).
Proof. apply fill_block_layout; [mlia|mlia|simpl; mlia|reflexivity]. Defined.

(** [c2f_copy_head] with its pointers inside the ring: it returns exactly
    when some read of the FPGA's head shows a ring that is not full (one slot
    is always kept free), and then advances the tail by one slot modulo the
    ring and writes the four response words of the slot at the old tail and
    no other word. *)
Theorem c2f_copy_head_spec tail heads b m :
  0 <= tail < C2F_BUFFER_SIZE -> Forall (fun h => 0 <= h < C2F_BUFFER_SIZE) heads ->
  match c2f_copy_head tail heads b m with
  | None => Forall (fun h => (tail + 1) mod C2F_BUFFER_SIZE = h) heads
  | Some (tail', m') =>
      Exists (fun h => (tail + 1) mod C2F_BUFFER_SIZE <> h) heads /\
      tail' = (tail + 1) mod C2F_BUFFER_SIZE /\
      let base := C2F_BUFFER_OFFSET + 16 * tail in
      m' base = pdu_id b /\ m' (base + 6) = pdu_size b /\
      m' (base + 7) = u32 (pdu_flit b - num_rule_id b - 1) /\ m' (base + 8) = 1 /\
      forall x, x <> base -> x <> base + 6 -> x <> base + 7 -> x <> base + 8 -> m' x = m x
  end.
Proof.
  intros Ht Hheads. unfold c2f_copy_head.
  assert (forall h, 0 <= h < C2F_BUFFER_SIZE ->
    (c2f_free_slot tail h <? 1) = bool_decide ((tail + 1) mod C2F_BUFFER_SIZE = h)) as Hfull.
  { intros h Hh. unfold c2f_free_slot, C2F_BUFFER_SIZE in *.
    case_bool_decide; bcases; apply Z.ltb_lt || apply Z.ltb_ge; mlia. }
  assert (match c2f_wait tail heads with
          | None => Forall (fun h => (tail + 1) mod C2F_BUFFER_SIZE = h) heads
          | Some _ => Exists (fun h => (tail + 1) mod C2F_BUFFER_SIZE <> h) heads end) as Hw.
  { induction Hheads as [|h hs Hh _ IH]; simpl; [by constructor|].
    rewrite Hfull by done. case_bool_decide; [|by left].
    destruct (c2f_wait tail hs); auto using Forall_cons. }
  destruct (c2f_wait tail heads); [|done].
  assert (u32 (C2F_BUFFER_OFFSET + tail * 16) = C2F_BUFFER_OFFSET + 16 * tail) as ->
    by (unfold C2F_BUFFER_OFFSET, BUFFER_SIZE, C2F_BUFFER_SIZE in *; mlia).
  split; [done|]. split; [unfold C2F_BUFFER_SIZE in *; bcases; mlia|].
  unfold PDU_ID_OFFSET, PDU_SIZE_OFFSET, PDU_FLIT_OFFSET, ACTION_OFFSET, ACTION_NO_MATCH.
  set (base := C2F_BUFFER_OFFSET + 16 * tail). simpl. unfold store.
  split_and!; intros; bcases; try lia; done.
Qed.

Lemma c2f_copy_head_spec_witness :
  match c2f_copy_head 511 [0; 3] demo_block (fun _ => 9) with
  | None => Forall (fun h => (511 + 1) mod C2F_BUFFER_SIZE = h) [0; 3]
  | Some (tail', m') =>
      Exists (fun h => (511 + 1) mod C2F_BUFFER_SIZE <> h) [0; 3] /\
      tail' = (511 + 1) mod C2F_BUFFER_SIZE /\
      let base := C2F_BUFFER_OFFSET + 16 * 511 in
      m' base = pdu_id demo_block /\ m' (base + 6) = pdu_size demo_block /\
      m' (base + 7) = u32 (pdu_flit demo_block - num_rule_id demo_block - 1) /\
      m' (base + 8) = 1 /\
      forall x, x <> base -> x <> base + 6 -> x <> base + 7 -> x <> base + 8 -> m' x = 9
  end.
Proof.
  apply (c2f_copy_head_spec 511 [0; 3] demo_block (fun _ => 9));
    [|repeat constructor]; unfold C2F_BUFFER_SIZE; lia.
Defined.

(** [get_dev_handles] reports success (0) although an ioctl failed, and
    leaves both handles set to descriptors it has closed; only the two
    [open] failures are reported.  The caller in [pigasus_loop] therefore goes
    on with closed descriptors. *)
Theorem get_dev_handles_result e :
  let '(r, d, u, closed) := get_dev_handles e in
  (r = 0 <-> 0 <= open_drv e /\ 0 <= open_uio e) /\
  (r = 0 -> truth (ioctl_get_dev e) || truth (ioctl_get_bar e) = true ->
     d = Some (open_drv e) /\ u = Some (open_uio e) /\
     open_drv e ∈ closed /\ open_uio e ∈ closed) /\
  (r <> 0 -> open_drv e < 0 \/ closed = [open_drv e]).
Proof.
  unfold get_dev_handles.
  bcase (open_drv e <? 0) as E1; [split_and!; intros; lia|].
  bcase (open_uio e <? 0) as E2; [split_and!; intros; auto; lia|].
  split_and!; [tauto| |done]. intros _ Hio.
  apply orb_true_iff in Hio as [-> | ->]; split_and!; set_solver.
Qed.
