(* ===== verification/BoyerMoore.v ===== *)
(** * BoyerMoore: the substring search of utils/boyer_moore.cc

    [make_skip] and [make_shift] build the two tables of a pattern,
    [mSearch] and [mSearchCI] search with them.  Buffers and patterns are
    lists of bytes (0..255); a pointer into the pattern is an index, which may
    run below the start as in the source.  Loops have fuel; the theorems show
    that the fuel given is enough. *)

From S2P Require Import Prelude.

(** ** Tables *)

(** The loop [while (plen != 0) skip[*ptrn++] = plen--], over the rest of the
    pattern. *)
Fixpoint skip_loop (ptrn : list Z) (plen : Z) (skip : list Z) : list Z :=
  match ptrn with
  | [] => skip
  | c :: ptrn => skip_loop ptrn (plen - 1) (wr skip (u8 c) plen)
  end.

Definition make_skip (ptrn : list Z) : list Z :=
  let plen := Zlen ptrn in
  skip_loop ptrn plen (replicate 256 (plen + 1)).

Section make_shift.
Variable ptrn : list Z.

(** [while (p1 >= ptrn && *p1-- != c);] *)
Fixpoint find_back (fuel : nat) (c p1 : Z) : Z :=
  match fuel with
  | O => p1
  | S fuel =>
      if p1 >=? 0 then
        if rd0 ptrn p1 =? c then p1 - 1 else find_back fuel c (p1 - 1)
      else p1
  end.

(** [while (p3 >= ptrn && *p3-- == *p2-- && p2 >= pptr);] *)
Fixpoint cmp_back (fuel : nat) (pptr p3 p2 : Z) : Z * Z :=
  match fuel with
  | O => (p3, p2)
  | S fuel =>
      if p3 >=? 0 then
        if rd0 ptrn p3 =? rd0 ptrn p2 then
          if p2 - 1 >=? pptr then cmp_back fuel pptr (p3 - 1) (p2 - 1)
          else (p3 - 1, p2 - 1)
        else (p3 - 1, p2 - 1)
      else (p3, p2)
  end.

(** The [do .. while (p3 >= ptrn && p2 >= pptr)] loop; the result is
    [p2 - p3] when it ends. *)
Fixpoint shift_search (fuel : nat) (c pptr p1 : Z) : Z :=
  let n := length ptrn in
  let p1 := find_back n c p1 in
  let '(p3, p2) := cmp_back n pptr p1 (Zlen ptrn - 2) in
  match fuel with
  | O => p2 - p3
  | S fuel =>
      if (p3 >=? 0) && (p2 >=? pptr) then shift_search fuel c pptr p1 else p2 - p3
  end.

(** The entries for the indices [plen - 2] down to 0 ([sptr] is the index,
    [pptr] is one more); [k] counts those left. *)
Fixpoint shift_loop (k : nat) (c : Z) (shift : list Z) : list Z :=
  match k with
  | O => shift
  | S k =>
      let plen := Zlen ptrn in
      let sptr := Z.of_nat k in
      let pptr := sptr + 1 in
      shift_loop k c
        (wr shift sptr (plen - sptr + shift_search (length ptrn) c pptr (plen - 2)))
  end.

Definition make_shift : list Z :=
  let plen := Zlen ptrn in
  let c := rd0 ptrn (plen - 1) in
  let shift := wr (replicate (length ptrn) 0) (plen - 1) 1 in
  shift_loop (length ptrn - 1) c shift.
End make_shift.

(** ** Search *)

(** [toupper] of the C locale. *)
Definition toupper (c : Z) : Z := if (97 <=? c) && (c <=? 122) then c - 32 else c.

Section search.
(** [norm] is what the search applies to a character of the buffer:
    nothing in [mSearch], [toupper] in [mSearchCI]. *)
Variable norm : Z -> Z.

(** The inner loop from [p_idx]: [inl b_idx] is [return b_idx], [inr] the
    indices at the mismatch. *)
Fixpoint match_back (buf ptrn : list Z) (p_idx : nat) (b_idx : Z) : Z + Z * Z :=
  match p_idx with
  | O => inr (b_idx, 0)
  | S p =>
      let b := b_idx - 1 in
      if norm (rd0 buf b) =? rd0 ptrn (Z.of_nat p) then
        if Z.of_nat p =? 0 then inl b else match_back buf ptrn p b
      else inr (b, Z.of_nat p)
  end.

(** The outer loop; [None] when the fuel is used up. *)
Fixpoint search_loop (fuel : nat) (buf : list Z) (blen : Z) (ptrn skip shift : list Z)
    (b_idx : Z) : option Z :=
  match fuel with
  | O => None
  | S fuel =>
      if b_idx <=? blen then
        match match_back buf ptrn (length ptrn) b_idx with
        | inl r => Some r
        | inr (b, p) =>
            let skip_stride := rd0 skip (u8 (norm (rd0 buf b))) in
            let shift_stride := rd0 shift p in
            search_loop fuel buf blen ptrn skip shift
              (b + if skip_stride >? shift_stride then skip_stride else shift_stride)
        end
      else Some (-1)
  end.

Definition bm_search (buf : list Z) (blen : Z) (ptrn skip shift : list Z) : option Z :=
  let plen := Zlen ptrn in
  if plen =? 0 then Some (-1)
  else search_loop (S (Z.to_nat blen)) buf blen ptrn skip shift plen.
End search.

Definition mSearch := bm_search (fun c => c).
Definition mSearchCI := bm_search toupper.

(** ** Specification *)

(** The pattern occurs in the first [blen] bytes of [buf] at index [k]. *)
Definition occurs (norm : Z -> Z) (buf : list Z) (blen : Z) (ptrn : list Z) (k : Z) : Prop :=
  0 <= k /\ k + Zlen ptrn <= blen /\
  forall j, 0 <= j < Zlen ptrn -> norm (rd0 buf (k + j)) = rd0 ptrn j.

(** The least index where it occurs, -1 when there is none. *)
Definition first_occurrence norm buf blen ptrn (r : Z) : Prop :=
  (r = -1 /\ forall k, ~ occurs norm buf blen ptrn k) \/
  (occurs norm buf blen ptrn r /\ forall k, k < r -> ~ occurs norm buf blen ptrn k).

(** ** The skip table *)

(** What the table says about a character [c]: the stride [s] never jumps
    over an occurrence of [c] in the pattern. *)
Definition skip_ok (ptrn skip : list Z) : Prop :=
  let n := Zlen ptrn in
  forall c, is_u8 c -> let s := rd0 skip c in
    1 <= s <= n + 1 /\
    (forall j, 0 <= j < n -> rd0 ptrn j = c -> s <= n - j) /\
    (s = n + 1 \/ rd0 ptrn (n - s) = c).

Lemma skip_loop_ok (done_ ptrn skip : list Z) :
  bytes ptrn -> Zlen skip = 256 ->
  let n := Zlen done_ + Zlen ptrn in
  (forall c, is_u8 c -> let s := rd0 skip c in
     1 <= s <= n + 1 /\
     (forall j, 0 <= j < Zlen done_ -> rd0 done_ j = c -> s <= n - j) /\
     (s = n + 1 \/ (n - s < Zlen done_ /\ rd0 (done_ ++ ptrn) (n - s) = c))) ->
  skip_ok (done_ ++ ptrn) (skip_loop ptrn (Zlen ptrn) skip).
Proof.
  intros Hb Hlen. revert done_ skip Hlen.
  induction Hb as [|x ptrn Hx Hb IH]; intros done_ skip Hlen n HI; simpl.
  - rewrite app_nil_r. subst n. rewrite Zlen_nil, Z.add_0_r in HI.
    rewrite app_nil_r in HI. unfold skip_ok. intros c Hc.
    destruct (HI c Hc) as (? & ? & [?|[? ?]]); auto.
  - rewrite Zlen_cons. replace (1 + Zlen ptrn - 1) with (Zlen ptrn) by lia.
    rewrite cons_middle, app_assoc. apply IH; [by rewrite Zlen_wr|].
    subst n. rewrite Zlen_app, !Zlen_cons, Zlen_nil in *. intros c Hc.
    destruct (HI c Hc) as (Hs & Hj & Hlast).
    pose proof (Zlen_nonneg done_). pose proof (Zlen_nonneg ptrn).
    rewrite (u8_small x) by done. destruct (Z.eq_dec x c) as [->|Hne].
    + rewrite rd0_wr_eq by (rewrite Hlen; done). split_and!; [lia..| |].
      * intros j Hj' _. lia.
      * right. split; [lia|]. rewrite <- app_assoc, rd0_app_r by lia.
        replace (_ - _ - _) with 0 by lia. done.
    + rewrite rd0_wr_ne by done. split_and!; [lia..| |].
      * intros j Hj' Hx'. destruct (Z.lt_ge_cases j (Zlen done_)).
        -- rewrite rd0_app_l in Hx' by done. specialize (Hj j). lia.
        -- rewrite rd0_app_r in Hx' by lia.
           replace (j - Zlen done_) with 0 in Hx' by lia. done.
      * rewrite <- app_assoc. simpl. destruct Hlast as [?|[? ?]]; [left; lia|right].
        split; [lia|]. by replace (Zlen done_ + 1 + _ - _) with
          (Zlen done_ + (1 + Zlen ptrn) - rd0 skip c) by lia.
Qed.

Lemma make_skip_ok ptrn : bytes ptrn -> skip_ok ptrn (make_skip ptrn).
Proof.
  intros Hb. apply (skip_loop_ok [] ptrn); [done|by rewrite Zlen_replicate|].
  cbv zeta. intros c Hc. rewrite rd0_replicate by (unfold is_u8 in Hc; lia).
  rewrite Zlen_nil. pose proof (Zlen_nonneg ptrn). split_and!; [lia..|intros; lia|lia].
Qed.

(** ** The shift table *)

(** [bad_shift ptrn i s]: moving the pattern by [s], after its characters
    behind index [i] have matched, would put a different character on one of
    them; no occurrence can start there. *)
Definition bad_shift (ptrn : list Z) (i s : Z) : Prop :=
  exists j, i < j < Zlen ptrn /\ 0 <= j - s /\ rd0 ptrn (j - s) <> rd0 ptrn j.

Definition shift_ok (ptrn shift : list Z) : Prop :=
  let n := Zlen ptrn in
  rd0 shift (n - 1) = 1 /\
  forall i, 0 <= i < n - 1 -> let s := rd0 shift i - (n - i) in
    1 <= s /\ forall s', 1 <= s' < s -> bad_shift ptrn i s'.

Section shift_proofs.
Variable ptrn : list Z.
Let n := Zlen ptrn.

Lemma find_back_spec fuel c p1 :
  -1 <= p1 < Z.of_nat fuel ->
  let r := find_back ptrn fuel c p1 in
  -1 <= r /\ (r < p1 \/ (r = -1 /\ p1 = -1)) /\
  forall q, r + 1 < q <= p1 -> rd0 ptrn q <> c.
Proof.
  revert p1. induction fuel as [|fuel IH]; intros p1 Hp; simpl.
  - split_and!; lia.
  - bcase (p1 >=? 0) as E; [|split_and!; [lia..|intros; lia]].
    bcase (rd0 ptrn p1 =? c) as E2; [split_and!; [lia..|intros; lia]|].
    destruct (IH (p1 - 1)) as (H1 & H2 & H3); [lia|]. split_and!; [lia..|].
    intros q Hq. destruct (Z.eq_dec q p1) as [->|]; [done|]. apply H3. lia.
Qed.

Lemma cmp_back_spec fuel pptr p3 p2 :
  -1 <= p3 < Z.of_nat fuel ->
  let '(p3', p2') := cmp_back ptrn fuel pptr p3 p2 in
  p2' - p3' = p2 - p3 /\ p2' <= p2 /\ -1 <= p3' /\
  (0 <= p3' -> pptr <= p2' -> p2' < p2 /\ rd0 ptrn (p3' + 1) <> rd0 ptrn (p2' + 1)).
Proof.
  revert p3 p2. induction fuel as [|fuel IH]; intros p3 p2 Hp; simpl.
  - split_and!; lia.
  - bcase (p3 >=? 0) as E; [|split_and!; lia].
    bcase (rd0 ptrn p3 =? rd0 ptrn p2) as E2.
    + bcase (p2 - 1 >=? pptr) as E3; [|split_and!; lia].
      specialize (IH (p3 - 1) (p2 - 1) ltac:(lia)).
      destruct (cmp_back ptrn fuel pptr (p3 - 1) (p2 - 1)) as [p3' p2'].
      destruct IH as (? & ? & ? & H4). split_and!; [lia..|].
      intros Ha Hb. destruct (H4 Ha Hb). split; [lia|done].
    + split_and!; [lia..|]. intros _ _. split; [lia|].
      by replace (p3 - 1 + 1) with p3 by lia; replace (p2 - 1 + 1) with p2 by lia.
Qed.

Lemma shift_search_spec fuel i p1 :
  0 <= i < n - 1 -> -1 <= p1 <= n - 2 -> p1 < Z.of_nat fuel ->
  (forall q, p1 < q <= n - 2 -> bad_shift ptrn i (n - 1 - q)) ->
  let s := shift_search ptrn fuel (rd0 ptrn (n - 1)) (i + 1) p1 in
  1 <= s /\ forall s', 1 <= s' < s -> bad_shift ptrn i s'.
Proof.
  revert p1. induction fuel as [|fuel IH]; intros p1 Hi Hp1 Hfuel Hbad; simpl;
    destruct (find_back_spec (length ptrn) (rd0 ptrn (n - 1)) p1) as (Hr1 & Hr2 & Hr3);
    try (unfold n, Zlen in *; lia);
    set (r := find_back ptrn (length ptrn) (rd0 ptrn (n - 1)) p1) in *;
    pose proof (cmp_back_spec (length ptrn) (i + 1) r (Zlen ptrn - 2)) as Hc;
    destruct (cmp_back ptrn (length ptrn) (i + 1) r (Zlen ptrn - 2)) as [p3 p2];
    (destruct Hc as (Hd & Hp2 & Hp3 & Hmis); [unfold n, Zlen in *; lia|]); fold n in Hd.
  - split; [lia|]. intros s' Hs'.
    replace s' with (n - 1 - (n - 1 - s')) by lia. apply Hbad. lia.
  - assert (forall q, r + 1 < q <= n - 2 -> bad_shift ptrn i (n - 1 - q)) as Hbad'.
    { intros q Hq. destruct (Z.lt_ge_cases p1 q); [apply Hbad; lia|].
      exists (n - 1). unfold n in *. split_and!; [lia..|].
      replace (Zlen ptrn - 1 - (Zlen ptrn - 1 - q)) with q by lia. apply Hr3. lia. }
    bcase ((p3 >=? 0) && (p2 >=? i + 1)) as E.
    + destruct Hmis as [Hlt Hmis]; [lia..|]. apply IH; [done|lia..|].
      intros q Hq. destruct (Z.eq_dec q (r + 1)) as [->|]; [|apply Hbad'; lia].
      exists (p2 + 1). unfold n in *. split_and!; [lia..|].
      by replace (p2 + 1 - (Zlen ptrn - 1 - (r + 1))) with (p3 + 1) by lia.
    + split; [lia|]. intros s' Hs'.
      replace s' with (n - 1 - (n - 1 - s')) by lia. apply Hbad'. lia.
Qed.

Lemma shift_loop_spec k shift :
  Zlen shift = n -> Z.of_nat k < n -> rd0 shift (n - 1) = 1 ->
  (forall i, Z.of_nat k <= i < n - 1 -> let s := rd0 shift i - (n - i) in
     1 <= s /\ forall s', 1 <= s' < s -> bad_shift ptrn i s') ->
  shift_ok ptrn (shift_loop ptrn k (rd0 ptrn (n - 1)) shift).
Proof.
  revert shift. induction k as [|k IH]; intros shift Hlen Hk H1 HI; simpl; [by split|].
  apply IH; [by rewrite Zlen_wr|lia|rewrite rd0_wr_ne by lia; done|].
  intros i Hi. destruct (Z.eq_dec (Z.of_nat k) i) as [<-|Hne].
  - rewrite rd0_wr_eq by lia. fold n. cbv zeta.
    match goal with |- 1 <= ?a /\ _ =>
      replace a with (shift_search ptrn (length ptrn) (rd0 ptrn (n - 1)) (Z.of_nat k + 1) (n - 2))
        by lia end.
    apply shift_search_spec; [lia..|unfold n, Zlen; lia|intros; lia].
  - rewrite rd0_wr_ne by done. apply HI. lia.
Qed.

Lemma make_shift_ok : ptrn <> [] -> shift_ok ptrn (make_shift ptrn).
Proof.
  intros Hne. assert (0 < n) by (unfold n, Zlen; destruct ptrn; [done|simpl; lia]).
  apply shift_loop_spec.
  - rewrite Zlen_wr, Zlen_replicate. done.
  - unfold n, Zlen in *. lia.
  - apply rd0_wr_eq. rewrite Zlen_replicate. unfold n, Zlen in *. lia.
  - intros i Hi. unfold n, Zlen in *. lia.
Qed.
End shift_proofs.

(** ** The search *)

Section search_proofs.
Variables (norm : Z -> Z) (buf : list Z) (blen : Z) (ptrn skip shift : list Z).
Hypothesis norm_byte : forall c, is_u8 c -> is_u8 (norm c).
Hypothesis Hbuf : bytes buf.
Hypothesis Hne : ptrn <> [].
Hypothesis Hskip : skip_ok ptrn skip.
Hypothesis Hshift : shift_ok ptrn shift.
Let n := Zlen ptrn.

(** The inner loop compares the window that ends at [e] from the right. *)
Lemma match_back_spec p b :
  (0 < p)%nat ->
  match match_back norm buf ptrn p b with
  | inl r => r = b - Z.of_nat p /\
      forall j, 0 <= j < Z.of_nat p -> norm (rd0 buf (r + j)) = rd0 ptrn j
  | inr (b', p') => 0 <= p' < Z.of_nat p /\ b' = b - Z.of_nat p + p' /\
      norm (rd0 buf b') <> rd0 ptrn p' /\
      forall j, p' < j < Z.of_nat p -> norm (rd0 buf (b - Z.of_nat p + j)) = rd0 ptrn j
  end.
Proof.
  revert b. induction p as [|p IH]; intros b Hp; [lia|]. cbn -[Z.of_nat].
  bcase (norm (rd0 buf (b - 1)) =? rd0 ptrn (Z.of_nat p)) as E.
  2: { split_and!; [lia..|done|intros; lia]. }
  bcase (Z.of_nat p =? 0) as E0.
  - split; [lia|]. intros j Hj. replace (b - 1 + j) with (b - 1) by lia.
    replace j with (Z.of_nat p) by lia. done.
  - specialize (IH (b - 1) ltac:(lia)).
    destruct (match_back norm buf ptrn p (b - 1)) as [r|[b' p']].
    + destruct IH as [-> IH]. split; [lia|]. intros j Hj.
      destruct (Z.eq_dec j (Z.of_nat p)) as [->|].
      * by replace (b - 1 - Z.of_nat p + Z.of_nat p) with (b - 1) by lia.
      * apply IH. lia.
    + destruct IH as (H1 & H2 & H3 & H4). split_and!; [lia..|done|].
      intros j Hj. destruct (Z.eq_dec j (Z.of_nat p)) as [->|].
      * by replace (b - Z.of_nat (S p) + Z.of_nat p) with (b - 1) by lia.
      * replace (b - Z.of_nat (S p) + j) with (b - 1 - Z.of_nat p + j) by lia. apply H4. lia.
Qed.

(** The stride taken after a mismatch moves the window forward and over no
    occurrence. *)
Lemma stride_ok b p e :
  0 <= p < n -> b = e - n + p -> norm (rd0 buf b) <> rd0 ptrn p ->
  (forall j, p < j < n -> norm (rd0 buf (e - n + j)) = rd0 ptrn j) ->
  let stride := Z.max (rd0 skip (u8 (norm (rd0 buf b)))) (rd0 shift p) in
  e < b + stride /\
  forall k, e <= k + n < b + stride -> ~ occurs norm buf blen ptrn k.
Proof.
  intros Hp Hb Hmis Hsuf.
  assert (is_u8 (norm (rd0 buf b))) as Hc by auto using bytes_rd0.
  rewrite (u8_small _ Hc). destruct (Hskip _ Hc) as (Hs1 & Hs2 & Hs3). fold n in Hs1, Hs2, Hs3.
  destruct Hshift as [Hlast Hsh]. fold n in Hlast, Hsh.
  set (sk := rd0 skip _) in *. cbv zeta. split.
  - destruct (Z.eq_dec p (n - 1)) as [->|].
    + rewrite Hlast. assert (sk <> 1); [|lia]. intros ->. destruct Hs3; [lia|congruence].
    + destruct (Hsh p ltac:(lia)). lia.
  - intros k Hk (Hk0 & _ & Hocc). fold n in Hocc. set (s := k + n - e).
    destruct (Z.eq_dec s 0) as [Hs0|Hs0].
    { apply Hmis. rewrite <- Hocc by lia. do 2 f_equal. lia. }
    destruct (Z.lt_ge_cases (k + n) (b + rd0 shift p)) as [Hlt|Hge].
    + destruct (Z.eq_dec p (n - 1)) as [->|]; [lia|].
      destruct (Hsh p ltac:(lia)) as [_ Hbad].
      destruct (Hbad s ltac:(lia)) as (j & Hj & Hj0 & Hneq). apply Hneq.
      fold n in Hj. rewrite <- Hocc, <- Hsuf by lia. do 2 f_equal. lia.
    + destruct (Z.lt_ge_cases (p - s) 0); [lia|].
      specialize (Hs2 (p - s)).
      rewrite <- Hocc in Hs2 by lia. replace (k + (p - s)) with b in Hs2 by lia.
      specialize (Hs2 ltac:(lia) eq_refl). lia.
Qed.

Lemma search_loop_spec fuel e :
  n <= e -> blen + 1 < e + Z.of_nat fuel -> (0 < fuel)%nat ->
  (forall k, k + n < e -> ~ occurs norm buf blen ptrn k) ->
  exists r, search_loop norm fuel buf blen ptrn skip shift e = Some r /\
            first_occurrence norm buf blen ptrn r.
Proof.
  revert e. induction fuel as [|fuel IH]; intros e He Hfuel Hpos Hno; [lia|]. simpl.
  bcase (e <=? blen) as E.
  2: { exists (-1). split; [done|]. left. split; [done|].
       intros k Hocc. apply (Hno k); [|done]. destruct Hocc as (_ & ? & _). fold n in H. lia. }
  assert (0 < length ptrn)%nat by (destruct ptrn; [done|simpl; lia]).
  pose proof (match_back_spec (length ptrn) e ltac:(done)) as Hm.
  change (Z.of_nat (length ptrn)) with n in Hm.
  destruct (match_back norm buf ptrn (length ptrn) e) as [r|[b p]].
  - destruct Hm as [-> Hm]. exists (e - n). split; [done|]. right. split.
    + split_and!; [lia|fold n; lia|done].
    + intros k Hk. apply Hno. lia.
  - destruct Hm as (Hp & Hb & Hmis & Hsuf).
    destruct (stride_ok b p e Hp Hb Hmis Hsuf) as [Hlt Hskip'].
    replace (if _ >? _ then _ else _) with
      (Z.max (rd0 skip (u8 (norm (rd0 buf b)))) (rd0 shift p)) by (bcases; lia).
    apply IH; [lia..|]. intros k Hk.
    destruct (Z.lt_ge_cases (k + n) e); [by apply Hno|by apply Hskip'].
Qed.
End search_proofs.

Lemma bm_search_first norm buf blen ptrn :
  (forall c, is_u8 c -> is_u8 (norm c)) -> bytes buf -> bytes ptrn -> ptrn <> [] ->
  exists r, bm_search norm buf blen ptrn (make_skip ptrn) (make_shift ptrn) = Some r /\
            first_occurrence norm buf blen ptrn r.
Proof.
  intros Hn Hb Hp Hne. unfold bm_search.
  assert (0 < Zlen ptrn) by (unfold Zlen; destruct ptrn; [done|simpl; lia]).
  bcase (Zlen ptrn =? 0) as E; [lia|].
  apply search_loop_spec; auto using make_skip_ok, make_shift_ok; [lia..|].
  intros k Hk (? & _). lia.
Qed.

Lemma toupper_u8 c : is_u8 c -> is_u8 (toupper c).
Proof. unfold is_u8, toupper. bcases; lia. Qed.

(** ** Properties *)

(** C8. The Boyer-Moore search with the tables built for its pattern always
    returns, and returns the first occurrence of the pattern in the buffer,
    or -1 when the pattern does not occur: no stride of the two tables skips
    an occurrence. *)
Theorem mSearch_first_occurrence buf blen ptrn :
  bytes buf -> bytes ptrn -> ptrn <> [] ->
  exists r, mSearch buf blen ptrn (make_skip ptrn) (make_shift ptrn) = Some r /\
            first_occurrence (fun c => c) buf blen ptrn r.
Proof. intros. by apply bm_search_first. Qed.

Lemma mSearch_first_occurrence_witness :
  exists r, mSearch [97; 98; 97; 98; 99; 97] 6 [97; 98; 99]
              (make_skip [97; 98; 99]) (make_shift [97; 98; 99]) = Some r /\
            first_occurrence (fun c => c) [97; 98; 97; 98; 99; 97] 6 [97; 98; 99] r.
Proof. apply mSearch_first_occurrence; [repeat constructor; lia..|done]. Defined.

(** The case-insensitive search returns the first place where the
    upper-cased buffer equals the (already upper-cased) pattern, or -1 when
    there is none. *)
Theorem mSearchCI_first_occurrence buf blen ptrn :
  bytes buf -> bytes ptrn -> ptrn <> [] ->
  exists r, mSearchCI buf blen ptrn (make_skip ptrn) (make_shift ptrn) = Some r /\
            first_occurrence toupper buf blen ptrn r.
Proof. intros. apply bm_search_first; auto using toupper_u8. Qed.

Lemma mSearchCI_first_occurrence_witness :
  exists r, mSearchCI [97; 66; 97; 98; 67; 97] 6 [65; 66; 67]
              (make_skip [65; 66; 67]) (make_shift [65; 66; 67]) = Some r /\
            first_occurrence toupper [97; 66; 97; 98; 67; 97] 6 [65; 66; 67] r.
Proof. apply mSearchCI_first_occurrence; [repeat constructor; lia..|done]. Defined.

Example mSearch_example :
  mSearch [97; 98; 97; 98; 99; 97] 6 [97; 98; 99]
    (make_skip [97; 98; 99]) (make_shift [97; 98; 99]) = Some 2.
Proof. vm_compute. reflexivity. Qed.
