(* ===== verification/Automata.v ===== *)
(** * Automata: words and queues behind the Aho-Corasick matcher

    Longest suffixes of a text in a prefix-closed set of words, and the order
    in which a loop over a growing queue visits the nodes of a tree. *)

From S2P Require Import Prelude.

(** [for (auto r : queue)] with a body that appends to the queue: it is worked
    through from the front until it is empty. *)
Fixpoint queue_loop {A} (body : nat -> A * list nat -> option (A * list nat)) (fuel : nat) (a : A)
    (queue : list nat) : option A :=
  match queue, fuel with
  | [], _ => Some a
  | _ :: _, O => None
  | r :: queue, S fuel =>
      match body r (a, queue) with
      | None => None
      | Some (a, queue) => queue_loop body fuel a queue
      end
  end.

(** ** Longest suffixes

    [W] holds the words of the trie's states, that is the prefixes of the
    patterns.  The automaton's state after a text is the longest suffix of the
    text that is in [W]. *)
Section Words.
Variable W : list (list Z).
Hypothesis W_nil : [] ∈ W.
Hypothesis W_prefix : forall w c, w ++ [c] ∈ W -> w ∈ W.

Fixpoint lsuf (x : list Z) : list Z :=
  if decide (x ∈ W) then x else match x with [] => [] | _ :: x => lsuf x end.

Lemma lsuf_in x : lsuf x ∈ W.
Proof using W_nil. induction x as [|c x IH]; simpl; case_decide; done. Qed.

Lemma lsuf_suffix x : lsuf x `suffix_of` x.
Proof.
  induction x as [|c x IH]; simpl; case_decide; try done.
  by apply suffix_cons_r.
Qed.

Lemma lsuf_max x y : y ∈ W -> y `suffix_of` x -> y `suffix_of` lsuf x.
Proof.
  intros Hy. induction x as [|c x IH]; intros Hs; simpl; case_decide; try done.
  apply IH. destruct y as [|d y]; [apply suffix_nil|].
  apply suffix_cons_inv in Hs as [E|?]; [by rewrite E in Hy|done].
Qed.

Lemma lsuf_unique x z :
  z ∈ W -> z `suffix_of` x -> (forall y, y ∈ W -> y `suffix_of` x -> y `suffix_of` z) -> lsuf x = z.
Proof using W_nil.
  intros Hz Hs Hmax. apply (anti_symm suffix).
  - apply Hmax; [apply lsuf_in|apply lsuf_suffix].
  - by apply lsuf_max.
Qed.

Lemma lsuf_id x : x ∈ W -> lsuf x = x.
Proof. intros H. destruct x; simpl; by rewrite decide_True. Qed.

Lemma lsuf_cons c x : c :: x ∉ W -> lsuf (c :: x) = lsuf x.
Proof. intros H. simpl. by rewrite decide_False. Qed.

Lemma suffix_snoc_inv (y x : list Z) (c : Z) :
  y `suffix_of` x ++ [c] -> y = [] \/ exists y', y = y' ++ [c] /\ y' `suffix_of` x.
Proof.
  intros [k E]. destruct y as [|d y'] using rev_ind; [by left|]. right. exists y'.
  rewrite app_assoc in E. apply app_inj_tail in E as [-> ->]. split; [done|by exists k].
Qed.

(** Only the state counts for the next one. *)
Lemma lsuf_snoc x c : lsuf (x ++ [c]) = lsuf (lsuf x ++ [c]).
Proof using W_nil W_prefix.
  apply lsuf_unique; [apply lsuf_in| |].
  - etrans; [apply lsuf_suffix|]. apply suffix_app, lsuf_suffix.
  - intros y Hy Hs. apply lsuf_max; [done|].
    apply suffix_snoc_inv in Hs as [->|(y' & -> & Hs)]; [apply suffix_nil|].
    apply suffix_app, lsuf_max; [by eapply W_prefix|done].
Qed.

End Words.

(** ** The order of the queue *)

Section Order.
Variables (first : list nat) (kids : nat -> list nat) (depth : nat -> nat) (n D : nat).

Fixpoint border (fuel : nat) (queue : list nat) : list nat :=
  match queue, fuel with
  | r :: queue, S fuel => r :: border fuel (queue ++ kids r)
  | _, _ => []
  end.

(** The fuel lasts until the queue is empty. *)
Fixpoint exhausted (fuel : nat) (queue : list nat) : Prop :=
  match queue, fuel with
  | [], _ => True
  | _ :: _, O => False
  | r :: queue, S fuel => exhausted fuel (queue ++ kids r)
  end.

Lemma queue_loop_order {A} (I : list nat -> A -> Prop) body order :
  (forall done r rest a q, order = done ++ r :: rest -> I done a ->
     exists a', body r (a, q) = Some (a', q ++ kids r) /\ I (done ++ [r]) a') ->
  forall fuel done queue a, order = done ++ border fuel queue -> exhausted fuel queue -> I done a ->
    exists a', queue_loop body fuel a queue = Some a' /\ I order a'.
Proof.
  intros Hstep. induction fuel as [|fuel IH]; intros done [|r queue] a Ho He Hi; simpl in *.
  - exists a. by rewrite Ho, app_nil_r.
  - done.
  - exists a. by rewrite Ho, app_nil_r.
  - destruct (Hstep done r _ a queue Ho Hi) as (a' & -> & Hi').
    apply (IH (done ++ [r])); [by rewrite <- app_assoc|done|done].
Qed.

Fixpoint level (d : nat) : list nat :=
  match d with O => first | S d => flat_map kids (level d) end.

Lemma border_app f l k : border (length l + f) (l ++ k) = l ++ border f (k ++ flat_map kids l).
Proof.
  revert k. induction l as [|r l IH]; intros k; simpl; [by rewrite app_nil_r|].
  by rewrite <- app_assoc, IH, <- app_assoc.
Qed.

Lemma exhausted_app f l k :
  exhausted f (k ++ flat_map kids l) -> exhausted (length l + f) (l ++ k).
Proof.
  revert k. induction l as [|r l IH]; intros k; simpl; [by rewrite app_nil_r|].
  intros H. rewrite <- app_assoc. apply IH. by rewrite <- app_assoc.
Qed.

Lemma border_levels m d f :
  level (m + d) = [] ->
  let k := length (concat (map level (seq d m))) in
  border (k + f) (level d) = concat (map level (seq d m)) /\ exhausted (k + f) (level d).
Proof.
  revert d. induction m as [|m IH]; intros d Hl.
  - simpl in Hl. rewrite Hl. by destruct f.
  - cbn [seq map concat]. rewrite length_app. cbn zeta.
    destruct (IH (S d)) as [IH1 IH2]; [by rewrite <- Hl, Nat.add_succ_r|].
    rewrite <- Nat.add_assoc.
    pose proof (border_app (length (concat (map level (seq (S d) m))) + f) (level d) []) as Hb.
    pose proof (exhausted_app (length (concat (map level (seq (S d) m))) + f) (level d) []) as He.
    rewrite app_nil_r in Hb, He. cbn [app] in Hb, He.
    change (flat_map kids (level d)) with (level (S d)) in *. split; [by rewrite Hb, IH1|by apply He].
Qed.

(** The queue starts with the states of depth 1; every other state is a child
    of exactly one state, one level deeper. *)
Hypothesis first_nodup : NoDup first.
Hypothesis first_depth : forall s, s ∈ first -> depth s = 1%nat /\ (0 < s < n)%nat.
Hypothesis kids_nodup : forall r, NoDup (kids r).
Hypothesis kids_depth : forall r s, s ∈ kids r -> depth s = S (depth r) /\ (0 < s < n)%nat.
Hypothesis kids_parent : forall r r' s, s ∈ kids r -> s ∈ kids r' -> r = r'.
Hypothesis covered : forall s, (0 < s < n)%nat -> s ∈ first \/ exists r, (0 < r < n)%nat /\ s ∈ kids r.
Hypothesis depth_max : forall s, (0 < s < n)%nat -> (depth s <= D)%nat.

Lemma level_depth d s : s ∈ level d -> depth s = S d /\ (0 < s < n)%nat.
Proof using first_depth kids_depth.
  revert s. induction d as [|d IH]; intros s; simpl; [apply first_depth|].
  rewrite list_elem_of_In, in_flat_map. intros (r & Hr%list_elem_of_In & Hs%list_elem_of_In).
  destruct (IH r Hr) as [Hd _]. destruct (kids_depth r s Hs). lia.
Qed.

Lemma NoDup_kids l : NoDup l -> NoDup (flat_map kids l).
Proof using kids_nodup kids_parent.
  induction 1 as [|r l Hr Hl IH]; simpl; [constructor|]. apply NoDup_app. split_and!; [done| |done].
  intros s Hs. rewrite list_elem_of_In, in_flat_map. intros (r' & Hr'%list_elem_of_In & Hs'%list_elem_of_In).
  by rewrite (kids_parent r r' s Hs Hs') in Hr.
Qed.

Lemma level_nodup d : NoDup (level d).
Proof using first_nodup kids_nodup kids_parent. induction d; simpl; [done|by apply NoDup_kids]. Qed.

Lemma level_complete d s : (0 < s < n)%nat -> depth s = S d -> s ∈ level d.
Proof using covered first_depth kids_depth.
  revert s. induction d as [|d IH]; intros s Hs Hd; destruct (covered s Hs) as [H|(r & Hr & H)]; simpl.
  - done.
  - destruct (kids_depth r s H) as [Hk _]. destruct (covered r Hr) as [Hf|(q & Hq & Hf)].
    + destruct (first_depth r Hf). lia.
    + destruct (kids_depth q r Hf). lia.
  - destruct (first_depth s H). lia.
  - apply list_elem_of_In, in_flat_map. exists r. split; apply list_elem_of_In; [|done].
    apply IH; [done|]. destruct (kids_depth r s H). lia.
Qed.

Definition order : list nat := concat (map level (seq 0 D)).

Lemma order_elem s : s ∈ order <-> (0 < s < n)%nat.
Proof using covered depth_max first_depth kids_depth.
  unfold order. rewrite list_elem_of_In, in_concat. split.
  - intros (l & (d & <- & Hd)%in_map_iff & Hs%list_elem_of_In). by apply level_depth in Hs as [_ ?].
  - intros Hs. exists (level (depth s - 1)).
    assert (1 <= depth s)%nat as Hd.
    { destruct (covered s Hs) as [H|(r & Hr & H)]; [apply first_depth in H|apply kids_depth in H]; lia. }
    pose proof (depth_max s Hs). split.
    + apply in_map_iff. exists (depth s - 1)%nat. rewrite in_seq. split; [done|lia].
    + apply list_elem_of_In, level_complete; [done|lia].
Qed.

(** Levels are in order, so a shallower state comes first. *)
Lemma levels_sorted m d done r rest :
  concat (map level (seq d m)) = done ++ r :: rest -> Forall (fun s => depth r <= depth s)%nat rest.
Proof using first_depth kids_depth.
  revert d done. induction m as [|m IH]; intros d done; simpl; [by destruct done|].
  assert (forall d' s, s ∈ concat (map level (seq d' m)) -> (d' < depth s)%nat) as Hlo.
  { intros d' s. rewrite list_elem_of_In, in_concat. intros (l & (e & <- & He)%in_map_iff & Hs%list_elem_of_In).
    apply level_depth in Hs as [? _]. apply in_seq in He. lia. }
  intros E. apply app_eq_app in E as (k & [[E1 E2]|[E1 E2]]).
  - destruct k as [|r' k].
    + simpl in E2. apply (IH (S d) []). by rewrite <- E2.
    + injection E2 as <- ->. apply Forall_app. split; apply Forall_forall; intros s Hs.
      * assert (s ∈ level d) as H1 by (rewrite E1, elem_of_app, elem_of_cons; auto).
        assert (r ∈ level d) as H2 by (rewrite E1, elem_of_app, elem_of_cons; auto).
        apply level_depth in H1, H2. lia.
      * assert (r ∈ level d) as H2 by (rewrite E1, elem_of_app, elem_of_cons; auto).
        apply level_depth in H2. apply Hlo in Hs. lia.
  - apply (IH (S d) k). done.
Qed.

Lemma levels_nodup m d : NoDup (concat (map level (seq d m))).
Proof using first_depth first_nodup kids_depth kids_nodup kids_parent.
  revert d. induction m as [|m IH]; intros d; simpl; [constructor|].
  apply NoDup_app. split_and!; [apply level_nodup| |apply IH].
  intros s Hs%level_depth. rewrite list_elem_of_In, in_concat.
  intros (l & (e & <- & He)%in_map_iff & Hs'%list_elem_of_In). apply level_depth in Hs'. apply in_seq in He. lia.
Qed.

Lemma order_nodup : NoDup order.
Proof using first_depth first_nodup kids_depth kids_nodup kids_parent. apply levels_nodup. Qed.

Lemma order_before done r rest s :
  order = done ++ r :: rest -> (0 < s < n)%nat -> (depth s < depth r)%nat -> s ∈ done.
Proof using covered depth_max first_depth kids_depth.
  intros E Hs Hd. apply order_elem in Hs. rewrite E, elem_of_app, elem_of_cons in Hs.
  destruct Hs as [?|[->|Hs]]; [done|lia|]. pose proof (levels_sorted D 0 done r rest E) as H.
  rewrite Forall_forall in H. apply H in Hs. lia.
Qed.

Lemma order_length : (length order <= n - 1)%nat.
Proof using covered depth_max first_depth first_nodup kids_depth kids_nodup kids_parent.
  transitivity (length (seq 1 (n - 1))); [|by rewrite length_seq].
  apply submseteq_length, NoDup_submseteq; [apply order_nodup|]. intros s Hs%order_elem. apply list_elem_of_In, in_seq. lia.
Qed.

Lemma order_run fuel :
  (n <= fuel)%nat -> border fuel first = order /\ exhausted fuel first.
Proof using covered depth_max first_depth first_nodup kids_depth kids_nodup kids_parent.
  intros Hf. pose proof order_length. destruct (border_levels D 0 (fuel - length order)) as [H1 H2].
  { destruct (level (D + 0)) as [|s l] eqn:E; [done|].
    assert (s ∈ level (D + 0)) as [Hd Hs]%level_depth by (rewrite E; left).
    pose proof (depth_max s Hs). lia. }
  fold order in H1, H2. replace (length order + (fuel - length order))%nat with fuel in * by lia. done.
Qed.
End Order.
