(* ===== verification/AhoCorasick.v ===== *)
(** * AhoCorasick: the multi-pattern matcher of search_engines/acsmx.cc and
    search_engines/ac_std.cc

    [acsmAddPattern] collects patterns, [acsmCompile] builds the automaton -
    keyword trie, failure states in breadth-first order, then the complete
    transition table - and [acsmSearch] runs a text through it, reporting to a
    callback.  States are numbers; [None] in a [NextState] array is
    [ACSM_FAIL_STATE].  The agent's functions, the trees they build and the
    callback are parameters.  [option] results are [None] where the code would
    index outside a table or not return. *)

From S2P Require Import Prelude BoyerMoore Automata.

Definition ALPHABET : list Z := seqZ 0 256.

Lemma alphabet_elem c : c ∈ ALPHABET <-> is_u8 c.
Proof. unfold ALPHABET. rewrite elem_of_seqZ. unfold is_u8. lia. Qed.
Lemma alphabet_nodup : NoDup ALPHABET.
Proof. apply NoDup_seqZ. Qed.
Lemma alphabet_bytes : Forall is_u8 ALPHABET.
Proof. apply Forall_forall. intros c. apply alphabet_elem. Qed.
#[local] Opaque ALPHABET.

(** Loops that may fail. *)
Fixpoint ofold {A B} (f : A -> B -> option A) (l : list B) (a : A) : option A :=
  match l with
  | [] => Some a
  | x :: l => match f a x with Some a => ofold f l a | None => None end
  end.

Section ACSM.
Context {U T N C : Type}.

(** The functions of [MpseAgent] that build a state's data. *)
Record MpseAgent := MkAgent {
  build_tree : option U -> T -> T;
  negate_list : U -> N -> N }.

(** [udata]: the index of the pattern's [ACSM_USERDATA]. *)
Record ACSM_PATTERN := MkPattern {
  patrn : list Z; casepatrn : list Z; nocase : bool; negative : bool; udata : nat;
  rule_option_tree : T; neg_list : N }.

Record ACSM_STATETABLE := MkState {
  NextState : list (option nat); FailState : nat; MatchList : list ACSM_PATTERN }.

Record ACSM_USERDATA := MkUser { id : option U; ref_count : Z }.

Record ACSM_STRUCT := MkAcsm {
  acsmMaxStates : nat; acsmNumStates : nat; acsmPatterns : list ACSM_PATTERN;
  acsmStateTable : list ACSM_STATETABLE; users : list ACSM_USERDATA; numPatterns : Z }.

(** The agent, or null; null trees and lists. *)
Variable agent : option MpseAgent.
Variables (null_tree : T) (null_list : N).

Definition with_table (a : ACSM_STRUCT) (n : nat) (t : list ACSM_STATETABLE) : ACSM_STRUCT :=
  MkAcsm (acsmMaxStates a) n (acsmPatterns a) t (users a) (numPatterns a).
Definition with_users (a : ACSM_STRUCT) (us : list ACSM_USERDATA) : ACSM_STRUCT :=
  MkAcsm (acsmMaxStates a) (acsmNumStates a) (acsmPatterns a) (acsmStateTable a) us (numPatterns a).

(** ** The state table *)

Definition next (t : list ACSM_STATETABLE) (s : nat) (c : Z) : option nat :=
  match t !! s with Some st => default None (NextState st !! Z.to_nat c) | None => None end.
Definition fail (t : list ACSM_STATETABLE) (s : nat) : nat := default 0%nat (FailState <$> t !! s).
Definition matches (t : list ACSM_STATETABLE) (s : nat) : list ACSM_PATTERN :=
  default [] (MatchList <$> t !! s).

Definition set_next (t : list ACSM_STATETABLE) (s : nat) (c : Z) (x : option nat) : list ACSM_STATETABLE :=
  alter (fun st => MkState (<[Z.to_nat c := x]> (NextState st)) (FailState st) (MatchList st)) s t.
Definition set_fail (t : list ACSM_STATETABLE) (s f : nat) : list ACSM_STATETABLE :=
  alter (fun st => MkState (NextState st) f (MatchList st)) s t.
Definition set_matches (t : list ACSM_STATETABLE) (s : nat) (l : list ACSM_PATTERN) : list ACSM_STATETABLE :=
  alter (fun st => MkState (NextState st) (FailState st) l) s t.

(** ** Patterns *)

Definition acsmNew : ACSM_STRUCT := MkAcsm 0 0 [] [] [] 0.

Definition ConvertCaseEx (s : list Z) : list Z := map toupper s.

Definition acsmAddPattern (p : ACSM_STRUCT) (pat : list Z) (nc neg : bool) (user : option U) : ACSM_STRUCT :=
  let plist := MkPattern (ConvertCaseEx pat) pat nc neg (length (users p)) null_tree null_list in
  MkAcsm (acsmMaxStates p) (acsmNumStates p) (plist :: acsmPatterns p) (acsmStateTable p)
    (users p ++ [MkUser user 1]) (numPatterns p + 1).

(** ** The keyword trie *)

(** Follow the pattern as far as states exist: the state and what is left. *)
Fixpoint follow (t : list ACSM_STATETABLE) (state : nat) (pattern : list Z) : nat * list Z :=
  match pattern with
  | [] => (state, [])
  | c :: rest => match next t state c with
                 | None => (state, pattern)
                 | Some s => follow t s rest
                 end
  end.

(** One new state for every remaining byte. *)
Fixpoint extend (a : ACSM_STRUCT) (state : nat) (pattern : list Z) : ACSM_STRUCT * nat :=
  match pattern with
  | [] => (a, state)
  | c :: rest =>
      let n := S (acsmNumStates a) in
      extend (with_table a n (set_next (acsmStateTable a) state c (Some n))) n rest
  end.

Definition AddMatchListEntry (a : ACSM_STRUCT) (state : nat) (px : ACSM_PATTERN) : ACSM_STRUCT :=
  let t := acsmStateTable a in
  with_table a (acsmNumStates a) (set_matches t state (px :: matches t state)).

Definition AddPatternStates (a : ACSM_STRUCT) (p : ACSM_PATTERN) : ACSM_STRUCT :=
  let '(state, rest) := follow (acsmStateTable a) 0 (patrn p) in
  let '(a, state) := extend a state rest in
  AddMatchListEntry a state p.

(** ** Failure states *)

(** [while ((next = NextState[fs][i]) == ACSM_FAIL_STATE) fs = FailState[fs]]. *)
Fixpoint find_fail (fuel : nat) (t : list ACSM_STATETABLE) (fs : nat) (i : Z) : option nat :=
  match fuel with
  | O => None
  | S fuel => match next t fs i with
              | Some n => Some n
              | None => find_fail fuel t (fail t fs) i
              end
  end.

(** [CopyMatchListEntry] for every entry of [l], each to the front of the
    list of state [s]. *)
Definition bump (us : list ACSM_USERDATA) (p : ACSM_PATTERN) : list ACSM_USERDATA :=
  alter (fun u => MkUser (id u) (ref_count u + 1)) (udata p) us.
Definition copy_matches (a : ACSM_STRUCT) (s : nat) (l : list ACSM_PATTERN) : ACSM_STRUCT :=
  fold_left (fun a px =>
    let t := acsmStateTable a in
    with_users (with_table a (acsmNumStates a) (set_matches t s (px :: matches t s))) (bump (users a) px)) l a.

(** The states behind state 0. *)
Definition first_states (t : list ACSM_STATETABLE) : list nat :=
  omap (fun i => match next t 0 i with Some 0%nat => None | s => s end) ALPHABET.

Definition nfa_char (r : nat) (st : ACSM_STRUCT * list nat) (i : Z) : option (ACSM_STRUCT * list nat) :=
  let '(a, queue) := st in
  match next (acsmStateTable a) r i with
  | None => Some (a, queue)
  | Some s =>
      let queue := queue ++ [s] in
      let fs := fail (acsmStateTable a) r in
      match find_fail (acsmMaxStates a) (acsmStateTable a) fs i with
      | None => None
      | Some nxt =>
          let a := with_table a (acsmNumStates a) (set_fail (acsmStateTable a) s nxt) in
          Some (copy_matches a s (matches (acsmStateTable a) nxt), queue)
      end
  end.

Definition Build_NFA (a : ACSM_STRUCT) : option ACSM_STRUCT :=
  let queue := first_states (acsmStateTable a) in
  let t := fold_left (fun t s => set_fail t s 0) queue (acsmStateTable a) in
  queue_loop (fun r => ofold (nfa_char r) ALPHABET) (acsmMaxStates a)
    (with_table a (acsmNumStates a) t) queue.

(** ** The complete transition table *)

Definition dfa_char (r : nat) (st : list ACSM_STATETABLE * list nat) (i : Z) : list ACSM_STATETABLE * list nat :=
  let '(t, queue) := st in
  match next t r i with
  | Some s => (t, queue ++ [s])
  | None => (set_next t r i (next t (fail t r) i), queue)
  end.

Definition Convert_NFA_To_DFA (a : ACSM_STRUCT) : option ACSM_STRUCT :=
  t ← queue_loop (fun r st => Some (fold_left (dfa_char r) ALPHABET st)) (acsmMaxStates a)
        (acsmStateTable a) (first_states (acsmStateTable a));
  Some (with_table a (acsmNumStates a) t).

(** ** Compilation *)

Definition empty_state : ACSM_STATETABLE := MkState (replicate 256 None) 0 [].

Definition init_table (a : ACSM_STRUCT) : ACSM_STRUCT :=
  let max := fold_left (fun n p => n + length (patrn p))%nat (acsmPatterns a) 1%nat in
  MkAcsm max 0 (acsmPatterns a) (replicate max empty_state) (users a) (numPatterns a).

(** Failed transitions of state 0 return to it. *)
Definition close_root (t : list ACSM_STATETABLE) : list ACSM_STATETABLE :=
  fold_left (fun t i => match next t 0 i with None => set_next t 0 i (Some 0%nat) | Some _ => t end) ALPHABET t.

Definition acsmCompile' (a : ACSM_STRUCT) : option ACSM_STRUCT :=
  let a := fold_left AddPatternStates (acsmPatterns a) (init_table a) in
  let a := with_table a (acsmNumStates a) (close_root (acsmStateTable a)) in
  a ← Build_NFA a;
  Convert_NFA_To_DFA a.

(** [acsmBuildMatchStateTrees]: the tree and the negation list of a state are
    kept in the first entry of its match list. *)
Definition user_id (us : list ACSM_USERDATA) (p : ACSM_PATTERN) : option U := us !! udata p ≫= id.

Definition state_tree (agent : MpseAgent) (us : list ACSM_USERDATA) (l : list ACSM_PATTERN) (t : T) : T :=
  build_tree agent None
    (fold_left (fun t p => match user_id us p with
                           | Some u => if negative p then t else build_tree agent (Some u) t
                           | None => t
                           end) l t).
Definition state_negs (agent : MpseAgent) (us : list ACSM_USERDATA) (l : list ACSM_PATTERN) (n : N) : N :=
  fold_left (fun n p => match user_id us p with
                        | Some u => if negative p then negate_list agent u n else n
                        | None => n
                        end) l n.

Definition build_state (agent : MpseAgent) (us : list ACSM_USERDATA) (st : ACSM_STATETABLE) : ACSM_STATETABLE :=
  match MatchList st with
  | [] => st
  | p :: l =>
      let p' := MkPattern (patrn p) (casepatrn p) (nocase p) (negative p) (udata p)
                  (state_tree agent us (p :: l) (rule_option_tree p)) (state_negs agent us (p :: l) (neg_list p)) in
      MkState (NextState st) (FailState st) (p' :: l)
  end.

Definition acsmBuildMatchStateTrees (agent : MpseAgent) (a : ACSM_STRUCT) : ACSM_STRUCT :=
  with_table a (acsmNumStates a) (map (build_state agent (users a)) (acsmStateTable a)).

Definition acsmCompile (a : ACSM_STRUCT) : option ACSM_STRUCT :=
  a ← acsmCompile' a;
  Some (match agent with Some ag => acsmBuildMatchStateTrees ag a | None => a end).

(** ** Searching *)

(** The callback: user id, tree, index behind the match and negation list. *)
Variable match_ : C -> option U -> T -> Z -> N -> Z * C.

Fixpoint search_text (a : ACSM_STRUCT) (state : nat) (text : list Z) (index nfound : Z) (ctx : C)
    : option (Z * nat * C) :=
  match text with
  | [] => Some (nfound, state, ctx)
  | c :: text =>
      match next (acsmStateTable a) state c with
      | None => None
      | Some state =>
          match matches (acsmStateTable a) state with
          | [] => search_text a state text (index + 1) nfound ctx
          | mlist :: _ =>
              let nfound := nfound + 1 in
              let '(r, ctx) := match_ ctx (user_id (users a) mlist) (rule_option_tree mlist)
                                 (index + 1) (neg_list mlist) in
              if r >? 0 then Some (nfound, state, ctx)
              else search_text a state text (index + 1) nfound ctx
          end
      end
  end.

(** Size of the case conversion buffer [Tc]. *)
Definition Tc_size : Z := 65536.

(** [current_state]: the state the caller keeps between buffers, or null. *)
Definition acsmSearch (a : ACSM_STRUCT) (Tx : list Z) (current_state : option nat) (ctx : C)
    : option (Z * option nat * C) :=
  if Zlen Tx >? Tc_size then None else
  match current_state with
  | None => Some (0, None, ctx)
  | Some state =>
      match search_text a state (ConvertCaseEx Tx) 0 0 ctx with
      | None => None
      | Some (nfound, state, ctx) => Some (nfound, Some state, ctx)
      end
  end.

(** ** Freeing *)

(** One match list entry: its user data loses a reference, and is freed with
    the last one. *)
Definition free_entry (st : list ACSM_USERDATA * list nat) (p : ACSM_PATTERN) : list ACSM_USERDATA * list nat :=
  let '(us, freed) := st in
  match us !! udata p with
  | None => st
  | Some u =>
      let u := MkUser (id u) (ref_count u - 1) in
      (<[udata p := u]> us, if ref_count u =? 0 then freed ++ [udata p] else freed)
  end.

(** The user data freed, in order. *)
Definition acsmFree (a : ACSM_STRUCT) : list nat :=
  (fold_left free_entry (concat (map MatchList (acsmStateTable a))) (users a, [])).2.

End ACSM.

(** ** Reading a changed table *)

Section Tables.
Context {U T N : Type}.
Implicit Types (t : list (ACSM_STATETABLE (T := T) (N := N))).

Definition wide t : Prop := Forall (fun st => length (NextState st) = 256%nat) t.

Lemma wide_alter t f s :
  (forall st, length (NextState (f st)) = length (NextState st)) -> wide t -> wide (alter f s t).
Proof.
  intros Hf Hw. apply Forall_lookup. intros i st Hi.
  destruct (decide (i = s)) as [->|Hne].
  - rewrite list_lookup_alter_eq in Hi. destruct (t !! s) as [st'|] eqn:E; [|done].
    injection Hi as <-. rewrite Hf. by apply (proj1 (Forall_lookup _ _) Hw s).
  - rewrite list_lookup_alter_ne in Hi by done. by apply (proj1 (Forall_lookup _ _) Hw i).
Qed.

Lemma next_set_next t s c x s' c' :
  wide t -> (s < length t)%nat -> is_u8 c -> is_u8 c' ->
  next (set_next t s c x) s' c' = if decide (s' = s /\ c' = c) then x else next t s' c'.
Proof.
  intros Hw Hs Hc Hc'. unfold next, set_next. destruct (decide (s' = s)) as [->|Hne].
  - rewrite list_lookup_alter_eq. destruct (lookup_lt_is_Some_2 t s Hs) as [st Hst]. rewrite Hst. simpl.
    pose proof (proj1 (Forall_lookup _ _) Hw s st Hst) as Hl. simpl in Hl.
    case_decide as Hd.
    + destruct Hd as [_ ->]. rewrite list_lookup_insert_eq by mlia. done.
    + rewrite list_lookup_insert_ne; [done|]. intros E. apply Hd. split; [done|]. mlia.
  - rewrite list_lookup_alter_ne by done. by rewrite decide_False by tauto.
Qed.

Lemma fail_set_fail t s f s' :
  (s < length t)%nat -> fail (set_fail t s f) s' = if decide (s' = s) then f else fail t s'.
Proof.
  intros Hs. unfold fail, set_fail. case_decide as Hd; [subst|by rewrite list_lookup_alter_ne].
  rewrite list_lookup_alter_eq. by destruct (lookup_lt_is_Some_2 t s Hs) as [st ->].
Qed.

Lemma matches_set_matches t s l s' :
  (s < length t)%nat -> matches (set_matches t s l) s' = if decide (s' = s) then l else matches t s'.
Proof.
  intros Hs. unfold matches, set_matches. case_decide as Hd; [subst|by rewrite list_lookup_alter_ne].
  rewrite list_lookup_alter_eq. by destruct (lookup_lt_is_Some_2 t s Hs) as [st ->].
Qed.

(** Fields a setter does not touch. *)
Lemma alter_field {A} (proj : ACSM_STATETABLE (T := T) (N := N) -> A) f t s s' :
  (forall st, proj (f st) = proj st) -> proj <$> alter f s t !! s' = proj <$> t !! s'.
Proof.
  intros Hf. destruct (decide (s' = s)) as [->|Hne]; [|by rewrite list_lookup_alter_ne].
  rewrite list_lookup_alter_eq. destruct (t !! s); simpl; [by rewrite Hf|done].
Qed.

Lemma next_fmap t s c :
  next t s c = match NextState <$> t !! s with Some l => default None (l !! Z.to_nat c) | None => None end.
Proof. unfold next. by destruct (t !! s). Qed.

Lemma fail_set_next t s c x s' : fail (set_next t s c x) s' = fail t s'.
Proof. unfold fail, set_next. by rewrite alter_field. Qed.
Lemma matches_set_next t s c x s' : matches (set_next t s c x) s' = matches t s'.
Proof. unfold matches, set_next. by rewrite alter_field. Qed.
Lemma next_set_fail t s f s' c : next (set_fail t s f) s' c = next t s' c.
Proof. rewrite !next_fmap. unfold set_fail. by rewrite alter_field. Qed.
Lemma matches_set_fail t s f s' : matches (set_fail t s f) s' = matches t s'.
Proof. unfold matches, set_fail. by rewrite alter_field. Qed.
Lemma next_set_matches t s l s' c : next (set_matches t s l) s' c = next t s' c.
Proof. rewrite !next_fmap. unfold set_matches. by rewrite alter_field. Qed.
Lemma fail_set_matches t s l s' : fail (set_matches t s l) s' = fail t s'.
Proof. unfold fail, set_matches. by rewrite alter_field. Qed.
Lemma length_set_next t s c x : length (set_next t s c x) = length t.
Proof. apply length_alter. Qed.
Lemma length_set_fail t s f : length (set_fail t s f) = length t.
Proof. apply length_alter. Qed.
Lemma length_set_matches t s l : length (set_matches t s l) = length t.
Proof. apply length_alter. Qed.
Lemma wide_set_next t s c x : wide t -> wide (set_next t s c x).
Proof. apply wide_alter. intros st. apply length_insert. Qed.
Lemma wide_set_fail t s f : wide t -> wide (set_fail t s f).
Proof. by apply wide_alter. Qed.
Lemma wide_set_matches t s l : wide t -> wide (set_matches t s l).
Proof. by apply wide_alter. Qed.

End Tables.

Create Rewrite HintDb tbl.
#[export] Hint Rewrite @fail_set_next @matches_set_next @next_set_fail @matches_set_fail
  @next_set_matches @fail_set_matches @length_set_next @length_set_fail @length_set_matches : tbl.
#[export] Hint Resolve wide_set_next wide_set_fail wide_set_matches : mach.

(** ** The trie *)

Section Trie.
Context {U T N : Type}.
Abbreviation table := (list (ACSM_STATETABLE (T := T) (N := N))).
Implicit Types (t : table) (W : list (list Z)) (ps : list (ACSM_PATTERN (T := T) (N := N))).

(** State [s] of the table stands for the word [W !! s]. *)
Record trie t W : Prop := {
  tr_len : (length W <= length t)%nat;
  tr_wide : wide t;
  tr_root : W !! 0%nat = Some [];
  tr_nodup : NoDup W;
  tr_bytes : Forall bytes W;
  tr_prefix : forall w c, w ++ [c] ∈ W -> w ∈ W;
  tr_next : forall s w c s', W !! s = Some w -> is_u8 c ->
    next t s c = Some s' <-> W !! s' = Some (w ++ [c]);
  tr_unused : forall s c, (length W <= s)%nat -> is_u8 c -> next t s c = None }.

(** The patterns that end at a word, in the order of the match list. *)
Definition own ps (w : list Z) : list (ACSM_PATTERN (T := T) (N := N)) :=
  filter (fun p => patrn p = w) ps.

Record keyword t W ps : Prop := {
  kw_trie : trie t W;
  kw_words : forall w, w ∈ W <-> w = [] \/ exists p, p ∈ ps /\ w `prefix_of` patrn p;
  kw_matches : forall s w, W !! s = Some w -> matches t s ≡ₚ own ps w;
  kw_nomatch : forall s, (length W <= s)%nat -> matches t s = [];
  kw_fail : forall s, fail t s = 0%nat }.

Lemma trie_index t W s s' w : trie t W -> W !! s = Some w -> W !! s' = Some w -> s = s'.
Proof. intros Ht Hs Hs'. by eapply NoDup_lookup; [apply Ht| |]. Qed.

Lemma follow_spec t W s w pat :
  trie t W -> W !! s = Some w -> bytes pat ->
  let '(s', rest) := follow t s pat in
  exists k, pat = k ++ rest /\ W !! s' = Some (w ++ k) /\
    (forall c r, rest = c :: r -> w ++ k ++ [c] ∉ W).
Proof.
  intros Ht. revert s w. induction pat as [|c pat IH]; intros s w Hs Hb; simpl.
  - exists []. rewrite !app_nil_r. split_and!; [done|done|]. intros c r [=].
  - inversion Hb as [|? ? Hc Hb']; subst. destruct (next t s c) as [s1|] eqn:E.
    + apply (tr_next t W Ht s w c s1 Hs Hc) in E. specialize (IH s1 (w ++ [c]) E Hb').
      destruct (follow t s1 pat) as [s' rest]. destruct IH as (k & -> & Hk & Hr).
      exists (c :: k). rewrite <- !app_assoc in *. split_and!; [done|done|].
      intros d r Hd. specialize (Hr d r Hd). by rewrite <- app_assoc in Hr.
    + exists []. rewrite app_nil_r. split_and!; [done|done|]. intros d r [= <- <-] Hin. simpl in Hin.
      apply list_elem_of_lookup_1 in Hin as [s1 Hs1].
      apply (tr_next t W Ht s w c s1 Hs Hc) in Hs1. congruence.
Qed.

(** One new state behind state [s]. *)
Lemma trie_grow t W s w c :
  trie t W -> W !! s = Some w -> is_u8 c -> w ++ [c] ∉ W -> (length W < length t)%nat ->
  trie (set_next t s c (Some (length W))) (W ++ [w ++ [c]]).
Proof.
  intros Ht Hs Hc Hnew Hlen. pose proof (lookup_lt_Some _ _ _ Hs) as Hlt.
  assert (forall s' c', is_u8 c' -> next (set_next t s c (Some (length W))) s' c' =
    if decide (s' = s /\ c' = c) then Some (length W) else next t s' c') as Hnx.
  { intros s' c' Hc'. apply next_set_next; [apply Ht|lia|done|done]. }
  constructor.
  - rewrite length_set_next, length_app. simpl. lia.
  - apply wide_set_next, Ht.
  - apply lookup_app_l_Some, Ht.
  - apply NoDup_app. split_and!; [apply Ht| |apply NoDup_singleton].
    intros x Hx ->%list_elem_of_singleton. done.
  - apply Forall_app. split; [apply Ht|]. apply Forall_singleton, Forall_app. split; [|by apply Forall_singleton].
    apply (proj1 (Forall_lookup _ _) (tr_bytes t W Ht) s w Hs).
  - intros u d. rewrite !elem_of_app, !list_elem_of_singleton. intros [Hu|Hu].
    + left. by eapply tr_prefix.
    + apply app_inj_tail in Hu as [-> ->]. left. by eapply list_elem_of_lookup_2.
  - intros s1 w1 c1 s2 Hs1 Hc1. rewrite Hnx by done. apply lookup_app_Some in Hs1 as [Hs1|[Hge Hs1]].
    + case_decide as Hd.
      * destruct Hd as [-> ->]. assert (w1 = w) as -> by congruence. split.
        -- intros [= <-]. by apply list_lookup_middle.
        -- rewrite lookup_app_Some. intros [H|[H1 H2]].
           ++ exfalso. apply Hnew. by eapply list_elem_of_lookup_2.
           ++ apply list_lookup_singleton_Some in H2 as [H2 _]. f_equal. lia.
      * rewrite (tr_next t W Ht s1 w1 c1 s2 Hs1 Hc1), lookup_app_Some. split; [by left|].
        intros [H|[_ H2]]; [done|]. apply list_lookup_singleton_Some in H2 as [_ E].
        apply app_inj_tail in E as [E ->]. exfalso. apply Hd. split; [|done]. subst w1.
        by eapply trie_index.
    + apply list_lookup_singleton_Some in Hs1 as [H0 <-].
      rewrite decide_False by (intros [? _]; lia). rewrite (tr_unused t W Ht) by (done || lia).
      split; [done|]. rewrite lookup_app_Some. intros [H|[_ H2]].
      * exfalso. apply Hnew. eapply (tr_prefix t W Ht), list_elem_of_lookup_2, H.
      * apply list_lookup_singleton_Some in H2 as [_ E]. apply (f_equal length) in E.
        rewrite !length_app in E. simpl in E. lia.
  - intros s1 c1. rewrite length_app. simpl. intros Hge Hc1. rewrite Hnx by done.
    rewrite decide_False by (intros [? _]; lia). apply Ht; [lia|done].
Qed.

Abbreviation acsm := (ACSM_STRUCT (U := U) (T := T) (N := N)).

Lemma extend_spec (a : acsm) W s w rest :
  trie (acsmStateTable a) W -> W !! s = Some w -> S (acsmNumStates a) = length W -> bytes rest ->
  (forall c r, rest = c :: r -> w ++ [c] ∉ W) ->
  (length W + length rest <= length (acsmStateTable a))%nat ->
  let '(a', s') := extend a s rest in
  exists W' t', a' = with_table a (length W' - 1) t' /\ trie t' W' /\ W' !! s' = Some (w ++ rest) /\
    length W' = (length W + length rest)%nat /\ W `prefix_of` W' /\ length t' = length (acsmStateTable a) /\
    (forall x, x ∈ W' <-> x ∈ W \/ exists k, k `prefix_of` rest /\ x = w ++ k) /\
    (forall q, matches t' q = matches (acsmStateTable a) q) /\ (forall q, fail t' q = fail (acsmStateTable a) q).
Proof.
  revert a W s w. induction rest as [|c rest IH]; intros a W s w Ht Hs Hn Hb Hnew Hlen; simpl.
  - exists W, (acsmStateTable a). rewrite app_nil_r, Nat.add_0_r. split_and!; try done.
    + rewrite <- Hn. destruct a. unfold with_table. simpl. by rewrite Nat.sub_0_r.
    + intros x. split; [by left|]. intros [?|(k & Hk%prefix_nil_inv & ->)]; [done|]. subst.
      rewrite app_nil_r. by eapply list_elem_of_lookup_2.
  - inversion Hb as [|? ? Hc Hb']; subst. simpl in Hlen.
    rewrite Hn. set (a1 := with_table _ _ _).
    specialize (IH a1 (W ++ [w ++ [c]]) (length W) (w ++ [c])).
    destruct (extend a1 (length W) rest) as [a' s'] eqn:E.
    destruct IH as (W' & t' & -> & Ht' & Hw & Hl & Hp & Hlt & Hel & Hm & Hf).
    + apply trie_grow; [done|done|done|by eapply Hnew|lia].
    + by apply list_lookup_middle.
    + subst a1. simpl. rewrite length_app. simpl. lia.
    + done.
    + intros d r -> [Hin|Hin]%elem_of_app.
      * apply (Hnew c (d :: r) eq_refl). by eapply (tr_prefix _ W Ht).
      * apply list_elem_of_singleton in Hin. apply (f_equal length) in Hin.
        rewrite !length_app in Hin. simpl in Hin. lia.
    + subst a1. simpl. rewrite length_app, length_set_next. simpl. lia.
    + exists W', t'. rewrite <- app_assoc in Hw. rewrite length_app in Hl. simpl in Hl.
      subst a1. simpl in *. autorewrite with tbl in Hlt. split_and!; try done.
      * lia.
      * etrans; [|exact Hp]. by apply prefix_app_r.
      * intros x. rewrite Hel, elem_of_app, list_elem_of_singleton. split.
        -- intros [[?| ->]|(k & Hk & ->)]; [by left| |].
           ++ right. exists [c]. split; [|done]. apply prefix_cons, prefix_nil.
           ++ right. exists (c :: k). split; [by apply prefix_cons|by rewrite <- app_assoc].
        -- intros [?|(k & Hk & ->)]; [by left; left|]. destruct k as [|d k].
           ++ left. left. rewrite app_nil_r. by eapply list_elem_of_lookup_2.
           ++ pose proof (prefix_cons_inv_1 _ _ _ _ Hk) as ->. apply prefix_cons_inv_2 in Hk.
              right. exists k. split; [done|by rewrite <- app_assoc].
      * intros q. rewrite Hm. by autorewrite with tbl.
      * intros q. rewrite Hf. by autorewrite with tbl.
Qed.

Lemma own_cons p ps w : own (p :: ps) w = (if decide (patrn p = w) then [p] else []) ++ own ps w.
Proof. unfold own. rewrite filter_cons. by case_decide. Qed.

Lemma trie_prefix_of t W k x : trie t W -> k ∈ W -> x `prefix_of` k -> x ∈ W.
Proof.
  intros Ht Hk [z ->]. revert Hk. induction z as [|c z IH] using rev_ind; [by rewrite app_nil_r|].
  rewrite app_assoc. intros H. apply IH. by eapply (tr_prefix t W Ht).
Qed.

Lemma prefix_app_cases (x k rest : list Z) :
  x `prefix_of` k ++ rest -> x `prefix_of` k \/ exists j, j `prefix_of` rest /\ x = k ++ j.
Proof.
  intros [z Hz]. apply app_eq_app in Hz as (l & [[-> ->]|[-> ->]]).
  - left. by exists l.
  - right. exists l. split; [by exists z|done].
Qed.

(** The match lists after states were added. *)
Lemma grown_matches t W ps t' W' :
  keyword t W ps -> W `prefix_of` W' -> NoDup W' -> (forall q, matches t' q = matches t q) ->
  forall s w, W' !! s = Some w -> matches t' s ≡ₚ own ps w.
Proof.
  intros [Ht Hw Hm Hun _] [V ->] Hnd Hm' s w Hs. rewrite Hm'.
  apply lookup_app_Some in Hs as [Hs|[Hge Hs]]; [by apply Hm|].
  rewrite Hun by done. replace (own ps w) with (@nil (ACSM_PATTERN (T := T) (N := N))); [done|].
  symmetry.
  assert (forall l, (forall q, q ∈ l -> q ∈ ps) -> own l w = []) as H; [|by apply H].
  induction l as [|q l IH]; intros Hl; [done|]. rewrite own_cons, IH by (intros; apply Hl; by right).
  rewrite decide_False; [done|]. intros Hq. apply NoDup_app in Hnd as (_ & Hd & _).
  apply (Hd w); [|by eapply list_elem_of_lookup_2]. apply Hw. right. exists q. split; [apply Hl; left|by rewrite Hq].
Qed.

Lemma AddPatternStates_spec (a : acsm) W ps p :
  keyword (acsmStateTable a) W ps -> S (acsmNumStates a) = length W -> bytes (patrn p) ->
  (length W + length (patrn p) <= length (acsmStateTable a))%nat ->
  exists W' t', AddPatternStates a p = with_table a (length W' - 1) t' /\ keyword t' W' (p :: ps) /\
    (0 < length W' <= length W + length (patrn p))%nat /\ length t' = length (acsmStateTable a).
Proof.
  intros Hkw Hn Hb Hlen. pose proof Hkw as [Ht Hw Hm Hun Hf]. unfold AddPatternStates.
  pose proof (follow_spec _ W 0 [] (patrn p) Ht (tr_root _ W Ht) Hb) as H.
  destruct (follow (acsmStateTable a) 0 (patrn p)) as [s rest]. destruct H as (k & Ek & Hs & Hr).
  simpl in Hs, Hr. rewrite Ek in Hb, Hlen. apply Forall_app in Hb as [_ Hb]. rewrite length_app in Hlen.
  pose proof (extend_spec a W s k rest Ht Hs Hn Hb Hr ltac:(lia)) as H.
  destruct (extend a s rest) as [a' s'].
  destruct H as (W' & t' & -> & Ht' & Hs' & Hl & Hpre & Hlt & Hel & Hm' & Hf').
  exists W', (set_matches t' s' (p :: matches t' s')). rewrite <- Ek in Hs'.
  pose proof (lookup_lt_Some _ _ _ Hs') as Hlt'. pose proof (tr_len _ _ Ht') as Hl'.
  split; [done|]. autorewrite with tbl. split; [|rewrite Ek, length_app; lia].
  assert (forall q, matches (set_matches t' s' (p :: matches t' s')) q =
    if decide (q = s') then p :: matches t' s' else matches t' q) as Hmm.
  { intros q. apply matches_set_matches. lia. }
  constructor.
  - destruct Ht'. constructor; try done.
    + by rewrite length_set_matches.
    + by apply wide_set_matches.
    + intros. rewrite next_set_matches. auto.
    + intros. rewrite next_set_matches. auto.
  - intros x. rewrite Hel, Hw. split.
    + intros [[->|(q & Hq & Hx)]|(j & Hj & ->)]; [by left|right; exists q|right; exists p].
      * split; [by right|done].
      * split; [by left|]. rewrite Ek. by apply prefix_app.
    + intros [->|(q & [->|Hq]%elem_of_cons & Hx)]; [by left; left| |left; right; by exists q].
      rewrite Ek in Hx. apply prefix_app_cases in Hx as [Hx|Hx]; [|by right].
      left. apply Hw. eapply trie_prefix_of; [done| |done]. by eapply list_elem_of_lookup_2.
  - intros q w Hq. rewrite Hmm, own_cons. pose proof (grown_matches _ W ps t' W' ltac:(done) Hpre (tr_nodup _ _ Ht') Hm') as Hg.
    case_decide as Hd.
    + subst q. assert (w = patrn p) as -> by congruence. rewrite decide_True by done. simpl. constructor. by apply Hg.
    + rewrite decide_False; [by apply Hg|]. intros <-. apply Hd. by eapply trie_index.
  - intros q Hq. rewrite Hmm, decide_False by lia. rewrite Hm'. apply Hun. lia.
  - intros q. autorewrite with tbl. by rewrite Hf', Hf.
Qed.

(** *** All patterns *)

Lemma own_perm ps ps' w : ps ≡ₚ ps' -> own ps w ≡ₚ own ps' w.
Proof. intros H. unfold own. by rewrite H. Qed.

Lemma keyword_perm t W ps ps' : ps ≡ₚ ps' -> keyword t W ps -> keyword t W ps'.
Proof.
  intros Hp [Ht Hw Hm Hun Hf]. constructor; try done.
  - intros w. rewrite Hw. by setoid_rewrite Hp.
  - intros s w Hs. rewrite (Hm s w Hs). by apply own_perm.
Qed.

Definition pattern_bytes ps : nat := sum_list_with (fun p => length (patrn p)) ps.

Lemma add_all_spec l : forall (a : acsm) W ps,
  keyword (acsmStateTable a) W ps -> S (acsmNumStates a) = length W -> Forall (fun p => bytes (patrn p)) l ->
  (length W + pattern_bytes l <= length (acsmStateTable a))%nat ->
  exists W' t', fold_left AddPatternStates l a = with_table a (length W' - 1) t' /\ keyword t' W' (l ++ ps) /\
    (0 < length W')%nat /\ length t' = length (acsmStateTable a).
Proof.
  induction l as [|p l IH]; intros a W ps Hk Hn Hb Hlen; simpl.
  - exists W, (acsmStateTable a). split_and!; [|done|lia|done].
    destruct a. unfold with_table. simpl in *. f_equal. lia.
  - inversion Hb as [|? ? Hp Hb']; subst. unfold pattern_bytes in Hlen. simpl in Hlen.
    destruct (AddPatternStates_spec a W ps p Hk Hn Hp ltac:(lia)) as (W1 & t1 & -> & Hk1 & Hl1 & Ht1).
    destruct (IH (with_table a (length W1 - 1) t1) W1 (p :: ps)) as (W2 & t2 & -> & Hk2 & Hl2 & Ht2);
      simpl; try done; try lia.
    { unfold pattern_bytes. lia. }
    exists W2, t2. split_and!; [done| |done|by rewrite Ht2].
    eapply keyword_perm; [|done]. symmetry. apply Permutation_middle.
Qed.

Lemma init_max ps n :
  fold_left (fun n p => n + length (patrn p))%nat ps n = (n + pattern_bytes ps)%nat.
Proof.
  unfold pattern_bytes. revert n. induction ps as [|p ps IH]; intros n; simpl; [lia|]. rewrite IH. lia.
Qed.

Lemma lookup_empty m s : (replicate m (empty_state (T := T) (N := N))) !! s = None \/
  replicate m (empty_state (T := T) (N := N)) !! s = Some empty_state.
Proof. destruct (replicate m empty_state !! s) eqn:E; [|by left]. right. by apply lookup_replicate in E as [-> _]. Qed.

Lemma empty_keyword m : (0 < m)%nat -> keyword (replicate m (empty_state (T := T) (N := N))) [[]] [].
Proof.
  intros Hm.
  assert (forall s c, next (replicate m (empty_state (T := T) (N := N))) s c = None) as Hn.
  { intros s c. unfold next. destruct (lookup_empty m s) as [->| ->]; [done|]. unfold empty_state. cbn [NextState].
    destruct (replicate 256 None !! Z.to_nat c) as [x|] eqn:E; [|done]. by apply lookup_replicate in E as [-> _]. }
  assert (forall s, matches (replicate m (empty_state (T := T) (N := N))) s = []) as Hmm.
  { intros s. unfold matches. by destruct (lookup_empty m s) as [->| ->]. }
  constructor.
  - constructor.
    + rewrite length_replicate. simpl. lia.
    + apply Forall_replicate. reflexivity.
    + done.
    + apply NoDup_singleton.
    + by repeat constructor.
    + intros w c Hw%list_elem_of_singleton. by destruct w.
    + intros s w c s' Hs _. rewrite Hn. split; [done|]. intros H.
      apply list_lookup_singleton_Some in H as [_ H]. by destruct w.
    + intros. apply Hn.
  - intros w. rewrite list_elem_of_singleton. split; [by left|]. intros [->|(p & Hp%not_elem_of_nil & _)]; done.
  - intros s w Hs. by rewrite Hmm.
  - intros s Hs. apply Hmm.
  - intros s. unfold fail. by destruct (lookup_empty m s) as [->| ->].
Qed.

(** The trie of all patterns of an instance. *)
Lemma keyword_all (a : acsm) :
  Forall (fun p => bytes (patrn p)) (acsmPatterns a) ->
  exists W t, fold_left AddPatternStates (acsmPatterns a) (init_table a) = with_table (init_table a) (length W - 1) t /\
    keyword t W (acsmPatterns a) /\ (0 < length W)%nat /\ length t = acsmMaxStates (init_table a).
Proof.
  intros Hb. destruct (add_all_spec (acsmPatterns a) (init_table a) [[]] []) as (W & t & E & Hk & Hl & Ht).
  - apply empty_keyword. rewrite init_max. lia.
  - done.
  - done.
  - simpl. rewrite length_replicate, init_max. lia.
  - exists W, t. split; [done|]. rewrite app_nil_r in Hk. split_and!; [done|done|].
    rewrite Ht. simpl. by rewrite length_replicate.
Qed.

End Trie.

(** ** The automaton *)

Section Automaton.
Context {U T N : Type}.
Abbreviation table := (list (ACSM_STATETABLE (T := T) (N := N))).
Abbreviation acsm := (ACSM_STRUCT (U := U) (T := T) (N := N)).
Abbreviation pattern := (ACSM_PATTERN (T := T) (N := N)).

Variables (W : list (list Z)) (ps : list pattern).

Hypothesis W_root : W !! 0%nat = Some [].
Hypothesis W_nodup : NoDup W.
Hypothesis W_bytes : Forall bytes W.
Hypothesis W_prefix : forall w c, w ++ [c] ∈ W -> w ∈ W.
Hypothesis W_patterns : forall p, p ∈ ps -> patrn p ∈ W.
Hypothesis ps_nonempty : Forall (fun p => patrn p <> []) ps.

Local Abbreviation suf := (lsuf W).

Lemma W_nil_in : [] ∈ W.
Proof using W_root. by eapply list_elem_of_lookup_2. Qed.

Lemma W_index s s' w : W !! s = Some w -> W !! s' = Some w -> s = s'.
Proof using W_nodup. intros. by eapply NoDup_lookup. Qed.

Lemma W_state w : w ∈ W -> exists s, W !! s = Some w.
Proof. apply list_elem_of_lookup_1. Qed.

Lemma suf_state x : exists s, W !! s = Some (suf x).
Proof using W_root. apply W_state, lsuf_in, W_nil_in. Qed.

Lemma W_length w : w ∈ W -> (length w < length W)%nat.
Proof using W_prefix.
  intros Hw.
  assert (forall n, (n <= length w)%nat -> take n w ∈ W) as Hp.
  { intros n Hn. remember (length w - n)%nat as k eqn:Hk. revert n Hn Hk.
    induction k as [|k IH]; intros n Hn Hk; [by rewrite take_ge by lia|].
    destruct (lookup_lt_is_Some_2 w n) as [c Hc]; [lia|].
    apply (W_prefix _ c). rewrite <- take_S_r by done. apply IH; lia. }
  assert (length (map (fun n => take n w) (seq 0 (S (length w)))) <= length W)%nat as H;
    [|rewrite length_map, length_seq in H; lia].
  apply submseteq_length, NoDup_submseteq.
  - apply NoDup_fmap_2_strong; [|apply NoDup_seq].
    intros x y Hx Hy E. apply list_elem_of_In, in_seq in Hx, Hy. apply (f_equal length) in E.
    rewrite !length_take in E. lia.
  - intros x. rewrite list_elem_of_In, in_map_iff. intros (n & <- & Hn%in_seq). apply Hp. lia.
Qed.

(** States other than 0 still have their trie transitions; state 0 leads to
    the longest suffix of the one character. *)
Record goto (t : table) : Prop := {
  g_wide : wide t;
  g_len : (length W <= length t)%nat;
  g_root : forall c, is_u8 c -> exists s, next t 0 c = Some s /\ W !! s = Some (suf [c]);
  g_next : forall s w c s', (0 < s)%nat -> W !! s = Some w -> is_u8 c ->
    next t s c = Some s' <-> W !! s' = Some (w ++ [c]) }.

Lemma close_root_spec (t : table) :
  trie t W ->
  goto (close_root t) /\ (forall s, matches (close_root t) s = matches t s) /\
  (forall s, fail (close_root t) s = fail t s) /\ length (close_root t) = length t.
Proof using W_root.
  intros Ht. unfold close_root. set (f := fun t i => _).
  assert (forall l t1, Forall is_u8 l -> wide t1 -> (0 < length t1)%nat ->
    let t2 := fold_left f l t1 in
    wide t2 /\ length t2 = length t1 /\ (forall s, matches t2 s = matches t1 s) /\
    (forall s, fail t2 s = fail t1 s) /\
    (forall s c, is_u8 c -> next t2 s c = if decide (s = 0%nat /\ c ∈ l /\ next t1 s c = None) then Some 0%nat
                                 else next t1 s c)) as H.
  { induction l as [|i l IH]; intros t1 Hl Hw H0; cbn [fold_left].
    - split_and!; try done. intros s c _. rewrite decide_False; [done|]. by intros (_ & ?%not_elem_of_nil & _).
    - inversion Hl as [|? ? Hi Hl']; subst. cbn zeta.
      assert (wide (f t1 i) /\ length (f t1 i) = length t1 /\ (forall s, matches (f t1 i) s = matches t1 s) /\
        (forall s, fail (f t1 i) s = fail t1 s) /\
        (forall s c, is_u8 c -> next (f t1 i) s c =
           if decide (s = 0%nat /\ c = i /\ next t1 s c = None) then Some 0%nat else next t1 s c))
        as (Hw1 & Hl1 & Hm1 & Hf1 & Hn1).
      { unfold f. destruct (next t1 0 i) as [x|] eqn:E.
        - split_and!; try done. intros s c _. rewrite decide_False; [done|]. intros (-> & -> & ?). congruence.
        - autorewrite with tbl. split_and!; auto with mach; [by intros; autorewrite with tbl..|].
          intros s c Hc. rewrite next_set_next by done. repeat case_decide; try done; intuition congruence. }
      destruct (IH (f t1 i) Hl' Hw1 ltac:(lia)) as (Hw2 & Hl2 & Hm2 & Hf2 & Hn2).
      split_and!; [done|lia|intros; by rewrite Hm2|intros; by rewrite Hf2|].
      intros s c Hc. rewrite Hn2, Hn1 by done. pose proof (elem_of_cons l c i) as Hel. clear -Hel.
      repeat case_decide; try done; intuition congruence. }
  pose proof (tr_len _ _ Ht) as Hlen.
  assert (0 < length t)%nat as H0 by (pose proof (lookup_lt_Some _ _ _ W_root); lia).
  destruct (H ALPHABET t) as (Hw & Hl & Hm & Hf & Hn); [|apply Ht|done|].
  { apply alphabet_bytes. }
  split_and!; [|done|done|done]. constructor; [done|lia| |].
  - intros c Hc. rewrite Hn by done. destruct (decide ([c] ∈ W)) as [Hin|Hnin].
    + rewrite lsuf_id by done. destruct (W_state [c] Hin) as [s Hs]. exists s. split; [|done].
      assert (next t 0 c = Some s) as E by (apply (tr_next _ _ Ht 0%nat [] c s W_root Hc); done).
      rewrite decide_False; [done|]. intros (_ & _ & ?). congruence.
    + exists 0%nat. rewrite lsuf_cons by done. rewrite lsuf_id by apply W_nil_in. split; [|done].
      rewrite decide_True; [done|]. rewrite alphabet_elem. split_and!; [done|done|].
      destruct (next t 0 c) as [s|] eqn:E; [|done]. exfalso. apply Hnin.
      apply (tr_next _ _ Ht 0%nat [] c s W_root Hc) in E. by eapply list_elem_of_lookup_2.
  - intros s w c s' Hs Hw' Hc. rewrite Hn by done. rewrite decide_False by lia. by apply Ht.
Qed.

(** *** The order in which states are visited *)

Definition idx (w : list Z) : option nat := fst <$> list_find (fun x => x = w) W.

Lemma idx_Some w s : idx w = Some s <-> W !! s = Some w.
Proof using W_nodup.
  unfold idx. split.
  - destruct (list_find _ W) as [[i x]|] eqn:E; [|done]. intros [= ->].
    apply list_find_Some in E as (Hi & -> & _). done.
  - intros Hs. destruct (list_find (fun x => x = w) W) as [[i x]|] eqn:E; simpl.
    + apply list_find_Some in E as (Hi & -> & _). f_equal. by eapply W_index.
    + apply list_find_None in E. rewrite Forall_lookup in E. by destruct (E s w Hs).
Qed.

Lemma option_ext {A} (x y : option A) : (forall s, x = Some s <-> y = Some s) -> x = y.
Proof.
  intros H. destruct x as [a|], y as [b|]; try done.
  - symmetry. by apply H.
  - symmetry. by apply H.
  - by apply H.
Qed.

Definition succs (w : list Z) : list nat := omap (fun c => idx (w ++ [c])) ALPHABET.
Definition kids (r : nat) : list nat :=
  match W !! r with Some (c :: w) => succs (c :: w) | _ => [] end.
Definition depth (s : nat) : nat := length (default [] (W !! s)).

Lemma depth_word s w : W !! s = Some w -> depth s = length w.
Proof. unfold depth. by intros ->. Qed.

Lemma succs_elem w s : s ∈ succs w <-> exists c, is_u8 c /\ W !! s = Some (w ++ [c]).
Proof using W_nodup.
  unfold succs. rewrite list_elem_of_omap. split.
  - intros (c & Hc%alphabet_elem & Hs%idx_Some). eauto.
  - intros (c & Hc & Hs). exists c. rewrite alphabet_elem, idx_Some. done.
Qed.

Lemma nonroot s w : W !! s = Some w -> w <> [] <-> (0 < s)%nat.
Proof using W_root W_nodup.
  intros Hs. split.
  - intros Hw. destruct s; [|lia]. congruence.
  - intros H0 ->. pose proof (W_index _ _ _ Hs W_root). lia.
Qed.

Lemma kids_eq r w : (0 < r)%nat -> W !! r = Some w -> kids r = succs w.
Proof using W_root W_nodup.
  intros Hr Hw. unfold kids. rewrite Hw. destruct w; [|done]. pose proof (W_index _ _ _ Hw W_root). lia.
Qed.

Lemma kids_elem r s :
  s ∈ kids r <-> exists w c, (0 < r)%nat /\ W !! r = Some w /\ is_u8 c /\ W !! s = Some (w ++ [c]).
Proof using W_root W_nodup.
  split.
  - unfold kids. destruct (W !! r) as [[|c w]|] eqn:E; try (by intros ?%not_elem_of_nil).
    intros (d & Hd & Hs)%succs_elem. exists (c :: w), d. split_and!; try done. by apply (nonroot r (c :: w)).
  - intros (w & c & Hr & Hw & Hc & Hs). rewrite (kids_eq r w) by done. apply succs_elem. eauto.
Qed.

Lemma NoDup_succs w : NoDup (succs w).
Proof using W_nodup.
  unfold succs. assert (NoDup ALPHABET) as H by apply alphabet_nodup.
  induction H as [|c l Hc Hl IH]; simpl; [constructor|]. destruct (idx (w ++ [c])) as [s|] eqn:E; [|done].
  constructor; [|done]. rewrite list_elem_of_omap. intros (d & Hd & Hs). apply idx_Some in E, Hs.
  rewrite E in Hs. injection Hs as Hs. apply app_inj_tail in Hs as [_ ->]. done.
Qed.

Lemma order_facts :
  let ord := order (succs []) kids (length W) in
  (forall s, s ∈ ord <-> (0 < s < length W)%nat) /\ NoDup ord /\
  (forall done r rest s, ord = done ++ r :: rest -> (0 < s < length W)%nat -> (depth s < depth r)%nat -> s ∈ done) /\
  (forall fuel, (length W <= fuel)%nat -> border kids fuel (succs []) = ord /\ exhausted kids fuel (succs [])).
Proof using W_bytes W_nodup W_prefix W_root.
  assert (forall s w, W !! s = Some w -> (s < length W)%nat) as Hlt by (intros; by eapply lookup_lt_Some).
  assert (forall s, s ∈ succs [] -> depth s = 1%nat /\ (0 < s < length W)%nat) as Hf.
  { intros s (c & Hc & Hs)%succs_elem. rewrite (depth_word _ _ Hs). split; [done|]. split; [|eauto].
    apply (nonroot s [c]); done. }
  assert (forall r, NoDup (kids r)) as Hkn.
  { intros r. unfold kids. destruct (W !! r) as [[|]|]; [constructor|apply NoDup_succs|constructor]. }
  assert (forall r s, s ∈ kids r -> depth s = S (depth r) /\ (0 < s < length W)%nat) as Hkd.
  { intros r s (w & c & Hr & Hw & Hc & Hs)%kids_elem. rewrite (depth_word _ _ Hs), (depth_word _ _ Hw).
    rewrite length_app. simpl. split; [lia|]. split; [|eauto]. apply (nonroot s (w ++ [c])); [done|]. by destruct w. }
  assert (forall r r' s, s ∈ kids r -> s ∈ kids r' -> r = r') as Hkp.
  { intros r r' s (w & c & _ & Hw & _ & Hs)%kids_elem (w' & c' & _ & Hw' & _ & Hs')%kids_elem.
    rewrite Hs in Hs'. injection Hs' as Hs'. apply app_inj_tail in Hs' as [<- _]. by eapply W_index. }
  assert (forall s, (0 < s < length W)%nat -> s ∈ succs [] \/ exists r, (0 < r < length W)%nat /\ s ∈ kids r) as Hc.
  { intros s Hs. destruct (lookup_lt_is_Some_2 W s) as [w Hw]; [lia|].
    destruct w as [|c w] using rev_ind; [pose proof (W_index _ _ _ Hw W_root); lia|]. clear IHw.
    pose proof (proj1 (Forall_lookup _ _) W_bytes s _ Hw) as [_ Hc]%Forall_app.
    inversion Hc as [|? ? Hc' _]; subst. clear Hc.
    destruct (W_state w) as [r Hr]; [by eapply W_prefix, list_elem_of_lookup_2|].
    destruct r as [|r].
    - left. assert (w = []) as -> by congruence. apply succs_elem. by exists c.
    - right. exists (S r). split; [split; [lia|eauto]|]. apply kids_elem. by exists w, c; split_and!; [lia|..]. }
  assert (forall s, (0 < s < length W)%nat -> (depth s <= length W)%nat) as Hd.
  { intros s Hs. destruct (lookup_lt_is_Some_2 W s) as [w Hw]; [lia|]. rewrite (depth_word _ _ Hw).
    pose proof (W_length w ltac:(by eapply list_elem_of_lookup_2)). lia. }
  pose proof (NoDup_succs []) as Hn. cbn zeta. split_and!.
  - intros s. by apply (order_elem _ _ depth).
  - by apply (order_nodup _ _ depth (length W)).
  - intros done r rest s. by eapply (order_before _ _ depth).
  - intros fuel. by apply (order_run _ _ depth).
Qed.

(** *** Failure states and match lists *)

(** The patterns that end where the text read so far ends. *)
Definition ending (w : list Z) : list pattern := filter (fun p => patrn p `suffix_of` w) ps.

Lemma ending_nil : ending [] = [].
Proof using ps_nonempty.
  unfold ending. clear W_patterns. revert ps_nonempty. induction ps as [|p l IH]; [done|].
  intros [Hp Hl]%Forall_cons. rewrite filter_cons_False; [auto|]. intros Hs. by apply suffix_nil_inv in Hs.
Qed.

Lemma own_nil : own ps [] = [].
Proof using ps_nonempty.
  unfold own. clear W_patterns. revert ps_nonempty. induction ps as [|p l IH]; [done|].
  intros [Hp Hl]%Forall_cons. rewrite filter_cons_False; auto.
Qed.

Lemma ending_suf w : ending (suf w) = ending w.
Proof using W_patterns.
  unfold ending.
  assert (forall l : list pattern, (forall p, p ∈ l -> p ∈ ps) ->
    filter (fun p => patrn p `suffix_of` suf w) l = filter (fun p => patrn p `suffix_of` w) l) as H; [|by apply H].
  induction l as [|p l IH]; intros Hl; [done|]. rewrite !filter_cons, IH by (intros; apply Hl; by right).
  assert (patrn p `suffix_of` suf w <-> patrn p `suffix_of` w) as Hiff.
  { split; [intros; etrans; [done|apply lsuf_suffix]|]. apply lsuf_max, W_patterns, Hl. left. }
  repeat case_decide; tauto.
Qed.

Lemma ending_step c w : ending (c :: w) ≡ₚ own ps (c :: w) ++ ending w.
Proof.
  unfold ending, own. clear W_patterns ps_nonempty. induction ps as [|p l IH]; [done|]. rewrite !filter_cons.
  destruct (decide (patrn p = c :: w)) as [E|E].
  - rewrite decide_True by (by rewrite E). rewrite decide_False; [simpl; by rewrite IH|].
    rewrite E. intros H%suffix_length. simpl in H. lia.
  - destruct (decide (patrn p `suffix_of` w)) as [Hs|Hs].
    + rewrite decide_True by (by apply suffix_cons_r). rewrite IH. apply Permutation_middle.
    + rewrite decide_False; [done|]. intros H. destruct (patrn p) as [|d x]; [apply Hs, suffix_nil|].
      by apply suffix_cons_inv in H as [?|?].
Qed.

(** [ready R s]: the transition into [s] is one of [R], or starts at state 0. *)
Definition ready (R : nat -> Z -> Prop) (s : nat) : Prop :=
  exists r w c, W !! r = Some w /\ W !! s = Some (w ++ [c]) /\ (r = 0%nat \/ R r c).

Record nfa (R : nat -> Z -> Prop) (t : table) : Prop := {
  n_goto : goto t;
  n_fail : forall s w, W !! s = Some w -> ready R s -> W !! fail t s = Some (suf (tail w));
  n_full : forall s w, W !! s = Some w -> ready R s -> matches t s ≡ₚ ending w;
  n_own : forall s w, W !! s = Some w -> ~ ready R s -> matches t s ≡ₚ own ps w;
  n_unused : forall s, (length W <= s)%nat -> matches t s = [] }.

Lemma ready_nonroot R s w : ready R s -> W !! s = Some w -> w <> [].
Proof. intros (r & v & c & _ & Hs & _) Hw ->. rewrite Hs in Hw. by destruct v. Qed.

(** The loop finds the longest suffix that can be extended. *)
Lemma find_fail_spec (t : table) R fuel u x c :
  goto t -> (forall s w, W !! s = Some w -> ready R s -> W !! fail t s = Some (suf (tail w))) ->
  (forall s w, (0 < s)%nat -> W !! s = Some w -> (length w <= length x)%nat -> ready R s) ->
  is_u8 c -> W !! u = Some x -> (length x < fuel)%nat ->
  exists n, find_fail fuel t u c = Some n /\ W !! n = Some (suf (x ++ [c])).
Proof using W_nodup W_prefix W_root.
  intros Hg Hf. revert u x. induction fuel as [|fuel IH]; intros u x Hr Hc Hu Hl; [lia|]. simpl.
  destruct (decide (u = 0%nat)) as [->|Hu0].
  - assert (x = []) as -> by congruence. destruct (g_root t Hg c Hc) as (s & -> & Hs). by exists s.
  - destruct (next t u c) as [s|] eqn:E.
    + exists s. split; [done|]. apply (g_next t Hg u x c s ltac:(lia) Hu Hc) in E.
      rewrite lsuf_id; [done|]. by eapply list_elem_of_lookup_2.
    + assert (x ++ [c] ∉ W) as Hnin.
      { intros [s Hs]%W_state. apply (g_next t Hg u x c s ltac:(lia) Hu Hc) in Hs. congruence. }
      destruct x as [|d x]; [pose proof (W_index _ _ _ Hu W_root); lia|].
      pose proof (Hf u _ Hu ltac:(eapply Hr; [lia|done|done])) as Hfu. simpl in Hfu, Hl.
      pose proof (suffix_length _ _ (lsuf_suffix W x)) as Hsl.
      destruct (IH (fail t u) (suf x)) as (n & -> & Hn).
      * intros s w H0 Hw Hle. eapply Hr; [done|done|]. simpl. lia.
      * done.
      * done.
      * lia.
      * exists n. split; [done|]. rewrite Hn. f_equal. change ((d :: x) ++ [c]) with (d :: (x ++ [c])) in *.
        rewrite lsuf_cons by done.
        symmetry. apply lsuf_snoc; [apply W_nil_in|done].
Qed.

Lemma nfa_child (t : table) R r w c s fuel :
  nfa R t -> (0 < r)%nat -> W !! r = Some w -> is_u8 c -> W !! s = Some (w ++ [c]) -> ~ R r c ->
  (forall u v, (0 < u)%nat -> W !! u = Some v -> (length v <= length w)%nat -> ready R u) ->
  (length W <= fuel)%nat ->
  exists n, find_fail fuel t (fail t r) c = Some n /\ (n < length t)%nat /\
    nfa (fun r' c' => R r' c' \/ r' = r /\ c' = c)
      (set_matches (set_fail t s n) s (rev (matches t n) ++ matches t s)).
Proof using W_nodup W_patterns W_prefix W_root ps_nonempty.
  intros [Hg Hf Hm Ho Hu] Hr0 Hr Hc Hs Hnew Hsh Hfuel.
  assert (ready R r) as Hrr by (eapply Hsh; done).
  destruct w as [|d w]; [by apply (nonroot r []) in Hr0|].
  pose proof (Hf r _ Hr Hrr) as Hfr. simpl in Hfr.
  pose proof (suffix_length _ _ (lsuf_suffix W w)) as Hsl.
  destruct (find_fail_spec t R fuel (fail t r) (suf w) c) as (n & Hn & Hwn); try done.
  { intros u v Hu0 Hv Hle. eapply Hsh; [done|done|]. simpl. lia. }
  { pose proof (W_length (suf w) (lsuf_in W W_nil_in w)). lia. }
  rewrite <- lsuf_snoc in Hwn by (done || apply W_nil_in).
  pose proof (lookup_lt_Some _ _ _ Hwn) as Hlt. pose proof (lookup_lt_Some _ _ _ Hs) as Hls.
  pose proof (g_len t Hg) as Hlen. exists n. split; [done|]. split; [lia|].
  set (R' := fun r' c' => R r' c' \/ _).
  assert (ready R' s) as Hs' by (exists r, (d :: w), c; split_and!; [done|done|by right; right]).
  assert (~ ready R s) as Hns.
  { intros (r1 & w1 & c1 & H1 & H2 & H3). rewrite Hs in H2. injection H2 as H2.
    apply (app_inj_tail (d :: w)) in H2 as [<- <-]. pose proof (W_index _ _ _ Hr H1). subst r1.
    destruct H3; [lia|done]. }
  assert (forall q, ready R' q <-> ready R q \/ q = s) as Hrdy.
  { intros q. split.
    - intros (r1 & w1 & c1 & H1 & H2 & [H3|[H3|[-> ->]]]); [left; exists r1, w1, c1; auto..|].
      right. assert (w1 = d :: w) as -> by congruence. by eapply W_index.
    - intros [(r1 & w1 & c1 & H1 & H2 & H3)| ->]; [|done]. exists r1, w1, c1. split_and!; try done.
      destruct H3; [by left|right; by left]. }
  assert (matches t n ≡ₚ ending (suf (w ++ [c]))) as Hmn.
  { destruct (decide (n = 0%nat)) as [->|Hn0].
    - assert (suf (w ++ [c]) = []) as -> by congruence. rewrite ending_nil, <- own_nil.
      apply Ho; [done|]. intros Hrd. by destruct (ready_nonroot R 0 [] Hrd W_root).
    - apply Hm; [done|]. eapply Hsh; [lia|done|].
      pose proof (suffix_length _ _ (lsuf_suffix W (w ++ [c]))) as H. rewrite length_app in H. simpl in *. lia. }
  constructor.
  - destruct Hg. constructor; autorewrite with tbl; auto with mach; intros; autorewrite with tbl; auto.
  - intros q v Hq Hrd. autorewrite with tbl. rewrite fail_set_fail by lia. case_decide as Hd.
    + subst q. rewrite Hs in Hq. injection Hq as <-. done.
    + apply Hf; [done|]. apply Hrdy in Hrd as [?|?]; done.
  - intros q v Hq Hrd. rewrite matches_set_matches by (rewrite length_set_fail; lia). case_decide as Hd.
    + subst q. rewrite Hs in Hq. injection Hq as <-.
      rewrite (ending_step d (w ++ [c])), <- ending_suf, <- Hmn, <- (Ho s _ Hs Hns), <- Permutation_rev.
      apply Permutation_app_comm.
    + rewrite matches_set_fail. apply Hm; [done|]. apply Hrdy in Hrd as [?|?]; done.
  - intros q v Hq Hrd. rewrite matches_set_matches by (rewrite length_set_fail; lia).
    rewrite decide_False by (intros ->; done). rewrite matches_set_fail. apply Ho; [done|]. intros ?. apply Hrd, Hrdy. by left.
  - intros q Hq. rewrite matches_set_matches by (rewrite length_set_fail; lia).
    rewrite decide_False by lia. rewrite matches_set_fail. by apply Hu.
Qed.

Lemma nfa_ext R R' (t : table) : (forall q, ready R q <-> ready R' q) -> nfa R t -> nfa R' t.
Proof. intros H [Hg Hf Hm Ho Hu]. constructor; try done; intros s w Hs; rewrite <- H; auto. Qed.

(** *** References to user data *)

Definition uses (i : nat) (l : list pattern) : nat := length (filter (fun p => udata p = i) l).
Definition total (t : table) (i : nat) : nat := sum_list_with (fun st => uses i (MatchList st)) t.

Lemma uses_app i l k : uses i (l ++ k) = (uses i l + uses i k)%nat.
Proof. unfold uses. by rewrite filter_app, length_app. Qed.
Lemma uses_perm i l k : l ≡ₚ k -> uses i l = uses i k.
Proof. intros H. unfold uses. by rewrite H. Qed.

Lemma total_set_matches (t : table) s l i :
  (s < length t)%nat -> (total (set_matches t s l) i + uses i (matches t s) = total t i + uses i l)%nat.
Proof.
  revert s. induction t as [|st t IH]; intros s Hs; simpl in Hs; [lia|]. unfold total, matches. destruct s as [|s]; simpl.
  - lia.
  - specialize (IH s ltac:(lia)). unfold total, matches, set_matches in *. cbn [sum_list_with] in *. lia.
Qed.

Lemma total_alter (t : table) f s i : (forall st, MatchList (f st) = MatchList st) -> total (alter f s t) i = total t i.
Proof.
  intros Hf. unfold total. revert s. induction t as [|st t IH]; intros [|s]; simpl; try done; [by rewrite Hf|].
  f_equal. apply IH.
Qed.

Definition refs_ok (t : table) (us : list (ACSM_USERDATA (U := U))) : Prop :=
  forall i u, us !! i = Some u -> ref_count u = Z.of_nat (total t i).

Lemma bump_all (l : list pattern) : forall (us : list (ACSM_USERDATA (U := U))) i,
  fold_left bump l us !! i = (fun u => MkUser (id u) (ref_count u + Z.of_nat (uses i l))) <$> us !! i.
Proof.
  induction l as [|p l IH]; intros us i; simpl.
  - destruct (us !! i) as [u|]; simpl; [|done]. destruct u. simpl. do 2 f_equal. change (uses i []) with 0%nat. lia.
  - rewrite IH. unfold bump, uses. rewrite filter_cons. destruct (decide (udata p = i)) as [<-|Hne].
    + rewrite list_lookup_alter_eq. destruct (us !! udata p); simpl; [|done]. do 2 f_equal. lia.
    + by rewrite list_lookup_alter_ne.
Qed.

Lemma bump_ids (l : list pattern) : forall us : list (ACSM_USERDATA (U := U)), id <$> fold_left bump l us = id <$> us.
Proof.
  intros us. apply list_eq. intros i. rewrite !list_lookup_fmap, bump_all. by destruct (us !! i).
Qed.

Lemma set_matches_same (t : table) s : (s < length t)%nat -> set_matches t s (matches t s) = t.
Proof.
  intros Hs. unfold set_matches, matches. apply list_eq. intros i.
  destruct (decide (i = s)) as [->|]; [|by rewrite list_lookup_alter_ne].
  rewrite list_lookup_alter_eq. destruct (lookup_lt_is_Some_2 t s Hs) as [st ->]. by destruct st.
Qed.

Lemma set_matches_twice (t : table) s l k : set_matches (set_matches t s l) s k = set_matches t s k.
Proof.
  unfold set_matches. apply list_eq. intros i.
  destruct (decide (i = s)) as [->|]; [|by rewrite !list_lookup_alter_ne].
  rewrite !list_lookup_alter_eq. by destruct (t !! s).
Qed.

Lemma copy_matches_spec l : forall (a : acsm) s,
  (s < length (acsmStateTable a))%nat ->
  copy_matches a s l =
  with_users (with_table a (acsmNumStates a)
    (set_matches (acsmStateTable a) s (rev l ++ matches (acsmStateTable a) s))) (fold_left bump l (users a)).
Proof.
  induction l as [|p l IH]; intros a s Hs.
  - simpl. rewrite set_matches_same by done. by destruct a.
  - set (t := acsmStateTable a).
    change (copy_matches a s (p :: l)) with
      (copy_matches (with_users (with_table a (acsmNumStates a) (set_matches t s (p :: matches t s)))
                       (bump (users a) p)) s l).
    rewrite IH; simpl; [|by rewrite length_set_matches].
    rewrite set_matches_twice, matches_set_matches, decide_True by done. by rewrite <- app_assoc.
Qed.

Lemma copy_refs (t : table) us s n :
  (s < length t)%nat -> refs_ok t us ->
  refs_ok (set_matches t s (rev (matches t n) ++ matches t s)) (fold_left bump (matches t n) us).
Proof.
  intros Hs Hr i u Hi. rewrite bump_all in Hi. destruct (us !! i) as [u0|] eqn:E; [|done]. injection Hi as <-. simpl.
  rewrite (Hr i u0 E). pose proof (total_set_matches t s (rev (matches t n) ++ matches t s) i Hs) as H.
  rewrite uses_app, (uses_perm i (rev (matches t n)) (matches t n)) in H by (by rewrite <- Permutation_rev). lia.
Qed.

(** *** Building the failure states *)

Record built (a0 : acsm) (R : nat -> Z -> Prop) (a : acsm) : Prop := {
  b_max : acsmMaxStates a = acsmMaxStates a0;
  b_nfa : nfa R (acsmStateTable a);
  b_refs : refs_ok (acsmStateTable a) (users a);
  b_ids : id <$> users a = id <$> users a0;
  b_len : length (acsmStateTable a) = length (acsmStateTable a0);
  b_patterns : acsmPatterns a = acsmPatterns a0 }.

Lemma built_ext a0 R R' a : (forall q, ready R q <-> ready R' q) -> built a0 R a -> built a0 R' a.
Proof. intros H [? Hn ? ? ? ?]. constructor; try done. by eapply nfa_ext. Qed.

Lemma next_idx (t : table) r w c : goto t -> (0 < r)%nat -> W !! r = Some w -> is_u8 c -> next t r c = idx (w ++ [c]).
Proof using W_nodup.
  intros Hg Hr Hw Hc. apply option_ext. intros s. rewrite idx_Some. by apply Hg.
Qed.

Lemma nfa_row a0 (R : nat -> Z -> Prop) r w (l pre : list Z) (a : acsm) q :
  (0 < r)%nat -> W !! r = Some w -> (forall c, ~ R r c) ->
  (forall u v, (0 < u)%nat -> W !! u = Some v -> (length v <= length w)%nat -> ready R u) ->
  Forall is_u8 l -> NoDup (pre ++ l) -> (length W <= acsmMaxStates a0)%nat ->
  built a0 (fun r' c' => R r' c' \/ r' = r /\ c' ∈ pre) a ->
  exists a', ofold (nfa_char r) l (a, q) = Some (a', q ++ omap (fun c => idx (w ++ [c])) l) /\
    built a0 (fun r' c' => R r' c' \/ r' = r /\ c' ∈ pre ++ l) a'.
Proof using W_nodup W_patterns W_prefix W_root ps_nonempty.
  intros Hr Hw Hnew Hsh. revert pre a q. induction l as [|c l IH]; intros pre a q Hl Hnd Hmax Hb.
  { exists a. simpl. by rewrite !app_nil_r. }
  apply Forall_cons in Hl as [Hc Hl]. rewrite cons_middle, app_assoc in Hnd. pose proof Hb as [Bm Bn Br Bi Bl Bp].
  assert (c ∉ pre) as Hcp.
  { apply NoDup_app in Hnd as [Hnd _]. apply NoDup_app in Hnd as (_ & Hd & _). intros H. apply (Hd c H). left. }
  cbn [ofold omap list_omap nfa_char]. rewrite (next_idx _ r w c (n_goto _ _ Bn) Hr Hw Hc).
  destruct (idx (w ++ [c])) as [s|] eqn:Es.
  - apply idx_Some in Es.
    destruct (nfa_child (acsmStateTable a) _ r w c s (acsmMaxStates a) Bn Hr Hw Hc Es) as (n & Ef & Hn & Hnfa).
    { intros [?|[_ ?]]; [by eapply Hnew|done]. }
    { intros u v Hu Hv Hle. destruct (Hsh u v Hu Hv Hle) as (r1 & w1 & c1 & H1 & H2 & H3).
      exists r1, w1, c1. split_and!; try done. destruct H3; [by left|right; by left]. }
    { by rewrite Bm. }
    rewrite Ef. pose proof (lookup_lt_Some _ _ _ Es) as Hs. pose proof (g_len _ (n_goto _ _ Bn)) as Hg.
    rewrite copy_matches_spec by (simpl; rewrite length_set_fail; lia). cbn [acsmStateTable with_table acsmNumStates users].
    rewrite !matches_set_fail. set (a1 := with_users _ _).
    destruct (IH (pre ++ [c]) a1 (q ++ [s]) Hl Hnd Hmax) as (a' & E & Hb').
    + constructor; try done; simpl.
      * eapply nfa_ext; [|exact Hnfa]. intros x. unfold ready.
        split; intros (r1 & w1 & c1 & H1 & H2 & H3); exists r1, w1, c1; (split_and!; [done|done|]);
          rewrite ?elem_of_app, ?list_elem_of_singleton in *; tauto.
      * pose proof (copy_refs (set_fail (acsmStateTable a) s n) (users a) s n) as H.
        rewrite !matches_set_fail in H. apply H; [rewrite length_set_fail; lia|].
        intros i u Hi. rewrite (Br i u Hi). unfold set_fail. by rewrite total_alter.
      * by rewrite bump_ids.
      * by autorewrite with tbl.
    + exists a'. rewrite <- !app_assoc in *. done.
  - destruct (IH (pre ++ [c]) a q Hl Hnd Hmax) as (a' & E & Hb').
    + eapply built_ext; [|exact Hb]. intros x. unfold ready.
      split; intros (r1 & w1 & c1 & H1 & H2 & H3); exists r1, w1, c1; (split_and!; [done|done|]);
        rewrite ?elem_of_app, ?list_elem_of_singleton in *; [tauto|].
      destruct H3 as [?|[?|[-> [?| ->]]]]; try tauto. exfalso. assert (w1 = w) as -> by congruence.
      apply idx_Some in H2. congruence.
    + exists a'. rewrite <- !app_assoc in *. done.
Qed.

Lemma first_states_eq (t : table) : goto t -> first_states t = succs [].
Proof using W_nodup W_root.
  intros Hg. unfold first_states, succs. assert (Forall is_u8 ALPHABET) as Ha by apply alphabet_bytes.
  induction Ha as [|c l Hc Hl IH]; [done|]. cbn [omap list_omap]. rewrite IH.
  replace (match next t 0 c with Some 0%nat => None | s => s end) with (idx ([] ++ [c])); [done|].
  destruct (g_root t Hg c Hc) as (s & -> & Hs). simpl. apply option_ext. intros x. rewrite idx_Some.
  destruct (decide ([c] ∈ W)) as [Hin|Hnin].
  - rewrite lsuf_id in Hs by done. assert (0 < s)%nat as H0 by (by apply (nonroot s [c])).
    destruct s as [|s]; [lia|]. split; [intros H; f_equal; by eapply W_index|by intros [= <-]].
  - rewrite lsuf_cons, lsuf_id in Hs by (done || apply W_nil_in). pose proof (W_index _ _ _ Hs W_root) as ->.
    split; [|done]. intros H. exfalso. apply Hnin. by eapply list_elem_of_lookup_2.
Qed.

Lemma set_fails_zero (l : list nat) : forall t : table,
  (forall s, fail t s = 0%nat) ->
  let t' := fold_left (fun t s => set_fail t s 0) l t in
  (goto t -> goto t') /\ (forall s, matches t' s = matches t s) /\ (forall s, fail t' s = 0%nat) /\
  length t' = length t /\ forall i, total t' i = total t i.
Proof.
  induction l as [|x l IH]; intros t Hf; [done|]. cbn [fold_left]. cbn zeta.
  destruct (IH (set_fail t x 0)) as (Hg & Hm & Hf' & Hl & Ht).
  { intros s. specialize (Hf s). unfold fail, set_fail in *.
    destruct (decide (s = x)) as [->|]; [|by rewrite list_lookup_alter_ne].
    rewrite list_lookup_alter_eq. by destruct (t !! x). }
  split_and!.
  - intros H. apply Hg. destruct H. constructor; autorewrite with tbl; auto with mach; intros; autorewrite with tbl; auto.
  - intros s. by rewrite Hm, matches_set_fail.
  - done.
  - by rewrite Hl, length_set_fail.
  - intros i. rewrite Ht. unfold set_fail. by rewrite total_alter.
Qed.

Lemma Build_NFA_spec (a : acsm) :
  goto (acsmStateTable a) -> (forall s, fail (acsmStateTable a) s = 0%nat) ->
  (forall s w, W !! s = Some w -> matches (acsmStateTable a) s ≡ₚ own ps w) ->
  (forall s, (length W <= s)%nat -> matches (acsmStateTable a) s = []) ->
  refs_ok (acsmStateTable a) (users a) -> (length W <= acsmMaxStates a)%nat ->
  exists a', Build_NFA a = Some a' /\ built a (fun r c => (0 < r < length W)%nat) a'.
Proof using W_bytes W_nodup W_patterns W_prefix W_root ps_nonempty.
  intros Hg Hf Hm Hu Hr Hmax. unfold Build_NFA. rewrite first_states_eq by done.
  destruct (set_fails_zero (succs []) (acsmStateTable a) Hf) as (Hg' & Hm' & Hf' & Hl' & Ht').
  set (t1 := fold_left _ (succs []) _) in *. clearbody t1. cbn zeta in *. specialize (Hg' Hg).
  set (a1 := with_table a (acsmNumStates a) t1).
  destruct order_facts as (Oe & On & Ob & Or). destruct (Or (acsmMaxStates a) Hmax) as [Or1 Or2]. clear Or.
  set (ord := order (succs []) kids (length W)) in *. clearbody ord.
  assert (Forall is_u8 ALPHABET) as Ha by apply alphabet_bytes.
  assert (NoDup ALPHABET) as Hna by apply alphabet_nodup.
  destruct (queue_loop_order kids (fun done a2 => built a (fun r c => r ∈ done) a2)
    (fun r => ofold (nfa_char r) ALPHABET) ord) with (fuel := acsmMaxStates a) (done := @nil nat)
    (queue := succs []) (a := a1) as (a2 & E & Hb).
  - intros done r rest a2 q Ho Hb.
    assert (0 < r < length W)%nat as Hr1 by (apply Oe; rewrite Ho, elem_of_app, elem_of_cons; auto).
    destruct (lookup_lt_is_Some_2 W r) as [w Hw]; [lia|]. rewrite (kids_eq r w) by (done || lia).
    destruct (nfa_row a (fun r _ => r ∈ done) r w ALPHABET [] a2 q) as (a3 & -> & Hb3); try done; [lia|..].
    + intros _ Hin. rewrite Ho in On. apply NoDup_app in On as (_ & Hd & _). apply (Hd r Hin). left.
    + intros u v Hu0 Hv Hle. destruct v as [|c v _] using rev_ind; [by apply (nonroot u []) in Hu0|].
      destruct (W_state v) as [x Hx]; [by eapply W_prefix, list_elem_of_lookup_2|].
      exists x, v, c. split_and!; try done. destruct (decide (x = 0%nat)) as [->|Hx0]; [by left|right].
      pose proof (lookup_lt_Some _ _ _ Hx). apply (Ob done r rest); [done|lia|].
      rewrite (depth_word _ _ Hx), (depth_word _ _ Hw). rewrite length_app in Hle. simpl in Hle. lia.
    + eapply built_ext; [|exact Hb]. intros x. unfold ready.
      split; intros (r1 & w1 & c1 & H1 & H2 & H3); exists r1, w1, c1; (split_and!; [done|done|]); [tauto|].
      destruct H3 as [?|[?|[_ ?%not_elem_of_nil]]]; [tauto..|done].
    + exists a3. split; [by unfold succs|]. eapply built_ext; [|exact Hb3]. intros x. unfold ready.
      split; intros (r1 & w1 & c1 & H1 & H2 & H3); exists r1, w1, c1; (split_and!; [done|done|]);
        rewrite ?elem_of_app, ?list_elem_of_singleton in *; [tauto|].
      destruct H3 as [?|[?| ->]]; [tauto..|]. right. right. split; [done|]. right. apply alphabet_elem.
      pose proof (proj1 (Forall_lookup _ _) W_bytes x _ H2) as [_ Hc]%Forall_app. by inversion Hc.
  - by rewrite Or1.
  - done.
  - constructor; simpl; try done.
    + constructor; [done|..].
      * intros s w Hs (r1 & w1 & c1 & H1 & H2 & [->|H3]); [|by apply not_elem_of_nil in H3].
        rewrite Hf', W_root. assert (w1 = []) as -> by congruence. simpl in H2. assert (w = [c1]) as -> by congruence.
        simpl. by case_decide.
      * intros s w Hs (r1 & w1 & c1 & H1 & H2 & [->|H3]); [|by apply not_elem_of_nil in H3].
        assert (w1 = []) as -> by congruence. simpl in H2. assert (w = [c1]) as -> by congruence.
        rewrite Hm', ending_step, ending_nil, app_nil_r. by apply Hm.
      * intros s w Hs _. rewrite Hm'. by apply Hm.
      * intros s Hs. rewrite Hm'. by apply Hu.
    + intros i u Hi. rewrite Ht'. by apply Hr.
  - exists a2. split; [done|]. eapply built_ext; [|exact Hb]. intros x. unfold ready. by setoid_rewrite Oe.
Qed.

(** *** Completing the transitions *)

(** [D s c]: the transition is complete; the others are those of the trie. *)
Record dfa (m : nat -> list pattern) (D : nat -> Z -> Prop) (t : table) : Prop := {
  d_wide : wide t;
  d_len : (length W <= length t)%nat;
  d_fail : forall s w, (0 < s)%nat -> W !! s = Some w -> W !! fail t s = Some (suf (tail w));
  d_matches : forall s, matches t s = m s;
  d_done : forall s w c, D s c -> W !! s = Some w -> is_u8 c ->
    exists s', next t s c = Some s' /\ W !! s' = Some (suf (w ++ [c]));
  d_trie : forall s w c, ~ D s c -> W !! s = Some w -> is_u8 c -> next t s c = idx (w ++ [c]) }.

Lemma dfa_ext m D D' t : (forall s c, is_u8 c -> D s c <-> D' s c) -> dfa m D t -> dfa m D' t.
Proof.
  intros H []. constructor; try done.
  - intros s w c HD Hs Hc. apply d_done0; [by apply H|done|done].
  - intros s w c HD Hs Hc. apply d_trie0; [|done|done]. intros ?. by apply HD, H.
Qed.

Lemma dfa_row m (D : nat -> Z -> Prop) r w (l pre : list Z) (t : table) q :
  (0 < r)%nat -> W !! r = Some w -> (forall c, ~ D r c) ->
  (forall u v c, W !! u = Some v -> (length v < length w)%nat -> D u c) ->
  Forall is_u8 l -> NoDup (pre ++ l) ->
  dfa m (fun s c => D s c \/ s = r /\ c ∈ pre) t ->
  exists t', fold_left (dfa_char r) l (t, q) = (t', q ++ omap (fun c => idx (w ++ [c])) l) /\
    dfa m (fun s c => D s c \/ s = r /\ c ∈ pre ++ l) t' /\ (forall i, total t' i = total t i) /\ length t' = length t.
Proof using W_nodup W_prefix W_root.
  intros Hr Hw Hnew Hsh. revert pre t q. induction l as [|c l IH]; intros pre t q Hl Hnd Hd.
  { exists t. simpl. by rewrite !app_nil_r. }
  apply Forall_cons in Hl as [Hc Hl]. rewrite cons_middle, app_assoc in Hnd. rewrite cons_middle, app_assoc.
  assert (c ∉ pre) as Hcp.
  { apply NoDup_app in Hnd as [Hnd _]. apply NoDup_app in Hnd as (_ & Hx & _). intros H. apply (Hx c H). left. }
  pose proof Hd as [Dw Dl Df Dm Dd Dt]. pose proof (lookup_lt_Some _ _ _ Hw) as Hrl.
  assert (~ (D r c \/ r = r /\ c ∈ pre)) as Hfresh.
  { intros [?|[_ ?]]; [by eapply Hnew|done]. }
  cbn [fold_left omap list_omap]. unfold dfa_char at 2. rewrite (Dt r w c Hfresh Hw Hc).
  destruct (idx (w ++ [c])) as [s|] eqn:Es.
  - destruct (IH (pre ++ [c]) t (q ++ [s]) Hl Hnd) as (t' & E & Hd' & Ht').
    + constructor; try done.
      * intros s1 w1 c1 HD Hs1 Hc1. destruct (decide (s1 = r /\ c1 = c)) as [[-> ->]|Hne].
        -- assert (w1 = w) as -> by congruence. exists s. rewrite (Dt r w c Hfresh Hw Hc), Es.
           split; [done|]. apply idx_Some in Es. rewrite lsuf_id; [done|]. by eapply list_elem_of_lookup_2.
        -- apply Dd; [|done|done]. rewrite elem_of_app, list_elem_of_singleton in HD. tauto.
      * intros s1 w1 c1 HD. apply Dt. rewrite elem_of_app in HD. tauto.
    + exists t'. rewrite <- !app_assoc in *. done.
  - destruct w as [|d w]; [by apply (nonroot r []) in Hr|].
    pose proof (Df r _ Hr Hw) as Hfr. simpl in Hfr.
    destruct (Dd (fail t r) (suf w) c) as (n & En & Hn); [|done|done|].
    { left. eapply Hsh; [done|]. pose proof (suffix_length _ _ (lsuf_suffix W w)). simpl. lia. }
    rewrite En. rewrite <- lsuf_snoc in Hn by (done || apply W_nil_in).
    assert (d :: w ++ [c] ∉ W) as Hnin.
    { intros [s Hs]%W_state. apply idx_Some in Hs. simpl in Es. congruence. }
    assert (forall s1 c1, is_u8 c1 -> next (set_next t r c (Some n)) s1 c1 =
      if decide (s1 = r /\ c1 = c) then Some n else next t s1 c1) as Hnx.
    { intros. apply next_set_next; [done|lia|done|done]. }
    destruct (IH (pre ++ [c]) (set_next t r c (Some n)) q Hl Hnd) as (t' & E & Hd' & Ht' & Hl').
    + constructor; autorewrite with tbl; auto with mach; intros; autorewrite with tbl; auto.
      * rewrite Hnx by done. case_decide as Hx.
        -- destruct Hx as [-> ->]. assert (w0 = d :: w) as -> by congruence. exists n. split; [done|].
           rewrite Hn. f_equal. change ((d :: w) ++ [c]) with (d :: (w ++ [c])). by rewrite lsuf_cons.
        -- apply Dd; [|done|done]. match goal with H : D _ _ \/ _ |- _ => rewrite elem_of_app, list_elem_of_singleton in H end. tauto.
      * rewrite Hnx by done. rewrite decide_False.
        -- apply Dt; [|done|done]. match goal with H : ~ _ |- _ => rewrite elem_of_app in H end. tauto.
        -- intros [-> ->]. match goal with H : ~ (D _ _ \/ _) |- _ => apply H end. right. split; [done|].
           rewrite elem_of_app, list_elem_of_singleton. by right.
    + exists t'. split; [done|]. split; [done|]. split; [|by rewrite Hl', length_set_next].
      intros i. rewrite Ht'. unfold set_next. by rewrite total_alter.
Qed.

Lemma Convert_spec (a : acsm) :
  nfa (fun r c => (0 < r < length W)%nat) (acsmStateTable a) -> (length W <= acsmMaxStates a)%nat ->
  exists t, Convert_NFA_To_DFA a = Some (with_table a (acsmNumStates a) t) /\
    dfa (matches (acsmStateTable a)) (fun s c => (s < length W)%nat) t /\
    (forall i, total t i = total (acsmStateTable a) i) /\ length t = length (acsmStateTable a).
Proof using W_bytes W_nodup W_prefix W_root.
  intros [Hg Hf Hm Ho Hu] Hmax. unfold Convert_NFA_To_DFA. rewrite first_states_eq by done.
  destruct order_facts as (Oe & On & Ob & Or). destruct (Or (acsmMaxStates a) Hmax) as [Or1 Or2]. clear Or.
  set (ord := order (succs []) kids (length W)) in *. clearbody ord.
  pose proof alphabet_bytes as Ha. pose proof alphabet_nodup as Hna. set (t0 := acsmStateTable a) in *.
  destruct (queue_loop_order kids (fun done t => dfa (matches t0) (fun s c => s = 0%nat \/ s ∈ done) t /\
      (forall i, total t i = total t0 i) /\ length t = length t0)
    (fun r st => Some (fold_left (dfa_char r) ALPHABET st)) ord) with (fuel := acsmMaxStates a) (done := @nil nat)
    (queue := succs []) (a := t0) as (t & E & Hd & Ht & Hl).
  - intros done r rest t q Eo (Hd & Ht & Hl).
    assert (0 < r < length W)%nat as Hr1 by (apply Oe; rewrite Eo, elem_of_app, elem_of_cons; auto).
    destruct (lookup_lt_is_Some_2 W r) as [w Hw]; [lia|]. rewrite (kids_eq r w) by (done || lia).
    destruct (dfa_row (matches t0) (fun s _ => s = 0%nat \/ s ∈ done) r w ALPHABET [] t q)
      as (t' & E' & Hd' & Ht' & Hl'); try done; [lia|..].
    + intros _ [?|Hin]; [lia|]. rewrite Eo in On. apply NoDup_app in On as (_ & Hx & _). apply (Hx r Hin). left.
    + intros u v _ Hv Hle. destruct (decide (u = 0%nat)) as [->|Hu0]; [by left|right].
      pose proof (lookup_lt_Some _ _ _ Hv). apply (Ob done r rest); [done|lia|].
      by rewrite (depth_word _ _ Hv), (depth_word _ _ Hw).
    + eapply dfa_ext; [|exact Hd]. intros s c _. split; [by left|]. intros [?|[_ ?%not_elem_of_nil]]; done.
    + exists t'. rewrite E'. split; [by unfold succs|].
      split_and!; [|intros i; by rewrite Ht'|by rewrite Hl'].
      eapply dfa_ext; [|exact Hd']. intros s c Hc. rewrite !elem_of_app, list_elem_of_singleton, alphabet_elem. tauto.
  - by rewrite Or1.
  - done.
  - split_and!; try done. constructor; try done; try apply Hg.
    + intros s w Hs Hw. destruct w as [|c w _] using rev_ind; [by apply (nonroot s []) in Hs|].
      apply Hf; [done|]. destruct (W_state w) as [x Hx]; [by eapply W_prefix, list_elem_of_lookup_2|].
      exists x, w, c. split_and!; try done. pose proof (lookup_lt_Some _ _ _ Hx). lia.
    + intros s w c [->|?%not_elem_of_nil] Hs Hc; [|done]. assert (w = []) as -> by congruence. by apply Hg.
    + intros s w c HD Hs Hc. apply next_idx; [done| |done|done]. destruct s; [|lia]. exfalso. apply HD. by left.
  - rewrite E. exists t. split; [done|]. split_and!; [|done|done]. eapply dfa_ext; [|exact Hd].
    intros s c _. cbv beta. rewrite (Oe s). pose proof (lookup_lt_Some _ _ _ W_root). lia.
Qed.

End Automaton.

(** ** The compiled instance *)

Section Compiled.
Context {U T N C : Type}.
Abbreviation table := (list (ACSM_STATETABLE (T := T) (N := N))).
Abbreviation acsm := (ACSM_STRUCT (U := U) (T := T) (N := N)).
Abbreviation pattern := (ACSM_PATTERN (T := T) (N := N)).
Variable agent : option (MpseAgent (U := U) (T := T) (N := N)).
Variables (null_tree : T) (null_list : N).

(** *** Every pattern is on one match list of the trie *)

Lemma total_seq (t : table) i :
  total t i = sum_list_with (fun s => uses i (matches t s)) (seq 0 (length t)).
Proof.
  unfold total. induction t as [|st t IH] using rev_ind; [done|].
  rewrite sum_list_with_app, IH, length_app. cbn [length]. rewrite Nat.add_1_r, seq_S, sum_list_with_app. f_equal.
  - assert (forall l, Forall (fun s => s < length t)%nat l ->
      sum_list_with (fun s => uses i (matches t s)) l = sum_list_with (fun s => uses i (matches (t ++ [st]) s)) l) as H.
    { induction 1 as [|s l Hs Hl IHl]; [done|]. simpl. rewrite IHl. do 2 f_equal.
      unfold matches. by rewrite lookup_app_l. }
    apply H, Forall_forall. intros s Hs%list_elem_of_In%in_seq. lia.
  - simpl. unfold matches. by rewrite list_lookup_middle.
Qed.

Lemma total_ext (t t' : table) i :
  length t' = length t -> (forall s, matches t' s = matches t s) -> total t' i = total t i.
Proof.
  intros Hl Hm. rewrite !total_seq, Hl. induction (seq 0 (length t)) as [|s l IH]; [done|].
  simpl. by rewrite Hm, IH.
Qed.

Lemma sum_zero {A} (f : A -> nat) l : Forall (fun x => f x = 0%nat) l -> sum_list_with f l = 0%nat.
Proof. induction 1 as [|x l Hx Hl IH]; simpl; lia. Qed.

Lemma sum_indicator (W : list (list Z)) w :
  NoDup W -> w ∈ W -> sum_list_with (fun v => if decide (w = v) then 1%nat else 0%nat) W = 1%nat.
Proof.
  induction 1 as [|v W Hv HW IH]; intros Hw; [by apply not_elem_of_nil in Hw|]. simpl.
  case_decide as Hd.
  - subst. rewrite sum_zero; [done|]. apply Forall_forall. intros x Hx. rewrite decide_False; [done|]. by intros <-.
  - apply elem_of_cons in Hw as [?|?]; [done|]. by rewrite IH.
Qed.

Lemma own_total (W : list (list Z)) (ps : list pattern) i :
  NoDup W -> (forall p, p ∈ ps -> patrn p ∈ W) -> sum_list_with (fun w => uses i (own ps w)) W = uses i ps.
Proof.
  intros HW. induction ps as [|p ps IH]; intros Hp.
  - apply sum_zero. by apply Forall_forall.
  - assert (forall V, sum_list_with (fun w => uses i (own (p :: ps) w)) V =
      (sum_list_with (fun v => if decide (patrn p = v) then 1 else 0) V * uses i [p] +
       sum_list_with (fun w => uses i (own ps w)) V)%nat) as H.
    { induction V as [|v V IHV]; [simpl; lia|]. cbn [sum_list_with]. rewrite IHV, own_cons, uses_app.
      case_decide; [lia|]. change (uses i []) with 0%nat. lia. }
    rewrite H, sum_indicator, IH by (done || (intros; apply Hp; (by right) || by left)).
    rewrite (uses_app i [p] ps : uses i (p :: ps) = _). lia.
Qed.

Lemma keyword_total (t : table) W ps i : keyword t W ps -> total t i = uses i ps.
Proof.
  intros [Ht Hw Hm Hun _]. rewrite total_seq. pose proof (tr_len _ _ Ht) as Hlen.
  replace (length t) with (length W + (length t - length W))%nat by lia.
  rewrite seq_app, sum_list_with_app. rewrite (sum_zero _ (seq (0 + length W) _)).
  2:{ apply Forall_forall. intros s Hs%list_elem_of_In%in_seq. rewrite Hun by lia. done. }
  rewrite Nat.add_0_r. etrans; [|apply (own_total W ps i (tr_nodup _ _ Ht))].
  2:{ intros p Hp. apply Hw. right. exists p. done. }
  assert (forall V k, (forall j v, V !! j = Some v -> W !! (k + j)%nat = Some v) ->
    sum_list_with (fun s => uses i (matches t s)) (seq k (length V)) =
    sum_list_with (fun w => uses i (own ps w)) V) as H; [|by apply H].
  induction V as [|v V IH]; intros k HV; [done|]. cbn [length seq sum_list_with]. f_equal.
  - apply uses_perm, Hm. rewrite <- (Nat.add_0_r k). by apply HV.
  - apply IH. intros j x Hj. rewrite Nat.add_succ_l, <- Nat.add_succ_r. by apply HV.
Qed.

Lemma uses_pos i (l : list pattern) : (0 < uses i l)%nat <-> exists p, p ∈ l /\ udata p = i.
Proof.
  unfold uses. split.
  - destruct (filter _ l) as [|p k] eqn:E; simpl; [lia|]. intros _. exists p.
    assert (p ∈ filter (fun p => udata p = i) l) as H by (rewrite E; left). apply list_elem_of_filter in H. tauto.
  - intros (p & Hp & Hi). assert (p ∈ filter (fun p => udata p = i) l) as H by (by apply list_elem_of_filter).
    destruct (filter _ l); [by apply not_elem_of_nil in H|simpl; lia].
Qed.

(** *** Compilation *)

(** What [acsmAddPattern] establishes. *)
Record added (a : acsm) : Prop := {
  ad_bytes : Forall (fun p => bytes (patrn p)) (acsmPatterns a);
  ad_users : Forall (fun p => udata p < length (users a))%nat (acsmPatterns a);
  ad_once : forall i, (i < length (users a))%nat -> uses i (acsmPatterns a) = 1%nat;
  ad_refs : Forall (fun u => ref_count u = 1) (users a);
  ad_null : Forall (fun p => rule_option_tree p = null_tree /\ neg_list p = null_list) (acsmPatterns a) }.

Record compiled (a : acsm) (W : list (list Z)) (M : list Z -> list pattern) (a' : acsm) : Prop := {
  c_root : W !! 0%nat = Some [];
  c_prefix : forall w c, w ++ [c] ∈ W -> w ∈ W;
  c_next : forall s w c, W !! s = Some w -> is_u8 c ->
    exists s', next (acsmStateTable a') s c = Some s' /\ W !! s' = Some (lsuf W (w ++ [c]));
  c_matches : forall s w, W !! s = Some w -> matches (acsmStateTable a') s = M w;
  c_ending : forall w, M (lsuf W w) ≡ₚ ending (acsmPatterns a) w;
  c_ids : id <$> users a' = id <$> users a;
  c_refs : refs_ok (acsmStateTable a') (users a');
  c_total : forall i, (i < length (users a))%nat -> (0 < total (acsmStateTable a') i)%nat }.

Lemma acsmCompile'_spec (a : acsm) :
  added a -> Forall (fun p => patrn p <> []) (acsmPatterns a) ->
  exists W M a', acsmCompile' a = Some a' /\ compiled a W M a'.
Proof.
  intros [Hb Hu Ho Hr Hnull] Hne. unfold acsmCompile'.
  destruct (keyword_all a Hb) as (W & t & -> & Hk & Hl & Hlt). cbn [acsmStateTable with_table acsmNumStates].
  pose proof Hk as [Ht Hw Hm Hun Hf]. pose proof Ht as [_ _ Wr Wn Wb Wp _ _].
  assert (forall p, p ∈ acsmPatterns a -> patrn p ∈ W) as Hpat.
  { intros p Hp. apply Hw. right. by exists p. }
  destruct (close_root_spec W Wr t Ht) as (Hg & Hm1 & Hf1 & Hl1).
  set (a1 := with_table _ _ (close_root t)).
  assert (length W <= acsmMaxStates (init_table a))%nat as Hmax by (rewrite <- Hlt; apply Ht).
  destruct (Build_NFA_spec W (acsmPatterns a) Wr Wn Wb Wp Hpat Hne a1) as (a2 & -> & Hb2).
  - done.
  - intros s. simpl. by rewrite Hf1.
  - intros s w Hs. simpl. rewrite Hm1. by apply Hm.
  - intros s Hs. simpl. rewrite Hm1. by apply Hun.
  - intros i u Hi. simpl in *. rewrite (total_ext t) by done. rewrite (keyword_total t W (acsmPatterns a)) by done.
    rewrite Ho by (by eapply lookup_lt_Some). apply (proj1 (Forall_lookup _ _) Hr i u Hi).
  - done.
  - destruct Hb2 as [Bm Bn Br Bi Bl Bp]. cbn [mbind option_bind].
    destruct (Convert_spec W (acsmPatterns a) Wr Wn Wb Wp a2 Bn) as (t3 & -> & Hd & Ht3 & Hl3); [by rewrite Bm|].
    assert (forall s w, W !! s = Some w -> matches t3 s ≡ₚ ending (acsmPatterns a) w) as Hfull.
    { intros s w Hs. rewrite (d_matches _ _ _ _ Hd). destruct (decide (s = 0%nat)) as [->|H0].
      - assert (w = []) as -> by congruence. rewrite ending_nil, <- (own_nil (acsmPatterns a)) by done.
        apply (n_own _ _ _ _ Bn); [done|]. intros Hrd. by destruct (ready_nonroot W _ 0 [] Hrd Wr).
      - apply (n_full _ _ _ _ Bn); [done|]. destruct w as [|c w _] using rev_ind.
        { by apply (nonroot W Wr Wn s []) in Hs as [_ Hx]; destruct Hx; [lia|]. }
        destruct (W_state W w) as [x Hx]; [by eapply Wp, list_elem_of_lookup_2|].
        exists x, w, c. split_and!; try done. pose proof (lookup_lt_Some _ _ _ Hx). lia. }
    exists W, (fun w => default [] (matches t3 <$> idx W w)), (with_table a2 (acsmNumStates a2) t3). split; [done|].
    constructor; simpl; try done.
    + intros s w c Hs Hc. apply (d_done _ _ _ _ Hd); [by eapply lookup_lt_Some|done|done].
    + intros s w Hs. by rewrite (proj2 (idx_Some W Wn w s) Hs).
    + intros w. destruct (suf_state W Wr w) as [s Hs]. rewrite (proj2 (idx_Some W Wn _ s) Hs). simpl.
      rewrite (Hfull s _ Hs). by rewrite ending_suf.
    + intros i u Hi. rewrite Ht3. by apply Br.
    + intros i Hi. assert (0 < uses i (acsmPatterns a))%nat as (p & Hp & Hpi)%uses_pos by (rewrite Ho by done; lia).
      destruct (W_state W (patrn p) (Hpat p Hp)) as [s Hs].
      pose proof (lookup_lt_Some _ _ _ Hs). pose proof (d_len _ _ _ _ Hd).
      pose proof (total_set_matches t3 s [] i ltac:(lia)) as Hts. change (uses i []) with 0%nat in Hts.
      assert (0 < uses i (matches t3 s))%nat; [|lia]. apply uses_pos. exists p. split; [|done].
      rewrite (Hfull s _ Hs). by apply list_elem_of_filter.
Qed.
(** *** Searching *)

Variable match_ : C -> option U -> T -> Z -> N -> Z * C.

(** What the callback is given for the patterns [l] of a state. *)
Definition tree_of (us : list (ACSM_USERDATA (U := U))) (l : list pattern) : T :=
  match agent with Some ag => state_tree ag us l null_tree | None => null_tree end.
Definition negs_of (us : list (ACSM_USERDATA (U := U))) (l : list pattern) : N :=
  match agent with Some ag => state_negs ag us l null_list | None => null_list end.

(** The search without an automaton: [x] is the text read so far, [M x] the
    patterns that end there. *)
Fixpoint ref_search (M : list Z -> list pattern) (us : list (ACSM_USERDATA (U := U))) (x text : list Z)
    (index nfound : Z) (ctx : C) : Z * list Z * C :=
  match text with
  | [] => (nfound, x, ctx)
  | c :: text =>
      let x := x ++ [c] in
      match M x with
      | [] => ref_search M us x text (index + 1) nfound ctx
      | p :: l =>
          let '(r, ctx) := match_ ctx (user_id us p) (tree_of us (p :: l)) (index + 1) (negs_of us (p :: l)) in
          if r >? 0 then (nfound + 1, x, ctx) else ref_search M us x text (index + 1) (nfound + 1) ctx
      end
  end.

Lemma user_id_eq (us us' : list (ACSM_USERDATA (U := U))) p :
  id <$> us' = id <$> us -> user_id (T := T) (N := N) us' p = user_id us p.
Proof.
  intros H. unfold user_id. apply (f_equal (fun l => l !! udata p)) in H. rewrite !list_lookup_fmap in H.
  destruct (us' !! udata p), (us !! udata p); simplify_eq/=; done.
Qed.

Lemma tree_of_eq us us' l : id <$> us' = id <$> us -> tree_of us' l = tree_of us l.
Proof.
  intros H. unfold tree_of, state_tree. destruct agent as [ag|]; [|done]. f_equal.
  generalize null_tree. induction l as [|p l IH]; intros t; [done|]. simpl. by rewrite (user_id_eq us us' p H), IH.
Qed.
Lemma negs_of_eq us us' l : id <$> us' = id <$> us -> negs_of us' l = negs_of us l.
Proof.
  intros H. unfold negs_of, state_negs. destruct agent as [ag|]; [|done].
  generalize null_list. induction l as [|p l IH]; intros t; [done|]. simpl. by rewrite (user_id_eq us us' p H), IH.
Qed.

Definition final (a : acsm) : acsm := match agent with Some ag => acsmBuildMatchStateTrees ag a | None => a end.

Lemma final_next (a : acsm) s c : next (acsmStateTable (final a)) s c = next (acsmStateTable a) s c.
Proof.
  unfold final. destruct agent as [ag|]; [|done]. simpl. unfold next. rewrite list_lookup_fmap.
  destruct (acsmStateTable a !! s) as [st|]; [|done]. simpl. unfold build_state. by destruct (MatchList st).
Qed.

Lemma final_matches (a : acsm) s :
  Forall (fun p => rule_option_tree p = null_tree /\ neg_list p = null_list) (matches (acsmStateTable a) s) ->
  match matches (acsmStateTable a) s with
  | [] => matches (acsmStateTable (final a)) s = []
  | p :: l => exists p', matches (acsmStateTable (final a)) s = p' :: l /\ udata p' = udata p /\
      rule_option_tree p' = tree_of (users a) (p :: l) /\ neg_list p' = negs_of (users a) (p :: l)
  end.
Proof.
  unfold final, tree_of, negs_of. destruct agent as [ag|].
  - unfold matches. simpl. rewrite list_lookup_fmap. destruct (acsmStateTable a !! s) as [st|]; [|done]. simpl.
    unfold build_state. destruct (MatchList st) as [|p l] eqn:E; simpl; [by rewrite E|].
    intros [[-> ->] _]%Forall_cons. eexists. split; [done|]. by simpl.
  - destruct (matches (acsmStateTable a) s) as [|p l]; [done|]. intros [[Hp Hn] _]%Forall_cons. by exists p.
Qed.

Lemma search_text_spec (a : acsm) W M a' :
  compiled a W M a' ->
  (forall w, Forall (fun p => rule_option_tree p = null_tree /\ neg_list p = null_list) (M (lsuf W w))) ->
  forall text s x index nfound ctx, bytes text -> W !! s = Some (lsuf W x) ->
  let '(n, x', ctx') := ref_search (fun y => M (lsuf W y)) (users a) x text index nfound ctx in
  exists s', search_text match_ (final a') s text index nfound ctx = Some (n, s', ctx') /\ W !! s' = Some (lsuf W x').
Proof.
  intros Hc Hnull text. induction text as [|c text IH]; intros s x index nfound ctx Hb Hs; simpl; [by exists s|].
  apply Forall_cons in Hb as [Hcb Hb]. rewrite final_next.
  destruct (c_next _ _ _ _ Hc s _ c Hs Hcb) as (s1 & -> & Hs1).
  rewrite <- lsuf_snoc in Hs1 by (eapply list_elem_of_lookup_2, Hc || apply Hc).
  pose proof (final_matches a' s1) as Hm. rewrite (c_matches _ _ _ _ Hc s1 _ Hs1) in Hm. specialize (Hm (Hnull _)).
  destruct (M (lsuf W (x ++ [c]))) as [|p l].
  - rewrite Hm. by apply IH.
  - destruct Hm as (p' & -> & Hu & -> & ->). rewrite (tree_of_eq (users a) (users a')), (negs_of_eq (users a) (users a')) by apply Hc.
    replace (user_id (users (final a')) p') with (user_id (users a) p).
    2:{ transitivity (user_id (T := T) (N := N) (users a') p); [symmetry; apply user_id_eq, Hc|].
        unfold user_id, final. rewrite Hu. by destruct agent. }
    destruct (match_ ctx _ _ _ _) as [r ctx']. destruct (r >? 0); [|by apply IH]. by exists s1.
Qed.

(** *** Freeing *)

Lemma free_all (l : list pattern) : forall (us : list (ACSM_USERDATA (U := U))) fr,
  (forall i u, us !! i = Some u -> ref_count u = Z.of_nat (uses i l)) ->
  exists fl, (fold_left free_entry l (us, fr)).2 = fr ++ fl /\ NoDup fl /\
    forall i, i ∈ fl <-> (i < length us)%nat /\ (0 < uses i l)%nat.
Proof.
  induction l as [|p l IH]; intros us fr Hr; simpl.
  - exists []. rewrite app_nil_r. split_and!; [done|constructor|]. intros i. rewrite elem_of_nil.
    change (uses i []) with 0%nat. lia.
  - assert (forall i, uses i (p :: l) = ((if decide (udata p = i) then 1 else 0) + uses i l)%nat) as Hu.
    { intros i. unfold uses. rewrite filter_cons. by case_decide. }
    destruct (us !! udata p) as [u|] eqn:E.
    + pose proof (lookup_lt_Some _ _ _ E) as Hlt. pose proof (Hr _ _ E) as Hru. rewrite Hu, decide_True in Hru by done.
      set (us' := <[udata p := MkUser (id u) (ref_count u - 1)]> us).
      assert (forall i v, us' !! i = Some v -> ref_count v = Z.of_nat (uses i l)) as Hr'.
      { intros i v. unfold us'. destruct (decide (udata p = i)) as [<-|Hne].
        - rewrite list_lookup_insert_eq by done. intros [= <-]. simpl. lia.
        - rewrite list_lookup_insert_ne by done. intros Hv. rewrite (Hr i v Hv), Hu, decide_False by done. lia. }
      assert (length us' = length us) as Hl by apply length_insert.
      simpl. destruct (ref_count u - 1 =? 0) eqn:Ez; breflect.
      * destruct (IH us' (fr ++ [udata p]) Hr') as (fl & -> & Hnd & Hel). exists (udata p :: fl).
        rewrite <- app_assoc. split_and!; [done| |].
        -- constructor; [|done]. rewrite Hel. lia.
        -- intros i. rewrite elem_of_cons, Hel, Hl, Hu. case_decide; intuition (subst; lia || done).
      * destruct (IH us' fr Hr') as (fl & -> & Hnd & Hel). exists fl. split_and!; [done|done|].
        intros i. rewrite Hel, Hl, Hu. case_decide; intuition (subst; lia || done).
    + destruct (IH us fr) as (fl & -> & Hnd & Hel).
      { intros i u Hi. rewrite (Hr i u Hi), Hu, decide_False; [done|]. intros <-. congruence. }
      exists fl. split_and!; [done|done|]. intros i. rewrite Hel, Hu. case_decide; [|done]. subst.
      apply lookup_ge_None in E. lia.
Qed.

Lemma uses_concat (t : table) i : uses i (concat (map MatchList t)) = total t i.
Proof. unfold total. induction t as [|st t IH]; simpl; [done|]. by rewrite uses_app, IH. Qed.

Lemma final_total (a : acsm) i : total (acsmStateTable (final a)) i = total (acsmStateTable a) i.
Proof.
  unfold final. destruct agent as [ag|]; [|done]. simpl. unfold total.
  induction (acsmStateTable a) as [|st t IH]; [done|]. simpl. rewrite IH. f_equal.
  unfold build_state. destruct (MatchList st) as [|p l] eqn:E; [by rewrite E|]. simpl.
  unfold uses. rewrite !filter_cons. simpl. by case_decide.
Qed.

(** *** Adding patterns *)

Definition add_patterns (l : list (list Z * bool * bool * option U)) : acsm :=
  fold_left (fun a '(pat, nc, neg, user) => acsmAddPattern null_tree null_list a pat nc neg user) l acsmNew.

Lemma add_added (a : acsm) pat nc neg user :
  added a -> bytes pat -> added (acsmAddPattern null_tree null_list a pat nc neg user).
Proof.
  intros [Hb Hu Ho Hr Hn] Hp. constructor; simpl.
  - constructor; [|done]. simpl. unfold ConvertCaseEx. apply Forall_forall. intros c. rewrite list_elem_of_In, in_map_iff.
    intros (x & <- & Hx%list_elem_of_In). apply toupper_u8. by apply (proj1 (Forall_forall _ _) Hp).
  - rewrite length_app. simpl. constructor; simpl; [lia|]. eapply Forall_impl; [exact Hu|]. simpl. intros; lia.
  - intros i. rewrite length_app. simpl. unfold uses. rewrite filter_cons. simpl. intros Hi. case_decide as Hd.
    + subst i. simpl. f_equal. destruct (filter _ _) as [|q k] eqn:E; [done|]. exfalso.
      assert (q ∈ filter (fun p => udata p = length (users a)) (acsmPatterns a)) as Hq by (rewrite E; left).
      apply list_elem_of_filter in Hq as [Hq1 Hq2]. rewrite Forall_forall in Hu. apply Hu in Hq2. lia.
    + apply Ho. lia.
  - apply Forall_app. split; [done|]. by constructor.
  - by constructor.
Qed.

Lemma add_patterns_added l : Forall (fun '(pat, _, _, _) => bytes pat) l -> added (add_patterns l).
Proof.
  unfold add_patterns. assert (added acsmNew) as H0.
  { constructor; simpl; try constructor. intros i Hi. lia. }
  revert H0. generalize (acsmNew (U := U) (T := T) (N := N)). induction l as [|[[[pat nc] neg] user] l IH]; intros a Ha Hl; [done|].
  apply Forall_cons in Hl as [Hp Hl]. simpl. apply IH; [by apply add_added|done].
Qed.

Lemma add_patterns_nonempty l :
  Forall (fun '(pat, _, _, _) => pat <> []) l -> Forall (fun p => patrn p <> []) (acsmPatterns (add_patterns l)).
Proof.
  unfold add_patterns. assert (Forall (fun p => patrn p <> []) (acsmPatterns (acsmNew (U := U) (T := T) (N := N)))) as H0 by constructor.
  revert H0. generalize (acsmNew (U := U) (T := T) (N := N)). induction l as [|[[[pat nc] neg] user] l IH]; intros a Ha Hl; [done|].
  apply Forall_cons in Hl as [Hp Hl]. simpl. apply IH; [|done]. simpl. constructor; [|done]. simpl. by destruct pat.
Qed.

End Compiled.

(** ** Properties *)

(** Compilation succeeds, and one automaton serves every callback. *)
Lemma acsm_search_run {U T N : Type} (agent : option (MpseAgent (U := U))) (nt : T) (nl : N) l :
  Forall (fun '(pat, _, _, _) => bytes pat) l -> Forall (fun '(pat, _, _, _) => pat <> []) l ->
  let a := add_patterns nt nl l in
  exists (a' : ACSM_STRUCT) (M : list Z -> list ACSM_PATTERN) (rep : nat -> list Z -> Prop),
    acsmCompile agent a = Some a' /\ rep 0%nat [] /\
    (forall x, M x ≡ₚ ending (acsmPatterns a) x) /\
    forall (C : Type) (match_ : C -> option U -> T -> Z -> N -> Z * C) s x Tx ctx, rep s x -> bytes Tx -> Zlen Tx <= Tc_size ->
      let '(n, x', ctx') := ref_search agent nt nl match_ M (users a) x (ConvertCaseEx Tx) 0 0 ctx in
      exists s', acsmSearch match_ a' Tx (Some s) ctx = Some (n, Some s', ctx') /\ rep s' x'.
Proof.
  intros Hb Hne a. pose proof (add_patterns_added nt nl l Hb) as Had.
  destruct (acsmCompile'_spec nt nl a Had (add_patterns_nonempty nt nl l Hne)) as (W & M & a1 & E & Hc).
  exists (final agent a1), (fun x => M (lsuf W x)), (fun s x => W !! s = Some (lsuf W x)).
  split; [unfold acsmCompile; by rewrite E|]. split.
  { rewrite (c_root _ _ _ _ Hc). simpl. by case_decide. }
  split; [apply Hc|]. intros C match_ s x Tx ctx Hs HT Hlen.
  assert (bytes (ConvertCaseEx Tx)) as HT'.
  { apply Forall_forall. intros c. unfold ConvertCaseEx. rewrite list_elem_of_In, in_map_iff.
    intros (y & <- & Hy%list_elem_of_In). by apply toupper_u8, (proj1 (Forall_forall _ _) HT). }
  pose proof (search_text_spec agent nt nl match_ a W M a1 Hc) as H.
  specialize (H ltac:(intros w; apply Forall_forall; intros p Hp; rewrite (c_ending _ _ _ _ Hc) in Hp;
    apply list_elem_of_filter in Hp as [_ Hp]; by apply (proj1 (Forall_forall _ _) (ad_null _ _ _ Had)))
    (ConvertCaseEx Tx) s x 0 0 ctx HT' Hs).
  destruct (ref_search _ _ _ _ _ _ _ _ _ _ _) as [[n x'] ctx']. destruct H as (s' & E' & Hs').
  exists s'. unfold acsmSearch. bcases; [lia|]. by rewrite E'.
Qed.

(** C20. The compiled automaton finds every occurrence of every pattern, in one
    pass and over any division of the text into buffers: for non-empty
    patterns compilation succeeds, and there is an assignment [M] of lists to
    texts, [M x] being exactly the patterns whose upper-case form is a suffix
    of [x], such that a search that continues from the state left by the text
    [x] calls back, in the order of the text, with exactly the non-empty
    [M (x ++ ...)] - the tree and the negation list being those the agent
    builds from that list - stops when the callback asks for it, counts the
    calls, and leaves the state of the text read. *)
Theorem acsm_search_correct {U T N C : Type} (agent : option (MpseAgent (U := U))) (nt : T) (nl : N)
    (match_ : C -> option U -> T -> Z -> N -> Z * C) l :
  Forall (fun '(pat, _, _, _) => bytes pat) l -> Forall (fun '(pat, _, _, _) => pat <> []) l ->
  let a := add_patterns nt nl l in
  exists (a' : ACSM_STRUCT) (M : list Z -> list ACSM_PATTERN) (rep : nat -> list Z -> Prop),
    acsmCompile agent a = Some a' /\ rep 0%nat [] /\
    (forall x, M x ≡ₚ ending (acsmPatterns a) x) /\
    forall s x Tx ctx, rep s x -> bytes Tx -> Zlen Tx <= Tc_size ->
      let '(n, x', ctx') := ref_search agent nt nl match_ M (users a) x (ConvertCaseEx Tx) 0 0 ctx in
      exists s', acsmSearch match_ a' Tx (Some s) ctx = Some (n, Some s', ctx') /\ rep s' x'.
Proof.
  intros Hb Hne. destruct (acsm_search_run agent nt nl l Hb Hne) as (a' & M & rep & E & H0 & HM & Hs).
  exists a', M, rep. split_and!; [done..|]. apply Hs.
Qed.

(** The patterns he, she, his and hers of the original paper, and an agent
    that collects the ids. *)
Definition demo_patterns : list (list Z * bool * bool * option Z) :=
  [([104; 101], false, false, Some 1); ([115; 104; 101], false, false, Some 2);
   ([104; 105; 115], false, false, Some 3); ([104; 101; 114; 115], false, false, Some 4)].

Definition demo_agent : MpseAgent (U := Z) (T := list Z) (N := list Z) :=
  MkAgent (fun u t => match u with Some u => t ++ [u] | None => t end) (fun u n => u :: n).

Definition demo_acsm : ACSM_STRUCT (U := Z) (T := list Z) (N := list Z) := add_patterns [] [] demo_patterns.

Definition demo_match (ctx : list (Z * list Z)) (u : option Z) (t : list Z) (index : Z) (n : list Z)
    : Z * list (Z * list Z) := (0, ctx ++ [(index, t)]).

(** "USHERS" contains she and he up to index 4 and hers up to index 6. *)
Example demo_search :
  (a ← acsmCompile (Some demo_agent) demo_acsm;
   acsmSearch demo_match a [117; 115; 104; 101; 114; 115] (Some 0%nat) []) =
  Some (2, Some 4%nat, [(4, [1; 2]); (6, [4])]).
Proof. vm_compute. reflexivity. Qed.

Lemma acsm_search_correct_witness :
  exists a' M, acsmCompile (Some demo_agent) demo_acsm = Some a' /\
    (M [115; 104; 101] ≡ₚ ending (acsmPatterns demo_acsm) [115; 104; 101]) /\
    let '(n, x', ctx') := ref_search (Some demo_agent) [] [] demo_match M
       (users demo_acsm) [] (ConvertCaseEx [115; 104; 101]) 0 0 [] in
    exists s', acsmSearch demo_match a' [115; 104; 101] (Some 0%nat) [] = Some (n, Some s', ctx').
Proof.
  destruct (acsm_search_correct (Some demo_agent) [] [] demo_match demo_patterns)
    as (a' & M & rep & E & H0 & HM & Hs).
  - repeat constructor; mlia.
  - repeat constructor; done.
  - exists a', M. split; [exact E|]. split; [apply HM|].
    specialize (Hs 0%nat [] [115; 104; 101] [] H0 ltac:(repeat constructor; mlia) ltac:(reflexivity || (vm_compute; congruence))).
    destruct (ref_search _ _ _ _ _ _ _ _ _ _ _) as [[n x'] ctx']. destruct Hs as (s' & Hs' & _). exists s'. exact Hs'.
Defined.

(** Match list entries share the user data of their pattern and count
    references: freeing a compiled automaton releases the user data of every
    pattern, each exactly once, however many states its entry was copied to. *)
Theorem acsm_free_once {U T N : Type} (agent : option (MpseAgent (U := U))) (nt : T) (nl : N) l :
  Forall (fun '(pat, _, _, _) => bytes pat) l -> Forall (fun '(pat, _, _, _) => pat <> []) l ->
  exists a', acsmCompile agent (add_patterns nt nl l) = Some a' /\ acsmFree a' ≡ₚ seq 0 (length l).
Proof.
  intros Hb Hne. pose proof (add_patterns_added nt nl l Hb) as Had.
  destruct (acsmCompile'_spec nt nl _ Had (add_patterns_nonempty nt nl l Hne)) as (W & M & a1 & E & Hc).
  exists (final agent a1). split; [unfold acsmCompile; by rewrite E|]. unfold acsmFree.
  assert (length (users a1) = length l) as Hlen.
  { pose proof (f_equal length (c_ids _ _ _ _ Hc)) as H. rewrite !length_fmap in H. rewrite H.
    clear. unfold add_patterns. rewrite <- (Nat.add_0_l (length l)). change 0%nat with (length (users (acsmNew (U := U) (T := T) (N := N)))).
    generalize (acsmNew (U := U) (T := T) (N := N)). induction l as [|[[[pat nc] neg] user] l IH]; intros a; simpl; [lia|].
    rewrite IH. simpl. rewrite length_app. simpl. lia. }
  assert (users (final agent a1) = users a1) as -> by (unfold final; by destruct agent).
  destruct (free_all (concat (map MatchList (acsmStateTable (final agent a1)))) (users a1) []) as (fl & -> & Hnd & Hel).
  { intros i u Hi. rewrite uses_concat, final_total. by apply (c_refs _ _ _ _ Hc). }
  simpl. apply NoDup_Permutation; [done|apply NoDup_seq|]. intros i.
  rewrite Hel, uses_concat, final_total, Hlen, list_elem_of_In, in_seq. split; [lia|]. intros Hi. split; [lia|].
  apply (c_total _ _ _ _ Hc). pose proof (f_equal length (c_ids _ _ _ _ Hc)) as H. rewrite !length_fmap in H. lia.
Qed.

Lemma acsm_free_once_witness :
  exists a', acsmCompile (Some demo_agent) demo_acsm = Some a' /\ acsmFree a' ≡ₚ [0; 1; 2; 3]%nat.
Proof.
  apply (acsm_free_once (Some demo_agent) [] [] demo_patterns); [repeat constructor; mlia|repeat constructor; done].
Defined.
