(* ===== verification/Cursor.v ===== *)
(** * Cursor: the detection cursor (framework/cursor.h, framework/cursor.cc)
    and the result type of a rule option (framework/ips_option.h)

    A cursor is a buffer with a read position.  [sz], [pos] and [delta] are
    [unsigned]; the arithmetic wraps as in the source. *)

From S2P Require Import Prelude.

(** [IpsOption::EvalStatus] *)
Inductive EvalStatus := NO_MATCH | MATCH | NO_ALERT | FAILED_BIT.

#[export] Instance EvalStatus_eq_dec : EqDecision EvalStatus.
Proof. solve_decision. Defined.

Definition eval_status_eqb (a b : EvalStatus) : bool := bool_decide (a = b).

(** [name]: rule option name; [data]: the buffer; [delta]: loop offset. *)
Record Cursor := MkCursor {
  name : string; data : list Z; sz : Z; pos : Z; delta : Z }.

(** [set]; also the constructor from a name and a buffer. *)
Definition cursor_set (s : string) (b : list Z) (n : Z) : Cursor :=
  {| name := s; data := b; sz := u32 n; pos := 0; delta := 0 |}.

(** The copy constructor: a cursor passed by value starts a new loop. *)
Definition cursor_copy (rhs : Cursor) : Cursor :=
  {| name := name rhs; data := data rhs; sz := sz rhs; pos := pos rhs; delta := 0 |}.

(** [reset] from a packet: [alt] is the buffer the flow's inspector gives for
    [IBT_ALT], if any; otherwise the packet's data up to its detect limit. *)
Definition cursor_reset (alt : option (list Z)) (pkt : list Z) (detect_limit : Z) : Cursor :=
  match alt with
  | Some b => cursor_set "alt_data" b (Zlen b)
  | None => cursor_set "pkt_data" pkt detect_limit
  end.

Definition cursor_is (c : Cursor) (s : string) : bool := String.eqb (name c) s.

Definition length_ (c : Cursor) : Z := u32 (sz c - pos c).

Definition with_pos (c : Cursor) (n : Z) : Cursor :=
  {| name := name c; data := data c; sz := sz c; pos := n; delta := delta c |}.
Definition with_delta (c : Cursor) (n : Z) : Cursor :=
  {| name := name c; data := data c; sz := sz c; pos := pos c; delta := n |}.

Definition add_pos (c : Cursor) (n : Z) : bool * Cursor :=
  if u32 (pos c + u32 n) >? sz c then (false, c) else (true, with_pos c (u32 (pos c + u32 n))).

Definition set_pos (c : Cursor) (n : Z) : bool * Cursor :=
  if u32 n >? sz c then (false, c) else (true, with_pos c (u32 n)).

Definition set_delta (c : Cursor) (n : Z) : bool * Cursor :=
  if u32 n >? sz c then (false, c) else (true, with_delta c (u32 n)).

(** ** Well-formed cursors

    The buffer is at least [sz] bytes, and position and delta are at most one
    past its end. *)
Record cursor_wf (c : Cursor) : Prop := {
  wf_sz : 0 <= sz c <= Zlen (data c);
  wf_u32 : is_u32 (sz c);
  wf_bytes : bytes (data c);
  wf_pos : 0 <= pos c <= sz c;
  wf_delta : 0 <= delta c <= sz c }.

Lemma cursor_set_wf s b n : bytes b -> 0 <= n <= Zlen b -> is_u32 n -> cursor_wf (cursor_set s b n).
Proof. intros Hb Hn Hu. constructor; simpl; rewrite ?u32_small by done; auto; lia. Qed.

Lemma cursor_copy_wf c : cursor_wf c -> cursor_wf (cursor_copy c).
Proof. intros []. constructor; simpl; auto; lia. Qed.

Lemma set_pos_wf c n : cursor_wf c -> cursor_wf (set_pos c n).2.
Proof.
  intros []. unfold set_pos. bcases; [done|]. pose proof (u32_range n) as [? ?].
  constructor; simpl; auto.
Qed.

Lemma set_delta_wf c n : cursor_wf c -> cursor_wf (set_delta c n).2.
Proof.
  intros []. unfold set_delta. bcases; [done|]. pose proof (u32_range n) as [? ?].
  constructor; simpl; auto.
Qed.

Lemma add_pos_wf c n : cursor_wf c -> cursor_wf (add_pos c n).2.
Proof.
  intros []. unfold add_pos. bcases; [done|].
  pose proof (u32_range (pos c + u32 n)) as [? ?]. constructor; simpl; auto.
Qed.

Lemma set_pos_data c n :
  data (set_pos c n).2 = data c /\ sz (set_pos c n).2 = sz c /\ delta (set_pos c n).2 = delta c.
Proof. unfold set_pos. by bcases. Qed.
Lemma set_delta_data c n :
  data (set_delta c n).2 = data c /\ sz (set_delta c n).2 = sz c /\ pos (set_delta c n).2 = pos c.
Proof. unfold set_delta. by bcases. Qed.
Lemma add_pos_data c n :
  data (add_pos c n).2 = data c /\ sz (add_pos c n).2 = sz c /\ delta (add_pos c n).2 = delta c.
Proof. unfold add_pos. by bcases. Qed.

#[export] Hint Resolve cursor_copy_wf set_pos_wf set_delta_wf add_pos_wf : mach.
