(* ===== verification/Extract.v ===== *)
(** * Extract: reading numbers from a buffer and the rule variables
    (ips_options/extract.cc, extract.h; SnortStrToU32 of utils/util_cstring.h;
    inBounds of utils/snort_bounds.h)

    A pointer into the buffer is its index; [start] and [end_] are the bounds
    the source passes along.  Errors are the left side of a sum, with the
    negative code of the source. *)

From Stdlib Require Import Btauto.
From S2P Require Import Prelude.

Definition ENDIAN_BIG : Z := 1.
Definition ENDIAN_LITTLE : Z := 2.
Definition ENDIAN_FUNC : Z := 4.
Definition PARSELEN : Z := 10.
Definition MAX_BYTES_TO_GRAB : Z := 4.
Definition TEXTLEN : Z := PARSELEN + 1.
Definition NUM_IPS_OPTIONS_VARS : Z := 3.
Definition IPS_OPTIONS_NO_VAR : Z := -1.

(** ** Rule option variables *)

(** The three static arrays of extract.cc. *)
Record ips_vars := IpsVars {
  variable_names : list string;
  extracted_values : list Z;
  extracted_values_cnt : Z }.

(** The scan [for (i = 0; i < cnt; i++) if (variable_names[i] == name)], from
    index [i] on. *)
Fixpoint find_name (names : list string) (n : nat) (i : Z) (nm : string) : option Z :=
  match n, names with
  | S n, x :: names => if String.eqb x nm then Some i else find_name names n (i + 1) nm
  | _, _ => None
  end.

Definition GetVarByName (v : ips_vars) (name : option string) : Z :=
  match name with
  | None => IPS_OPTIONS_NO_VAR
  | Some nm => default IPS_OPTIONS_NO_VAR
                 (find_name (variable_names v) (Z.to_nat (extracted_values_cnt v)) 0 nm)
  end.

#[global] Arguments GetVarByName : simpl never.

Definition AddVarNameToList (v : ips_vars) (nm : string) : Z * ips_vars :=
  let cnt := extracted_values_cnt v in
  match find_name (variable_names v) (Z.to_nat cnt) 0 nm with
  | Some i => (i, v)
  | None =>
      if cnt <? NUM_IPS_OPTIONS_VARS then
        (cnt, {| variable_names := wr (variable_names v) cnt nm;
                 extracted_values := extracted_values v;
                 extracted_values_cnt := u8 (cnt + 1) |})
      else (IPS_OPTIONS_NO_VAR, v)
  end.

Definition ClearIpsOptionsVars (v : ips_vars) : ips_vars :=
  {| variable_names := variable_names v; extracted_values := extracted_values v;
     extracted_values_cnt := 0 |}.

(** [GetVarValueByIndex]: [None] is the NO_VAR return, which leaves [*dst]. *)
Definition GetVarValueByIndex (v : ips_vars) (var_number : Z) : option Z :=
  if u8 var_number >=? NUM_IPS_OPTIONS_VARS then None
  else Some (rd0 (extracted_values v) (u8 var_number)).

Definition SetVarValueByIndex (v : ips_vars) (value var_number : Z) : Z * ips_vars :=
  if u8 var_number >=? NUM_IPS_OPTIONS_VARS then (IPS_OPTIONS_NO_VAR, v)
  else (0, {| variable_names := variable_names v;
              extracted_values := wr (extracted_values v) (u8 var_number) value;
              extracted_values_cnt := extracted_values_cnt v |}).

(** What the options do to read an operand that may be a variable: the value
    of variable [var] when that is an index, else the constant [k]. *)
Definition var_or (v : ips_vars) (var k : Z) : Z :=
  if (var >=? 0) && (var <? NUM_IPS_OPTIONS_VARS)
  then default 0 (GetVarValueByIndex v var) else k.

(** [set_byte_order]: the last one wins (with a warning). *)
Definition set_byte_order (order flag : Z) : Z := flag.

(** ** Binary extraction *)

Definition inBounds (start end_ p : Z) : bool := (start <=? p) && (p <? end_).

Definition byte_extract (endianness bytes_to_grab : Z) (buf : list Z) (ptr start end_ : Z)
    : Z + Z :=
  if negb (endianness =? ENDIAN_LITTLE) && negb (endianness =? ENDIAN_BIG) then inl (-2) else
  if negb (inBounds start end_ (ptr + (bytes_to_grab - 1))) then inl (-3) else
  if negb (inBounds start end_ ptr) then inl (-3) else
  let at_ i := Z.land (rd0 buf (ptr + i)) 255 in
  let le := endianness =? ENDIAN_LITTLE in
  if bytes_to_grab =? 1 then inr (at_ 0) else
  if bytes_to_grab =? 2 then
    if le then inr (Z.lor (at_ 0) (Z.shiftl (at_ 1) 8))
    else inr (Z.lor (Z.shiftl (at_ 0) 8) (at_ 1))
  else if bytes_to_grab =? 3 then
    if le then inr (Z.lor (Z.lor (at_ 0) (Z.shiftl (at_ 1) 8)) (Z.shiftl (at_ 2) 16))
    else inr (Z.lor (Z.lor (Z.shiftl (at_ 0) 16) (Z.shiftl (at_ 1) 8)) (at_ 2))
  else if bytes_to_grab =? 4 then
    if le then inr (u32 (Z.lor (Z.lor (Z.lor (at_ 0) (Z.shiftl (at_ 1) 8))
                                  (Z.shiftl (at_ 2) 16)) (Z.shiftl (at_ 3) 24)))
    else inr (u32 (Z.lor (Z.lor (Z.lor (Z.shiftl (at_ 0) 24) (Z.shiftl (at_ 1) 16))
                            (Z.shiftl (at_ 2) 8)) (at_ 3)))
  else inl (-1).

(** ** String extraction *)

Definition isspace (c : Z) : bool := (c =? 32) || ((9 <=? c) && (c <=? 13)).

(** How many characters the loop over leading white space skips. *)
Fixpoint spaces (s : list Z) : Z :=
  match s with
  | c :: s => if isspace c then 1 + spaces s else 0
  | [] => 0
  end.

Definition digit_val (c : Z) : Z :=
  if (48 <=? c) && (c <=? 57) then c - 48
  else if (65 <=? c) && (c <=? 90) then c - 55
  else if (97 <=? c) && (c <=? 122) then c - 87
  else 36.

(** The longest prefix of digits of [base]: its value and its length. *)
Fixpoint digits (base : Z) (s : list Z) (acc n : Z) : Z * Z :=
  match s with
  | c :: s => if digit_val c <? base then digits base s (acc * base + digit_val c) (n + 1)
              else (acc, n)
  | [] => (acc, n)
  end.

(** The optional sign: negative?, characters taken, the rest. *)
Definition strip_sign (s : list Z) : bool * Z * list Z :=
  match s with
  | c :: r => if c =? 45 then (true, 1, r) else if c =? 43 then (false, 1, r) else (false, 0, s)
  | [] => (false, 0, s)
  end.

(** The optional [0x] of base 16, taken only in front of a digit. *)
Definition strip_0x (base : Z) (s : list Z) : Z * list Z :=
  match s with
  | z :: x :: d :: r =>
      if (base =? 16) && (z =? 48) && ((x =? 120) || (x =? 88)) && (digit_val d <? 16)
      then (2, d :: r) else (0, s)
  | _ => (0, s)
  end.

(** [strtoul (nptr, &end, base)] of the C library for a base of 2 to 36: the
    value and the number of characters consumed (0 when nothing could be
    converted).  The string ends where the list does. *)
Definition strtoul (s : list Z) (base : Z) : Z * Z :=
  let ULONG_MAX := 18446744073709551615 in
  let sp := spaces s in
  let '(neg, sg, s2) := strip_sign (drop (Z.to_nat sp) s) in
  let '(px, s3) := strip_0x base s2 in
  let '(v, n) := digits base s3 0 0 in
  if n =? 0 then (0, 0)
  else (if v >? ULONG_MAX then ULONG_MAX else if neg then u64 (- v) else v,
        sp + sg + px + n).

(** [SnortStrToU32] on a buffer that ends where the list does: [None] is the
    return of -1, else the value and the distance of [*endptr] from the start. *)
Definition SnortStrToU32 (s : list Z) (base : Z) : option (Z * Z) :=
  let UINT32_MAX := 4294967295 in
  let sp := spaces s in
  let buffer := drop (Z.to_nat sp) s in
  match buffer with
  | [] => None
  | c :: _ =>
      if c =? 45 then None else
      if (base <? 2) || (base >? 36) then None (* EINVAL; base 0 is not used *) else
      let '(tmp, n) := strtoul buffer base in
      if n =? 0 then None
      else Some (if tmp >? UINT32_MAX then UINT32_MAX else tmp, sp + n)
  end.

(** The bytes of a C string stored in an array: up to the first NUL. *)
Fixpoint cstring (s : list Z) : list Z :=
  match s with
  | c :: s => if c =? 0 then [] else c :: cstring s
  | [] => []
  end.

(** [string_extract]: the result is the number of bytes converted and the
    value. *)
Definition string_extract (bytes_to_grab base : Z) (buf : list Z) (ptr start end_ : Z)
    : Z + Z * Z :=
  if (bytes_to_grab >? TEXTLEN - 1) || (bytes_to_grab <=? 0) then inl (-1) else
  if negb (inBounds start end_ (ptr + (bytes_to_grab - 1))) then inl (-3) else
  if negb (inBounds start end_ ptr) then inl (-3) else
  match SnortStrToU32 (cstring (slice buf ptr bytes_to_grab)) base with
  | None => inl (-1)
  | Some (value, n) => inr (n, value)
  end.

(** ** Bit masks *)

(** [ffs]: one plus the index of the least significant set bit, 0 for 0. *)
Fixpoint pos_ffs (p : positive) : Z :=
  match p with xO p => 1 + pos_ffs p | _ => 1 end.
Definition ffs (z : Z) : Z := match z with Zpos p => pos_ffs p | _ => 0 end.

Definition getNumberTailingZerosInBitmask (bitmask : Z) : Z :=
  if bitmask =? 0 then 32 else ffs bitmask - 1.

Definition numBytesInBitmask (bitmask_value : Z) : Z :=
  if bitmask_value <=? 255 then 1
  else if bitmask_value <=? 65535 then 2
  else if bitmask_value <=? 16777215 then 3
  else 4.

(** What byte_test, byte_jump, byte_extract and byte_math do with a
    [bitmask]: mask the value and shift the mask's trailing zeros out. *)
Definition apply_bitmask (value bitmask : Z) : Z :=
  if negb (bitmask =? 0) then
    let num_tailing_zeros_bitmask := getNumberTailingZerosInBitmask bitmask in
    let value := Z.land value bitmask in
    if truth value && truth num_tailing_zeros_bitmask
    then Z.shiftr value num_tailing_zeros_bitmask else value
  else value.

(** ** Lemmas *)

(** The number a byte string denotes, most and least significant byte first. *)
Definition be_value (l : list Z) : Z := fold_left (fun acc b => acc * 256 + b) l 0.
Definition le_value (l : list Z) : Z := foldr (fun b acc => b + 256 * acc) 0 l.

Lemma land_255 b : is_u8 b -> Z.land b 255 = b.
Proof. intros Hb. change 255 with (Z.ones 8). rewrite Z.land_ones by lia. mlia. Qed.

Lemma lor_low a b n : 0 <= n -> 0 <= b < 2 ^ n -> Z.lor b (Z.shiftl a n) = a * 2 ^ n + b.
Proof. intros. rewrite Z.lor_comm. by apply lor_shiftl. Qed.

Lemma le_bytes b0 b1 b2 b3 :
  0 <= b0 < 256 -> 0 <= b1 < 256 -> 0 <= b2 < 256 -> 0 <= b3 < 256 ->
  Z.lor b0 (Z.shiftl b1 8) = b0 + 256 * b1 /\
  Z.lor (Z.lor b0 (Z.shiftl b1 8)) (Z.shiftl b2 16) = b0 + 256 * b1 + 65536 * b2 /\
  Z.lor (Z.lor (Z.lor b0 (Z.shiftl b1 8)) (Z.shiftl b2 16)) (Z.shiftl b3 24) =
    b0 + 256 * b1 + 65536 * b2 + 16777216 * b3.
Proof.
  intros. rewrite (lor_low b1 b0 8) by lia.
  rewrite (lor_low b2 _ 16) by lia. rewrite (lor_low b3 _ 24) by lia. lia.
Qed.

Lemma be_bytes b0 b1 b2 b3 :
  0 <= b0 < 256 -> 0 <= b1 < 256 -> 0 <= b2 < 256 -> 0 <= b3 < 256 ->
  Z.lor (Z.shiftl b0 8) b1 = b1 + 256 * b0 /\
  Z.lor (Z.lor (Z.shiftl b0 16) (Z.shiftl b1 8)) b2 = b2 + 256 * b1 + 65536 * b0 /\
  Z.lor (Z.lor (Z.lor (Z.shiftl b0 24) (Z.shiftl b1 16)) (Z.shiftl b2 8)) b3 =
    b3 + 256 * b2 + 65536 * b1 + 16777216 * b0.
Proof.
  intros H0 H1 H2 H3.
  destruct (le_bytes b1 b0 0 0) as (E1 & _); [lia..|].
  destruct (le_bytes b2 b1 b0 0) as (_ & E2 & _); [lia..|].
  destruct (le_bytes b3 b2 b1 b0) as (_ & _ & E3); [lia..|].
  rewrite <- E1, <- E2, <- E3.
  split_and!; apply Z.bits_inj'; intros; rewrite !Z.lor_spec; btauto.
Qed.

(** The bytes of a small slice, one by one. *)
Lemma slice_bytes buf ptr n :
  0 <= ptr -> ptr + n <= Zlen buf -> 1 <= n <= 4 ->
  slice buf ptr n = take (Z.to_nat n)
    [rd0 buf ptr; rd0 buf (ptr + 1); rd0 buf (ptr + 2); rd0 buf (ptr + 3)].
Proof.
  intros Hp Hb Hn.
  assert (n = 1 \/ n = 2 \/ n = 3 \/ n = 4) as Hc by lia.
  destruct_or! Hc; subst; repeat (rewrite slice_cons by lia); rewrite slice_nil by lia;
    rewrite <- ?Z.add_assoc; reflexivity.
Qed.

Lemma byte_extract_value e n buf ptr :
  bytes buf -> 0 <= ptr -> ptr + n <= Zlen buf -> 1 <= n <= 4 ->
  e = ENDIAN_LITTLE \/ e = ENDIAN_BIG ->
  byte_extract e n buf ptr 0 (Zlen buf) =
  inr ((if e =? ENDIAN_LITTLE then le_value else be_value) (slice buf ptr n)).
Proof.
  intros Hb Hp Hlen Hn He. rewrite slice_bytes by done. unfold byte_extract.
  assert (inBounds 0 (Zlen buf) (ptr + (n - 1)) = true) as ->
    by (apply andb_true_iff; split; [apply Z.leb_le|apply Z.ltb_lt]; lia).
  assert (inBounds 0 (Zlen buf) ptr = true) as ->
    by (apply andb_true_iff; split; [apply Z.leb_le|apply Z.ltb_lt]; lia).
  assert (forall i, 0 <= rd0 buf i < 256) as Hr by (intros i; apply (bytes_rd0 buf i Hb)).
  assert (forall i, Z.land (rd0 buf (ptr + i)) 255 = rd0 buf (ptr + i)) as Hland
    by (intros i; apply land_255, Hr).
  pose proof (Hr ptr). pose proof (Hr (ptr + 1)). pose proof (Hr (ptr + 2)).
  pose proof (Hr (ptr + 3)).
  assert (n = 1 \/ n = 2 \/ n = 3 \/ n = 4) as Hc by lia.
  destruct He as [-> | ->]; destruct_or! Hc; subst n; cbn -[Z.land Z.lor Z.shiftl Z.add u32];
    rewrite !Hland, Z.add_0_r; f_equal; unfold be_value, le_value; simpl;
    destruct (le_bytes (rd0 buf ptr) (rd0 buf (ptr + 1)) (rd0 buf (ptr + 2))
                (rd0 buf (ptr + 3))) as (L2 & L3 & L4); try done;
    destruct (be_bytes (rd0 buf ptr) (rd0 buf (ptr + 1)) (rd0 buf (ptr + 2))
                (rd0 buf (ptr + 3))) as (B2 & B3 & B4); try done;
    rewrite ?L4, ?B4, ?L3, ?B3, ?L2, ?B2; mlia.
Qed.

(** The guards of [byte_extract] as one decision. *)
Definition endian_ok (e : Z) : Prop := e = ENDIAN_LITTLE \/ e = ENDIAN_BIG.
Definition grab_ok (ptr n len : Z) : Prop := 0 <= ptr < len /\ 0 <= ptr + (n - 1) < len.

#[export] Instance endian_ok_dec e : Decision (endian_ok e).
Proof. unfold endian_ok. apply _. Defined.
#[export] Instance grab_ok_dec ptr n len : Decision (grab_ok ptr n len).
Proof. unfold grab_ok. apply _. Defined.

(** [byte_extract] in one equation. *)
Lemma byte_extract_eq e n buf ptr :
  bytes buf ->
  byte_extract e n buf ptr 0 (Zlen buf) =
  if decide (endian_ok e) then
    if decide (grab_ok ptr n (Zlen buf)) then
      if decide (1 <= n <= 4)
      then inr ((if e =? ENDIAN_LITTLE then le_value else be_value) (slice buf ptr n))
      else inl (-1)
    else inl (-3)
  else inl (-2).
Proof.
  intros Hb. case_decide as He; [case_decide as Hg; [case_decide as Hn|]|].
  - unfold grab_ok, endian_ok in *. by apply byte_extract_value; try lia.
  - unfold grab_ok, endian_ok, byte_extract, inBounds, ENDIAN_LITTLE, ENDIAN_BIG in *.
    bcases; try done; lia.
  - unfold grab_ok, endian_ok, byte_extract, inBounds, ENDIAN_LITTLE, ENDIAN_BIG in *.
    bcases; try done; lia.
  - unfold endian_ok, byte_extract, ENDIAN_LITTLE, ENDIAN_BIG in *. bcases; try done; lia.
Qed.

Lemma be_value_snoc l b : be_value (l ++ [b]) = be_value l * 256 + b.
Proof. unfold be_value. by rewrite fold_left_app. Qed.

Lemma value_range l :
  bytes l -> 0 <= be_value l < 256 ^ Zlen l /\ 0 <= le_value l < 256 ^ Zlen l.
Proof.
  intros Hb. split.
  - induction l as [|b l IH] using rev_ind; [done|].
    apply Forall_app in Hb as [Hl [Hx _]%Forall_cons_1]. rewrite be_value_snoc, Zlen_app.
    change (Zlen [b]) with 1. rewrite Z.pow_add_r by (pose proof (Zlen_nonneg l); lia).
    specialize (IH Hl). unfold is_u8 in Hx. change (256 ^ 1) with 256. nia.
  - induction Hb as [|b l Hx Hl IH]; [done|]. simpl. rewrite Zlen_cons.
    rewrite Z.pow_add_r by (pose proof (Zlen_nonneg l); lia).
    unfold is_u8 in Hx. change (256 ^ 1) with 256. nia.
Qed.

(** ** Bit masks *)

Lemma pos_ffs_spec p :
  1 <= pos_ffs p /\ Z.testbit (Zpos p) (pos_ffs p - 1) = true /\
  forall i, 0 <= i < pos_ffs p - 1 -> Z.testbit (Zpos p) i = false.
Proof.
  induction p as [p IH|p IH|]; simpl pos_ffs; [split_and!; [lia|done|lia]| |split_and!; [lia|done|lia]].
  destruct IH as (H1 & H2 & H3). split_and!; [lia| |].
  - change (Zpos p~0) with (2 * Zpos p).
    replace (1 + pos_ffs p - 1) with (Z.succ (pos_ffs p - 1)) by lia.
    rewrite Z.testbit_even_succ by lia. done.
  - intros i Hi. change (Zpos p~0) with (2 * Zpos p).
    destruct (Z.eq_dec i 0) as [->|]; [apply Z.testbit_even_0|].
    replace i with (Z.succ (i - 1)) by lia. rewrite Z.testbit_even_succ by lia. apply H3. lia.
Qed.

(** The masked field: bits of the mask only, moved down so that the mask's
    least significant bit is bit 0. *)
Lemma apply_bitmask_field v m :
  0 < m -> exists t, 0 <= t /\ Z.testbit m t = true /\
    (forall i, 0 <= i < t -> Z.testbit m i = false) /\
    apply_bitmask v m = Z.shiftr (Z.land v m) t.
Proof.
  intros Hm. destruct m as [|p|p]; try lia. exists (pos_ffs p - 1).
  destruct (pos_ffs_spec p) as (H1 & H2 & H3). split_and!; [lia|done|done|].
  unfold apply_bitmask, getNumberTailingZerosInBitmask. simpl (Zpos p =? 0). simpl ffs.
  cbv iota. simpl negb. cbv iota.
  bcase (truth (Z.land v (Zpos p))) as E1; simpl; [bcase (truth (pos_ffs p - 1)) as E2|].
  - done.
  - rewrite E2. by rewrite Z.shiftr_0_r.
  - rewrite E1. by rewrite Z.shiftr_0_l.
Qed.

Lemma apply_bitmask_range v m : is_u32 v -> is_u32 m -> is_u32 (apply_bitmask v m).
Proof.
  intros Hv Hm. destruct (Z.eq_dec m 0) as [->|]; [done|].
  destruct (apply_bitmask_field v m) as (t & Ht & _ & _ & ->); [unfold is_u32 in *; lia|].
  auto using shiftr_u32, land_u32.
Qed.

(** ** Strings *)

Lemma spaces_range s : 0 <= spaces s <= Zlen s.
Proof.
  induction s as [|c s IH]; simpl; [done|]. rewrite Zlen_cons.
  pose proof (Zlen_nonneg s). bcases; lia.
Qed.

Lemma digits_spec base s acc n :
  0 < base -> 0 <= acc ->
  0 <= (digits base s acc n).1 /\ n <= (digits base s acc n).2 <= n + Zlen s.
Proof.
  intros Hb. revert acc n. induction s as [|c s IH]; intros acc n Ha; simpl.
  - unfold Zlen. simpl. lia.
  - rewrite Zlen_cons. pose proof (Zlen_nonneg s). bcases; [|simpl; lia].
    assert (0 <= digit_val c) by (unfold digit_val; bcases; lia).
    specialize (IH (acc * base + digit_val c) (n + 1)). nia.
Qed.

Lemma digits_all base s acc n :
  Forall (fun c => digit_val c < base) s ->
  digits base s acc n = (fold_left (fun a c => a * base + digit_val c) s acc, n + Zlen s).
Proof.
  intros H. revert acc n. induction H as [|c s Hc _ IH]; intros acc n; simpl.
  - f_equal. unfold Zlen. simpl. lia.
  - bcases; [|lia]. rewrite IH, Zlen_cons. f_equal. lia.
Qed.

Lemma Zlen_drop {A} (l : list A) k : 0 <= k <= Zlen l -> Zlen (drop (Z.to_nat k) l) = Zlen l - k.
Proof. unfold Zlen. rewrite length_drop. lia. Qed.

Lemma strtoul_range s base :
  2 <= base -> let '(v, n) := strtoul s base in
  0 <= v <= 18446744073709551615 /\ 0 <= n <= Zlen s.
Proof.
  intros Hb. unfold strtoul. pose proof (spaces_range s) as Hs.
  pose proof (Zlen_drop s (spaces s) Hs) as Hd.
  assert (let '(_, sg, s2) := strip_sign (drop (Z.to_nat (spaces s)) s) in
          0 <= sg /\ sg + Zlen s2 = Zlen s - spaces s) as Hsg.
  { rewrite <- Hd. unfold strip_sign.
    destruct (drop (Z.to_nat (spaces s)) s); [done|]. bcases; rewrite !Zlen_cons; lia. }
  destruct (strip_sign _) as [[neg sg] s2]. destruct Hsg as [Hsg1 Hsg2].
  assert (let '(px, s3) := strip_0x base s2 in 0 <= px /\ px + Zlen s3 = Zlen s2) as Hpx.
  { unfold strip_0x. destruct s2 as [|z [|x [|d r]]]; [lia..|].
    bcases; rewrite ?Zlen_cons; lia. }
  destruct (strip_0x base s2) as [px s3]. destruct Hpx as [Hpx1 Hpx2].
  destruct (digits_spec base s3 0 0) as [Hv Hn]; [lia..|].
  destruct (digits base s3 0 0) as [v n]. simpl in *.
  bcase (n =? 0) as E; [pose proof (Zlen_nonneg s); lia|].
  split; [|lia]. bcases; try lia. mlia.
Qed.

Lemma SnortStrToU32_range s base v n :
  SnortStrToU32 s base = Some (v, n) -> is_u32 v /\ 0 < n <= Zlen s.
Proof.
  unfold SnortStrToU32. intros H. pose proof (spaces_range s) as Hs.
  pose proof (Zlen_drop s (spaces s) Hs) as Hd.
  destruct (drop (Z.to_nat (spaces s)) s) as [|c r] eqn:Eb; [done|].
  bcases_hyp; try done.
  pose proof (strtoul_range (c :: r) base ltac:(lia)) as Hr.
  destruct (strtoul (c :: r) base) as [tmp k]. bcases_hyp; try done.
  all: injection H as <- <-; unfold is_u32; lia.
Qed.

Lemma Zlen_cstring s : Zlen (cstring s) <= Zlen s.
Proof.
  induction s as [|c s IH]; simpl; [done|]. bcases; rewrite !Zlen_cons, ?Zlen_nil; [|lia].
  pose proof (Zlen_nonneg s). lia.
Qed.

Lemma string_extract_range n base buf ptr k v :
  string_extract n base buf ptr 0 (Zlen buf) = inr (k, v) ->
  grab_ok ptr n (Zlen buf) /\ 1 <= n <= PARSELEN /\ 0 < k <= n /\ is_u32 v.
Proof.
  unfold string_extract. intros H. bcase ((n >? TEXTLEN - 1) || (n <=? 0)) as E1; [done|].
  bcase (negb (inBounds 0 (Zlen buf) (ptr + (n - 1)))) as E2; [done|].
  bcase (negb (inBounds 0 (Zlen buf) ptr)) as E3; [done|].
  destruct (SnortStrToU32 _ _) as [[v' k']|] eqn:Es; [|done]. injection H as <- <-.
  apply SnortStrToU32_range in Es as [Hv Hk]. unfold inBounds in *. breflect.
  pose proof (Zlen_cstring (slice buf ptr n)) as Hc. rewrite Zlen_slice in Hc by lia.
  unfold grab_ok, TEXTLEN, PARSELEN in *. split_and!; done || lia.
Qed.

(** A string of decimal digits. *)
Definition is_digit (c : Z) : Prop := 48 <= c <= 57.
Definition dec_value (s : list Z) : Z := fold_left (fun a c => a * 10 + (c - 48)) s 0.

Lemma digit_val_digit c : is_digit c -> digit_val c = c - 48.
Proof. unfold is_digit, digit_val. intros. bcases; lia. Qed.

Lemma dec_digits_spec s : Forall is_digit s -> digits 10 s 0 0 = (dec_value s, Zlen s).
Proof.
  intros H. rewrite digits_all.
  - rewrite Z.add_0_l. f_equal. unfold dec_value. generalize 0. induction H as [|c s Hc _ IH];
      intros z; simpl; [done|]. by rewrite (digit_val_digit c Hc), IH.
  - eapply Forall_impl; [done|]. intros c Hc. rewrite digit_val_digit by done.
    unfold is_digit in Hc. lia.
Qed.

Lemma cstring_digits s : Forall is_digit s -> cstring s = s.
Proof.
  induction 1 as [|c s Hc _ IH]; simpl; [done|]. unfold is_digit in Hc.
  bcases; [lia|]. by rewrite IH.
Qed.

Lemma strtoul_dec c s :
  Forall is_digit (c :: s) ->
  strtoul (c :: s) 10 = (Z.min (dec_value (c :: s)) 18446744073709551615, Zlen (c :: s)).
Proof.
  intros Hd. pose proof Hd as [Hc _]%Forall_cons_1. unfold is_digit in Hc.
  unfold strtoul. assert (spaces (c :: s) = 0) as ->.
  { simpl. unfold isspace. bcases; [|done]. lia. }
  simpl drop. unfold strip_sign. bcases; try lia.
  assert (strip_0x 10 (c :: s) = (0, c :: s)) as ->.
  { unfold strip_0x. simpl. by repeat case_match. }
  rewrite dec_digits_spec by done. pose proof (Zlen_nonneg s).
  rewrite Zlen_cons. bcases; try lia; f_equal; lia.
Qed.

Lemma SnortStrToU32_dec s :
  s <> [] -> Forall is_digit s ->
  SnortStrToU32 s 10 = Some (Z.min (dec_value s) 4294967295, Zlen s).
Proof.
  intros Hne Hd. destruct s as [|c s]; [done|]. unfold SnortStrToU32.
  pose proof Hd as [Hc _]%Forall_cons_1. unfold is_digit in Hc.
  assert (spaces (c :: s) = 0) as ->.
  { simpl. unfold isspace. bcases; [|done]. lia. }
  simpl drop. bcase (c =? 45) as E; [lia|]. simpl ((10 <? 2) || (10 >? 36)). cbv iota.
  rewrite strtoul_dec by done. pose proof (Zlen_nonneg s). rewrite Zlen_cons.
  bcases; try lia; do 2 f_equal; lia.
Qed.

(** ** Variables *)

(** The names declared so far. *)
Definition declared (v : ips_vars) : list string :=
  take (Z.to_nat (extracted_values_cnt v)) (variable_names v).

Record vars_wf (v : ips_vars) : Prop := {
  vw_names : Zlen (variable_names v) = NUM_IPS_OPTIONS_VARS;
  vw_values : Zlen (extracted_values v) = NUM_IPS_OPTIONS_VARS;
  vw_cnt : 0 <= extracted_values_cnt v <= NUM_IPS_OPTIONS_VARS;
  vw_nodup : NoDup (declared v) }.

Lemma find_name_spec names n i nm :
  match find_name names n i nm with
  | Some k => exists j, k = i + Z.of_nat j /\ take n names !! j = Some nm
  | None => nm ∉ take n names
  end.
Proof.
  revert names i. induction n as [|n IH]; intros names i; simpl; [destruct names; set_solver|].
  destruct names as [|x names]; simpl; [set_solver|].
  destruct (String.eqb_spec x nm) as [->|Hne].
  - exists 0%nat. split; [lia|done].
  - specialize (IH names (i + 1)). destruct (find_name names n (i + 1) nm).
    + destruct IH as (j & -> & Hj). exists (S j). split; [lia|done].
    + rewrite not_elem_of_cons. auto.
Qed.

Lemma GetVarByName_index v nm j :
  vars_wf v -> declared v !! j = Some nm -> GetVarByName v (Some nm) = Z.of_nat j.
Proof.
  intros Hwf Hj. unfold GetVarByName.
  pose proof (find_name_spec (variable_names v) (Z.to_nat (extracted_values_cnt v)) 0 nm) as H.
  fold (declared v) in H. destruct (find_name _ _ _ _); simpl.
  - destruct H as (j' & -> & Hj'). rewrite Z.add_0_l. f_equal.
    eapply NoDup_lookup; [apply (vw_nodup _ Hwf)|done..].
  - destruct H. by eapply list_elem_of_lookup_2.
Qed.

Lemma GetVarByName_none v nm :
  GetVarByName v (Some nm) = IPS_OPTIONS_NO_VAR <-> nm ∉ declared v.
Proof.
  unfold GetVarByName.
  pose proof (find_name_spec (variable_names v) (Z.to_nat (extracted_values_cnt v)) 0 nm) as H.
  fold (declared v) in H. destruct (find_name _ _ _ _); simpl; unfold IPS_OPTIONS_NO_VAR.
  - destruct H as (j & -> & Hj). split; [lia|]. intros Hn. destruct Hn.
    by eapply list_elem_of_lookup_2.
  - done.
Qed.

Lemma declared_add v nm :
  vars_wf v -> extracted_values_cnt v < NUM_IPS_OPTIONS_VARS -> nm ∉ declared v ->
  declared (AddVarNameToList v nm).2 = declared v ++ [nm] /\
  (AddVarNameToList v nm).1 = extracted_values_cnt v /\ vars_wf (AddVarNameToList v nm).2.
Proof.
  intros [Hn Hv Hc Hnd] Hlt Hni. unfold AddVarNameToList.
  pose proof (find_name_spec (variable_names v) (Z.to_nat (extracted_values_cnt v)) 0 nm) as H.
  fold (declared v) in H. destruct (find_name _ _ _ _) as [k|].
  { destruct H as (j & _ & Hj). destruct Hni. by eapply list_elem_of_lookup_2. }
  bcase (extracted_values_cnt v <? NUM_IPS_OPTIONS_VARS) as E; [|lia].
  assert (u8 (extracted_values_cnt v + 1) = extracted_values_cnt v + 1) as Hu
    by (unfold NUM_IPS_OPTIONS_VARS in *; mlia).
  match goal with |- declared ?w.2 = _ /\ _ => set (v' := w) end.
  assert (declared v'.2 = declared v ++ [nm]) as Hd.
  { unfold declared, v'. simpl. rewrite Hu. unfold wr. bcases; [lia|].
    replace (Z.to_nat (extracted_values_cnt v + 1))
      with (S (Z.to_nat (extracted_values_cnt v))) by lia.
    rewrite (take_S_r _ _ nm).
    - by rewrite take_insert_ge by lia.
    - apply list_lookup_insert_eq. unfold Zlen in Hn. lia. }
  split_and!; [done|done|]. constructor.
  - simpl. by rewrite Zlen_wr.
  - done.
  - simpl. rewrite Hu. unfold NUM_IPS_OPTIONS_VARS in *. lia.
  - rewrite Hd. apply NoDup_app. split_and!; [done| |apply NoDup_singleton].
    intros x Hx Hx'%list_elem_of_singleton. congruence.
Qed.

Lemma AddVarNameToList_present v nm j :
  vars_wf v -> declared v !! j = Some nm -> AddVarNameToList v nm = (Z.of_nat j, v).
Proof.
  intros Hwf Hj. pose proof (GetVarByName_index v nm j Hwf Hj) as Hget.
  unfold AddVarNameToList, GetVarByName in *.
  destruct (find_name _ _ _ _); simpl in *; [by subst|].
  unfold IPS_OPTIONS_NO_VAR in Hget. lia.
Qed.

Lemma AddVarNameToList_full v nm :
  extracted_values_cnt v = NUM_IPS_OPTIONS_VARS -> nm ∉ declared v ->
  AddVarNameToList v nm = (IPS_OPTIONS_NO_VAR, v).
Proof.
  intros Hfull Hni%GetVarByName_none. unfold AddVarNameToList, GetVarByName in *.
  pose proof (find_name_spec (variable_names v) (Z.to_nat (extracted_values_cnt v)) 0 nm) as H.
  destruct (find_name _ _ _ _) as [k|]; simpl in Hni.
  - destruct H as (j & -> & _). unfold IPS_OPTIONS_NO_VAR in Hni. lia.
  - bcases; [lia|done].
Qed.

Lemma length_declared v : vars_wf v -> Z.of_nat (length (declared v)) = extracted_values_cnt v.
Proof. intros []. unfold declared, Zlen in *. rewrite length_take. lia. Qed.

(** ** Properties *)

(** Rule variables: adding a name keeps the table well formed and all
    earlier names at their index, fails exactly when the name is new and all
    NUM_IPS_OPTIONS_VARS slots are taken, and otherwise returns the index under
    which the name is then found. *)
Theorem AddVarNameToList_spec v nm :
  vars_wf v ->
  let '(i, v') := AddVarNameToList v nm in
  vars_wf v' /\
  (i = IPS_OPTIONS_NO_VAR <->
     (nm ∉ declared v) /\ extracted_values_cnt v = NUM_IPS_OPTIONS_VARS) /\
  (i <> IPS_OPTIONS_NO_VAR ->
     0 <= i < NUM_IPS_OPTIONS_VARS /\ GetVarByName v' (Some nm) = i) /\
  (forall nm', nm' ∈ declared v -> GetVarByName v' (Some nm') = GetVarByName v (Some nm')).
Proof.
  intros Hwf. pose proof (vw_cnt _ Hwf). pose proof (length_declared v Hwf) as Hlen.
  unfold IPS_OPTIONS_NO_VAR.
  destruct (decide (nm ∈ declared v)) as [[j Hj]%list_elem_of_lookup_1|Hni].
  - rewrite (AddVarNameToList_present v nm j) by done.
    apply lookup_lt_Some in Hj as Hlt. apply list_elem_of_lookup_2 in Hj as Hin.
    split_and!; [done|split; [lia|tauto]| |done].
    intros _. split; [lia|by apply GetVarByName_index].
  - destruct (Z.lt_ge_cases (extracted_values_cnt v) NUM_IPS_OPTIONS_VARS) as [Hlt|Hge].
    + pose proof (declared_add v nm Hwf Hlt Hni) as (Hd & Hi & Hwf').
      destruct (AddVarNameToList v nm) as [i v']. simpl in *. subst i.
      split_and!; [done|split; [lia|intros [_ ?]; lia]| |].
      * intros _. split; [lia|]. rewrite <- Hlen. apply GetVarByName_index; [done|].
        by rewrite Hd, list_lookup_middle.
      * intros nm' [j Hj]%list_elem_of_lookup_1.
        rewrite (GetVarByName_index v nm' j) by done. apply GetVarByName_index; [done|].
        rewrite Hd. by apply lookup_app_l_Some.
    + rewrite AddVarNameToList_full by (done || lia).
      split_and!; [done|split; [intros _; split; [done|lia]|done]|done|done].
Qed.

Definition demo_vars : ips_vars := IpsVars ["len"; ""; ""]%string [0; 0; 0] 1.

Lemma demo_vars_wf : vars_wf demo_vars.
Proof.
  constructor; [reflexivity..|split; vm_compute; congruence|].
  apply NoDup_singleton.
Qed.

Lemma AddVarNameToList_spec_witness :
  let '(i, v') := AddVarNameToList demo_vars "off" in
  vars_wf v' /\
  (i = IPS_OPTIONS_NO_VAR <->
     ("off"%string ∉ declared demo_vars) /\ extracted_values_cnt demo_vars = NUM_IPS_OPTIONS_VARS) /\
  (i <> IPS_OPTIONS_NO_VAR ->
     0 <= i < NUM_IPS_OPTIONS_VARS /\ GetVarByName v' (Some "off"%string) = i) /\
  (forall nm', nm' ∈ declared demo_vars ->
     GetVarByName v' (Some nm') = GetVarByName demo_vars (Some nm')).
Proof. apply (AddVarNameToList_spec demo_vars "off" demo_vars_wf). Defined.

(** [byte_extract] on a buffer: a bad byte order is -2, a byte outside
    the buffer -3, a count other than 1 to 4 is -1, and otherwise the value is
    the number those bytes denote in the byte order asked for; that number
    fits 32 bits. *)
Theorem byte_extract_spec e n buf ptr :
  bytes buf ->
  byte_extract e n buf ptr 0 (Zlen buf) =
    (if decide (endian_ok e) then
       if decide (grab_ok ptr n (Zlen buf)) then
         if decide (1 <= n <= 4)
         then inr ((if e =? ENDIAN_LITTLE then le_value else be_value) (slice buf ptr n))
         else inl (-1)
       else inl (-3)
     else inl (-2)) /\
  forall v, byte_extract e n buf ptr 0 (Zlen buf) = inr v -> is_u32 v.
Proof.
  intros Hb. split; [by apply byte_extract_eq|]. intros v. rewrite byte_extract_eq by done.
  do 3 (case_decide; [|done]). intros [= <-].
  pose proof (bytes_slice buf ptr n Hb) as Hs. apply value_range in Hs as [Hbe Hle].
  unfold grab_ok in *. rewrite Zlen_slice in Hbe, Hle by lia.
  pose proof (Z.pow_le_mono_r 256 n 4). unfold is_u32. case_match; lia.
Qed.

Lemma byte_extract_spec_witness :
  byte_extract ENDIAN_BIG 2 [1; 2; 3] 1 0 (Zlen [1; 2; 3]) =
    (if decide (endian_ok ENDIAN_BIG) then
       if decide (grab_ok 1 2 (Zlen [1; 2; 3])) then
         if decide (1 <= 2 <= 4)
         then inr ((if ENDIAN_BIG =? ENDIAN_LITTLE then le_value else be_value)
                     (slice [1; 2; 3] 1 2))
         else inl (-1)
       else inl (-3)
     else inl (-2)) /\
  forall v, byte_extract ENDIAN_BIG 2 [1; 2; 3] 1 0 (Zlen [1; 2; 3]) = inr v -> is_u32 v.
Proof. apply byte_extract_spec. repeat constructor; lia. Defined.

(** [string_extract] reads decimal text: [n] decimal digits (at most
    PARSELEN) at an in-bounds pointer are all consumed and give their decimal
    value, truncated to UINT32_MAX. *)
Theorem string_extract_decimal n buf ptr :
  0 <= ptr -> 1 <= n <= PARSELEN -> ptr + n <= Zlen buf ->
  Forall is_digit (slice buf ptr n) ->
  string_extract n 10 buf ptr 0 (Zlen buf) =
  inr (n, Z.min (dec_value (slice buf ptr n)) 4294967295).
Proof.
  intros Hp Hn Hlen Hd. unfold string_extract, inBounds, TEXTLEN, PARSELEN in *.
  bcases; try lia.
  assert (slice buf ptr n <> []) by (rewrite slice_cons by lia; done).
  rewrite cstring_digits, SnortStrToU32_dec by done. by rewrite Zlen_slice by lia.
Qed.

Lemma string_extract_decimal_witness :
  string_extract 3 10 [32; 49; 50; 51] 1 0 (Zlen [32; 49; 50; 51]) =
  inr (3, Z.min (dec_value (slice [32; 49; 50; 51] 1 3)) 4294967295).
Proof.
  apply string_extract_decimal; [lia|unfold PARSELEN; lia|vm_compute; congruence|].
  repeat constructor; vm_compute; congruence.
Defined.
