(* ===== verification/ParseUtils.v ===== *)
(** * ParseUtils: rule argument parsing (parser/parse_utils.cc) and the
    parameter values handed to the modules (framework/value.h)

    Text is a list of bytes.  [ParseError] only records an error (which makes
    the configuration fail later), so a parser's result carries a flag. *)

From S2P Require Import Prelude Extract.

Definition isdigit (c : Z) : bool := (48 <=? c) && (c <=? 57).
Definition isupper (c : Z) : bool := (65 <=? c) && (c <=? 90).
Definition isxdigit (c : Z) : bool :=
  isdigit c || ((65 <=? c) && (c <=? 70)) || ((97 <=? c) && (c <=? 102)).

Definition xton (c : Z) : Z :=
  if isdigit c then c - 48 else if isupper c then c - 65 + 10 else c - 97 + 10.

(** ** [parse_byte_code] *)

(** Local variables of the loop: [state] 0, 1, 2 or 4. *)
Record bc_state := BcState {
  bc_state_no : Z; bc_negate : bool; bc_hex : Z; bc_nx : Z; bc_out : list Z; bc_ok : bool }.

Definition bc_with_state s n := BcState n (bc_negate s) (bc_hex s) (bc_nx s) (bc_out s) (bc_ok s).
Definition bc_fail s := BcState (bc_state_no s) (bc_negate s) (bc_hex s) (bc_nx s) (bc_out s) false.

(** Case 2 and case 4 of the switch: inside the quotes, and inside [|..|]. *)
Definition bc_text (s : bc_state) (c : Z) : bc_state :=
  if c =? 124 then BcState 4 (bc_negate s) 0 0 (bc_out s) (bc_ok s)
  else BcState (bc_state_no s) (bc_negate s) (bc_hex s) (bc_nx s) (bc_out s ++ [c]) (bc_ok s).

Definition bc_bytes (s : bc_state) (c : Z) : bc_state :=
  if c =? 124 then
    BcState 2 (bc_negate s) (bc_hex s) (bc_nx s)
      (if truth (bc_nx s) then bc_out s ++ [bc_hex s] else bc_out s) (bc_ok s)
  else if isxdigit c then
    let '(out, hex, nx) := if bc_nx s >=? 2 then (bc_out s ++ [bc_hex s], 0, 0)
                           else (bc_out s, bc_hex s, bc_nx s) in
    BcState (bc_state_no s) (bc_negate s) (u8 (Z.shiftl hex 4 + xton c)) (nx + 1) out (bc_ok s)
  else if isspace c && truth (bc_nx s) then
    BcState (bc_state_no s) (bc_negate s) 0 0 (bc_out s ++ [bc_hex s]) (bc_ok s)
  else if negb (isspace c) then bc_fail s
  else s.

(** The loop over the characters not yet read.  On the opening quote the last
    character is dropped ([--len]). *)
Fixpoint bc_loop (fuel : nat) (s : bc_state) (rest : list Z) : bc_state :=
  match fuel, rest with
  | S fuel, c :: rest =>
      if negb (bc_ok s) then s else
      let quoted s := if (c =? 34) && (default c (last rest) =? 34)
                      then (bc_with_state s 2, removelast rest)
                      else if negb (isspace c) then (bc_fail s, rest) else (s, rest) in
      let '(s', rest') :=
        if bc_state_no s =? 0 then
          if c =? 33 then (BcState 1 true (bc_hex s) (bc_nx s) (bc_out s) (bc_ok s), rest)
          else quoted s
        else if bc_state_no s =? 1 then quoted s
        else if bc_state_no s =? 2 then (bc_text s c, rest)
        else (bc_bytes s c, rest) in
      bc_loop fuel s' rest'
  | _, _ => s
  end.

(** The result: [ok], [negate] and [out]. *)
Definition parse_byte_code (in_ : list Z) : bool * bool * list Z :=
  let s := bc_loop (length in_) (BcState 0 false 0 0 [] true) in_ in
  (bc_ok s, bc_negate s, bc_out s).

(** ** [parse_int] *)

(** [strtol (data, &end, 10)]: value (clamped), characters consumed, and
    whether [errno] is set to ERANGE. *)
Definition strtol10 (s : list Z) : Z * Z * bool :=
  let LONG_MAX := 9223372036854775807 in
  let sp := spaces s in
  let '(neg, sg, s2) := strip_sign (drop (Z.to_nat sp) s) in
  let '(v, n) := digits 10 s2 0 0 in
  if n =? 0 then (0, 0, false) else
  let v := if neg then - v else v in
  if v >? LONG_MAX then (LONG_MAX, sp + sg + n, true)
  else if v <? - LONG_MAX - 1 then (- LONG_MAX - 1, sp + sg + n, true)
  else (v, sp + sg + n, false).

(** [parse_int] with the default bounds: the value and whether no error was
    reported. *)
Definition parse_int (data : list Z) : Z * bool :=
  let '(l, n, erange) := strtol10 data in
  let value := s32 l in
  if negb (n =? Zlen data) then (value, false)
  else if erange then (value, false)
  else if (value >? 65535) || (value <? -65535) then (value, false)
  else (value, true).

(** ** Parameter values

    What [Module::set] receives: the parameter's name and its value as the
    accessors of [Value] return it. *)
Record Value := MkValue {
  v_name : string; get_long : Z; get_string : list Z; v_strtol : option Z }.

Definition v_is (v : Value) (s : string) : bool := String.eqb (v_name v) s.

Definition string_of_bytes (l : list Z) : string :=
  foldr (fun c s => String (Ascii.ascii_of_nat (Z.to_nat c)) s) EmptyString l.

(** ** Byte code written down and parsed back *)

(** A pattern is a sequence of text parts and of hex parts. *)
Inductive segment := Text (l : list Z) | Hex (l : list Z).

Definition hex_digit (d : Z) : Z := if d <? 10 then 48 + d else 55 + d.
Definition hex_byte (b : Z) : list Z := [hex_digit (b / 16); hex_digit (b mod 16); 32].
Definition print_segment (s : segment) : list Z :=
  match s with Text l => l | Hex l => 124 :: concat (map hex_byte l) ++ [124] end.
Definition segment_bytes (s : segment) : list Z := match s with Text l => l | Hex l => l end.
Definition segment_ok (s : segment) : Prop :=
  match s with Text l => Forall (fun c => c <> 124) l | Hex l => bytes l end.

Definition print_pattern (negate : bool) (l : list segment) : list Z :=
  (if negate then [33] else []) ++ 34 :: concat (map print_segment l) ++ [34].

Lemma hex_digit_spec d :
  0 <= d < 16 -> isxdigit (hex_digit d) = true /\ xton (hex_digit d) = d /\
    hex_digit d <> 124 /\ isspace (hex_digit d) = false.
Proof.
  intros Hd. assert (Hall : forall x, x ∈ [0;1;2;3;4;5;6;7;8;9;10;11;12;13;14;15] ->
    isxdigit (hex_digit x) = true /\ xton (hex_digit x) = x /\
    hex_digit x <> 124 /\ isspace (hex_digit x) = false).
  { apply Forall_forall. repeat constructor; vm_compute; congruence. }
  apply Hall. rewrite !elem_of_cons. lia.
Qed.

(** Characters read while inside the quotes (states 2 and 4). *)
Definition bc_inner (s : bc_state) (l : list Z) : bc_state :=
  fold_left (fun s c => if bc_state_no s =? 2 then bc_text s c else bc_bytes s c) l s.

Definition bc_step (s : bc_state) (c : Z) : bc_state :=
  if bc_state_no s =? 2 then bc_text s c else bc_bytes s c.

Lemma bc_inner_app s l k : bc_inner s (l ++ k) = bc_inner (bc_inner s l) k.
Proof. apply fold_left_app. Qed.

Lemma bc_step_inv s c :
  bc_state_no s = 2 \/ bc_state_no s = 4 ->
  (bc_state_no (bc_step s c) = 2 \/ bc_state_no (bc_step s c) = 4) /\
  (bc_ok (bc_step s c) = true -> bc_ok s = true).
Proof.
  intros Hs. unfold bc_step, bc_text, bc_bytes, bc_fail.
  repeat case_match; simpl; split; auto; done.
Qed.

Lemma bc_inner_ok s l :
  bc_state_no s = 2 \/ bc_state_no s = 4 -> bc_ok (bc_inner s l) = true -> bc_ok s = true.
Proof.
  revert s. induction l as [|c l IH]; intros s Hs Hok; [done|].
  destruct (bc_step_inv s c Hs) as [Hs' Hm]. apply Hm. by apply IH.
Qed.

Lemma bc_loop_inner fuel s l :
  (length l <= fuel)%nat -> bc_state_no s = 2 \/ bc_state_no s = 4 ->
  bc_ok (bc_inner s l) = true -> bc_loop fuel s l = bc_inner s l.
Proof.
  revert s l. induction fuel as [|fuel IH]; intros s [|c l] Hlen Hs Hok; simpl in *; try done; [lia|].
  pose proof (bc_inner_ok s (c :: l) Hs Hok) as Hoks. rewrite Hoks. simpl.
  destruct (bc_step_inv s c Hs) as [Hs' _]. fold (bc_step s c) in *.
  destruct Hs as [Hs|Hs]; rewrite Hs; simpl;
    (rewrite <- IH by (done || lia || by unfold bc_step in *; rewrite Hs in *));
    unfold bc_step; by rewrite Hs.
Qed.

(** The state inside the quotes after output [out]. *)
Definition in_text (neg : bool) (out : list Z) (s : bc_state) : Prop :=
  exists hex nx, s = BcState 2 neg hex nx out true.

Lemma bc_inner_text neg out s l :
  in_text neg out s -> Forall (fun c => c <> 124) l -> in_text neg (out ++ l) (bc_inner s l).
Proof.
  intros Hs Hl. revert out s Hs. induction Hl as [|c l Hc _ IH]; intros out s Hs; simpl.
  - by rewrite app_nil_r.
  - rewrite cons_middle, app_assoc. apply IH. destruct Hs as (hex & nx & ->).
    exists hex, nx. simpl. unfold bc_text. bcases; [lia|done].
Qed.

Lemma bc_step_digit neg out h nx d :
  0 <= h < 16 -> 0 <= d < 16 -> nx < 2 ->
  bc_step (BcState 4 neg h nx out true) (hex_digit d) =
  BcState 4 neg (16 * h + d) (nx + 1) out true.
Proof.
  intros Hh Hd Hnx. destruct (hex_digit_spec d Hd) as (X & N & D & S).
  unfold bc_step, bc_bytes. simpl. bcase (hex_digit d =? 124) as E; [done|].
  rewrite X, N. bcase (nx >=? 2) as E2; [lia|]. f_equal.
  rewrite Z.shiftl_mul_pow2 by lia. mlia.
Qed.

Lemma bc_inner_byte neg out b :
  is_u8 b ->
  bc_inner (BcState 4 neg 0 0 out true) (hex_byte b) = BcState 4 neg 0 0 (out ++ [b]) true.
Proof.
  intros Hb. unfold hex_byte.
  change (bc_step (bc_step (bc_step (BcState 4 neg 0 0 out true) (hex_digit (b / 16)))
                     (hex_digit (b mod 16))) 32 = BcState 4 neg 0 0 (out ++ [b]) true).
  rewrite !bc_step_digit by mlia. unfold bc_step. simpl. unfold bc_bytes. simpl.
  do 3 f_equal. mlia.
Qed.

Lemma bc_inner_bytes neg out l :
  bytes l ->
  bc_inner (BcState 4 neg 0 0 out true) (concat (map hex_byte l)) =
  BcState 4 neg 0 0 (out ++ l) true.
Proof.
  intros Hl. revert out. induction Hl as [|b l Hb _ IH]; intros out; simpl.
  - by rewrite app_nil_r.
  - change (bc_inner (BcState 4 neg 0 0 out true) (hex_byte b ++ concat (map hex_byte l)) =
            BcState 4 neg 0 0 (out ++ b :: l) true).
    rewrite bc_inner_app, bc_inner_byte, IH by done. by rewrite <- app_assoc.
Qed.

Lemma bc_inner_segment neg out s sg :
  in_text neg out s -> segment_ok sg ->
  in_text neg (out ++ segment_bytes sg) (bc_inner s (print_segment sg)).
Proof.
  intros Hs Hok. destruct sg as [l|l]; simpl in *; [by apply bc_inner_text|].
  destruct Hs as (hex & nx & ->).
  change (bc_inner _ _) with
    (bc_inner (BcState 4 neg 0 0 out true) (concat (map hex_byte l) ++ [124])).
  rewrite bc_inner_app, bc_inner_bytes by done. exists 0, 0. done.
Qed.

Lemma bc_inner_segments neg out s l :
  in_text neg out s -> Forall segment_ok l ->
  in_text neg (out ++ concat (map segment_bytes l)) (bc_inner s (concat (map print_segment l))).
Proof.
  intros Hs Hl. revert out s Hs. induction Hl as [|sg l Hsg _ IH]; intros out s Hs; simpl.
  - by rewrite app_nil_r.
  - rewrite bc_inner_app, app_assoc. by apply IH, bc_inner_segment.
Qed.

(** The opening quote. *)
Lemma bc_loop_open fuel neg st body :
  (length body <= fuel)%nat -> st = 0 \/ st = 1 ->
  bc_ok (bc_inner (BcState 2 neg 0 0 [] true) body) = true ->
  bc_loop (S fuel) (BcState st neg 0 0 [] true) (34 :: body ++ [34]) =
  bc_inner (BcState 2 neg 0 0 [] true) body.
Proof.
  intros Hf Hst Hok. cbn [bc_loop]. simpl (negb _).
  rewrite last_snoc, removelast_last. simpl.
  destruct Hst as [-> | ->]; simpl; apply bc_loop_inner; auto.
Qed.

(** Content patterns: a pattern written with text parts (without the
    bar character) and hex parts, in quotes and optionally negated, is parsed
    back to exactly its bytes and its negation. *)
Theorem parse_byte_code_roundtrip negate l :
  Forall segment_ok l ->
  parse_byte_code (print_pattern negate l) = (true, negate, concat (map segment_bytes l)).
Proof.
  intros Hl. unfold parse_byte_code, print_pattern.
  assert (forall neg, in_text neg (concat (map segment_bytes l))
    (bc_inner (BcState 2 neg 0 0 [] true) (concat (map print_segment l)))) as H.
  { intros neg. apply (bc_inner_segments neg [] _ l); [by exists 0, 0|done]. }
  destruct negate; [|specialize (H false)]; [specialize (H true)|].
  - destruct H as (hex & nx & H). set (body := concat (map print_segment l)) in *.
    change (bc_loop _ _ _) with
      (bc_loop (length (34 :: body ++ [34])) (BcState 1 true 0 0 [] true) (34 :: body ++ [34])).
    simpl length. rewrite bc_loop_open; [|rewrite length_app; lia|auto|by rewrite H].
    by rewrite H.
  - destruct H as (hex & nx & H). set (body := concat (map print_segment l)) in *.
    simpl app. simpl length.
    rewrite bc_loop_open; [|rewrite length_app; lia|auto|by rewrite H]. by rewrite H.
Qed.

Lemma parse_byte_code_roundtrip_witness :
  parse_byte_code (print_pattern true [Text [65; 66]; Hex [0; 255]; Text [67]]) =
  (true, true, concat (map segment_bytes [Text [65; 66]; Hex [0; 255]; Text [67]])).
Proof. apply parse_byte_code_roundtrip. repeat constructor; lia. Defined.

(** An unterminated hex part is accepted and its last byte is lost. *)
Example parse_byte_code_unterminated :
  parse_byte_code [34; 65; 124; 52; 50; 34] = (true, false, [65]).
Proof. reflexivity. Qed.
