(* ===== verification/MString.v ===== *)
(** * MString: splitting a string into tokens (parser/mstring.cc)

    [mSplit] cuts a string at separator characters, trims the tokens and leaves
    out empty ones; a meta character takes the meaning from the separator behind
    it.  Strings are lists of bytes without 0. *)

From S2P Require Import Prelude Extract.

Section Split.
Variable sep_chars : list Z.
Variable max_toks : Z.
Variable meta_char : Z.

Definition is_sep (c : Z) : bool := existsb (Z.eqb c) sep_chars.

(** The first loop of [mSplitAddTok]: the length of the token, and [got_meta]
    behind it. *)
Fixpoint tok_length (l : list Z) (got_meta : bool) : Z * bool :=
  match l with
  | [] => (0, got_meta)
  | c :: l =>
      if negb got_meta then
        if c =? meta_char then tok_length l true else let '(n, g) := tok_length l false in (n + 1, g)
      else let '(n, g) := tok_length l false in (n + (if is_sep c then 1 else 2), g)
  end.

(** The second loop: the characters written. *)
Fixpoint tok_chars (l : list Z) (got_meta : bool) : list Z :=
  match l with
  | [] => []
  | c :: l =>
      if negb got_meta then
        if c =? meta_char then tok_chars l true else c :: tok_chars l false
      else (if is_sep c then [c] else [meta_char; c]) ++ tok_chars l false
  end.

(** The second loop begins with the [got_meta] that the first one left.
    [None]: it writes more than was allocated, or over the end of the string. *)
Definition mSplitAddTok (l : list Z) : option (list Z) :=
  let '(tok_len, got_meta) := tok_length l false in
  let tok := tok_chars l got_meta in
  if Zlen tok <=? tok_len then Some tok else None.

(** Trailing whitespace is left out. *)
Definition rtrim (l : list Z) : list Z := rev (drop (Z.to_nat (spaces (rev l))) (rev l)).

(** Between tokens, or in a token with the characters so far. *)
Inductive place := Between | InTok (tok : list Z) (escaped : bool).

(** The main loop; [toks] are the tokens so far.  The first character of a later
    token is not looked at again.  [Some None] is a null pointer. *)
Fixpoint split_loop (l : list Z) (p : place) (toks : list (list Z)) : option (option (list (list Z))) :=
  match p, l with
  | Between, [] => Some (Some toks)
  | Between, c :: l' =>
      if isspace c || is_sep c then split_loop l' Between toks
      else if negb (max_toks =? 0) && (Zlen toks + 1 =? max_toks) then Some (Some (toks ++ [rtrim l]))
      else split_loop l' (InTok [c] false) toks
  | InTok tok escaped, [] =>
      if escaped then Some None else t ← mSplitAddTok (rtrim tok); Some (Some (toks ++ [t]))
  | InTok tok escaped, c :: l' =>
      if negb escaped then
        if c =? meta_char then split_loop l' (InTok (tok ++ [c]) true) toks
        else if negb (is_sep c) then split_loop l' (InTok (tok ++ [c]) false) toks
        else t ← mSplitAddTok (rtrim tok); split_loop l' Between (toks ++ [t])
      else split_loop l' (InTok (tok ++ [c]) false) toks
  end.

(** Initial separators and whitespace. *)
Fixpoint skip_seps (l : list Z) : list Z :=
  match l with
  | [] => []
  | c :: l' => if isspace c || is_sep c then skip_seps l' else l
  end.

(** The tokens, [Some None] for a null pointer; [None]: memory is overwritten. *)
Definition mSplit (str : list Z) : option (option (list (list Z))) :=
  if Zlen str =? 0 then Some None
  else if existsb (Z.eqb meta_char) sep_chars then Some None
  else
    match skip_seps str with
    | [] => Some None
    | str => if 1 =? max_toks then Some (Some [str]) else split_loop str (InTok [] false) []
    end.
End Split.

(** ** What a string is split into *)

Section Tokens.
Variable sep_chars : list Z.
Abbreviation sep := (is_sep sep_chars).
Abbreviation loop := (split_loop sep_chars 0 0).

Definition blank (c : Z) : bool := isspace c || sep c.

(** A token as it is found: trimmed, without separators. *)
Definition token (t : list Z) : Prop :=
  (exists c r, t = c :: r /\ isspace c = false) /\ (exists c r, t = r ++ [c] /\ isspace c = false) /\
  Forall (fun c => sep c = false /\ c <> 0) t.

(** What stands between two tokens, and around them. *)
Definition gap (g : list Z) : Prop := Forall (fun c => blank c = true /\ c <> 0) g /\ Exists (fun c => sep c = true) g.
Definition padding (g : list Z) : Prop := Forall (fun c => blank c = true /\ c <> 0) g.

Fixpoint joined (tgs : list (list Z * list Z)) (t : list Z) : list Z :=
  match tgs with [] => t | (t', g) :: tgs => t' ++ g ++ joined tgs t end.

Lemma rtrim_spaces t w : (exists c r, t = r ++ [c] /\ isspace c = false) -> Forall (fun c => isspace c = true) w -> rtrim (t ++ w) = t.
Proof.
  intros (c & r & -> & Hc) Hw. unfold rtrim. rewrite !rev_app_distr. cbn [rev app].
  assert (forall w l, Forall (fun c => isspace c = true) w -> spaces (w ++ c :: l) = Zlen w) as Hs.
  { clear -Hc. intros w l Hw. induction Hw as [|x w Hx Hw IH]; cbn [app spaces]; [by rewrite Hc|]. rewrite Hx, IH, Zlen_cons. done. }
  rewrite Hs by (by apply List.Forall_rev). unfold Zlen. rewrite Nat2Z.id, drop_app_length. cbn [rev]. by rewrite rev_involutive.
Qed.

Lemma tok_plain l : Forall (fun c => c <> 0) l -> mSplitAddTok sep_chars 0 l = Some l.
Proof.
  intros Hl. unfold mSplitAddTok.
  assert (tok_length sep_chars 0 l false = (Zlen l, false) /\ tok_chars sep_chars 0 l false = l) as [-> ->].
  { induction Hl as [|c l Hc Hl [IH1 IH2]]; [done|]. cbn [tok_length tok_chars negb]. rewrite (proj2 (Z.eqb_neq c 0) Hc), IH1, IH2, Zlen_cons.
    split; [f_equal; lia|done]. }
  by rewrite Z.leb_refl.
Qed.

Lemma loop_token t rest tok toks : Forall (fun c => sep c = false /\ c <> 0) t ->
  loop (t ++ rest) (InTok tok false) toks = loop rest (InTok (tok ++ t) false) toks.
Proof.
  intros Ht. revert tok; induction Ht as [|c t [Hs Hc] Ht IH]; intros tok; [by rewrite app_nil_r|].
  cbn [app split_loop negb]. rewrite (proj2 (Z.eqb_neq c 0) Hc), Hs. cbn [negb]. rewrite IH. by rewrite <- app_assoc.
Qed.

Lemma loop_between g rest toks : padding g -> loop (g ++ rest) Between toks = loop rest Between toks.
Proof.
  intros Hg. induction Hg as [|c g [Hb _] Hg IH]; [done|]. cbn [app split_loop]. unfold blank in Hb. by rewrite Hb.
Qed.

Lemma token_plain t : token t -> Forall (fun c => c <> 0) t.
Proof. intros (_ & _ & H). eapply Forall_impl; [exact H|]. by intros ? []. Qed.

(** Blanks at the end of a token, up to the first separator. *)
Lemma gap_split g : gap g -> exists w s g', g = w ++ s :: g' /\ Forall (fun c => (isspace c = true /\ sep c = false) /\ c <> 0) w /\
  sep s = true /\ s <> 0 /\ padding g'.
Proof.
  intros [Hf He]. induction g as [|c g IH]; [by inversion He|]. apply Forall_cons in Hf as [[Hb Hc] Hf].
  destruct (sep c) eqn:E.
  - by exists [], c, g.
  - apply Exists_cons in He as [He|He]; [congruence|]. destruct (IH Hf He) as (w & s & g' & -> & Hw & Hs & Hs0 & Hg').
    exists (c :: w), s, g'. split_and!; try done. constructor; [|done]. unfold blank in Hb. rewrite E, orb_false_r in Hb. done.
Qed.

Lemma loop_gap t g rest toks : token t -> gap g ->
  loop (g ++ rest) (InTok t false) toks = loop rest Between (toks ++ [t]).
Proof.
  intros Ht (w & s & g' & -> & Hw & Hs & Hs0 & Hg')%gap_split. rewrite <- app_assoc. cbn [app].
  rewrite loop_token by (eapply Forall_impl; [exact Hw|]; by intros ? [[_ ?] ?]). cbn [split_loop negb].
  rewrite (proj2 (Z.eqb_neq s 0) Hs0), Hs. cbn [negb]. rewrite rtrim_spaces; [|apply Ht|eapply Forall_impl; [exact Hw|]; by intros ? [[? _] _]].
  rewrite tok_plain by (by apply token_plain). cbn. by apply loop_between.
Qed.

(** What may follow the last token. *)
Definition trailer (w : list Z) : Prop := Forall (fun c => (isspace c = true /\ sep c = false) /\ c <> 0) w \/ gap w.

Lemma loop_start t rest toks : token t -> loop (t ++ rest) Between toks = loop rest (InTok t false) toks.
Proof.
  intros ((c & r & -> & Hc) & _ & Hf). cbn [app split_loop]. apply Forall_cons in Hf as [[Hs _] Hf].
  rewrite Hc, Hs. cbn [orb negb andb Z.eqb]. by rewrite loop_token.
Qed.

Lemma loop_end t w toks : token t -> trailer w -> loop w (InTok t false) toks = Some (Some (toks ++ [t])).
Proof.
  intros Ht [Hw|Hw]; rewrite <- (app_nil_r w); [|by rewrite loop_gap].
  rewrite loop_token by (eapply Forall_impl; [exact Hw|]; by intros ? [[_ ?] ?]). cbn [split_loop].
  rewrite rtrim_spaces; [|apply Ht|eapply Forall_impl; [exact Hw|]; by intros ? [[? _] _]].
  by rewrite tok_plain by (by apply token_plain).
Qed.

Lemma loop_joined tgs t w toks : Forall (fun tg => token tg.1 /\ gap tg.2) tgs -> token t -> trailer w ->
  loop (joined tgs t ++ w) Between toks = Some (Some (toks ++ (tgs.*1 ++ [t]))).
Proof.
  intros Htgs Ht Hw. revert toks; induction Htgs as [|[t' g] tgs [Ht' Hg] Htgs IH]; intros toks; cbn [joined fmap list_fmap fst].
  - by rewrite loop_start, loop_end.
  - rewrite <- app_assoc, loop_start by done. rewrite <- app_assoc, loop_gap by done. rewrite IH, <- app_assoc. done.
Qed.

(** The tokens come back, whatever separators and whitespace stand around and
    between them. *)
Lemma mSplit_joined pad tgs t w :
  existsb (Z.eqb 0) sep_chars = false ->
  padding pad -> Forall (fun tg => token tg.1 /\ gap tg.2) tgs -> token t -> trailer w ->
  mSplit sep_chars 0 0 (pad ++ joined tgs t ++ w) = Some (Some (tgs.*1 ++ [t])).
Proof.
  intros H0 Hp Htgs Ht Hw.
  assert (exists c r, joined tgs t = c :: r /\ blank c = false /\ c <> 0) as (c & r & E & Hc & Hc0).
  { assert (forall t' rest, token t' -> exists c r, t' ++ rest = c :: r /\ blank c = false /\ c <> 0) as Hhd.
    { intros t' rest ((c & r & -> & Hc) & _ & Hf). apply Forall_cons in Hf as [[Hs H] _]. exists c, (r ++ rest).
      unfold blank. by rewrite Hc, Hs. }
    destruct tgs as [|[t' g] tgs]; cbn [joined]; [destruct (Hhd t [] Ht) as (c & r & E & ?); rewrite app_nil_r in E; eauto|].
    apply Forall_cons in Htgs as [[Ht' _] _]. by apply Hhd. }
  assert (skip_seps sep_chars (pad ++ joined tgs t ++ w) = joined tgs t ++ w) as Hskip.
  { clear -Hp E Hc. induction Hp as [|x pad [Hx _] Hp IH]; cbn [app skip_seps]; [|unfold blank in Hx; by rewrite Hx].
    rewrite E. cbn [app skip_seps]. unfold blank in Hc. by rewrite Hc. }
  unfold mSplit. rewrite H0, Hskip. rewrite (proj2 (Z.eqb_neq _ _)).
  2: { rewrite E, !Zlen_app. cbn [app]. rewrite Zlen_cons. pose proof (Zlen_nonneg pad). pose proof (Zlen_nonneg r). pose proof (Zlen_nonneg w). lia. }
  rewrite <- (app_nil_l (tgs.*1 ++ [t])), <- (loop_joined tgs t w [] Htgs Ht Hw), E. cbn [app split_loop Z.eqb negb andb].
  unfold blank in Hc. apply orb_false_iff in Hc as [Hc1 Hc2]. by rewrite Hc1, Hc2, (proj2 (Z.eqb_neq c 0) Hc0).
Qed.
End Tokens.

(** The first character of a later token is not looked at, so the separator
    behind a meta character there is not escaped; and [mSplitAddTok] writes more
    than it allocated for a token that ends with the meta character: "\,b,a" is
    split as it should, "a,\,b" is not. *)
Theorem meta_character_overflow :
  mSplit [44] 0 92 [92; 44; 98; 44; 97] = Some (Some [[44; 98]; [97]]) /\
  mSplit [44] 0 92 [97; 44; 92; 44; 98] = None.
Proof. split; reflexivity. Qed.
