(* ===== verification/Content.v ===== *)
(** * Content: the [content] rule option (ips_options/ips_content.cc,
    detection/pattern_match_data.h)

    The configuration ([ContentData] with its [PatternMatchData]), its
    parsing, the search [uniSearchReal] and the option's evaluation.  [int]
    arithmetic wraps in two's complement; the search functions are those of
    BoyerMoore and keep their [option] (which is never [None]). *)

From S2P Require Import Prelude BoyerMoore Cursor Extract ParseUtils.

(** ** [PatternMatchData] *)

Record PatternMatchData := MkPmd {
  pattern_buf : list Z; pattern_size : Z; offset : Z; depth : Z;
  flags : Z; fp_offset : Z; fp_length : Z }.

Definition NEGATED : Z := 1.
Definition NO_CASE : Z := 2.
Definition RELATIVE : Z := 4.
Definition LITERAL : Z := 8.
Definition FAST_PAT : Z := 16.
Definition NO_FP : Z := 32.

Definition set_flag (p : PatternMatchData) (f : Z) : PatternMatchData :=
  MkPmd (pattern_buf p) (pattern_size p) (offset p) (depth p) (Z.lor (flags p) f)
    (fp_offset p) (fp_length p).
Definition has_flag (p : PatternMatchData) (f : Z) : bool := negb (Z.land (flags p) f =? 0).

Definition set_fast_pattern p := set_flag p FAST_PAT.
Definition set_negated p := set_flag p NEGATED.
Definition set_no_case p := set_flag p NO_CASE.
Definition set_relative p := set_flag p RELATIVE.
Definition set_literal p := set_flag p LITERAL.
Definition is_negated p := has_flag p NEGATED.
Definition is_no_case p := has_flag p NO_CASE.
Definition is_relative p := has_flag p RELATIVE.
Definition is_literal p := has_flag p LITERAL.
Definition is_fast_pattern p := has_flag p FAST_PAT.

Definition can_be_fp (p : PatternMatchData) : bool :=
  if bool_decide (pattern_buf p = []) || (pattern_size p =? 0) then false
  else if truth (Z.land (flags p) NO_FP) then false
  else if negb (is_negated p) then true
  else if is_relative p || negb (is_no_case p) || truth (offset p) || truth (depth p) then false
  else true.

(** ** [ContentData] *)

Record ContentData := MkContent {
  pmd : PatternMatchData; offset_var : Z; depth_var : Z; match_delta : Z;
  skip_stride : list Z; shift_stride : list Z }.

Definition with_pmd (cd : ContentData) (p : PatternMatchData) : ContentData :=
  MkContent p (offset_var cd) (depth_var cd) (match_delta cd) (skip_stride cd) (shift_stride cd).
Definition with_offset (cd : ContentData) (o v : Z) : ContentData :=
  let p := pmd cd in
  MkContent (MkPmd (pattern_buf p) (pattern_size p) o (depth p) (flags p) (fp_offset p) (fp_length p))
    v (depth_var cd) (match_delta cd) (skip_stride cd) (shift_stride cd).
Definition with_depth (cd : ContentData) (d v : Z) : ContentData :=
  let p := pmd cd in
  MkContent (MkPmd (pattern_buf p) (pattern_size p) (offset p) d (flags p) (fp_offset p) (fp_length p))
    (offset_var cd) v (match_delta cd) (skip_stride cd) (shift_stride cd).

(** [ContentModule::begin]: zeroed memory, then [init]. *)
Definition content_begin : ContentData :=
  MkContent (MkPmd [] 0 0 0 0 0 0) IPS_OPTIONS_NO_VAR IPS_OPTIONS_NO_VAR 0 [] [].

Definition setup_bm (cd : ContentData) : ContentData :=
  MkContent (pmd cd) (offset_var cd) (depth_var cd) (match_delta cd)
    (make_skip (pattern_buf (pmd cd))) (make_shift (pattern_buf (pmd cd))).

(** The loop of [set_max_jump_size] from index [i], with [rest] the pattern
    from there on; the result is [match_delta]. *)
Fixpoint jump_loop (buf rest : list Z) (i j : Z) : Z :=
  match rest with
  | [] => Zlen buf
  | c :: rest =>
      if negb (rd0 buf j =? c) then jump_loop buf rest (i + 1) 0
      else if i =? Zlen buf - 1 then Zlen buf - j - 1
      else jump_loop buf rest (i + 1) (j + 1)
  end.

Definition set_max_jump_size (cd : ContentData) : ContentData :=
  let buf := pattern_buf (pmd cd) in
  MkContent (pmd cd) (offset_var cd) (depth_var cd) (jump_loop buf (drop 1 buf) 1 0)
    (skip_stride cd) (shift_stride cd).

(** ** Parsing *)

Definition CMF_DISTANCE : Z := 1.
Definition CMF_WITHIN : Z := 2.
Definition CMF_OFFSET : Z := 4.
Definition CMF_DEPTH : Z := 8.
Definition BAD_DISTANCE : Z := Z.lor (Z.lor CMF_DISTANCE CMF_OFFSET) CMF_DEPTH.
Definition BAD_WITHIN : Z := Z.lor (Z.lor CMF_WITHIN CMF_OFFSET) CMF_DEPTH.
Definition BAD_OFFSET : Z := Z.lor (Z.lor CMF_OFFSET CMF_DISTANCE) CMF_WITHIN.
Definition BAD_DEPTH : Z := Z.lor (Z.lor CMF_DEPTH CMF_DISTANCE) CMF_WITHIN.

Definition GetCMF (cd : ContentData) : Z :=
  let cmf := 0 in
  let cmf := if negb (offset (pmd cd) =? 0) || negb (offset_var cd =? -1)
             then Z.lor cmf CMF_OFFSET else cmf in
  if negb (depth (pmd cd) =? 0) || negb (depth_var cd =? -1)
  then Z.lor cmf CMF_DEPTH else cmf.

(** Each parser returns the data and whether no [ParseError] was raised. *)
Definition parse_content (cd : ContentData) (rule : list Z) : ContentData * bool :=
  let '(ok, negated, buf) := parse_byte_code rule in
  if negb ok then (cd, false) else
  let p := pmd cd in
  let p := MkPmd buf (Zlen buf) (offset p) (depth p) (flags p) (fp_offset p) (fp_length p) in
  let p := set_literal p in
  let p := if negated then set_negated p else p in
  (set_max_jump_size (with_pmd cd p), true).

Definition numeric (data : list Z) : bool :=
  match data with c :: _ => isdigit c || (c =? 45) | [] => false end.

Section parsers.
Variable vars : ips_vars.

Definition parse_offset (cd : ContentData) (data : list Z) : ContentData * bool :=
  if truth (Z.land (GetCMF cd) BAD_OFFSET) && is_relative (pmd cd) then (cd, false) else
  if numeric data then
    let '(v, ok) := parse_int data in (with_offset cd v IPS_OPTIONS_NO_VAR, ok)
  else
    let i := GetVarByName vars (Some (string_of_bytes data)) in
    (with_offset cd (offset (pmd cd)) i, negb (i =? IPS_OPTIONS_NO_VAR)).

Definition parse_depth (cd : ContentData) (data : list Z) : ContentData * bool :=
  if truth (Z.land (GetCMF cd) BAD_DEPTH) && is_relative (pmd cd) then (cd, false) else
  if numeric data then
    let '(v, ok) := parse_int data in
    if v <? s32 (pattern_size (pmd cd)) then (with_depth cd v (depth_var cd), false)
    else (with_depth cd v IPS_OPTIONS_NO_VAR, ok)
  else
    let i := GetVarByName vars (Some (string_of_bytes data)) in
    (with_depth cd (depth (pmd cd)) i, negb (i =? IPS_OPTIONS_NO_VAR)).

Definition make_relative (r : ContentData * bool) : ContentData * bool :=
  (with_pmd r.1 (set_relative (pmd r.1)), r.2).

Definition parse_distance (cd : ContentData) (data : list Z) : ContentData * bool :=
  if truth (Z.land (GetCMF cd) BAD_DISTANCE) && negb (is_relative (pmd cd)) then (cd, false) else
  if numeric data then
    let '(v, ok) := parse_int data in make_relative (with_offset cd v IPS_OPTIONS_NO_VAR, ok)
  else
    let i := GetVarByName vars (Some (string_of_bytes data)) in
    let cd := with_offset cd (offset (pmd cd)) i in
    if i =? IPS_OPTIONS_NO_VAR then (cd, false) else make_relative (cd, true).

Definition parse_within (cd : ContentData) (data : list Z) : ContentData * bool :=
  if truth (Z.land (GetCMF cd) BAD_WITHIN) && negb (is_relative (pmd cd)) then (cd, false) else
  if numeric data then
    let '(v, ok) := parse_int data in
    if v <? s32 (pattern_size (pmd cd)) then (with_depth cd v (depth_var cd), false)
    else make_relative (with_depth cd v IPS_OPTIONS_NO_VAR, ok)
  else
    let i := GetVarByName vars (Some (string_of_bytes data)) in
    let cd := with_depth cd (depth (pmd cd)) i in
    if i =? IPS_OPTIONS_NO_VAR then (cd, false) else make_relative (cd, true).

(** [ContentModule::set]: [None] is a parameter the option does not have. *)
Definition content_set (cd : ContentData) (v : Value) : option (ContentData * bool) :=
  let p := pmd cd in
  if v_is v "~data" then Some (parse_content cd (get_string v))
  else if v_is v "offset" then Some (parse_offset cd (get_string v))
  else if v_is v "depth" then Some (parse_depth cd (get_string v))
  else if v_is v "distance" then Some (parse_distance cd (get_string v))
  else if v_is v "within" then Some (parse_within cd (get_string v))
  else if v_is v "nocase" then Some (with_pmd cd (set_no_case p), true)
  else if v_is v "fast_pattern" then Some (with_pmd cd (set_fast_pattern p), true)
  else if v_is v "fast_pattern_offset" then
    Some (with_pmd cd (set_fast_pattern
      (MkPmd (pattern_buf p) (pattern_size p) (offset p) (depth p) (flags p)
         (u16 (get_long v)) (fp_length p))), true)
  else if v_is v "fast_pattern_length" then
    Some (with_pmd cd (set_fast_pattern
      (MkPmd (pattern_buf p) (pattern_size p) (offset p) (depth p) (flags p)
         (fp_offset p) (u16 (get_long v)))), true)
  else None.
End parsers.

(** [ContentModule::end]: [None] is [return false]. *)
Definition content_end (cd : ContentData) : option ContentData :=
  let p := pmd cd in
  if s32 (pattern_size p) <=? fp_offset p then None else
  if s32 (pattern_size p) <? fp_offset p + fp_length p then None else
  let p := if is_no_case p
           then MkPmd (map toupper (pattern_buf p)) (pattern_size p) (offset p) (depth p)
                  (flags p) (fp_offset p) (fp_length p)
           else p in
  Some (setup_bm (with_pmd cd p)).

(** ** Evaluation *)

(** [ContentOption::retry] *)
Definition retry (cd : ContentData) (c : Cursor) : bool :=
  if is_negated (pmd cd) then false else
  if depth (pmd cd) =? 0 then true else
  let min := u32 (delta c + pattern_size (pmd cd)) in
  let max := u32 (delta c - match_delta cd + offset (pmd cd) + depth (pmd cd)) in
  min <=? max.

(** Where [uniSearchReal] starts and how far it looks: [pos] and [depth]. *)
Definition search_window (v : ips_vars) (cd : ContentData) (c : Cursor) : Z * Z :=
  let offset := s32 (var_or v (offset_var cd) (offset (pmd cd))) in
  let depth := s32 (var_or v (depth_var cd) (depth (pmd cd))) in
  let p := s32 (delta c) in
  let p := if p =? 0 then
             s32 ((if is_relative (pmd cd) then s32 (pos c) else p) + offset)
           else p in
  let p := if p <? 0 then 0 else p in
  let len := s32 (u32 (sz c - p)) in
  (p, if (depth =? 0) || (len <? depth) then len else depth).

(** [uniSearchReal]: 1 found, 0 not found, -1 out of bounds. *)
Definition uniSearchReal (v : ips_vars) (cd : ContentData) (c : Cursor) : option (Z * Cursor) :=
  let '(p, depth) := search_window v cd c in
  let n := pattern_size (pmd cd) in
  let end_ := u32 (p + n) in
  if (end_ >? sz c) || (s32 end_ >? s32 (p + depth)) then
    if is_negated (pmd cd) && (depth >? 0) then Some (0, c) else Some (-1, c)
  else
    let search := if is_no_case (pmd cd) then mSearchCI else mSearch in
    match search (drop (Z.to_nat p) (data c)) depth (pattern_buf (pmd cd))
            (skip_stride cd) (shift_stride cd) with
    | None => None
    | Some found =>
        if found >=? 0 then
          let at_ := p + found in
          let c := (set_delta c (at_ + match_delta cd)).2 in
          let c := (set_pos c (at_ + n)).2 in
          Some (1, c)
        else Some (0, c)
    end.

(** [CheckANDPatternMatch], which is the option's [eval]. *)
Definition CheckANDPatternMatch (v : ips_vars) (idx : ContentData) (c : Cursor)
    : option (EvalStatus * Cursor) :=
  match uniSearchReal v idx c with
  | None => None
  | Some (found, c) =>
      let found := if found =? -1 then 0 else Z.lxor found (b2z (is_negated (pmd idx))) in
      Some (if truth found then MATCH else NO_MATCH, c)
  end.

(** ** The search finds the first occurrence in its window *)

(** What [content_set] and [content_end] establish. *)
Record content_ok (cd : ContentData) : Prop := {
  co_bytes : bytes (pattern_buf (pmd cd));
  co_size : pattern_size (pmd cd) = Zlen (pattern_buf (pmd cd));
  co_nonempty : pattern_buf (pmd cd) <> [];
  co_skip : skip_stride cd = make_skip (pattern_buf (pmd cd));
  co_shift : shift_stride cd = make_shift (pattern_buf (pmd cd)) }.

(** How a buffer character is compared. *)
Definition norm_of (cd : ContentData) : Z -> Z :=
  if is_no_case (pmd cd) then toupper else fun c => c.

(** The bytes searched and the place of the first occurrence in them. *)
Definition first_in_window (cd : ContentData) (c : Cursor) (p d r : Z) : Prop :=
  first_occurrence (norm_of cd) (drop (Z.to_nat p) (data c)) d (pattern_buf (pmd cd)) r.

(** Sizes small enough for [int]. *)
Definition small (cd : ContentData) (c : Cursor) : Prop :=
  sz c < 2 ^ 29 /\ Zlen (pattern_buf (pmd cd)) < 2 ^ 29 /\ 0 <= match_delta cd < 2 ^ 29.

Lemma s32_of_u32 z : is_s32 z -> s32 (u32 z) = z.
Proof. mlia. Qed.

Lemma search_window_spec v cd c p d :
  cursor_wf c -> sz c < 2 ^ 29 -> search_window v cd c = (p, d) ->
  0 <= p < 2 ^ 31 /\ d <= sz c - p /\ is_s32 d.
Proof.
  intros [Hsz _ _ Hpos Hdel] Hs Hw. unfold search_window in Hw.
  set (off := s32 (var_or v (offset_var cd) _)) in Hw.
  set (dep := s32 (var_or v (depth_var cd) _)) in Hw.
  set (p0 := if s32 (delta c) =? 0 then _ else _) in Hw.
  assert (is_s32 p0) as Hp0.
  { subst p0. bcases; apply s32_range. }
  set (p1 := if p0 <? 0 then 0 else p0) in Hw.
  assert (0 <= p1 < 2 ^ 31) as Hp1 by (subst p1; unfold is_s32 in Hp0; bcases; lia).
  assert (is_s32 dep) as Hdep by apply s32_range.
  clearbody p1 off dep. clear p0 Hp0.
  assert (is_s32 (sz c - p1)) as Hr by (unfold is_s32; lia).
  rewrite s32_of_u32 in Hw by done. injection Hw as -> <-.
  split_and!; [lia..| |]; bcases; breflect; done || lia.
Qed.

(** [uniSearchReal] as a function of the first occurrence [r]. *)
Lemma uniSearchReal_eq v cd c p d :
  content_ok cd -> cursor_wf c -> small cd c -> search_window v cd c = (p, d) ->
  exists r, first_in_window cd c p d r /\ uniSearchReal v cd c =
    Some (if r >=? 0 then
            (1, (set_pos (set_delta c (p + r + match_delta cd)).2
                   (p + r + Zlen (pattern_buf (pmd cd)))).2)
          else (if (Zlen (pattern_buf (pmd cd)) <=? d) || is_negated (pmd cd) && (d >? 0)
                then 0 else -1, c)).
Proof.
  intros [Hb Hsize Hne Hsk Hsh] Hwf (Hs1 & Hs2 & Hs3) Hw.
  destruct (search_window_spec v cd c p d Hwf Hs1 Hw) as (Hp & Hd & Hr).
  assert (0 < Zlen (pattern_buf (pmd cd))) as Hn
    by (unfold Zlen; destruct (pattern_buf (pmd cd)); [done|simpl; lia]).
  pose proof (wf_sz _ Hwf) as Hsz.
  unfold uniSearchReal, first_in_window. rewrite Hw, Hsize, Hsk, Hsh.
  set (pat := pattern_buf (pmd cd)) in *. set (n := Zlen pat) in *.
  assert (u32 (p + n) = p + n) as -> by mlia.
  assert ((p + n >? sz c) || (s32 (p + n) >? s32 (p + d)) = negb (n <=? d)) as ->.
  { destruct (Z.le_gt_cases p (sz c)).
    - unfold is_s32 in Hr. rewrite !s32_small by (unfold is_s32; lia). lia.
    - bcase (p + n >? sz c) as E; simpl; lia. }
  bcase (n <=? d) as E; simpl negb; cbv iota.
  - assert (exists r, (if is_no_case (pmd cd) then mSearchCI else mSearch)
        (drop (Z.to_nat p) (data c)) d pat (make_skip pat) (make_shift pat) = Some r /\
        first_occurrence (norm_of cd) (drop (Z.to_nat p) (data c)) d pat r) as (r & -> & Hf).
    { unfold norm_of. assert (bytes (drop (Z.to_nat p) (data c)))
        by (apply Forall_drop, (wf_bytes _ Hwf)).
      destruct (is_no_case (pmd cd)); apply bm_search_first; auto using toupper_u8. }
    exists r. split; [done|]. simpl. by bcases.
  - exists (-1). split.
    + left. split; [done|]. intros k (? & Hk & _). fold n in Hk. lia.
    + simpl. by bcases.
Qed.

Lemma cursor_after_match_wf c a b : cursor_wf c -> cursor_wf (set_pos (set_delta c a).2 b).2.
Proof. auto with mach. Qed.

(** ** How far a repeated search may jump *)

(** [k] is a period of the pattern: shifted by [k] it agrees with itself. *)
Definition is_period (l : list Z) (k : Z) : Prop :=
  0 < k /\ forall j, 0 <= j -> j + k < Zlen l -> rd0 l j = rd0 l (j + k).

Lemma jump_loop_spec buf rest i j :
  0 <= j < i -> rest = drop (Z.to_nat i) buf -> i <= Zlen buf ->
  (forall k, 0 <= k < j -> rd0 buf k = rd0 buf (i - j + k)) ->
  let d := jump_loop buf rest i j in
  0 <= d <= Zlen buf /\ (d = Zlen buf \/ is_period buf d).
Proof.
  revert i j. induction rest as [|c rest IH]; intros i j Hj Hrest Hi Hper; simpl.
  - pose proof (Zlen_nonneg buf). split; [lia|by left].
  - assert (rd0 buf i = c /\ rest = drop (Z.to_nat (i + 1)) buf /\ i < Zlen buf) as (Hc & Hr & Hlt).
    { by apply drop_cons_inv; [lia|]. }
    bcase (rd0 buf j =? c) as E; simpl.
    + bcase (i =? Zlen buf - 1) as E2.
      * split; [lia|]. right. split; [lia|]. intros k Hk Hk2.
        destruct (Z.eq_dec k j) as [->|].
        -- rewrite E, <- Hc. f_equal. lia.
        -- rewrite Hper by lia. f_equal. lia.
      * apply IH; [lia|done|lia|]. intros k Hk. destruct (Z.eq_dec k j) as [->|].
        -- rewrite E, <- Hc. f_equal. lia.
        -- rewrite Hper by lia. f_equal. lia.
    + apply IH; [lia|done|lia|]. intros k Hk. lia.
Qed.

(** ** Configuration establishes [content_ok] *)

Lemma bc_loop_bytes fuel s rest :
  bytes rest -> bytes (bc_out s) -> is_u8 (bc_hex s) -> bytes (bc_out (bc_loop fuel s rest)).
Proof.
  revert s rest. induction fuel as [|fuel IH]; intros s rest Hr Ho Hh; [by destruct rest|].
  destruct rest as [|c rest]; [done|]. apply Forall_cons_1 in Hr as [Hc Hr]. cbn [bc_loop].
  bcase (negb (bc_ok s)) as E; [done|].
  assert (bytes (removelast rest)) as Hrl.
  { destruct rest as [|x l _] using rev_ind; [done|]. rewrite removelast_last.
    by apply Forall_app in Hr as [? _]. }
  assert (bytes (bc_out s ++ [c])) by (apply Forall_app; auto using Forall_cons, Forall_nil).
  assert (bytes (bc_out s ++ [bc_hex s])) by (apply Forall_app; auto using Forall_cons, Forall_nil).
  unfold bc_text, bc_bytes, bc_with_state, bc_fail.
  repeat case_match; simplify_eq; apply IH; simpl; auto using u8_range; unfold is_u8; lia.
Qed.

Lemma parse_byte_code_bytes l : bytes l -> bytes (parse_byte_code l).2.
Proof. intros H. unfold parse_byte_code. simpl. apply bc_loop_bytes; simpl; [done|constructor|]. unfold is_u8. lia. Qed.

(** The part of [content_ok] that holds while parsing. *)
Definition parsing_ok (cd : ContentData) : Prop :=
  bytes (pattern_buf (pmd cd)) /\ pattern_size (pmd cd) = Zlen (pattern_buf (pmd cd)) /\
  0 <= fp_offset (pmd cd) /\ 0 <= fp_length (pmd cd).

Lemma content_set_ok vars cd v cd' b :
  parsing_ok cd -> bytes (get_string v) -> content_set vars cd v = Some (cd', b) -> parsing_ok cd'.
Proof.
  intros (Hb & Hs & Hfo & Hfl) Hv H. pose proof (parse_byte_code_bytes _ Hv) as Hp.
  pose proof (u16_range (get_long v)) as [Hu _].
  unfold content_set, parse_content, parse_offset, parse_depth, parse_distance, parse_within,
    make_relative in H.
  destruct (parse_byte_code (get_string v)) as [[ok neg] out]. simpl in Hp.
  repeat case_match; simplify_eq; unfold parsing_ok; simpl; auto.
Qed.

(** [ContentModule]: [begin], then one [set] per parameter, then [end]. *)
Fixpoint content_sets (vars : ips_vars) (cd : ContentData) (vs : list Value) : option ContentData :=
  match vs with
  | [] => Some cd
  | v :: vs => match content_set vars cd v with
               | Some (cd, true) => content_sets vars cd vs
               | _ => None
               end
  end.

Definition content_module (vars : ips_vars) (vs : list Value) : option ContentData :=
  match content_sets vars content_begin vs with Some cd => content_end cd | None => None end.

Lemma content_sets_ok vars cd vs cd' :
  parsing_ok cd -> Forall (fun v => bytes (get_string v)) vs ->
  content_sets vars cd vs = Some cd' -> parsing_ok cd'.
Proof.
  intros Hok Hvs. revert cd Hok. induction Hvs as [|v vs Hv _ IH]; intros cd Hok H; simpl in H.
  - by injection H as <-.
  - destruct (content_set vars cd v) as [[cd1 []]|] eqn:E; [|done..].
    eapply IH; [|done]. eapply content_set_ok; eauto.
Qed.

Lemma content_end_ok cd cd' : parsing_ok cd -> content_end cd = Some cd' -> content_ok cd'.
Proof.
  intros (Hb & Hs & Hfo & Hfl) H. unfold content_end in H.
  bcase (s32 (pattern_size (pmd cd)) <=? fp_offset (pmd cd)) as E; [done|].
  bcase (s32 (pattern_size (pmd cd)) <? fp_offset (pmd cd) + fp_length (pmd cd)) as E2; [done|].
  assert (pattern_buf (pmd cd) <> []) as Hne.
  { intros Hnil. rewrite Hs, Hnil in E. change (s32 (Zlen [])) with 0 in E. lia. }
  destruct (is_no_case (pmd cd)); injection H as <-; constructor; simpl; auto.
  - apply Forall_map. eapply Forall_impl; [done|]. intros c Hc. by apply toupper_u8.
  - rewrite Hs. unfold Zlen. by rewrite length_map.
  - by intros Hnil%map_eq_nil.
Qed.


(** ** Properties *)

(** C9. The [content] option, evaluated on a well-formed cursor: it always
    answers; with [r] the first occurrence of the pattern in the window the
    modifiers select, it matches exactly when the pattern occurs and is not
    negated, or does not occur, is negated and the window is not empty; on an
    occurrence the cursor moves right behind it, otherwise it stays; and the
    cursor stays well formed. *)
Theorem content_eval_spec v cd c p d :
  content_ok cd -> cursor_wf c -> small cd c -> search_window v cd c = (p, d) ->
  exists r c', first_in_window cd c p d r /\ cursor_wf c' /\
    CheckANDPatternMatch v cd c =
      Some (if (if r >=? 0 then negb (is_negated (pmd cd)) else is_negated (pmd cd) && (d >? 0))
            then MATCH else NO_MATCH, c') /\
    (r < 0 -> c' = c) /\
    (0 <= r -> pos c' = p + r + Zlen (pattern_buf (pmd cd)) /\ data c' = data c).
Proof.
  intros Hok Hwf Hsm Hw.
  destruct (uniSearchReal_eq v cd c p d Hok Hwf Hsm Hw) as (r & Hf & Hu).
  destruct (search_window_spec v cd c p d Hwf (proj1 Hsm) Hw) as (Hp & Hd & _).
  exists r. unfold CheckANDPatternMatch. rewrite Hu.
  assert (0 < Zlen (pattern_buf (pmd cd))) as Hn.
  { pose proof (co_nonempty _ Hok). unfold Zlen.
    destruct (pattern_buf (pmd cd)); [done|simpl; lia]. }
  bcase (r >=? 0) as E.
  - eexists. split_and!; [done| | |lia|].
    2: { f_equal. f_equal. simpl. by destruct (is_negated (pmd cd)). }
    + by apply cursor_after_match_wf.
    + intros _. destruct Hf as [[-> _]|[(Hr0 & Hr1 & _) _]]; [lia|].
      set (c1 := (set_delta c _).2). destruct (set_delta_data c (p + r + match_delta cd)) as (D & S & _).
      fold c1 in D, S. destruct Hsm as (? & ? & ?). unfold set_pos. rewrite S.
      rewrite u32_small by mlia. bcases; [lia|]. simpl. by rewrite D.
  - exists c. split_and!; [done..| |done|lia]. f_equal. f_equal.
    bcase (Zlen (pattern_buf (pmd cd)) <=? d) as E1; bcase (d >? 0) as E2; try lia;
      by destruct (is_negated (pmd cd)).
Qed.

Definition demo_content : option ContentData :=
  content_module demo_vars
    [MkValue "~data" 0 (print_pattern false [Text [97; 98]]) None; MkValue "nocase" 0 [] None].
Definition demo_cd : ContentData := default content_begin demo_content.
Definition demo_cursor : Cursor := cursor_set "pkt_data" [120; 65; 98; 97; 66] 5.

Lemma demo_cd_ok : content_ok demo_cd.
Proof.
  constructor; [|reflexivity|done|reflexivity|reflexivity]. repeat constructor; vm_compute; congruence.
Qed.
Lemma demo_cursor_wf : cursor_wf demo_cursor.
Proof. apply cursor_set_wf; [repeat constructor; lia|vm_compute; split; congruence|mlia]. Qed.

Lemma content_eval_spec_witness :
  exists r c', first_in_window demo_cd demo_cursor 0 5 r /\ cursor_wf c' /\
    CheckANDPatternMatch demo_vars demo_cd demo_cursor =
      Some (if (if r >=? 0 then negb (is_negated (pmd demo_cd))
                else is_negated (pmd demo_cd) && (5 >? 0))
            then MATCH else NO_MATCH, c') /\
    (r < 0 -> c' = demo_cursor) /\
    (0 <= r -> pos c' = 0 + r + Zlen (pattern_buf (pmd demo_cd)) /\ data c' = data demo_cursor).
Proof.
  apply (content_eval_spec demo_vars demo_cd demo_cursor 0 5 demo_cd_ok demo_cursor_wf);
    [repeat split; vm_compute; congruence|reflexivity].
Defined.

(** C39. Whatever parameters a rule gives, a [content] option that the module
    accepts is set up for its search: the pattern is not empty, its size is
    its length, it is upper-cased when [nocase] was asked for (so that the
    case-insensitive search can match it), and both Boyer-Moore tables are
    those of the stored pattern. *)
Theorem content_module_ok vars vs cd :
  Forall (fun v => bytes (get_string v)) vs -> content_module vars vs = Some cd ->
  content_ok cd /\
  (is_no_case (pmd cd) = true -> Forall (fun c => toupper c = c) (pattern_buf (pmd cd))).
Proof.
  intros Hvs H. unfold content_module in H.
  destruct (content_sets vars content_begin vs) as [cd0|] eqn:E; [|done].
  assert (parsing_ok cd0) as Hok.
  { eapply content_sets_ok; [|done..]. unfold parsing_ok. simpl. split_and!; [constructor|done|lia|lia]. }
  split; [by eapply content_end_ok|]. intros Hnc. unfold content_end in H.
  bcases_hyp; try done; injection H as <-; simpl in *; [|congruence].
  apply Forall_map, Forall_true. intros c. unfold toupper. bcases; lia.
Qed.

Lemma content_module_ok_witness :
  content_ok demo_cd /\
  (is_no_case (pmd demo_cd) = true -> Forall (fun c => toupper c = c) (pattern_buf (pmd demo_cd))).
Proof.
  apply (content_module_ok demo_vars
    [MkValue "~data" 0 (print_pattern false [Text [97; 98]]) None; MkValue "nocase" 0 [] None]);
    [repeat constructor; vm_compute; congruence|reflexivity].
Defined.

(** The distance [match_delta] by which a repeated search moves on lies
    within the pattern, and when it is shorter than the pattern it is a period
    of it. *)
Theorem set_max_jump_size_period cd :
  let buf := pattern_buf (pmd cd) in
  let d := match_delta (set_max_jump_size cd) in
  buf <> [] -> 0 <= d <= Zlen buf /\ (d = Zlen buf \/ is_period buf d).
Proof.
  intros buf d Hne. destruct (pattern_buf (pmd cd)) as [|x l] eqn:E; [done|].
  subst d buf. unfold set_max_jump_size. rewrite E. simpl match_delta.
  apply (jump_loop_spec (x :: l) l 1 0); [lia|done| |intros; lia].
  rewrite Zlen_cons. pose proof (Zlen_nonneg l). lia.
Qed.

Lemma set_max_jump_size_period_witness :
  let d := match_delta (set_max_jump_size demo_cd) in
  0 <= d <= Zlen [65; 66] /\ (d = Zlen [65; 66] \/ is_period [65; 66] d).
Proof. apply (set_max_jump_size_period demo_cd). done. Defined.

(** But it need not be the shortest period: the scan restarts at the
    beginning of the pattern on a mismatch without trying a shorter border, so
    for a a b a a a b it returns the whole length 7 although 4 is a period.
    In the buffer a a b a a a b a a a b the pattern occurs at 0 and at 4, and a
    search continued at the returned distance from the first occurrence misses
    the second one. *)
Theorem max_jump_misses_occurrence :
  let pat := [97; 97; 98; 97; 97; 97; 98] in
  let buf := pat ++ [97; 97; 97; 98] in
  let cd := set_max_jump_size (with_pmd content_begin (MkPmd pat 7 0 0 0 0 0)) in
  match_delta cd = 7 /\ is_period pat 4 /\
  occurs (fun c => c) buf 11 pat 0 /\ occurs (fun c => c) buf 11 pat 4 /\
  forall k, 0 + match_delta cd <= k -> ~ occurs (fun c => c) buf 11 pat k.
Proof.
  cbv zeta. assert (forall P : Z -> Prop, P 0 -> P 1 -> P 2 -> P 3 -> P 4 -> P 5 -> P 6 ->
    forall j, 0 <= j < 7 -> P j) as Hcases.
  { intros P ? ? ? ? ? ? ? j Hj.
    assert (j = 0 \/ j = 1 \/ j = 2 \/ j = 3 \/ j = 4 \/ j = 5 \/ j = 6) by lia.
    destruct_or!; by subst. }
  split_and!; [reflexivity| | | |].
  - split; [lia|]. intros j Hj0 Hj. change (Zlen _) with 7 in Hj.
    revert j Hj0 Hj. intros j Hj0 Hj.
    assert (j = 0 \/ j = 1 \/ j = 2) by lia. destruct_or!; subst; reflexivity.
  - split_and!; [lia|vm_compute; congruence|]. change (Zlen _) with 7. by apply Hcases.
  - split_and!; [lia|vm_compute; congruence|]. change (Zlen _) with 7. by apply Hcases.
  - intros k Hk (_ & Hk2 & _). change (match_delta _) with 7 in Hk. change (Zlen _) with 7 in Hk2. lia.
Qed.
