(* ===== verification/Hash.v ===== *)
(** * Hash: the mixing functions of hash/hashfcn.h and hash/hashfcn.cc, and the
    key of a rule option (framework/ips_option.cc)

    [rot], [mix] and [finalize] are macros: they compute in the type of their
    arguments, [uint32_t] in most places and [size_t] in [str_to_hash].  The
    width is a parameter here, with the rotation by [32 - k] fixed as in the
    source. *)

From S2P Require Import Prelude.

(** ** The macros, at a width of [w] bits *)

Definition triple : Type := Z * Z * Z.

Section Mix.
Variable w : Z.

Definition wrap (z : Z) : Z := z mod 2 ^ w.

Definition rot (x k : Z) : Z := Z.lor (wrap (Z.shiftl x k)) (Z.shiftr x (32 - k)).

(** One line of [mix]: [x -= z; x ^= rot(z, k); z += y]; the new [x] and [z]. *)
Definition mix_line (k x y z : Z) : Z * Z :=
  let x := wrap (x - z) in
  let x := Z.lxor x (rot z k) in
  let z := wrap (z + y) in
  (x, z).

Definition mix (t : triple) : triple :=
  let '(a, b, c) := t in
  let '(a, c) := mix_line 4 a b c in
  let '(b, a) := mix_line 6 b c a in
  let '(c, b) := mix_line 8 c a b in
  let '(a, c) := mix_line 16 a b c in
  let '(b, a) := mix_line 19 b c a in
  let '(c, b) := mix_line 4 c a b in
  (a, b, c).

(** One statement pair of [finalize]: [x ^= y; x -= rot(y, k)]. *)
Definition fin_line (k x y : Z) : Z :=
  let x := Z.lxor x y in
  wrap (x - rot y k).

Definition finalize (t : triple) : triple :=
  let '(a, b, c) := t in
  let c := fin_line 14 c b in
  let a := fin_line 11 a c in
  let b := fin_line 25 b a in
  let c := fin_line 16 c b in
  let a := fin_line 4 a c in
  let b := fin_line 14 b a in
  let c := fin_line 24 c b in
  (a, b, c).

(** The [switch (j)] both string functions have. *)
Definition add_word (t : triple) (j tmp : Z) : triple :=
  let '(a, b, c) := t in
  if j =? 0 then (wrap (a + tmp), b, c)
  else if j =? 1 then (a, wrap (b + tmp), c)
  else if j =? 2 then (a, b, wrap (c + tmp))
  else t.

End Mix.

(** ** Strings *)

(** [tmp |= (unsigned char) s[i + l] << l*8] for at most four bytes. *)
Fixpoint pack (s : list Z) (l tmp : Z) : Z :=
  match s with
  | c :: s => pack s (l + 1) (u32 (Z.lor tmp (Z.shiftl c (l * 8))))
  | [] => tmp
  end.

(** The loop of [mix_str] over the words of [s], from word number [j] on; the
    result carries the [j] the loop ends with. *)
Fixpoint mix_words (fuel : nat) (t : triple) (j : Z) (s : list Z) : triple * Z :=
  match fuel, s with
  | S fuel, _ :: _ =>
      let tmp := pack (take 4 s) 0 0 in
      let t := add_word 32 t j tmp in
      let j := j + 1 in
      if j =? 3 then mix_words fuel (mix 32 t) 0 (drop 4 s)
      else mix_words fuel t j (drop 4 s)
  | _, _ => (t, j)
  end.

(** [mix_str (a, b, c, s, n)] on the [n] bytes [s]; a call without [n] passes
    the characters of the C string. *)
Definition mix_str (t : triple) (s : list Z) : triple :=
  let '(t, j) := mix_words (length s) t 0 s in
  if negb (j =? 0) then mix 32 t else t.

(** [*(str + i + m) << m*8] is an [int]: the byte in the top position makes
    it negative, and the conversion to [size_t] extends the sign. *)
Fixpoint pack64 (s : list Z) (m tmp : Z) : Z :=
  match s with
  | c :: s => pack64 s (m + 1) (Z.lor tmp (u64 (s32 (Z.shiftl c (m * 8)))))
  | [] => tmp
  end.

Fixpoint hash_words (fuel : nat) (t : triple) (j : Z) (s : list Z) : triple :=
  match fuel, s with
  | S fuel, _ :: _ =>
      let tmp := pack64 (take 4 s) 0 0 in
      let t := add_word 64 t j tmp in
      let j := j + 1 in
      if j =? 3 then hash_words fuel (mix 64 t) 0 (drop 4 s)
      else hash_words fuel t j (drop 4 s)
  | _, _ => t
  end.

Definition str_to_hash (str : list Z) : Z :=
  let '(_, _, c) := finalize 64 (hash_words (length str) (0, 0, 0) 0 str) in c.

(** [hashfcn_hash]: the hash of the generic tables. *)
Record HashFnc := MkHashFnc { seed : Z; scale : Z; hardener : Z }.

Definition hashfcn_hash (p : HashFnc) (d : list Z) : Z :=
  Z.lxor (fold_left (fun hash c => u32 (u32 (hash * scale p) + c)) d (seed p)) (hardener p).

(** The constants of a static hash. *)
Definition hashfcn_static : HashFnc := MkHashFnc 3193 719 133824503.

(** ** Rule options as keys (framework/ips_option.cc) *)

Inductive option_type_t :=
  | RULE_OPTION_TYPE_LEAF_NODE | RULE_OPTION_TYPE_BUFFER_SET | RULE_OPTION_TYPE_BUFFER_USE
  | RULE_OPTION_TYPE_CONTENT | RULE_OPTION_TYPE_FLOWBIT | RULE_OPTION_TYPE_OTHER.

#[export] Instance option_type_eq_dec : EqDecision option_type_t.
Proof. solve_decision. Defined.

Record IpsOption := MkIpsOption { opt_name : string; opt_buffer : string; opt_type : option_type_t }.

(** The constructor; [s_buffer] is the file's static, which the parser sets to
    [pkt_data] at the start of a rule. *)
Definition IpsOption_new (s_buffer s : string) (t : option_type_t) : IpsOption * string :=
  match t with
  | RULE_OPTION_TYPE_BUFFER_SET => (MkIpsOption s s t, s)
  | RULE_OPTION_TYPE_CONTENT | RULE_OPTION_TYPE_BUFFER_USE => (MkIpsOption s s_buffer t, s_buffer)
  | _ => (MkIpsOption s "n/a" t, s_buffer)
  end.

(** The characters of a string. *)
Fixpoint str_bytes (s : string) : list Z :=
  match s with
  | String a s => Z.of_N (Ascii.N_of_ascii a) :: str_bytes s
  | EmptyString => []
  end.

Definition mix_name (t : triple) (s : string) : triple := mix_str t (str_bytes s).

Definition IpsOption_hash (o : IpsOption) : Z :=
  let '(_, _, c) := finalize 32 (mix_name (mix_name (0, 0, 0) (opt_name o)) (opt_buffer o)) in c.

Definition IpsOption_eqb (a b : IpsOption) : bool :=
  String.eqb (opt_name a) (opt_name b) && String.eqb (opt_buffer a) (opt_buffer b).

(** [key(a, b, c)]: the tail all option hashes share, [mix(a,b,c);
    mix_str(a,b,c,get_name()); finalize(a,b,c); return c]. *)
Definition hash_tail (t : triple) (nm : string) : Z :=
  let '(_, _, c) := finalize 32 (mix_name t nm) in c.

(** ** What the option table needs of an option type

    [opt_eqb] is the option's [operator==] and [opt_hash] its [hash()]: equal
    options must have equal hashes, or the table would not find them. *)
Class OptionKey (T : Type) := {
  opt_hash : T -> Z;
  opt_eqb : T -> T -> bool;
  opt_eqb_hash : forall x y, opt_eqb x y = true -> opt_hash x = opt_hash y }.

Lemma IpsOption_eqb_name a b :
  IpsOption_eqb a b = true -> opt_name a = opt_name b /\ opt_buffer a = opt_buffer b.
Proof. unfold IpsOption_eqb. intros [H%String.eqb_eq H2%String.eqb_eq]%andb_true_iff. done. Qed.

#[export] Instance IpsOption_key : OptionKey IpsOption.
Proof.
  refine {| opt_hash := IpsOption_hash; opt_eqb := IpsOption_eqb |}.
  intros x y [H1 H2]%IpsOption_eqb_name. unfold IpsOption_hash. by rewrite H1, H2.
Defined.

(** ** The mixing is reversible *)

Section Unmix.
Variable w : Z.
Hypothesis w_ge : 32 <= w.

Definition in_w (z : Z) : Prop := 0 <= z < 2 ^ w.

Definition unmix_line (k x y z : Z) : Z * Z :=
  let z := wrap w (z - y) in
  let x := Z.lxor x (rot w z k) in
  (wrap w (x + z), z).

Definition unmix (t : triple) : triple :=
  let '(a, b, c) := t in
  let '(c, b) := unmix_line 4 c a b in
  let '(b, a) := unmix_line 19 b c a in
  let '(a, c) := unmix_line 16 a b c in
  let '(c, b) := unmix_line 8 c a b in
  let '(b, a) := unmix_line 6 b c a in
  let '(a, c) := unmix_line 4 a b c in
  (a, b, c).

Definition unfin_line (k x y : Z) : Z := Z.lxor (wrap w (x + rot w y k)) y.

Definition unfinalize (t : triple) : triple :=
  let '(a, b, c) := t in
  let c := unfin_line 24 c b in
  let b := unfin_line 14 b a in
  let a := unfin_line 4 a c in
  let c := unfin_line 16 c b in
  let b := unfin_line 25 b a in
  let a := unfin_line 11 a c in
  let c := unfin_line 14 c b in
  (a, b, c).

Definition triple_w (t : triple) : Prop :=
  let '(a, b, c) := t in in_w a /\ in_w b /\ in_w c.

Lemma wrap_w z : in_w (wrap w z).
Proof. apply Z.mod_pos_bound. lia. Qed.

Lemma wrap_small z : in_w z -> wrap w z = z.
Proof. apply Z.mod_small. Qed.

Lemma lxor_w x y : in_w x -> in_w y -> in_w (Z.lxor x y).
Proof.
  unfold in_w. intros Hx Hy. rewrite <- (Z.mod_small x (2 ^ w)), <- (Z.mod_small y (2 ^ w)) by lia.
  rewrite <- !Z.land_ones by lia. split.
  - apply Z.lxor_nonneg. rewrite !Z.land_nonneg. lia.
  - assert (Z.lxor (Z.land x (Z.ones w)) (Z.land y (Z.ones w)) = Z.land (Z.lxor x y) (Z.ones w)) as ->.
    { apply Z.bits_inj'. intros i Hi. rewrite Z.lxor_spec, !Z.land_spec, Z.lxor_spec.
      by destruct (Z.testbit x i), (Z.testbit y i), (Z.testbit (Z.ones w) i). }
    rewrite Z.land_ones by lia. apply Z.mod_pos_bound. lia.
Qed.

Lemma rot_w x k : in_w x -> 0 <= k <= 32 -> in_w (rot w x k).
Proof.
  intros Hx Hk. unfold rot. pose proof (wrap_w (Z.shiftl x k)) as H1. unfold in_w in *.
  assert (0 <= Z.shiftr x (32 - k) < 2 ^ w) as H2.
  { rewrite Z.shiftr_div_pow2 by lia. pose proof (Z.pow_pos_nonneg 2 (32 - k)).
    split; [apply Z.div_pos; lia|]. apply Z.div_lt_upper_bound; nia. }
  split; [apply Z.lor_nonneg; lia|].
  rewrite <- (Z.mod_small (wrap w (Z.shiftl x k)) (2 ^ w)) by done.
  rewrite <- (Z.mod_small (Z.shiftr x (32 - k)) (2 ^ w)) by done.
  rewrite <- !Z.land_ones, <- Z.land_lor_distr_l by lia. rewrite Z.land_ones by lia.
  apply Z.mod_pos_bound. lia.
Qed.

Lemma wrap_sub_add x z : in_w x -> wrap w (wrap w (x - z) + z) = x.
Proof.
  intros Hx. unfold wrap. rewrite Zplus_mod_idemp_l. replace (x - z + z) with x by lia.
  by apply Z.mod_small.
Qed.

Lemma wrap_add_sub z y : in_w z -> wrap w (wrap w (z + y) - y) = z.
Proof.
  intros Hz. unfold wrap. rewrite Zminus_mod_idemp_l. replace (z + y - y) with z by lia.
  by apply Z.mod_small.
Qed.

Lemma lxor_cancel x y : Z.lxor (Z.lxor x y) y = x.
Proof. by rewrite Z.lxor_assoc, Z.lxor_nilpotent, Z.lxor_0_r. Qed.

Lemma mix_line_inv k x y z x' z' :
  mix_line w k x y z = (x', z') -> in_w x -> in_w z -> 0 <= k <= 32 ->
  in_w x' /\ in_w z' /\ unmix_line k x' y z' = (x, z).
Proof.
  unfold mix_line, unmix_line. intros [= <- <-] Hx Hz Hk. split_and!.
  - auto using lxor_w, rot_w, wrap_w.
  - apply wrap_w.
  - rewrite wrap_add_sub, lxor_cancel, wrap_sub_add by done. done.
Qed.

Lemma fin_line_inv k x y :
  in_w x -> in_w y -> in_w (fin_line w k x y) /\ unfin_line k (fin_line w k x y) y = x.
Proof.
  intros Hx Hy. unfold fin_line, unfin_line. split; [apply wrap_w|].
  rewrite wrap_sub_add by auto using lxor_w. apply lxor_cancel.
Qed.

Ltac mix_lines :=
  match goal with
  | |- context [mix_line w ?k ?x ?y ?z] =>
      let E := fresh "E" in
      destruct (mix_line w k x y z) as [? ?] eqn:E;
      apply mix_line_inv in E as (? & ? & ?); [|done|done|lia]
  end.

Lemma unmix_mix t : triple_w t -> triple_w (mix w t) /\ unmix (mix w t) = t.
Proof.
  destruct t as [[a b] c]. intros (Ha & Hb & Hc). unfold mix. repeat mix_lines.
  split; [done|]. unfold unmix.
  repeat match goal with H : unmix_line _ _ _ _ = _ |- _ => rewrite H; clear H end. done.
Qed.

Lemma unfinalize_finalize t :
  triple_w t -> triple_w (finalize w t) /\ unfinalize (finalize w t) = t.
Proof.
  destruct t as [[a b] c]. intros (Ha & Hb & Hc). unfold finalize. cbv zeta.
  repeat match goal with
  | |- context [fin_line w ?k ?x ?y] =>
      is_var x; is_var y;
      destruct (fin_line_inv k x y) as [? ?]; [done|done|];
      generalize dependent (fin_line w k x y); intros
  end.
  split; [done|]. unfold unfinalize.
  repeat match goal with H : unfin_line _ _ _ = _ |- _ => rewrite H; clear H end. done.
Qed.

End Unmix.

Lemma mix_inj w t t' :
  32 <= w -> triple_w w t -> triple_w w t' -> mix w t = mix w t' -> t = t'.
Proof.
  intros Hw H1%unmix_mix H2%unmix_mix Heq; [|done..].
  destruct H1 as [_ <-], H2 as [_ <-]. by rewrite Heq.
Qed.

Lemma mix_w w t : 32 <= w -> triple_w w t -> triple_w w (mix w t).
Proof. intros Hw Ht. by destruct (unmix_mix w Hw t Ht). Qed.

Lemma finalize_inj w t t' :
  32 <= w -> triple_w w t -> triple_w w t' -> finalize w t = finalize w t' -> t = t'.
Proof.
  intros Hw H1%unfinalize_finalize H2%unfinalize_finalize Heq; [|done..].
  destruct H1 as [_ <-], H2 as [_ <-]. by rewrite Heq.
Qed.

Lemma add_word_w w t j tmp : 32 <= w -> triple_w w t -> triple_w w (add_word w t j tmp).
Proof.
  destruct t as [[a b] c]. intros Hw (? & ? & ?). unfold add_word.
  bcases; split_and!; auto using wrap_w.
Qed.

Lemma wrap_add_inj w x y tmp :
  32 <= w -> in_w w x -> in_w w y -> wrap w (x + tmp) = wrap w (y + tmp) -> x = y.
Proof.
  intros Hw Hx Hy H. rewrite <- (wrap_add_sub w x tmp), <- (wrap_add_sub w y tmp) by done.
  by rewrite H.
Qed.

Lemma add_word_inj w t t' j tmp :
  32 <= w -> triple_w w t -> triple_w w t' -> add_word w t j tmp = add_word w t' j tmp -> t = t'.
Proof.
  destruct t as [[a b] c], t' as [[a' b'] c']. intros Hw (? & ? & ?) (? & ? & ?).
  unfold add_word. bcases; intros [=]; subst; try done;
    repeat f_equal; eauto using wrap_add_inj.
Qed.

Lemma mix_words_w fuel t j s : triple_w 32 t -> triple_w 32 (mix_words fuel t j s).1.
Proof.
  revert t j s. induction fuel as [|fuel IH]; intros t j [|c s] Ht; simpl; try done.
  bcases; apply IH; [apply mix_w; [done|]|]; by apply add_word_w.
Qed.

Lemma mix_words_inj fuel t t' j s :
  triple_w 32 t -> triple_w 32 t' ->
  (mix_words fuel t j s).2 = (mix_words fuel t' j s).2 /\
  ((mix_words fuel t j s).1 = (mix_words fuel t' j s).1 -> t = t').
Proof.
  revert t t' j s. induction fuel as [|fuel IH]; intros t t' j [|c s] Ht Ht'; simpl; try done.
  assert (forall k, triple_w 32 (add_word 32 t j k)) as H1 by (intros; by apply add_word_w).
  assert (forall k, triple_w 32 (add_word 32 t' j k)) as H2 by (intros; by apply add_word_w).
  assert (forall r, triple_w 32 r -> triple_w 32 (mix 32 r)) as Hm.
  { intros r Hr. by apply mix_w. }
  bcases.
  - edestruct IH as [-> Hi]; [| |split; [done|]]; auto. intros Heq%Hi.
    apply mix_inj in Heq; auto; [|lia]. by eapply add_word_inj in Heq.
  - edestruct IH as [-> Hi]; [| |split; [done|]]; auto. intros Heq%Hi.
    by eapply add_word_inj in Heq.
Qed.

Lemma mix_str_w t s : triple_w 32 t -> triple_w 32 (mix_str t s).
Proof.
  intros Ht. unfold mix_str. pose proof (mix_words_w (length s) t 0 s Ht) as H.
  destruct (mix_words _ _ _ _) as [r j]. simpl in H. bcases; [|done]. by apply mix_w.
Qed.

Lemma mix_str_inj t t' s :
  triple_w 32 t -> triple_w 32 t' -> mix_str t s = mix_str t' s -> t = t'.
Proof.
  intros Ht Ht'. unfold mix_str.
  destruct (mix_words_inj (length s) t t' 0 s Ht Ht') as [Hj Hi].
  pose proof (mix_words_w (length s) t 0 s Ht) as H1.
  pose proof (mix_words_w (length s) t' 0 s Ht') as H2.
  destruct (mix_words _ t _ _) as [r j], (mix_words _ t' _ _) as [r' j'].
  simpl in *. subst j'. bcases; [|auto]. intros Heq. by apply mix_inj in Heq; auto.
Qed.

(** Mixing loses nothing: for any name, the state that [mix_str] and
    [finalize] leave determines the state they started from, so options whose
    mixed fields differ are never merged into the same internal state
    ([hash()] then keeps 32 of its 96 bits). *)
Theorem mix_str_finalize_injective t t' s :
  triple_w 32 t -> triple_w 32 t' ->
  finalize 32 (mix_str t s) = finalize 32 (mix_str t' s) <-> t = t'.
Proof.
  intros Ht Ht'. split; [|by intros ->].
  intros H%finalize_inj; [|lia|by apply mix_str_w..]. by eapply mix_str_inj in H.
Qed.

Lemma mix_str_finalize_injective_witness :
  finalize 32 (mix_str (1, 2, 3) [98; 121; 116; 101; 95]) =
  finalize 32 (mix_str (1, 2, 4) [98; 121; 116; 101; 95]) <-> (1, 2, 3) = (1, 2, 4).
Proof.
  apply (mix_str_finalize_injective (1, 2, 3) (1, 2, 4) [98; 121; 116; 101; 95]);
    vm_compute; intuition congruence.
Defined.
