(* ===== verification/IpsCommon.v ===== *)
(** * IpsCommon: what the byte options share

    The packet as the options see it (protocols/packet.h,
    framework/endianness.h), the choice of a byte order, and extraction from a
    cursor: [byte_extract] and [string_extract] on the first [sz] bytes of the
    cursor's buffer. *)

From S2P Require Import Prelude Cursor Extract ParseUtils.

(** [endianness]: the packet's [Endianness] object, if an inspector attached
    one; [get_offset_endianness] sets the byte order or fails.
    [buffer_off]: the distance of the cursor's buffer from the packet's data. *)
Record Packet := MkPacket {
  endianness : option (Z -> option Z);
  buffer_off : Z }.

(** The block [if (endian == ENDIAN_FUNC) ...]; [None] is the early return of
    [NO_MATCH]. *)
Definition resolve_endian (p : Packet) (endian ptr : Z) : option Z :=
  if endian =? ENDIAN_FUNC then
    match endianness p with
    | None => None
    | Some get_offset_endianness => get_offset_endianness (s32 (ptr + buffer_off p))
    end
  else Some endian.

(** The index of the variable a parameter names: [NO_VAR] when none was given,
    [None] when it is not declared (the [ParseError] branches). *)
Definition var_index (vars : ips_vars) (nm : list Z) : option Z :=
  match nm with
  | [] => Some IPS_OPTIONS_NO_VAR
  | _ => let i := GetVarByName vars (Some (string_of_bytes nm)) in
         if i =? IPS_OPTIONS_NO_VAR then None else Some i
  end.

(** An operand that may be a variable, as [int32_t]. *)
Definition var_or_s32 (v : ips_vars) (var k : Z) : Z :=
  if (var >=? 0) && (var <? NUM_IPS_OPTIONS_VARS)
  then s32 (default 0 (GetVarValueByIndex v var)) else k.

(** ** Extraction from a cursor *)

(** The bytes [buffer ()] to [endo ()]. *)
Definition cbuf (c : Cursor) : list Z := take (Z.to_nat (sz c)) (data c).

Lemma Zlen_cbuf c : cursor_wf c -> Zlen (cbuf c) = sz c.
Proof. intros [H _ _ _ _]. unfold cbuf, Zlen in *. rewrite length_take. lia. Qed.

Lemma bytes_cbuf c : cursor_wf c -> bytes (cbuf c).
Proof. intros []. by apply Forall_take. Qed.

Lemma rd0_cbuf c i : 0 <= i < sz c -> rd0 (data c) i = rd0 (cbuf c) i.
Proof.
  intros H. unfold rd0, rd, cbuf. bcases; [done|]. by rewrite lookup_take_lt by lia.
Qed.

Lemma byte_extract_cbuf e n c ptr :
  cursor_wf c -> byte_extract e n (data c) ptr 0 (sz c) = byte_extract e n (cbuf c) ptr 0 (Zlen (cbuf c)).
Proof.
  intros Hc. rewrite Zlen_cbuf by done. unfold byte_extract, inBounds.
  bcase (negb (e =? ENDIAN_LITTLE) && negb (e =? ENDIAN_BIG)) as E0; [done|].
  bcase (negb ((0 <=? ptr + (n - 1)) && (ptr + (n - 1) <? sz c))) as E1; [done|].
  bcase (negb ((0 <=? ptr) && (ptr <? sz c))) as E2; [done|].
  bcase (n =? 1) as N1; [by rewrite !rd0_cbuf by lia|].
  bcase (n =? 2) as N2; [by rewrite !rd0_cbuf by lia|].
  bcase (n =? 3) as N3; [by rewrite !rd0_cbuf by lia|].
  bcase (n =? 4) as N4; [by rewrite !rd0_cbuf by lia|done].
Qed.

Lemma slice_cbuf c ptr n : 0 <= ptr -> ptr + n <= sz c -> slice (data c) ptr n = slice (cbuf c) ptr n.
Proof.
  intros Hp Hn. unfold slice, cbuf. rewrite skipn_firstn_comm, take_take. f_equal. lia.
Qed.

Lemma string_extract_cbuf n base c ptr :
  cursor_wf c ->
  string_extract n base (data c) ptr 0 (sz c) = string_extract n base (cbuf c) ptr 0 (Zlen (cbuf c)).
Proof.
  intros Hc. rewrite Zlen_cbuf by done. unfold string_extract, inBounds.
  bcase ((n >? TEXTLEN - 1) || (n <=? 0)) as E0; [done|].
  bcase (negb ((0 <=? ptr + (n - 1)) && (ptr + (n - 1) <? sz c))) as E1; [done|].
  bcase (negb ((0 <=? ptr) && (ptr <? sz c))) as E2; [done|].
  by rewrite slice_cbuf by lia.
Qed.

(** ** The binary field an option reads *)

(** [field c e n ptr x]: the [n] bytes at [ptr] lie in the cursor's buffer and
    denote [x] in byte order [e]. *)
Definition field (c : Cursor) (e n ptr x : Z) : Prop :=
  endian_ok e /\ 1 <= n <= 4 /\ grab_ok ptr n (sz c) /\
  x = (if e =? ENDIAN_LITTLE then le_value else be_value) (slice (data c) ptr n).

Lemma byte_extract_field e n c ptr x :
  cursor_wf c -> byte_extract e n (data c) ptr 0 (sz c) = inr x <-> field c e n ptr x.
Proof.
  intros Hc. rewrite byte_extract_cbuf, byte_extract_eq by auto using bytes_cbuf.
  rewrite Zlen_cbuf by done. unfold field.
  destruct (decide (endian_ok e)); [|split; [done|tauto]].
  destruct (decide (grab_ok ptr n (sz c))) as [Hg|]; [|split; [done|tauto]].
  destruct (decide (1 <= n <= 4)); [|split; [done|tauto]].
  rewrite slice_cbuf by (unfold grab_ok in *; lia). split.
  - intros [= <-]. done.
  - by intros (_ & _ & _ & ->).
Qed.

Lemma byte_extract_total e n c ptr :
  (exists r, byte_extract e n (data c) ptr 0 (sz c) = inl r) \/
  (exists x, byte_extract e n (data c) ptr 0 (sz c) = inr x).
Proof. destruct (byte_extract _ _ _ _ _ _); eauto. Qed.

Lemma be_value_range l : bytes l -> 0 <= be_value l < 256 ^ Zlen l.
Proof.
  induction l as [|b l IH] using rev_ind; intros Hb; [done|].
  apply Forall_app in Hb as [Hl Hb]. apply Forall_cons_1 in Hb as [Hb _].
  rewrite be_value_snoc, Zlen_app. change (Zlen [b]) with 1. rewrite Z.pow_add_r by auto with mach lia.
  specialize (IH Hl). unfold is_u8 in Hb. nia.
Qed.

Lemma le_value_range l : bytes l -> 0 <= le_value l < 256 ^ Zlen l.
Proof.
  induction 1 as [|b l Hb Hl IH]; [done|]. rewrite Zlen_cons, Z.pow_add_r by auto with mach lia.
  unfold le_value in *. simpl foldr. unfold is_u8 in Hb. nia.
Qed.

Lemma field_u32 c e n ptr x : cursor_wf c -> field c e n ptr x -> is_u32 x.
Proof.
  intros Hc (_ & Hn & Hg & ->). unfold grab_ok in Hg.
  assert (bytes (slice (data c) ptr n)) as Hb by apply bytes_slice, Hc.
  assert (Zlen (slice (data c) ptr n) = n) as Hl.
  { apply Zlen_slice; try lia. destruct Hc. lia. }
  assert (256 ^ n <= 256 ^ 4) by (apply Z.pow_le_mono_r; lia).
  change (256 ^ 4) with 4294967296 in *. unfold is_u32.
  pose proof (be_value_range _ Hb). pose proof (le_value_range _ Hb).
  rewrite Hl in *. bcases; lia.
Qed.

Lemma field_fun c e n ptr x y : field c e n ptr x -> field c e n ptr y -> x = y.
Proof. unfold field. intros (_ & _ & _ & ->) (_ & _ & _ & ->). done. Qed.

(** ** Rounding up to a boundary *)

(** [x + (a - x % a)] when [x % a] is not zero: what the [align] parameters
    do. *)
Definition align_up (a x : Z) : Z := if negb (x mod a =? 0) then u32 (x + (a - x mod a)) else x.

Lemma align_up_u32 a x : is_u32 x -> is_u32 (align_up a x).
Proof. intros H. unfold align_up. bcases; [apply u32_range|done]. Qed.

(** ** Variable indices *)

(** What an option stores for an operand: no variable, or the index of one. *)
Definition var_ok (i : Z) : Prop := -1 <= i < NUM_IPS_OPTIONS_VARS.

Lemma GetVarByName_var_ok vars nm : vars_wf vars -> var_ok (GetVarByName vars (Some nm)).
Proof.
  intros Hwf. unfold var_ok. destruct (decide (nm ∈ declared vars)) as [Hin|Hni].
  - apply list_elem_of_lookup_1 in Hin as [j Hj]. rewrite (GetVarByName_index _ _ _ Hwf Hj).
    apply lookup_lt_Some in Hj. pose proof (length_declared _ Hwf). destruct Hwf.
    unfold NUM_IPS_OPTIONS_VARS in *. lia.
  - by rewrite (proj2 (GetVarByName_none vars nm) Hni).
Qed.

Lemma var_index_ok vars nm i : vars_wf vars -> var_index vars nm = Some i -> var_ok i.
Proof.
  intros Hwf. unfold var_index. destruct nm as [|c nm]; [by intros [= <-]|]. cbv zeta.
  bcases; [done|]. intros [= <-]. by apply GetVarByName_var_ok.
Qed.

(** Reading an operand gives a 32-bit value. *)
Lemma var_or_u32 v var k :
  vars_wf v -> Forall is_u32 (extracted_values v) -> is_u32 k -> is_u32 (var_or v var k).
Proof.
  intros Hwf Hv Hk. unfold var_or. bcases; [|done]. unfold GetVarValueByIndex.
  bcases; simpl; [mlia|]. unfold rd0, rd. bcases; simpl; [mlia|].
  destruct (extracted_values v !! _) eqn:E; simpl; [|mlia]. by eapply Forall_lookup_1 in E.
Qed.
