(* ===== verification/ByteTest.v ===== *)
(** * ByteTest: the [byte_test] rule option (ips_options/ips_byte_test.cc)

    Reads a number from the buffer and compares it with a constant or a
    variable.  The module parses the option's parameters into [ByteTestData],
    the option evaluates it. *)

From S2P Require Import Prelude Cursor Extract ParseUtils Hash IpsCommon.

Inductive ByteTestOper :=
  CHECK_EQ | CHECK_LT | CHECK_GT | CHECK_LTE | CHECK_GTE | CHECK_AND | CHECK_XOR.

#[export] Instance ByteTestOper_eq_dec : EqDecision ByteTestOper.
Proof. solve_decision. Defined.

(** The enumerator's value. *)
Definition oper_val (o : ByteTestOper) : Z :=
  match o with
  | CHECK_EQ => 0 | CHECK_LT => 1 | CHECK_GT => 2 | CHECK_LTE => 3
  | CHECK_GTE => 4 | CHECK_AND => 5 | CHECK_XOR => 6
  end.

(** [endian] is the field [endianness]. *)
Record ByteTestData := MkByteTest {
  bytes_to_compare : Z;
  cmp_value : Z;
  opcode : ByteTestOper;
  offset : Z;
  not_flag : bool;
  relative_flag : bool;
  data_string_convert_flag : bool;
  endian : Z;
  base : Z;
  bitmask_val : Z;
  cmp_value_var : Z;
  offset_var : Z }.

Definition set_bytes_to_compare (d : ByteTestData) (x : Z) : ByteTestData :=
  MkByteTest x (cmp_value d) (opcode d) (offset d) (not_flag d) (relative_flag d)
    (data_string_convert_flag d) (endian d) (base d) (bitmask_val d) (cmp_value_var d)
    (offset_var d).
Definition set_cmp_value (d : ByteTestData) (x : Z) : ByteTestData :=
  MkByteTest (bytes_to_compare d) x (opcode d) (offset d) (not_flag d) (relative_flag d)
    (data_string_convert_flag d) (endian d) (base d) (bitmask_val d) (cmp_value_var d)
    (offset_var d).
Definition set_opcode (d : ByteTestData) (x : ByteTestOper) : ByteTestData :=
  MkByteTest (bytes_to_compare d) (cmp_value d) x (offset d) (not_flag d) (relative_flag
    d) (data_string_convert_flag d) (endian d) (base d) (bitmask_val d) (cmp_value_var d)
    (offset_var d).
Definition set_offset (d : ByteTestData) (x : Z) : ByteTestData :=
  MkByteTest (bytes_to_compare d) (cmp_value d) (opcode d) x (not_flag d) (relative_flag
    d) (data_string_convert_flag d) (endian d) (base d) (bitmask_val d) (cmp_value_var d)
    (offset_var d).
Definition set_not_flag (d : ByteTestData) (x : bool) : ByteTestData :=
  MkByteTest (bytes_to_compare d) (cmp_value d) (opcode d) (offset d) x (relative_flag d)
    (data_string_convert_flag d) (endian d) (base d) (bitmask_val d) (cmp_value_var d)
    (offset_var d).
Definition set_relative_flag (d : ByteTestData) (x : bool) : ByteTestData :=
  MkByteTest (bytes_to_compare d) (cmp_value d) (opcode d) (offset d) (not_flag d) x
    (data_string_convert_flag d) (endian d) (base d) (bitmask_val d) (cmp_value_var d)
    (offset_var d).
Definition set_data_string_convert_flag (d : ByteTestData) (x : bool) : ByteTestData :=
  MkByteTest (bytes_to_compare d) (cmp_value d) (opcode d) (offset d) (not_flag d)
    (relative_flag d) x (endian d) (base d) (bitmask_val d) (cmp_value_var d) (offset_var
    d).
Definition set_endian (d : ByteTestData) (x : Z) : ByteTestData :=
  MkByteTest (bytes_to_compare d) (cmp_value d) (opcode d) (offset d) (not_flag d)
    (relative_flag d) (data_string_convert_flag d) x (base d) (bitmask_val d)
    (cmp_value_var d) (offset_var d).
Definition set_base (d : ByteTestData) (x : Z) : ByteTestData :=
  MkByteTest (bytes_to_compare d) (cmp_value d) (opcode d) (offset d) (not_flag d)
    (relative_flag d) (data_string_convert_flag d) (endian d) x (bitmask_val d)
    (cmp_value_var d) (offset_var d).
Definition set_bitmask_val (d : ByteTestData) (x : Z) : ByteTestData :=
  MkByteTest (bytes_to_compare d) (cmp_value d) (opcode d) (offset d) (not_flag d)
    (relative_flag d) (data_string_convert_flag d) (endian d) (base d) x (cmp_value_var d)
    (offset_var d).
Definition set_cmp_value_var (d : ByteTestData) (x : Z) : ByteTestData :=
  MkByteTest (bytes_to_compare d) (cmp_value d) (opcode d) (offset d) (not_flag d)
    (relative_flag d) (data_string_convert_flag d) (endian d) (base d) (bitmask_val d) x
    (offset_var d).
Definition set_offset_var (d : ByteTestData) (x : Z) : ByteTestData :=
  MkByteTest (bytes_to_compare d) (cmp_value d) (opcode d) (offset d) (not_flag d)
    (relative_flag d) (data_string_convert_flag d) (endian d) (base d) (bitmask_val d)
    (cmp_value_var d) x.

(** ** Evaluation *)

Definition byte_test_check (op : ByteTestOper) (val cmp : Z) (not_flag : bool) : bool :=
  let success :=
    match op with
    | CHECK_LT => val <? cmp
    | CHECK_EQ => val =? cmp
    | CHECK_GT => val >? cmp
    | CHECK_AND => Z.land val cmp >? 0
    | CHECK_XOR => Z.lxor val cmp >? 0
    | CHECK_GTE => val >=? cmp
    | CHECK_LTE => val <=? cmp
    end in
  if not_flag then negb success else success.

(** The option object: the base class and the parsed data. *)
Record ByteTestOption := MkByteTestOption { bt_base : IpsOption; config : ByteTestData }.

Definition hash (o : ByteTestOption) : Z :=
  let d := config o in
  let '(a, b, c) := mix 32 (bytes_to_compare d, cmp_value d, oper_val (opcode d)) in
  let a := u32 (a + offset d) in
  let b := u32 (b + if not_flag d then Z.shiftl 1 24 else 0) in
  let b := u32 (b + if relative_flag d then Z.shiftl 1 16 else 0) in
  let b := u32 (b + if data_string_convert_flag d then Z.shiftl 1 8 else 0) in
  let b := u32 (b + endian d) in
  let c := u32 (c + base d) in
  let '(a, b, c) := mix 32 (a, b, c) in
  let a := u32 (a + cmp_value_var d) in
  let b := u32 (b + offset_var d) in
  let c := u32 (c + bitmask_val d) in
  hash_tail (mix 32 (a, b, c)) (opt_name (bt_base o)).

Definition eqb (l r : ByteTestOption) : bool :=
  if negb (IpsOption_eqb (bt_base l) (bt_base r)) then false else
  let left := config l in let right := config r in
  (bytes_to_compare left =? bytes_to_compare right) &&
  (cmp_value left =? cmp_value right) &&
  bool_decide (opcode left = opcode right) &&
  (offset left =? offset right) &&
  Bool.eqb (not_flag left) (not_flag right) &&
  Bool.eqb (relative_flag left) (relative_flag right) &&
  Bool.eqb (data_string_convert_flag left) (data_string_convert_flag right) &&
  (endian left =? endian right) &&
  (base left =? base right) &&
  (cmp_value_var left =? cmp_value_var right) &&
  (offset_var left =? offset_var right) &&
  (bitmask_val left =? bitmask_val right).

(** [start_ptr] as an index into the cursor's buffer. *)
Definition start_ptr (v : ips_vars) (btd : ByteTestData) (c : Cursor) : Z :=
  let offset :=
    if (offset_var btd >=? 0) && (offset_var btd <? NUM_IPS_OPTIONS_VARS)
    then s32 (default 0 (GetVarValueByIndex v (offset_var btd))) else offset btd in
  (if relative_flag btd then pos c else 0) + offset.

(** The switch between binary and string extraction; [None] is [NO_MATCH]. *)
Definition extract_value (btd : ByteTestData) (endian start_ptr : Z) (c : Cursor) : option Z :=
  if negb (data_string_convert_flag btd) then
    match byte_extract endian (s32 (bytes_to_compare btd)) (data c) start_ptr 0 (sz c) with
    | inl _ => None
    | inr value => Some value
    end
  else
    let len := if relative_flag btd then length_ c else sz c in
    let len := if len >? bytes_to_compare btd then bytes_to_compare btd else len in
    match string_extract (s32 len) (base btd) (data c) start_ptr 0 (sz c) with
    | inl _ => None
    | inr (_, value) => Some value
    end.

Definition eval (v : ips_vars) (p : Packet) (btd : ByteTestData) (c : Cursor) : EvalStatus :=
  let cmp_value := var_or v (cmp_value_var btd) (cmp_value btd) in
  let start := start_ptr v btd c in
  match resolve_endian p (endian btd) start with
  | None => NO_MATCH
  | Some endian =>
      match extract_value btd endian start c with
      | None => NO_MATCH
      | Some value =>
          let value := apply_bitmask value (bitmask_val btd) in
          if byte_test_check (opcode btd) value cmp_value (not_flag btd) then MATCH else NO_MATCH
      end
  end.

(** ** Parsing *)

(** [parse_operator] on the characters of [oper]: the data with [not_flag] and
    [opcode] set, and whether no [ParseError] was reported. *)
Definition parse_operator (oper : list Z) (idx : ByteTestData) : ByteTestData * bool :=
  let '(idx, cptr) :=
    match oper with
    | c :: r => if c =? 33 then (set_not_flag idx true, r) else (idx, oper)
    | [] => (idx, oper)
    end in
  if not_flag idx && (Zlen cptr =? 0) then (set_opcode idx CHECK_EQ, true)
  else
    match cptr with
    | [] => (idx, false)
    | c :: r =>
        let or_equal strict loose :=
          match r with
          | e :: r' => if e =? 61 then (set_opcode idx loose, Zlen r' =? 0)
                       else (set_opcode idx strict, Zlen r =? 0)
          | [] => (set_opcode idx strict, true)
          end in
        if c =? 60 then or_equal CHECK_LT CHECK_LTE
        else if c =? 61 then (set_opcode idx CHECK_EQ, Zlen r =? 0)
        else if c =? 62 then or_equal CHECK_GT CHECK_GTE
        else if c =? 38 then (set_opcode idx CHECK_AND, Zlen r =? 0)
        else if c =? 94 then (set_opcode idx CHECK_XOR, Zlen r =? 0)
        else (idx, false)
    end.

(** The module's members. *)
Record ByteTestModule := MkModule { md : ByteTestData; cmp_var : list Z; off_var : list Z }.

Definition begin_ : ByteTestModule :=
  MkModule (MkByteTest 0 0 CHECK_EQ 0 false false false 0 0 0 0 0) [] [].

Definition with_data (m : ByteTestModule) (d : ByteTestData) : ByteTestModule :=
  MkModule d (cmp_var m) (off_var m).

(** [set]: [None] for an unknown parameter (the return of [false]); the flag
    tells that no error was reported. *)
Definition set_ (m : ByteTestModule) (v : Value) : option (ByteTestModule * bool) :=
  let d := md m in
  let ok d := Some (with_data m d, true) in
  if v_is v "~count" then ok (set_bytes_to_compare d (u32 (get_long v)))
  else if v_is v "~operator" then
    let '(d, b) := parse_operator (get_string v) d in Some (with_data m d, b)
  else if v_is v "~compare" then
    match v_strtol v with
    | Some n => ok (set_cmp_value d (u32 n))
    | None => Some (MkModule d (get_string v) (off_var m), true)
    end
  else if v_is v "~offset" then
    match v_strtol v with
    | Some n => ok (set_offset d (s32 n))
    | None => Some (MkModule d (cmp_var m) (get_string v), true)
    end
  else if v_is v "relative" then ok (set_relative_flag d true)
  else if v_is v "big" then ok (set_endian d (set_byte_order (endian d) ENDIAN_BIG))
  else if v_is v "little" then ok (set_endian d (set_byte_order (endian d) ENDIAN_LITTLE))
  else if v_is v "dce" then ok (set_endian d (set_byte_order (endian d) ENDIAN_FUNC))
  else if v_is v "string" then ok (set_base (set_data_string_convert_flag d true) 10)
  else if v_is v "dec" then ok (set_base d 10)
  else if v_is v "hex" then ok (set_base d 16)
  else if v_is v "oct" then ok (set_base d 8)
  else if v_is v "bitmask" then ok (set_bitmask_val d (u32 (get_long v)))
  else None.

Definition end_ (vars : ips_vars) (m : ByteTestModule) : option ByteTestData :=
  match var_index vars (off_var m) with
  | None => None
  | Some o =>
      match var_index vars (cmp_var m) with
      | None => None
      | Some k =>
          let d := set_cmp_value_var (set_offset_var (md m) o) k in
          let d := if negb (truth (endian d)) then set_endian d ENDIAN_BIG else d in
          if numBytesInBitmask (bitmask_val d) >? bytes_to_compare d then None else Some d
      end
  end.

(** ** Specification *)

(** What each operator means. *)
Definition test_holds (op : ByteTestOper) (x y : Z) : Prop :=
  match op with
  | CHECK_EQ => x = y
  | CHECK_LT => x < y
  | CHECK_GT => x > y
  | CHECK_LTE => x <= y
  | CHECK_GTE => x >= y
  | CHECK_AND => exists i, 0 <= i /\ Z.testbit x i = true /\ Z.testbit y i = true
  | CHECK_XOR => x <> y
  end.

(** The text of an operator in a rule. *)
Definition print_oper (neg : bool) (op : ByteTestOper) : list Z :=
  (if neg then [33] else []) ++
  match op with
  | CHECK_EQ => [61] | CHECK_LT => [60] | CHECK_GT => [62] | CHECK_LTE => [60; 61]
  | CHECK_GTE => [62; 61] | CHECK_AND => [38] | CHECK_XOR => [94]
  end.

Lemma land_pos_testbit x y :
  0 <= x -> 0 <= y ->
  0 < Z.land x y <-> exists i, 0 <= i /\ Z.testbit x i = true /\ Z.testbit y i = true.
Proof.
  intros Hx Hy. assert (0 <= Z.land x y) as Hn by (apply Z.land_nonneg; lia). split.
  - intros Hp. exists (Z.log2 (Z.land x y)). split; [apply Z.log2_nonneg|].
    apply andb_true_iff. rewrite <- Z.land_spec. by apply Z.bit_log2.
  - intros (i & Hi & Hxi & Hyi). destruct (Z.eq_dec (Z.land x y) 0) as [E|]; [|lia].
    assert (Z.testbit (Z.land x y) i = true) as Ht by (rewrite Z.land_spec, Hxi, Hyi; done).
    by rewrite E, Z.bits_0 in Ht.
Qed.

Lemma lxor_pos x y : 0 <= x -> 0 <= y -> 0 < Z.lxor x y <-> x <> y.
Proof.
  intros Hx Hy. assert (0 <= Z.lxor x y) by (apply Z.lxor_nonneg; lia).
  pose proof (Z.lxor_eq_0_iff x y). lia.
Qed.

Lemma byte_test_check_spec op x y neg :
  0 <= x -> 0 <= y -> byte_test_check op x y neg = true <-> (test_holds op x y <-> neg = false).
Proof.
  intros Hx Hy.
  assert (byte_test_check op x y false = true <-> test_holds op x y) as H.
  { unfold byte_test_check, test_holds. destruct op; try lia.
    - rewrite Z.gtb_lt. by apply land_pos_testbit.
    - rewrite Z.gtb_lt. by apply lxor_pos. }
  rewrite <- H. unfold byte_test_check. destruct neg.
  - rewrite negb_true_iff. destruct (match op with CHECK_EQ => _ | _ => _ end); intuition congruence.
  - intuition congruence.
Qed.

Lemma byte_test_eqb_hash x y : eqb x y = true -> hash x = hash y.
Proof.
  unfold eqb. destruct (IpsOption_eqb (bt_base x) (bt_base y)) eqn:E; [|done]. simpl.
  apply IpsOption_eqb_name in E as [En _]. intros H. breflect.
  repeat match goal with
  | H : Bool.eqb _ _ = true |- _ => apply eqb_prop in H
  | H : bool_decide _ = true |- _ => apply bool_decide_eq_true in H
  end.
  assert (config x = config y) as Hc
    by (destruct (config x), (config y); simpl in *; congruence).
  unfold hash. by rewrite Hc, En.
Qed.

Lemma parse_operator_accepts s d d' :
  d = set_not_flag d false -> parse_operator s d = (d', true) ->
  exists neg op, (s = print_oper neg op \/ s = [33] /\ neg = true /\ op = CHECK_EQ) /\
    d' = set_opcode (set_not_flag d neg) op.
Proof.
  intros Hd0. unfold parse_operator. intros H.
  assert (exists neg r, s = (if neg : bool then [33] else []) ++ r /\
    (neg = false -> forall r', r <> 33 :: r') /\
    match s with
    | c :: r => if c =? 33 then (set_not_flag d true, r) else (d, s)
    | [] => (d, s)
    end = (set_not_flag d neg, r)) as (neg & r & -> & Hr & E).
  { destruct s as [|c r]; [exists false, []; rewrite <- Hd0; done|].
    bcase (c =? 33) as Ec; [exists true, r; by subst|].
    exists false, (c :: r). rewrite <- Hd0. split_and!; [done|congruence|done]. }
  rewrite E in H. simpl not_flag in H. clear E Hr.
  destruct r as [|c r]; simpl in H.
  { destruct neg; simpl in H; [|done]. injection H as <-. exists true, CHECK_EQ. auto. }
  rewrite andb_false_r in H.
  assert (forall l : list Z, (Zlen l =? 0) = true -> l = []) as Hnil.
  { intros [|] Hl; [done|]. unfold Zlen in Hl. simpl in Hl. lia. }
  exists neg. unfold print_oper.
  bcase (c =? 60) as E1; [|bcase (c =? 61) as E2; [|bcase (c =? 62) as E3;
    [|bcase (c =? 38) as E4; [|bcase (c =? 94) as E5; [|done]]]]].
  + destruct r as [|e r]; [injection H as <-; exists CHECK_LT; subst; auto|].
    bcase (e =? 61) as E; [injection H as <- Hl%Hnil; exists CHECK_LTE; subst; auto|done].
  + injection H as <- Hl%Hnil. exists CHECK_EQ. subst. auto.
  + destruct r as [|e r]; [injection H as <-; exists CHECK_GT; subst; auto|].
    bcase (e =? 61) as E; [injection H as <- Hl%Hnil; exists CHECK_GTE; subst; auto|done].
  + injection H as <- Hl%Hnil. exists CHECK_AND. subst. auto.
  + injection H as <- Hl%Hnil. exists CHECK_XOR. subst. auto.
Qed.

#[export] Instance ByteTest_key : OptionKey ByteTestOption :=
  {| opt_hash := hash; opt_eqb := eqb; opt_eqb_hash := byte_test_eqb_hash |}.

(** ** Properties *)

(** C21. [byte_test] on binary data matches exactly when a byte order is
    known, the whole field lies inside the cursor's buffer, and the number it
    denotes, masked and shifted, stands in the configured relation to the
    comparison value - or does not, with the negation flag. *)
Theorem byte_test_eval_spec v p d c :
  cursor_wf c -> vars_wf v -> Forall is_u32 (extracted_values v) ->
  is_u32 (cmp_value d) -> is_u32 (bitmask_val d) -> 0 <= bytes_to_compare d <= 10 ->
  data_string_convert_flag d = false ->
  eval v p d c = MATCH <->
  exists e x,
    resolve_endian p (endian d) (start_ptr v d c) = Some e /\
    field c e (bytes_to_compare d) (start_ptr v d c) x /\
    (test_holds (opcode d) (apply_bitmask x (bitmask_val d)) (var_or v (cmp_value_var d) (cmp_value d))
     <-> not_flag d = false).
Proof.
  intros Hc Hv Hu Hk Hm Hn Hs. unfold eval, extract_value. rewrite Hs. simpl negb.
  rewrite s32_small by (unfold is_s32; lia).
  pose proof (var_or_u32 v (cmp_value_var d) (cmp_value d) Hv Hu Hk) as Hcmp.
  destruct (resolve_endian p (endian d) (start_ptr v d c)) as [e|];
    [|split; [done|intros (? & ? & ? & _); congruence]].
  pose proof (byte_extract_field e (bytes_to_compare d) c (start_ptr v d c)) as Hf.
  destruct (byte_extract _ _ _ _ _ _) as [r|x].
  { split; [done|]. intros (e' & x & [= ->] & Hx%Hf & _); done. }
  assert (field c e (bytes_to_compare d) (start_ptr v d c) x) as Hx by (by apply Hf).
  assert (is_u32 (apply_bitmask x (bitmask_val d))) as Hax
    by (eapply apply_bitmask_range, Hm; by eapply field_u32).
  pose proof (byte_test_check_spec (opcode d) (apply_bitmask x (bitmask_val d))
    (var_or v (cmp_value_var d) (cmp_value d)) (not_flag d)) as Hck.
  unfold is_u32 in *. specialize (Hck ltac:(lia) ltac:(lia)).
  destruct (byte_test_check _ _ _ _).
  - split; [|done]. intros _. exists e, x. by rewrite <- Hck.
  - split; [done|]. intros (e' & x' & [= <-] & Hx' & Ht). rewrite (field_fun _ _ _ _ _ _ Hx' Hx) in Ht.
    by apply Hck in Ht.
Qed.

Definition demo_data : ByteTestData :=
  MkByteTest 2 300 CHECK_GT 1 false false false ENDIAN_BIG 0 0 (-1) (-1).

Lemma byte_test_eval_spec_witness :
  eval demo_vars (MkPacket None 0) demo_data (cursor_set "pkt_data" [9; 1; 45; 7] 4) = MATCH /\
  exists e x,
    resolve_endian (MkPacket None 0) ENDIAN_BIG 1 = Some e /\
    field (cursor_set "pkt_data" [9; 1; 45; 7] 4) e 2 1 x /\
    (test_holds CHECK_GT (apply_bitmask x 0) 300 <-> false = false).
Proof.
  assert (eval demo_vars (MkPacket None 0) demo_data (cursor_set "pkt_data" [9; 1; 45; 7] 4) = MATCH)
    as H by reflexivity.
  split; [exact H|].
  refine (proj1 (byte_test_eval_spec demo_vars (MkPacket None 0) demo_data
    (cursor_set "pkt_data" [9; 1; 45; 7] 4) _ demo_vars_wf _ _ _ _ _) H).
  - apply cursor_set_wf; [repeat constructor; done|done|done].
  - repeat constructor; done.
  - done.
  - done.
  - done.
  - reflexivity.
Defined.

(** The operator syntax: on a fresh configuration [parse_operator]
    accepts exactly the texts of the seven operators, each with an optional
    [!], and [!] alone (which means [!=]), and stores operator and negation. *)
Theorem parse_operator_spec s d d' :
  not_flag d = false ->
  parse_operator s d = (d', true) <->
  exists neg op, (s = print_oper neg op \/ s = [33] /\ neg = true /\ op = CHECK_EQ) /\
    d' = set_opcode (set_not_flag d neg) op.
Proof.
  intros Hd.
  assert (d = set_not_flag d false) as Hd0 by (destruct d; simpl in *; by subst).
  split; [by apply parse_operator_accepts|].
  intros (neg & op & [->|(-> & -> & ->)] & ->).
  - rewrite Hd0 at 1. destruct d, neg, op; done.
  - by destruct d.
Qed.

Lemma parse_operator_spec_witness :
  parse_operator [33; 62; 61] (md begin_) =
    (set_opcode (set_not_flag (md begin_) true) CHECK_GTE, true).
Proof.
  apply (parse_operator_spec [33; 62; 61] (md begin_)); [reflexivity|].
  exists true, CHECK_GTE. auto.
Defined.
