(* ===== verification/ByteJump.v ===== *)
(** * ByteJump: the [byte_jump] rule option (ips_options/ips_byte_jump.cc)

    Reads a number from the buffer and moves the cursor by it. *)

From S2P Require Import Prelude Cursor Extract ParseUtils Hash IpsCommon.

(** [endian] is the field [endianness]. *)
Record ByteJumpData := MkByteJump {
  bytes_to_grab : Z;
  offset : Z;
  relative_flag : Z;
  data_string_convert_flag : Z;
  from_beginning_flag : Z;
  align_flag : Z;
  endian : Z;
  base : Z;
  multiplier : Z;
  post_offset : Z;
  bitmask_val : Z;
  offset_var : Z;
  from_end_flag : Z;
  post_offset_var : Z }.

Definition set_bytes_to_grab (d : ByteJumpData) (x : Z) : ByteJumpData :=
  MkByteJump x (offset d) (relative_flag d) (data_string_convert_flag d)
    (from_beginning_flag d) (align_flag d) (endian d) (base d) (multiplier d) (post_offset
    d) (bitmask_val d) (offset_var d) (from_end_flag d) (post_offset_var d).
Definition set_offset (d : ByteJumpData) (x : Z) : ByteJumpData :=
  MkByteJump (bytes_to_grab d) x (relative_flag d) (data_string_convert_flag d)
    (from_beginning_flag d) (align_flag d) (endian d) (base d) (multiplier d) (post_offset
    d) (bitmask_val d) (offset_var d) (from_end_flag d) (post_offset_var d).
Definition set_relative_flag (d : ByteJumpData) (x : Z) : ByteJumpData :=
  MkByteJump (bytes_to_grab d) (offset d) x (data_string_convert_flag d)
    (from_beginning_flag d) (align_flag d) (endian d) (base d) (multiplier d) (post_offset
    d) (bitmask_val d) (offset_var d) (from_end_flag d) (post_offset_var d).
Definition set_data_string_convert_flag (d : ByteJumpData) (x : Z) : ByteJumpData :=
  MkByteJump (bytes_to_grab d) (offset d) (relative_flag d) x (from_beginning_flag d)
    (align_flag d) (endian d) (base d) (multiplier d) (post_offset d) (bitmask_val d)
    (offset_var d) (from_end_flag d) (post_offset_var d).
Definition set_from_beginning_flag (d : ByteJumpData) (x : Z) : ByteJumpData :=
  MkByteJump (bytes_to_grab d) (offset d) (relative_flag d) (data_string_convert_flag d) x
    (align_flag d) (endian d) (base d) (multiplier d) (post_offset d) (bitmask_val d)
    (offset_var d) (from_end_flag d) (post_offset_var d).
Definition set_align_flag (d : ByteJumpData) (x : Z) : ByteJumpData :=
  MkByteJump (bytes_to_grab d) (offset d) (relative_flag d) (data_string_convert_flag d)
    (from_beginning_flag d) x (endian d) (base d) (multiplier d) (post_offset d)
    (bitmask_val d) (offset_var d) (from_end_flag d) (post_offset_var d).
Definition set_endian (d : ByteJumpData) (x : Z) : ByteJumpData :=
  MkByteJump (bytes_to_grab d) (offset d) (relative_flag d) (data_string_convert_flag d)
    (from_beginning_flag d) (align_flag d) x (base d) (multiplier d) (post_offset d)
    (bitmask_val d) (offset_var d) (from_end_flag d) (post_offset_var d).
Definition set_base (d : ByteJumpData) (x : Z) : ByteJumpData :=
  MkByteJump (bytes_to_grab d) (offset d) (relative_flag d) (data_string_convert_flag d)
    (from_beginning_flag d) (align_flag d) (endian d) x (multiplier d) (post_offset d)
    (bitmask_val d) (offset_var d) (from_end_flag d) (post_offset_var d).
Definition set_multiplier (d : ByteJumpData) (x : Z) : ByteJumpData :=
  MkByteJump (bytes_to_grab d) (offset d) (relative_flag d) (data_string_convert_flag d)
    (from_beginning_flag d) (align_flag d) (endian d) (base d) x (post_offset d)
    (bitmask_val d) (offset_var d) (from_end_flag d) (post_offset_var d).
Definition set_post_offset (d : ByteJumpData) (x : Z) : ByteJumpData :=
  MkByteJump (bytes_to_grab d) (offset d) (relative_flag d) (data_string_convert_flag d)
    (from_beginning_flag d) (align_flag d) (endian d) (base d) (multiplier d) x
    (bitmask_val d) (offset_var d) (from_end_flag d) (post_offset_var d).
Definition set_bitmask_val (d : ByteJumpData) (x : Z) : ByteJumpData :=
  MkByteJump (bytes_to_grab d) (offset d) (relative_flag d) (data_string_convert_flag d)
    (from_beginning_flag d) (align_flag d) (endian d) (base d) (multiplier d) (post_offset
    d) x (offset_var d) (from_end_flag d) (post_offset_var d).
Definition set_offset_var (d : ByteJumpData) (x : Z) : ByteJumpData :=
  MkByteJump (bytes_to_grab d) (offset d) (relative_flag d) (data_string_convert_flag d)
    (from_beginning_flag d) (align_flag d) (endian d) (base d) (multiplier d) (post_offset
    d) (bitmask_val d) x (from_end_flag d) (post_offset_var d).
Definition set_from_end_flag (d : ByteJumpData) (x : Z) : ByteJumpData :=
  MkByteJump (bytes_to_grab d) (offset d) (relative_flag d) (data_string_convert_flag d)
    (from_beginning_flag d) (align_flag d) (endian d) (base d) (multiplier d) (post_offset
    d) (bitmask_val d) (offset_var d) x (post_offset_var d).
Definition set_post_offset_var (d : ByteJumpData) (x : Z) : ByteJumpData :=
  MkByteJump (bytes_to_grab d) (offset d) (relative_flag d) (data_string_convert_flag d)
    (from_beginning_flag d) (align_flag d) (endian d) (base d) (multiplier d) (post_offset
    d) (bitmask_val d) (offset_var d) (from_end_flag d) x.

(** ** The option *)

Record ByteJumpOption := MkByteJumpOption { bj_base : IpsOption; config : ByteJumpData }.

Definition hash (o : ByteJumpOption) : Z :=
  let d := config o in
  let '(a, b, c) := mix 32 (bytes_to_grab d, u32 (offset d), base d) in
  let a := u32 (a + Z.lor (Z.lor (Z.lor (Z.shiftl (relative_flag d) 24)
                                        (Z.shiftl (data_string_convert_flag d) 16))
                                 (Z.shiftl (from_beginning_flag d) 8))
                          (align_flag d)) in
  let b := u32 (b + endian d) in
  let c := u32 (c + multiplier d) in
  let '(a, b, c) := mix 32 (a, b, c) in
  let a := u32 (a + post_offset d) in
  let b := u32 (b + Z.lor (Z.lor (Z.shiftl (from_end_flag d) 16)
                                 (u32 (Z.shiftl (u32 (offset_var d)) 8)))
                          (u32 (post_offset_var d))) in
  let c := u32 (c + bitmask_val d) in
  hash_tail (mix 32 (a, b, c)) (opt_name (bj_base o)).

Definition eqb (l r : ByteJumpOption) : bool :=
  if negb (IpsOption_eqb (bj_base l) (bj_base r)) then false else
  let left := config l in let right := config r in
  (bytes_to_grab left =? bytes_to_grab right) &&
  (offset left =? offset right) &&
  (offset_var left =? offset_var right) &&
  (relative_flag left =? relative_flag right) &&
  (data_string_convert_flag left =? data_string_convert_flag right) &&
  (from_beginning_flag left =? from_beginning_flag right) &&
  (align_flag left =? align_flag right) &&
  (endian left =? endian right) &&
  (base left =? base right) &&
  (multiplier left =? multiplier right) &&
  (post_offset left =? post_offset right) &&
  (bitmask_val left =? bitmask_val right) &&
  (from_end_flag left =? from_end_flag right) &&
  (post_offset_var left =? post_offset_var right).

Definition jump_offset (v : ips_vars) (bjd : ByteJumpData) : Z :=
  var_or_s32 v (offset_var bjd) (offset bjd).

(** [base_ptr] as an index into the cursor's buffer. *)
Definition base_ptr (v : ips_vars) (bjd : ByteJumpData) (c : Cursor) : Z :=
  jump_offset v bjd + (if truth (relative_flag bjd) then pos c else 0).

(** Mask, multiply and align what was read. *)
Definition scale_jump (bjd : ByteJumpData) (jump : Z) : Z :=
  let jump := apply_bitmask jump (bitmask_val bjd) in
  let jump := if truth (multiplier bjd) then u32 (jump * multiplier bjd) else jump in
  if truth (align_flag bjd) then
    if negb (jump mod 4 =? 0) then u32 (jump + (4 - jump mod 4)) else jump
  else jump.

(** The extraction: the jump and the number of bytes grabbed; [None] is
    [NO_MATCH]. *)
Definition extract_jump (bjd : ByteJumpData) (endian base_ptr : Z) (c : Cursor) : option (Z * Z) :=
  if truth (bytes_to_grab bjd) then
    if negb (truth (data_string_convert_flag bjd)) then
      match byte_extract endian (s32 (bytes_to_grab bjd)) (data c) base_ptr 0 (sz c) with
      | inl _ => None
      | inr jump => Some (scale_jump bjd jump, bytes_to_grab bjd)
      end
    else
      match string_extract (s32 (bytes_to_grab bjd)) (base bjd) (data c) base_ptr 0 (sz c) with
      | inl _ => None
      | inr (tmp, jump) => Some (scale_jump bjd jump, tmp)
      end
  else Some (0, 0).

(** The new position, [uint32_t] arithmetic. *)
Definition jump_pos (v : ips_vars) (bjd : ByteJumpData) (c : Cursor) (jump grabbed : Z) : Z :=
  let post_offset := var_or_s32 v (post_offset_var bjd) (post_offset bjd) in
  let pos :=
    if truth (from_beginning_flag bjd) then jump
    else if truth (from_end_flag bjd) then u32 (sz c + jump)
    else u32 (pos c + jump_offset v bjd + grabbed + jump) in
  u32 (pos + post_offset).

Definition eval (v : ips_vars) (p : Packet) (bjd : ByteJumpData) (c : Cursor) : EvalStatus * Cursor :=
  let base := base_ptr v bjd c in
  match resolve_endian p (endian bjd) base with
  | None => (NO_MATCH, c)
  | Some endian =>
      match extract_jump bjd endian base c with
      | None => (NO_MATCH, c)
      | Some (jump, payload_bytes_grabbed) =>
          let '(b, c') := set_pos c (jump_pos v bjd c jump payload_bytes_grabbed) in
          if negb b then (NO_MATCH, c') else (MATCH, c')
      end
  end.

(** ** The module *)

Record ByteJumpModule := MkModule { md : ByteJumpData; var : list Z; post_var : list Z }.

Definition begin_ : ByteJumpModule :=
  MkModule (set_multiplier (MkByteJump 0 0 0 0 0 0 0 0 0 0 0 0 0 0) 1) [] [].

Definition set_ (m : ByteJumpModule) (v : Value) : option ByteJumpModule :=
  let d := md m in
  let ok d := Some (MkModule d (var m) (post_var m)) in
  if v_is v "~count" then ok (set_bytes_to_grab d (u32 (get_long v)))
  else if v_is v "~offset" then
    match v_strtol v with
    | Some n => ok (set_offset d (s32 n))
    | None => Some (MkModule d (get_string v) (post_var m))
    end
  else if v_is v "relative" then ok (set_relative_flag d 1)
  else if v_is v "from_beginning" then ok (set_from_beginning_flag d 1)
  else if v_is v "align" then ok (set_align_flag d 1)
  else if v_is v "multiplier" then ok (set_multiplier d (u32 (get_long v)))
  else if v_is v "post_offset" then
    match v_strtol v with
    | Some n => ok (set_post_offset d (s32 n))
    | None => Some (MkModule d (var m) (get_string v))
    end
  else if v_is v "big" then ok (set_endian d (set_byte_order (endian d) ENDIAN_BIG))
  else if v_is v "little" then ok (set_endian d (set_byte_order (endian d) ENDIAN_LITTLE))
  else if v_is v "dce" then ok (set_endian d (set_byte_order (endian d) ENDIAN_FUNC))
  else if v_is v "string" then ok (set_base (set_data_string_convert_flag d 1) 10)
  else if v_is v "dec" then ok (set_base d 10)
  else if v_is v "hex" then ok (set_base d 16)
  else if v_is v "oct" then ok (set_base d 8)
  else if v_is v "from_end" then ok (set_from_end_flag d 1)
  else if v_is v "bitmask" then ok (set_bitmask_val d (u32 (get_long v)))
  else None.

Definition end_ (vars : ips_vars) (m : ByteJumpModule) : option ByteJumpData :=
  match var_index vars (var m) with
  | None => None
  | Some o =>
      match var_index vars (post_var m) with
      | None => None
      | Some q =>
          let d := set_post_offset_var (set_offset_var (md m) o) q in
          let d := if negb (truth (endian d)) then set_endian d ENDIAN_BIG else d in
          if truth (from_beginning_flag d) && truth (from_end_flag d) then None
          else if truth (bitmask_val d) && (numBytesInBitmask (bitmask_val d) >? bytes_to_grab d)
          then None
          else if (bytes_to_grab d >? MAX_BYTES_TO_GRAB) && negb (truth (data_string_convert_flag d))
          then None
          else Some d
      end
  end.

(** ** Lemmas *)

Lemma byte_jump_eqb_hash x y : eqb x y = true -> hash x = hash y.
Proof.
  unfold eqb. destruct (IpsOption_eqb (bj_base x) (bj_base y)) eqn:E; [|done]. simpl.
  apply IpsOption_eqb_name in E as [En _]. intros H. breflect.
  assert (config x = config y) as Hc
    by (destruct (config x), (config y); simpl in *; congruence).
  unfold hash. by rewrite Hc, En.
Qed.

#[export] Instance ByteJump_key : OptionKey ByteJumpOption :=
  {| opt_hash := hash; opt_eqb := eqb; opt_eqb_hash := byte_jump_eqb_hash |}.

Lemma scale_jump_aligned d x :
  align_flag d <> 0 -> is_u32 x -> is_u32 (bitmask_val d) -> scale_jump d x mod 4 = 0.
Proof.
  intros Ha Hx Hm. unfold scale_jump. pose proof (apply_bitmask_range x _ Hx Hm) as Hr.
  bcase (truth (align_flag d)) as E; [|done].
  set (j := if truth (multiplier d) then _ else _). clearbody j. bcases; mlia.
Qed.

Lemma set_pos_cases c n :
  is_u32 n ->
  set_pos c n = if n <=? sz c then (true, with_pos c n) else (false, c).
Proof. intros Hn. unfold set_pos. rewrite u32_small by done. bcases; try lia; done. Qed.

Lemma eval_wf v p d c : cursor_wf c -> cursor_wf (eval v p d c).2.
Proof.
  intros Hc. unfold eval. destruct (resolve_endian _ _ _); [|done].
  destruct (extract_jump _ _ _ _) as [[j g]|]; [|done].
  pose proof (set_pos_wf c (jump_pos v d c j g) Hc).
  destruct (set_pos _ _) as [[] c']; done.
Qed.

(** ** Properties *)

(** [byte_jump] on binary data: it matches exactly when a byte order is
    known, the field it reads lies inside the buffer and the jump's target is
    at most one past its end; then only the position changes, to the target
    computed from the masked, scaled (and, with [align], rounded up to a
    multiple of four) number.  When it does not match the cursor is left alone. *)
Theorem byte_jump_eval_spec v p d c :
  cursor_wf c -> is_u32 (bitmask_val d) -> 1 <= bytes_to_grab d <= 10 ->
  data_string_convert_flag d = 0 ->
  let at_ := base_ptr v d c in
  let target x := jump_pos v d c (scale_jump d x) (bytes_to_grab d) in
  let hit e x := resolve_endian p (endian d) at_ = Some e /\
                 field c e (bytes_to_grab d) at_ x /\ target x <= sz c in
  cursor_wf (eval v p d c).2 /\
  (forall e x, hit e x -> eval v p d c = (MATCH, with_pos c (target x))) /\
  ((forall e x, ~ hit e x) -> eval v p d c = (NO_MATCH, c)) /\
  (forall e x, hit e x -> align_flag d <> 0 -> scale_jump d x mod 4 = 0).
Proof.
  intros Hc Hm Hn Hs at_ target hit. split; [by apply eval_wf|].
  assert (forall x, is_u32 (target x)) as Ht by (intros; apply u32_range).
  assert (truth (bytes_to_grab d) = true) as Hg by (apply truth_true; lia).
  assert (truth (data_string_convert_flag d) = false) as Hf by (by apply truth_false).
  assert (s32 (bytes_to_grab d) = bytes_to_grab d) as Hb by (apply s32_small; unfold is_s32; lia).
  unfold eval, extract_jump. fold at_. rewrite Hg, Hf, Hb. simpl negb. split_and!.
  - intros e x (-> & Hx & Hle). pose proof (byte_extract_field e (bytes_to_grab d) c at_ x Hc) as Hbe.
    rewrite (proj2 Hbe Hx). fold (target x). rewrite set_pos_cases by done.
    by rewrite (proj2 (Z.leb_le _ _) Hle).
  - intros Hno. destruct (resolve_endian p (endian d) at_) as [e|] eqn:Ee; [|done].
    destruct (byte_extract _ _ _ _ _ _) as [r|x] eqn:Ex; [done|].
    apply byte_extract_field in Ex; [|done]. fold (target x). rewrite set_pos_cases by done.
    bcase (target x <=? sz c) as El; [|done]. destruct (Hno e x). by split_and!.
  - intros e x (_ & Hx & _) Ha. apply scale_jump_aligned; [done| |done]. by eapply field_u32.
Qed.

Definition demo_data : ByteJumpData := MkByteJump 1 0 0 0 0 1 ENDIAN_BIG 0 1 0 0 (-1) 0 (-1).
Definition demo_cursor : Cursor := cursor_set "pkt_data" [3; 1; 45; 7; 8; 9] 6.

Lemma byte_jump_eval_spec_witness :
  eval demo_vars (MkPacket None 0) demo_data demo_cursor = (MATCH, with_pos demo_cursor 5).
Proof.
  refine (proj1 (proj2 (byte_jump_eval_spec demo_vars (MkPacket None 0) demo_data demo_cursor
    _ _ _ _)) ENDIAN_BIG 3 _).
  - apply cursor_set_wf; [repeat constructor; done|done|done].
  - done.
  - done.
  - reflexivity.
  - split; [reflexivity|]. split; [|done].
    split; [by right|]. split; [done|]. split; [by vm_compute|reflexivity].
Defined.
