(* ===== verification/ByteExtract.v ===== *)
(** * ByteExtract: the [byte_extract] rule option (ips_options/ips_byte_extract.cc)

    Reads a number from the buffer into a rule variable. *)

From S2P Require Import Prelude Cursor Extract ParseUtils Hash IpsCommon.

(** [endian] is the field [endianness], [var_name] the field [name]. *)
Record ByteExtractData := MkByteExtract {
  bytes_to_grab : Z;
  offset : Z;
  relative_flag : Z;
  data_string_convert_flag : Z;
  align : Z;
  endian : Z;
  base : Z;
  multiplier : Z;
  bitmask_val : Z;
  var_number : Z;
  var_name : option (list Z) }.

Definition set_bytes_to_grab (d : ByteExtractData) (x : Z) : ByteExtractData :=
  MkByteExtract x (offset d) (relative_flag d) (data_string_convert_flag d) (align d)
    (endian d) (base d) (multiplier d) (bitmask_val d) (var_number d) (var_name d).
Definition set_offset (d : ByteExtractData) (x : Z) : ByteExtractData :=
  MkByteExtract (bytes_to_grab d) x (relative_flag d) (data_string_convert_flag d) (align
    d) (endian d) (base d) (multiplier d) (bitmask_val d) (var_number d) (var_name d).
Definition set_relative_flag (d : ByteExtractData) (x : Z) : ByteExtractData :=
  MkByteExtract (bytes_to_grab d) (offset d) x (data_string_convert_flag d) (align d)
    (endian d) (base d) (multiplier d) (bitmask_val d) (var_number d) (var_name d).
Definition set_data_string_convert_flag (d : ByteExtractData) (x : Z) : ByteExtractData :=
  MkByteExtract (bytes_to_grab d) (offset d) (relative_flag d) x (align d) (endian d)
    (base d) (multiplier d) (bitmask_val d) (var_number d) (var_name d).
Definition set_align (d : ByteExtractData) (x : Z) : ByteExtractData :=
  MkByteExtract (bytes_to_grab d) (offset d) (relative_flag d) (data_string_convert_flag
    d) x (endian d) (base d) (multiplier d) (bitmask_val d) (var_number d) (var_name d).
Definition set_endian (d : ByteExtractData) (x : Z) : ByteExtractData :=
  MkByteExtract (bytes_to_grab d) (offset d) (relative_flag d) (data_string_convert_flag
    d) (align d) x (base d) (multiplier d) (bitmask_val d) (var_number d) (var_name d).
Definition set_base (d : ByteExtractData) (x : Z) : ByteExtractData :=
  MkByteExtract (bytes_to_grab d) (offset d) (relative_flag d) (data_string_convert_flag
    d) (align d) (endian d) x (multiplier d) (bitmask_val d) (var_number d) (var_name d).
Definition set_multiplier (d : ByteExtractData) (x : Z) : ByteExtractData :=
  MkByteExtract (bytes_to_grab d) (offset d) (relative_flag d) (data_string_convert_flag
    d) (align d) (endian d) (base d) x (bitmask_val d) (var_number d) (var_name d).
Definition set_bitmask_val (d : ByteExtractData) (x : Z) : ByteExtractData :=
  MkByteExtract (bytes_to_grab d) (offset d) (relative_flag d) (data_string_convert_flag
    d) (align d) (endian d) (base d) (multiplier d) x (var_number d) (var_name d).
Definition set_var_number (d : ByteExtractData) (x : Z) : ByteExtractData :=
  MkByteExtract (bytes_to_grab d) (offset d) (relative_flag d) (data_string_convert_flag
    d) (align d) (endian d) (base d) (multiplier d) (bitmask_val d) x (var_name d).
Definition set_var_name (d : ByteExtractData) (x : option (list Z)) : ByteExtractData :=
  MkByteExtract (bytes_to_grab d) (offset d) (relative_flag d) (data_string_convert_flag
    d) (align d) (endian d) (base d) (multiplier d) (bitmask_val d) (var_number d) x.

(** ** The option *)

Record ByteExtractOption := MkByteExtractOption { be_base : IpsOption; config : ByteExtractData }.

Definition hash (o : ByteExtractOption) : Z :=
  let d := config o in
  let '(a, b, c) := mix 32 (bytes_to_grab d, u32 (offset d), base d) in
  let a := u32 (a + Z.lor (Z.lor (Z.lor (Z.shiftl (relative_flag d) 24)
                                        (Z.shiftl (data_string_convert_flag d) 16))
                                 (Z.shiftl (align d) 8))
                          (endian d)) in
  let b := u32 (b + multiplier d) in
  let c := u32 (c + var_number d) in
  let '(a, b, c) := mix 32 (a, b, c) in
  let a := u32 (a + bitmask_val d) in
  hash_tail (a, b, c) (opt_name (be_base o)).

Definition eqb (l r : ByteExtractOption) : bool :=
  if negb (IpsOption_eqb (be_base l) (be_base r)) then false else
  let left := config l in let right := config r in
  (bytes_to_grab left =? bytes_to_grab right) &&
  (offset left =? offset right) &&
  (relative_flag left =? relative_flag right) &&
  (data_string_convert_flag left =? data_string_convert_flag right) &&
  (align left =? align right) &&
  (endian left =? endian right) &&
  (base left =? base right) &&
  (multiplier left =? multiplier right) &&
  (var_number left =? var_number right) &&
  (bitmask_val left =? bitmask_val right).

Definition read_ptr (d : ByteExtractData) (c : Cursor) : Z :=
  (if truth (relative_flag d) then pos c else 0) + offset d.

(** Mask, multiply and align what was read. *)
Definition scale_value (d : ByteExtractData) (value : Z) : Z :=
  let value := apply_bitmask value (bitmask_val d) in
  let value := u32 (value * multiplier d) in
  if (align d =? 4) && truth (value mod 4) then u32 (value + 4 - value mod 4)
  else if (align d =? 2) && truth (value mod 2) then u32 (value + 2 - value mod 2)
  else value.

(** The extraction: the value and the bytes read; [None] is [NO_MATCH]. *)
Definition extract_value (d : ByteExtractData) (endian ptr end_ : Z) (c : Cursor) : option (Z * Z) :=
  if data_string_convert_flag d =? 0 then
    match byte_extract endian (s32 (bytes_to_grab d)) (data c) ptr 0 end_ with
    | inl _ => None
    | inr value => Some (value, s32 (bytes_to_grab d))
    end
  else
    match string_extract (s32 (bytes_to_grab d)) (base d) (data c) ptr 0 end_ with
    | inl _ => None
    | inr (ret, value) => Some (value, ret)
    end.

Definition eval (v : ips_vars) (p : Packet) (d : ByteExtractData) (c : Cursor)
    : EvalStatus * Cursor * ips_vars :=
  let dsize := s32 (sz c) in
  let ptr := read_ptr d c in
  let end_ := dsize in
  if (ptr <? 0) || (ptr >=? end_) then (NO_MATCH, c, v) else
  match resolve_endian p (endian d) ptr with
  | None => (NO_MATCH, c, v)
  | Some endian =>
      match extract_value d endian ptr end_ c with
      | None => (NO_MATCH, c, v)
      | Some (value, bytes_read) =>
          let v' := (SetVarValueByIndex v (scale_value d value) (var_number d)).2 in
          let c' := (add_pos c (offset d + bytes_read)).2 in
          (MATCH, c', v')
      end
  end.

(** ** The module *)

Definition begin_ : ByteExtractData :=
  set_multiplier (MkByteExtract 0 0 0 0 0 0 0 0 0 0 None) 1.

Definition set_ (d : ByteExtractData) (v : Value) : option ByteExtractData :=
  if v_is v "~count" then Some (set_bytes_to_grab d (u32 (get_long v)))
  else if v_is v "~offset" then Some (set_offset d (s32 (get_long v)))
  else if v_is v "~name" then Some (set_var_name d (Some (get_string v)))
  else if v_is v "relative" then Some (set_relative_flag d 1)
  else if v_is v "align" then Some (set_align d (u8 (get_long v)))
  else if v_is v "multiplier" then Some (set_multiplier d (u32 (get_long v)))
  else if v_is v "big" then Some (set_endian d (set_byte_order (endian d) ENDIAN_BIG))
  else if v_is v "little" then Some (set_endian d (set_byte_order (endian d) ENDIAN_LITTLE))
  else if v_is v "dce" then Some (set_endian d (set_byte_order (endian d) ENDIAN_FUNC))
  else if v_is v "string" then Some (set_base (set_data_string_convert_flag d 1) 10)
  else if v_is v "dec" then Some (set_base d 10)
  else if v_is v "hex" then Some (set_base d 16)
  else if v_is v "oct" then Some (set_base d 8)
  else if v_is v "bitmask" then Some (set_bitmask_val d (u32 (get_long v)))
  else None.

Definition ByteExtractVerify (d : ByteExtractData) : bool :=
  if (bytes_to_grab d >? MAX_BYTES_TO_GRAB) && (data_string_convert_flag d =? 0) then false
  else if (bytes_to_grab d >? PARSELEN) && (data_string_convert_flag d =? 1) then false
  else if negb (align d =? 0) && negb (align d =? 2) && negb (align d =? 4) then false
  else if (offset d <? 0) && (relative_flag d =? 0) then false
  else match var_name d with
       | None => false
       | Some nm =>
           if isdigit (rd0 nm 0) then false
           else if truth (base d) && negb (truth (data_string_convert_flag d)) then false
           else if numBytesInBitmask (bitmask_val d) >? bytes_to_grab d then false
           else true
       end.

Definition end_ (d : ByteExtractData) : option ByteExtractData :=
  let d := if negb (truth (endian d)) then set_endian d ENDIAN_BIG else d in
  if ByteExtractVerify d then Some d else None.

(** [byte_extract_ctor]: [None] when the rule has too many variables. *)
Definition ctor (vars : ips_vars) (d : ByteExtractData) : option ByteExtractData * ips_vars :=
  let '(n, vars') := AddVarNameToList vars (string_of_bytes (default [] (var_name d))) in
  if n =? IPS_OPTIONS_NO_VAR then (None, vars') else (Some (set_var_number d n), vars').

(** ** Lemmas *)

Lemma byte_extract_eqb_hash x y : eqb x y = true -> hash x = hash y.
Proof.
  unfold eqb. destruct (IpsOption_eqb (be_base x) (be_base y)) eqn:E; [|done]. simpl.
  apply IpsOption_eqb_name in E as [En _]. intros H. breflect. unfold hash.
  repeat match goal with H : ?f (config x) = ?f (config y) |- _ => rewrite H; clear H end.
  by rewrite En.
Qed.

#[export] Instance ByteExtract_key : OptionKey ByteExtractOption :=
  {| opt_hash := hash; opt_eqb := eqb; opt_eqb_hash := byte_extract_eqb_hash |}.

Lemma SetVarValue_get v x i j :
  vars_wf v -> 0 <= i < NUM_IPS_OPTIONS_VARS -> 0 <= j < NUM_IPS_OPTIONS_VARS ->
  GetVarValueByIndex (SetVarValueByIndex v x i).2 j =
  if j =? i then Some x else GetVarValueByIndex v j.
Proof.
  intros [_ Hv _ _] Hi Hj. unfold NUM_IPS_OPTIONS_VARS in *.
  unfold SetVarValueByIndex, GetVarValueByIndex, NUM_IPS_OPTIONS_VARS.
  rewrite !u8_small by (unfold is_u8; lia).
  bcase (i >=? 3) as E1; [lia|]. bcase (j >=? 3) as E2; [lia|]. simpl.
  bcase (j =? i) as E; [subst; by rewrite rd0_wr_eq by lia|by rewrite rd0_wr_ne by lia].
Qed.

Lemma scale_value_aligned d x :
  (align d = 2 -> scale_value d x mod 2 = 0) /\ (align d = 4 -> scale_value d x mod 4 = 0).
Proof.
  unfold scale_value. set (y := u32 (_ * _)). clearbody y. split; intros ->; simpl.
  - bcase (truth (y mod 2)) as E; mlia.
  - bcase (truth (y mod 4)) as E; mlia.
Qed.

(** ** Properties *)

(** [byte_extract] on binary data matches exactly when a byte order is
    known and the field lies inside the buffer; then the option's variable
    holds the masked, multiplied and aligned number, every other variable
    keeps its value and the cursor moves past the field, staying well formed.
    When it does not match neither cursor nor variables change. *)
Theorem byte_extract_eval_spec v p d c :
  cursor_wf c -> sz c < 2147483648 -> vars_wf v -> 0 <= var_number d < NUM_IPS_OPTIONS_VARS ->
  1 <= bytes_to_grab d <= MAX_BYTES_TO_GRAB -> data_string_convert_flag d = 0 ->
  let ptr := read_ptr d c in
  let hit e x := resolve_endian p (endian d) ptr = Some e /\ field c e (bytes_to_grab d) ptr x in
  ((forall e x, ~ hit e x) -> eval v p d c = (NO_MATCH, c, v)) /\
  (forall e x, hit e x -> exists c' v',
    eval v p d c = (MATCH, c', v') /\
    cursor_wf c' /\ data c' = data c /\ c' = (add_pos c (offset d + bytes_to_grab d)).2 /\
    (align d = 2 -> scale_value d x mod 2 = 0) /\ (align d = 4 -> scale_value d x mod 4 = 0) /\
    forall j, 0 <= j < NUM_IPS_OPTIONS_VARS ->
      GetVarValueByIndex v' j =
      if j =? var_number d then Some (scale_value d x) else GetVarValueByIndex v j).
Proof.
  intros Hc Hsz Hv Hi Hn Hs ptr hit. unfold MAX_BYTES_TO_GRAB in Hn.
  assert (s32 (sz c) = sz c) as Hd by (apply s32_small; destruct Hc; unfold is_s32; lia).
  assert (s32 (bytes_to_grab d) = bytes_to_grab d) as Hb by (apply s32_small; unfold is_s32; lia).
  unfold eval, extract_value. fold ptr. rewrite Hs, Hd, Hb. simpl Z.eqb. split.
  - intros Hno. bcases; [done|].
    destruct (resolve_endian p (endian d) ptr) as [e|] eqn:Ee; [|done].
    destruct (byte_extract _ _ _ _ _ _) as [r|x] eqn:Ex; [done|].
    apply byte_extract_field in Ex; [|done]. by destruct (Hno e x).
  - intros e x [He Hx].
    assert (0 <= ptr < sz c) as Hp by (destruct Hx as (_ & _ & [? _] & _); done).
    bcases; [lia|]. rewrite He.
    rewrite (proj2 (byte_extract_field e (bytes_to_grab d) c ptr x Hc) Hx).
    eexists _, _. split; [done|]. split_and!; try apply scale_value_aligned.
    + by apply add_pos_wf.
    + apply add_pos_data.
    + done.
    + intros j Hj. by apply SetVarValue_get.
Qed.

Definition demo_data : ByteExtractData :=
  MkByteExtract 2 1 0 0 4 ENDIAN_LITTLE 0 1 0 2 (Some [108]).
Definition demo_cursor : Cursor := cursor_set "pkt_data" [3; 1; 2; 7] 4.

Lemma byte_extract_eval_spec_witness :
  exists c' v', eval demo_vars (MkPacket None 0) demo_data demo_cursor = (MATCH, c', v') /\
    GetVarValueByIndex v' 2 = Some 516.
Proof.
  assert (cursor_wf demo_cursor) as Hc
    by (apply cursor_set_wf; [repeat constructor; done|done|done]).
  assert (field demo_cursor ENDIAN_LITTLE 2 1 513) as Hf.
  { split; [by left|]. split; [done|]. split; [by vm_compute|reflexivity]. }
  destruct (proj2 (byte_extract_eval_spec demo_vars (MkPacket None 0) demo_data demo_cursor
    Hc ltac:(done) demo_vars_wf ltac:(done) ltac:(done) eq_refl) ENDIAN_LITTLE 513
    (conj eq_refl Hf)) as (c' & v' & He & _ & _ & _ & _ & _ & Hg).
  exists c', v'. split; [exact He|]. apply (Hg 2). done.
Defined.
