(* ===== verification/ByteMath.v ===== *)
(** * ByteMath: the [byte_math] rule option (ips_options/ips_byte_math.cc)

    Reads a number, combines it with a constant or a variable and stores the
    result in a rule variable.  A division by zero, and a shift of a
    [uint32_t] by 32 bits or more, have no defined result in C++: [eval] is
    [None] there. *)

From S2P Require Import Prelude Cursor Extract ParseUtils Hash IpsCommon ByteExtract.

Inductive BM_Oper := BM_PLUS | BM_MINUS | BM_MULTIPLY | BM_DIVIDE | BM_LEFT_SHIFT | BM_RIGHT_SHIFT.

#[export] Instance BM_Oper_eq_dec : EqDecision BM_Oper.
Proof. solve_decision. Defined.

(** The enumerator's value and the cast from one. *)
Definition oper_val (o : BM_Oper) : Z :=
  match o with
  | BM_PLUS => 0 | BM_MINUS => 1 | BM_MULTIPLY => 2 | BM_DIVIDE => 3
  | BM_LEFT_SHIFT => 4 | BM_RIGHT_SHIFT => 5
  end.
Definition oper_of (n : Z) : option BM_Oper :=
  rd [BM_PLUS; BM_MINUS; BM_MULTIPLY; BM_DIVIDE; BM_LEFT_SHIFT; BM_RIGHT_SHIFT] n.

Record ByteMathData := MkByteMath {
  bytes_to_extract : Z;
  rvalue : Z;
  offset : Z;
  bitmask_val : Z;
  result_name : option (list Z);
  oper : BM_Oper;
  relative_flag : bool;
  string_convert_flag : bool;
  base : Z;
  endianess : Z;
  result_var : Z;
  rvalue_var : Z;
  offset_var : Z }.

Definition set_bytes_to_extract (d : ByteMathData) (x : Z) : ByteMathData :=
  MkByteMath x (rvalue d) (offset d) (bitmask_val d) (result_name d) (oper d)
    (relative_flag d) (string_convert_flag d) (base d) (endianess d) (result_var d)
    (rvalue_var d) (offset_var d).
Definition set_rvalue (d : ByteMathData) (x : Z) : ByteMathData :=
  MkByteMath (bytes_to_extract d) x (offset d) (bitmask_val d) (result_name d) (oper d)
    (relative_flag d) (string_convert_flag d) (base d) (endianess d) (result_var d)
    (rvalue_var d) (offset_var d).
Definition set_offset (d : ByteMathData) (x : Z) : ByteMathData :=
  MkByteMath (bytes_to_extract d) (rvalue d) x (bitmask_val d) (result_name d) (oper d)
    (relative_flag d) (string_convert_flag d) (base d) (endianess d) (result_var d)
    (rvalue_var d) (offset_var d).
Definition set_bitmask_val (d : ByteMathData) (x : Z) : ByteMathData :=
  MkByteMath (bytes_to_extract d) (rvalue d) (offset d) x (result_name d) (oper d)
    (relative_flag d) (string_convert_flag d) (base d) (endianess d) (result_var d)
    (rvalue_var d) (offset_var d).
Definition set_result_name (d : ByteMathData) (x : option (list Z)) : ByteMathData :=
  MkByteMath (bytes_to_extract d) (rvalue d) (offset d) (bitmask_val d) x (oper d)
    (relative_flag d) (string_convert_flag d) (base d) (endianess d) (result_var d)
    (rvalue_var d) (offset_var d).
Definition set_oper (d : ByteMathData) (x : BM_Oper) : ByteMathData :=
  MkByteMath (bytes_to_extract d) (rvalue d) (offset d) (bitmask_val d) (result_name d) x
    (relative_flag d) (string_convert_flag d) (base d) (endianess d) (result_var d)
    (rvalue_var d) (offset_var d).
Definition set_relative_flag (d : ByteMathData) (x : bool) : ByteMathData :=
  MkByteMath (bytes_to_extract d) (rvalue d) (offset d) (bitmask_val d) (result_name d)
    (oper d) x (string_convert_flag d) (base d) (endianess d) (result_var d) (rvalue_var
    d) (offset_var d).
Definition set_string_convert_flag (d : ByteMathData) (x : bool) : ByteMathData :=
  MkByteMath (bytes_to_extract d) (rvalue d) (offset d) (bitmask_val d) (result_name d)
    (oper d) (relative_flag d) x (base d) (endianess d) (result_var d) (rvalue_var d)
    (offset_var d).
Definition set_base (d : ByteMathData) (x : Z) : ByteMathData :=
  MkByteMath (bytes_to_extract d) (rvalue d) (offset d) (bitmask_val d) (result_name d)
    (oper d) (relative_flag d) (string_convert_flag d) x (endianess d) (result_var d)
    (rvalue_var d) (offset_var d).
Definition set_endianess (d : ByteMathData) (x : Z) : ByteMathData :=
  MkByteMath (bytes_to_extract d) (rvalue d) (offset d) (bitmask_val d) (result_name d)
    (oper d) (relative_flag d) (string_convert_flag d) (base d) x (result_var d)
    (rvalue_var d) (offset_var d).
Definition set_result_var (d : ByteMathData) (x : Z) : ByteMathData :=
  MkByteMath (bytes_to_extract d) (rvalue d) (offset d) (bitmask_val d) (result_name d)
    (oper d) (relative_flag d) (string_convert_flag d) (base d) (endianess d) x
    (rvalue_var d) (offset_var d).
Definition set_rvalue_var (d : ByteMathData) (x : Z) : ByteMathData :=
  MkByteMath (bytes_to_extract d) (rvalue d) (offset d) (bitmask_val d) (result_name d)
    (oper d) (relative_flag d) (string_convert_flag d) (base d) (endianess d) (result_var
    d) x (offset_var d).
Definition set_offset_var (d : ByteMathData) (x : Z) : ByteMathData :=
  MkByteMath (bytes_to_extract d) (rvalue d) (offset d) (bitmask_val d) (result_name d)
    (oper d) (relative_flag d) (string_convert_flag d) (base d) (endianess d) (result_var
    d) (rvalue_var d) x.

(** ** The option *)

Record ByteMathOption := MkByteMathOption { bm_base : IpsOption; config : ByteMathData }.

Definition hash (o : ByteMathOption) : Z :=
  let d := config o in
  let '(a, b, c) := mix 32 (bytes_to_extract d, rvalue d, oper_val (oper d)) in
  let a := u32 (a + offset d) in
  let b := u32 (b + Z.lor (Z.lor (Z.lor (u32 (Z.shiftl (u32 (rvalue_var d)) 24))
                                        (u32 (Z.shiftl (u32 (offset_var d)) 16)))
                                 (u32 (Z.shiftl (u32 (result_var d)) 8)))
                          (endianess d)) in
  let c := u32 (c + base d) in
  let '(a, b, c) := mix 32 (a, b, c) in
  let a := u32 (a + bitmask_val d) in
  let b := u32 (b + b2z (relative_flag d)) in
  let c := u32 (c + b2z (string_convert_flag d)) in
  hash_tail (a, b, c) (opt_name (bm_base o)).

Definition eqb (l r : ByteMathOption) : bool :=
  if negb (IpsOption_eqb (bm_base l) (bm_base r)) then false else
  let left := config l in let right := config r in
  (bytes_to_extract left =? bytes_to_extract right) &&
  (rvalue left =? rvalue right) &&
  bool_decide (oper left = oper right) &&
  (offset left =? offset right) &&
  Bool.eqb (relative_flag left) (relative_flag right) &&
  Bool.eqb (string_convert_flag left) (string_convert_flag right) &&
  (endianess left =? endianess right) &&
  (base left =? base right) &&
  (bitmask_val left =? bitmask_val right) &&
  (rvalue_var left =? rvalue_var right) &&
  (offset_var left =? offset_var right) &&
  (result_var left =? result_var right).

Definition read_ptr (v : ips_vars) (d : ByteMathData) (c : Cursor) : Z :=
  (if relative_flag d then pos c else 0) + var_or_s32 v (offset_var d) (offset d).

(** Is the operand a variable? *)
Definition is_var (var : Z) : bool := (var >=? 0) && (var <? NUM_IPS_OPTIONS_VARS).

Definition extract_value (d : ByteMathData) (endian ptr end_ : Z) (c : Cursor) : option (Z * Z) :=
  if negb (string_convert_flag d) then
    match byte_extract endian (s32 (bytes_to_extract d)) (data c) ptr 0 end_ with
    | inl _ => None
    | inr value => Some (value, s32 (bytes_to_extract d))
    end
  else
    match string_extract (s32 (bytes_to_extract d)) (base d) (data c) ptr 0 end_ with
    | inl _ => None
    | inr (ret, value) => Some (value, ret)
    end.

(** The [switch] over the operator, on [uint32_t]. *)
Definition compute (o : BM_Oper) (value rvalue : Z) : option Z :=
  match o with
  | BM_PLUS => Some (u32 (value + rvalue))
  | BM_MINUS => Some (u32 (value - rvalue))
  | BM_MULTIPLY => Some (u32 (value * rvalue))
  | BM_DIVIDE => if rvalue =? 0 then None else Some (value / rvalue)
  | BM_LEFT_SHIFT => if rvalue >=? 32 then None else Some (u32 (Z.shiftl value rvalue))
  | BM_RIGHT_SHIFT => if rvalue >=? 32 then None else Some (Z.shiftr value rvalue)
  end.

Definition eval (v : ips_vars) (p : Packet) (d : ByteMathData) (c : Cursor)
    : option (EvalStatus * Cursor * ips_vars) :=
  let end_ := s32 (sz c) in
  let rvalue := var_or v (rvalue_var d) (rvalue d) in
  if is_var (rvalue_var d) && (rvalue =? 0) && bool_decide (oper d = BM_DIVIDE)
  then Some (NO_MATCH, c, v) else
  let ptr := read_ptr v d c in
  if (ptr <? 0) || (ptr >=? end_) then Some (NO_MATCH, c, v) else
  match resolve_endian p (endianess d) ptr with
  | None => Some (NO_MATCH, c, v)
  | Some endian =>
      match extract_value d endian ptr end_ c with
      | None => Some (NO_MATCH, c, v)
      | Some (value, bytes_read) =>
          let c' := (add_pos c bytes_read).2 in
          match compute (oper d) (apply_bitmask value (bitmask_val d)) rvalue with
          | None => None
          | Some value => Some (MATCH, c', (SetVarValueByIndex v value (result_var d)).2)
          end
      end
  end.

(** ** The module *)

Record ByteMathModule := MkModule { md : ByteMathData; rvalue_name : list Z; off_name : list Z }.

Definition begin_ : ByteMathModule :=
  MkModule (MkByteMath 0 0 0 0 None BM_PLUS false false 0 0 0 0 0) [] [].

(** [value <= 2] and [value <= 1] are asserted: the enumerations of the
    parameter table have three and two names. *)
Definition parse_base (value : Z) (d : ByteMathData) : ByteMathData :=
  set_base d (rd0 [16; 10; 8] value).
Definition parse_endian (value : Z) (d : ByteMathData) : ByteMathData :=
  set_endianess d (set_byte_order (endianess d) (rd0 [ENDIAN_BIG; ENDIAN_LITTLE] value)).

(** [set]: [None] is the return of [false]. *)
Definition set_ (m : ByteMathModule) (v : Value) : option ByteMathModule :=
  let d := md m in
  let ok d := Some (MkModule d (rvalue_name m) (off_name m)) in
  if v_is v "bytes" then ok (set_bytes_to_extract d (u32 (get_long v)))
  else if v_is v "oper" then
    match oper_of (get_long v) with Some o => ok (set_oper d o) | None => None end
  else if v_is v "rvalue" then
    match v_strtol v with
    | Some n => if n =? 0 then None else ok (set_rvalue d (u32 n))
    | None => Some (MkModule d (get_string v) (off_name m))
    end
  else if v_is v "offset" then
    match v_strtol v with
    | Some n => ok (set_offset d (s32 n))
    | None => Some (MkModule d (rvalue_name m) (get_string v))
    end
  else if v_is v "relative" then ok (set_relative_flag d true)
  else if v_is v "dce" then ok (set_endianess d (set_byte_order (endianess d) ENDIAN_FUNC))
  else if v_is v "string" then ok (parse_base (u8 (get_long v)) (set_string_convert_flag d true))
  else if v_is v "endian" then ok (parse_endian (u8 (get_long v)) d)
  else if v_is v "bitmask" then ok (set_bitmask_val d (u32 (get_long v)))
  else if v_is v "result" then ok (set_result_name d (Some (get_string v)))
  else None.

Fixpoint sets (m : ByteMathModule) (vs : list Value) : option ByteMathModule :=
  match vs with
  | [] => Some m
  | v :: vs => match set_ m v with Some m => sets m vs | None => None end
  end.

Definition is_shift (o : BM_Oper) : bool :=
  bool_decide (o = BM_LEFT_SHIFT) || bool_decide (o = BM_RIGHT_SHIFT).

Definition ByteMathVerify (d : ByteMathData) : bool :=
  match result_name d with
  | None => false
  | Some nm =>
      if isdigit (rd0 nm 0) then false
      else if is_shift (oper d) && (rvalue d >? 32) then false
      else if is_shift (oper d) && (bytes_to_extract d >? 4) then false
      else if (bytes_to_extract d >? MAX_BYTES_TO_GRAB) && negb (string_convert_flag d) then false
      else if numBytesInBitmask (bitmask_val d) >? bytes_to_extract d then false
      else true
  end.

Definition end_ (vars : ips_vars) (m : ByteMathModule) : option ByteMathData :=
  match var_index vars (rvalue_name m) with
  | None => None
  | Some r =>
      match var_index vars (off_name m) with
      | None => None
      | Some o =>
          let d := set_offset_var (set_rvalue_var (md m) r) o in
          let d := if negb (truth (endianess d)) then set_endianess d ENDIAN_BIG else d in
          if ByteMathVerify d then Some d else None
      end
  end.

Definition ctor (vars : ips_vars) (d : ByteMathData) : option ByteMathData * ips_vars :=
  let '(n, vars') := AddVarNameToList vars (string_of_bytes (default [] (result_name d))) in
  if n =? IPS_OPTIONS_NO_VAR then (None, vars') else (Some (set_result_var d n), vars').

(** A rule's [byte_math]: [begin], the [set]s, [end] and the constructor. *)
Definition byte_math_rule (vars : ips_vars) (vs : list Value) : option ByteMathData * ips_vars :=
  match sets begin_ vs with
  | None => (None, vars)
  | Some m => match end_ vars m with None => (None, vars) | Some d => ctor vars d end
  end.

(** ** Lemmas *)

Lemma byte_math_eqb_hash x y : eqb x y = true -> hash x = hash y.
Proof.
  unfold eqb. destruct (IpsOption_eqb (bm_base x) (bm_base y)) eqn:E; [|done]. simpl.
  apply IpsOption_eqb_name in E as [En _]. intros H. breflect.
  repeat match goal with
  | H : Bool.eqb _ _ = true |- _ => apply eqb_prop in H
  | H : bool_decide _ = true |- _ => apply bool_decide_eq_true in H
  end.
  unfold hash.
  repeat match goal with H : ?f (config x) = ?f (config y) |- _ => rewrite H; clear H end.
  by rewrite En.
Qed.

#[export] Instance ByteMath_key : OptionKey ByteMathOption :=
  {| opt_hash := hash; opt_eqb := eqb; opt_eqb_hash := byte_math_eqb_hash |}.

(** The configurations [eval] is defined on: a constant divisor is not zero,
    and a shift is by a constant below 32. *)
Definition safe_operand (d : ByteMathData) : Prop :=
  (oper d = BM_DIVIDE -> is_var (rvalue_var d) = false -> rvalue d <> 0) /\
  (is_shift (oper d) = true -> is_var (rvalue_var d) = false /\ 0 <= rvalue d < 32).

Lemma var_or_const v i k : is_var i = false -> var_or v i k = k.
Proof. unfold var_or, is_var. by intros ->. Qed.

Lemma compute_safe v d x :
  is_u32 (var_or v (rvalue_var d) (rvalue d)) -> safe_operand d ->
  is_var (rvalue_var d) && (var_or v (rvalue_var d) (rvalue d) =? 0) &&
    bool_decide (oper d = BM_DIVIDE) = false ->
  is_u32 x ->
  exists y, compute (oper d) x (var_or v (rvalue_var d) (rvalue d)) = Some y /\ is_u32 y.
Proof.
  intros Hr [Hdiv Hsh] Hz Hx. unfold compute.
  destruct (oper d) eqn:Eo; [eexists; split; [done|apply u32_range]..| | |].
  - destruct (var_or v (rvalue_var d) (rvalue d) =? 0) eqn:E0.
    + destruct (is_var (rvalue_var d)) eqn:Ev; [by rewrite bool_decide_true in Hz|].
      breflect. rewrite var_or_const in E0 by done. by destruct (Hdiv eq_refl eq_refl).
    + breflect. eexists. split; [done|]. unfold is_u32 in *. split; [apply Z.div_pos; lia|].
      apply Z.div_lt_upper_bound; nia.
  - destruct (Hsh eq_refl) as [Ev ?]. rewrite var_or_const by done.
    bcases; [lia|]. eexists. split; [done|apply u32_range].
  - destruct (Hsh eq_refl) as [Ev ?]. rewrite var_or_const by done.
    bcases; [lia|]. eexists. split; [done|]. apply shiftr_u32; [done|lia].
Qed.

(** ** Properties *)

(** [byte_math] on binary data: with a safe operand it always returns,
    and it matches exactly when the divisor is not a zero variable, a byte
    order is known and the field lies inside the buffer; then the result
    variable holds the 32-bit result of the operation on the masked field and
    the operand, and the other variables are kept. *)
Theorem byte_math_eval_spec v p d c :
  cursor_wf c -> sz c < 2147483648 -> vars_wf v -> Forall is_u32 (extracted_values v) ->
  0 <= result_var d < NUM_IPS_OPTIONS_VARS -> is_u32 (rvalue d) -> is_u32 (bitmask_val d) ->
  1 <= bytes_to_extract d <= MAX_BYTES_TO_GRAB -> string_convert_flag d = false ->
  safe_operand d ->
  let r := var_or v (rvalue_var d) (rvalue d) in
  let ptr := read_ptr v d c in
  let hit e x := ~ (oper d = BM_DIVIDE /\ r = 0) /\
    resolve_endian p (endianess d) ptr = Some e /\ field c e (bytes_to_extract d) ptr x in
  ((forall e x, ~ hit e x) -> eval v p d c = Some (NO_MATCH, c, v)) /\
  (forall e x, hit e x -> exists c' v' y,
    eval v p d c = Some (MATCH, c', v') /\ cursor_wf c' /\
    compute (oper d) (apply_bitmask x (bitmask_val d)) r = Some y /\ is_u32 y /\
    forall j, 0 <= j < NUM_IPS_OPTIONS_VARS ->
      GetVarValueByIndex v' j = if j =? result_var d then Some y else GetVarValueByIndex v j).
Proof.
  intros Hc Hsz Hv Hu Hi Hr Hm Hn Hs Hsafe r ptr hit. unfold MAX_BYTES_TO_GRAB in Hn.
  assert (s32 (sz c) = sz c) as Hd by (apply s32_small; destruct Hc; unfold is_s32; lia).
  assert (s32 (bytes_to_extract d) = bytes_to_extract d) as Hb
    by (apply s32_small; unfold is_s32; lia).
  assert (is_u32 r) as Hr' by (by apply var_or_u32).
  pose proof (compute_safe v d) as Hcs. fold r in Hcs.
  unfold eval, extract_value. fold r ptr. rewrite Hs, Hd, Hb. simpl negb.
  destruct (is_var (rvalue_var d) && (r =? 0) && bool_decide (oper d = BM_DIVIDE)) eqn:Ez.
  { split; [done|]. intros e x (Hnz & _). breflect.
    destruct Hnz. split; [by eapply bool_decide_eq_true|done]. }
  assert (oper d = BM_DIVIDE /\ r = 0 -> False) as Hnz.
  { intros [Ho H0]. destruct (is_var (rvalue_var d)) eqn:Ev.
    - rewrite (bool_decide_true _ Ho), H0 in Ez. by simpl in Ez.
    - destruct Hsafe as [Hdv _]. apply (Hdv Ho Ev). unfold r in H0.
      by rewrite var_or_const in H0. }
  split.
  - intros Hno. bcases; [done|].
    destruct (resolve_endian p (endianess d) ptr) as [e|] eqn:Ee; [|done].
    destruct (byte_extract _ _ _ _ _ _) as [q|x] eqn:Ex; [done|].
    apply byte_extract_field in Ex; [|done]. by destruct (Hno e x).
  - intros e x (_ & He & Hx).
    assert (0 <= ptr < sz c) as Hp by (destruct Hx as (_ & _ & [? _] & _); done).
    bcase ((ptr <? 0) || (ptr >=? sz c)) as Ep; [lia|]. rewrite He.
    rewrite (proj2 (byte_extract_field e (bytes_to_extract d) c ptr x Hc) Hx).
    destruct (Hcs (apply_bitmask x (bitmask_val d))) as (y & Hy & Hyu); try done.
    { eapply apply_bitmask_range, Hm. by eapply field_u32. }
    rewrite Hy. eexists _, _, y. split; [done|]. split_and!; try done.
    + by apply add_pos_wf.
    + intros j Hj. by apply SetVarValue_get.
Qed.

Definition demo_data : ByteMathData :=
  MkByteMath 1 10 0 0 (Some [120]) BM_MULTIPLY false false 0 ENDIAN_BIG 1 (-1) (-1).
Definition demo_cursor : Cursor := cursor_set "pkt_data" [7; 1; 2] 3.

Lemma byte_math_eval_spec_witness :
  exists c' v', eval demo_vars (MkPacket None 0) demo_data demo_cursor = Some (MATCH, c', v') /\
    GetVarValueByIndex v' 1 = Some 70.
Proof.
  assert (cursor_wf demo_cursor) as Hc
    by (apply cursor_set_wf; [repeat constructor; done|done|done]).
  assert (field demo_cursor ENDIAN_BIG 1 0 7) as Hf.
  { split; [by right|]. split; [done|]. split; [by vm_compute|reflexivity]. }
  assert (~ (oper demo_data = BM_DIVIDE /\ 10 = 0)) as Hnz by (intros [? ?]; done).
  destruct (proj2 (byte_math_eval_spec demo_vars (MkPacket None 0) demo_data demo_cursor
    Hc ltac:(done) demo_vars_wf ltac:(repeat constructor; done) ltac:(done) ltac:(done) ltac:(done)
    ltac:(done) eq_refl ltac:(split; done)) ENDIAN_BIG 7
    (conj Hnz (conj eq_refl Hf))) as (c' & v' & y & He & _ & Hy & _ & Hg).
  injection Hy as <-. exists c', v'. split; [exact He|]. apply (Hg 1). done.
Defined.

(** A rule that divides [k] bytes at the start of the buffer by the constant [n],
    written in these digits, into a variable. *)
Definition divide_rule (k n : Z) (digits nm : list Z) : list Value :=
  [MkValue "bytes" k [] None; MkValue "oper" 3 [] None; MkValue "rvalue" 0 digits (Some n); MkValue "result" 0 nm None].
Definition divide_data (k n i : Z) (nm : list Z) : ByteMathData :=
  MkByteMath k (u32 n) 0 0 (Some nm) BM_DIVIDE false false 0 ENDIAN_BIG i IPS_OPTIONS_NO_VAR IPS_OPTIONS_NO_VAR.

Lemma divide_rule_zero vars k digits nm : byte_math_rule vars (divide_rule k 0 digits nm) = (None, vars).
Proof. reflexivity. Qed.
Lemma divide_rule_accepted vars k n digits nm : n <> 0 -> 1 <= k <= MAX_BYTES_TO_GRAB -> isdigit (rd0 nm 0) = false ->
  byte_math_rule vars (divide_rule k n digits nm) =
    let '(i, vars') := AddVarNameToList vars (string_of_bytes nm) in
    (if i =? IPS_OPTIONS_NO_VAR then None else Some (divide_data k n i nm), vars').
Proof.
  intros Hn Hk Hd. unfold MAX_BYTES_TO_GRAB in Hk. assert (u32 k = k) as Eu by (apply u32_small; unfold is_u32; lia).
  unfold byte_math_rule, divide_rule. cbn [sets set_ v_is v_name String.eqb Ascii.eqb Bool.eqb get_long v_strtol get_string md rvalue_name off_name begin_].
  change (oper_of 3) with (Some BM_DIVIDE). cbv beta iota zeta. bcase (n =? 0) as E; [done|].
  unfold end_. cbn -[isdigit u32 rd0]. unfold ByteMathVerify. cbn -[isdigit u32 rd0]. rewrite Eu, Hd. cbn -[Z.gtb].
  change (is_shift BM_DIVIDE) with false. unfold MAX_BYTES_TO_GRAB. cbn [andb negb]. bcase (k >? 4) as E1; [lia|]. cbn [andb].
  bcase (1 >? k) as E2; [lia|]. unfold ctor, divide_data, IPS_OPTIONS_NO_VAR. cbn -[string_of_bytes].
  destruct (AddVarNameToList vars (string_of_bytes nm)) as [i vars']. by destruct (i =? -1).
Qed.



(** 4294967296 as a divisor: the rule is accepted and divides by zero. *)
Theorem byte_math_divides_by_zero : exists d vars,
  byte_math_rule demo_vars (divide_rule 1 4294967296 [52; 50; 57; 52; 57; 54; 55; 50; 57; 54] [114]) = (Some d, vars) /\
  eval vars (MkPacket None 0) d demo_cursor = None.
Proof. eexists _, _. split; [vm_compute; reflexivity|]. vm_compute. reflexivity. Qed.
