(* ===== verification/IsDataAt.v ===== *)
(** * IsDataAt: the [isdataat] rule option (ips_options/ips_isdataat.cc)

    Tests that the buffer has a byte at an offset. *)

From S2P Require Import Prelude Cursor Extract ParseUtils MString Hash IpsCommon.

Definition ISDATAAT_RELATIVE_FLAG : Z := 1.
Definition ISDATAAT_NOT_FLAG : Z := 2.

Record IsDataAtData := MkIsDataAt { offset : Z; flags : Z; offset_var : Z }.

(** ** The option *)

Record IsDataAtOption := MkIsDataAtOption { ida_base : IpsOption; config : IsDataAtData }.

Definition hash (o : IsDataAtOption) : Z :=
  let d := config o in
  hash_tail (mix 32 (offset d, flags d, u32 (offset_var d))) (opt_name (ida_base o)).

(** Unlike the other options this one compares the name only, not the buffer. *)
Definition eqb (l r : IsDataAtOption) : bool :=
  if negb (String.eqb (opt_name (ida_base l)) (opt_name (ida_base r))) then false else
  let left := config l in let right := config r in
  (offset left =? offset right) && (flags left =? flags right) &&
  (offset_var left =? offset_var right).

Definition has_flag (d : IsDataAtData) (f : Z) : bool := truth (Z.land (flags d) f).

Definition start_ptr (v : ips_vars) (d : IsDataAtData) (c : Cursor) : Z :=
  (if has_flag d ISDATAAT_RELATIVE_FLAG then pos c else 0) +
  (if (offset_var d >=? 0) && (offset_var d <? NUM_IPS_OPTIONS_VARS)
   then s32 (default 0 (GetVarValueByIndex v (offset_var d))) else s32 (offset d)).

Definition eval (v : ips_vars) (d : IsDataAtData) (c : Cursor) : EvalStatus :=
  let rval := if inBounds 0 (sz c) (start_ptr v d c) then MATCH else NO_MATCH in
  if has_flag d ISDATAAT_NOT_FLAG then
    if eval_status_eqb rval MATCH then NO_MATCH else MATCH
  else rval.

(** ** The parser *)

Definition add_flag (d : IsDataAtData) (f : Z) : IsDataAtData :=
  MkIsDataAt (offset d) (Z.lor (flags d) f) (offset_var d).

(** [isdataat_parse] on the first token, the offset; the flag tells that no
    [ParseError] was reported. *)
Definition parse_offset (vars : ips_vars) (tok : list Z) (idx : IsDataAtData)
    : IsDataAtData * bool :=
  let '(idx, off) :=
    match tok with
    | c :: r => if c =? 33 then (add_flag idx ISDATAAT_NOT_FLAG, drop (Z.to_nat (spaces r)) r)
                else (idx, tok)
    | [] => (idx, tok)
    end in
  if isdigit (rd0 off 0) || (rd0 off 0 =? 45) then
    let '(n, used, _) := strtol10 off in
    let idx := MkIsDataAt (u32 n) (flags idx) (-1) in
    if used =? 0 then (idx, false)
    else if offset idx >? 65535 then (idx, false)
    else (MkIsDataAt (offset idx) (flags idx) IPS_OPTIONS_NO_VAR, true)
  else
    let i := GetVarByName vars (Some (string_of_bytes off)) in
    let idx := MkIsDataAt (offset idx) (flags idx) i in
    (idx, negb (i =? IPS_OPTIONS_NO_VAR)).

(** [None]: there is no token, and the null pointer is used. *)
Definition isdataat_parse (vars : ips_vars) (str : list Z) (idx : IsDataAtData) : option (IsDataAtData * bool) :=
  match mSplit [44] 3 0 str with
  | Some (Some (tok :: _)) => Some (parse_offset vars tok idx)
  | _ => None
  end.

Definition begin_ : IsDataAtData := MkIsDataAt 0 0 0.

(** [str] is the value's string; [Some None] is the answer [false]. *)
Definition set_ (vars : ips_vars) (str : list Z) (d : IsDataAtData) (v : Value)
    : option (option (IsDataAtData * bool)) :=
  if v_is v "~length" then Some <$> isdataat_parse vars str d
  else if v_is v "relative" then Some (Some (add_flag d ISDATAAT_RELATIVE_FLAG, true))
  else Some None.

(** ** Lemmas *)

Lemma isdataat_eqb_hash x y : eqb x y = true -> hash x = hash y.
Proof.
  unfold eqb. destruct (String.eqb_spec (opt_name (ida_base x)) (opt_name (ida_base y))) as [En|];
    [|done]. simpl. intros H. breflect. unfold hash.
  repeat match goal with H : ?f (config x) = ?f (config y) |- _ => rewrite H; clear H end.
  by rewrite En.
Qed.

#[export] Instance IsDataAt_key : OptionKey IsDataAtOption :=
  {| opt_hash := hash; opt_eqb := eqb; opt_eqb_hash := isdataat_eqb_hash |}.

(** ** Properties *)

(** [isdataat] never reads: it matches exactly when the cursor's buffer
    has a byte at the configured place, or has none when negated. *)
Theorem isdataat_eval_spec v d c :
  cursor_wf c ->
  eval v d c = MATCH <->
  ((exists b, rd (cbuf c) (start_ptr v d c) = Some b) <-> has_flag d ISDATAAT_NOT_FLAG = false).
Proof.
  intros Hc.
  assert ((exists b, rd (cbuf c) (start_ptr v d c) = Some b) <-> inBounds 0 (sz c) (start_ptr v d c) = true)
    as ->.
  { unfold inBounds. rewrite <- (Zlen_cbuf c) by done. split.
    - intros [b Hb%rd_Some_range]. lia.
    - intros H. breflect. by apply rd_is_Some. }
  unfold eval. destruct (inBounds _ _ _), (has_flag d ISDATAAT_NOT_FLAG);
    vm_compute; intuition congruence.
Qed.

Lemma isdataat_eval_spec_witness :
  let c := cursor_set "pkt_data" [1; 2; 3] 3 in
  eval demo_vars (MkIsDataAt 3 2 (-1)) c = MATCH <->
  ((exists b, rd (cbuf c) (start_ptr demo_vars (MkIsDataAt 3 2 (-1)) c) = Some b)
   <-> has_flag (MkIsDataAt 3 2 (-1)) ISDATAAT_NOT_FLAG = false).
Proof.
  apply (isdataat_eval_spec demo_vars (MkIsDataAt 3 2 (-1)) (cursor_set "pkt_data" [1; 2; 3] 3)).
  apply cursor_set_wf; [repeat constructor; done|done|done].
Defined.

(** A length of blanks is a null pointer for the parser. *)
Theorem blank_length_undefined vars d n : isdataat_parse vars (replicate n 32) d = None.
Proof.
  unfold isdataat_parse, mSplit. destruct (Zlen _ =? 0); [done|]. cbn [existsb Z.eqb orb].
  replace (skip_seps [44] (replicate n 32)) with (@nil Z); [done|]. induction n as [|n IH]; [done|]. exact IH.
Qed.
