(* ===== verification/Range.v ===== *)
(** * Range: interval expressions of rule options (framework/range.cc, range.h)

    Text such as [<5], [!=7] or [3<=>9] is split into tokens, parsed into a
    [RangeCheck] and evaluated against a header field.  Text is a list of
    bytes; [long] has 64 bits. *)

From S2P Require Import Prelude Extract.

Inductive Op := EQ | NOT | LT | LE | GT | GE | LG | LEG | MAX.

#[export] Instance Op_eq_dec : EqDecision Op.
Proof. solve_decision. Defined.

Record RangeCheck := MkRange { op : Op; min : Z; max : Z }.

Definition init : RangeCheck := MkRange MAX 0 0.
Definition is_set (rc : RangeCheck) : bool := negb (bool_decide (op rc = MAX)).
Definition eqb (l r : RangeCheck) : bool :=
  bool_decide (op l = op r) && (min l =? min r) && (max l =? max r).

(** ** Tokens *)

Definition isxdigit (c : Z) : bool :=
  ((48 <=? c) && (c <=? 57)) || ((65 <=? c) && (c <=? 70)) || ((97 <=? c) && (c <=? 102)).
(** [strchr ("+-x", c)] and [strchr ("=!<>", c)]. *)
Definition num_start (c : Z) : bool := (c =? 43) || (c =? 45) || (c =? 120) || isxdigit c.
Definition num_part (c : Z) : bool := (c =? 120) || isxdigit c.
Definition op_char (c : Z) : bool := (c =? 61) || (c =? 33) || (c =? 60) || (c =? 62).

(** The loop of [get_tokens] in a state, with the tokens so far; [None] is the
    return of false. *)
Fixpoint get_tokens (s : list Z) (state : Z) (low ops hi : list Z) : option (list Z * list Z * list Z) :=
  match s with
  | [] => Some (low, ops, hi)
  | c :: s =>
      if state =? 0 then
        if num_start c then get_tokens s 1 (low ++ [c]) ops hi
        else if op_char c then get_tokens s 2 low (ops ++ [c]) hi
        else if negb (c =? 32) then None else get_tokens s 0 low ops hi
      else if state =? 1 then
        if num_part c then get_tokens s 1 (low ++ [c]) ops hi
        else if op_char c then get_tokens s 2 low (ops ++ [c]) hi
        else if negb (c =? 32) then None else get_tokens s 1 low ops hi
      else if state =? 2 then
        if num_start c then get_tokens s 4 low ops (hi ++ [c])
        else if op_char c then get_tokens s 2 low (ops ++ [c]) hi
        else if c =? 32 then get_tokens s 3 low ops hi else None
      else if state =? 3 then
        if num_start c then get_tokens s 4 low ops (hi ++ [c]) else None
      else
        if num_part c then get_tokens s 4 low ops (hi ++ [c])
        else if negb (c =? 32) then None else get_tokens s 4 low ops hi
  end.

Definition get_op (s : list Z) : option Op :=
  if bool_decide (s = []) || bool_decide (s = [61]) then Some EQ
  else if bool_decide (s = [33]) then Some NOT
  else if bool_decide (s = [60]) then Some LT
  else if bool_decide (s = [62]) then Some GT
  else if bool_decide (s = [33; 61]) then Some NOT
  else if bool_decide (s = [60; 61]) then Some LE
  else if bool_decide (s = [62; 61]) then Some GE
  else if bool_decide (s = [60; 62]) then Some LG
  else if bool_decide (s = [60; 61; 62]) then Some LEG
  else None.

(** ** Numbers *)

Definition LONG_MAX : Z := 9223372036854775807.
Definition LONG_MIN : Z := -9223372036854775808.

(** The base that base 0 stands for, from what follows the sign: 16 after
    [0x] and a digit, 8 after [0], else 10; with the characters to skip. *)
Definition base_of (s : list Z) : Z * Z :=
  match s with
  | z :: x :: d :: _ =>
      if (z =? 48) && ((x =? 120) || (x =? 88)) && (digit_val d <? 16) then (16, 2)
      else if z =? 48 then (8, 0) else (10, 0)
  | z :: _ => if z =? 48 then (8, 0) else (10, 0)
  | [] => (10, 0)
  end.

(** [strtol (s, &end, 0)]: the value, what is left at [end], and whether
    [errno] is set to [ERANGE]. *)
Definition strtol (s : list Z) : Z * list Z * bool :=
  let s1 := drop (Z.to_nat (spaces s)) s in
  let '(neg, sg, s2) := strip_sign s1 in
  let '(base, px) := base_of s2 in
  let s3 := drop (Z.to_nat px) s2 in
  let '(v, n) := digits base s3 0 0 in
  if n =? 0 then (0, s, false)
  else
    let v := if neg then - v else v in
    (if v >? LONG_MAX then LONG_MAX else if v <? LONG_MIN then LONG_MIN else v,
     drop (Z.to_nat n) s3, (v >? LONG_MAX) || (v <? LONG_MIN)).

(** The number and whether it is valid. *)
Definition get_num (s : list Z) : Z * bool :=
  if bool_decide (s = []) then (0, true)
  else let '(num, rest, erange) := strtol s in (num, negb erange && bool_decide (rest = [])).

Definition valid (o : Op) (low hi : bool) : bool :=
  match o with
  | EQ => (low && negb hi) || (hi && negb low)
  | LG | LEG => low && hi
  | _ => negb low && hi
  end.

(** ** Parsing and evaluation *)

(** The return value and the object after the call. *)
Definition parse (rc : RangeCheck) (s : list Z) : bool * RangeCheck :=
  match get_tokens s 0 [] [] [] with
  | None => (false, rc)
  | Some (low, ops, hi) =>
      match get_op ops with
      | None => (false, rc)
      | Some o =>
          let '(mn, ok) := get_num low in
          if negb ok then (false, MkRange o mn (max rc)) else
          let '(mx, ok) := get_num hi in
          if negb ok then (false, MkRange o mn mx) else
          if negb (valid o (negb (bool_decide (low = []))) (negb (bool_decide (hi = []))))
          then (false, MkRange o mn mx) else
          let rc :=
            if bool_decide (o = EQ) && bool_decide (hi = []) then
              if negb (bool_decide (ops = [])) then None else Some (MkRange o 0 mn)
            else if bool_decide (o = GT) || bool_decide (o = GE) then Some (MkRange o mx 0)
            else Some (MkRange o mn mx) in
          match rc with
          | None => (false, MkRange o mn mx)
          | Some rc =>
              if (bool_decide (o = LG) || bool_decide (o = LEG)) && (min rc >? max rc)
              then (false, rc) else (true, rc)
          end
      end
  end.

Definition eval (rc : RangeCheck) (c : Z) : bool :=
  match op rc with
  | EQ => c =? max rc
  | NOT => negb (c =? max rc)
  | LT => c <? max rc
  | LE => c <=? max rc
  | GT => c >? min rc
  | GE => c >=? min rc
  | LG => (min rc <? c) && (c <? max rc)
  | LEG => (min rc <=? c) && (c <=? max rc)
  | MAX => false
  end.

(** What is behind the first colon, if there is one. *)
Fixpoint after_colon (r : list Z) : option (list Z) :=
  match r with
  | [] => None
  | c :: r => if c =? 58 then Some r else after_colon r
  end.

(** [v_min] and [v_max] of [validate]. *)
Definition bounds (rc : RangeCheck) : Z * Z :=
  match op rc with
  | LG | LEG => (min rc, max rc)
  | GT | GE => (min rc, min rc)
  | _ => (max rc, max rc)
  end.

(** [r]: the limits, or null. *)
Definition validate (rc : RangeCheck) (s : list Z) (r : option (list Z)) : bool * RangeCheck :=
  let '(ok, rc) := parse rc s in
  if negb ok then (false, rc) else
  match r with
  | None => (true, rc)
  | Some r =>
      let '(v_min, v_max) := bounds rc in
      let low_ok :=
        match r with
        | c :: _ => if negb (c =? 58) then negb (v_min <? (strtol r).1.1) else true
        | [] => negb (v_min <? (strtol r).1.1)
        end in
      if negb low_ok then (false, rc) else
      match after_colon r with
      | Some (c :: t) => if v_max >? (strtol (c :: t)).1.1 then (false, rc) else (true, rc)
      | _ => (true, rc)
      end
  end.

(** ** Expressions and their text *)

Inductive expr :=
  | Num (n : Z)
  | Cmp (o : Op) (n : Z)
  | Between (incl : bool) (a b : Z).

Definition in_long (z : Z) : Prop := LONG_MIN <= z <= LONG_MAX.

(** The expressions of the rule language. *)
Definition expr_ok (e : expr) : Prop :=
  match e with
  | Num n => in_long n
  | Cmp o n => in_long n /\ match o with LG | LEG | MAX => False | _ => True end
  | Between _ a b => in_long a /\ in_long b /\ a <= b
  end.

Definition denotes (e : expr) (c : Z) : Prop :=
  match e with
  | Num n => c = n
  | Cmp EQ n => c = n
  | Cmp NOT n => c <> n
  | Cmp LT n => c < n
  | Cmp LE n => c <= n
  | Cmp GT n => n < c
  | Cmp GE n => n <= c
  | Cmp _ _ => False
  | Between false a b => a < c < b
  | Between true a b => a <= c <= b
  end.

(** The smallest and the largest number an expression names. *)
Definition expr_low (e : expr) : Z := match e with Num n | Cmp _ n => n | Between _ a _ => a end.
Definition expr_high (e : expr) : Z := match e with Num n | Cmp _ n => n | Between _ _ b => b end.

(** Decimal digits; 20 are enough for a [long]. *)
Fixpoint pdec (fuel : nat) (n : Z) : list Z :=
  match fuel with
  | O => []
  | S fuel => if n <? 10 then [48 + n] else pdec fuel (n / 10) ++ [48 + n mod 10]
  end.
Definition print_num (z : Z) : list Z := if z <? 0 then 45 :: pdec 20 (- z) else pdec 20 z.

Definition print_op (o : Op) : list Z :=
  match o with
  | EQ => [61] | NOT => [33; 61] | LT => [60] | LE => [60; 61] | GT => [62] | GE => [62; 61]
  | LG => [60; 62] | LEG => [60; 61; 62] | MAX => []
  end.

Definition print (e : expr) : list Z :=
  match e with
  | Num n => print_num n
  | Cmp o n => print_op o ++ print_num n
  | Between incl a b => print_num a ++ print_op (if incl then LEG else LG) ++ print_num b
  end.

Lemma dec_value_snoc l c : dec_value (l ++ [c]) = dec_value l * 10 + (c - 48).
Proof. unfold dec_value. by rewrite fold_left_app. Qed.

Lemma pdec_spec k n :
  0 <= n < 10 ^ Z.of_nat k -> (0 < k)%nat ->
  Forall is_digit (pdec k n) /\ dec_value (pdec k n) = n /\
  exists c l, pdec k n = c :: l /\ (c = 48 -> l = [] /\ n = 0).
Proof.
  revert n. induction k as [|k IH]; intros n Hn Hk; [lia|]. simpl. bcases.
  - split_and!.
    + repeat constructor; lia.
    + unfold dec_value. simpl. lia.
    + exists (48 + n), []. split; [done|]. intros. split; [done|lia].
  - assert (0 < k)%nat as Hk0 by (destruct k; [simpl in Hn; lia|lia]).
    replace (Z.of_nat (S k)) with (Z.of_nat k + 1) in Hn by lia. rewrite Z.pow_add_r in Hn by lia.
    assert (0 <= n / 10 < 10 ^ Z.of_nat k) as Hd.
    { split; [apply Z.div_pos; lia|]. apply Z.div_lt_upper_bound; lia. }
    destruct (IH (n / 10) Hd Hk0) as (Hf & Hv & c & l & E & Hc). split_and!.
    + apply Forall_app. split; [done|]. repeat constructor; pose proof (Z.mod_pos_bound n 10); lia.
    + rewrite dec_value_snoc, Hv. pose proof (Z.div_mod n 10). lia.
    + exists c, (l ++ [48 + n mod 10]). rewrite E. split; [done|]. intros Hc'.
      destruct (Hc Hc') as [_ H0]. pose proof (Z.div_str_pos n 10). lia.
Qed.

Lemma strtol_digits l v :
  Forall is_digit l -> dec_value l = v ->
  (exists c r, l = c :: r /\ (c = 48 -> r = [] /\ v = 0)) ->
  exists base, base_of l = (base, 0) /\ digits base l 0 0 = (v, Zlen l) /\ 0 < Zlen l.
Proof.
  intros Hf Hv (c & r & -> & Hc). rewrite Zlen_cons. pose proof (Zlen_nonneg r) as Hr.
  pose proof Hf as [Hcd Hrd]%Forall_cons_1. destruct (Z.eq_dec c 48) as [->|Hne].
  - destruct (Hc eq_refl) as [-> ->]. exists 8. split; [done|]. split; [done|lia].
  - exists 10. split.
    + destruct r as [|x [|d r]]; simpl; (destruct (c =? 48) eqn:E; breflect; [lia|done]).
    + rewrite dec_digits_spec, Zlen_cons, Hv by done. split; [done|lia].
Qed.

Lemma print_num_digits z :
  in_long z -> exists l c r, print_num z = (if z <? 0 then 45 :: l else l) /\ l = c :: r /\
    Forall is_digit l /\ dec_value l = Z.abs z /\ (c = 48 -> r = [] /\ Z.abs z = 0).
Proof.
  intros Hz. unfold in_long, LONG_MIN, LONG_MAX in Hz. exists (pdec 20 (Z.abs z)).
  destruct (pdec_spec 20 (Z.abs z)) as (Hf & Hv & c & l & E & Hc); [simpl; lia|lia|].
  exists c, l. split_and!; try done. unfold print_num. bcases; repeat f_equal; lia.
Qed.

Lemma strtol_print z : in_long z -> strtol (print_num z) = (z, [], false).
Proof.
  intros Hz. destruct (print_num_digits z Hz) as (l & c & r & -> & -> & Hf & Hv & Hc).
  pose proof Hf as [Hcd _]%Forall_cons_1. unfold is_digit in Hcd.
  destruct (strtol_digits (c :: r) (Z.abs z) Hf Hv) as (base & Hb & Hd & Hl); [by exists c, r|].
  unfold strtol. replace (spaces _) with 0.
  2:{ destruct (z <? 0); simpl; unfold isspace; bcases; try done; lia. }
  cbv zeta. change (Z.to_nat 0) with 0%nat. rewrite drop_0. unfold in_long in Hz.
  assert (Z.to_nat (Zlen (c :: r)) = length (c :: r)) as Hn by (unfold Zlen; lia).
  bcase (z <? 0) as Ez.
  - cbn [strip_sign]. change (45 =? 45) with true. cbv iota. rewrite Hb. change (Z.to_nat 0) with 0%nat.
    rewrite drop_0, Hd, Hn, drop_all. bcases; try lia. repeat f_equal; lia.
  - cbn [strip_sign]. destruct (c =? 45) eqn:E1; [breflect; lia|]. destruct (c =? 43) eqn:E2; [breflect; lia|].
    rewrite Hb. change (Z.to_nat 0) with 0%nat. rewrite drop_0, Hd, Hn, drop_all. bcases; try lia. repeat f_equal; lia.
Qed.

(** ** Tokens of printed text *)

Lemma digit_chars c : is_digit c -> num_part c = true /\ num_start c = true.
Proof.
  unfold is_digit, num_part, num_start, isxdigit. intros H.
  assert ((48 <=? c) && (c <=? 57) = true) as -> by (apply andb_true_iff; lia).
  by rewrite !orb_true_r.
Qed.

Lemma tokens_low l : Forall is_digit l -> forall rest low ops hi,
  get_tokens (l ++ rest) 1 low ops hi = get_tokens rest 1 (low ++ l) ops hi.
Proof.
  induction 1 as [|c l Hc Hl IH]; intros rest low ops hi; [by rewrite app_nil_r|].
  simpl. rewrite (proj1 (digit_chars c Hc)), IH. by rewrite <- app_assoc.
Qed.

Lemma tokens_hi l : Forall is_digit l -> forall rest low ops hi,
  get_tokens (l ++ rest) 4 low ops hi = get_tokens rest 4 low ops (hi ++ l).
Proof.
  induction 1 as [|c l Hc Hl IH]; intros rest low ops hi; [by rewrite app_nil_r|].
  simpl. rewrite (proj1 (digit_chars c Hc)), IH. by rewrite <- app_assoc.
Qed.

(** A printed number is one character that starts a number, then digits. *)
Lemma print_num_split z :
  in_long z -> exists c l, print_num z = c :: l /\ num_start c = true /\ Forall is_digit l.
Proof.
  intros Hz. destruct (print_num_digits z Hz) as (l & c & r & -> & -> & Hf & _).
  pose proof Hf as [Hc Hr]%Forall_cons_1. destruct (z <? 0); [by exists 45, (c :: r)|].
  exists c, r. split_and!; [done|by apply digit_chars|done].
Qed.

Lemma tokens_num0 z rest :
  in_long z -> get_tokens (print_num z ++ rest) 0 [] [] [] = get_tokens rest 1 (print_num z) [] [].
Proof.
  intros Hz. destruct (print_num_split z Hz) as (c & l & -> & Hc & Hl). simpl. rewrite Hc. by apply tokens_low.
Qed.

Lemma tokens_num2 z low ops :
  in_long z -> get_tokens (print_num z) 2 low ops [] = Some (low, ops, print_num z).
Proof.
  intros Hz. destruct (print_num_split z Hz) as (c & l & -> & Hc & Hl). simpl. rewrite Hc.
  rewrite <- (app_nil_r l) at 1. rewrite tokens_hi by done. done.
Qed.

Lemma print_num_nonempty z : in_long z -> print_num z <> [].
Proof. intros Hz. by destruct (print_num_split z Hz) as (c & l & -> & _). Qed.

Lemma get_num_print z : in_long z -> get_num (print_num z) = (z, true).
Proof.
  intros Hz. unfold get_num. rewrite bool_decide_false by (by apply print_num_nonempty).
  by rewrite strtol_print.
Qed.

(** Parsing from the three tokens. *)
Lemma parse_print rc e :
  expr_ok e -> exists rc', parse rc (print e) = (true, rc') /\ op rc' <> MAX /\
    (forall c, eval rc' c = true <-> denotes e c) /\
    bounds rc' = (expr_low e, expr_high e).
Proof.
  destruct e as [n|o n|incl a b]; simpl.
  - intros Hn. pose proof (tokens_num0 n [] Hn) as E. rewrite app_nil_r in E. unfold parse. rewrite E. simpl.
    pose proof (print_num_nonempty n Hn) as Hne. rewrite get_num_print by done. simpl.
    rewrite (bool_decide_false _ Hne). simpl. exists (MkRange EQ 0 n). split_and!; try done.
    intros c. unfold eval. simpl. lia.
  - intros [Hn Ho]. pose proof (print_num_nonempty n Hn) as Hne.
    destruct o; try done; unfold parse; cbn [print_op app get_tokens Z.eqb];
      cbn -[print_num get_num get_tokens parse bool_decide]; 
      rewrite tokens_num2 by done; cbn -[print_num get_num]; rewrite get_num_print by done; simpl;
      rewrite (bool_decide_false _ Hne); simpl; (eexists; split; [reflexivity|]); split_and!; try done;
      intros c; unfold eval; simpl; rewrite ?negb_true_iff; lia.
  - intros (Ha & Hb & Hab). pose proof (print_num_nonempty a Ha) as Hna. pose proof (print_num_nonempty b Hb) as Hnb.
    unfold parse. rewrite tokens_num0 by done.
    destruct incl; cbn [print_op app]; cbn -[print_num get_num]; rewrite tokens_num2 by done;
      cbn -[print_num get_num]; rewrite !get_num_print by done; simpl;
      rewrite (bool_decide_false _ Hna), (bool_decide_false _ Hnb); simpl;
      (destruct (a >? b) eqn:E; breflect; [lia|]); (eexists; split; [reflexivity|]); split_and!; try done;
      intros c; unfold eval; simpl; rewrite andb_true_iff; lia.
Qed.

(** ** Limits *)

(** [r] is the text of the limits [lo] and, if there is one, [hi]. *)
Definition is_limits (r : list Z) (lo : Z) (hi : option Z) : Prop :=
  head r <> Some 58 /\ (strtol r).1.1 = lo /\
  match after_colon r with
  | Some (c :: t) => hi = Some (strtol (c :: t)).1.1
  | _ => hi = None
  end.

Definition within (e : expr) (lo : Z) (hi : option Z) : Prop :=
  lo <= expr_low e /\ from_option (fun hi => expr_high e <= hi) True hi.

#[export] Instance within_dec e lo hi : Decision (within e lo hi).
Proof. unfold within. destruct hi; simpl; apply _. Defined.

(** The limits that [validate] compares are those of the expression. *)
Lemma validate_print rc e r lo hi :
  expr_ok e -> is_limits r lo hi ->
  exists rc', validate rc (print e) (Some r) = (bool_decide (within e lo hi), rc') /\
    op rc' <> MAX /\ forall c, eval rc' c = true <-> denotes e c.
Proof.
  intros He (Hc & Hlo & Hhi). destruct (parse_print rc e He) as (rc' & E & Hop & Hev & Hb).
  exists rc'. split_and!; try done. unfold validate. rewrite E, Hb. simpl.
  assert ((match r with
           | c :: _ => if negb (c =? 58) then negb (expr_low e <? (strtol r).1.1) else true
           | [] => negb (expr_low e <? (strtol r).1.1) end) = (lo <=? expr_low e)) as ->.
  { destruct r as [|c r]; cbn -[strtol] in Hc |- *; rewrite <- Hlo; bcases; simplify_eq; try lia; done. }
  unfold within. destruct (lo <=? expr_low e) eqn:El; simpl; breflect.
  2:{ f_equal. symmetry. apply bool_decide_eq_false. intros []. lia. }
  destruct (after_colon r) as [[|c t]|]; subst hi; simpl.
  1,3: by rewrite bool_decide_true by done.
  bcases; f_equal; symmetry; [apply bool_decide_eq_false|apply bool_decide_eq_true]; lia.
Qed.
