(* ===== verification/Headers.v ===== *)
(** * Headers: protocol headers as the options read them
    (protocols/ipv4.h, ipv6.h, ip.h, ip.cc, tcp.h, icmp4.h, packet.h)

    The code casts a pointer into the packet to a header structure.  A header
    is here the list of bytes behind that pointer; a member of 16 or 32 bits
    is loaded in the byte order of the host, which is little-endian, and
    converted with [ntohs] or [ntohl].  *)

From S2P Require Import Prelude Extract.

(** ** Loads and byte orders *)

Definition load8 (h : list Z) (o : Z) : Z := rd0 h o.
Definition load16 (h : list Z) (o : Z) : Z := rd0 h o + 256 * rd0 h (o + 1).
Definition load32 (h : list Z) (o : Z) : Z := load16 h o + 65536 * load16 h (o + 2).

Definition ntohs (x : Z) : Z := u16 (Z.lor (Z.shiftl x 8) (Z.shiftr x 8)).
Definition ntohl (x : Z) : Z :=
  Z.lor (Z.shiftl (ntohs (Z.land x 65535)) 16) (ntohs (Z.land (Z.shiftr x 16) 65535)).

(** ** IPv4 *)

Module IP4.

Definition ip_verhl (h : list Z) : Z := load8 h 0.
Definition ip_tos (h : list Z) : Z := load8 h 1.
Definition ip_len (h : list Z) : Z := load16 h 2.
Definition ip_id (h : list Z) : Z := load16 h 4.
Definition ip_off (h : list Z) : Z := load16 h 6.
Definition ip_ttl (h : list Z) : Z := load8 h 8.
Definition ip_proto (h : list Z) : Z := load8 h 9.

Definition IP4_HEADER_LEN : Z := 20.

Definition hlen (h : list Z) : Z := u8 (Z.shiftl (Z.land (ip_verhl h) 15) 2).
Definition ver (h : list Z) : Z := Z.shiftr (ip_verhl h) 4.
Definition tos (h : list Z) : Z := ip_tos h.
Definition len (h : list Z) : Z := ntohs (ip_len h).
Definition ttl (h : list Z) : Z := ip_ttl h.
Definition proto (h : list Z) : Z := ip_proto h.
Definition off_w_flags (h : list Z) : Z := ntohs (ip_off h).
Definition rb (h : list Z) : Z := Z.land (ntohs (ip_off h)) 32768.
Definition df (h : list Z) : Z := Z.land (ntohs (ip_off h)) 16384.
Definition mf (h : list Z) : Z := Z.land (ntohs (ip_off h)) 8192.
Definition off (h : list Z) : Z := u16 (Z.shiftl (Z.land (ntohs (ip_off h)) 8191) 3).
Definition id (h : list Z) : Z := ntohs (ip_id h).
Definition get_opt_len (h : list Z) : Z := u8 (hlen h - IP4_HEADER_LEN).

End IP4.

(** ** IPv6 and its fragment header *)

Module IP6.

Definition ip6_vtf (h : list Z) : Z := load32 h 0.
Definition ip6_payload_len (h : list Z) : Z := load16 h 4.
Definition ip6_next (h : list Z) : Z := load8 h 6.
Definition ip6_hoplim (h : list Z) : Z := load8 h 7.

Definition IP6_HEADER_LEN : Z := 40.

Definition len (h : list Z) : Z := ntohs (ip6_payload_len h).
Definition next (h : list Z) : Z := ip6_next h.
Definition hop_lim (h : list Z) : Z := ip6_hoplim h.
Definition ver (h : list Z) : Z := u8 (Z.shiftr (ntohl (ip6_vtf h)) 28).
Definition tos (h : list Z) : Z := u16 (Z.shiftr (Z.land (ntohl (ip6_vtf h)) 267386880) 20).
Definition hlen (h : list Z) : Z := IP6_HEADER_LEN.

Definition ip6f_offlg (h : list Z) : Z := load16 h 2.
Definition ip6f_ident (h : list Z) : Z := load32 h 4.

Definition frag_off_w_flags (h : list Z) : Z := ntohs (ip6f_offlg h).
Definition frag_off (h : list Z) : Z := Z.land (ntohs (ip6f_offlg h)) 65528.
Definition frag_id (h : list Z) : Z := ntohl (ip6f_ident h).

End IP6.

(** ** The IP layer of a packet *)

(** [iph] and [type]; [IAT_DATA] holds addresses without a header.  The second
    argument of [IAT_6]: [layer::get_inner_ip6_frag ()], null when the packet
    has no fragment header. *)
Inductive IpApi :=
  | IAT_NONE
  | IAT_4 (iph : list Z)
  | IAT_6 (iph : list Z) (frag_hdr : option (list Z))
  | IAT_DATA.

Module Ip.

Definition is_valid (a : IpApi) : bool := match a with IAT_NONE => false | _ => true end.
Definition is_ip4 (a : IpApi) : bool := match a with IAT_4 _ => true | _ => false end.
Definition is_ip6 (a : IpApi) : bool := match a with IAT_6 _ _ => true | _ => false end.
Definition is_ip (a : IpApi) : bool := is_ip4 a || is_ip6 a.

(** [set (raw_ip_data)] on [api]; the addresses are not part of the model. *)
Definition set_raw (api : IpApi) (raw : list Z) (frag_hdr : option (list Z)) : bool * IpApi :=
  if IP4.ver raw =? 4 then (true, IAT_4 raw)
  else if IP6.ver raw =? 6 then (true, IAT_6 raw frag_hdr)
  else (false, api).

Definition tos (a : IpApi) : Z :=
  match a with IAT_4 h => IP4.tos h | IAT_6 h _ => IP6.tos h | _ => 0 end.
Definition ttl (a : IpApi) : Z :=
  match a with IAT_4 h => IP4.ttl h | IAT_6 h _ => IP6.hop_lim h | _ => 0 end.
(** [PROTO_NOT_SET] is 255. *)
Definition proto (a : IpApi) : Z :=
  match a with IAT_4 h => IP4.proto h | IAT_6 h _ => IP6.next h | _ => 255 end.
Definition hlen (a : IpApi) : Z :=
  match a with IAT_4 h => IP4.hlen h | IAT_6 h _ => IP6.hlen h | _ => 0 end.
Definition ver (a : IpApi) : Z :=
  match a with IAT_4 h => IP4.ver h | IAT_6 h _ => IP6.ver h | _ => 0 end.

Definition id (a : IpApi) : Z :=
  match a with
  | IAT_4 h => IP4.id h
  | IAT_6 _ (Some f) => IP6.frag_id f
  | _ => 0
  end.
Definition off (a : IpApi) : Z :=
  match a with
  | IAT_4 h => IP4.off h
  | IAT_6 _ (Some f) => IP6.frag_off f
  | _ => 0
  end.
Definition off_w_flags (a : IpApi) : Z :=
  match a with
  | IAT_4 h => IP4.off_w_flags h
  | IAT_6 _ (Some f) => IP6.frag_off_w_flags f
  | _ => 0
  end.

(** The bytes from [ip_data ()] on; [None] is null. *)
Definition ip_data (a : IpApi) : option (list Z) :=
  match a with
  | IAT_4 h => Some (drop (Z.to_nat (IP4.hlen h)) h)
  | IAT_6 h _ => Some (drop (Z.to_nat (IP6.hlen h)) h)
  | _ => None
  end.
Definition actual_ip_len (a : IpApi) : Z :=
  match a with IAT_4 h => IP4.len h | IAT_6 h _ => IP6.len h | _ => 0 end.
Definition dgram_len (a : IpApi) : Z :=
  match a with
  | IAT_4 h => IP4.len h
  | IAT_6 h _ => u16 (IP6.len h + IP6.IP6_HEADER_LEN)
  | _ => 0
  end.

End Ip.

(** ** TCP and ICMP *)

Module Tcp.

Definition th_seq (h : list Z) : Z := load32 h 4.
Definition th_ack (h : list Z) : Z := load32 h 8.
Definition th_offx2 (h : list Z) : Z := load8 h 12.
Definition th_flags (h : list Z) : Z := load8 h 13.
Definition th_win (h : list Z) : Z := load16 h 14.

Definition hlen (h : list Z) : Z := Z.shiftr (Z.land (th_offx2 h) 240) 2.
Definition win (h : list Z) : Z := ntohs (th_win h).
Definition seq (h : list Z) : Z := ntohl (th_seq h).
Definition ack (h : list Z) : Z := ntohl (th_ack h).

End Tcp.

Module Icmp.

Definition type (h : list Z) : Z := load8 h 0.
Definition code (h : list Z) : Z := load8 h 1.
Definition s_icmp_id (h : list Z) : Z := load16 h 4.
Definition s_icmp_seq (h : list Z) : Z := load16 h 6.

Definition ICMP_ECHO : Z := 8.
Definition ICMP_ECHOREPLY : Z := 0.
Definition ECHO_REQUEST : Z := 128.
Definition ECHO_REPLY : Z := 129.

End Icmp.

(** ** The packet *)

(** [tcph] and [icmph]: the headers, or null. *)
Record Packet := MkPacket {
  tcph : option (list Z);
  icmph : option (list Z);
  ip_api : IpApi;
  packet_flags : Z;
  dsize : Z }.

Definition PKT_REBUILT_STREAM : Z := 2.
Definition PKT_PDU_HEAD : Z := 256.

Definition is_pdu_start (p : Packet) : bool := truth (Z.land (packet_flags p) PKT_PDU_HEAD).
Definition has_ip (p : Packet) : bool := Ip.is_ip (ip_api p).

(** ** Fields in network order *)

(** The two and four bytes at an offset, the first the most significant. *)
Definition be16 (h : list Z) (o : Z) : Z := rd0 h o * 256 + rd0 h (o + 1).
Definition be32 (h : list Z) (o : Z) : Z := be16 h o * 65536 + be16 h (o + 2).

Lemma ntohs_bytes a b : is_u8 a -> is_u8 b -> ntohs (a + 256 * b) = a * 256 + b.
Proof.
  unfold is_u8, ntohs, u16. intros Ha Hb.
  rewrite Z.shiftl_mul_pow2, Z.shiftr_div_pow2 by lia.
  replace ((a + 256 * b) / 2 ^ 8) with b by (change (2 ^ 8) with 256; apply Z.div_unique with a; lia).
  rewrite <- Z.shiftl_mul_pow2 by lia. rewrite lor_shiftl by (change (2 ^ 8) with 256; lia).
  change (2 ^ 8) with 256. replace ((a + 256 * b) * 256 + b) with (a * 256 + b + b * 65536) by lia.
  rewrite Z.mod_add, Z.mod_small by lia. done.
Qed.

Lemma ntohs_load16 h o : bytes h -> ntohs (load16 h o) = be16 h o.
Proof. intros Hb. apply ntohs_bytes; by apply bytes_rd0. Qed.

Lemma be16_range h o : bytes h -> is_u16 (be16 h o).
Proof.
  intros Hb. pose proof (bytes_rd0 h o Hb). pose proof (bytes_rd0 h (o + 1) Hb).
  unfold is_u8, is_u16, be16 in *. lia.
Qed.

Lemma load16_range h o : bytes h -> is_u16 (load16 h o).
Proof.
  intros Hb. pose proof (bytes_rd0 h o Hb). pose proof (bytes_rd0 h (o + 1) Hb).
  unfold is_u8, is_u16, load16 in *. lia.
Qed.

Lemma ntohl_load32 h o : bytes h -> ntohl (load32 h o) = be32 h o.
Proof.
  intros Hb. pose proof (load16_range h o Hb) as H1. pose proof (load16_range h (o + 2) Hb) as H2.
  unfold ntohl, load32, is_u16 in *. change 65535 with (Z.ones 16).
  rewrite !Z.land_ones, Z.shiftr_div_pow2 by lia. change (2 ^ 16) with 65536.
  replace ((load16 h o + 65536 * load16 h (o + 2)) mod 65536) with (load16 h o)
    by (apply Z.mod_unique with (load16 h (o + 2)); lia).
  replace ((load16 h o + 65536 * load16 h (o + 2)) / 65536) with (load16 h (o + 2))
    by (apply Z.div_unique with (load16 h o); lia).
  rewrite (Z.mod_small (load16 h (o + 2))) by lia. rewrite !ntohs_load16 by done.
  pose proof (be16_range h (o + 2) Hb). unfold is_u16 in *. rewrite lor_shiftl by lia. done.
Qed.

Lemma be32_range h o : bytes h -> is_u32 (be32 h o).
Proof.
  intros Hb. pose proof (be16_range h o Hb). pose proof (be16_range h (o + 2) Hb).
  unfold is_u16, is_u32, be32 in *. lia.
Qed.

(** A mask of adjacent bits shifted down, on a 16- or 32-bit field. *)
Lemma land_high x k n : 0 <= k -> 0 <= n -> 0 <= x < 2 ^ (k + n) -> Z.land x (Z.shiftl (Z.ones n) k) = x / 2 ^ k * 2 ^ k.
Proof.
  intros Hk Hn Hx. rewrite <- Z.shiftr_div_pow2, <- Z.shiftl_mul_pow2 by done.
  apply Z.bits_inj'. intros i Hi. rewrite Z.land_spec, !Z.shiftl_spec by done.
  destruct (Z.lt_ge_cases i k) as [Hlt|Hge].
  - rewrite !(Z.testbit_neg_r _ (i - k)) by lia. by rewrite andb_false_r.
  - rewrite Z.shiftr_spec by lia. replace (i - k + k) with i by lia.
    destruct (Z.lt_ge_cases (i - k) n) as [Hl|Hg].
    + rewrite Z.ones_spec_low by lia. by rewrite andb_true_r.
    + rewrite Z.ones_spec_high by lia. rewrite andb_false_r. symmetry.
      destruct (decide (x = 0)) as [->|]; [apply Z.bits_0|].
      apply Z.bits_above_log2; [lia|]. apply Z.log2_lt_pow2; [lia|].
      assert (2 ^ (k + n) <= 2 ^ i) by (apply Z.pow_le_mono_r; lia). lia.
Qed.

(** ** What the getters of [IpApi] read *)

(** The fields of RFC 791 and RFC 8200: the fragment offset counts units of
    eight bytes. *)
Definition rfc_frag_units (a : IpApi) : Z :=
  match a with
  | IAT_4 h => be16 h 6 mod 8192
  | IAT_6 _ (Some f) => be16 f 2 / 8
  | _ => 0
  end.
Definition rfc_id (a : IpApi) : Z :=
  match a with
  | IAT_4 h => be16 h 4
  | IAT_6 _ (Some f) => be32 f 4
  | _ => 0
  end.
Definition rfc_traffic_class (a : IpApi) : Z :=
  match a with
  | IAT_4 h => rd0 h 1
  | IAT_6 h _ => be32 h 0 / 1048576 mod 256
  | _ => 0
  end.

Definition api_bytes (a : IpApi) : Prop :=
  match a with
  | IAT_4 h => bytes h
  | IAT_6 h f => bytes h /\ from_option bytes True f
  | _ => True
  end.

Lemma off_rfc a : api_bytes a -> Ip.off a = 8 * rfc_frag_units a.
Proof.
  destruct a as [|h|h [f|]|]; simpl; try done.
  - intros Hb. unfold IP4.off, IP4.ip_off. rewrite ntohs_load16 by done.
    change 8191 with (Z.ones 13). rewrite Z.land_ones, Z.shiftl_mul_pow2 by lia.
    change (2 ^ 13) with 8192. change (2 ^ 3) with 8.
    pose proof (Z.mod_pos_bound (be16 h 6) 8192). rewrite u16_small; [lia|]. unfold is_u16. lia.
  - intros [_ Hb]. unfold IP6.frag_off, IP6.ip6f_offlg. rewrite ntohs_load16 by done.
    change 65528 with (Z.shiftl (Z.ones 13) 3). rewrite land_high; [change (2 ^ 3) with 8; lia|lia..|].
    apply (be16_range f 2 Hb).
Qed.

Lemma id_rfc a : api_bytes a -> Ip.id a = rfc_id a.
Proof.
  destruct a as [|h|h [f|]|]; simpl; try done.
  - by apply ntohs_load16.
  - intros [_ Hb]. by apply ntohl_load32.
Qed.

Lemma tos_rfc a : api_bytes a -> Ip.tos a = rfc_traffic_class a.
Proof.
  destruct a as [|h|h f|]; simpl; try done. intros [Hb _].
  unfold IP6.tos, IP6.ip6_vtf. rewrite ntohl_load32 by done.
  rewrite Z.shiftr_land. change (Z.shiftr 267386880 20) with (Z.ones 8).
  rewrite Z.land_ones, Z.shiftr_div_pow2 by lia.
  change (2 ^ 20) with 1048576. change (2 ^ 8) with 256.
  pose proof (Z.mod_pos_bound (be32 h 0 / 1048576) 256). rewrite u16_small; [done|]. unfold is_u16. lia.
Qed.
