(* ===== verification/RangeOptions.v ===== *)
(** * RangeOptions: the rule options that compare one number
    (ips_options/ips_dsize.cc, ips_ttl.cc, ips_tos.cc, ips_id.cc,
    ips_fragoffset.cc, ips_ack.cc, ips_seq.cc, ips_window.cc, ips_icode.cc,
    ips_itype.cc, ips_icmp_id.cc, ips_icmp_seq.cc, ips_bufferlen.cc)

    Each option has a [RangeCheck], which its module fills from the rule's
    text, and compares a header field, the payload size or the rest of the
    cursor's buffer with it.  One [Module] per file. *)

From S2P Require Import Prelude Cursor Hash Range Headers.

Record RangeOption := MkRangeOption { ro_base : IpsOption; config : RangeCheck }.

(** The value of an [Op] as an integer. *)
Definition op_code (o : Op) : Z :=
  match o with
  | EQ => 0 | NOT => 1 | LT => 2 | LE => 3 | GT => 4 | GE => 5 | LG => 6 | LEG => 7 | MAX => 8
  end.

(** [config.eval (x) ? MATCH : NO_MATCH]. *)
Definition check (rc : RangeCheck) (x : Z) : EvalStatus := if Range.eval rc x then MATCH else NO_MATCH.

(** [Module::set] with the parameter's name and the value's string: the only
    parameter is [~range]. *)
Definition set_range (limits : list Z) (nm : string) (v : list Z) (data : RangeCheck) : bool * RangeCheck :=
  if negb (String.eqb nm "~range") then (false, data) else validate data v (Some limits).

Module Dsize.

Definition s_name : string := "dsize".
Definition RANGE : list Z := str_bytes "0:65535".

(** The constructor, with the file static [s_buffer] of the base class. *)
Definition new (s_buffer : string) (c : RangeCheck) : RangeOption :=
  MkRangeOption (IpsOption_new s_buffer s_name RULE_OPTION_TYPE_OTHER).1 c.
Definition hash (o : RangeOption) : Z :=
  let rc := config o in hash_tail (mix 32 (u32 (min rc), u32 (max rc), op_code (op rc))) (opt_name (ro_base o)).
Definition eqb (x y : RangeOption) : bool :=
  String.eqb (opt_name (ro_base x)) (opt_name (ro_base y)) && Range.eqb (config x) (config y).
Definition eval (o : RangeOption) (c : Cursor) (p : Packet) : EvalStatus :=
  if truth (Z.land (packet_flags p) PKT_REBUILT_STREAM) && negb (is_pdu_start p) then NO_MATCH
  else check (config o) (dsize p).
Definition begin_ (data : RangeCheck) : RangeCheck := init.
Definition set_ (nm : string) (v : list Z) (data : RangeCheck) : bool * RangeCheck :=
  set_range RANGE nm v data.

End Dsize.

Module Ttl.

Definition s_name : string := "ttl".
Definition RANGE : list Z := str_bytes "0:255".

(** The constructor, with the file static [s_buffer] of the base class. *)
Definition new (s_buffer : string) (c : RangeCheck) : RangeOption :=
  MkRangeOption (IpsOption_new s_buffer s_name RULE_OPTION_TYPE_OTHER).1 c.
Definition hash (o : RangeOption) : Z :=
  let rc := config o in hash_tail (mix 32 (op_code (op rc), u32 (min rc), u32 (max rc))) (opt_name (ro_base o)).
Definition eqb (x y : RangeOption) : bool :=
  String.eqb (opt_name (ro_base x)) (opt_name (ro_base y)) && Range.eqb (config x) (config y).
Definition eval (o : RangeOption) (c : Cursor) (p : Packet) : EvalStatus :=
  if negb (Ip.is_ip (ip_api p)) then NO_MATCH else check (config o) (Ip.ttl (ip_api p)).
Definition begin_ (data : RangeCheck) : RangeCheck := init.
Definition set_ (nm : string) (v : list Z) (data : RangeCheck) : bool * RangeCheck :=
  set_range RANGE nm v data.

End Ttl.

Module Tos.

Definition s_name : string := "tos".
Definition RANGE : list Z := str_bytes "0:255".

(** The constructor, with the file static [s_buffer] of the base class. *)
Definition new (s_buffer : string) (c : RangeCheck) : RangeOption :=
  MkRangeOption (IpsOption_new s_buffer s_name RULE_OPTION_TYPE_OTHER).1 c.
Definition hash (o : RangeOption) : Z :=
  let rc := config o in hash_tail (op_code (op rc), u32 (min rc), u32 (max rc)) (opt_name (ro_base o)).
Definition eqb (x y : RangeOption) : bool :=
  String.eqb (opt_name (ro_base x)) (opt_name (ro_base y)) && Range.eqb (config x) (config y).
Definition eval (o : RangeOption) (c : Cursor) (p : Packet) : EvalStatus :=
  if negb (Ip.is_ip (ip_api p)) then NO_MATCH else check (config o) (Ip.tos (ip_api p)).
Definition begin_ (data : RangeCheck) : RangeCheck := init.
Definition set_ (nm : string) (v : list Z) (data : RangeCheck) : bool * RangeCheck :=
  set_range RANGE nm v data.

End Tos.

Module IpId.

Definition s_name : string := "id".
Definition RANGE : list Z := str_bytes "0:".

(** The constructor, with the file static [s_buffer] of the base class. *)
Definition new (s_buffer : string) (c : RangeCheck) : RangeOption :=
  MkRangeOption (IpsOption_new s_buffer s_name RULE_OPTION_TYPE_OTHER).1 c.
Definition hash (o : RangeOption) : Z :=
  let rc := config o in hash_tail (op_code (op rc), u32 (min rc), u32 (max rc)) (opt_name (ro_base o)).
Definition eqb (x y : RangeOption) : bool :=
  String.eqb (opt_name (ro_base x)) (opt_name (ro_base y)) && Range.eqb (config x) (config y).
Definition eval (o : RangeOption) (c : Cursor) (p : Packet) : EvalStatus :=
  if negb (has_ip p) then NO_MATCH else check (config o) (Ip.id (ip_api p)).
Definition begin_ (data : RangeCheck) : RangeCheck := init.
Definition set_ (nm : string) (v : list Z) (data : RangeCheck) : bool * RangeCheck :=
  set_range RANGE nm v data.

End IpId.

Module FragOffset.

Definition s_name : string := "fragoffset".
Definition RANGE : list Z := str_bytes "0:8192".

(** The constructor, with the file static [s_buffer] of the base class. *)
Definition new (s_buffer : string) (c : RangeCheck) : RangeOption :=
  MkRangeOption (IpsOption_new s_buffer s_name RULE_OPTION_TYPE_OTHER).1 c.
Definition hash (o : RangeOption) : Z :=
  let rc := config o in hash_tail (op_code (op rc), u32 (min rc), u32 (max rc)) (opt_name (ro_base o)).
Definition eqb (x y : RangeOption) : bool :=
  String.eqb (opt_name (ro_base x)) (opt_name (ro_base y)) && Range.eqb (config x) (config y).
Definition eval (o : RangeOption) (c : Cursor) (p : Packet) : EvalStatus :=
  if negb (has_ip p) then NO_MATCH
  else if negb (Range.eval (config o) (Ip.off (ip_api p))) then NO_MATCH else MATCH.
Definition begin_ (data : RangeCheck) : RangeCheck := init.
Definition set_ (nm : string) (v : list Z) (data : RangeCheck) : bool * RangeCheck :=
  set_range RANGE nm v data.

End FragOffset.

Module Ack.

Definition s_name : string := "ack".
Definition RANGE : list Z := str_bytes "0:".

(** The constructor, with the file static [s_buffer] of the base class. *)
Definition new (s_buffer : string) (c : RangeCheck) : RangeOption :=
  MkRangeOption (IpsOption_new s_buffer s_name RULE_OPTION_TYPE_OTHER).1 c.
Definition hash (o : RangeOption) : Z :=
  let rc := config o in hash_tail (op_code (op rc), u32 (min rc), u32 (max rc)) (opt_name (ro_base o)).
Definition eqb (x y : RangeOption) : bool :=
  String.eqb s_name (opt_name (ro_base y)) && Range.eqb (config x) (config y).
Definition eval (o : RangeOption) (c : Cursor) (p : Packet) : EvalStatus :=
  match tcph p with
  | Some h => if Range.eval (config o) (Tcp.th_ack h) then MATCH else NO_MATCH
  | None => NO_MATCH
  end.
Definition begin_ (data : RangeCheck) : RangeCheck := init.
Definition set_ (nm : string) (v : list Z) (data : RangeCheck) : bool * RangeCheck :=
  set_range RANGE nm v data.

End Ack.

Module Seq.

Definition s_name : string := "seq".
Definition RANGE : list Z := str_bytes "0:".

(** The constructor, with the file static [s_buffer] of the base class. *)
Definition new (s_buffer : string) (c : RangeCheck) : RangeOption :=
  MkRangeOption (IpsOption_new s_buffer s_name RULE_OPTION_TYPE_OTHER).1 c.
Definition hash (o : RangeOption) : Z :=
  let rc := config o in hash_tail (op_code (op rc), u32 (min rc), u32 (max rc)) (opt_name (ro_base o)).
Definition eqb (x y : RangeOption) : bool :=
  String.eqb (opt_name (ro_base x)) (opt_name (ro_base y)) && Range.eqb (config x) (config y).
Definition eval (o : RangeOption) (c : Cursor) (p : Packet) : EvalStatus :=
  match tcph p with None => NO_MATCH | Some h => check (config o) (Tcp.seq h) end.
Definition begin_ (data : RangeCheck) : RangeCheck := init.
Definition set_ (nm : string) (v : list Z) (data : RangeCheck) : bool * RangeCheck :=
  set_range RANGE nm v data.

End Seq.

Module Window.

Definition s_name : string := "window".
Definition RANGE : list Z := str_bytes "0:65535".

(** The constructor, with the file static [s_buffer] of the base class. *)
Definition new (s_buffer : string) (c : RangeCheck) : RangeOption :=
  MkRangeOption (IpsOption_new s_buffer s_name RULE_OPTION_TYPE_OTHER).1 c.
Definition hash (o : RangeOption) : Z :=
  let rc := config o in hash_tail (op_code (op rc), u32 (min rc), u32 (max rc)) (opt_name (ro_base o)).
Definition eqb (x y : RangeOption) : bool :=
  String.eqb (opt_name (ro_base x)) (opt_name (ro_base y)) && Range.eqb (config x) (config y).
Definition eval (o : RangeOption) (c : Cursor) (p : Packet) : EvalStatus :=
  match tcph p with None => NO_MATCH | Some h => check (config o) (Tcp.win h) end.
Definition begin_ (data : RangeCheck) : RangeCheck := init.
Definition set_ (nm : string) (v : list Z) (data : RangeCheck) : bool * RangeCheck :=
  set_range RANGE nm v data.

End Window.

Module Icode.

Definition s_name : string := "icode".
Definition RANGE : list Z := str_bytes "0:255".

(** The constructor, with the file static [s_buffer] of the base class. *)
Definition new (s_buffer : string) (c : RangeCheck) : RangeOption :=
  MkRangeOption (IpsOption_new s_buffer s_name RULE_OPTION_TYPE_OTHER).1 c.
Definition hash (o : RangeOption) : Z :=
  let rc := config o in hash_tail (op_code (op rc), u32 (min rc), u32 (max rc)) (opt_name (ro_base o)).
Definition eqb (x y : RangeOption) : bool :=
  String.eqb (opt_name (ro_base x)) (opt_name (ro_base y)) && Range.eqb (config x) (config y).
Definition eval (o : RangeOption) (c : Cursor) (p : Packet) : EvalStatus :=
  match icmph p with None => NO_MATCH | Some h => check (config o) (Icmp.code h) end.
Definition begin_ (data : RangeCheck) : RangeCheck := init.
Definition set_ (nm : string) (v : list Z) (data : RangeCheck) : bool * RangeCheck :=
  set_range RANGE nm v data.

End Icode.

Module Itype.

Definition s_name : string := "itype".
Definition RANGE : list Z := str_bytes "0:255".

(** The constructor, with the file static [s_buffer] of the base class. *)
Definition new (s_buffer : string) (c : RangeCheck) : RangeOption :=
  MkRangeOption (IpsOption_new s_buffer s_name RULE_OPTION_TYPE_OTHER).1 c.
Definition hash (o : RangeOption) : Z :=
  let rc := config o in hash_tail (mix 32 (op_code (op rc), u32 (min rc), u32 (max rc))) (opt_name (ro_base o)).
Definition eqb (x y : RangeOption) : bool :=
  String.eqb (opt_name (ro_base x)) (opt_name (ro_base y)) && Range.eqb (config x) (config y).
Definition eval (o : RangeOption) (c : Cursor) (p : Packet) : EvalStatus :=
  match icmph p with None => NO_MATCH | Some h => check (config o) (Icmp.type h) end.
Definition begin_ (data : RangeCheck) : RangeCheck := init.
Definition set_ (nm : string) (v : list Z) (data : RangeCheck) : bool * RangeCheck :=
  set_range RANGE nm v data.

End Itype.

Module IcmpId.

Definition s_name : string := "icmp_id".
Definition RANGE : list Z := str_bytes "0:65535".

(** The constructor, with the file static [s_buffer] of the base class. *)
Definition new (s_buffer : string) (c : RangeCheck) : RangeOption :=
  MkRangeOption (IpsOption_new s_buffer s_name RULE_OPTION_TYPE_OTHER).1 c.
Definition hash (o : RangeOption) : Z :=
  let rc := config o in hash_tail (op_code (op rc), u32 (min rc), u32 (max rc)) (opt_name (ro_base o)).
Definition eqb (x y : RangeOption) : bool :=
  String.eqb (opt_name (ro_base x)) (opt_name (ro_base y)) && Range.eqb (config x) (config y).
Definition eval (o : RangeOption) (c : Cursor) (p : Packet) : EvalStatus :=
  match icmph p with
  | None => NO_MATCH
  | Some h =>
      if (Icmp.type h =? Icmp.ICMP_ECHO) || (Icmp.type h =? Icmp.ICMP_ECHOREPLY)
         || (Icmp.type h =? Icmp.ECHO_REQUEST) || (Icmp.type h =? Icmp.ECHO_REPLY)
      then check (config o) (ntohs (Icmp.s_icmp_id h)) else NO_MATCH
  end.
Definition begin_ (data : RangeCheck) : RangeCheck := init.
Definition set_ (nm : string) (v : list Z) (data : RangeCheck) : bool * RangeCheck :=
  set_range RANGE nm v data.

End IcmpId.

Module IcmpSeq.

Definition s_name : string := "icmp_seq".
Definition RANGE : list Z := str_bytes "0:65535".

(** The constructor, with the file static [s_buffer] of the base class. *)
Definition new (s_buffer : string) (c : RangeCheck) : RangeOption :=
  MkRangeOption (IpsOption_new s_buffer s_name RULE_OPTION_TYPE_OTHER).1 c.
Definition hash (o : RangeOption) : Z :=
  let rc := config o in hash_tail (op_code (op rc), u32 (min rc), u32 (max rc)) (opt_name (ro_base o)).
Definition eqb (x y : RangeOption) : bool :=
  String.eqb (opt_name (ro_base x)) (opt_name (ro_base y)) && Range.eqb (config x) (config y).
Definition eval (o : RangeOption) (c : Cursor) (p : Packet) : EvalStatus :=
  match icmph p with
  | None => NO_MATCH
  | Some h =>
      if (Icmp.type h =? Icmp.ICMP_ECHO) || (Icmp.type h =? Icmp.ICMP_ECHOREPLY)
         || (Icmp.type h =? Icmp.ECHO_REQUEST) || (Icmp.type h =? Icmp.ECHO_REPLY)
      then check (config o) (ntohs (Icmp.s_icmp_seq h)) else NO_MATCH
  end.
Definition begin_ (data : RangeCheck) : RangeCheck := init.
Definition set_ (nm : string) (v : list Z) (data : RangeCheck) : bool * RangeCheck :=
  set_range RANGE nm v data.

End IcmpSeq.

Module BufferLen.

Definition s_name : string := "bufferlen".
Definition RANGE : list Z := str_bytes "0:65535".

(** The constructor, with the file static [s_buffer] of the base class. *)
Definition new (s_buffer : string) (c : RangeCheck) : RangeOption :=
  MkRangeOption (IpsOption_new s_buffer s_name RULE_OPTION_TYPE_BUFFER_USE).1 c.
Definition hash (o : RangeOption) : Z :=
  let rc := config o in hash_tail (op_code (op rc), u32 (min rc), u32 (max rc)) (opt_name (ro_base o)).
Definition eqb (x y : RangeOption) : bool :=
  IpsOption_eqb (ro_base x) (ro_base y) && Range.eqb (config x) (config y).
Definition eval (o : RangeOption) (c : Cursor) (p : Packet) : EvalStatus :=
  check (config o) (length_ c).
Definition begin_ (data : RangeCheck) : RangeCheck := init.
Definition set_ (nm : string) (v : list Z) (data : RangeCheck) : bool * RangeCheck :=
  set_range RANGE nm v data.

End BufferLen.

(** ** The classes *)

(** The virtual functions of an option class and of its module. *)
Record RangeClass := MkClass {
  cl_name : string; cl_limits : list Z;
  cl_new : string -> RangeCheck -> RangeOption;
  cl_hash : RangeOption -> Z;
  cl_eqb : RangeOption -> RangeOption -> bool;
  cl_eval : RangeOption -> Cursor -> Packet -> EvalStatus;
  cl_begin : RangeCheck -> RangeCheck;
  cl_set : string -> list Z -> RangeCheck -> bool * RangeCheck }.

Inductive kind :=
  | KDsize | KTtl | KTos | KIpId | KFragOffset | KAck | KSeq | KWindow | KIcode | KItype | KIcmpId | KIcmpSeq | KBufferLen.

Definition class (k : kind) : RangeClass :=
  match k with
  | KDsize => MkClass Dsize.s_name Dsize.RANGE Dsize.new Dsize.hash Dsize.eqb Dsize.eval Dsize.begin_ Dsize.set_
  | KTtl => MkClass Ttl.s_name Ttl.RANGE Ttl.new Ttl.hash Ttl.eqb Ttl.eval Ttl.begin_ Ttl.set_
  | KTos => MkClass Tos.s_name Tos.RANGE Tos.new Tos.hash Tos.eqb Tos.eval Tos.begin_ Tos.set_
  | KIpId => MkClass IpId.s_name IpId.RANGE IpId.new IpId.hash IpId.eqb IpId.eval IpId.begin_ IpId.set_
  | KFragOffset => MkClass FragOffset.s_name FragOffset.RANGE FragOffset.new FragOffset.hash FragOffset.eqb FragOffset.eval FragOffset.begin_ FragOffset.set_
  | KAck => MkClass Ack.s_name Ack.RANGE Ack.new Ack.hash Ack.eqb Ack.eval Ack.begin_ Ack.set_
  | KSeq => MkClass Seq.s_name Seq.RANGE Seq.new Seq.hash Seq.eqb Seq.eval Seq.begin_ Seq.set_
  | KWindow => MkClass Window.s_name Window.RANGE Window.new Window.hash Window.eqb Window.eval Window.begin_ Window.set_
  | KIcode => MkClass Icode.s_name Icode.RANGE Icode.new Icode.hash Icode.eqb Icode.eval Icode.begin_ Icode.set_
  | KItype => MkClass Itype.s_name Itype.RANGE Itype.new Itype.hash Itype.eqb Itype.eval Itype.begin_ Itype.set_
  | KIcmpId => MkClass IcmpId.s_name IcmpId.RANGE IcmpId.new IcmpId.hash IcmpId.eqb IcmpId.eval IcmpId.begin_ IcmpId.set_
  | KIcmpSeq => MkClass IcmpSeq.s_name IcmpSeq.RANGE IcmpSeq.new IcmpSeq.hash IcmpSeq.eqb IcmpSeq.eval IcmpSeq.begin_ IcmpSeq.set_
  | KBufferLen => MkClass BufferLen.s_name BufferLen.RANGE BufferLen.new BufferLen.hash BufferLen.eqb BufferLen.eval BufferLen.begin_ BufferLen.set_
  end.

(** An option object in memory: its class, the value of [s_buffer] when it was
    made, and its configuration. *)
Record RangeObject := MkRangeObject { ob_kind : kind; ob_buffer : string; ob_config : RangeCheck }.
Definition object (o : RangeObject) : RangeOption := cl_new (class (ob_kind o)) (ob_buffer o) (ob_config o).
Definition object_hash (o : RangeObject) : Z := cl_hash (class (ob_kind o)) (object o).
Definition object_eqb (a b : RangeObject) : bool := cl_eqb (class (ob_kind a)) (object a) (object b).

(** ** Equal options have equal hashes *)

Lemma cl_name_inj j k : cl_name (class j) = cl_name (class k) -> j = k.
Proof. by destruct j, k. Qed.

Lemma object_name o : opt_name (ro_base (object o)) = cl_name (class (ob_kind o)).
Proof. by destruct o as [[] ? ?]. Qed.

Lemma object_config o : config (object o) = ob_config o.
Proof. by destruct o as [[] ? ?]. Qed.

Lemma range_eqb_eq a b : Range.eqb a b = true <-> a = b.
Proof.
  destruct a as [o mn mx], b as [o' mn' mx']. unfold Range.eqb. simpl.
  rewrite !andb_true_iff, bool_decide_eq_true, !Z.eqb_eq. split; [by intros [[-> ->] ->]|by intros [= -> -> ->]].
Qed.

(** The buffer counts only for [bufferlen]. *)
Lemma object_eqb_spec a b :
  object_eqb a b = true <->
  ob_kind a = ob_kind b /\ ob_config a = ob_config b /\ (ob_kind a = KBufferLen -> ob_buffer a = ob_buffer b).
Proof.
  assert (object_eqb a b = true <->
          cl_name (class (ob_kind a)) = cl_name (class (ob_kind b)) /\ ob_config a = ob_config b /\
          (ob_kind a = KBufferLen -> opt_buffer (ro_base (object a)) = opt_buffer (ro_base (object b)))) as ->.
  { destruct a as [k s rc], b as [k' s' rc']. rewrite <- range_eqb_eq, <- String.eqb_eq, <- !object_name, <- !object_config.
    destruct k.
    all: try (split;
      [intros [H1 H2]%andb_true_iff; split_and!; [exact H1|exact H2|done]
      |intros (H1 & H2 & _); apply andb_true_iff; split; [exact H1|exact H2]]).
    split.
    - intros [[H1 H3]%andb_true_iff H2]%andb_true_iff. split_and!; [exact H1|exact H2|].
      intros _. by apply String.eqb_eq in H3.
    - intros (H1 & H2 & H3). specialize (H3 eq_refl). apply String.eqb_eq in H3.
      apply andb_true_iff. split; [apply andb_true_iff; by split|done]. }
  split; intros (Hk & Hc & Hb).
  - apply cl_name_inj in Hk. split_and!; [done..|]. intros E. specialize (Hb E).
    destruct a as [k s rc], b as [k' s' rc']. simpl in *. by subst.
  - split_and!; [by rewrite Hk|done|]. intros E. specialize (Hb E).
    destruct a as [k s rc], b as [k' s' rc']. simpl in *. by subst.
Qed.

Lemma object_eqb_cong a b c : object_eqb a b = true -> object_eqb a c = object_eqb b c.
Proof.
  intros Hab. apply eq_bool_prop_intro. rewrite !Is_true_true. rewrite object_eqb_spec in Hab.
  rewrite !object_eqb_spec. destruct Hab as (-> & -> & Hb). split; intros (Hk & Hc & H); split_and!; try done.
  - intros E. rewrite <- (Hb E). auto.
  - intros E. rewrite (Hb E). auto.
Qed.

Lemma cl_hash_eq k x y :
  opt_name (ro_base x) = opt_name (ro_base y) -> config x = config y -> cl_hash (class k) x = cl_hash (class k) y.
Proof.
  intros Hn Hc. destruct k; unfold class, cl_hash, Dsize.hash, Ttl.hash, Tos.hash, IpId.hash, FragOffset.hash,
    Ack.hash, Seq.hash, Window.hash, Icode.hash, Itype.hash, IcmpId.hash, IcmpSeq.hash, BufferLen.hash;
    cbv zeta; rewrite Hn, Hc; reflexivity.
Qed.

Lemma object_eqb_hash a b : object_eqb a b = true -> object_hash a = object_hash b.
Proof.
  intros (Hk & Hc & _)%object_eqb_spec. unfold object_hash. rewrite Hk. apply cl_hash_eq.
  - by rewrite !object_name, Hk.
  - by rewrite !object_config.
Qed.

#[export] Instance Range_key : OptionKey RangeObject :=
  {| opt_hash := object_hash; opt_eqb := object_eqb; opt_eqb_hash := object_eqb_hash |}.

(** ** The field an option is about *)

Definition ip_field (a : IpApi) (x : Z) : option Z := if Ip.is_ip a then Some x else None.
(** The ICMP types of echo requests and replies, of both versions. *)
Definition is_echo (h : list Z) : Prop := rd0 h 0 ∈ [0; 8; 128; 129].

(** The number in the packet or cursor, read in network byte order; [None]
    where the packet has no such field. *)
Definition rfc_field (k : kind) (p : Packet) (c : Cursor) : option Z :=
  match k with
  | KDsize =>
      if Z.testbit (packet_flags p) 1 && negb (Z.testbit (packet_flags p) 8) then None else Some (dsize p)
  | KTtl => match ip_api p with IAT_4 h => Some (rd0 h 8) | IAT_6 h _ => Some (rd0 h 7) | _ => None end
  | KTos => ip_field (ip_api p) (rfc_traffic_class (ip_api p))
  | KIpId => ip_field (ip_api p) (rfc_id (ip_api p))
  | KFragOffset => ip_field (ip_api p) (8 * rfc_frag_units (ip_api p))
  | KAck => (fun h => be32 h 8) <$> tcph p
  | KSeq => (fun h => be32 h 4) <$> tcph p
  | KWindow => (fun h => be16 h 14) <$> tcph p
  | KIcode => (fun h => rd0 h 1) <$> icmph p
  | KItype => (fun h => rd0 h 0) <$> icmph p
  | KIcmpId => h ← icmph p; if bool_decide (is_echo h) then Some (be16 h 4) else None
  | KIcmpSeq => h ← icmph p; if bool_decide (is_echo h) then Some (be16 h 6) else None
  | KBufferLen => Some (sz c - pos c)
  end.

(** The limits of a class as numbers. *)
Definition limits (k : kind) : Z * option Z :=
  match k with
  | KDsize | KWindow | KIcmpId | KIcmpSeq | KBufferLen => (0, Some 65535)
  | KTtl | KTos | KIcode | KItype => (0, Some 255)
  | KIpId | KAck | KSeq => (0, None)
  | KFragOffset => (0, Some 8192)
  end.

Definition packet_wf (p : Packet) : Prop :=
  from_option bytes True (tcph p) /\ from_option bytes True (icmph p) /\ api_bytes (ip_api p).

Lemma limits_text k : is_limits (cl_limits (class k)) (limits k).1 (limits k).2.
Proof. destruct k; by vm_compute. Qed.

Lemma cl_set_range k s v data :
  cl_set (class k) s v data = set_range (cl_limits (class k)) s v data.
Proof. by destruct k. Qed.

(** What [check] on an optional field decides. *)
Definition checked (rc : RangeCheck) (f : option Z) : EvalStatus :=
  match f with Some x => check rc x | None => NO_MATCH end.

Lemma check_match rc x : check rc x = MATCH <-> Range.eval rc x = true.
Proof. unfold check. by destruct (Range.eval rc x). Qed.

Lemma truth_bit x k : 0 <= k -> truth (Z.land x (2 ^ k)) = Z.testbit x k.
Proof.
  intros Hk. destruct (Z.testbit x k) eqn:E.
  - apply truth_true. intros H0. assert (Z.testbit (Z.land x (2 ^ k)) k = true) as Ht.
    { by rewrite Z.land_spec, E, Z.pow2_bits_true. }
    by rewrite H0, Z.bits_0 in Ht.
  - apply truth_false. apply Z.bits_inj'. intros i Hi. rewrite Z.land_spec, Z.bits_0, Z.pow2_bits_eqb by done.
    destruct (Z.eqb_spec k i) as [<-|]; [by rewrite E|by rewrite andb_false_r].
Qed.

Lemma is_echo_bool h :
  (Icmp.type h =? Icmp.ICMP_ECHO) || (Icmp.type h =? Icmp.ICMP_ECHOREPLY)
  || (Icmp.type h =? Icmp.ECHO_REQUEST) || (Icmp.type h =? Icmp.ECHO_REPLY) = bool_decide (is_echo h).
Proof.
  apply eq_bool_prop_intro. rewrite !orb_True, !Is_true_true, !Z.eqb_eq, bool_decide_eq_true.
  unfold is_echo, Icmp.type, load8, Icmp.ICMP_ECHO, Icmp.ICMP_ECHOREPLY, Icmp.ECHO_REQUEST, Icmp.ECHO_REPLY.
  rewrite !elem_of_cons, elem_of_nil. tauto.
Qed.

(** Every class but [ack] compares the field in network order. *)
Lemma eval_field k s rc c p :
  k <> KAck -> packet_wf p -> cursor_wf c ->
  cl_eval (class k) (cl_new (class k) s rc) c p = checked rc (rfc_field k p c).
Proof.
  intros Hk (Ht & Hi & Ha) Hc. destruct k; try done; simpl.
  - unfold Dsize.eval, is_pdu_start, PKT_REBUILT_STREAM, PKT_PDU_HEAD.
    rewrite (truth_bit _ 1), (truth_bit _ 8) by lia. by destruct (_ && _).
  - unfold Ttl.eval. by destruct (ip_api p).
  - unfold Tos.eval, ip_field. rewrite <- tos_rfc by done. by destruct (Ip.is_ip _).
  - unfold IpId.eval, ip_field, has_ip. rewrite <- id_rfc by done. by destruct (Ip.is_ip _).
  - unfold FragOffset.eval, ip_field, has_ip. rewrite <- off_rfc by done. destruct (Ip.is_ip _); [|done].
    simpl. unfold check. by destruct (Range.eval _ _).
  - unfold Seq.eval, Tcp.seq, Tcp.th_seq. destruct (tcph p); [|done]. simpl in *. by rewrite ntohl_load32.
  - unfold Window.eval, Tcp.win, Tcp.th_win. destruct (tcph p); [|done]. simpl in *. by rewrite ntohs_load16.
  - unfold Icode.eval. by destruct (icmph p).
  - unfold Itype.eval. by destruct (icmph p).
  - unfold IcmpId.eval. destruct (icmph p); [|done]. simpl in *. rewrite is_echo_bool.
    unfold Icmp.s_icmp_id. rewrite ntohs_load16 by done. by destruct (bool_decide _).
  - unfold IcmpSeq.eval. destruct (icmph p); [|done]. simpl in *. rewrite is_echo_bool.
    unfold Icmp.s_icmp_seq. rewrite ntohs_load16 by done. by destruct (bool_decide _).
  - unfold BufferLen.eval, length_. destruct Hc. f_equal. rewrite u32_small; [done|]. unfold is_u32 in *. lia.
Qed.

(** ** Properties *)

(** A rule's range expression means what it says.  For the text of any
    expression of the rule language, each of these options but [ack] accepts
    the text exactly when the numbers it names are within the option's limits,
    and the option then matches exactly the packets whose field, read in
    network byte order, satisfies the expression; a packet that has no such
    field never matches. *)
Theorem range_option_correct k e s rc0 c p :
  k <> KAck -> expr_ok e -> packet_wf p -> cursor_wf c ->
  let '(ok, rc) := cl_set (class k) "~range" (print e) (cl_begin (class k) rc0) in
  (ok = true <-> within e (limits k).1 (limits k).2) /\
  (cl_eval (class k) (cl_new (class k) s rc) c p = MATCH <->
   exists x, rfc_field k p c = Some x /\ denotes e x).
Proof.
  intros Hk He Hp Hc. rewrite cl_set_range. unfold set_range. simpl.
  destruct (validate_print (cl_begin (class k) rc0) e _ _ _ He (limits_text k)) as (rc & -> & Hop & Hev).
  split; [by rewrite bool_decide_eq_true|]. rewrite eval_field by done. unfold checked.
  destruct (rfc_field k p c) as [x|].
  - rewrite check_match, Hev. split; [by exists x|]. by intros (y & [= <-] & H).
  - split; [done|]. by intros (y & ? & _).
Qed.

Definition demo_packet : Packet :=
  MkPacket (Some [0;80; 0;81; 0;0;0;7; 0;0;0;1; 80; 16; 255;255; 0;0; 0;0]) None
    (IAT_4 [69;0; 0;40; 0;0; 32;1; 64;6; 0;0; 10;0;0;1; 10;0;0;2]) 0 0.

Lemma demo_packet_wf : packet_wf demo_packet.
Proof. unfold packet_wf. simpl. split_and!; [|done|]; repeat constructor; done. Qed.

Lemma demo_no_data_wf : cursor_wf (cursor_set "pkt_data" [] 0).
Proof. apply cursor_set_wf; [constructor|done|done]. Qed.

Lemma range_option_correct_witness :
  let rc := (cl_set (class KTtl) "~range" (print (Between true 60 70)) init).2 in
  cl_eval (class KTtl) (cl_new (class KTtl) "" rc) (cursor_set "pkt_data" [] 0) demo_packet = MATCH <->
  exists x, Some 64 = Some x /\ 60 <= x <= 70.
Proof.
  assert (expr_ok (Between true 60 70)) as He by (simpl; unfold in_long, LONG_MIN, LONG_MAX; lia).
  assert (KTtl <> KAck) as Hk by discriminate.
  exact (proj2 (range_option_correct KTtl (Between true 60 70) "" init (cursor_set "pkt_data" [] 0) demo_packet
           Hk He demo_packet_wf demo_no_data_wf)).
Defined.

(** [ack] compares the acknowledgment number as it lies in the header,
    without converting it to host byte order, unlike [seq]: it matches exactly
    when the four bytes read from the least significant one satisfy the
    expression. *)
Theorem ack_not_converted e s rc0 c p h :
  expr_ok e -> within e 0 None -> tcph p = Some h ->
  let '(ok, rc) := Ack.set_ "~range" (print e) (Ack.begin_ rc0) in
  ok = true /\
  (Ack.eval (Ack.new s rc) c p = MATCH <->
   denotes e (rd0 h 8 + 256 * rd0 h 9 + 65536 * rd0 h 10 + 16777216 * rd0 h 11)).
Proof.
  intros He Hw Hh. unfold Ack.set_, set_range. change (negb (String.eqb _ _)) with false. cbv iota.
  change Ack.RANGE with (cl_limits (class KAck)).
  destruct (validate_print (Ack.begin_ rc0) e _ _ _ He (limits_text KAck)) as (rc & -> & Hop & Hev).
  split; [by rewrite bool_decide_true|]. unfold Ack.eval. rewrite Hh, <- Hev. simpl.
  replace (Tcp.th_ack h) with (rd0 h 8 + 256 * rd0 h 9 + 65536 * rd0 h 10 + 16777216 * rd0 h 11).
  2:{ unfold Tcp.th_ack, load32, load16. change (8 + 2) with 10. change (8 + 1) with 9. change (10 + 1) with 11. lia. }
  by destruct (Range.eval _ _).
Qed.

(** The packet acknowledges number 1; [ack:1] does not match it and
    [ack:16777216] does. *)
Lemma ack_not_converted_witness :
  be32 (default [] (tcph demo_packet)) 8 = 1 /\
  (Ack.eval (Ack.new "" (Ack.set_ "~range" (print (Num 1)) init).2) (cursor_set "pkt_data" [] 0) demo_packet
     = MATCH -> False) /\
  Ack.eval (Ack.new "" (Ack.set_ "~range" (print (Num 16777216)) init).2) (cursor_set "pkt_data" [] 0) demo_packet
     = MATCH.
Proof.
  split; [reflexivity|].
  assert (expr_ok (Num 1) /\ expr_ok (Num 16777216)) as [H1 H2]
    by (simpl; unfold in_long, LONG_MIN, LONG_MAX; lia).
  assert (within (Num 1) 0 None /\ within (Num 16777216) 0 None) as [W1 W2]
    by (unfold within; simpl; lia).
  split.
  - intros H. pose proof (ack_not_converted (Num 1) "" init (cursor_set "pkt_data" [] 0) demo_packet _ H1 W1 eq_refl) as [_ E].
    apply E in H. vm_compute in H. discriminate H.
  - pose proof (ack_not_converted (Num 16777216) "" init (cursor_set "pkt_data" [] 0) demo_packet _ H2 W2 eq_refl) as [_ E].
    apply E. vm_compute. reflexivity.
Defined.
