(* ===== verification/BitOptions.v ===== *)
(** * BitOptions: the rule options that test flag bits
    (ips_options/ips_flags.cc, ips_options/ips_fragbits.cc)

    Each option is a word of letters, for the bits that are tested, and of marks
    for how: the bits and no others, all, any or none of them.  One [Module] per
    file. *)

From S2P Require Import Prelude Cursor Hash Headers.

(** ** TCP flags *)

Module Flags.

Definition s_name : string := "flags".

Definition M_NORMAL : Z := 0.
Definition M_ALL : Z := 1.
Definition M_ANY : Z := 2.
Definition M_NOT : Z := 3.

Definition R_FIN : Z := 1.
Definition R_SYN : Z := 2.
Definition R_RST : Z := 4.
Definition R_PSH : Z := 8.
Definition R_ACK : Z := 16.
Definition R_URG : Z := 32.
Definition R_ECE : Z := 64.
Definition R_CWR : Z := 128.

Record TcpFlagCheckData := MkData { mode : Z; tcp_flags : Z; tcp_mask : Z }.
Record TcpFlagOption := MkOption { base : IpsOption; config : TcpFlagCheckData }.

(** The constructor, with the file static [s_buffer] of the base class. *)
Definition new (s_buffer : string) (c : TcpFlagCheckData) : TcpFlagOption :=
  MkOption (IpsOption_new s_buffer s_name RULE_OPTION_TYPE_OTHER).1 c.
Definition hash (o : TcpFlagOption) : Z :=
  let d := config o in hash_tail (mode d, Z.lor (tcp_flags d) (Z.shiftl (tcp_mask d) 8), 0) (opt_name (base o)).
Definition eqb (x y : TcpFlagOption) : bool :=
  String.eqb (opt_name (base x)) (opt_name (base y)) &&
  ((mode (config x) =? mode (config y)) && (tcp_flags (config x) =? tcp_flags (config y)) && (tcp_mask (config x) =? tcp_mask (config y))).

Definition eval (o : TcpFlagOption) (c : Cursor) (p : Packet) : EvalStatus :=
  match tcph p with
  | None => NO_MATCH
  | Some h =>
      let d := config o in
      let flags := Z.land (Tcp.th_flags h) (Z.lxor 255 (tcp_mask d)) in
      if mode d =? M_NORMAL then if tcp_flags d =? flags then MATCH else NO_MATCH
      else if mode d =? M_ALL then if Z.land (tcp_flags d) flags =? tcp_flags d then MATCH else NO_MATCH
      else if mode d =? M_NOT then if Z.land (tcp_flags d) flags =? 0 then MATCH else NO_MATCH
      else if mode d =? M_ANY then if negb (Z.land (tcp_flags d) flags =? 0) then MATCH else NO_MATCH
      else NO_MATCH
  end.

(** The letters that both parts of the option have. *)
Definition letter (c : Z) : option Z :=
  if (c =? 102) || (c =? 70) then Some R_FIN
  else if (c =? 115) || (c =? 83) then Some R_SYN
  else if (c =? 114) || (c =? 82) then Some R_RST
  else if (c =? 112) || (c =? 80) then Some R_PSH
  else if (c =? 97) || (c =? 65) then Some R_ACK
  else if (c =? 117) || (c =? 85) then Some R_URG
  else if (c =? 49) || (c =? 99) || (c =? 67) then Some R_CWR
  else if (c =? 50) || (c =? 101) || (c =? 69) then Some R_ECE
  else None.

(** One character; [None]: an error is reported. *)
Definition test_char (d : TcpFlagCheckData) (c : Z) : option TcpFlagCheckData :=
  match letter c with
  | Some b => Some (MkData (mode d) (u8 (Z.lor (tcp_flags d) b)) (tcp_mask d))
  | None =>
      if c =? 48 then Some (MkData (mode d) 0 (tcp_mask d))
      else if c =? 33 then Some (MkData M_NOT (tcp_flags d) (tcp_mask d))
      else if c =? 42 then Some (MkData M_ANY (tcp_flags d) (tcp_mask d))
      else if c =? 43 then Some (MkData M_ALL (tcp_flags d) (tcp_mask d))
      else None
  end.
Fixpoint test_loop (s : list Z) (d : TcpFlagCheckData) : option TcpFlagCheckData :=
  match s with [] => Some d | c :: s => d ← test_char d c; test_loop s d end.
Definition flags_parse_test (s : list Z) (d : TcpFlagCheckData) : option TcpFlagCheckData :=
  test_loop s (MkData M_NORMAL (tcp_flags d) (tcp_mask d)).

Fixpoint flags_parse_mask (s : list Z) (d : TcpFlagCheckData) : option TcpFlagCheckData :=
  match s with
  | [] => Some d
  | c :: s => b ← letter c; flags_parse_mask s (MkData (mode d) (tcp_flags d) (u8 (Z.lor (tcp_mask d) b)))
  end.

Definition begin_ : TcpFlagCheckData := MkData 0 0 0.

(** [Module::set] with the parameter's name and the value's string: whether the
    parameter is known, and the data unless an error is reported. *)
Definition set_ (nm : string) (v : list Z) (d : TcpFlagCheckData) : bool * option TcpFlagCheckData :=
  if String.eqb nm "~test_flags" then (true, flags_parse_test v d)
  else if String.eqb nm "~mask_flags" then (true, flags_parse_mask v d)
  else (false, Some d).

End Flags.

(** ** Fragment bits *)

Module FragBits.

Definition s_name : string := "fragbits".

Inductive MODE := NORMAL | PLUS | ANY | NOT.
Definition mode_code (m : MODE) : Z := match m with NORMAL => 0 | PLUS => 1 | ANY => 2 | NOT => 3 end.

Definition BITMASK : Z := 57344.
Definition RESERVED_BIT : Z := 32768.
Definition DONT_FRAG_BIT : Z := 16384.
Definition MORE_FRAG_BIT : Z := 8192.

Record FragBitsData := MkData { mode : MODE; frag_bits : Z }.
Record FragBitsOption := MkOption { base : IpsOption; fragBitsData : FragBitsData }.

Definition reset : FragBitsData := MkData NORMAL 0.
Definition set_bit (b : Z) (d : FragBitsData) : FragBitsData := MkData (mode d) (u16 (Z.lor (frag_bits d) b)).
Definition set_mode (m : MODE) (d : FragBitsData) : FragBitsData := MkData m (frag_bits d).

Definition check_normal (d : FragBitsData) (b : Z) : bool := frag_bits d =? b.
Definition check_plus (d : FragBitsData) (b : Z) : bool := negb (Z.land (frag_bits d) b =? 0).
Definition check_any (d : FragBitsData) (b : Z) : bool := negb (Z.land (frag_bits d) b =? 0).
Definition check_not (d : FragBitsData) (b : Z) : bool := Z.land (frag_bits d) b =? 0.

Definition is_match (d : FragBitsData) (p : Packet) : bool :=
  let b := Z.land (Ip.off_w_flags (ip_api p)) BITMASK in
  match mode d with NORMAL => check_normal d b | ANY => check_any d b | PLUS => check_plus d b | NOT => check_not d b end.

Definition isspace (c : Z) : bool := (c =? 32) || ((9 <=? c) && (c <=? 13)).

(** [None]: an error is reported. *)
Fixpoint parse_fragbits (s : list Z) (d : FragBitsData) : option FragBitsData :=
  match s with
  | [] => Some d
  | c :: s =>
      if isspace c then parse_fragbits s d
      else if (c =? 100) || (c =? 68) then parse_fragbits s (set_bit DONT_FRAG_BIT d)
      else if (c =? 109) || (c =? 77) then parse_fragbits s (set_bit MORE_FRAG_BIT d)
      else if (c =? 114) || (c =? 82) then parse_fragbits s (set_bit RESERVED_BIT d)
      else if c =? 33 then parse_fragbits s (set_mode NOT d)
      else if c =? 42 then parse_fragbits s (set_mode ANY d)
      else if c =? 43 then parse_fragbits s (set_mode PLUS d)
      else None
  end.

Definition new (s_buffer : string) (d : FragBitsData) : FragBitsOption :=
  MkOption (IpsOption_new s_buffer s_name RULE_OPTION_TYPE_OTHER).1 d.
Definition hash (o : FragBitsOption) : Z :=
  let d := fragBitsData o in hash_tail (mode_code (mode d), frag_bits d, 0) (opt_name (base o)).
Definition eqb (x y : FragBitsOption) : bool :=
  String.eqb (opt_name (base x)) (opt_name (base y)) &&
  ((mode_code (mode (fragBitsData x)) =? mode_code (mode (fragBitsData y))) && (frag_bits (fragBitsData x) =? frag_bits (fragBitsData y))).
Definition eval (o : FragBitsOption) (c : Cursor) (p : Packet) : EvalStatus :=
  if negb (has_ip p) then NO_MATCH else if is_match (fragBitsData o) p then MATCH else NO_MATCH.

Definition begin_ : FragBitsData := reset.
Definition set_ (nm : string) (v : list Z) (d : FragBitsData) : bool * option FragBitsData :=
  if String.eqb nm "~flags" then (true, parse_fragbits v d) else (false, Some d).

End FragBits.

(** ** Bits *)

Lemma land_zero_bits a b : 0 <= a -> Z.land a b = 0 <-> forall k, 0 <= k -> Z.testbit a k = true -> Z.testbit b k = false.
Proof.
  intros Ha. split.
  - intros H k Hk Hb. assert (Z.testbit (Z.land a b) k = false) as E by (rewrite H; apply Z.bits_0). rewrite Z.land_spec, Hb in E. exact E.
  - intros H. apply Z.bits_inj'. intros k Hk. rewrite Z.land_spec, Z.bits_0. destruct (Z.testbit a k) eqn:E; [by apply H|done].
Qed.
Lemma land_nonzero_bits a b : 0 <= a -> Z.land a b <> 0 <-> exists k, 0 <= k /\ Z.testbit a k = true /\ Z.testbit b k = true.
Proof.
  intros Ha. split.
  - intros H. destruct (Z.land_nonneg a b) as [_ Hn]. exists (Z.log2 (Z.land a b)). split; [apply Z.log2_nonneg|].
    pose proof (Z.bit_log2 (Z.land a b)) as E. rewrite Z.land_spec in E. apply andb_prop, E. specialize (Hn (or_introl Ha)). lia.
  - intros (k & Hk & E1 & E2) E. assert (Z.testbit (Z.land a b) k = false) as E0 by (rewrite E; apply Z.bits_0). by rewrite Z.land_spec, E1, E2 in E0.
Qed.
Lemma land_all_bits a b : Z.land a b = a <-> forall k, 0 <= k -> Z.testbit a k = true -> Z.testbit b k = true.
Proof.
  split.
  - intros H k Hk E. assert (Z.testbit (Z.land a b) k = true) as E' by (by rewrite H). rewrite Z.land_spec in E'. by apply andb_prop in E' as [_ ?].
  - intros H. apply Z.bits_inj'. intros k Hk. rewrite Z.land_spec. destruct (Z.testbit a k) eqn:E; [by rewrite H|done].
Qed.
Lemma eq_bits a b : a = b <-> forall k, 0 <= k -> Z.testbit a k = Z.testbit b k.
Proof. split; [by intros ->|]. intros H. apply Z.bits_inj'. exact H. Qed.
Lemma u8_lor a b : is_u8 a -> is_u8 b -> u8 (Z.lor a b) = Z.lor a b /\ is_u8 (Z.lor a b).
Proof.
  unfold is_u8, u8. intros Ha Hb. assert (0 <= Z.lor a b < 256) as H; [|by rewrite Z.mod_small].
  split; [apply Z.lor_nonneg; lia|]. destruct (decide (Z.lor a b = 0)) as [->|Hn]; [lia|]. change 256 with (2 ^ 8).
  apply Z.log2_lt_pow2; [pose proof (proj2 (Z.lor_nonneg a b)); lia|]. rewrite Z.log2_lor by lia.
  assert (forall x, 0 <= x < 256 -> Z.log2 x < 8) as Hl; [|apply Z.max_lub_lt; by apply Hl].
  intros x Hx. destruct (decide (x = 0)) as [->|]; [done|]. apply Z.log2_lt_pow2; [lia|]. change (2 ^ 8) with 256. lia.
Qed.

(** ** The flags option *)

(** The bit of a letter; the mark for the mode. *)
Definition flag_bit (c : Z) : option Z := Z.log2 <$> Flags.letter c.
Definition flag_mark (c : Z) : option Z :=
  if c =? 33 then Some Flags.M_NOT else if c =? 42 then Some Flags.M_ANY else if c =? 43 then Some Flags.M_ALL else None.

(** Bits are tested for their letters behind the last zero; the last mark counts. *)
Definition tested (s : list Z) (k : Z) : Prop := exists s1 c s2, s = s1 ++ c :: s2 /\ flag_bit c = Some k /\ 48 ∉ s2.
Definition masked (s : list Z) (k : Z) : Prop := exists c, c ∈ s /\ flag_bit c = Some k.
Definition test_mode (s : list Z) : Z := default Flags.M_NORMAL (last (omap flag_mark s)).

Lemma letter_pow c b : Flags.letter c = Some b -> exists j, 0 <= j < 8 /\ b = 2 ^ j /\ flag_bit c = Some j.
Proof.
  unfold flag_bit. intros E. rewrite E. unfold Flags.letter in E. repeat (case_match; [injection E as <-; eexists; split; [|split; [|reflexivity]]; [vm_compute; split; congruence|reflexivity]|]).
  done.
Qed.
Lemma letter_testbit c b k : Flags.letter c = Some b -> 0 <= k -> Z.testbit b k = bool_decide (flag_bit c = Some k).
Proof.
  intros E Hk. destruct (letter_pow c b E) as (j & Hj & -> & ->). rewrite Z.pow2_bits_eqb by lia.
  destruct (decide (j = k)) as [->|Hne]; [rewrite Z.eqb_refl; by rewrite bool_decide_true|]. rewrite bool_decide_false by congruence. by apply Z.eqb_neq.
Qed.
Lemma letter_u8 c b : Flags.letter c = Some b -> is_u8 b.
Proof.
  intros (j & Hj & -> & _)%letter_pow. unfold is_u8. split; [apply Z.pow_nonneg; lia|]. change 256 with (2 ^ 8). apply Z.pow_lt_mono_r; lia.
Qed.

Lemma tested_cons c s k : tested (c :: s) k <-> tested s k \/ (flag_bit c = Some k /\ 48 ∉ s).
Proof.
  split.
  - intros (s1 & x & s2 & E & Hx & Hn). destruct s1 as [|y s1]; injection E as -> ->; [by right|left]. by exists s1, x, s2.
  - intros [(s1 & x & s2 & -> & Hx & Hn)|[Hc Hn]]; [by exists (c :: s1), x, s2|by exists [], c, s].
Qed.

Lemma test_loop_spec s : forall d d', Flags.test_loop s d = Some d' -> is_u8 (Flags.tcp_flags d) ->
  Flags.mode d' = default (Flags.mode d) (last (omap flag_mark s)) /\ Flags.tcp_mask d' = Flags.tcp_mask d /\ is_u8 (Flags.tcp_flags d') /\
  forall k, 0 <= k -> Z.testbit (Flags.tcp_flags d') k = true <-> tested s k \/ (Z.testbit (Flags.tcp_flags d) k = true /\ 48 ∉ s).
Proof.
  induction s as [|c s IH]; intros d d' E Hd; cbn [Flags.test_loop] in E.
  - injection E as <-. do 3 (split; [done|]). intros k Hk. split; [intros H; right; split; [done|apply not_elem_of_nil]|]. intros [(s1 & x & s2 & Hs & _)|[H _]]; [by destruct s1|done].
  - apply bind_Some in E as (d1 & E1 & E). unfold Flags.test_char in E1. destruct (Flags.letter c) as [b|] eqn:El.
    + injection E1 as <-. destruct (u8_lor (Flags.tcp_flags d) b Hd (letter_u8 c b El)) as [E1 E2]. rewrite E1 in E.
      destruct (IH _ _ E E2) as (Hm & Hk & Hu & Hb). cbn [Flags.mode Flags.tcp_mask Flags.tcp_flags] in *.
      assert (flag_mark c = None /\ c <> 48) as [Em Hc].
      { unfold flag_mark. split; [|intros ->; done].
        repeat (case_match; [match goal with H : (c =? _) = true |- _ => apply Z.eqb_eq in H; subst c; done end|]). done. }
      cbn [omap list_omap]. rewrite Em. do 3 (split; [done|]). intros k Hk'. rewrite (Hb k Hk'), tested_cons, Z.lor_spec, (letter_testbit c b k El Hk'), orb_true_iff, bool_decide_eq_true, not_elem_of_cons.
      split; [intros [?|[[?|?] ?]]|intros [[?|[? ?]]|[? [? ?]]]]; auto.
    + assert (flag_bit c = None) as Ef by (unfold flag_bit; by rewrite El).
      assert (forall k, tested (c :: s) k <-> tested s k) as Et by (intros k; rewrite tested_cons, Ef; split; [intros [?|[? _]]; done|by left]).
      assert (forall m, d1 = Flags.MkData m (if c =? 48 then 0 else Flags.tcp_flags d) (Flags.tcp_mask d) -> default (Flags.mode d) (last (omap flag_mark (c :: s))) = default m (last (omap flag_mark s)) ->
        Flags.mode d' = default (Flags.mode d) (last (omap flag_mark (c :: s))) /\ Flags.tcp_mask d' = Flags.tcp_mask d /\ is_u8 (Flags.tcp_flags d') /\
        forall k, 0 <= k -> Z.testbit (Flags.tcp_flags d') k = true <-> tested (c :: s) k \/ (Z.testbit (Flags.tcp_flags d) k = true /\ 48 ∉ c :: s)) as Hall.
      { intros m -> Em. destruct (IH _ _ E) as (Hm & Hk & Hu & Hb); [cbn; destruct (c =? 48); [done|exact Hd]|]. cbn [Flags.mode Flags.tcp_mask Flags.tcp_flags] in *.
        rewrite Em. do 3 (split; [done|]). intros k Hk'. rewrite (Hb k Hk'), Et, not_elem_of_cons. bcase (c =? 48) as Ec; [rewrite Z.bits_0; split; [intros [?|[? _]]; [by left|done]|intros [?|[_ [? _]]]; [by left|done]]|].
        split; [intros [?|[? ?]]|intros [?|[? [_ ?]]]]; auto. }
      assert (forall m, flag_mark c = Some m -> default (Flags.mode d) (last (omap flag_mark (c :: s))) = default m (last (omap flag_mark s))) as Hlast.
      { intros m Em. cbn [omap list_omap]. rewrite Em, last_cons. by destruct (last _). }
      unfold flag_mark in Hlast. destruct (c =? 48) eqn:E48; [|destruct (c =? 33) eqn:E33; [|destruct (c =? 42) eqn:E42; [|destruct (c =? 43) eqn:E43; [|done]]]]; injection E1 as <-; eapply Hall; try reflexivity; try (by apply Hlast).
      apply Z.eqb_eq in E48 as ->. reflexivity.
Qed.

Lemma parse_mask_spec s : forall d d', Flags.flags_parse_mask s d = Some d' -> is_u8 (Flags.tcp_mask d) ->
  Flags.mode d' = Flags.mode d /\ Flags.tcp_flags d' = Flags.tcp_flags d /\ is_u8 (Flags.tcp_mask d') /\
  forall k, 0 <= k -> Z.testbit (Flags.tcp_mask d') k = true <-> masked s k \/ Z.testbit (Flags.tcp_mask d) k = true.
Proof.
  induction s as [|c s IH]; intros d d' E Hd; cbn [Flags.flags_parse_mask] in E.
  - injection E as <-. do 3 (split; [done|]). intros k Hk. split; [by right|]. intros [(c & Hc%elem_of_nil & _)|H]; done.
  - apply bind_Some in E as (b & El & E). destruct (u8_lor (Flags.tcp_mask d) b Hd (letter_u8 c b El)) as [E1 E2]. rewrite E1 in E.
    destruct (IH _ _ E E2) as (Hm & Hk & Hu & Hb). cbn [Flags.mode Flags.tcp_mask Flags.tcp_flags] in *. do 3 (split; [done|]). intros k Hk'.
    rewrite (Hb k Hk'), Z.lor_spec, (letter_testbit c b k El Hk'), orb_true_iff, bool_decide_eq_true. unfold masked. split.
    + intros [(x & Hx & Ex)|[?|?]]; [left; exists x; split; [by right|done]|by right|left; exists c; split; [left|done]].
    + intros [(x & [->|Hx]%elem_of_cons & Ex)|?]; [by right; right|left; by exists x|by right; left].
Qed.

(** The bits of the data and of the packet. *)
Lemma flags_data_spec t m d1 d : Flags.flags_parse_test t Flags.begin_ = Some d1 -> Flags.flags_parse_mask m d1 = Some d ->
  Flags.mode d = test_mode t /\ is_u8 (Flags.tcp_flags d) /\
  (forall k, 0 <= k -> Z.testbit (Flags.tcp_flags d) k = true <-> tested t k) /\ (forall k, 0 <= k -> Z.testbit (Flags.tcp_mask d) k = true <-> masked m k).
Proof.
  intros H1 H2. destruct (test_loop_spec t _ _ H1) as (A1 & A2 & A3 & A4); [done|]. cbn [Flags.mode Flags.tcp_flags Flags.tcp_mask] in *.
  destruct (parse_mask_spec m _ _ H2) as (B1 & B2 & B3 & B4); [by rewrite A2|]. rewrite B1, B2. split; [exact A1|]. split; [done|]. split.
  - intros k Hk. rewrite (A4 k Hk), Z.bits_0. split; [intros [?|[? _]]; done|by left].
  - intros k Hk. rewrite (B4 k Hk), A2, Z.bits_0. split; [intros [?|?]; done|by left].
Qed.

Lemma tested_range t k : tested t k -> 0 <= k < 8.
Proof.
  intros (s1 & c & s2 & _ & Hc & _). unfold flag_bit in Hc. destruct (Flags.letter c) as [b|] eqn:E; [|done]. destruct (letter_pow c b E) as (j & Hj & -> & Ej).
  unfold flag_bit in Ej. rewrite E in Ej. cbn in Ej, Hc. congruence.
Qed.

Lemma u8_high x k : is_u8 x -> 8 <= k -> Z.testbit x k = false.
Proof.
  intros Hx Hk. unfold is_u8 in Hx. destruct (decide (x = 0)) as [->|]; [apply Z.bits_0|]. apply Z.bits_above_log2; [lia|].
  assert (Z.log2 x < 8); [|lia]. apply Z.log2_lt_pow2; [lia|]. change (2 ^ 8) with 256. lia.
Qed.

Lemma unmasked_bit x mask k : is_u8 x -> 0 <= k -> Z.testbit (Z.land x (Z.lxor 255 mask)) k = true <-> Z.testbit x k = true /\ Z.testbit mask k <> true.
Proof.
  intros Hx Hk. rewrite Z.land_spec, Z.lxor_spec, andb_true_iff. change 255 with (Z.ones 8).
  destruct (decide (k < 8)) as [H8|H8].
  - rewrite Z.ones_spec_low by lia. destruct (Z.testbit mask k); cbn; split; intros [? ?]; done.
  - rewrite (u8_high x k Hx) by lia. split; intros [? _]; done.
Qed.

(** The tests on numbers, as tests on sets of bits. *)
Section Tests.
Context (a x : Z) (T S : Z -> Prop) (Ha : 0 <= a).
Hypothesis HT : forall k, 0 <= k -> Z.testbit a k = true <-> T k.
Hypothesis HS : forall k, 0 <= k -> Z.testbit x k = true <-> S k.
Hypothesis Tpos : forall k, T k -> 0 <= k.

Lemma test_equal : a = x <-> forall k, 0 <= k -> S k <-> T k.
Proof.
  rewrite eq_bits. split; intros H k Hk.
  - by rewrite <- (HS k Hk), <- (HT k Hk), (H k Hk).
  - apply eq_true_iff_eq. by rewrite (HS k Hk), (HT k Hk), (H k Hk).
Qed.
Lemma test_all : Z.land a x = a <-> forall k, T k -> S k.
Proof.
  rewrite land_all_bits. split; intros H k Hk.
  - pose proof (Tpos k Hk) as H0. apply (HS k H0), (H k H0). by apply HT.
  - rewrite (HS k Hk), (HT k Hk). apply H.
Qed.
Lemma test_none : Z.land a x = 0 <-> forall k, T k -> ~ S k.
Proof.
  rewrite (land_zero_bits a x Ha). split; intros H k Hk.
  - pose proof (Tpos k Hk) as H0. rewrite <- (HS k H0), (H k H0); [done|]. by apply HT.
  - intros Hb%HT; [|done]. apply not_true_iff_false. rewrite (HS k Hk). by apply H.
Qed.
Lemma test_any : Z.land a x <> 0 <-> exists k, T k /\ S k.
Proof.
  rewrite (land_nonzero_bits a x Ha). split.
  - intros (k & Hk & H1 & H2). exists k. by rewrite <- (HT k Hk), <- (HS k Hk).
  - intros (k & H1 & H2). pose proof (Tpos k H1) as Hk. exists k. by rewrite (HT k Hk), (HS k Hk).
Qed.
End Tests.

Lemma status_match (b : bool) : (if b then MATCH else NO_MATCH) = MATCH <-> b = true.
Proof. by destruct b. Qed.

(** The flags of a TCP header. *)
Definition tcp_flag (h : list Z) (k : Z) : Prop := Z.testbit (rd0 h 13) k = true.

(** The option flags matches exactly, with the flags that are not masked:
    those that are tested and no others; with a plus all of them, with a star one
    of them, with an exclamation mark none.  What is tested are the letters behind
    the last zero, and the last mark counts. *)
Theorem flags_option_correct s_buffer t m d1 d c p h :
  Flags.flags_parse_test t Flags.begin_ = Some d1 -> Flags.flags_parse_mask m d1 = Some d -> tcph p = Some h -> bytes h ->
  let matches := Flags.eval (Flags.new s_buffer d) c p = MATCH in
  let shown k := tcp_flag h k /\ ~ masked m k in
  (test_mode t = Flags.M_NORMAL -> matches <-> forall k, 0 <= k -> shown k <-> tested t k) /\
  (test_mode t = Flags.M_ALL -> matches <-> forall k, tested t k -> shown k) /\
  (test_mode t = Flags.M_ANY -> matches <-> exists k, tested t k /\ shown k) /\
  (test_mode t = Flags.M_NOT -> matches <-> forall k, tested t k -> ~ shown k).
Proof.
  intros H1 H2 Hh Hb matches shown. destruct (flags_data_spec t m d1 d H1 H2) as (Hm & [Hu _] & Ht & Hk). set (x := Z.land (Tcp.th_flags h) (Z.lxor 255 (Flags.tcp_mask d))).
  assert (forall k, 0 <= k -> Z.testbit x k = true <-> shown k) as Hx.
  { intros k Hk0. unfold x. rewrite unmasked_bit by (done || by apply bytes_rd0). unfold shown, tcp_flag. rewrite <- (Hk k Hk0). done. }
  assert (forall k, tested t k -> 0 <= k) as H0 by (intros k Hk'; apply tested_range in Hk'; lia).
  unfold matches, Flags.eval. rewrite Hh. cbn [Flags.config Flags.new]. rewrite Hm. fold x. clearbody shown.
  split; [|split; [|split]]; intros ->; cbn [Flags.M_NORMAL Flags.M_ALL Flags.M_ANY Flags.M_NOT Z.eqb Pos.eqb]; rewrite status_match.
  - rewrite Z.eqb_eq. by apply test_equal.
  - rewrite Z.eqb_eq. by apply test_all.
  - rewrite negb_true_iff, Z.eqb_neq. by apply test_any.
  - rewrite Z.eqb_eq. by apply test_none.
Qed.

(** ** The fragbits option *)

Definition frag_bit (c : Z) : option Z :=
  if (c =? 100) || (c =? 68) then Some 14 else if (c =? 109) || (c =? 77) then Some 13 else if (c =? 114) || (c =? 82) then Some 15 else None.
Definition frag_mark (c : Z) : option FragBits.MODE :=
  if c =? 33 then Some FragBits.NOT else if c =? 42 then Some FragBits.ANY else if c =? 43 then Some FragBits.PLUS else None.
Definition frag_tested (s : list Z) (k : Z) : Prop := exists c, c ∈ s /\ frag_bit c = Some k.
Definition frag_mode (s : list Z) : FragBits.MODE := default FragBits.NORMAL (last (omap frag_mark s)).

Lemma u16_lor_pow a j : is_u16 a -> 0 <= j < 16 -> u16 (Z.lor a (2 ^ j)) = Z.lor a (2 ^ j) /\ is_u16 (Z.lor a (2 ^ j)).
Proof.
  unfold is_u16, u16. intros Ha Hj. assert (0 <= Z.lor a (2 ^ j) < 65536) as H; [|by rewrite Z.mod_small].
  pose proof (Z.pow_pos_nonneg 2 j). split; [apply Z.lor_nonneg; lia|]. destruct (decide (Z.lor a (2 ^ j) = 0)) as [->|Hn]; [lia|]. change 65536 with (2 ^ 16).
  apply Z.log2_lt_pow2; [pose proof (proj2 (Z.lor_nonneg a (2 ^ j))); lia|]. rewrite Z.log2_lor, Z.log2_pow2 by lia. apply Z.max_lub_lt; [|lia].
  destruct (decide (a = 0)) as [->|]; [done|]. apply Z.log2_lt_pow2; [lia|]. change (2 ^ 16) with 65536. lia.
Qed.

Lemma parse_fragbits_spec s : forall d d', FragBits.parse_fragbits s d = Some d' -> is_u16 (FragBits.frag_bits d) ->
  FragBits.mode d' = default (FragBits.mode d) (last (omap frag_mark s)) /\ is_u16 (FragBits.frag_bits d') /\
  forall k, 0 <= k -> Z.testbit (FragBits.frag_bits d') k = true <-> frag_tested s k \/ Z.testbit (FragBits.frag_bits d) k = true.
Proof.
  induction s as [|c s IH]; intros d d' E Hd; cbn [FragBits.parse_fragbits] in E.
  - injection E as <-. split; [done|]. split; [done|]. intros k Hk. split; [by right|]. intros [(c & Hc%elem_of_nil & _)|H]; done.
  - match goal with |- ?G => set (R := G) end.
    assert (forall d1, FragBits.parse_fragbits s d1 = Some d' -> is_u16 (FragBits.frag_bits d1) ->
      (forall k, 0 <= k -> Z.testbit (FragBits.frag_bits d1) k = true <-> frag_bit c = Some k \/ Z.testbit (FragBits.frag_bits d) k = true) ->
      FragBits.mode d1 = default (FragBits.mode d) (frag_mark c) -> R) as Hall.
    { intros d1 E1 H1 Hb Hm. destruct (IH _ _ E1 H1) as (Hm' & Hu & Hb'). subst R. split; [|split; [done|]].
      - rewrite Hm', Hm. cbn [omap list_omap]. destruct (frag_mark c); [rewrite last_cons; by destruct (last _)|done].
      - intros k Hk. rewrite (Hb' k Hk), (Hb k Hk). unfold frag_tested. split.
        + intros [(x & Hx & Ex)|[Ec|?]]; [left; exists x; split; [by right|done]|left; exists c; split; [left|done]|by right].
        + intros [(x & [->|Hx]%elem_of_cons & Ex)|?]; [by right; left|left; by exists x|by right; right]. }
    assert (forall j b, b = 2 ^ j -> 0 <= j < 16 -> frag_bit c = Some j -> frag_mark c = None -> FragBits.parse_fragbits s (FragBits.set_bit b d) = Some d' -> R) as Hbit.
    { intros j b -> Hj Ej Em E1. destruct (u16_lor_pow (FragBits.frag_bits d) j Hd Hj) as [Eu Hu]. apply (Hall _ E1); unfold FragBits.set_bit; cbn [FragBits.frag_bits FragBits.mode]; rewrite ?Eu; [done| |by rewrite Em].
      intros k Hk. rewrite Z.lor_spec, Z.pow2_bits_eqb, orb_true_iff, Z.eqb_eq, Ej by lia. split; [intros [?|?]; [by right|left; congruence]|intros [?|?]; [right; congruence|by left]]. }
    assert (forall d1, frag_bit c = None -> FragBits.frag_bits d1 = FragBits.frag_bits d -> FragBits.mode d1 = default (FragBits.mode d) (frag_mark c) -> FragBits.parse_fragbits s d1 = Some d' -> R) as Hmark.
    { intros d1 En Ef Em E1. apply (Hall _ E1); [by rewrite Ef| |done]. intros k Hk. rewrite Ef, En. split; [by right|intros [?|?]; done]. }
    destruct (FragBits.isspace c) eqn:Es; [|destruct ((c =? 100) || (c =? 68)) eqn:E1; [|destruct ((c =? 109) || (c =? 77)) eqn:E2; [|destruct ((c =? 114) || (c =? 82)) eqn:E3]]].
    + assert (frag_bit c = None /\ frag_mark c = None) as [En Em].
      { assert (forall n, FragBits.isspace n = false -> (c =? n) = false) as Hn by (intros n Hn; apply Z.eqb_neq; congruence). unfold frag_bit, frag_mark. by rewrite !Hn. }
      apply (Hmark d); [done|done|by rewrite Em|exact E].
    + apply (Hbit 14 FragBits.DONT_FRAG_BIT); [done|lia|unfold frag_bit; by rewrite E1|apply orb_prop in E1 as [->%Z.eqb_eq| ->%Z.eqb_eq]; done|exact E].
    + apply (Hbit 13 FragBits.MORE_FRAG_BIT); [done|lia|unfold frag_bit; by rewrite E1, E2|apply orb_prop in E2 as [->%Z.eqb_eq| ->%Z.eqb_eq]; done|exact E].
    + apply (Hbit 15 FragBits.RESERVED_BIT); [done|lia|unfold frag_bit; by rewrite E1, E2, E3|apply orb_prop in E3 as [->%Z.eqb_eq| ->%Z.eqb_eq]; done|exact E].
    + assert (frag_bit c = None) as En by (unfold frag_bit; by rewrite E1, E2, E3). unfold frag_mark in Hmark.
      destruct (c =? 33) eqn:E33; [|destruct (c =? 42) eqn:E42; [|destruct (c =? 43) eqn:E43; [|done]]]; (eapply Hmark; [exact En| | |exact E]; reflexivity).
Qed.

(** The bits that a packet is tested for; in an IPv4 header the flags for
    reserved, don't fragment and more fragments. *)
Definition packet_bit (p : Packet) (k : Z) : Prop := 13 <= k < 16 /\ Z.testbit (Ip.off_w_flags (ip_api p)) k = true.

(** The option fragbits matches exactly: the bits that are tested and no
    others; with a star and also with a plus one of them, with an exclamation
    mark none; never without IP. *)
Theorem fragbits_option_correct s_buffer t d c p : FragBits.parse_fragbits t FragBits.begin_ = Some d ->
  FragBits.eval (FragBits.new s_buffer d) c p = MATCH <->
  has_ip p = true /\
  match frag_mode t with
  | FragBits.NORMAL => forall k, 0 <= k -> packet_bit p k <-> frag_tested t k
  | FragBits.PLUS | FragBits.ANY => exists k, frag_tested t k /\ packet_bit p k
  | FragBits.NOT => forall k, frag_tested t k -> ~ packet_bit p k
  end.
Proof.
  intros H. destruct (parse_fragbits_spec t _ _ H) as (Hm & [Hu _] & Hb); [done|]. cbn [FragBits.begin_ FragBits.reset FragBits.frag_bits FragBits.mode] in *.
  set (x := Z.land (Ip.off_w_flags (ip_api p)) FragBits.BITMASK).
  assert (forall k, 0 <= k -> Z.testbit (FragBits.frag_bits d) k = true <-> frag_tested t k) as Ht by (intros k Hk; rewrite (Hb k Hk), Z.bits_0; split; [intros [?|?]; done|by left]).
  assert (forall k, 0 <= k -> Z.testbit x k = true <-> packet_bit p k) as Hx.
  { intros k Hk. unfold x, packet_bit. rewrite Z.land_spec, andb_true_iff. change FragBits.BITMASK with (Z.shiftl (Z.ones 3) 13).
    rewrite Z.shiftl_spec, Z.testbit_ones by lia. split; intros [H1 H2]; split; try done; try lia. }
  assert (forall k, frag_tested t k -> 0 <= k) as H0 by (intros k (x' & _ & Ek); unfold frag_bit in Ek; repeat case_match; simplify_eq; lia).
  unfold FragBits.eval, FragBits.is_match. cbn [FragBits.fragBitsData FragBits.new]. rewrite Hm. fold x. change (default FragBits.NORMAL (last (omap frag_mark t))) with (frag_mode t).
  destruct (has_ip p); cbn [negb]; [|split; [done|by intros [? _]]]. rewrite status_match. unfold FragBits.check_normal, FragBits.check_plus, FragBits.check_any, FragBits.check_not.
  destruct (frag_mode t); rewrite ?negb_true_iff, ?Z.eqb_neq, ?Z.eqb_eq.
  - rewrite (test_equal _ x _ _ Ht Hx). split; [by split|by intros [_ ?]].
  - rewrite (test_any _ x _ _ Hu Ht Hx H0). split; [by split|by intros [_ ?]].
  - rewrite (test_any _ x _ _ Hu Ht Hx H0). split; [by split|by intros [_ ?]].
  - rewrite (test_none _ x _ _ Hu Ht Hx H0). split; [by split|by intros [_ ?]].
Qed.

(** ** Instances *)

(** SYN without regard to the congestion flags: [flags:S,CE]. *)
Definition syn_header : list Z := [0; 80; 0; 80; 0; 0; 0; 1; 0; 0; 0; 0; 80; 130; 0; 0; 0; 0; 0; 0].
Definition syn_data : Flags.TcpFlagCheckData := Flags.MkData Flags.M_NORMAL Flags.R_SYN (Z.lor Flags.R_CWR Flags.R_ECE).
Definition empty_cursor : Cursor := MkCursor "" [] 0 0 0.
Definition bare_packet (h : option (list Z)) (a : IpApi) : Packet := MkPacket h None a 0 0.

Lemma flags_option_correct_witness :
  Flags.eval (Flags.new "" syn_data) empty_cursor (bare_packet (Some syn_header) (IAT_NONE)) = MATCH <->
  forall k, 0 <= k -> tcp_flag syn_header k /\ ~ masked [67; 69] k <-> tested [83] k.
Proof.
  apply (flags_option_correct "" [83] [67; 69] (Flags.MkData Flags.M_NORMAL Flags.R_SYN 0) syn_data _ _ syn_header); [reflexivity|reflexivity|reflexivity| |reflexivity].
  apply Forall_forall. intros x Hx. repeat (apply elem_of_cons in Hx as [->|Hx]; [unfold is_u8; lia|]). by apply elem_of_nil in Hx.
Defined.

Lemma fragbits_option_correct_witness : FragBits.eval (FragBits.new "" (FragBits.MkData FragBits.NORMAL FragBits.DONT_FRAG_BIT)) empty_cursor (bare_packet None (IAT_4 [69; 0; 0; 20; 0; 0; 64; 0])) = MATCH <->
  true = true /\ forall k, 0 <= k -> packet_bit (bare_packet None (IAT_4 [69; 0; 0; 20; 0; 0; 64; 0])) k <-> frag_tested [68] k.
Proof. exact (fragbits_option_correct "" [68] (FragBits.MkData FragBits.NORMAL FragBits.DONT_FRAG_BIT) empty_cursor (bare_packet None (IAT_4 [69; 0; 0; 20; 0; 0; 64; 0])) eq_refl). Defined.

(** ** Corner cases *)

(** [fragbits:+DM], all of these bits and perhaps others, matches a packet with
    one of them. *)
Theorem plus_is_any : exists d, FragBits.parse_fragbits [43; 68; 77] FragBits.begin_ = Some d /\ FragBits.mode d = FragBits.PLUS /\
  FragBits.eval (FragBits.new "" d) empty_cursor (bare_packet None (IAT_4 [69; 0; 0; 20; 0; 0; 64; 0])) = MATCH.
Proof. eexists. split; [reflexivity|]. split; reflexivity. Qed.

(** In IPv6 the bits that are tested belong to the offset of the fragment: the
    first fragment, with more to come, has no bit; one at offset 8192 has. *)
Theorem ipv6_offset_tested : exists d, FragBits.parse_fragbits [77] FragBits.begin_ = Some d /\
  FragBits.eval (FragBits.new "" d) empty_cursor (bare_packet None (IAT_6 [] (Some [6; 0; 0; 1; 0; 0; 0; 9]))) = NO_MATCH /\
  FragBits.eval (FragBits.new "" d) empty_cursor (bare_packet None (IAT_6 [] (Some [6; 0; 32; 0; 0; 0; 0; 9]))) = MATCH.
Proof. eexists. split; [reflexivity|]. split; vm_compute; reflexivity. Qed.

(** A flag that is both tested and masked can not be found. *)
Theorem tested_and_masked : exists d1 d, Flags.flags_parse_test [83] Flags.begin_ = Some d1 /\ Flags.flags_parse_mask [83] d1 = Some d /\
  forall h, Flags.eval (Flags.new "" d) empty_cursor (bare_packet (Some h) IAT_NONE) = NO_MATCH.
Proof.
  eexists _, _. split; [reflexivity|]. split; [reflexivity|]. intros h. unfold Flags.eval. cbn [tcph bare_packet Flags.config Flags.new Flags.mode Flags.tcp_flags Flags.tcp_mask].
  change (Flags.M_NORMAL =? Flags.M_NORMAL) with true. cbv iota. match goal with |- context [?a =? ?b] => destruct (a =? b) eqn:E end; [|done]. apply Z.eqb_eq in E. exfalso.
  apply (f_equal (fun z => Z.testbit z 1)) in E. rewrite Z.land_spec in E. change (Z.testbit (Z.lxor 255 _) 1) with false in E. by rewrite andb_false_r in E.
Qed.
