(* ===== verification/XHash.v ===== *)
(** * XHash: the hash table with node recycling (hash/xhash.cc, hash/xhash.h)
    on capped memory (utils/sfmemcap.cc)

    Nodes are named by numbers (their addresses) and kept in a store; a doubly
    linked list - a row of the table, the global list, the free list - is the
    list of the names on it, head first.  A node keeps its key and data until
    it is filled again.  Counters and sizes are not wrapped at 32 bits: they
    count nodes and bytes that exist in memory.  The hash and comparison functions
    are parameters, as [xhash_set_keyops] sets them; [usrfree] calls are
    recorded in [freed]. *)

From S2P Require Import Prelude.

(** ** Capped memory *)

Record MEMCAP := MkMemcap { memcap : Z; memused : Z; nblocks : Z }.

Definition sfmemcap_init (nbytes : Z) : MEMCAP := MkMemcap nbytes 0 0.

(** [None]: the limit is reached.  [sizeof (long)] is 8. *)
Definition sfmemcap_alloc (mc : MEMCAP) (nbytes : Z) : option MEMCAP :=
  let nbytes := nbytes + 8 in
  if (memcap mc >? 0) && (memused mc + nbytes >? memcap mc) then None
  else Some (MkMemcap (memcap mc) (memused mc + nbytes) (nblocks mc + 1)).

(** [nbytes]: the size the block was allocated with. *)
Definition sfmemcap_free (mc : MEMCAP) (nbytes : Z) : MEMCAP :=
  MkMemcap (memcap mc) (memused mc - (nbytes + 8)) (nblocks mc - 1).

(** ** Number of rows *)

(** The loop of [xhash_nearest_powerof2]: [i] is 1, 2, 4, 8, 16. *)
Definition smear (n i : Z) : Z := Z.lor n (Z.shiftr n i).

Definition xhash_nearest_powerof2 (nrows : Z) : Z :=
  fold_left smear [1; 2; 4; 8; 16] (nrows - 1) + 1.

(** ** The table *)

Inductive xresult := XHASH_NOMEM | XHASH_ERR | XHASH_OK | XHASH_INTABLE.

#[export] Instance xresult_eq_dec : EqDecision xresult.
Proof. solve_decision. Defined.

Section XHash.
Context {K D : Type}.
Variable hash_fcn : K -> Z.
(** [keycmp k1 k2]: the comparison function returns 0. *)
Variable keycmp : K -> K -> bool.
(** The Automatic Node Recovery callback, if set: [true] for a non-zero
    return, "do not recycle this node". *)
Variable anrfree : option (K -> D -> bool).
(** Bytes of a node with key and data. *)
Variable node_size : Z.

Record XHashNode := MkNode { rindex : nat; key : K; data : D }.

Record XHash := MkXHash {
  table : list (list nat);
  nodes : gmap nat XHashNode;
  nrows : Z;
  count : Z;
  crow : Z;
  cnode : option nat;
  splay : bool;
  max_nodes : Z;
  mc : MEMCAP;
  find_fail : Z;
  find_success : Z;
  glist : list nat;
  flist : list nat;
  gnode : option nat;
  recycle_nodes : bool;
  anr_tries : Z;
  anr_count : Z;
  anr_flag : bool;
  next_id : nat;
  freed : list (K * D) }.

(** Updates of the fields that change together. *)
Definition set_lists (t : XHash) (tb : list (list nat)) (gl : list nat) (gn : option nat) : XHash :=
  MkXHash tb (nodes t) (nrows t) (count t) (crow t) (cnode t) (splay t) (max_nodes t) (mc t)
    (find_fail t) (find_success t) gl (flist t) gn (recycle_nodes t)
    (anr_tries t) (anr_count t) (anr_flag t) (next_id t) (freed t).
Definition set_free (t : XHash) (m : MEMCAP) (fl : list nat) (id : nat) : XHash :=
  MkXHash (table t) (nodes t) (nrows t) (count t) (crow t) (cnode t) (splay t) (max_nodes t) m
    (find_fail t) (find_success t) (glist t) fl (gnode t) (recycle_nodes t)
    (anr_tries t) (anr_count t) (anr_flag t) id (freed t).
Definition set_stats (t : XHash) (ff fs tries anr : Z) : XHash :=
  MkXHash (table t) (nodes t) (nrows t) (count t) (crow t) (cnode t) (splay t) (max_nodes t) (mc t)
    ff fs (glist t) (flist t) (gnode t) (recycle_nodes t)
    tries anr (anr_flag t) (next_id t) (freed t).
Definition set_cur (t : XHash) (cr : Z) (cn gn : option nat) : XHash :=
  MkXHash (table t) (nodes t) (nrows t) (count t) cr cn (splay t) (max_nodes t) (mc t)
    (find_fail t) (find_success t) (glist t) (flist t) gn (recycle_nodes t)
    (anr_tries t) (anr_count t) (anr_flag t) (next_id t) (freed t).
Definition set_count (t : XHash) (ns : gmap nat XHashNode) (c : Z) (fr : list (K * D)) : XHash :=
  MkXHash (table t) ns (nrows t) c (crow t) (cnode t) (splay t) (max_nodes t) (mc t)
    (find_fail t) (find_success t) (glist t) (flist t) (gnode t) (recycle_nodes t)
    (anr_tries t) (anr_count t) (anr_flag t) (next_id t) fr.

(** [xhash_new]: [None] when the row array does not fit the memory limit.
    Pointers have 8 bytes. *)
Definition xhash_new (rows maxmem : Z) (anr recycle : bool) : option XHash :=
  let rows := if rows >? 0 then xhash_nearest_powerof2 rows else - rows in
  match sfmemcap_alloc (sfmemcap_init maxmem) (8 * rows) with
  | None => None
  | Some m =>
      Some (MkXHash (replicate (Z.to_nat rows) []) ∅ rows 0 0 None true 0 m 0 0 [] [] None recycle
              0 0 anr 0%nat [])
  end.

Definition xhash_set_max_nodes (t : XHash) (n : Z) : XHash :=
  MkXHash (table t) (nodes t) (nrows t) (count t) (crow t) (cnode t) (splay t) n (mc t)
    (find_fail t) (find_success t) (glist t) (flist t) (gnode t) (recycle_nodes t)
    (anr_tries t) (anr_count t) (anr_flag t) (next_id t) (freed t).

(** *** Linked lists *)

Definition unlink (n : nat) (l : list nat) : list nat := filter (fun x => x <> n) l.

(** The node behind [n] on a list. *)
Fixpoint next_of (l : list nat) (n : nat) : option nat :=
  match l with
  | [] => None
  | x :: l => if decide (x = n) then head l else next_of l n
  end.

Definition row (t : XHash) (r : nat) : list nat := default [] (table t !! r).

Definition xhash_link_node (t : XHash) (r n : nat) : XHash :=
  set_lists t (<[r := n :: row t r]> (table t)) (glist t) (gnode t).
Definition xhash_unlink_node (t : XHash) (r n : nat) : XHash :=
  set_lists t (<[r := unlink n (row t r)]> (table t)) (glist t) (gnode t).
Definition xhash_glink_node (t : XHash) (n : nat) : XHash :=
  set_lists t (table t) (n :: glist t) (gnode t).
Definition xhash_gunlink_node (t : XHash) (n : nat) : XHash :=
  let gn := if decide (gnode t = Some n) then next_of (glist t) n else gnode t in
  set_lists t (table t) (unlink n (glist t)) gn.
Definition xhash_gmovetofront (t : XHash) (n : nat) : XHash :=
  if decide (head (glist t) = Some n) then t
  else xhash_glink_node (xhash_gunlink_node t n) n.

Definition movetofront (t : XHash) (r n : nat) : XHash :=
  let t := if decide (head (row t r) = Some n) then t
           else xhash_link_node (xhash_unlink_node t r n) r n in
  let gn := if decide (gnode t = Some n) then next_of (glist t) n else gnode t in
  xhash_gmovetofront (set_lists t (table t) (glist t) gn) n.

(** *** Finding *)

Definition index (t : XHash) (k : K) : nat := Z.to_nat (Z.land (hash_fcn k) (nrows t - 1)).

Definition node_matches (t : XHash) (k : K) (n : nat) : bool :=
  match nodes t !! n with Some nd => keycmp (key nd) k | None => false end.

(** The first node of a row whose key compares equal. *)
Fixpoint find_in (t : XHash) (k : K) (l : list nat) : option nat :=
  match l with
  | [] => None
  | n :: l => if node_matches t k n then Some n else find_in t k l
  end.

Definition xhash_find_node_row (t : XHash) (k : K) : option nat * XHash :=
  let r := index t k in
  match find_in t k (row t r) with
  | Some n =>
      let t := if splay t then movetofront t r n else t in
      (Some n, set_stats t (find_fail t) (find_success t + 1) (anr_tries t) (anr_count t))
  | None => (None, set_stats t (find_fail t + 1) (find_success t) (anr_tries t) (anr_count t))
  end.

Definition node_data (t : XHash) (n : nat) : option D := data <$> nodes t !! n.

Definition xhash_find_node := xhash_find_node_row.

Definition xhash_find (t : XHash) (k : K) : option D * XHash :=
  let '(n, t) := xhash_find_node_row t k in
  (match n with Some n => node_data t n | None => None end, t).

(** *** New nodes *)

Definition xhash_save_free_node (t : XHash) (n : nat) : XHash :=
  set_free t (mc t) (n :: flist t) (next_id t).

Definition xhash_get_free_node (t : XHash) : option nat * XHash :=
  match flist t with
  | [] => (None, t)
  | n :: fl => (Some n, set_free t (mc t) fl (next_id t))
  end.

(** The recovery loop, from the tail of the global list: [l] is that list
    reversed. *)
Fixpoint anr_loop (t : XHash) (l : list nat) : option nat * XHash :=
  match l with
  | [] => (None, t)
  | n :: l =>
      match nodes t !! n with
      | None => (None, t)
      | Some nd =>
          let '(keep, t) :=
            match anrfree with
            | Some f => (f (key nd) (data nd),
                         set_stats t (find_fail t) (find_success t) (anr_tries t + 1) (anr_count t))
            | None => (false, t)
            end in
          if keep then anr_loop t l
          else
            let t := xhash_unlink_node (xhash_gunlink_node t n) (rindex nd) n in
            let t := set_count t (nodes t) (count t - 1) (freed t) in
            (Some n, set_stats t (find_fail t) (find_success t) (anr_tries t) (anr_count t + 1))
      end
  end.

Definition xhash_newnode (t : XHash) : option nat * XHash :=
  match xhash_get_free_node t with
  | (Some n, t) => (Some n, t)
  | (None, t) =>
      let fresh :=
        if (max_nodes t =? 0) || (count t <? max_nodes t)
        then sfmemcap_alloc (mc t) node_size else None in
      match fresh with
      | Some m => (Some (next_id t), set_free t m (flist t) (S (next_id t)))
      | None => if anr_flag t then anr_loop t (rev (glist t)) else (None, t)
      end
  end.

(** Fill node [n] and link it into row [r] and the global list. *)
Definition link_new (t : XHash) (r n : nat) (k : K) (d : D) : XHash :=
  let t := set_count t (<[n := MkNode r k d]> (nodes t)) (count t) (freed t) in
  let t := xhash_glink_node (xhash_link_node t r n) n in
  set_count t (nodes t) (count t + 1) (freed t).

Definition xhash_add (t : XHash) (k : K) (d : D) : xresult * XHash :=
  let r := index t k in
  match xhash_find_node_row t k with
  | (Some n, t) => (XHASH_INTABLE, set_cur t (crow t) (Some n) (gnode t))
  | (None, t) =>
      match xhash_newnode t with
      | (None, t) => (XHASH_NOMEM, t)
      | (Some n, t) => (XHASH_OK, link_new t r n k d)
      end
  end.

(** The data of a node is part of its block of memory: [zero] in a block that
    was just allocated, what it was before in a node that is used again. *)
Definition xhash_get_node (t : XHash) (k : K) (zero : D) : option nat * XHash :=
  let r := index t k in
  match xhash_find_node_row t k with
  | (Some n, t) => (Some n, set_cur t (crow t) (Some n) (gnode t))
  | (None, t) =>
      match xhash_newnode t with
      | (None, t) => (None, t)
      | (Some n, t) => (Some n, link_new t r n k (default zero (node_data t n)))
      end
  end.

(** *** Removing *)

Definition xhash_free_node (t : XHash) (n : nat) : XHash :=
  match nodes t !! n with
  | None => t
  | Some nd =>
      let t := xhash_gunlink_node (xhash_unlink_node t (rindex nd) n) n in
      let t := set_count t (nodes t) (count t - 1) (freed t ++ [(key nd, data nd)]) in
      if recycle_nodes t then xhash_save_free_node t n
      else set_free t (sfmemcap_free (mc t) node_size) (flist t) (next_id t)
  end.

Definition xhash_remove (t : XHash) (k : K) : xresult * XHash :=
  match find_in t k (row t (index t k)) with
  | Some n => (XHASH_OK, xhash_free_node t n)
  | None => (XHASH_ERR, t)
  end.

Definition xhash_make_empty (t : XHash) : XHash :=
  let t := fold_left xhash_free_node (concat (table t)) t in
  MkXHash (table t) (nodes t) (nrows t) 0 0 None (splay t) 0 (mc t) 0 0 [] (flist t) (gnode t)
    (recycle_nodes t) 0 0 (anr_flag t) (next_id t) (freed t).

(** *** Deleting the table *)

Definition xhash_delete_free_list (t : XHash) : XHash :=
  set_free t (fold_left (fun m _ => sfmemcap_free m node_size) (flist t) (mc t)) [] (next_id t).

(** The memory account when the table is gone, and the [usrfree] calls. *)
Definition xhash_delete (t : XHash) : MEMCAP * list (K * D) :=
  let '(m, fr) :=
    fold_left (fun '(m, fr) n =>
        (sfmemcap_free m node_size,
         match nodes t !! n with Some nd => fr ++ [(key nd, data nd)] | None => fr end))
      (concat (table t)) (mc t, freed t) in
  let m := sfmemcap_free m (8 * nrows t) in
  (mc (xhash_delete_free_list (set_free t m (flist t) (next_id t))), fr).

(** *** Iterating *)

(** The first non-empty row from [r] on. *)
Fixpoint next_row (rows : list (list nat)) (r : Z) : Z * option nat :=
  match rows with
  | [] => (r, None)
  | (n :: _) :: _ => (r, Some n)
  | [] :: rows => next_row rows (r + 1)
  end.

(** The next node is on the row of [cnode] itself, which after an [xhash_add]
    of a key in the table need not be row [crow]. *)
Definition xhash_next (t : XHash) : XHash :=
  match cnode t with
  | None => t
  | Some n =>
      match (nodes t !! n) ≫= (fun nd => next_of (row t (rindex nd)) n) with
      | Some n' => set_cur t (crow t) (Some n') (gnode t)
      | None =>
          let '(r, c) := next_row (drop (Z.to_nat (crow t + 1)) (table t)) (crow t + 1) in
          set_cur t r c (gnode t)
      end
  end.

Definition xhash_findfirst (t : XHash) : option nat * XHash :=
  let '(r, c) := next_row (table t) 0 in
  let t := set_cur t r c (gnode t) in
  match c with
  | None => (None, t)
  | Some n => (Some n, xhash_next t)
  end.

Definition xhash_findnext (t : XHash) : option nat * XHash :=
  match cnode t with
  | None => (None, t)
  | Some n => (Some n, xhash_next t)
  end.

Definition xhash_ghead (t : XHash) : option nat := head (glist t).
Definition xhash_gfindnext (t : XHash) : option nat * XHash :=
  (gnode t, match gnode t with
            | Some n => set_cur t (crow t) (cnode t) (next_of (glist t) n)
            | None => t
            end).
Definition xhash_gfindfirst (t : XHash) : option nat * XHash :=
  (head (glist t), set_cur t (crow t) (cnode t) (head (tail (glist t)))).
Definition xhash_mru (t : XHash) : option D :=
  match xhash_ghead t with Some n => node_data t n | None => None end.
Definition xhash_lru (t : XHash) : option D :=
  match last (glist t) with Some n => node_data t n | None => None end.

End XHash.

(** ** Invariant *)

Section Invariant.
Context {K D : Type}.
Variable hash_fcn : K -> Z.
Variable keycmp : K -> K -> bool.
Implicit Types (t : XHash (K := K) (D := D)).

(** What the table needs of the key functions. *)
Class KeyOps := {
  keycmp_sym : forall k k', keycmp k k' = true -> keycmp k' k = true;
  keycmp_hash : forall k k', keycmp k k' = true -> hash_fcn k = hash_fcn k' }.

Definition rowof (tb : list (list nat)) (r : nat) : list nat := default [] (tb !! r).
Definition idx (nr : Z) (k : K) : nat := Z.to_nat (Z.land (hash_fcn k) (nr - 1)).

(** The invariant, on the fields it depends on: rows, store, number of rows,
    count, global list, free list and the next name. *)
Record inv (tb : list (list nat)) (ns : gmap nat (XHashNode (K := K) (D := D))) (nr cnt : Z)
    (gl fl : list nat) (nid : nat) : Prop := {
  i_rows : Zlen tb = nr;
  i_pow : exists e, 0 <= e /\ nr = 2 ^ e;
  i_nodup : NoDup (gl ++ fl);
  i_ids : forall n, n ∈ gl ++ fl -> (n < nid)%nat;
  i_nodes : forall n, n ∈ gl -> exists nd, ns !! n = Some nd /\ rindex nd = idx nr (key nd);
  i_row : forall r n, n ∈ rowof tb r <-> n ∈ gl /\ exists nd, ns !! n = Some nd /\ rindex nd = r;
  i_row_nodup : forall r, NoDup (rowof tb r);
  i_count : cnt = Zlen gl;
  i_keys : forall n n' nd nd', n ∈ gl -> n' ∈ gl -> ns !! n = Some nd -> ns !! n' = Some nd' ->
    keycmp (key nd) (key nd') = true -> n = n' }.

Definition xwf t : Prop := inv (table t) (nodes t) (nrows t) (count t) (glist t) (flist t) (next_id t).

(** The abstract content: keys and data, most recently used first. *)
Definition entry (ns : gmap nat (XHashNode (K := K) (D := D))) (n : nat) : option (K * D) :=
  (fun nd => (key nd, data nd)) <$> ns !! n.
Definition entries ns (gl : list nat) : list (K * D) := omap (entry ns) gl.
Definition abs t : list (K * D) := entries (nodes t) (glist t).

(** *** Lists of names *)

Lemma elem_unlink n x l : x ∈ unlink n l <-> x <> n /\ x ∈ l.
Proof. unfold unlink. rewrite list_elem_of_filter. done. Qed.

Lemma unlink_notin n l : n ∉ l -> unlink n l = l.
Proof.
  induction l as [|x l IH]; [done|]. rewrite not_elem_of_cons. intros [Hn Hl].
  unfold unlink. rewrite filter_cons_True by done. fold (unlink n l). by rewrite IH.
Qed.

Lemma unlink_app n l k : unlink n (l ++ k) = unlink n l ++ unlink n k.
Proof. apply filter_app. Qed.

Lemma unlink_split n l k : n ∉ l -> n ∉ k -> unlink n (l ++ n :: k) = l ++ k.
Proof.
  intros Hl Hk. rewrite unlink_app, unlink_notin by done. f_equal. unfold unlink.
  rewrite filter_cons_False by (intros []; done). by apply unlink_notin.
Qed.

Lemma NoDup_unlink n l : NoDup l -> NoDup (unlink n l).
Proof. apply NoDup_filter. Qed.

Lemma perm_unlink n l : NoDup l -> n ∈ l -> n :: unlink n l ≡ₚ l.
Proof.
  intros Hn (a & b & ->)%list_elem_of_split. apply NoDup_app in Hn as (_ & Hd & Hb).
  apply NoDup_cons in Hb as [Hb _]. rewrite unlink_split; [|intros ?; eapply Hd; [done|left]|done].
  by rewrite Permutation_middle.
Qed.

Lemma Zlen_unlink n l : NoDup l -> n ∈ l -> Zlen (unlink n l) = Zlen l - 1.
Proof.
  intros Hn Hin. pose proof (Permutation_length (perm_unlink n l Hn Hin)) as H.
  unfold Zlen. simpl in H. lia.
Qed.

Lemma rowof_insert tb r l r' :
  (r < length tb)%nat -> rowof (<[r := l]> tb) r' = if decide (r' = r) then l else rowof tb r'.
Proof.
  intros Hr. unfold rowof. destruct (decide (r' = r)) as [->|].
  - by rewrite list_lookup_insert_eq by done.
  - by rewrite list_lookup_insert_ne by done.
Qed.

Lemma idx_range nr k : (exists e, 0 <= e /\ nr = 2 ^ e) -> (idx nr k < Z.to_nat nr)%nat.
Proof.
  intros (e & He & ->). unfold idx.
  replace (2 ^ e - 1) with (Z.ones e) by (rewrite Z.ones_equiv; lia).
  rewrite Z.land_ones by done. pose proof (Z.mod_pos_bound (hash_fcn k) (2 ^ e)). lia.
Qed.

Lemma entries_cons ns n l :
  entries ns (n :: l) = match entry ns n with Some e => e :: entries ns l | None => entries ns l end.
Proof. done. Qed.

Lemma entries_app ns l1 l2 : entries ns (l1 ++ l2) = entries ns l1 ++ entries ns l2.
Proof. apply omap_app. Qed.

Lemma omap_split (ns : gmap nat (XHashNode (K := K) (D := D))) l1 n l2 nd :
  ns !! n = Some nd ->
  entries ns (l1 ++ n :: l2) = entries ns l1 ++ (key nd, data nd) :: entries ns l2.
Proof. intros Hn. rewrite entries_app, entries_cons. unfold entry. by rewrite Hn. Qed.

Lemma entries_front (ns : gmap nat (XHashNode (K := K) (D := D))) n l1 l2 nd :
  ns !! n = Some nd ->
  entries ns (n :: l1 ++ l2) = (key nd, data nd) :: entries ns l1 ++ entries ns l2.
Proof. intros Hn. rewrite entries_cons, entries_app. unfold entry. by rewrite Hn. Qed.

(** *** The invariant under list operations *)

Lemma inv_row_perm tb ns nr cnt gl fl nid r l :
  inv tb ns nr cnt gl fl nid -> (r < length tb)%nat -> l ≡ₚ rowof tb r ->
  inv (<[r := l]> tb) ns nr cnt gl fl nid.
Proof.
  intros [] Hr Hl. constructor; try done.
  - unfold Zlen. by rewrite length_insert.
  - intros r' n. rewrite rowof_insert by done. destruct (decide (r' = r)) as [->|]; [|done].
    by rewrite Hl.
  - intros r'. rewrite rowof_insert by done. destruct (decide (r' = r)) as [->|]; [|done].
    by rewrite Hl.
Qed.

Lemma inv_gl_perm tb ns nr cnt gl gl' fl nid :
  inv tb ns nr cnt gl fl nid -> gl' ≡ₚ gl -> inv tb ns nr cnt gl' fl nid.
Proof.
  intros [] Hg. constructor; try done.
  - by rewrite Hg.
  - intros n. rewrite Hg. auto.
  - intros n. rewrite Hg. auto.
  - intros r n. rewrite Hg. auto.
  - unfold Zlen. by rewrite (Permutation_length Hg).
  - intros n n' nd nd'. rewrite Hg. eauto.
Qed.

(** Node [n] leaves its row and the global list. *)
Lemma inv_unlink tb ns nr cnt gl fl nid n nd :
  inv tb ns nr cnt gl fl nid -> n ∈ gl -> ns !! n = Some nd ->
  inv (<[rindex nd := unlink n (rowof tb (rindex nd))]> tb) ns nr (cnt - 1) (unlink n gl) fl nid.
Proof.
  intros I Hn Hnd. destruct (i_nodes _ _ _ _ _ _ _ I n Hn) as (nd' & Hnd' & Hr).
  rewrite Hnd in Hnd'. injection Hnd' as <-.
  assert (rindex nd < length tb)%nat as Hlen.
  { rewrite Hr. pose proof (idx_range nr (key nd) (i_pow _ _ _ _ _ _ _ I)).
    pose proof (i_rows _ _ _ _ _ _ _ I). unfold Zlen in *. lia. }
  pose proof (i_nodup _ _ _ _ _ _ _ I) as (Hg & Hdisj & Hf)%NoDup_app.
  destruct I. constructor; try done.
  - unfold Zlen. by rewrite length_insert.
  - apply NoDup_app. split_and!; [by apply NoDup_unlink| |done].
    intros x [_ Hx]%elem_unlink. by apply Hdisj.
  - intros x. rewrite elem_of_app, elem_unlink. intros [[_ ?]|?]; apply i_ids0, elem_of_app; auto.
  - intros x [_ Hx]%elem_unlink. auto.
  - intros r x. rewrite rowof_insert, elem_unlink by done.
    destruct (decide (r = rindex nd)) as [->|Hne].
    + rewrite elem_unlink, i_row0. tauto.
    + rewrite i_row0. split; [|tauto]. intros [Hx (nd' & Hx' & <-)].
      split; [|by eauto]. split; [|done]. intros ->. congruence.
  - intros r. rewrite rowof_insert by done. destruct (decide (r = rindex nd)) as [->|]; [|done].
    by apply NoDup_unlink.
  - rewrite Zlen_unlink by done. lia.
  - intros x x' dx dx' [_ ?]%elem_unlink [_ ?]%elem_unlink. eauto.
Qed.

(** A name that is on no list is filled and linked. *)
Lemma inv_link tb ns nr cnt gl fl nid n k d :
  inv tb ns nr cnt gl fl nid -> n ∉ gl -> n ∉ fl -> (n < nid)%nat ->
  (forall x nd, x ∈ gl -> ns !! x = Some nd -> keycmp (key nd) k = false) -> KeyOps ->
  inv (<[idx nr k := n :: rowof tb (idx nr k)]> tb) (<[n := MkNode (idx nr k) k d]> ns) nr (cnt + 1)
    (n :: gl) fl nid.
Proof.
  intros I Hg Hf Hid Habs HK.
  assert (idx nr k < length tb)%nat as Hlen.
  { pose proof (idx_range nr k (i_pow _ _ _ _ _ _ _ I)).
    pose proof (i_rows _ _ _ _ _ _ _ I). unfold Zlen in *. lia. }
  assert (forall x, x ∈ gl -> <[n := MkNode (idx nr k) k d]> ns !! x = ns !! x) as Hsame.
  { intros x Hx. apply lookup_insert_ne. by intros ->. }
  destruct I. constructor; try done.
  - unfold Zlen. by rewrite length_insert.
  - simpl. apply NoDup_cons. split; [|done]. rewrite elem_of_app. tauto.
  - intros x. simpl. rewrite elem_of_cons. intros [->|?]; auto.
  - intros x. rewrite elem_of_cons. intros [->|Hx].
    + eexists. by rewrite lookup_insert_eq.
    + rewrite Hsame by done. auto.
  - intros r x. rewrite rowof_insert, elem_of_cons by done.
    destruct (decide (x = n)) as [->|Hxn].
    + rewrite lookup_insert_eq. destruct (decide (r = idx nr k)) as [->|Hr].
      * split; [|by rewrite elem_of_cons; auto]. intros _. split; [auto|]. by eexists.
      * rewrite i_row0. split; [tauto|]. intros [_ (nd & [= <-] & <-)]. done.
    + rewrite lookup_insert_ne by done.
      destruct (decide (r = idx nr k)) as [->|Hr]; rewrite ?elem_of_cons, i_row0; tauto.
  - intros r. rewrite rowof_insert by done. destruct (decide (r = idx nr k)) as [->|]; [|done].
    apply NoDup_cons. split; [|done]. rewrite i_row0. tauto.
  - rewrite Zlen_cons. lia.
  - intros x x' dx dx'. rewrite !elem_of_cons. intros [->|Hx] [->|Hx']; [done| | |].
    + rewrite lookup_insert_eq, Hsame by done. intros [= <-] Hdx Hc. simpl in Hc.
      apply keycmp_sym in Hc. by rewrite (Habs x' dx') in Hc.
    + rewrite lookup_insert_eq, Hsame by done. intros Hdx [= <-] Hc. simpl in Hc.
      by rewrite (Habs x dx) in Hc.
    + rewrite !Hsame by done. eauto.
Qed.
End Invariant.

(** ** The operations keep the invariant *)

Section Operations.
Context {K D : Type} {hash_fcn : K -> Z} {keycmp : K -> K -> bool} `{!KeyOps hash_fcn keycmp}.
Variable anrfree : option (K -> D -> bool).
Variable node_size : Z.
Implicit Types (t : XHash (K := K) (D := D)).

Abbreviation wf := (xwf hash_fcn keycmp).
Abbreviation find_row := (xhash_find_node_row hash_fcn keycmp).

Lemma find_in_spec t k l :
  match find_in keycmp t k l with
  | Some n => n ∈ l /\ node_matches keycmp t k n = true
  | None => forall n, n ∈ l -> node_matches keycmp t k n = false
  end.
Proof.
  induction l as [|n l IH]; simpl; [intros n ?%not_elem_of_nil; done|].
  destruct (node_matches keycmp t k n) eqn:E; [split; [left|done]|].
  destruct (find_in keycmp t k l); [destruct IH; split; [by right|done]|].
  intros x. rewrite elem_of_cons. intros [->|?]; auto.
Qed.

(** No node of the table has a key equal to [k]. *)
Definition no_key t (k : K) : Prop :=
  forall n nd, n ∈ glist t -> nodes t !! n = Some nd -> keycmp (key nd) k = false.

Lemma lookup_row t k :
  wf t ->
  match find_in keycmp t k (row t (index hash_fcn t k)) with
  | Some n => n ∈ glist t /\ exists nd, nodes t !! n = Some nd /\ keycmp (key nd) k = true /\
      rindex nd = index hash_fcn t k
  | None => no_key t k
  end.
Proof.
  intros I. pose proof (find_in_spec t k (row t (index hash_fcn t k))) as H.
  pose proof (i_row _ _ _ _ _ _ _ _ _ I (index hash_fcn t k)) as Hrow.
  change (rowof (table t)) with (row t) in Hrow.
  destruct (find_in keycmp t k _) as [n|].
  - destruct H as [Hn Hm]. apply Hrow in Hn as [Hg (nd & Hnd & Hr)]. unfold node_matches in Hm.
    rewrite Hnd in Hm. eauto 6.
  - intros n nd Hn Hnd. destruct (keycmp (key nd) k) eqn:E; [|done].
    assert (node_matches keycmp t k n = true) as Hm by (unfold node_matches; by rewrite Hnd).
    rewrite H in Hm; [done|]. apply Hrow. split; [done|]. exists nd. split; [done|].
    destruct (i_nodes _ _ _ _ _ _ _ _ _ I n Hn) as (nd' & Hnd' & Hr').
    rewrite Hnd in Hnd'. injection Hnd' as <-. rewrite Hr'. unfold index, idx.
    do 2 f_equal. eapply keycmp_hash; eauto.
Qed.

Lemma glist_nodup t : wf t -> NoDup (glist t).
Proof. intros I. apply (i_nodup _ _ _ _ _ _ _ _ _), NoDup_app in I as [? _]. done. Qed.

(** A front move: the rows and the pointer [gnode] may change, the global
    list has [n] first. *)
Lemma movetofront_spec t n nd :
  wf t -> n ∈ glist t -> nodes t !! n = Some nd ->
  exists tb gn, movetofront t (rindex nd) n = set_lists t tb (n :: unlink n (glist t)) gn /\
    wf (movetofront t (rindex nd) n).
Proof.
  intros I Hn Hnd. set (r := rindex nd). pose proof (glist_nodup t I) as Hg.
  assert (exists tb, (if decide (head (row t r) = Some n) then t
      else xhash_link_node (xhash_unlink_node t r n) r n) = set_lists t tb (glist t) (gnode t) /\
      inv hash_fcn keycmp tb (nodes t) (nrows t) (count t) (glist t) (flist t) (next_id t))
    as (tb & Et & I1).
  { destruct (decide (head (row t r) = Some n)).
    { exists (table t). split; [by destruct t|done]. }
    assert (r < length (table t))%nat as Hr.
    { destruct (i_nodes _ _ _ _ _ _ _ _ _ I n Hn) as (nd' & Hnd' & Hr').
      rewrite Hnd in Hnd'. injection Hnd' as <-. unfold r. rewrite Hr'.
      pose proof (idx_range hash_fcn (nrows t) (key nd) (i_pow _ _ _ _ _ _ _ _ _ I)).
      pose proof (i_rows _ _ _ _ _ _ _ _ _ I). unfold Zlen in *. lia. }
    exists (<[r := n :: unlink n (row t r)]> (table t)). split.
    - unfold xhash_link_node, xhash_unlink_node, set_lists, row. simpl. f_equal.
      rewrite list_lookup_insert_eq by done. simpl. apply list_insert_insert_eq.
    - apply inv_row_perm; [done|done|]. apply perm_unlink; [apply (i_row_nodup _ _ _ _ _ _ _ _ _ I)|].
      apply (i_row _ _ _ _ _ _ _ _ _ I). eauto. }
  unfold movetofront. fold r. rewrite Et. unfold xhash_gmovetofront. simpl.
  set (gn := if decide (gnode t = Some n) then next_of (glist t) n else gnode t). clearbody gn.
  destruct (decide (head (glist t) = Some n)) as [Hh|Hh].
  - exists tb, gn. assert (n :: unlink n (glist t) = glist t) as Eg.
    { destruct (glist t) as [|x l]; [done|]. injection Hh as ->.
      apply NoDup_cons in Hg as [Hx _]. unfold unlink. rewrite filter_cons_False by (intros []; done).
      f_equal. by apply unlink_notin. }
    rewrite Eg. split; [done|exact I1].
  - eexists tb, _. split; [done|]. apply (inv_gl_perm _ _ _ _ _ _ (glist t)); [exact I1|].
    by apply perm_unlink.
Qed.

(** *** Finding a node *)

(** Equal up to statistics, rows and cursors: what a caller of the table can
    tell apart. *)
Lemma find_row_spec t k :
  wf t -> splay t = true ->
  match find_row t k with
  | (Some n, t') => exists nd l1 l2, nodes t !! n = Some nd /\ keycmp (key nd) k = true /\
      glist t = l1 ++ n :: l2 /\ glist t' = n :: l1 ++ l2 /\ nodes t' = nodes t /\ wf t' /\
      splay t' = true
  | (None, t') => no_key t k /\ glist t' = glist t /\ nodes t' = nodes t /\ nrows t' = nrows t /\
      wf t' /\ splay t' = true
  end.
Proof.
  intros I Hs. unfold xhash_find_node_row. rewrite Hs. pose proof (lookup_row t k I) as H.
  destruct (find_in keycmp t k _) as [n|]; [|done].
  destruct H as (Hn & nd & Hnd & Hk & Hr). rewrite <- Hr.
  destruct (movetofront_spec t n nd I Hn Hnd) as (tb & gn & E & I').
  pose proof (glist_nodup t I) as Hg. apply list_elem_of_split in Hn as (l1 & l2 & El).
  exists nd, l1, l2. rewrite E in *. simpl. split_and!; try done.
  rewrite El in *. apply NoDup_app in Hg as (_ & Hd & Hb). apply NoDup_cons in Hb as [Hb _].
  f_equal. apply unlink_split; [|done]. intros ?. eapply Hd; [done|left].
Qed.

(** *** Getting a node *)

Definition refused (e : K * D) : Prop := exists f, anrfree = Some f /\ f e.1 e.2 = true.
Definition permitted (e : K * D) : Prop := forall f, anrfree = Some f -> f e.1 e.2 = false.

Definition refused_node t (n : nat) : Prop :=
  exists nd, nodes t !! n = Some nd /\ refused (key nd, data nd).

Lemma anr_loop_spec t l l2 :
  wf t -> splay t = true -> glist t = rev l ++ l2 -> Forall (refused_node t) l2 ->
  match anr_loop anrfree t l with
  | (Some n, t') => exists nd a b, nodes t !! n = Some nd /\ glist t = a ++ n :: b /\
      glist t' = a ++ b /\ permitted (key nd, data nd) /\ Forall (refused_node t) b /\
      nodes t' = nodes t /\ nrows t' = nrows t /\ wf t' /\ splay t' = true /\
      flist t' = flist t /\ next_id t' = next_id t
  | (None, t') => Forall (refused_node t) (glist t) /\ glist t' = glist t /\ nodes t' = nodes t /\
      nrows t' = nrows t /\ wf t' /\ splay t' = true
  end.
Proof.
  revert t l2. induction l as [|n l IH]; intros t l2 I Hs Hg Href; simpl.
  { rewrite Hg. done. }
  assert (n ∈ glist t) as Hn.
  { rewrite Hg. simpl. rewrite !elem_of_app, list_elem_of_singleton. auto. }
  destruct (i_nodes _ _ _ _ _ _ _ _ _ I n Hn) as (nd & Hnd & _). rewrite Hnd.
  assert (glist t = rev l ++ n :: l2) as Hg' by (rewrite Hg; simpl; by rewrite <- app_assoc).
  assert (forall t', nodes t' = nodes t -> glist t' = glist t -> table t' = table t -> nrows t' = nrows t ->
    count t' = count t -> flist t' = flist t -> next_id t' = next_id t -> splay t' = splay t ->
    permitted (key nd, data nd) ->
    let t1 := xhash_unlink_node (xhash_gunlink_node t' n) (rindex nd) n in
    let t2 := set_count t1 (nodes t1) (count t1 - 1) (freed t1) in
    let t3 := set_stats t2 (find_fail t2) (find_success t2) (anr_tries t2) (anr_count t2 + 1) in
    exists nd a b, nodes t !! n = Some nd /\ glist t = a ++ n :: b /\
      glist t3 = a ++ b /\ permitted (key nd, data nd) /\ Forall (refused_node t) b /\
      nodes t3 = nodes t /\ nrows t3 = nrows t /\ wf t3 /\ splay t3 = true /\
      flist t3 = flist t /\ next_id t3 = next_id t) as Htake.
  { intros t' En Eg Et Er Ec Ef Ei Es Hp. exists nd, (rev l), l2. simpl.
    pose proof (inv_unlink _ _ _ _ _ _ _ _ _ n nd I Hn Hnd) as I'.
    assert (unlink n (glist t) = rev l ++ l2) as Eu.
    { pose proof (glist_nodup t I) as Hd. rewrite Hg' in *.
      apply NoDup_app in Hd as (_ & Hd & Hb). apply NoDup_cons in Hb as [Hb _].
      apply unlink_split; [|done]. intros ?. eapply Hd; [done|left]. }
    unfold xwf, row. simpl. rewrite En, Eg, Et, Er, Ec, Ef, Ei, Es.
    split_and!; try done. unfold row. simpl. rewrite Et. exact I'. }
  destruct anrfree as [f|] eqn:Ea.
  - destruct (f (key nd) (data nd)) eqn:Ef.
    + set (t' := set_stats _ _ _ _ _). specialize (IH t' (n :: l2)).
      apply IH; [done|done|done|]. constructor; [|done].
      exists nd. split; [done|]. by exists f.
    + apply Htake; try done. intros f' E. simpl. congruence.
  - apply Htake; try done. intros f' E. simpl. congruence.
Qed.

Lemma newnode_spec t :
  wf t -> splay t = true ->
  match xhash_newnode anrfree node_size t with
  | (Some n, t') => (n ∉ glist t') /\ (n ∉ flist t') /\ (n < next_id t')%nat /\
      nodes t' = nodes t /\ nrows t' = nrows t /\ wf t' /\ splay t' = true /\
      ((glist t' = glist t) \/
       exists nd a b, nodes t !! n = Some nd /\ glist t = a ++ n :: b /\ glist t' = a ++ b /\
         permitted (key nd, data nd) /\ Forall (refused_node t) b)
  | (None, t') => glist t' = glist t /\ nodes t' = nodes t /\ wf t' /\ splay t' = true
  end.
Proof.
  intros I Hs. unfold xhash_newnode, xhash_get_free_node.
  pose proof (i_nodup _ _ _ _ _ _ _ _ _ I) as Hnd.
  destruct (flist t) as [|n fl] eqn:Ef.
  2: { apply NoDup_app in Hnd as (Hg & Hd & Hf). apply NoDup_cons in Hf as [Hf1 Hf2].
       assert (n ∉ glist t) as Hng by (intros ?; eapply Hd; [done|left]).
       simpl. split_and!; try done; try (by left).
       - apply (i_ids _ _ _ _ _ _ _ _ _ I). rewrite Ef. set_solver.
       - unfold xwf in *. rewrite Ef in I. destruct I. constructor; try done.
         + apply NoDup_app. split_and!; [done| |done]. intros x Hx Hx'. eapply Hd; [done|by right].
         + intros x. rewrite elem_of_app. intros [?|?]; apply i_ids0; rewrite elem_of_app, elem_of_cons; auto. }
  assert (forall n, n ∈ glist t -> (n < next_id t)%nat) as Hids.
  { intros n Hn. apply (i_ids _ _ _ _ _ _ _ _ _ I). set_solver. }
  destruct (if (max_nodes t =? 0) || (count t <? max_nodes t) then sfmemcap_alloc (mc t) node_size else None)
    as [m|].
  - simpl. split_and!; try done; try lia; try (by left).
    + intros Hn%Hids. lia.
    + rewrite Ef. apply not_elem_of_nil.
    + unfold xwf. simpl. destruct I. constructor; try done.
      intros n Hn%i_ids0. lia.
  - destruct (anr_flag t); [|done].
    pose proof (anr_loop_spec t (rev (glist t)) [] I Hs) as H.
    rewrite rev_involutive, app_nil_r in H. specialize (H eq_refl (Forall_nil_2 _)).
    destruct (anr_loop anrfree t (rev (glist t))) as [[n|] t'].
    + destruct H as (nd & a & b & Hn & Eg & Eg' & Hp & Hb & En & Er & I' & Hs' & Ef' & Ei').
      pose proof (glist_nodup t I) as Hd. rewrite Eg in Hd.
      apply NoDup_app in Hd as (_ & Hd & Hb'). apply NoDup_cons in Hb' as [Hb' _].
      split_and!; try done.
      * rewrite Eg', elem_of_app. intros [?|?]; [eapply Hd; [done|left]|done].
      * rewrite Ef', Ef. apply not_elem_of_nil.
      * rewrite Ei'. apply Hids. rewrite Eg. set_solver.
      * right. exists nd, a, b. done.
    + destruct H as (_ & Eg & En & Er & I' & Hs'). done.
Qed.

(** Without limits on nodes and memory there is always a node. *)
Lemma newnode_unlimited t :
  max_nodes t = 0 -> memcap (mc t) = 0 ->
  exists n t', xhash_newnode anrfree node_size t = (Some n, t') /\ glist t' = glist t /\
    max_nodes t' = 0 /\ memcap (mc t') = 0.
Proof.
  intros Hm Hc. unfold xhash_newnode, xhash_get_free_node. destruct (flist t) as [|n fl].
  - rewrite Hm. simpl. unfold sfmemcap_alloc. rewrite Hc. simpl. eexists _, _. split; [done|].
    by simpl.
  - eexists _, _. split; [done|]. by simpl.
Qed.

(** ** The abstract table: an association list in order of use *)

Inductive op := Find (k : K) | Add (k : K) (d : D) | Remove (k : K).
Inductive answer := Data (d : option D) | Res (r : xresult).

Definition run t (o : op) : answer * XHash :=
  match o with
  | Find k => let '(d, t) := xhash_find hash_fcn keycmp t k in (Data d, t)
  | Add k d => let '(r, t) := xhash_add hash_fcn keycmp anrfree node_size t k d in (Res r, t)
  | Remove k => let '(r, t) := xhash_remove hash_fcn keycmp node_size t k in (Res r, t)
  end.

Definition absent (k : K) (l : list (K * D)) : Prop := Forall (fun e => keycmp e.1 k = false) l.

(** What the table is configured with: the limits on nodes and bytes (0: none),
    the number of rows, whether nodes are recovered and whether they are kept. *)
Record config := MkConfig { c_max : Z; c_mem : Z; c_rows : Z; c_anr : bool; c_recycle : bool }.
Definition config_of t : config := MkConfig (max_nodes t) (memcap (mc t)) (nrows t) (anr_flag t) (recycle_nodes t).

(** The first element that satisfies [p], and the others. *)
Fixpoint pick {A} (p : A -> bool) (l : list A) : option (A * list A) :=
  match l with
  | [] => None
  | x :: l => if p x then Some (x, l) else '(y, r) ← pick p l; Some (y, x :: r)
  end.
Definition pick_last {A} (p : A -> bool) (l : list A) : option (A * list A) :=
  '(x, r) ← pick p (rev l); Some (x, rev r).

(** The owner of the table lets an entry go. *)
Definition lets_go (e : K * D) : bool := match anrfree with Some f => negb (f e.1 e.2) | None => true end.

(** A table of [n] entries and no spare node may take another: the limits hold
    with the row array and [n + 1] nodes, each with 8 bytes for its size. *)
Definition fits (c : config) (n : Z) : bool :=
  ((c_max c =? 0) || (n <? c_max c)) &&
  ((c_mem c <=? 0) || (8 * c_rows c + 8 + (node_size + 8) * (n + 1) <=? c_mem c)).

(** Entries, most recently used first, and the number of spare nodes. *)
Definition lru : Type := list (K * D) * Z.

Definition lru_add (c : config) (s : lru) (k : K) (d : D) : answer * lru :=
  let '(l, f) := s in
  match pick (fun e => keycmp e.1 k) l with
  | Some (e, r) => (Res XHASH_INTABLE, (e :: r, f))
  | None =>
      if 0 <? f then (Res XHASH_OK, ((k, d) :: l, f - 1))
      else if fits c (Zlen l) then (Res XHASH_OK, ((k, d) :: l, f))
      else match (if c_anr c then pick_last lets_go l else None) with
           | Some (_, r) => (Res XHASH_OK, ((k, d) :: r, f))
           | None => (Res XHASH_NOMEM, (l, f))
           end
  end.
Definition lru_run (c : config) (s : lru) (o : op) : answer * lru :=
  let '(l, f) := s in
  match o with
  | Find k =>
      match pick (fun e => keycmp e.1 k) l with
      | Some (e, r) => (Data (Some e.2), (e :: r, f))
      | None => (Data None, (l, f))
      end
  | Add k d => lru_add c s k d
  | Remove k =>
      match pick (fun e => keycmp e.1 k) l with
      | Some (_, r) => (Res XHASH_OK, (r, if c_recycle c then f + 1 else f))
      | None => (Res XHASH_ERR, (l, f))
      end
  end.
Definition lru_runs (c : config) (os : list op) : list answer * lru :=
  foldl (fun '(rs, s) o => let '(r, s) := lru_run c s o in (rs ++ [r], s)) ([], ([], 0)) os.

Definition lru_of t : lru := (abs t, Zlen (flist t)).

Lemma pick_split {A} (p : A -> bool) l1 x l2 :
  Forall (fun y => p y = false) l1 -> p x = true -> pick p (l1 ++ x :: l2) = Some (x, l1 ++ l2).
Proof. induction 1 as [|y l1 Hy _ IH]; intros Hx; simpl; [by rewrite Hx|]. by rewrite Hy, IH. Qed.
Lemma pick_none {A} (p : A -> bool) l : Forall (fun y => p y = false) l -> pick p l = None.
Proof. induction 1 as [|y l Hy _ IH]; simpl; [done|]. by rewrite Hy, IH. Qed.
Lemma pick_last_split {A} (p : A -> bool) l1 x l2 :
  Forall (fun y => p y = false) l2 -> p x = true -> pick_last p (l1 ++ x :: l2) = Some (x, l1 ++ l2).
Proof.
  intros H Hx. unfold pick_last. rewrite rev_app_distr. simpl. rewrite <- app_assoc. simpl.
  rewrite pick_split by (done || by apply Forall_rev). simpl. by rewrite rev_app_distr, !rev_involutive.
Qed.
Lemma pick_last_none {A} (p : A -> bool) l : Forall (fun y => p y = false) l -> pick_last p l = None.
Proof. intros H. unfold pick_last. by rewrite pick_none by by apply Forall_rev. Qed.

Lemma entries_absent t k : no_key t k -> absent k (abs t).
Proof.
  intros H. apply Forall_forall. intros [k' d] Hin. apply list_elem_of_omap in Hin as (n & Hn & He).
  unfold entry in He. destruct (nodes t !! n) as [nd|] eqn:E; [|done].
  injection He as <- <-. simpl. by eapply H.
Qed.

Lemma entries_refused t l : Forall (refused_node t) l -> Forall refused (entries (nodes t) l).
Proof.
  intros H. apply Forall_forall. intros e Hin. apply list_elem_of_omap in Hin as (n & Hn & He).
  rewrite Forall_forall in H. destruct (H n Hn) as (nd & Hnd & Hr).
  unfold entry in He. rewrite Hnd in He. by injection He as <-.
Qed.

Lemma entries_insert t n nd : n ∉ glist t -> entries (<[n := nd]> (nodes t)) (glist t) = abs t.
Proof.
  intros Hn. unfold abs. generalize dependent (glist t). intros l Hl.
  induction l as [|x l IH]; [done|]. apply not_elem_of_cons in Hl as [Hx Hl].
  rewrite !entries_cons, IH by done. unfold entry. by rewrite lookup_insert_ne.
Qed.

Lemma link_new_spec t n k d :
  wf t -> n ∉ glist t -> n ∉ flist t -> (n < next_id t)%nat -> no_key t k ->
  wf (link_new t (index hash_fcn t k) n k d) /\
  abs (link_new t (index hash_fcn t k) n k d) = (k, d) :: abs t.
Proof.
  intros I Hg Hf Hi Hk. split.
  - apply (inv_link hash_fcn keycmp _ _ _ _ _ _ _ n k d I Hg Hf Hi Hk KeyOps0).
  - unfold abs, link_new. simpl. unfold entry at 1. rewrite lookup_insert_eq. simpl. f_equal.
    by apply entries_insert.
Qed.

Lemma add_unlimited t k d :
  wf t -> splay t = true -> max_nodes t = 0 -> memcap (mc t) = 0 -> no_key t k ->
  exists t', xhash_add hash_fcn keycmp anrfree node_size t k d = (XHASH_OK, t') /\
    wf t' /\ splay t' = true /\ max_nodes t' = 0 /\ memcap (mc t') = 0 /\
    abs t' = (k, d) :: abs t.
Proof.
  intros I Hs Hm Hc Hk. unfold xhash_add, xhash_find_node_row.
  pose proof (lookup_row t k I) as H. destruct (find_in keycmp t k _) as [n|].
  { destruct H as (Hn & nd & Hnd & Hkk & _). by rewrite (Hk n nd Hn Hnd) in Hkk. }
  set (t1 := set_stats t _ _ _ _).
  destruct (newnode_unlimited t1 Hm Hc) as (n & t2 & E & Eg & Em & Ec).
  pose proof (newnode_spec t1 I Hs) as H2. rewrite E in *.
  destruct H2 as (Hg & Hf & Hi & En & Er & I2 & Hs2 & _).
  assert (index hash_fcn t k = index hash_fcn t2 k) as -> by (unfold index; by rewrite Er).
  assert (no_key t2 k) as Hk2 by (intros x nd; rewrite Eg, En; apply Hk).
  destruct (link_new_spec t2 n k d I2 Hg Hf Hi Hk2) as [I3 Ea3].
  eexists. split; [done|]. split_and!; try done. rewrite Ea3. unfold abs. by rewrite Eg, En.
Qed.

(** A find keeps the limits. *)
Lemma find_limits t k :
  wf t -> max_nodes (find_row t k).2 = max_nodes t /\ mc (find_row t k).2 = mc t.
Proof.
  intros I. unfold xhash_find_node_row. pose proof (lookup_row t k I) as H.
  destruct (find_in keycmp t k _) as [n|]; [|done]. destruct H as (Hn & nd & Hnd & _ & Hr).
  destruct (splay t); [|done]. rewrite <- Hr.
  destruct (movetofront_spec t n nd I Hn Hnd) as (tb & gn & E & _). simpl. by rewrite E.
Qed.

Lemma find_store t k :
  wf t -> flist (find_row t k).2 = flist t /\ next_id (find_row t k).2 = next_id t.
Proof.
  intros I. unfold xhash_find_node_row. pose proof (lookup_row t k I) as H.
  destruct (find_in keycmp t k _) as [n|]; [|done]. destruct H as (Hn & nd & Hnd & _ & Hr).
  destruct (splay t); [|done]. rewrite <- Hr.
  destruct (movetofront_spec t n nd I Hn Hnd) as (tb & gn & E & _). simpl. by rewrite E.
Qed.

(** No two entries of a table have equal keys. *)
Lemma abs_distinct t i j e e' :
  wf t -> abs t !! i = Some e -> abs t !! j = Some e' -> keycmp e.1 e'.1 = true -> i = j.
Proof.
  intros I.
  assert (forall l, (forall n, n ∈ l -> n ∈ glist t) ->
    entries (nodes t) l !! i = ((l !! i) ≫= entry (nodes t)) /\
    entries (nodes t) l !! j = ((l !! j) ≫= entry (nodes t))) as Hl.
  { assert (forall l m, (forall n, n ∈ l -> n ∈ glist t) ->
      entries (nodes t) l !! m = ((l !! m) ≫= entry (nodes t))) as Hm; [|by intros l Hl; rewrite !Hm].
    induction l as [|x l IH]; intros m Hin; [done|].
    destruct (i_nodes _ _ _ _ _ _ _ _ _ I x (Hin x ltac:(left))) as (nd & Hnd & _).
    rewrite entries_cons. unfold entry at 1. rewrite Hnd. simpl. destruct m as [|m]; simpl.
    - unfold entry. by rewrite Hnd.
    - apply IH. intros n Hn. apply Hin. by right. }
  destruct (Hl (glist t) (fun n Hn => Hn)) as [Hi Hj]. unfold abs. rewrite Hi, Hj.
  destruct (glist t !! i) as [n|] eqn:En; [|done]. destruct (glist t !! j) as [m|] eqn:Em; [|done].
  simpl. unfold entry. destruct (nodes t !! n) as [nd|] eqn:Hn; [|done].
  destruct (nodes t !! m) as [md|] eqn:Hm; [|done]. simpl. intros [= <-] [= <-] Hk. simpl in Hk.
  assert (n = m) as <- by (eapply (i_keys _ _ _ _ _ _ _ _ _ I); eauto using list_elem_of_lookup_2).
  by eapply NoDup_lookup; [apply (glist_nodup t I)| |].
Qed.

Lemma free_node_spec t n nd :
  wf t -> splay t = true -> n ∈ glist t -> nodes t !! n = Some nd ->
  wf (xhash_free_node node_size t n) /\ splay (xhash_free_node node_size t n) = true /\
  nodes (xhash_free_node node_size t n) = nodes t /\
  glist (xhash_free_node node_size t n) = unlink n (glist t).
Proof.
  intros I Hs Hn Hnd. pose proof (inv_unlink _ _ _ _ _ _ _ _ _ n nd I Hn Hnd) as I'.
  pose proof (i_nodup _ _ _ _ _ _ _ _ _ I) as (Hg & Hd & Hf)%NoDup_app.
  unfold xhash_free_node. rewrite Hnd. simpl. destruct (recycle_nodes t); simpl; split_and!; try done.
  unfold xwf. simpl. destruct I'. constructor; try done.
  - apply NoDup_app. split_and!; [by apply NoDup_unlink| |].
    + intros x [Hxn Hx]%elem_unlink [->|Hx']%elem_of_cons; [done|by eapply Hd].
    + apply NoDup_cons. split; [by apply Hd|done].
  - intros x. rewrite elem_of_app, elem_of_cons. intros [?|[->|?]].
    + apply i_ids0. rewrite elem_of_app. auto.
    + apply (i_ids _ _ _ _ _ _ _ _ _ I). rewrite elem_of_app. auto.
    + apply i_ids0. rewrite elem_of_app. auto.
Qed.

(** *** A new table *)

Lemma xhash_new_wf rows e maxmem anr recycle t :
  0 <= e -> (if rows >? 0 then xhash_nearest_powerof2 rows else - rows) = 2 ^ e ->
  xhash_new (K := K) (D := D) rows maxmem anr recycle = Some t ->
  wf t /\ splay t = true /\ abs t = [].
Proof.
  intros He Hrows. unfold xhash_new. rewrite Hrows.
  destruct (sfmemcap_alloc _ _) as [m|]; [|done]. intros [= <-]. split_and!; [|done|done].
  assert (0 < 2 ^ e) as Hp by (apply Z.pow_pos_nonneg; lia).
  assert (forall r, rowof (replicate (Z.to_nat (2 ^ e)) []) r = []) as Hrow.
  { intros r. unfold rowof. destruct (replicate _ _ !! r) as [l|] eqn:E; [|done].
    apply lookup_replicate in E as [-> _]. done. }
  constructor; simpl.
  - rewrite Zlen_replicate. lia.
  - by exists e.
  - constructor.
  - intros n ?%not_elem_of_nil. done.
  - intros n ?%not_elem_of_nil. done.
  - intros r n. rewrite Hrow, !elem_of_nil. tauto.
  - intros r. rewrite Hrow. constructor.
  - done.
  - intros n n' nd nd' ?%not_elem_of_nil. done.
Qed.

(** *** The memory account *)

(** Blocks of the table, with [k] nodes that are on no list. *)
Definition blocks t : Z := Zlen (glist t) + Zlen (flist t).
Definition account t (k : Z) : Prop :=
  nblocks (mc t) = 1 + blocks t + k /\
  memused (mc t) = (8 * nrows t + 8) + (node_size + 8) * (blocks t + k).

Lemma account_eq t t' k k' :
  mc t' = mc t -> nrows t' = nrows t -> blocks t' + k' = blocks t + k -> account t k -> account t' k'.
Proof. unfold account. intros -> -> E [-> ->]. split; [lia|]. by rewrite E. Qed.

Lemma account_alloc t t' m :
  sfmemcap_alloc (mc t) node_size = Some m -> mc t' = m -> nrows t' = nrows t -> blocks t' = blocks t ->
  account t 0 -> account t' 1.
Proof.
  unfold sfmemcap_alloc, account. destruct (_ && _); [done|]. intros [= <-] -> -> -> [E1 E2]. simpl. lia.
Qed.

Lemma anr_loop_lists t l :
  mc (anr_loop anrfree t l).2 = mc t /\ flist (anr_loop anrfree t l).2 = flist t.
Proof.
  revert t. induction l as [|n l IH]; intros t; simpl; [done|].
  destruct (nodes t !! n) as [nd|]; [|done].
  destruct anrfree as [f|]; [|done]. destruct (f (key nd) (data nd)); [|done]. apply (IH (set_stats _ _ _ _ _)).
Qed.

Lemma find_row_account t k : wf t -> account t 0 -> account (find_row t k).2 0.
Proof.
  intros I. apply account_eq; [by apply find_limits|..];
    unfold xhash_find_node_row; pose proof (lookup_row t k I) as H;
    (destruct (find_in keycmp t k _) as [n|]; [|done]); destruct H as (Hn & nd & Hnd & _ & Hr);
    (destruct (splay t); [|done]); rewrite <- Hr;
    destruct (movetofront_spec t n nd I Hn Hnd) as (tb & gn & E & _); unfold blocks; simpl; rewrite E; simpl;
    [done|].
  rewrite Zlen_cons, (Zlen_unlink n) by (done || by apply glist_nodup). lia.
Qed.

Lemma newnode_account t :
  wf t -> splay t = true -> account t 0 ->
  match xhash_newnode anrfree node_size t with
  | (Some _, t') => account t' 1
  | (None, t') => account t' 0
  end.
Proof.
  intros I Hs Ha. unfold xhash_newnode, xhash_get_free_node. destruct (flist t) as [|n fl] eqn:Ef.
  2: { eapply account_eq; [..|exact Ha]; [done|done|]. unfold blocks. simpl. rewrite Ef, Zlen_cons. lia. }
  destruct (if _ : bool then _ else None) as [m|] eqn:Em.
  { destruct (_ || _); [|done]. eapply (account_alloc t _ m Em); [..|exact Ha]; done. }
  destruct (anr_flag t); [|done].
  pose proof (anr_loop_spec t (rev (glist t)) [] I Hs) as H.
  rewrite rev_involutive, app_nil_r in H. specialize (H eq_refl (Forall_nil_2 _)).
  destruct (anr_loop_lists t (rev (glist t))) as [Hm Hf].
  destruct (anr_loop anrfree t (rev (glist t))) as [[n|] t']; simpl in Hm, Hf.
  - destruct H as (nd & a & b & _ & Eg & Eg' & _ & _ & _ & Er & _).
    eapply account_eq; [..|exact Ha]; [done|done|]. unfold blocks. rewrite Hf, Eg, Eg', !Zlen_app, Zlen_cons. lia.
  - destruct H as (_ & Eg & _ & Er & _). eapply account_eq; [..|exact Ha]; [done|done|].
    unfold blocks. by rewrite Hf, Eg.
Qed.

Lemma free_node_account t n nd :
  wf t -> n ∈ glist t -> nodes t !! n = Some nd -> account t 0 -> account (xhash_free_node node_size t n) 0.
Proof.
  intros I Hn Hnd [H1 H2]. pose proof (Zlen_unlink n (glist t) (glist_nodup t I) Hn) as Hl.
  unfold xhash_free_node. rewrite Hnd. unfold account, blocks in *. simpl.
  destruct (recycle_nodes t); simpl; rewrite ?Zlen_cons; lia.
Qed.

Lemma run_account t o : wf t -> splay t = true -> account t 0 -> account (run t o).2 0.
Proof.
  intros I Hs Ha. destruct o as [k|k d|k]; simpl.
  - pose proof (find_row_account t k I Ha) as H. unfold xhash_find. by destruct (find_row t k).
  - pose proof (find_row_account t k I Ha) as H. pose proof (find_row_spec t k I Hs) as Hf.
    unfold xhash_add. destruct (find_row t k) as [[n|] t1]; [done|]. simpl in H.
    destruct Hf as (_ & _ & _ & _ & I1 & Hs1). pose proof (newnode_account t1 I1 Hs1 H) as Hn.
    destruct (xhash_newnode anrfree node_size t1) as [[n|] t2]; [|done].
    eapply account_eq; [..|exact Hn]; [done|done|]. unfold blocks. simpl. rewrite Zlen_cons. lia.
  - pose proof (lookup_row t k I) as H. unfold xhash_remove.
    destruct (find_in keycmp t k _) as [n|]; [|done]. destruct H as (Hn & nd & Hnd & _).
    by eapply free_node_account.
Qed.

Lemma fold_free {A} (l : list A) m :
  fold_left (fun m _ => sfmemcap_free m node_size) l m =
  MkMemcap (memcap m) (memused m - (node_size + 8) * Zlen l) (nblocks m - Zlen l).
Proof.
  revert m. induction l as [|x l IH]; intros m; simpl.
  - destruct m. f_equal; rewrite Zlen_nil; simpl; lia.
  - rewrite IH. unfold sfmemcap_free. simpl. rewrite Zlen_cons. f_equal; lia.
Qed.

Lemma fold_delete (ns : gmap nat (XHashNode (K := K) (D := D))) l m fr :
  fold_left (fun '(m, fr) n =>
      (sfmemcap_free m node_size,
       match ns !! n with Some nd => fr ++ [(key nd, data nd)] | None => fr end)) l (m, fr) =
  (fold_left (fun m _ => sfmemcap_free m node_size) l m, fr ++ entries ns l).
Proof.
  revert m fr. induction l as [|n l IH]; intros m fr; simpl; [by rewrite app_nil_r|].
  rewrite IH. f_equal. unfold entry. destruct (ns !! n); simpl; [by rewrite <- app_assoc|done].
Qed.

Lemma delete_account t :
  concat (table t) ≡ₚ glist t -> account t 0 ->
  exists fr, xhash_delete node_size t = (MkMemcap (memcap (mc t)) 0 0, fr) /\ fr ≡ₚ freed t ++ abs t.
Proof.
  intros Hp [H1 H2]. unfold xhash_delete. rewrite fold_delete.
  exists (freed t ++ entries (nodes t) (concat (table t))). split.
  - unfold xhash_delete_free_list. simpl. rewrite !fold_free. simpl. do 2 f_equal;
      unfold blocks, Zlen in *; rewrite (Permutation_length Hp); lia.
  - unfold abs, entries. by rewrite Hp.
Qed.

(** *** The operations on the abstract table *)

Hypothesis keycmp_trans : forall k1 k2 k3, keycmp k1 k2 = true -> keycmp k2 k3 = true -> keycmp k1 k3 = true.

(** The entry of a node is the first one with its key. *)
Lemma entries_pick t n nd l1 l2 k :
  wf t -> glist t = l1 ++ n :: l2 -> nodes t !! n = Some nd -> keycmp (key nd) k = true ->
  pick (fun e => keycmp e.1 k) (abs t) = Some ((key nd, data nd), entries (nodes t) (l1 ++ l2)).
Proof.
  intros I Eg Hn Hk. unfold abs. rewrite Eg, (omap_split _ l1 n l2 nd Hn), entries_app. apply pick_split; [|done].
  apply Forall_forall. intros [k' d] Hin. apply list_elem_of_omap in Hin as (m & Hm & He). unfold entry in He.
  destruct (nodes t !! m) as [md|] eqn:Em; [|done]. injection He as <- <-. simpl. apply not_true_is_false. intros Hk'.
  pose proof (glist_nodup t I) as Hd. rewrite Eg in Hd. apply NoDup_app in Hd as (_ & Hd & _). apply (Hd m Hm). rewrite elem_of_cons. left.
  eapply (i_keys _ _ _ _ _ _ _ _ _ I); [rewrite Eg; set_solver|rewrite Eg; set_solver|done|done|].
  eapply keycmp_trans; [exact Hk'|by eapply keycmp_sym].
Qed.

Lemma absent_pick t k : no_key t k -> pick (fun e => keycmp e.1 k) (abs t) = None.
Proof. intros H. by apply pick_none, entries_absent. Qed.

Lemma Zlen_abs t : wf t -> Zlen (abs t) = Zlen (glist t).
Proof.
  intros I. unfold abs. assert (forall l, (forall n, n ∈ l -> n ∈ glist t) -> Zlen (entries (nodes t) l) = Zlen l) as H; [|by apply H].
  induction l as [|n l IH]; intros Hl; [done|]. destruct (i_nodes _ _ _ _ _ _ _ _ _ I n (Hl n ltac:(left))) as (nd & Hnd & _).
  rewrite entries_cons. unfold entry at 1. rewrite Hnd. simpl. rewrite !Zlen_cons, IH; [done|]. intros x Hx. apply Hl. by right.
Qed.

Lemma find_config t k : wf t -> config_of (find_row t k).2 = config_of t.
Proof.
  intros I. unfold xhash_find_node_row. pose proof (lookup_row t k I) as H.
  destruct (find_in keycmp t k _) as [n|]; [|done]. destruct H as (Hn & nd & Hnd & _ & Hr).
  destruct (splay t); [|done]. rewrite <- Hr.
  destruct (movetofront_spec t n nd I Hn Hnd) as (tb & gn & E & _). simpl. unfold config_of. by rewrite E.
Qed.

Lemma anr_loop_config t l : config_of (anr_loop anrfree t l).2 = config_of t.
Proof.
  revert t. induction l as [|n l IH]; intros t; simpl; [done|]. destruct (nodes t !! n) as [nd|]; [|done].
  destruct anrfree as [f|]; [|done]. destruct (f (key nd) (data nd)); [|done]. apply (IH (set_stats _ _ _ _ _)).
Qed.
Lemma newnode_config t : config_of (xhash_newnode anrfree node_size t).2 = config_of t.
Proof.
  unfold xhash_newnode, xhash_get_free_node. destruct (flist t); [|done].
  destruct (if _ : bool then _ else None) as [m|] eqn:Em.
  - destruct (_ || _); [|done]. unfold sfmemcap_alloc in Em. destruct (_ && _); [done|]. by injection Em as <-.
  - destruct (anr_flag t); [apply anr_loop_config|done].
Qed.

(** Memory is allocated exactly when a node fits. *)
Lemma alloc_fits t : wf t -> account t 0 -> flist t = [] ->
  (exists m, (if (max_nodes t =? 0) || (count t <? max_nodes t) then sfmemcap_alloc (mc t) node_size else None) = Some m) <->
  fits (config_of t) (Zlen (abs t)) = true.
Proof.
  intros I [_ Hu] Hf. unfold fits, config_of, blocks in *. simpl. rewrite (i_count _ _ _ _ _ _ _ _ _ I), Zlen_abs by done.
  rewrite Hf, Zlen_nil in Hu. destruct (_ || _); simpl; [|split; [by intros [? ?]|done]]. unfold sfmemcap_alloc. rewrite Hu.
  bcase (memcap (mc t) >? 0) as G; [|rewrite (proj2 (Z.leb_le _ _)) by lia; simpl; split; [done|eauto]].
  rewrite (proj2 (Z.leb_gt _ _)) by lia. simpl.
  match goal with |- context [if ?a >? ?b then _ else _] => bcase (a >? b) as G2 end.
  - split; [by intros [? ?]|]. intros H%Z.leb_le. lia.
  - split; [|eauto]. intros _. apply Z.leb_le. lia.
Qed.

Lemma lets_go_permitted e : lets_go e = true <-> permitted e.
Proof.
  unfold lets_go, permitted. destruct anrfree as [f|]; [|by split].
  rewrite negb_true_iff. split; [by intros H f' [= <-]|intros H; by apply H].
Qed.
Lemma lets_go_refused t l : Forall (refused_node t) l -> Forall (fun e => lets_go e = false) (entries (nodes t) l).
Proof.
  intros H%entries_refused. eapply Forall_impl; [exact H|]. intros e (f & E & Hf). unfold lets_go. by rewrite E, Hf.
Qed.

(** The node for a new entry: a spare one, a new one if it fits, or the one of
    the least recently used entry that the owner lets go. *)
Lemma newnode_lru t : wf t -> splay t = true -> account t 0 ->
  let f := Zlen (flist t) in
  match xhash_newnode anrfree node_size t with
  | (Some _, t') =>
      (abs t' = abs t /\ Zlen (flist t') = f - 1 /\ 0 < f) \/
      (abs t' = abs t /\ Zlen (flist t') = f /\ f <= 0 /\ fits (config_of t) (Zlen (abs t)) = true) \/
      (Zlen (flist t') = f /\ f <= 0 /\ fits (config_of t) (Zlen (abs t)) = false /\ anr_flag t = true /\ exists e, pick_last lets_go (abs t) = Some (e, abs t'))
  | (None, t') => abs t' = abs t /\ Zlen (flist t') = f /\ f <= 0 /\ fits (config_of t) (Zlen (abs t)) = false /\ (anr_flag t = true -> pick_last lets_go (abs t) = None)
  end.
Proof.
  intros I Hs Ha f. pose proof (alloc_fits t I Ha) as Hfit. unfold f, xhash_newnode, xhash_get_free_node.
  destruct (flist t) as [|n fl] eqn:Ef; [|left; simpl; rewrite Zlen_cons; split_and!; [done|lia|pose proof (Zlen_nonneg fl); lia]].
  specialize (Hfit eq_refl). destruct (if _ : bool then _ else None) as [m|] eqn:Em.
  { right. left. simpl. rewrite Ef. split_and!; [done|done|done|]. apply Hfit. eauto. }
  assert (fits (config_of t) (Zlen (abs t)) = false) as Hno.
  { apply not_true_is_false. intros H%Hfit. by destruct H. }
  destruct (anr_flag t) eqn:Eanr; [|simpl; rewrite Ef; by split_and!].
  pose proof (anr_loop_spec t (rev (glist t)) [] I Hs) as H.
  rewrite rev_involutive, app_nil_r in H. specialize (H eq_refl (Forall_nil_2 _)).
  destruct (anr_loop_lists t (rev (glist t))) as [_ Hf]. rewrite Ef in Hf.
  destruct (anr_loop anrfree t (rev (glist t))) as [[n|] t']; simpl in Hf.
  - destruct H as (nd & a & b & Hn & Eg & Eg' & Hp & Hb & En & _). right. right. rewrite Hf. split_and!; [done..|].
    exists (key nd, data nd). unfold abs. rewrite Eg, Eg', En, (omap_split _ a n b nd Hn), entries_app.
    apply pick_last_split; [by apply lets_go_refused|by apply lets_go_permitted].
  - destruct H as (Hr & Eg & En & _). rewrite Hf. unfold abs. rewrite Eg, En. split_and!; [done..|].
    intros _. by apply pick_last_none, lets_go_refused.
Qed.

(** What is kept by every operation, and its effect on the abstract table. *)
Definition simulates t (o : op) : Prop :=
  let '(r, t') := run t o in
  wf t' /\ splay t' = true /\ config_of t' = config_of t /\ lru_run (config_of t) (lru_of t) o = (r, lru_of t').

Lemma simulates_find t k : wf t -> splay t = true -> simulates t (Find k).
Proof.
  intros I Hs. pose proof (find_row_spec t k I Hs) as H. pose proof (find_config t k I) as Hc. pose proof (find_store t k I) as [Hf _].
  unfold simulates. simpl. unfold xhash_find. destruct (find_row t k) as [[n|] t']; simpl in Hc, Hf.
  - destruct H as (nd & l1 & l2 & Hn & Hk & Eg & Eg' & En & I' & Hs'). split_and!; [done..|].
    rewrite (entries_pick t n nd l1 l2 k) by done. unfold node_data, lru_of, abs. rewrite En, Eg', Hn, Hf.
    rewrite entries_cons. unfold entry at 1. by rewrite Hn.
  - destruct H as (Hk & Eg & En & _ & I' & Hs'). split_and!; [done..|]. rewrite absent_pick by done.
    unfold lru_of, abs. by rewrite Eg, En, Hf.
Qed.

Lemma simulates_add t k d : wf t -> splay t = true -> account t 0 -> simulates t (Add k d).
Proof.
  intros I Hs Ha. pose proof (find_row_spec t k I Hs) as H. pose proof (find_config t k I) as Hc. pose proof (find_store t k I) as [Hf _].
  pose proof (find_row_account t k I Ha) as Ha1. unfold simulates. simpl. unfold xhash_add, lru_add. destruct (find_row t k) as [[n|] t1]; simpl in Hc, Hf, Ha1.
  - destruct H as (nd & l1 & l2 & Hn & Hk & Eg & Eg' & En & I' & Hs'). split_and!; [done..|].
    unfold lru_of at 1. rewrite (entries_pick t n nd l1 l2 k) by done. unfold lru_of, abs. cbn [nodes glist set_cur flist]. rewrite En, Eg', Hf.
    rewrite entries_cons. unfold entry at 1. by rewrite Hn.
  - destruct H as (Hk & Eg & En & Er & I1 & Hs1). pose proof (newnode_spec t1 I1 Hs1) as H. pose proof (newnode_lru t1 I1 Hs1 Ha1) as Hl.
    pose proof (newnode_config t1) as Hc2. assert (abs t1 = abs t) as Ea by (unfold abs; by rewrite Eg, En).
    unfold lru_of at 1. rewrite absent_pick by done. rewrite Ea, Hf, Hc in Hl. rewrite Hc in Hc2.
    destruct (xhash_newnode anrfree node_size t1) as [[n|] t2]; simpl in Hc2.
    + destruct H as (Hg & Hfl & Hi & En2 & Er2 & I2 & Hs2 & Hl2).
      assert (index hash_fcn t k = index hash_fcn t2 k) as -> by (unfold index; by rewrite Er2, Er).
      assert (no_key t2 k) as Hk2.
      { intros x nd Hx Hnd. rewrite En2, En in Hnd. apply (Hk x nd); [|done].
        destruct Hl2 as [E|(nd0 & a & b & _ & E1 & E2 & _)]; [by rewrite <- Eg, <- E|].
        rewrite <- Eg, E1. rewrite E2 in Hx. rewrite elem_of_app, elem_of_cons in *. tauto. }
      destruct (link_new_spec t2 n k d I2 Hg Hfl Hi Hk2) as [I3 Ea3]. split_and!; [done..|]. unfold lru_of. rewrite Ea3. simpl.
      destruct Hl as [(E1 & E2 & E3)|[(E1 & E2 & E3 & E4)|(E2 & E3 & E4 & E5 & e & E6)]]; rewrite E2.
      * rewrite (proj2 (Z.ltb_lt _ _)) by lia. by rewrite E1.
      * rewrite (proj2 (Z.ltb_ge _ _)), E4 by lia. by rewrite E1.
      * rewrite (proj2 (Z.ltb_ge _ _)), E4 by lia. assert (anr_flag t = true) as -> by (injection Hc; congruence). by rewrite E6.
    + destruct H as (Eg2 & En2 & I2 & Hs2). destruct Hl as (E1 & E2 & E3 & E4 & E5). split_and!; [done..|].
      unfold lru_of. rewrite (proj2 (Z.ltb_ge _ _)), E4, E1, E2 by lia. simpl.
      assert (anr_flag t1 = anr_flag t) as Eanr by (injection Hc; congruence). rewrite Eanr in E5.
      destruct (anr_flag t); [by rewrite E5|done].
Qed.

Lemma simulates_remove t k : wf t -> splay t = true -> simulates t (Remove k).
Proof.
  intros I Hs. pose proof (lookup_row t k I) as H. unfold simulates. simpl. unfold xhash_remove.
  destruct (find_in keycmp t k _) as [n|].
  - destruct H as (Hn & nd & Hnd & Hk & _). destruct (free_node_spec t n nd I Hs Hn Hnd) as (I' & Hs' & En & Eg).
    split; [done|]. split; [done|]. split; [unfold xhash_free_node; rewrite Hnd; simpl; by destruct (recycle_nodes t)|]. pose proof (glist_nodup t I) as Hd. apply list_elem_of_split in Hn as (l1 & l2 & El).
    rewrite (entries_pick t n nd l1 l2 k) by done.
    assert (unlink n (glist t) = l1 ++ l2) as Eu.
    { rewrite El in *. apply NoDup_app in Hd as (_ & Hd & Hb). apply NoDup_cons in Hb as [Hb _].
      apply unlink_split; [|done]. intros ?. eapply Hd; [done|left]. }
    unfold lru_of, abs. rewrite En, Eg, Eu. unfold xhash_free_node. rewrite Hnd. simpl.
    destruct (recycle_nodes t); simpl; [rewrite Zlen_cons, Z.add_comm; done|done].
  - split_and!; [done..|]. by rewrite absent_pick.
Qed.

Lemma simulates_run t o : wf t -> splay t = true -> account t 0 -> simulates t o.
Proof. destruct o; intros; [by apply simulates_find|by apply simulates_add|by apply simulates_remove]. Qed.

Lemma lru_runs_snoc c os o : lru_runs c (os ++ [o]) =
  let '(rs, s) := lru_runs c os in let '(r, s) := lru_run c s o in (rs ++ [r], s).
Proof. unfold lru_runs. rewrite foldl_app. simpl. by destruct (foldl _ _ os). Qed.
End Operations.

(** ** The number of rows *)

(** The top [m] bits of [x], below bit [L], are set and nothing is above. *)
Definition top_bits (L m x : Z) : Prop :=
  (forall j, 0 <= j -> L - m < j <= L -> Z.testbit x j = true) /\
  (forall j, L < j -> Z.testbit x j = false).

Lemma smear_top L m i x :
  0 <= i <= m -> top_bits L m x -> top_bits L (m + i) (smear x i).
Proof.
  intros Hi [Ht Hz]. split; intros j.
  - intros Hj Hr. unfold smear. rewrite Z.lor_spec, Z.shiftr_spec by done. apply orb_true_iff.
    destruct (Z.lt_ge_cases (L - m) j); [left; apply Ht; lia|right; apply Ht; lia].
  - intros Hr. destruct (Z.lt_ge_cases j 0) as [Hn|Hn].
    + by rewrite Z.testbit_neg_r.
    + unfold smear. rewrite Z.lor_spec, Z.shiftr_spec, !Hz by lia. done.
Qed.

Lemma smear_all x :
  0 < x < 2 ^ 31 -> fold_left smear [1; 2; 4; 8; 16] x = Z.ones (Z.log2 x + 1).
Proof.
  intros Hx. set (L := Z.log2 x).
  assert (0 <= L < 31) as HL.
  { split; [apply Z.log2_nonneg|]. apply Z.log2_lt_pow2; lia. }
  assert (top_bits L 1 x) as H0.
  { split; intros j.
    - intros Hj Hr. replace j with L by lia. apply Z.bit_log2. lia.
    - intros Hr. apply Z.bits_above_log2; [lia|done]. }
  simpl. set (y := smear _ 16).
  assert (top_bits L 32 y) as [Ht Hz].
  { unfold y. apply (smear_top L 16 16); [lia|]. apply (smear_top L 8 8); [lia|].
    apply (smear_top L 4 4); [lia|]. apply (smear_top L 2 2); [lia|].
    apply (smear_top L 1 1); [lia|]. exact H0. }
  apply Z.bits_inj'. intros j Hj. destruct (Z.lt_ge_cases j (L + 1)).
  - rewrite Z.ones_spec_low by lia. apply Ht; lia.
  - rewrite Z.ones_spec_high by lia. apply Hz. lia.
Qed.

Lemma nearest_powerof2_eq n : 1 <= n <= 2 ^ 31 -> xhash_nearest_powerof2 n = 2 ^ Z.log2_up n.
Proof.
  intros Hn. unfold xhash_nearest_powerof2. destruct (Z.eq_dec n 1) as [->|]; [done|].
  rewrite smear_all by lia. rewrite Z.ones_equiv. unfold Z.log2_up.
  destruct (Z.compare_spec 1 n); try lia. rewrite <- Z.add_1_r. replace (Z.pred n) with (n - 1) by lia. lia.
Qed.

(** ** Walking over the table *)

Section Walk.
Context {K D : Type}.
Implicit Types (t : XHash (K := K) (D := D)).

(** [xhash_findnext] until it returns null. *)
Fixpoint iterate (fuel : nat) t : list nat :=
  match fuel with
  | O => []
  | S fuel => match xhash_findnext t with (Some n, t') => n :: iterate fuel t' | (None, _) => [] end
  end.

Definition walk (fuel : nat) t : list nat :=
  match xhash_findfirst t with (Some n, t') => n :: iterate fuel t' | (None, _) => [] end.

Lemma next_row_spec rows r :
  match next_row rows r with
  | (_, None) => concat rows = []
  | (r', Some n) => exists k b, r' = r + Z.of_nat k /\ rows !! k = Some (n :: b) /\
      concat rows = n :: b ++ concat (drop (S k) rows)
  end.
Proof.
  revert r. induction rows as [|[|n b] rows IH]; intros r; simpl.
  - done.
  - specialize (IH (r + 1)). destruct (next_row rows (r + 1)) as [r' [n|]]; [|done].
    destruct IH as (k & b & -> & Hk & Hc). exists (S k), b. split; [lia|done].
  - exists 0%nat, b. split; [lia|]. done.
Qed.

(** The walk stands at the head of [l], the nodes still to come. *)
Definition ahead t (l : list nat) : Prop :=
  match cnode t with
  | None => l = []
  | Some n => exists k a b, crow t = Z.of_nat k /\ table t !! k = Some (a ++ n :: b) /\
      l = n :: b ++ concat (drop (S k) (table t))
  end.

Lemma next_of_split a n b : NoDup (a ++ n :: b) -> next_of (a ++ n :: b) n = head b.
Proof.
  induction a as [|x a IH]; simpl.
  - intros _. by rewrite decide_True.
  - intros [Hx Hn]%NoDup_cons. rewrite decide_False; [auto|]. intros ->. apply Hx. set_solver.
Qed.

(** Rows hold different nodes, each of which names its row. *)
Definition rows_ok t : Prop :=
  forall r l, table t !! r = Some l ->
    NoDup l /\ forall n, n ∈ l -> exists nd, nodes t !! n = Some nd /\ rindex nd = r.

Lemma next_lists t :
  table (xhash_next t) = table t /\ nodes (xhash_next t) = nodes t.
Proof.
  unfold xhash_next. destruct (cnode t) as [n|]; [|done].
  destruct (_ ≫= _); [done|]. by destruct (next_row _ _).
Qed.

Lemma next_ahead t n l :
  rows_ok t -> cnode t = Some n -> ahead t (n :: l) -> ahead (xhash_next t) l.
Proof.
  intros Hnd Hc. unfold ahead at 1, xhash_next. rewrite Hc. intros (k & a & b & Hr & Hk & [= ->]).
  destruct (Hnd k _ Hk) as [Hn Hin]. destruct (Hin n) as (nd & Hnn & Hri); [set_solver|].
  rewrite Hnn. cbn [mbind option_bind].
  assert (row t (rindex nd) = a ++ n :: b) as -> by (unfold row; by rewrite Hri, Hk).
  rewrite next_of_split by done. destruct b as [|m b]; simpl.
  - pose proof (next_row_spec (drop (Z.to_nat (crow t + 1)) (table t)) (crow t + 1)) as H.
    assert (Z.to_nat (crow t + 1) = S k) as Ek by lia. rewrite Ek in *.
    destruct (next_row _ _) as [r' [m|]]; unfold ahead; simpl; [|done].
    destruct H as (j & b & -> & Hj & ->).
    exists (S k + j)%nat, [], b. rewrite lookup_drop in Hj. split; [lia|]. split; [done|].
    by rewrite drop_drop, Nat.add_succ_r.
  - unfold ahead. simpl. exists k, (a ++ [n]), b. rewrite <- app_assoc. done.
Qed.

Lemma iterate_ahead fuel t l :
  rows_ok t -> ahead t l -> (length l < fuel)%nat -> iterate fuel t = l.
Proof.
  revert t l. induction fuel as [|fuel IH]; intros t l Hnd Ha Hf; [lia|]. simpl.
  unfold xhash_findnext. destruct (cnode t) as [n|] eqn:Ec.
  - pose proof Ha as Ha'. unfold ahead in Ha'. rewrite Ec in Ha'.
    destruct Ha' as (k & a & b & _ & _ & ->).
    destruct (next_lists t) as [Et En]. f_equal. apply IH; [|by apply (next_ahead t n)|simpl in Hf; lia].
    unfold rows_ok. by rewrite Et, En.
  - unfold ahead in Ha. by rewrite Ec in Ha.
Qed.

Lemma walk_concat t :
  rows_ok t -> walk (S (length (concat (table t)))) t = concat (table t).
Proof.
  intros Hnd. unfold walk, xhash_findfirst. pose proof (next_row_spec (table t) 0) as H.
  destruct (next_row (table t) 0) as [r [n|]]; [|done].
  destruct H as (k & b & -> & Hk & Hc).
  set (t1 := set_cur t (0 + Z.of_nat k) (Some n) (gnode t)).
  assert (ahead t1 (concat (table t))) as Ha by (unfold ahead; simpl; exists k, [], b; rewrite Hc; done).
  rewrite Hc in Ha. destruct (next_lists t1) as [Et En].
  rewrite (iterate_ahead _ _ (b ++ concat (drop (S k) (table t)))); [by rewrite Hc| | |rewrite Hc; simpl; lia].
  - unfold rows_ok. rewrite Et, En. exact Hnd.
  - by apply (next_ahead t1 n).
Qed.

Lemma NoDup_concat (tb : list (list nat)) :
  Forall NoDup tb ->
  (forall r r' l l' x, tb !! r = Some l -> tb !! r' = Some l' -> x ∈ l -> x ∈ l' -> r = r') ->
  NoDup (concat tb).
Proof.
  induction 1 as [|l tb Hl Htb IH]; intros Hd; simpl; [constructor|]. apply NoDup_app. split_and!.
  - done.
  - intros x Hx Hx'. apply list_elem_of_In, in_concat in Hx' as (l' & Hl' & Hxl').
    apply list_elem_of_In, list_elem_of_lookup_1 in Hl' as [r Hr]. apply list_elem_of_In in Hxl'.
    by specialize (Hd 0%nat (S r) l l' x eq_refl Hr Hx Hxl').
  - apply IH. intros r r' a b x Ha Hb Hxa Hxb.
    specialize (Hd (S r) (S r') a b x Ha Hb Hxa Hxb). lia.
Qed.
End Walk.

Lemma rows_perm {K D} hash_fcn keycmp (t : XHash (K := K) (D := D)) :
  xwf hash_fcn keycmp t -> rows_ok t /\ concat (table t) ≡ₚ glist t.
Proof.
  intros I.
  assert (forall r l, table t !! r = Some l -> rowof (table t) r = l) as Hrow.
  { intros r l Hl. unfold rowof. by rewrite Hl. }
  assert (rows_ok t) as Hok.
  { intros r l Hl. rewrite <- (Hrow r l Hl). split; [apply (i_row_nodup _ _ _ _ _ _ _ _ _ I)|].
    intros n Hn. by apply (i_row _ _ _ _ _ _ _ _ _ I) in Hn as [_ ?]. }
  assert (Forall NoDup (table t)) as Hnd.
  { apply Forall_forall. intros l [r Hr]%list_elem_of_lookup_1. rewrite <- (Hrow r l Hr).
    apply (i_row_nodup _ _ _ _ _ _ _ _ _ I). }
  split; [done|]. apply NoDup_Permutation.
  - apply NoDup_concat; [done|]. intros r r' l l' x Hr Hr' Hx Hx'.
    rewrite <- (Hrow r l Hr) in Hx. rewrite <- (Hrow r' l' Hr') in Hx'.
    apply (i_row _ _ _ _ _ _ _ _ _ I) in Hx as [_ (nd & Hnd1 & <-)].
    apply (i_row _ _ _ _ _ _ _ _ _ I) in Hx' as [_ (nd' & Hnd2 & <-)]. congruence.
  - pose proof (i_nodup _ _ _ _ _ _ _ _ _ I) as [? _]%NoDup_app. done.
  - intros x. split.
    + intros Hx%list_elem_of_In. apply in_concat in Hx as (l & Hl & Hx).
      apply list_elem_of_In, list_elem_of_lookup_1 in Hl as [r Hr]. apply list_elem_of_In in Hx.
      rewrite <- (Hrow r l Hr) in Hx. by apply (i_row _ _ _ _ _ _ _ _ _ I) in Hx as [? _].
    + intros Hx. destruct (i_nodes _ _ _ _ _ _ _ _ _ I x Hx) as (nd & Hnd' & _).
      assert (x ∈ rowof (table t) (rindex nd)) as Hin by (apply (i_row _ _ _ _ _ _ _ _ _ I); eauto).
      unfold rowof in Hin. destruct (table t !! rindex nd) as [l|] eqn:E;
        [|by apply not_elem_of_nil in Hin].
      apply list_elem_of_In, in_concat. exists l. split; apply list_elem_of_In; [by eapply list_elem_of_lookup_2|done].
Qed.

(** ** Properties *)

(** A step of the concrete table, labelled with operation and answer. *)
Definition xhash_step {K D} hash_fcn keycmp anrfree node_size
    (t : XHash (K := K) (D := D)) (l : op * answer) (t' : XHash) : Prop :=
  run (hash_fcn := hash_fcn) (keycmp := keycmp) anrfree node_size t l.1 = (l.2, t').

Section Reachable.
Context {K D : Type} {hash_fcn : K -> Z} {keycmp : K -> K -> bool} `{!KeyOps hash_fcn keycmp}.
Variables (anrfree : option (K -> D -> bool)) (node_size rows maxmem maxnodes : Z) (anr recycle : bool) (t0 : XHash (K := K) (D := D)).
Hypothesis keycmp_trans : forall k1 k2 k3, keycmp k1 k2 = true -> keycmp k2 k3 = true -> keycmp k1 k3 = true.
Hypothesis rows_range : 1 <= rows <= 2 ^ 30.
Hypothesis created : xhash_new rows maxmem anr recycle = Some t0.

(** The configuration of a table, with its limit on nodes. *)
Definition configured : config := MkConfig maxnodes maxmem (xhash_nearest_powerof2 rows) anr recycle.

(** What holds of every table the operations reach from a new one. *)
Lemma reachable_table ls t :
  star (xhash_step hash_fcn keycmp anrfree node_size) (xhash_set_max_nodes t0 maxnodes) ls t ->
  splay t = true /\ xwf hash_fcn keycmp t /\ account node_size t 0 /\ config_of t = configured /\
  lru_runs (keycmp := keycmp) anrfree node_size configured ls.*1 = (ls.*2, lru_of t).
Proof.
  revert ls t. apply star_invariant.
  - destruct (xhash_new_wf (hash_fcn := hash_fcn) (keycmp := keycmp) rows (Z.log2_up rows) maxmem anr
      recycle t0) as (I0 & Hs0 & Ha0); [apply Z.log2_up_nonneg| |done|].
    { bcases; [apply nearest_powerof2_eq; lia|lia]. }
    revert created. unfold xhash_new, sfmemcap_alloc. destruct (_ && _); [done|].
    intros [= E]. split_and!; [done|exact I0|..]; unfold lru_of; rewrite <- E in *; clear E.
    + unfold account, blocks. unfold Zlen. simpl. lia.
    + unfold config_of, configured. simpl. rewrite (proj2 (Z.gtb_lt _ _)) by lia. done.
    + done.
  - intros ls t [o r] t' (Hs & I & Hac & Hc & Hst) Hstep. unfold xhash_step in Hstep. simpl in Hstep.
    pose proof (simulates_run anrfree node_size keycmp_trans t o I Hs Hac) as Hsim. unfold simulates in Hsim.
    pose proof (run_account anrfree node_size t o I Hs Hac) as Hac'.
    rewrite Hstep in *. destruct Hsim as (I' & Hs' & Hc' & Hl). rewrite Hc in Hc', Hl.
    split_and!; [done..|]. rewrite !fmap_app. simpl. by rewrite lru_runs_snoc, Hst, Hl.
Qed.
End Reachable.


#[export] Instance Z_keys : KeyOps (fun k : Z => k) Z.eqb.
Proof. constructor; intros; lia. Qed.

Definition demo_table : XHash (K := Z) (D := Z) :=
  default (MkXHash [] ∅ 0 0 0 None true 0 (MkMemcap 0 0 0) 0 0 [] [] None false 0 0 false 0%nat [])
    (xhash_new 3 0 false true).

(** The trace of a sequence of operations. *)
Definition trace {K D} hash_fcn keycmp anrfree node_size (t : XHash (K := K) (D := D)) (os : list op) : list (op * answer) * XHash :=
  foldl (fun '(ls, t) o => let '(r, t) := run (hash_fcn := hash_fcn) (keycmp := keycmp) anrfree node_size t o in (ls ++ [(o, r)], t))
    ([], t) os.
Lemma trace_star {K D} hash_fcn keycmp anrfree node_size (t : XHash (K := K) (D := D)) os :
  star (xhash_step hash_fcn keycmp anrfree node_size) t (trace hash_fcn keycmp anrfree node_size t os).1 (trace hash_fcn keycmp anrfree node_size t os).2.
Proof.
  induction os as [|o os IH] using rev_ind; [constructor|]. unfold trace in *. rewrite foldl_app. simpl.
  destruct (foldl _ _ os) as [ls t']. destruct (run _ _ t' o) as [r t''] eqn:E. by eapply star_snoc.
Qed.

(** Two nodes at most, of which the owner keeps the one with key 1: the third
    key takes the node of key 2, the fourth that of key 3; a removed node is
    used again. *)
Definition lru_ops : list (op (K := Z) (D := Z)) := [Add 1 10; Add 2 20; Find 1; Add 3 30; Find 2; Find 1; Find 3; Add 4 40; Remove 1; Add 5 50; Add 6 60; Find 4].
Definition lru_table : XHash (K := Z) (D := Z) := default demo_table (xhash_new 3 0 true true).
Definition keeps_one : option (Z -> Z -> bool) := Some (fun k _ => k =? 1).
Definition lru_answers : list (answer (D := Z)) := [Res XHASH_OK; Res XHASH_OK; Data (Some 10); Res XHASH_OK; Data None; Data (Some 10);
  Data (Some 30); Res XHASH_OK; Res XHASH_OK; Res XHASH_OK; Res XHASH_OK; Data None].
Definition lru_trace : list (op * answer) * XHash (K := Z) (D := Z) :=
  trace (fun k => k) Z.eqb keeps_one 64 (xhash_set_max_nodes lru_table 2) lru_ops.


(** Nothing leaks: whatever finds, adds and removes came before, with or
    without recycling and recovery of nodes, deleting the table gives back
    every byte and every block that was taken from the memory cap, and calls
    the user's free function for exactly the entries removed earlier and those
    still in the table. *)
Theorem xhash_delete_releases {K D} {hash_fcn : K -> Z} {keycmp} `{!KeyOps hash_fcn keycmp}
    (anrfree : option (K -> D -> bool)) node_size rows maxmem maxnodes anr recycle t0 ls t :
  (forall k1 k2 k3, keycmp k1 k2 = true -> keycmp k2 k3 = true -> keycmp k1 k3 = true) ->
  1 <= rows <= 2 ^ 30 -> xhash_new rows maxmem anr recycle = Some t0 ->
  star (xhash_step hash_fcn keycmp anrfree node_size) (xhash_set_max_nodes t0 maxnodes) ls t ->
  memused (xhash_delete node_size t).1 = 0 /\ nblocks (xhash_delete node_size t).1 = 0 /\
  (xhash_delete node_size t).2 ≡ₚ freed t ++ abs t.
Proof.
  intros Htr Hr Hnew Hstar.
  destruct (reachable_table anrfree node_size rows maxmem maxnodes anr recycle t0 Htr Hr Hnew ls t Hstar)
    as (_ & I & Hac & _).
  destruct (rows_perm hash_fcn keycmp t I) as [_ Hp].
  destruct (delete_account node_size t Hp Hac) as (fr & E & Hfr). by rewrite E.
Qed.

Lemma xhash_delete_releases_witness :
  let t := lru_trace.2 in
  memused (mc t) = 184 /\ memused (xhash_delete 64 t).1 = 0 /\ nblocks (xhash_delete 64 t).1 = 0 /\
  (xhash_delete 64 t).2 ≡ₚ freed t ++ abs t.
Proof.
  split; [reflexivity|].
  exact (xhash_delete_releases (hash_fcn := fun k => k) (keycmp := Z.eqb) keeps_one 64 3 0 2 true true lru_table lru_trace.1 lru_trace.2
    ltac:(lia) ltac:(lia) eq_refl (trace_star (fun k => k) Z.eqb keeps_one 64 (xhash_set_max_nodes lru_table 2) lru_ops)).
Defined.

(** The number of rows: for every size a table can be given,
    [xhash_nearest_powerof2] is the least power of two not below it, so
    masking with [nrows - 1] reaches every row and no other index. *)
Theorem nearest_powerof2_least n :
  1 <= n <= 2 ^ 30 ->
  xhash_nearest_powerof2 n = 2 ^ Z.log2_up n /\ n <= xhash_nearest_powerof2 n < 2 * n /\
  forall h, 0 <= Z.land h (xhash_nearest_powerof2 n - 1) < xhash_nearest_powerof2 n.
Proof.
  intros Hn. rewrite nearest_powerof2_eq by lia. pose proof (Z.log2_up_nonneg n) as He.
  split_and!; [done| | |].
  - destruct (Z.eq_dec n 1) as [->|]; [done|]. apply (Z.log2_up_spec n). lia.
  - destruct (Z.eq_dec n 1) as [->|]; [done|].
    pose proof (Z.log2_up_spec n ltac:(lia)) as [Hl _].
    assert (0 < Z.log2_up n) by (apply Z.log2_up_pos; lia).
    replace (Z.log2_up n) with (Z.pred (Z.log2_up n) + 1) by lia. rewrite Z.pow_add_r by lia. lia.
  - intros h. replace (2 ^ Z.log2_up n - 1) with (Z.ones (Z.log2_up n)) by (rewrite Z.ones_equiv; lia).
    rewrite Z.land_ones by done. apply Z.mod_pos_bound. by apply Z.pow_pos_nonneg.
Qed.

Lemma nearest_powerof2_least_witness :
  xhash_nearest_powerof2 1000 = 2 ^ Z.log2_up 1000 /\ 1000 <= xhash_nearest_powerof2 1000 < 2 * 1000.
Proof.
  destruct (nearest_powerof2_least 1000) as (H1 & H2 & _); [lia|]. split; [exact H1|exact H2].
Defined.

(** Walking with [xhash_findfirst] and [xhash_findnext] over a table that
    is not changed meanwhile visits every node in use exactly once and then
    ends. *)
Theorem xhash_walk_complete {K D} hash_fcn keycmp (t : XHash (K := K) (D := D)) :
  xwf hash_fcn keycmp t ->
  NoDup (walk (S (length (glist t))) t) /\ walk (S (length (glist t))) t ≡ₚ glist t.
Proof.
  intros I. destruct (rows_perm hash_fcn keycmp t I) as [Hnd Hp].
  rewrite <- (Permutation_length Hp), walk_concat by done. split; [|done].
  rewrite Hp. pose proof (i_nodup _ _ _ _ _ _ _ _ _ I) as [? _]%NoDup_app. done.
Qed.

Lemma lru_trace_wf : xwf (fun k => k) Z.eqb lru_trace.2.
Proof.
  apply (reachable_table (hash_fcn := fun k => k) (keycmp := Z.eqb) keeps_one 64 3 0 2 true true lru_table
    ltac:(lia) ltac:(lia) eq_refl lru_trace.1 lru_trace.2 (trace_star (fun k => k) Z.eqb keeps_one 64 (xhash_set_max_nodes lru_table 2) lru_ops)).
Qed.

Lemma xhash_walk_complete_witness :
  let t := lru_trace.2 in
  NoDup (walk (S (length (glist t))) t) /\ walk (S (length (glist t))) t ≡ₚ glist t.
Proof. exact (xhash_walk_complete (fun k => k) Z.eqb lru_trace.2 lru_trace_wf). Defined.
