(* ===== verification/KeyedTable.v ===== *)
(** * KeyedTable: state per key in a hash table of limited memory

    What the event filters (filters/sfthd.cc) and the rate filters
    (filters/sfrf.cc) have in common: an [XHash] from keys to counters, where
    the counter of a key is found or made and then changed in place.  While the
    memory is enough for all the keys, every key has its own state machine. *)

From S2P Require Import Prelude XHash.

Section Keyed.
Context {K D : Type} `{!EqDecision K}.
Variable hash_fcn : K -> Z.
Variable node_size : Z.
Abbreviation tbl := (XHash (K := K) (D := D)).

(** Keys are compared byte by byte. *)
Definition key_eqb (a b : K) : bool := bool_decide (a = b).

#[export] Instance key_ops : KeyOps hash_fcn key_eqb.
Proof.
  split; unfold key_eqb; intros k k' H; apply bool_decide_eq_true in H; subst; [by apply bool_decide_eq_true|done].
Qed.

(** Writing the data of a node. *)
Definition set_data (t : tbl) (n : nat) (d : D) : tbl :=
  match nodes t !! n with
  | Some nd => set_count t (<[n := MkNode (rindex nd) (XHash.key nd) d]> (nodes t)) (XHash.count t) (freed t)
  | None => t
  end.

Abbreviation wf := (xwf hash_fcn key_eqb).
Abbreviation find := (xhash_find_node_row hash_fcn key_eqb).
Abbreviation keys t := (XHash.abs t).*1.

(** No node was given back, and there is memory for [m] more. *)
Record room (t : tbl) (m : Z) : Prop := {
  room_nodes : XHash.max_nodes t = 0;
  room_flist : flist t = [];
  room_fresh n : (next_id t <= n)%nat -> nodes t !! n = None;
  room_size : 0 <= node_size;
  room_mem : memcap (mc t) <= 0 \/ memused (mc t) + m * (node_size + 8) <= memcap (mc t) }.

Lemma inv_set_data tb ns nr cnt gl fl nid x nd (d : D) :
  XHash.inv hash_fcn key_eqb tb ns nr cnt gl fl nid -> ns !! x = Some nd ->
  XHash.inv hash_fcn key_eqb tb (<[x := MkNode (rindex nd) (XHash.key nd) d]> ns) nr cnt gl fl nid.
Proof.
  intros [Irows Ipow Ind Iids Inodes Irow Irnd Icnt Ikeys] Hx.
  assert (forall y nd', <[x := MkNode (rindex nd) (XHash.key nd) d]> ns !! y = Some nd' ->
    exists nd0, ns !! y = Some nd0 /\ rindex nd0 = rindex nd' /\ XHash.key nd0 = XHash.key nd') as Hback.
  { intros y nd' H. destruct (decide (x = y)) as [<-|Hne].
    - rewrite lookup_insert_eq in H. injection H as <-. by exists nd.
    - rewrite lookup_insert_ne in H by done. by exists nd'. }
  assert (forall y nd0, ns !! y = Some nd0 -> exists nd',
    <[x := MkNode (rindex nd) (XHash.key nd) d]> ns !! y = Some nd' /\ rindex nd' = rindex nd0 /\ XHash.key nd' = XHash.key nd0) as Hfwd.
  { intros y nd0 H. destruct (decide (x = y)) as [<-|Hne].
    - rewrite lookup_insert_eq. eexists; split; [done|]. rewrite Hx in H. by injection H as <-.
    - rewrite lookup_insert_ne by done. by exists nd0. }
  constructor; try done.
  - intros y Hy. destruct (Inodes y Hy) as (nd0 & H0 & Hr). destruct (Hfwd y nd0 H0) as (nd' & H' & Hr' & Hk').
    exists nd'. by rewrite Hr', Hk'.
  - intros r y. rewrite Irow. split; intros (Hy & nd1 & H1 & Hr); (split; [done|]).
    + destruct (Hfwd y nd1 H1) as (nd' & H' & Hr' & _). exists nd'. by rewrite Hr'.
    + destruct (Hback y nd1 H1) as (nd' & H' & Hr' & _). exists nd'. by rewrite Hr'.
  - intros y y' nd1 nd2 Hy Hy' H1 H2 Hk. destruct (Hback _ _ H1) as (m1 & E1 & _ & K1).
    destruct (Hback _ _ H2) as (m2 & E2 & _ & K2). eapply Ikeys; [done|done|exact E1|exact E2|]. by rewrite K1, K2.
Qed.

(** The node at the front of the list is written. *)
Lemma set_front (t : tbl) x k nd l d :
  wf t -> splay t = true -> glist t = x :: l -> nodes t !! x = Some nd -> XHash.key nd = k ->
  wf (set_data t x d) /\ splay (set_data t x d) = true /\
  XHash.abs (set_data t x d) = (k, d) :: XHash.entries (nodes t) l /\
  (forall m, room t m -> room (set_data t x d) m).
Proof.
  intros I Hs Hg Hx <-. unfold set_data. rewrite Hx. split_and!; [exact (inv_set_data _ _ _ _ _ _ _ x nd d I Hx)|done| |].
  - unfold XHash.abs. simpl. rewrite Hg. simpl. unfold entry at 1. rewrite lookup_insert_eq. simpl. f_equal.
    pose proof (glist_nodup t I) as Hnd. rewrite Hg in Hnd. apply NoDup_cons in Hnd as [Hnd _].
    clear -Hnd. fold (XHash.entries (<[x := MkNode (rindex nd) (XHash.key nd) d]> (nodes t)) l).
    induction l as [|y l IH]; [done|]. apply not_elem_of_cons in Hnd as [Hy Hl].
    rewrite !entries_cons, IH by done. unfold entry. by rewrite lookup_insert_ne.
  - intros m [H1 H2 H3 H4 H5]. split; simpl; try done. intros n Hn. rewrite lookup_insert_ne; [by apply H3|].
    intros ->. rewrite H3 in Hx by done. done.
Qed.

(** A key that is in the table is found and moved to the front. *)
Lemma find_old (t : tbl) k m :
  wf t -> splay t = true -> room t m -> k ∈ keys t ->
  exists x t1 d l1 l2, find t k = (Some x, t1) /\ XHash.abs t = l1 ++ (k, d) :: l2 /\ node_data t1 x = Some d /\
    forall d', wf (set_data t1 x d') /\ splay (set_data t1 x d') = true /\ room (set_data t1 x d') m /\
      XHash.abs (set_data t1 x d') = (k, d') :: l1 ++ l2.
Proof.
  intros I Hs Hr Hin. pose proof (find_row_spec t k I Hs) as H. pose proof (find_limits t k I) as [Hl1 Hl2].
  pose proof (find_store t k I) as [Hl3 Hl4].
  destruct (find t k) as [[x|] t1] eqn:Hfind.
  - destruct H as (nd & l1 & l2 & Hx & Hk & Eg & Eg' & En & I' & Hs'). apply bool_decide_eq_true in Hk.
    exists x, t1, (data nd), (XHash.entries (nodes t) l1), (XHash.entries (nodes t) l2).
    split_and!; [done| |by unfold node_data; rewrite En, Hx|].
    { unfold XHash.abs. rewrite Eg, (omap_split _ l1 x l2 nd Hx). by rewrite Hk. }
    intros d'. rewrite <- En in Hx. destruct (set_front t1 x k nd (l1 ++ l2) d' I' Hs' Eg' Hx Hk) as (? & ? & Ha & Hroom).
    split_and!; [done|done| |by rewrite Ha, En, entries_app].
    apply Hroom. destruct Hr as [R1 R2 R3 R4 R5]. simpl in *. split; try congruence. by rewrite En, Hl4.
  - exfalso. destruct H as (Hk & _). apply entries_absent in Hk. unfold absent in Hk. rewrite Forall_forall in Hk.
    apply list_elem_of_fmap in Hin as ([k' d] & -> & Hin). specialize (Hk _ Hin). simpl in Hk.
    by apply bool_decide_eq_false in Hk.
Qed.

(** A key that is not in the table gets a new node, nothing is forgotten. *)
Lemma find_new (t : tbl) k m :
  wf t -> splay t = true -> room t m -> 0 < m -> k ∉ keys t ->
  exists t1 x t2, find t k = (None, t1) /\ xhash_newnode None node_size t1 = (Some x, t2) /\ node_data t2 x = None /\
    forall d, let t' := link_new t2 (XHash.index hash_fcn t k) x k d in
      wf t' /\ splay t' = true /\ room t' (m - 1) /\ XHash.abs t' = (k, d) :: XHash.abs t /\ node_data t' x = Some d /\
      forall d', wf (set_data t' x d') /\ splay (set_data t' x d') = true /\ room (set_data t' x d') (m - 1) /\
        XHash.abs (set_data t' x d') = (k, d') :: XHash.abs t.
Proof.
  intros I Hs [R1 R2 R3 R4 R5] Hm Hnk. pose proof (find_row_spec t k I Hs) as H. pose proof (find_limits t k I) as [Hl1 Hl2].
  pose proof (find_store t k I) as [Hl3 Hl4].
  destruct (find t k) as [[x|] t1] eqn:Hfind; simpl in *.
  { exfalso. destruct H as (nd & l1 & l2 & Hx & Hk & Eg & _). apply bool_decide_eq_true in Hk. apply Hnk.
    unfold XHash.abs. rewrite Eg, (omap_split _ l1 x l2 nd Hx), fmap_app, elem_of_app, fmap_cons, elem_of_cons. simpl. auto. }
  destruct H as (Hk & Eg & En & Er & I1 & Hs1).
  assert (exists mc', xhash_newnode None node_size t1 = (Some (next_id t1), set_free t1 mc' [] (S (next_id t1))) /\
    (memcap mc' <= 0 \/ memused mc' + (m - 1) * (node_size + 8) <= memcap mc')) as (mc' & E & Hmem).
  { unfold xhash_newnode, xhash_get_free_node. rewrite Hl3, R2, Hl1, R1, Hl2. simpl. unfold sfmemcap_alloc.
    bcase (memcap (mc t) >? 0) as G; simpl; [bcase (memused (mc t) + (node_size + 8) >? memcap (mc t)) as G2; [nia|]|];
      (eexists; split; [rewrite ?Hl3, ?R2; done|]); simpl; [nia|lia]. }
  pose proof (newnode_spec None node_size t1 I1 Hs1) as H2. rewrite E in H2.
  destruct H2 as (Hg & Hf & Hi & En2 & Er2 & I2 & Hs2 & _).
  exists t1, (next_id t1), (set_free t1 mc' [] (S (next_id t1))). split_and!; [done|done| |].
  { unfold node_data. simpl. rewrite En, R3 by lia. done. }
  intros d. cbv zeta. set (t2 := set_free _ _ _ _) in *. set (t' := link_new t2 _ _ _ _).
  assert (XHash.index hash_fcn t k = XHash.index hash_fcn t2 k) as Hix by (unfold XHash.index; by rewrite Er2, Er).
  assert (no_key (keycmp := key_eqb) t2 k) as Hk2 by (intros y nd; simpl; rewrite Eg, En; apply Hk).
  destruct (link_new_spec t2 (next_id t1) k d I2 Hg Hf Hi Hk2) as [I3 Ea3]. rewrite <- Hix in I3, Ea3. fold t' in I3, Ea3.
  assert (room t' (m - 1)) as Hroom.
  { split; unfold t', t2; simpl; [congruence|done| |done|done]. intros n Hn. rewrite lookup_insert_ne by lia. rewrite En, R3; [done|lia]. }
  assert (XHash.abs t2 = XHash.abs t) as Ea by (unfold XHash.abs; simpl; by rewrite Eg, En).
  split_and!; try done.
  - by rewrite Ea3, Ea.
  - unfold node_data. simpl. by rewrite lookup_insert_eq.
  - intros d'. destruct (set_front t' (next_id t1) k (MkNode (XHash.index hash_fcn t k) k d) (glist t2) d' I3 Hs2) as (? & ? & Ha & Hr);
      [done|simpl; by rewrite lookup_insert_eq|done|].
    split_and!; [done|done|by apply Hr|]. rewrite Ha. f_equal. simpl. rewrite <- Ea.
    by apply (entries_insert t2).
Qed.

(** A new table with a row for each [size] bytes. *)
Lemma xhash_new_room nbytes size (t : tbl) m :
  0 < size <= nbytes -> nbytes < 2 ^ 30 -> 0 <= node_size ->
  xhash_new (nbytes / size) nbytes true true = Some t ->
  8 * 2 ^ Z.log2_up (nbytes / size) + 8 + m * (node_size + 8) <= nbytes ->
  wf t /\ splay t = true /\ XHash.abs t = [] /\ room t m.
Proof.
  intros Hs Hn Hl Hnew Hmem.
  assert (1 <= nbytes / size <= 2 ^ 31) as Hrows.
  { split; [apply Z.div_le_lower_bound; lia|]. apply Z.div_le_upper_bound; nia. }
  assert ((if nbytes / size >? 0 then xhash_nearest_powerof2 (nbytes / size) else - (nbytes / size)) = 2 ^ Z.log2_up (nbytes / size)) as Hpow.
  { bcases; [|lia]. by apply nearest_powerof2_eq. }
  destruct (xhash_new_wf (hash_fcn := hash_fcn) (keycmp := key_eqb) _ _ _ _ _ t (Z.log2_up_nonneg _) Hpow Hnew) as (? & ? & ?).
  split_and!; [done..|]. unfold xhash_new in Hnew. rewrite Hpow in Hnew. unfold sfmemcap_alloc in Hnew. simpl in Hnew.
  destruct (_ && _) in Hnew; [done|]. injection Hnew as <-. split; simpl; try done. right. lia.
Qed.

(** The cursor of the table does not matter. *)
Lemma set_data_cur (t : tbl) cr cn gn x d : set_data (set_cur t cr cn gn) x d = set_cur (set_data t x d) cr cn gn.
Proof. unfold set_data. simpl. by destruct (nodes t !! x). Qed.
Lemma room_cur (t : tbl) cr cn gn m : room t m -> room (set_cur t cr cn gn) m.
Proof. by intros []. Qed.

(** ** One state machine per key *)

Context {I R : Type}.
(** The answer to an input and the new data; [None]: the key is new. *)
Variable step : K -> option D -> I -> R * D.
(** Looking the key up and answering. *)
Variable access : tbl -> K -> I -> R * tbl.

Definition accesses : Prop := forall t k i m,
  wf t -> splay t = true -> room t m -> (0 < m \/ k ∈ keys t) ->
  let '(r, t') := access t k i in
  wf t' /\ splay t' = true /\
  (((k ∉ keys t) /\ r = (step k None i).1 /\ XHash.abs t' = (k, (step k None i).2) :: XHash.abs t /\ room t' (m - 1)) \/
   exists d l1 l2, XHash.abs t = l1 ++ (k, d) :: l2 /\ r = (step k (Some d) i).1 /\
     XHash.abs t' = (k, (step k (Some d) i).2) :: l1 ++ l2 /\ room t' m).
Hypothesis Haccess : accesses.

Definition state_of (k : K) (h : list I) : option D := foldl (fun o i => Some (step k o i).2) None h.

(** The table after the inputs [h k] of each key [k], all among [ks]. *)
Record tracks (ks : list K) (h : K -> list I) (t : tbl) : Prop := {
  tr_wf : wf t;
  tr_splay : splay t = true;
  tr_nodup : NoDup (keys t);
  tr_sub : keys t ⊆ ks;
  tr_room : room t (Zlen ks - Zlen (XHash.abs t));
  tr_state k d : (k, d) ∈ XHash.abs t <-> state_of k (h k) = Some d }.

Definition push (h : K -> list I) (k : K) (i : I) : K -> list I := fun k' => if decide (k' = k) then h k ++ [i] else h k'.

Lemma state_of_push h k i k' :
  state_of k' (push h k i k') = if decide (k' = k) then Some (step k (state_of k (h k)) i).2 else state_of k' (h k').
Proof. unfold push. case_decide as E; [subst|done]. unfold state_of. by rewrite foldl_app. Qed.

(** There is room for a key that is not in the table. *)
Lemma tracks_room ks h t k : tracks ks h t -> k ∈ ks -> 0 < Zlen ks - Zlen (XHash.abs t) \/ k ∈ keys t.
Proof.
  intros [_ _ Hnd Hsub _ _] Hk. destruct (decide (k ∈ keys t)) as [|Hnk]; [by right|left].
  assert (length (k :: keys t) <= length ks)%nat as Hle.
  { apply submseteq_length, NoDup_submseteq; [by constructor|]. intros x. rewrite elem_of_cons. intros [->|?]; [done|by apply Hsub]. }
  simpl in Hle. rewrite length_fmap in Hle. unfold Zlen. lia.
Qed.

Lemma tracks_step ks h t k i : tracks ks h t -> k ∈ ks ->
  let '(r, t') := access t k i in tracks ks (push h k i) t' /\ r = (step k (state_of k (h k)) i).1.
Proof.
  intros T Hk. pose proof (tracks_room ks h t k T Hk) as Hm. destruct T as [Iw Hs Hnd Hsub Hroom Hst].
  pose proof (Haccess t k i _ Iw Hs Hroom Hm) as H. destruct (access t k i) as [r t'].
  destruct H as (I' & Hs' & [(Hnk & -> & Habs & Hr')|(d & l1 & l2 & E & -> & Habs & Hr')]).
  - assert (state_of k (h k) = None) as Hnone.
    { destruct (state_of k (h k)) as [d|] eqn:E; [|done]. apply Hst in E. exfalso. apply Hnk. apply list_elem_of_fmap. by exists (k, d). }
    rewrite Hnone. split; [|done]. split; rewrite ?Habs; try done.
    + simpl. by constructor.
    + simpl. intros x. rewrite elem_of_cons. intros [->|?]; [done|by apply Hsub].
    + rewrite Zlen_cons. by replace (Zlen ks - (1 + Zlen (XHash.abs t))) with (Zlen ks - Zlen (XHash.abs t) - 1) by lia.
    + intros k' d. rewrite elem_of_cons, state_of_push, Hnone. case_decide as Hkk; [subst k'|].
      * split; [intros [[= ->]|Hin]; [done|]|intros [= <-]; by left]. apply Hst in Hin. congruence.
      * rewrite <- Hst. split; [intros [[= ]|]; [congruence|done]|by right].
  - assert (state_of k (h k) = Some d) as Hd by (apply Hst; rewrite E, elem_of_app, elem_of_cons; auto).
    rewrite Hd. split; [|done]. rewrite E in Hnd, Hsub, Hroom, Hr'. rewrite fmap_app, fmap_cons in Hnd, Hsub. simpl in Hnd, Hsub.
    assert ((k ∉ (l1 ++ l2).*1) /\ NoDup (l1 ++ l2).*1) as [Hnk Hnd'].
    { rewrite <- Permutation_middle in Hnd. apply NoDup_cons in Hnd. by rewrite fmap_app. }
    split; rewrite ?Habs; try done.
    + simpl. by constructor.
    + simpl. intros x. rewrite elem_of_cons, fmap_app, elem_of_app. intros Hx. apply Hsub. rewrite elem_of_app, elem_of_cons. tauto.
    + rewrite Zlen_cons, Zlen_app. rewrite Zlen_app, Zlen_cons in Hr'.
      by replace (1 + (Zlen l1 + Zlen l2)) with (Zlen l1 + (1 + Zlen l2)) by lia.
    + intros k' x. rewrite elem_of_cons, state_of_push, Hd. case_decide as Hkk; [subst k'|].
      * split; [intros [[= ->]|Hin]; [done|]|intros [= <-]; by left].
        exfalso. apply Hnk, list_elem_of_fmap. by exists (k, x).
      * rewrite <- Hst, E, !elem_of_app, elem_of_cons.
        split; [intros [[= ]|]; [congruence|tauto]|intros [?|[[= ]|?]]; [tauto|congruence|tauto]].
Qed.

Lemma tracks_nil ks t : wf t -> splay t = true -> XHash.abs t = [] -> room t (Zlen ks) -> tracks ks (fun _ => []) t.
Proof.
  intros Iw Hs Habs Hroom. split; rewrite ?Habs; try done.
  - simpl. constructor.
  - intros x Hx. by apply not_elem_of_nil in Hx.
  - by rewrite Zlen_nil, Z.sub_0_r.
  - intros k d. split; [intros Hin; by apply not_elem_of_nil in Hin|done].
Qed.

(** What belongs to one key. *)
Definition of_key {A} (k : K) (l : list (K * A)) : list A := (filter (fun e => e.1 = k) l).*2.

Lemma of_key_snoc {A} k l k' (x : A) : of_key k (l ++ [(k', x)]) = of_key k l ++ (if decide (k' = k) then [x] else []).
Proof.
  unfold of_key. rewrite filter_app, fmap_app, filter_cons, filter_nil. simpl. by case_decide.
Qed.

(** Inputs, each with its key, in order. *)
Definition access_all (t : tbl) (evs : list (K * I)) : list (K * R) * tbl :=
  foldl (fun '(rs, t) '(k, i) => let '(r, t) := access t k i in (rs ++ [(k, r)], t)) ([], t) evs.

(** The answers of one state machine. *)
Definition run_key (k : K) (xs : list I) : list R :=
  (foldl (fun '(o, rs) i => let '(r, d) := step k o i in (Some d, rs ++ [r])) (None, []) xs).2.

Lemma run_key_snoc k xs i : run_key k (xs ++ [i]) = run_key k xs ++ [(step k (state_of k xs) i).1].
Proof.
  unfold run_key, state_of. rewrite foldl_app. simpl.
  assert (forall xs o rs, (foldl (fun '(o, rs) i => let '(r, d) := step k o i in (Some d, rs ++ [r])) (o, rs) xs).1 =
    foldl (fun o i => Some (step k o i).2) o xs) as H.
  { clear. intros xs. induction xs as [|i xs IH]; intros o rs; simpl; [done|]. destruct (step k o i) as [r d] eqn:E. simpl. by rewrite IH. }
  specialize (H xs None []). destruct (foldl _ (None, []) xs) as [o rs]. simpl in *. subst o. by destruct (step k _ i).
Qed.

Lemma access_all_tracks ks evs : Forall (fun e => e.1 ∈ ks) evs -> forall t,
  wf t -> splay t = true -> XHash.abs t = [] -> room t (Zlen ks) ->
  tracks ks (fun k => of_key k evs) (access_all t evs).2 /\ forall k, of_key k (access_all t evs).1 = run_key k (of_key k evs).
Proof.
  intros Hevs t Iw Hs Habs Hroom. induction evs as [|[k i] evs IH] using rev_ind; [split; [by apply tracks_nil|done]|].
  apply Forall_app in Hevs as [Hevs Hk]. apply Forall_cons in Hk as [Hk _]. destruct (IH Hevs) as [T Hans].
  unfold access_all in *. rewrite foldl_app. destruct (foldl _ ([], t) evs) as [rs t1]. simpl in *.
  pose proof (tracks_step ks _ t1 k i T Hk) as H. destruct (access t1 k i) as [r t2]. simpl in *. destruct H as [T2 ->]. split.
  - destruct T2 as [? ? ? ? ? Hst]. split; try done. intros k' d. rewrite Hst. unfold push. rewrite of_key_snoc.
    destruct (decide (k' = k)) as [->|Hne]; [by rewrite decide_True|rewrite decide_False by congruence; by rewrite app_nil_r].
  - intros k'. rewrite !of_key_snoc, Hans. case_decide as E; [subst; by rewrite run_key_snoc|by rewrite !app_nil_r].
Qed.
End Keyed.
