(* ===== verification/Intern.v ===== *)
(** * Intern: tables that keep one object of each kind

    What the table of rule options and the table of option trees
    (detection/detection_options.cc) have in common: an [XHash] without limits
    from keys to objects, where an object is found if an equal one was added
    and added otherwise. *)

From S2P Require Import Prelude XHash.

Section Intern.
Context {K D : Type}.
Variable hash_fcn : K -> Z.
Variable keycmp : K -> K -> bool.
Context `{!KeyOps hash_fcn keycmp}.
(** The object a key is made from, and the bytes of a node. *)
Variable object_of : K -> D.
Variable node_size : Z.

Abbreviation table_t := (XHash (K := K) (D := D)).

(** [xhash_find], then [xhash_add] of the object itself: the object already
    there, or [None] (null) when the given one was added. *)
Definition find_or_add (t : table_t) (k : K) : option D * table_t :=
  match xhash_find hash_fcn keycmp t k with
  | (Some p, t) => (Some p, t)
  | (None, t) => (None, (xhash_add hash_fcn keycmp None node_size t k (object_of k)).2)
  end.

Record table_ok (t : table_t) : Prop := {
  ok_wf : xwf hash_fcn keycmp t;
  ok_splay : splay t = true;
  ok_nodes : max_nodes t = 0;
  ok_mem : memcap (mc t) = 0;
  ok_data : Forall (fun e => e.2 = object_of e.1) (abs t) }.

Lemma new_table_ok rows e t :
  0 <= e -> (if rows >? 0 then xhash_nearest_powerof2 rows else - rows) = 2 ^ e ->
  xhash_new rows 0 false true = Some t -> table_ok t /\ abs t = [].
Proof.
  intros He Hr E.
  destruct (xhash_new_wf (hash_fcn := hash_fcn) (keycmp := keycmp) rows e 0 false true t He Hr E) as (I & Hs & Ha).
  split; [|done]. constructor; try done.
  - unfold xhash_new in E. destruct (sfmemcap_alloc _ _); [|done]. by injection E as <-.
  - unfold xhash_new, sfmemcap_alloc in E. simpl in E. by injection E as <-.
  - rewrite Ha. constructor.
Qed.

Lemma find_node_data t k n t' :
  table_ok t -> xhash_find_node_row hash_fcn keycmp t k = (n, t') ->
  table_ok t' /\ abs t' ≡ₚ abs t /\
  match n with
  | Some n => exists k' d, node_data t' n = Some d /\ (k', d) ∈ abs t /\ keycmp k' k = true
  | None => no_key (keycmp := keycmp) t' k /\ abs t' = abs t
  end.
Proof.
  intros [I Hs Hm Hc Hd] E.
  pose proof (find_row_spec t k I Hs) as H.
  destruct (find_limits t k I) as [Em Ec]. rewrite E in *. simpl in Em, Ec.
  destruct n as [n|].
  - destruct H as (nd & l1 & l2 & Hn & Hk & Eg & Eg' & En & I' & Hs').
    assert (abs t = entries (nodes t) l1 ++ (key nd, data nd) :: entries (nodes t) l2) as Ea
      by (unfold abs; rewrite Eg; by apply omap_split).
    assert (abs t' = (key nd, data nd) :: entries (nodes t) l1 ++ entries (nodes t) l2) as Ea'
      by (unfold abs; rewrite Eg', En; by apply entries_front).
    assert (abs t' ≡ₚ abs t) as Hp by (rewrite Ea, Ea'; apply Permutation_middle).
    split_and!; [|done|].
    + constructor; try done; try congruence. by rewrite Hp.
    + exists (key nd), (data nd). split_and!; [unfold node_data; by rewrite En, Hn| |done].
      rewrite Ea. rewrite elem_of_app, elem_of_cons. auto.
  - destruct H as (Hk & Eg & En & _ & I' & Hs').
    assert (abs t' = abs t) as Ea by (unfold abs; by rewrite Eg, En).
    split_and!; [|by rewrite Ea|intros x nd; rewrite Eg, En; apply Hk|done].
    constructor; try done; try congruence; by rewrite Ea.
Qed.

(** One addition: the object that is there already, if an equal one is. *)
Lemma find_or_add_step t k p t' :
  table_ok t -> find_or_add t k = (p, t') ->
  table_ok t' /\
  match p with
  | Some q => abs t' ≡ₚ abs t /\ exists k', (k', q) ∈ abs t /\ keycmp k' k = true /\ q = object_of k'
  | None => abs t' = (k, object_of k) :: abs t /\ forall k' q, (k', q) ∈ abs t -> keycmp k' k = false
  end.
Proof.
  intros Ht. unfold find_or_add, xhash_find.
  destruct (xhash_find_node_row _ _ t _) as [n t1] eqn:E.
  destruct (find_node_data t _ n t1 Ht E) as (Ht1 & Hp & H). destruct n as [n|].
  - destruct H as (k' & q & Hq & Hin & Hk). rewrite Hq. intros [= <- <-]. split; [done|]. split; [done|].
    exists k'. split_and!; [done..|]. by apply (proj1 (Forall_forall _ _) (ok_data t Ht) (k', q)).
  - destruct H as [Hk Ea]. intros [= <- <-].
    destruct (add_unlimited None node_size t1 k (object_of k)) as (t2 & E2 & W & S & M & C & A);
      [apply Ht1..|done|].
    rewrite E2. simpl. rewrite A, Ea. split; [|split; [done|]].
    + constructor; try done. rewrite A. constructor; [done|apply Ht1].
    + intros k' q Hin. rewrite <- Ea in Hin.
      by apply (proj1 (Forall_forall _ _) (entries_absent t1 _ Hk) _ Hin).
Qed.
End Intern.

#[global] Arguments table_ok {K D} hash_fcn keycmp object_of t.
