(* ===== verification/OptionTable.v ===== *)
(** * OptionTable: the table of rule options (detection/detection_options.cc)

    Options that compare equal are stored once and shared between rules.  The
    table is an [XHash] keyed by option type and option, with the options' own
    [hash()] and [operator==], which each option class promises through
    [OptionKey].  Content options compare by address, so [heap] gives the
    option object at an address. *)

From S2P Require Import Prelude Content ByteTest ByteJump ByteExtract ByteMath IsDataAt RangeOptions Hash XHash Intern.

(** ** Content options *)

Record ContentOption := MkContentOption { co_base : IpsOption; co_config : Content.ContentData }.

Definition content_hash (o : ContentOption) : Z :=
  let cd := co_config o in let p := Content.pmd cd in
  let t := mix 32 (Content.flags p, u32 (Content.offset p), u32 (Content.depth p)) in
  let '(a, b, c) := t in
  let t := mix 32 (u32 (a + Content.pattern_size p), u32 (b + Content.fp_offset p), u32 (c + Content.fp_length p)) in
  let t := if truth (Content.pattern_size p) then mix_str t (Content.pattern_buf p) else t in
  let '(a, b, c) := mix_name t (opt_name (co_base o)) in
  let t := mix 32 (u32 (a + Content.depth_var cd), u32 (b + Content.offset_var cd), u32 (c + Content.match_delta cd)) in
  let '(_, _, c) := finalize 32 t in c.

(** [this == &ips]. *)
Definition content_eqb (a b : nat) : bool := Nat.eqb a b.

(** ** Options of all classes *)

(** An [IpsOption] pointer: the class decides which virtual functions run. *)
Inductive AnyOption :=
  | OContent (address : nat)
  | OByteTest (o : ByteTest.ByteTestOption)
  | OByteJump (o : ByteJump.ByteJumpOption)
  | OByteExtract (o : ByteExtract.ByteExtractOption)
  | OByteMath (o : ByteMath.ByteMathOption)
  | OIsDataAt (o : IsDataAt.IsDataAtOption)
  | ORange (o : RangeOptions.RangeObject).

Section OptionTable.
(** The content option at an address, while the rules are added. *)
Variable heap : nat -> ContentOption.

Definition any_hash (o : AnyOption) : Z :=
  match o with
  | OContent p => content_hash (heap p)
  | OByteTest o => opt_hash o
  | OByteJump o => opt_hash o
  | OByteExtract o => opt_hash o
  | OByteMath o => opt_hash o
  | OIsDataAt o => opt_hash o
  | ORange o => opt_hash o
  end.

(** Options of different classes have different names, which every
    [operator==] compares first. *)
Definition any_eqb (a b : AnyOption) : bool :=
  match a, b with
  | OContent p, OContent q => content_eqb p q
  | OByteTest a, OByteTest b => opt_eqb a b
  | OByteJump a, OByteJump b => opt_eqb a b
  | OByteExtract a, OByteExtract b => opt_eqb a b
  | OByteMath a, OByteMath b => opt_eqb a b
  | OIsDataAt a, OIsDataAt b => opt_eqb a b
  | ORange a, ORange b => opt_eqb a b
  | _, _ => false
  end.

Lemma any_eqb_hash a b : any_eqb a b = true -> any_hash a = any_hash b.
Proof.
  destruct a as [a|a|a|a|a|a|a], b as [b|b|b|b|b|b|b]; try done; [|exact (opt_eqb_hash a b)..].
  simpl. unfold content_eqb. intros ->%Nat.eqb_eq. done.
Qed.

#[export] Instance AnyOption_key : OptionKey AnyOption :=
  {| opt_hash := any_hash; opt_eqb := any_eqb; opt_eqb_hash := any_eqb_hash |}.

(** ** Keys *)

Record detection_option_key_t := MkKey { option_type : option_type_t; option_data : AnyOption }.

Definition detection_option_hash_func (k : detection_option_key_t) : Z :=
  match option_type k with
  | RULE_OPTION_TYPE_LEAF_NODE => 0
  | _ => opt_hash (option_data k)
  end.

(** [true] for [HASH_EQUAL]. *)
Definition detection_option_key_compare_func (k1 k2 : detection_option_key_t) : bool :=
  if negb (bool_decide (option_type k1 = option_type k2)) then false
  else if negb (bool_decide (option_type k1 = RULE_OPTION_TYPE_LEAF_NODE))
  then opt_eqb (option_data k1) (option_data k2)
  else false.

Definition HASH_RULE_OPTIONS : Z := 16384.

(** ** The table *)

Abbreviation option_table := (XHash (K := detection_option_key_t) (D := AnyOption)).

(** [DetectionHashTableNew]: no limits, no recovery, nodes recycled. *)
Definition DetectionHashTableNew : option option_table := xhash_new HASH_RULE_OPTIONS 0 false true.

(** Bytes of a node: seven words and the key. *)
Definition option_node_size : Z := 72.

(** [add_detection_option] on a table that exists: the option already there,
    or [None] (null) when the given one was added. *)
Definition add_detection_option (t : option_table) (type : option_type_t) (o : AnyOption)
    : option AnyOption * option_table :=
  let key := MkKey type o in
  match xhash_find detection_option_hash_func detection_option_key_compare_func t key with
  | (Some p, t) => (Some p, t)
  | (None, t) =>
      (None, (xhash_add detection_option_hash_func detection_option_key_compare_func None
                option_node_size t key o).2)
  end.

(** ** Equality of options is an equivalence *)

Lemma IpsOption_eqb_sym a b : IpsOption_eqb a b = IpsOption_eqb b a.
Proof. unfold IpsOption_eqb. f_equal; apply String.eqb_sym. Qed.

(** Turn the comparisons of a class's [operator==] around. *)
Ltac flip_fields :=
  intros Hfields; breflect;
  repeat match goal with
  | H : Bool.eqb _ _ = true |- _ => apply eqb_prop in H
  | H : bool_decide _ = true |- _ => apply bool_decide_eq_true in H
  end;
  repeat match goal with H : ?f (_ ?x) = ?f (_ ?y) |- _ => rewrite H; clear H end;
  rewrite ?Z.eqb_refl, ?Bool.eqb_reflx, ?bool_decide_true by done; done.

Lemma any_eqb_sym a b : any_eqb a b = true -> any_eqb b a = true.
Proof.
  destruct a as [a|a|a|a|a|a|a], b as [b|b|b|b|b|b|b]; simpl; try done.
  - unfold content_eqb. rewrite !Nat.eqb_eq. done.
  - unfold ByteTest.eqb. rewrite (IpsOption_eqb_sym (ByteTest.bt_base b)).
    destruct (IpsOption_eqb _ _); [|done]. simpl. flip_fields.
  - unfold ByteJump.eqb. rewrite (IpsOption_eqb_sym (ByteJump.bj_base b)).
    destruct (IpsOption_eqb _ _); [|done]. simpl. flip_fields.
  - unfold ByteExtract.eqb. rewrite (IpsOption_eqb_sym (ByteExtract.be_base b)).
    destruct (IpsOption_eqb _ _); [|done]. simpl. flip_fields.
  - unfold ByteMath.eqb. rewrite (IpsOption_eqb_sym (ByteMath.bm_base b)).
    destruct (IpsOption_eqb _ _); [|done]. simpl. flip_fields.
  - unfold IsDataAt.eqb. rewrite (String.eqb_sym (opt_name (IsDataAt.ida_base b))).
    destruct (String.eqb _ _); [|done]. simpl. flip_fields.
  - rewrite !object_eqb_spec. intros (Hk & -> & Hb). rewrite <- Hk. split_and!; try done. by intros ->%Hb.
Qed.

Lemma IpsOption_eqb_cong a b c : IpsOption_eqb a b = true -> IpsOption_eqb a c = IpsOption_eqb b c.
Proof. unfold IpsOption_eqb. rewrite andb_true_iff, !String.eqb_eq. by intros [-> ->]. Qed.

(** Replace the fields an [operator==] compares. *)
Ltac chain_fields :=
  intros Hfields;
  match type of Hfields with (if negb ?x then _ else _) = _ => destruct x eqn:?; [|done] end;
  cbn [negb] in Hfields; breflect;
  repeat match goal with
  | H : Bool.eqb _ _ = true |- _ => apply eqb_prop in H
  | H : bool_decide _ = true |- _ => apply bool_decide_eq_true in H
  | H : IpsOption_eqb _ _ = true |- _ => rewrite (IpsOption_eqb_cong _ _ _ H); clear H
  | H : String.eqb _ _ = true |- _ => apply String.eqb_eq in H
  end;
  repeat match goal with H : _ = _ |- _ => rewrite H; clear H end; done.

Lemma any_eqb_trans a b c : any_eqb a b = true -> any_eqb b c = true -> any_eqb a c = true.
Proof.
  intros Hab Hbc. rewrite <- Hbc. revert Hab. clear Hbc.
  destruct a as [a|a|a|a|a|a|a], b as [b|b|b|b|b|b|b]; try done; destruct c as [c|c|c|c|c|c|c]; try done; simpl;
    [unfold content_eqb; by intros ->%Nat.eqb_eq|unfold ByteTest.eqb|unfold ByteJump.eqb|unfold ByteExtract.eqb|unfold ByteMath.eqb|unfold IsDataAt.eqb|exact (fun H => object_eqb_cong _ _ c H)];
    chain_fields.
Qed.

Lemma IpsOption_eqb_refl a : IpsOption_eqb a a = true.
Proof. unfold IpsOption_eqb. by rewrite !String.eqb_refl. Qed.

Lemma any_eqb_refl a : any_eqb a a = true.
Proof.
  destruct a as [a|a|a|a|a|a|a]; simpl;
    [apply Nat.eqb_refl|unfold ByteTest.eqb|unfold ByteJump.eqb|unfold ByteExtract.eqb|unfold ByteMath.eqb|unfold IsDataAt.eqb|by apply object_eqb_spec];
    rewrite ?IpsOption_eqb_refl, ?String.eqb_refl, ?Z.eqb_refl, ?Bool.eqb_reflx, ?bool_decide_true by done; done.
Qed.

Lemma key_compare_spec k1 k2 :
  detection_option_key_compare_func k1 k2 = true <->
  option_type k1 = option_type k2 /\ option_type k1 <> RULE_OPTION_TYPE_LEAF_NODE /\
  any_eqb (option_data k1) (option_data k2) = true.
Proof.
  unfold detection_option_key_compare_func.
  destruct (bool_decide (option_type k1 = option_type k2)) eqn:E1; simpl.
  - apply bool_decide_eq_true in E1.
    destruct (bool_decide (option_type k1 = RULE_OPTION_TYPE_LEAF_NODE)) eqn:E2; simpl.
    + apply bool_decide_eq_true in E2. split; [done|]. tauto.
    + apply bool_decide_eq_false in E2. tauto.
  - apply bool_decide_eq_false in E1. split; [done|]. tauto.
Qed.

#[export] Instance detection_keys :
  KeyOps detection_option_hash_func detection_option_key_compare_func.
Proof.
  constructor.
  - intros k k'. rewrite !key_compare_spec. intros (E & Hn & He). rewrite <- E.
    split_and!; [done|done|by apply any_eqb_sym].
  - intros k k'. rewrite key_compare_spec. intros (E & Hn & He). unfold detection_option_hash_func.
    rewrite <- E. destruct (option_type k); try done; by apply any_eqb_hash.
Qed.

(** ** One addition *)

Abbreviation table_ok := (Intern.table_ok detection_option_hash_func detection_option_key_compare_func option_data).

Lemma DetectionHashTableNew_ok : exists t, DetectionHashTableNew = Some t /\ table_ok t /\ abs t = [].
Proof.
  unfold DetectionHashTableNew. destruct (xhash_new HASH_RULE_OPTIONS 0 false true) as [t|] eqn:E; [|done].
  exists t. split; [done|]. by apply (new_table_ok _ _ _ HASH_RULE_OPTIONS 14 t).
Qed.

(** The option that is there already, if an equal one is. *)
Lemma add_detection_option_step t ty o p t' :
  table_ok t -> ty <> RULE_OPTION_TYPE_LEAF_NODE -> add_detection_option t ty o = (p, t') ->
  table_ok t' /\
  match p with
  | Some q => abs t' ≡ₚ abs t /\ any_eqb q o = true /\ exists k, (k, q) ∈ abs t /\ option_type k = ty
  | None => abs t' = (MkKey ty o, o) :: abs t /\
      forall k q, (k, q) ∈ abs t -> option_type k = ty -> any_eqb q o = false
  end.
Proof.
  intros Ht Hty E. destruct (find_or_add_step _ _ option_data option_node_size t (MkKey ty o) p t' Ht E) as [Ht' H].
  split; [done|]. destruct p as [q|].
  - destruct H as (Hp & k & Hin & (Hk & _ & He)%key_compare_spec & ->). split; [done|]. split; [done|by exists k].
  - destruct H as [Ha Hno]. split; [done|]. intros k q Hin Hkt. pose proof (Hno k q Hin) as Hc.
    assert (q = option_data k) as ->
      by (by apply (proj1 (Forall_forall _ _) (ok_data _ _ _ t Ht) (k, q))).
    destruct (any_eqb (option_data k) o) eqn:He; [|done].
    rewrite <- Hc. symmetry. apply key_compare_spec. simpl. by rewrite Hkt.
Qed.

(** ** Adding the options of a rule set *)

Definition add_all (t : option_table) (os : list (option_type_t * AnyOption))
    : list (option AnyOption) * option_table :=
  foldl (fun '(ps, t) '(ty, o) => let '(p, t) := add_detection_option t ty o in (ps ++ [p], t)) ([], t) os.

Lemma add_all_snoc t os ty o :
  add_all t (os ++ [(ty, o)]) =
  (let '(ps, t') := add_all t os in
   let '(p, t'') := add_detection_option t' ty o in (ps ++ [p], t'')).
Proof. unfold add_all. rewrite foldl_snoc. by destruct (foldl _ _ os). Qed.

Record interned (os : list (option_type_t * AnyOption)) (ps : list (option AnyOption))
    (t : option_table) : Prop := {
  in_ok : table_ok t;
  in_len : length ps = length os;
  in_count : length (abs t) = length (filter (fun p => p = None) ps);
  in_from : forall k q, (k, q) ∈ abs t -> exists j, os !! j = Some (option_type k, q) /\ ps !! j = Some None;
  in_cover : forall j ty o, os !! j = Some (ty, o) ->
    exists k q, (k, q) ∈ abs t /\ option_type k = ty /\ any_eqb q o = true }.

(** The answer for an option, given those added before. *)
Definition answer_ok (os : list (option_type_t * AnyOption)) (ps : list (option AnyOption))
    (ty : option_type_t) (o : AnyOption) (p : option AnyOption) : Prop :=
  match p with
  | Some q => any_eqb q o = true /\ exists j, os !! j = Some (ty, q) /\ ps !! j = Some None
  | None => forall j o', os !! j = Some (ty, o') -> any_eqb o' o = false
  end.

Lemma interned_step os ps t ty o p t' :
  interned os ps t -> ty <> RULE_OPTION_TYPE_LEAF_NODE -> add_detection_option t ty o = (p, t') ->
  interned (os ++ [(ty, o)]) (ps ++ [p]) t' /\ answer_ok os ps ty o p.
Proof.
  intros [Ht Hl Hn Hf Hc] Hty E. destruct (add_detection_option_step t ty o p t' Ht Hty E) as [Ht' H].
  assert (forall x, os !! x <> None -> (os ++ [(ty, o)]) !! x = os !! x /\ (ps ++ [p]) !! x = ps !! x) as Hold.
  { intros x Hx. assert (x < length os)%nat by (apply lookup_lt_is_Some_1; by apply not_eq_None_Some).
    by rewrite !lookup_app_l by lia. }
  assert (forall k q, (k, q) ∈ abs t ->
    exists j, (os ++ [(ty, o)]) !! j = Some (option_type k, q) /\ (ps ++ [p]) !! j = Some None) as Hf'.
  { intros k q Hin. destruct (Hf k q Hin) as (j & Ho & Hp). exists j.
    destruct (Hold j) as [-> ->]; [by rewrite Ho|done]. }
  assert (forall (P : Prop) j ty' o', (os ++ [(ty, o)]) !! j = Some (ty', o') ->
    (os !! j = Some (ty', o') -> P) -> (ty' = ty -> o' = o -> P) -> P) as Hcase.
  { intros P j ty' o' Hj H1 H2. apply lookup_app_Some in Hj as [Hj|[_ Hj]]; [auto|].
    apply list_lookup_singleton_Some in Hj as [_ [= <- <-]]. auto. }
  destruct p as [q|].
  - destruct H as (Hp & He & k & Hin & Hk). split; [|split; [done|]].
    + constructor; [done|rewrite !length_app; simpl; lia|by rewrite Hp, filter_app, app_nil_r| |].
      * intros k' q'. rewrite Hp. apply Hf'.
      * intros j ty' o' Hj. apply (Hcase _ _ _ _ Hj).
        -- intros Hj'. destruct (Hc j ty' o' Hj') as (k' & q' & Hin' & ?). exists k', q'. by rewrite Hp.
        -- intros -> ->. exists k, q. by rewrite Hp.
    + destruct (Hf k q Hin) as (j & Ho & Hj). exists j. by rewrite <- Hk.
  - destruct H as [Ha Hno]. split.
    + constructor; [done|rewrite !length_app; simpl; lia|rewrite Ha, filter_app, length_app; simpl; lia| |].
      * intros k q. rewrite Ha, elem_of_cons. intros [[= -> ->]|Hin]; [|by apply Hf'].
        exists (length os). split; apply list_lookup_middle; lia.
      * intros j ty' o' Hj. rewrite Ha. apply (Hcase _ _ _ _ Hj).
        -- intros Hj'. destruct (Hc j ty' o' Hj') as (k & q & Hin & ?). exists k, q. split; [by right|done].
        -- intros -> ->. exists (MkKey ty o), o. split; [by left|]. split; [done|]. apply any_eqb_refl.
    + intros j o' Hj. destruct (Hc j ty o' Hj) as (k & q & Hin & Hk & He).
      destruct (any_eqb o' o) eqn:Heo; [|done]. rewrite <- (Hno k q Hin Hk).
      symmetry. by apply (any_eqb_trans q o' o).
Qed.

Lemma add_all_interned t0 os :
  table_ok t0 -> abs t0 = [] -> Forall (fun e => e.1 <> RULE_OPTION_TYPE_LEAF_NODE) os ->
  exists ps t, add_all t0 os = (ps, t) /\ interned os ps t /\
    forall i ty o p, os !! i = Some (ty, o) -> ps !! i = Some p ->
      answer_ok (take i os) (take i ps) ty o p.
Proof.
  intros H0 Ha. induction os as [|[ty o] os IH] using rev_ind; intros Hty.
  - exists [], t0. split; [done|]. split; [|done].
    constructor; [done|done|by rewrite Ha| |done]. rewrite Ha. by intros k q ?%not_elem_of_nil.
  - apply Forall_app in Hty as [Hos Ho]. inversion Ho as [|? ? Ho' _]. simpl in Ho'.
    destruct (IH Hos) as (ps & t & E & I & Hall). rewrite add_all_snoc, E.
    destruct (add_detection_option t ty o) as [p t'] eqn:Ea.
    destruct (interned_step os ps t ty o p t' I Ho' Ea) as [I' Hans].
    exists (ps ++ [p]), t'. split; [done|]. split; [done|].
    pose proof (in_len _ _ _ I) as Hl. intros i ty' o' p' Hi Hp.
    destruct (decide (i < length os)%nat) as [Hlt|Hge].
    + rewrite !take_app_le by lia. rewrite lookup_app_l in Hi by lia.
      rewrite lookup_app_l in Hp by lia. by apply Hall.
    + assert (i = length os) as -> by (apply lookup_lt_Some in Hi; rewrite length_app in Hi; simpl in Hi; lia).
      rewrite take_app_length, <- Hl, take_app_length.
      rewrite list_lookup_middle in Hi by done. rewrite list_lookup_middle in Hp by done.
      by injection Hi as <- <-; injection Hp as <-.
Qed.

End OptionTable.

(** ** Property *)

(** C35. Every rule option is stored once: when the options of a rule set are
    added to a new table in any order, the answer is null exactly for the
    first of every group of equal options of a type, and for every later one
    it is that first option, so that the rules share it. *)
Theorem options_interned heap os :
  Forall (fun e => e.1 <> RULE_OPTION_TYPE_LEAF_NODE) os ->
  exists t0 ps t, DetectionHashTableNew = Some t0 /\ add_all heap t0 os = (ps, t) /\
    length ps = length os /\ length (abs t) = length (filter (fun p => p = None) ps) /\
    forall i ty o p, os !! i = Some (ty, o) -> ps !! i = Some p ->
      match p with
      | Some q => any_eqb q o = true /\
          exists j, (j < i)%nat /\ os !! j = Some (ty, q) /\ ps !! j = Some None
      | None => forall j o', (j < i)%nat -> os !! j = Some (ty, o') -> any_eqb o' o = false
      end.
Proof.
  intros Hos. destruct (DetectionHashTableNew_ok heap) as (t0 & E0 & H0 & Ha).
  destruct (add_all_interned heap t0 os H0 Ha Hos) as (ps & t & E & I & Hall).
  exists t0, ps, t. split_and!; try done; [apply I|apply I|].
  intros i ty o p Hi Hp. pose proof (Hall i ty o p Hi Hp) as H. destruct p as [q|]; simpl in H.
  - destruct H as (He & j & Ho & Hj). apply lookup_take_Some in Ho as [Ho Hlt].
    apply lookup_take_Some in Hj as [Hj _]. split; [done|]. by exists j.
  - intros j o' Hlt Ho. apply (H j o'). by apply lookup_take_Some.
Qed.

(** Two [isdataat] options with the same configuration, and two content
    options with the same configuration at different addresses. *)
Definition demo_isdataat (n : Z) : AnyOption :=
  OIsDataAt (IsDataAt.MkIsDataAtOption
    (IpsOption_new "pkt_data" "isdataat" RULE_OPTION_TYPE_BUFFER_USE).1 (IsDataAt.MkIsDataAt n 0 (-1))).

Definition demo_heap (p : nat) : ContentOption :=
  MkContentOption (IpsOption_new "pkt_data" "content" RULE_OPTION_TYPE_CONTENT).1 Content.content_begin.

Definition demo_options : list (option_type_t * AnyOption) :=
  [(RULE_OPTION_TYPE_CONTENT, OContent 1); (RULE_OPTION_TYPE_BUFFER_USE, demo_isdataat 4);
   (RULE_OPTION_TYPE_CONTENT, OContent 2); (RULE_OPTION_TYPE_BUFFER_USE, demo_isdataat 4)].

Lemma options_interned_witness :
  exists t0 ps t, DetectionHashTableNew = Some t0 /\ add_all demo_heap t0 demo_options = (ps, t) /\
    length ps = 4%nat /\ length (abs t) = length (filter (fun p => p = None) ps).
Proof.
  destruct (options_interned demo_heap demo_options)
    as (t0 & ps & t & E0 & E & Hl & Hc & _); [by repeat constructor|]. by exists t0, ps, t.
Defined.

Example options_share :
  (fun t0 => (add_all demo_heap t0 demo_options).1) <$> DetectionHashTableNew =
  Some [None; None; None; Some (demo_isdataat 4)].
Proof. vm_compute. reflexivity. Qed.
