(* ===== verification/OptionEval.v ===== *)
(** * OptionEval: evaluation of option trees (detection/detection_options.cc)

    [detection_option_node_evaluate] walks a tree whose inner nodes are rule
    options and whose leaves are rules.  A node that matched is tried again
    from a later position while its relative children have not all matched;
    the state kept in the nodes decides what is evaluated again.

    The state of this packet thread is a [world]: the states of the nodes by
    address, the rule variables, the flags of [detection_option_eval_data_t],
    the calls of [fpAddMatch], and the environment [Env] of the options.
    Profiling counters other than [checks] are not modelled. *)

From S2P Require Import Prelude Cursor Hash Extract.

(** ** Data *)

(** [timeval]: seconds and microseconds. *)
Definition timeval : Type := Z * Z.

(** [dot_node_state_t::last_check]. *)
Record last_check_t := MkLast {
  lc_ts : timeval;
  lc_context_num : Z;
  lc_rebuild_flag : Z;
  lc_run_num : Z;
  lc_result : Z;
  lc_flowbit_failed : bool }.

Record dot_node_state_t := MkState { result : Z; last_check : last_check_t; checks : Z }.

(** [snort_calloc]. *)
Definition zero_last : last_check_t := MkLast (0, 0) 0 0 0 0 false.
Definition zero_state : dot_node_state_t := MkState 0 zero_last 0.

(** [PmdLastCheck]. *)
Record PmdLastCheck := MkPmdLast {
  pl_ts : timeval; pl_context_num : Z; pl_rebuild_flag : Z; pl_run_num : Z }.

(** What [get_pattern (0, RULE_WO_DIR)] gives of a [PatternMatchData]: this
    thread's [last_check], if it has one, and [is_unbounded ()]. *)
Record Pattern := MkPattern { pat_last : option PmdLastCheck; pat_unbounded : bool }.

(** What the evaluator calls of an option: [node->evaluate], [retry],
    [get_pattern] and, for flowbits, [FlowBits_SetOperation].  [Env] is the
    state outside the tree that evaluation may read and change; [None] is
    undefined behaviour. *)
Class IpsOptionApi (Opt Env : Type) := {
  ips_eval : Opt -> ips_vars -> Env -> Cursor -> option (EvalStatus * ips_vars * Env * Cursor);
  ips_retry : Opt -> Cursor -> bool;
  ips_pattern : Opt -> option Pattern;
  FlowBits_SetOperation : Opt -> bool }.

(** [option_data]: a rule under a leaf, an option elsewhere. *)
Inductive data_t (Opt Otn : Type) := DOtn (otn : Otn) | DOpt (opt : Opt).
Arguments DOtn {Opt Otn}.
Arguments DOpt {Opt Otn}.

(** [detection_option_tree_node_t]; [evaluate] is false for a null pointer;
    the node's address stands for its [state]. *)
Inductive node_t (Opt Otn : Type) :=
  MkNode (address : nat) (evaluate : bool) (is_relative : bool) (relative_children : Z)
    (option_data : data_t Opt Otn) (option_type : option_type_t) (children : list (node_t Opt Otn)).
Arguments MkNode {Opt Otn}.

Section Node.
Context {Opt Otn : Type}.
Implicit Types n : node_t Opt Otn.
Definition address n := let '(MkNode a _ _ _ _ _ _) := n in a.
Definition evaluate n := let '(MkNode _ e _ _ _ _ _) := n in e.
Definition is_relative n := let '(MkNode _ _ r _ _ _ _) := n in r.
Definition relative_children n := let '(MkNode _ _ _ k _ _ _) := n in k.
Definition option_data n := let '(MkNode _ _ _ _ d _ _) := n in d.
Definition option_type n := let '(MkNode _ _ _ _ _ t _) := n in t.
Definition children n := let '(MkNode _ _ _ _ _ _ l) := n in l.
Definition num_children n : Z := Zlen (children n).
End Node.

(** The packet's data that the evaluator reads; [rebuilt] is
    [packet_flags & PKT_REBUILT_STREAM]. *)
Record pkt_t := MkPkt {
  pkt_ts : timeval;
  pkt_context_num : Z;
  pkt_rebuilt : Z;
  pkt_allow_multiple : bool;
  pkt_ip_rule_2nd : bool;
  pkt_teredo_gtp : bool;
  pkt_protocol_id : Z }.

Definition UNKNOWN_PROTOCOL_ID : Z := 0.

(** The integer an [EvalStatus] is. *)
Definition status (s : EvalStatus) : Z :=
  match s with NO_MATCH => 0 | MATCH => 1 | NO_ALERT => 2 | FAILED_BIT => 3 end.

(** [calls]: the calls of [fpAddMatch] with pattern size and rule;
    [counted]: the rules whose [matches] counter was incremented. *)
Record world (Otn Env : Type) := MkWorld {
  states : gmap nat dot_node_state_t;
  vars : ips_vars;
  flowbit_failed : bool;
  flowbit_noalert : bool;
  calls : list (Z * Otn);
  counted : list Otn;
  env : Env }.
Arguments MkWorld {Otn Env}.
Arguments states {Otn Env}. Arguments vars {Otn Env}. Arguments flowbit_failed {Otn Env}.
Arguments flowbit_noalert {Otn Env}. Arguments calls {Otn Env}. Arguments counted {Otn Env}. Arguments env {Otn Env}.

Section World.
Context {Otn Env : Type}.
Implicit Types w : world Otn Env.

Definition node_state w (a : nat) : dot_node_state_t := default zero_state (states w !! a).
Definition set_state w a (s : dot_node_state_t) : world Otn Env :=
  MkWorld (<[a := s]> (states w)) (vars w) (flowbit_failed w) (flowbit_noalert w) (calls w) (counted w) (env w).
Definition set_vars w v : world Otn Env :=
  MkWorld (states w) v (flowbit_failed w) (flowbit_noalert w) (calls w) (counted w) (env w).
Definition set_failed w : world Otn Env :=
  MkWorld (states w) (vars w) true (flowbit_noalert w) (calls w) (counted w) (env w).
Definition set_noalert w (b : bool) : world Otn Env :=
  MkWorld (states w) (vars w) (flowbit_failed w) b (calls w) (counted w) (env w).
Definition set_env w e : world Otn Env :=
  MkWorld (states w) (vars w) (flowbit_failed w) (flowbit_noalert w) (calls w) (counted w) e.
Definition count_match w otn : world Otn Env :=
  MkWorld (states w) (vars w) (flowbit_failed w) (flowbit_noalert w) (calls w) (counted w ++ [otn]) (env w).
Definition add_call w size otn : world Otn Env :=
  MkWorld (states w) (vars w) (flowbit_failed w) (flowbit_noalert w) (calls w ++ [(size, otn)]) (counted w) (env w).

Definition set_result w a r : world Otn Env :=
  let s := node_state w a in set_state w a (MkState r (last_check s) (checks s)).
Definition set_last w a l : world Otn Env :=
  let s := node_state w a in set_state w a (MkState (result s) l (checks s)).
(** [state.last_check.result = r]: a [char]. *)
Definition set_last_result w a r : world Otn Env :=
  let l := last_check (node_state w a) in
  set_last w a (MkLast (lc_ts l) (lc_context_num l) (lc_rebuild_flag l) (lc_run_num l) (s8 r) (lc_flowbit_failed l)).
(** [state.last_check.flowbit_failed = 1]. *)
Definition set_last_failed w a : world Otn Env :=
  let l := last_check (node_state w a) in
  set_last w a (MkLast (lc_ts l) (lc_context_num l) (lc_rebuild_flag l) (lc_run_num l) (lc_result l) true).
Definition inc_checks w a : world Otn Env :=
  let s := node_state w a in set_state w a (MkState (result s) (last_check s) (checks s + 1)).
End World.

(** ** Evaluation *)

Section Evaluate.
Context {Opt Otn Env : Type} `{!IpsOptionApi Opt Env}.

(** [p], [get_run_num ()], [pomd->check_ports] and the size of [pmd]. *)
Variable p : pkt_t.
Variable run_num : Z.
Variable pomd_check_ports : Z.
Variable pattern_size : Z.
(** The services of a rule; [fpEvalRTN (rtn, p, check_ports)]; the rule's
    detection filter, when it has one: the result of [detection_filter_test];
    and [PacketLatency::fastpath ()]. *)
Variable services : Otn -> list Z.
Variable fpEvalRTN : Otn -> bool -> bool.
Variable detection_filter : Otn -> option (Env -> bool * Env).
Variable fastpath : Env -> bool * Env.

Abbreviation node := (node_t Opt Otn).
Abbreviation W := (world Otn Env).

(** The result of the last check, when it is valid for this packet. *)
Definition evaluated_before (n : node) (l : last_check_t) : bool :=
  negb (is_relative n) &&
  bool_decide (lc_ts l = pkt_ts p) && (lc_run_num l =? run_num) &&
  (lc_context_num l =? pkt_context_num p) && (lc_rebuild_flag l =? pkt_rebuilt p) &&
  negb (pkt_allow_multiple p) &&
  negb (lc_flowbit_failed l) && negb (pkt_ip_rule_2nd p) && negb (pkt_teredo_gtp p).

(** [state.last_check] before the option is tried; [result] stays. *)
Definition new_last (l : last_check_t) : last_check_t :=
  MkLast (pkt_ts p) (pkt_context_num p) (pkt_rebuilt p) run_num (lc_result l) false.

(** The leaf case: whether the rule matched. *)
Definition eval_leaf (w : W) (otn : Otn) : bool * W :=
  let is_service := existsb (Z.eqb (pkt_protocol_id p)) (services otn) in
  let by_service := negb (pkt_protocol_id p =? UNKNOWN_PROTOCOL_ID) && negb (pomd_check_ports =? 2) in
  let check_ports := negb (by_service && is_service) in
  if by_service && check_ports && negb (bool_decide (services otn = [])) then (false, w)
  else if negb (fpEvalRTN otn check_ports) then (false, w)
  else
    let '(f_result, w) :=
      match detection_filter otn with
      | None => (true, w)
      | Some test => let '(b, e) := test (env w) in (negb b, set_env w e)
      end in
    if negb f_result then (false, w)
    else
      let w := count_match w otn in
      (true, if flowbit_noalert w then w else add_call w pattern_size otn).

(** [node->evaluate (option_data, cursor, p)]. *)
Definition call_eval (w : W) (opt : Opt) (c : Cursor) : option (EvalStatus * W * Cursor) :=
  match ips_eval opt (vars w) (env w) c with
  | None => None
  | Some (s, v, e, c) => Some (s, set_env (set_vars w v) e, c)
  end.

(** [content_last] is of this packet. *)
Definition already_found (l : PmdLastCheck) : bool :=
  bool_decide (pl_ts l = pkt_ts p) && (pl_run_num l =? run_num) &&
  (pl_context_num l =? pkt_context_num p) && (pl_rebuild_flag l =? pkt_rebuilt p).

(** The [switch] on the option's type: [rval], [result] when the case sets it,
    the world and the cursor; [None] where option data and type disagree and
    where evaluation is undefined. *)
Definition eval_option (n : node) (w : W) (c : Cursor) (result : Z)
    : option (EvalStatus * Z * W * Cursor) :=
  let run w opt c :=
    match call_eval w opt c with None => None | Some (s, w, c) => Some (s, result, w, c) end in
  match option_type n, option_data n with
  | RULE_OPTION_TYPE_LEAF_NODE, DOtn otn =>
      let '(ok, w) := eval_leaf w otn in
      Some (if ok then (MATCH, status MATCH, w, c) else (NO_MATCH, result, w, c))
  | RULE_OPTION_TYPE_LEAF_NODE, DOpt _ | _, DOtn _ => None
  | RULE_OPTION_TYPE_CONTENT, DOpt opt =>
      if negb (evaluate n) then Some (NO_MATCH, result, w, c)
      else
        let found :=
          match ips_pattern opt with
          | Some pmd => match pat_last pmd with Some l => already_found l | None => false end
          | None => false
          end in
        if found then Some (NO_MATCH, result, w, c)
        else run w opt c
  | RULE_OPTION_TYPE_FLOWBIT, DOpt opt =>
      if negb (evaluate n) then Some (NO_MATCH, result, w, c)
      else if FlowBits_SetOperation opt then Some (MATCH, result, w, c)
      else run w opt c
  | _, DOpt opt =>
      if negb (evaluate n) then Some (NO_MATCH, result, w, c)
      else run w opt c
  end.

(** [flowbits_setoperation]. *)
Definition is_setoperation (n : node) : bool :=
  match option_type n, option_data n with
  | RULE_OPTION_TYPE_FLOWBIT, DOpt opt => evaluate n && FlowBits_SetOperation opt
  | _, _ => false
  end.

(** The variables' values, saved and set again. *)
Definition save_vars (v : ips_vars) : list Z :=
  map (fun i => default 0 (GetVarValueByIndex v i)) [0; 1; 2].
Definition restore_vars (tmp : list Z) (v : ips_vars) : ips_vars :=
  foldl (fun v j => (SetVarValueByIndex v (rd0 tmp j) j).2) v [0; 1; 2].

(** Whether a child is passed over, with what is added to [result]. *)
Definition skip_child (loop_count : Z) (child : node) (child_result : Z) : option Z :=
  if negb (loop_count >? 0) then None
  else if child_result =? status NO_MATCH then
    match option_type child with
    | RULE_OPTION_TYPE_CONTENT =>
        let once := if loop_count =? 1 then 1 else 0 in
        if negb (is_relative child) then Some once
        else
          match option_data child with
          | DOpt opt =>
              match ips_pattern opt with
              | Some pmd => if pat_unbounded pmd then Some once else None
              | None => None
              end
          | DOtn _ => None
          end
    | _ => None
    end
  else if bool_decide (option_type child = RULE_OPTION_TYPE_LEAF_NODE) then Some 0
  else if child_result =? num_children child then Some 0
  else None.

Section Children.
(** The recursive call and the parent's address. *)
Variable ev : node -> W -> Cursor -> option (Z * W).
Variable parent : nat.

(** The loop over the children: whether the function returned inside it, and
    [result]. *)
Fixpoint eval_children (l : list node) (w : W) (c : Cursor) (tmp : list Z) (loop_count result : Z)
    : option (bool * Z * W) :=
  match l with
  | [] => Some (false, result, w)
  | child :: l =>
      let w := set_vars w (restore_vars tmp (vars w)) in
      match skip_child loop_count child (OptionEval.result (node_state w (address child))) with
      | Some inc => eval_children l w c tmp loop_count (result + inc)
      | None =>
          match ev child w c with
          | None => None
          | Some (r, w) =>
              let w := set_result w (address child) r in
              let result :=
                if bool_decide (option_type child = RULE_OPTION_TYPE_LEAF_NODE) then result + r
                else if r =? num_children child then result + 1 else result in
              let '(stop, e) := fastpath (env w) in
              let w := set_env w e in
              if stop then Some (true, result, set_last_result w parent result)
              else eval_children l w c tmp loop_count result
          end
      end
  end.
End Children.

(** The set operations of flowbits, once the children have matched. *)
Definition finish (n : node) (w : W) (c : Cursor) (result : Z) : option (Z * W) :=
  match option_data n with
  | DOpt opt =>
      if is_setoperation n && (result =? status MATCH) then
        match call_eval w opt c with
        | None => None
        | Some (s, w, _) => Some (if bool_decide (s = MATCH) then result else status s, w)
        end
      else Some (result, w)
  | DOtn _ => Some (result, w)
  end.

(** The loop of the function from the [switch] on; [fuel] bounds the number of
    iterations and [None] is its exhaustion. *)
Fixpoint eval_loop (kids : W -> Cursor -> list Z -> Z -> Z -> option (bool * Z * W)) (n : node)
    (fuel : nat) (w : W) (c : Cursor) (loop_count result : Z) : option (Z * W) :=
  match fuel with
  | O => None
  | S fuel =>
      match eval_option n w c result with
      | None => None
      | Some (NO_MATCH, result, w, _) => Some (result, set_last_result w (address n) result)
      | Some (FAILED_BIT, result, w, _) =>
          Some (0, set_last_result (set_last_failed (set_failed w) (address n)) (address n) result)
      | Some (rval, result, w, c) =>
          let tmp_noalert_flag := flowbit_noalert w in
          let no_alert := bool_decide (rval = NO_ALERT) in
          let w := if no_alert then set_noalert w true else w in
          let tmp := save_vars (vars w) in
          let '(stop, e) := fastpath (env w) in
          let w := set_env w e in
          if stop then Some (result, set_last_result w (address n) result)
          else
            match kids w c tmp loop_count result with
            | None => None
            | Some (true, result, w) => Some (result, w)
            | Some (false, result, w) =>
                let done_ := negb (num_children n =? 0) && (result =? num_children n) in
                let w := if no_alert then set_noalert w tmp_noalert_flag else w in
                let again :=
                  negb done_ && bool_decide (rval = MATCH) && truth (relative_children n) &&
                  match option_data n with DOpt opt => ips_retry opt c | DOtn _ => false end in
                if again then eval_loop kids n fuel (inc_checks w (address n)) c (loop_count + 1) result
                else
                  match finish n w c result with
                  | None => None
                  | Some (result, w) =>
                      let w := if flowbit_failed w then set_last_failed w (address n) else w in
                      Some (result, set_last_result w (address n) result)
                  end
            end
      end
  end.

(** [detection_option_node_evaluate] on a node; the cursor is copied. *)
Fixpoint detection_option_node_evaluate (fuel : nat) (n : node) (w : W) (orig_cursor : Cursor)
    : option (Z * W) :=
  match n with
  | MkNode a _ _ _ _ _ ch =>
      let cursor := cursor_copy orig_cursor in
      let l := last_check (node_state w a) in
      if evaluated_before n l then Some (lc_result l, w)
      else
        let w := set_last w a (new_last l) in
        eval_loop (eval_children (detection_option_node_evaluate fuel) a ch) n fuel w cursor 0 0
  end.

(** [detection_option_tree_evaluate] on the children of a root, unless
    suspended. *)
Fixpoint eval_roots (fuel : nat) (l : list node) (w : W) (c : Cursor) (rval : Z) : option (Z * W) :=
  match l with
  | [] => Some (rval, w)
  | n :: l =>
      match detection_option_node_evaluate fuel n w c with
      | None => None
      | Some (r, w) => eval_roots fuel l w c (rval + r)
      end
  end.
Definition detection_option_tree_evaluate (fuel : nat) (suspended : bool) (root : list node) (w : W) (c : Cursor)
    : option (Z * W) :=
  if suspended then Some (0, w) else eval_roots fuel root w c 0.

End Evaluate.

(** ** What options promise *)

(** The declared variables stay. *)
Definition vars_ok (v : ips_vars) : Prop := vars_wf v.
Definition same_names (v v' : ips_vars) : Prop :=
  variable_names v' = variable_names v /\ extracted_values_cnt v' = extracted_values_cnt v.
Definition keeps (v v' : ips_vars) : Prop := vars_ok v' /\ same_names v v'.

(** Options that satisfy [opt_ok] are defined on cursors over at most [B]
    bytes, keep cursor and variables well formed, and move the search position
    forward when they want to be tried again. *)
Class OptionLaws {Opt Env} `{!IpsOptionApi Opt Env} (opt_ok : Opt -> Prop) (B : Z) : Prop := {
  ips_eval_ok : forall o v e c, opt_ok o -> vars_ok v -> cursor_wf c -> sz c <= B ->
    exists s v' e' c', ips_eval o v e c = Some (s, v', e', c') /\ keeps v v' /\ cursor_wf c' /\ sz c' <= B /\
      (s = MATCH -> ips_retry o c' = true -> sz c' = sz c /\ delta c < delta c');
  ips_set_retry : forall o c, FlowBits_SetOperation o = true -> ips_retry o c = false }.

Lemma keeps_refl v : vars_ok v -> keeps v v.
Proof. done. Qed.

Lemma keeps_trans v1 v2 v3 : keeps v1 v2 -> keeps v2 v3 -> keeps v1 v3.
Proof. intros [_ [E1 E2]] [H [E3 E4]]. split; [done|]. split; congruence. Qed.

Lemma values3 v : vars_ok v -> exists a b d, extracted_values v = [a; b; d].
Proof.
  intros [_ Hv _ _]. unfold NUM_IPS_OPTIONS_VARS, Zlen in Hv.
  destruct (extracted_values v) as [|a [|b [|d [|x l]]]]; simpl in Hv; try lia. by exists a, b, d.
Qed.

(** Setting the saved values again gives the saved variables. *)
Lemma restore_save v v0 : vars_ok v -> vars_ok v0 -> same_names v v0 -> restore_vars (save_vars v) v0 = v.
Proof.
  intros H1 H2 [E1 E2]. destruct (values3 v H1) as (a & b & d & E). destruct (values3 v0 H2) as (a' & b' & d' & E').
  destruct v as [nm vs k], v0 as [nm' vs' k']. simpl in *. by subst.
Qed.

(** ** Induction on nodes *)

Lemma node_induction {Opt Otn} (P : node_t Opt Otn -> Prop) :
  (forall a e r k d t ch, Forall P ch -> P (MkNode a e r k d t ch)) -> forall n, P n.
Proof. intros H. fix IH 1. intros [a e r k d t ch]. apply H. induction ch; constructor; auto. Qed.

(** Option data and type agree, and the options keep their promises. *)
Inductive node_ok {Opt Otn} (opt_ok : Opt -> Prop) : node_t Opt Otn -> Prop :=
| node_ok_leaf a e r k otn : node_ok opt_ok (MkNode a e r k (DOtn otn) RULE_OPTION_TYPE_LEAF_NODE [])
| node_ok_opt a e r k o t ch :
    t <> RULE_OPTION_TYPE_LEAF_NODE -> opt_ok o -> Forall (node_ok opt_ok) ch ->
    node_ok opt_ok (MkNode a e r k (DOpt o) t ch).

Section Facts.
Context {Opt Otn Env : Type} `{!IpsOptionApi Opt Env}.
Variable p : pkt_t.
Variable run_num pomd_check_ports pattern_size : Z.
Variable services : Otn -> list Z.
Variable fpEvalRTN : Otn -> bool -> bool.
Variable detection_filter : Otn -> option (Env -> bool * Env).
Variable fastpath : Env -> bool * Env.

Abbreviation node := (node_t Opt Otn).
Abbreviation W := (world Otn Env).
Abbreviation eval_leaf := (eval_leaf p pomd_check_ports pattern_size services fpEvalRTN detection_filter).
Abbreviation eval_option := (eval_option p run_num pomd_check_ports pattern_size services fpEvalRTN detection_filter).
Abbreviation eval_loop := (eval_loop p run_num pomd_check_ports pattern_size services fpEvalRTN detection_filter fastpath).
Abbreviation eval_node :=
  (detection_option_node_evaluate p run_num pomd_check_ports pattern_size services fpEvalRTN detection_filter fastpath).

(** ** When a rule is reported *)

(** The rule's services and header accept the packet and its filter lets it
    pass. *)
Definition leaf_ok (otn : Otn) : Prop :=
  let by_service := pkt_protocol_id p <> UNKNOWN_PROTOCOL_ID /\ pomd_check_ports <> 2 in
  let is_service := pkt_protocol_id p ∈ services otn in
  (by_service -> services otn = [] \/ is_service) /\
  (exists check_ports, fpEvalRTN otn check_ports = true /\ (check_ports = false <-> by_service /\ is_service)) /\
  match detection_filter otn with None => True | Some test => exists e, (test e).1 = false end.

(** The option of an inner node matches at [c] with variables [v]: evaluation
    gives [v'] and [c']. *)
Definition passes (n : node) (v : ips_vars) (c : Cursor) (v' : ips_vars) (c' : Cursor) : Prop :=
  exists o, option_data n = DOpt o /\ evaluate n = true /\
    if is_setoperation n then v' = v /\ c' = c
    else exists e e', ips_eval o v e c = Some (MATCH, v', e', c').

(** ... or it matches there and, tried again behind, matches in the end at
    [c']; what variables a later try sees is left open. *)
Inductive tried (n : node) : ips_vars -> Cursor -> ips_vars -> Cursor -> Prop :=
| tried_now v c v' c' : passes n v c v' c' -> tried n v c v' c'
| tried_again o v c v1 c1 v2 v' c' :
    passes n v c v1 c1 -> option_data n = DOpt o -> ips_retry o c1 = true ->
    tried n v2 c1 v' c' -> tried n v c v' c'.

(** A chain of nodes from [n] to the rule's leaf, each evaluated where its
    parent left the cursor and with the parent's variables. *)
Inductive justified : node -> ips_vars -> Cursor -> Otn -> Prop :=
| just_leaf a e r k otn ch v c :
    leaf_ok otn -> justified (MkNode a e r k (DOtn otn) RULE_OPTION_TYPE_LEAF_NODE ch) v c otn
| just_child n v c v' c' child otn :
    option_type n <> RULE_OPTION_TYPE_LEAF_NODE ->
    tried n v (cursor_copy c) v' c' -> child ∈ children n -> justified child v' c' otn -> justified n v c otn.

(** ** Worlds that differ by reported rules *)

(** [w'] reports in addition only rules in [P], and none where alerts are
    off. *)
Definition adds (P : Otn -> Prop) (w w' : W) : Prop :=
  keeps (vars w) (vars w') /\
  exists new, calls w' = calls w ++ new /\ Forall (fun x => x.1 = pattern_size /\ P x.2) new /\
    (flowbit_noalert w = true -> new = [] /\ flowbit_noalert w' = true).

Lemma adds_same P w w' :
  keeps (vars w) (vars w') -> calls w' = calls w -> flowbit_noalert w' = flowbit_noalert w -> adds P w w'.
Proof. intros Hk Hc Hn. split; [done|]. exists []. rewrite app_nil_r. split_and!; [done..|]. by rewrite Hn. Qed.

Lemma adds_trans P w1 w2 w3 : adds P w1 w2 -> adds P w2 w3 -> adds P w1 w3.
Proof.
  intros (K1 & l1 & E1 & F1 & N1) (K2 & l2 & E2 & F2 & N2). split; [by eapply keeps_trans|].
  exists (l1 ++ l2). split_and!; [by rewrite E2, E1, app_assoc|by apply Forall_app|].
  intros H. destruct (N1 H) as [-> H2]. by destruct (N2 H2) as [-> ?].
Qed.

Lemma adds_mono (P Q : Otn -> Prop) w w' : (forall o, P o -> Q o) -> adds P w w' -> adds Q w w'.
Proof.
  intros HPQ (K & l & E & F & N). split; [done|]. exists l. split_and!; [done| |done].
  eapply Forall_impl; [exact F|]. intros x [? ?]. auto.
Qed.

(** A step before or behind that leaves variables, calls and flag. *)
Lemma adds_after P w w1 w2 :
  adds P w w1 -> vars w2 = vars w1 -> calls w2 = calls w1 -> flowbit_noalert w2 = flowbit_noalert w1 -> adds P w w2.
Proof.
  intros H Hv Hc Hn. eapply adds_trans; [exact H|]. apply adds_same; [|done..]. rewrite Hv. apply keeps_refl, H.
Qed.

Lemma eval_leaf_adds w otn ok w' :
  vars_ok (vars w) -> eval_leaf w otn = (ok, w') -> adds (fun o => o = otn /\ leaf_ok otn) w w'.
Proof.
  intros Hv. unfold eval_leaf.
  set (svc := existsb _ _). set (by_svc := negb (pkt_protocol_id p =? _) && _).
  assert (forall w', vars w' = vars w -> calls w' = calls w -> flowbit_noalert w' = flowbit_noalert w ->
    adds (fun o => o = otn /\ leaf_ok otn) w w') as Hsame by (intros w0 E1 E2 E3; apply adds_same; [by rewrite E1|done..]).
  destruct (by_svc && negb (by_svc && svc) && negb (bool_decide (services otn = []))) eqn:E1; [by intros [= <- <-]; apply Hsame|].
  destruct (fpEvalRTN otn (negb (by_svc && svc))) eqn:E2; simpl; [|by intros [= <- <-]; apply Hsame].
  assert (match detection_filter otn with None => True | Some test => exists e, (test e).1 = false end -> leaf_ok otn) as Hok.
  { intros Hf. 
    assert (by_svc = true <-> pkt_protocol_id p <> UNKNOWN_PROTOCOL_ID /\ pomd_check_ports <> 2) as Hby
      by (subst by_svc; rewrite andb_true_iff, !negb_true_iff, !Z.eqb_neq; done).
    assert (svc = true <-> pkt_protocol_id p ∈ services otn) as Hsvc.
    { subst svc. rewrite existsb_exists, list_elem_of_In. split; [intros (x & Hx & ->%Z.eqb_eq); done|].
      intros Hx. exists (pkt_protocol_id p). split; [done|apply Z.eqb_refl]. }
    unfold leaf_ok. split_and!; [| |done].
    - intros Hb%Hby. rewrite Hb in E1. simpl in E1. destruct svc; [right; by apply Hsvc|]. simpl in E1.
      left. by apply negb_false_iff, bool_decide_eq_true in E1.
    - exists (negb (by_svc && svc)). split; [done|]. rewrite negb_false_iff, andb_true_iff, Hby, Hsvc. done. }
  destruct (match detection_filter otn with
      | None => (true, w) | Some test => let '(b, e) := test (env w) in (negb b, set_env w e) end) as [f w1] eqn:E3.
  assert (vars w1 = vars w /\ calls w1 = calls w /\ flowbit_noalert w1 = flowbit_noalert w /\ (f = true -> leaf_ok otn)) as (V & C & N & Hl).
  { destruct (detection_filter otn) as [test|]; [|injection E3 as <- <-; auto].
    destruct (test (env w)) as [b e] eqn:Et. injection E3 as <- <-. split_and!; [done..|].
    intros Hb%negb_true_iff. apply Hok. exists (env w). by rewrite Et. }
  destruct f; simpl; intros [= <- <-]; [|by apply Hsame].
  destruct (flowbit_noalert w1) eqn:En; [by apply Hsame; [..|rewrite <- N]|].
  split; [simpl; by rewrite V|]. exists [(pattern_size, otn)]. simpl. rewrite C.
  split_and!; [done| |congruence]. apply Forall_singleton. simpl. auto.
Qed.

Section Laws.
Context (opt_ok : Opt -> Prop) (B : Z) `{!OptionLaws opt_ok B}.

Definition step_ok (n : node) (w : W) (c : Cursor) (s : EvalStatus) (w' : W) (c' : Cursor) : Prop :=
  cursor_wf c' /\ sz c' <= B /\
  match option_data n with
  | DOtn otn => (s = MATCH \/ s = NO_MATCH) /\ adds (fun o => o = otn /\ leaf_ok otn) w w'
  | DOpt o =>
      keeps (vars w) (vars w') /\ calls w' = calls w /\ flowbit_noalert w' = flowbit_noalert w /\
      (s = MATCH -> passes n (vars w) c (vars w') c' /\ (ips_retry o c' = true -> sz c' = sz c /\ delta c < delta c'))
  end.

Lemma call_eval_ok w o c :
  opt_ok o -> vars_ok (vars w) -> cursor_wf c -> sz c <= B ->
  exists s w' c' e, call_eval (Otn := Otn) w o c = Some (s, w', c') /\ cursor_wf c' /\ sz c' <= B /\
    ips_eval o (vars w) (env w) c = Some (s, vars w', e, c') /\
    keeps (vars w) (vars w') /\ calls w' = calls w /\ flowbit_noalert w' = flowbit_noalert w /\
    (s = MATCH -> ips_retry o c' = true -> sz c' = sz c /\ delta c < delta c').
Proof.
  intros Ho Hv Hc Hs. destruct (ips_eval_ok o (vars w) (env w) c Ho Hv Hc Hs) as (s & v & e & c' & E & Hk & Hc' & Hs' & Hr).
  unfold call_eval. rewrite E. by eexists _, _, _, e.
Qed.

(** The [switch] is defined and its result is accounted for. *)
Lemma eval_option_ok n w c r :
  node_ok opt_ok n -> vars_ok (vars w) -> cursor_wf c -> sz c <= B ->
  exists s r' w' c', eval_option n w c r = Some (s, r', w', c') /\ step_ok n w c s w' c'.
Proof.
  intros Hn Hv Hc Hs. unfold eval_option, step_ok. destruct Hn as [a e rl k otn|a e rl k o t ch Ht Ho Hch]; simpl.
  - destruct (eval_leaf w otn) as [ok w'] eqn:E. apply eval_leaf_adds in E; [|done].
    destruct ok; eexists _, _, _, _; (split; [done|]); auto.
  - set (n := MkNode _ _ _ _ _ _ _). 
    assert (forall r : Z, exists s r' w' c',
      Some (NO_MATCH, r, w, c) = Some (s, r', w', c') /\ cursor_wf c' /\ sz c' <= B /\
      keeps (vars w) (vars w') /\ calls w' = calls w /\ flowbit_noalert w' = flowbit_noalert w /\
      (s = MATCH -> passes n (vars w) c (vars w') c' /\ (ips_retry o c' = true -> sz c' = sz c /\ delta c < delta c'))) as Hno
      by (intros; eexists _, _, _, _; by split).
    assert (e = true -> is_setoperation n = false -> exists s r' w' c',
      match call_eval w o c with None => None | Some (s, w, c) => Some (s, r, w, c) end = Some (s, r', w', c') /\
      cursor_wf c' /\ sz c' <= B /\
      keeps (vars w) (vars w') /\ calls w' = calls w /\ flowbit_noalert w' = flowbit_noalert w /\
      (s = MATCH -> passes n (vars w) c (vars w') c' /\ (ips_retry o c' = true -> sz c' = sz c /\ delta c < delta c'))) as Hrun.
    { intros He Hset. destruct (call_eval_ok w o c Ho Hv Hc Hs) as (s & w' & c' & e' & -> & ? & ? & Ev & ? & ? & ? & Hr).
      eexists _, _, _, _. split; [done|]. split_and!; try done. intros ->. split; [|by apply Hr].
      exists o. split_and!; [done|done|]. rewrite Hset. by eexists _, _. }
    destruct t; try done; destruct e; try exact (Hno r); try exact (Hrun eq_refl eq_refl); simpl.
    + destruct (match ips_pattern o with Some pmd => _ | None => false end); [exact (Hno r)|exact (Hrun eq_refl eq_refl)].
    + destruct (FlowBits_SetOperation o) eqn:Ef.
      * eexists _, _, _, _. split; [done|]. split_and!; try done. intros _. split; [|by rewrite (ips_set_retry o c Ef)].
        exists o. split_and!; [done|done|]. unfold is_setoperation. simpl. by rewrite Ef.
      * apply Hrun; [done|]. unfold is_setoperation. simpl. by rewrite Ef.
Qed.

(** The recursive call at a child: defined, and every rule it reports is
    justified there. *)
Definition child_ok (ev : node -> W -> Cursor -> option (Z * W)) (n : node) : Prop :=
  forall w c, vars_ok (vars w) -> cursor_wf c -> sz c <= B ->
  exists r w', ev n w c = Some (r, w') /\ adds (justified n (vars w) c) w w'.

Lemma eval_children_ok ev parent l :
  Forall (child_ok ev) l -> forall w c v k r,
  vars_ok v -> keeps v (vars w) -> cursor_wf c -> sz c <= B ->
  exists b r' w', eval_children fastpath ev parent l w c (save_vars v) k r = Some (b, r', w') /\
    adds (fun o => exists ch, ch ∈ l /\ justified ch v c o) w w'.
Proof.
  induction 1 as [|n l Hn Hl IH]; intros w c v k r Hv Hk Hc Hs; simpl.
  - eexists _, _, _. split; [done|]. apply adds_same; [apply keeps_refl, Hk|done..].
  - rewrite restore_save by (done || apply Hk). set (w1 := set_vars w v).
    assert (forall P, adds P w w1) as H1.
    { intros P. apply adds_same; [|done..]. split; [done|]. destruct Hk as [_ [E1 E2]]. by split. }
    assert (forall w2 k r, keeps v (vars w2) -> exists b r' w',
      eval_children fastpath ev parent l w2 c (save_vars v) k r = Some (b, r', w') /\
      adds (fun o => exists ch, ch ∈ n :: l /\ justified ch v c o) w2 w') as IH'.
    { intros w2 k2 r2 Hk2. destruct (IH w2 c v k2 r2 Hv Hk2 Hc Hs) as (b & r' & w' & -> & Ha).
      eexists _, _, _. split; [done|]. eapply adds_mono; [|exact Ha]. intros o (ch & Hch & Hj).
      exists ch. split; [by right|done]. }
    destruct (skip_child _ _ _) as [inc|].
    + destruct (IH' w1 k (r + inc)) as (b & r' & w' & -> & Ha); [done|].
      eexists _, _, _. split; [done|]. by eapply adds_trans.
    + destruct (Hn w1 c Hv Hc Hs) as (r1 & w2 & -> & Ha).
      assert (adds (fun o => exists ch, ch ∈ n :: l /\ justified ch v c o) w w2) as Ha2.
      { eapply adds_trans; [apply H1|]. eapply adds_mono; [|exact Ha]. intros o Hj. exists n. split; [by left|done]. }
      set (r2 := if bool_decide _ then _ else _).
      destruct (fastpath _) as [stop e]. destruct stop.
      * eexists _, _, _. split; [done|]. by eapply adds_after.
      * edestruct IH' as (b & r' & w' & -> & Ha3); [|eexists _, _, _; split; [done|]].
        -- destruct Ha as [Hk2 _]. exact Hk2.
        -- eapply adds_trans; [|exact Ha3]. by eapply adds_after.
Qed.

(** What an iteration of the loop that starts at [c] may report. *)
Definition reports (n : node) (v : ips_vars) (c : Cursor) (otn : Otn) : Prop :=
  (option_data n = DOtn otn /\ option_type n = RULE_OPTION_TYPE_LEAF_NODE /\ leaf_ok otn) \/
  (option_type n <> RULE_OPTION_TYPE_LEAF_NODE /\ exists v' c' ch,
    tried n v c v' c' /\ ch ∈ children n /\ justified ch v' c' otn).

Lemma node_ok_type (n : node) : node_ok opt_ok n ->
  match option_data n with
  | DOtn _ => option_type n = RULE_OPTION_TYPE_LEAF_NODE /\ children n = []
  | DOpt o => option_type n <> RULE_OPTION_TYPE_LEAF_NODE /\ opt_ok o
  end.
Proof. by destruct 1. Qed.

Lemma step_adds n w c s w' c' :
  node_ok opt_ok n -> step_ok n w c s w' c' -> adds (reports n (vars w) c) w w'.
Proof.
  intros Hn%node_ok_type (_ & _ & H). destruct (option_data n) as [otn|o] eqn:E.
  - destruct H as [_ H]. eapply adds_mono; [|exact H]. intros o [-> Hl]. left. by destruct Hn.
  - destruct H as (Hk & Hc & Hf & _). by apply adds_same.
Qed.

(** Alerts switched off around the children and on again. *)
Lemma adds_noalert P Q w w1 (b : bool) :
  adds P (set_noalert w true) w1 -> (b = flowbit_noalert w \/ b = true) -> adds Q w (set_noalert w1 b).
Proof.
  intros (Hk & new & E & _ & Hn) Hb. destruct (Hn eq_refl) as [-> Hn1]. split; [done|].
  exists []. simpl in E |- *. rewrite E. split_and!; [done..|]. intros Hw. destruct Hb as [-> | ->]; by rewrite ?Hw.
Qed.

Lemma set_noalert_id (w : W) : flowbit_noalert w = true -> set_noalert w true = w.
Proof. destruct w. simpl. by intros ->. Qed.

Lemma finish_ok n w c r :
  node_ok opt_ok n -> vars_ok (vars w) -> cursor_wf c -> sz c <= B ->
  exists r' w', finish n w c r = Some (r', w') /\ forall P, adds P w w'.
Proof.
  intros Hn%node_ok_type Hv Hc Hs. unfold finish.
  assert (forall P, adds P w w) as Hrefl by (intros P; by apply adds_same).
  destruct (option_data n) as [otn|o]; [by eexists _, _|]. destruct (_ && _); [|by eexists _, _].
  destruct (call_eval_ok w o c (proj2 Hn) Hv Hc Hs) as (s & w' & c' & e & -> & _ & _ & _ & Hk & Hca & Hf & _).
  eexists _, _. split; [done|]. intros P. by apply adds_same.
Qed.

Section Loop.
Variable kids : W -> Cursor -> list Z -> Z -> Z -> option (bool * Z * W).
Variable n : node.
Hypothesis Hn : node_ok opt_ok n.
Hypothesis Hkids : forall w c v k r, vars_ok v -> keeps v (vars w) -> cursor_wf c -> sz c <= B ->
  exists b r' w', kids w c (save_vars v) k r = Some (b, r', w') /\
    adds (fun o => exists ch, ch ∈ children n /\ justified ch v c o) w w'.

(** The children of a node whose option gave [s]. *)
Lemma kids_step w c s w1 c1 e k r :
  vars_ok (vars w) -> step_ok n w c s w1 c1 -> s = MATCH \/ s = NO_ALERT ->
  let w2 := set_env (if bool_decide (s = NO_ALERT) then set_noalert w1 true else w1) e in
  exists b r' w3, kids w2 c1 (save_vars (vars (if bool_decide (s = NO_ALERT) then set_noalert w1 true else w1))) k r
      = Some (b, r', w3) /\
    adds (reports n (vars w) c) w w3 /\
    adds (reports n (vars w) c) w (if bool_decide (s = NO_ALERT) then set_noalert w3 (flowbit_noalert w1) else w3).
Proof.
  intros Hv Hst Hs w2. pose proof (step_adds n w c s w1 c1 Hn Hst) as Ha. destruct Hst as (Hc1 & Hs1 & Hst).
  assert (vars_ok (vars w1)) as Hv1 by apply Ha.
  replace (vars (if bool_decide (s = NO_ALERT) then set_noalert w1 true else w1)) with (vars w1) by (by destruct (bool_decide _)).
  destruct (Hkids w2 c1 (vars w1) k r) as (b & r' & w3 & -> & Hk); [done| |done..|].
  { subst w2. simpl. by destruct (bool_decide _); apply keeps_refl. }
  exists b, r', w3. split; [done|]. destruct Hs as [-> | ->].
  - rewrite bool_decide_false in * by done.
    assert (adds (reports n (vars w) c) w w3); [|done]. eapply adds_trans; [exact Ha|].
    eapply adds_mono; [|exact Hk]. intros o (ch & Hch & Hj). apply node_ok_type in Hn as Ht.
    destruct (option_data n) as [otn|op] eqn:Ed; [destruct Ht as [_ E]; rewrite E in Hch; by apply elem_of_nil in Hch|].
    destruct Hst as (_ & _ & _ & Hp). destruct (Hp eq_refl) as [Hp' _]. right. split; [apply Ht|].
    exists (vars w1), c1, ch. split_and!; [by constructor|done..].
  - rewrite bool_decide_true in * by done. 
    assert (adds (fun o => exists ch, ch ∈ children n /\ justified ch (vars w1) c1 o) (set_noalert w1 true) w3) as Hk' by exact Hk.
    assert (flowbit_noalert w3 = true) as Hf by (destruct Hk' as (_ & ? & _ & _ & H); by apply H).
    split; (eapply adds_trans; [exact Ha|]).
    + rewrite <- (set_noalert_id w3 Hf). eapply adds_noalert; [exact Hk'|by right].
    + eapply adds_noalert; [exact Hk'|by left].
Qed.

(** The measure of the loop: how far the search can still move. *)
Lemma eval_loop_ok fuel : forall w c k r,
  vars_ok (vars w) -> cursor_wf c -> sz c <= B -> sz c - delta c < Z.of_nat fuel ->
  exists r' w', eval_loop kids n fuel w c k r = Some (r', w') /\ adds (reports n (vars w) c) w w'.
Proof.
  induction fuel as [|fuel IH]; intros w c k r Hv Hc Hs Hf; [destruct Hc; lia|]. simpl.
  destruct (eval_option_ok n w c r Hn Hv Hc Hs) as (s & r1 & w1 & c1 & -> & Hst).
  pose proof (step_adds n w c s w1 c1 Hn Hst) as Ha.
  assert (forall k r (Hs' : s = MATCH \/ s = NO_ALERT), exists r' w',
    (let no_alert := bool_decide (s = NO_ALERT) in
     let w := if no_alert then set_noalert w1 true else w1 in
     let tmp := save_vars (vars w) in
     let '(stop, e) := fastpath (env w) in
     let w := set_env w e in
     if stop then Some (r, set_last_result w (address n) r)
     else match kids w c1 tmp k r with
       | None => None
       | Some (true, result, w) => Some (result, w)
       | Some (false, result, w) =>
           let done_ := negb (num_children n =? 0) && (result =? num_children n) in
           let w := if no_alert then set_noalert w (flowbit_noalert w1) else w in
           let again :=
             negb done_ && bool_decide (s = MATCH) && truth (relative_children n) &&
             match option_data n with DOpt opt => ips_retry opt c1 | DOtn _ => false end in
           if again then eval_loop kids n fuel (inc_checks w (address n)) c1 (k + 1) result
           else match finish n w c1 result with
             | None => None
             | Some (result, w) =>
                 let w := if flowbit_failed w then set_last_failed w (address n) else w in
                 Some (result, set_last_result w (address n) result)
             end
       end) = Some (r', w') /\ adds (reports n (vars w) c) w w') as Hgo.
  { intros k' r' Hs'. cbv zeta. set (w2 := if bool_decide (s = NO_ALERT) then set_noalert w1 true else w1).
    assert (adds (reports n (vars w) c) w w2) as Ha2.
    { subst w2. destruct (bool_decide (s = NO_ALERT)); [|done]. eapply adds_trans; [exact Ha|].
      split; [apply keeps_refl, Ha|]. exists []. simpl. by rewrite app_nil_r. }
    destruct (fastpath (env w2)) as [stop e].
    destruct stop; [eexists _, _; split; [done|]; by eapply adds_after|].
    destruct (kids_step w c s w1 c1 e k' r' Hv Hst Hs') as (b & r3 & w3 & Ek & A3 & A3'). fold w2 in Ek. rewrite Ek.
    destruct b; [by eexists _, _|]. set (w4 := if bool_decide (s = NO_ALERT) then set_noalert w3 _ else w3) in *.
    assert (vars_ok (vars w4)) as Hv4 by apply A3'. destruct Hst as (Hc1 & Hs1 & Hst).
    destruct (negb _ && _ && _ && _) eqn:Eg.
    - apply andb_true_iff in Eg as [[[_ Em]%andb_true_iff _]%andb_true_iff Er].
      apply bool_decide_eq_true in Em. apply node_ok_type in Hn as Ht. destruct (option_data n) as [otn|o] eqn:Ed; [done|].
      destruct Hst as (_ & _ & _ & Hp). destruct (Hp Em) as [Hpass Hprog]. destruct (Hprog Er) as [Hsz Hdel].
      destruct (IH (inc_checks w4 (address n)) c1 (k' + 1) r3 Hv4 Hc1 Hs1) as (r5 & w5 & -> & A5); [lia|].
      eexists _, _. split; [done|]. eapply adds_trans; [exact A3'|].
      eapply adds_mono; [|eapply adds_trans; [|exact A5]; by apply adds_same].
      intros ot [(Hx & _)|(Ht' & v' & c' & ch & Htr & Hch & Hj)]; [by rewrite Ed in Hx|]. right. split; [done|].
      exists v', c', ch. split_and!; [|done..]. by eapply tried_again.
    - destruct (finish_ok n w4 c1 r3 Hn Hv4 Hc1 Hs1) as (r5 & w5 & -> & A5).
      eexists _, _. split; [done|]. assert (adds (reports n (vars w) c) w w5) as A6 by (eapply adds_trans; [exact A3'|apply A5]).
      destruct (flowbit_failed w5); by eapply adds_after. }
  destruct s; [eexists _, _; split; [done|]; by eapply adds_after|apply (Hgo k r1); by left|apply (Hgo k r1); by right|].
  eexists _, _. split; [done|]. by eapply adds_after.
Qed.
End Loop.

(** Enough iterations for any cursor over at most [B] bytes. *)
Definition enough (fuel : nat) : Prop := B < Z.of_nat fuel.

Lemma eval_node_ok fuel n : enough fuel -> node_ok opt_ok n -> child_ok (eval_node fuel) n.
Proof.
  intros Hf. induction n as [a e rl k d t ch IH] using node_induction. intros Hn w c Hv Hc Hs. simpl.
  destruct (evaluated_before _ _ _); [eexists _, _; split; [done|]; by apply adds_same|].
  set (n := MkNode _ _ _ _ _ _ _) in *.
  assert (Forall (child_ok (eval_node fuel)) ch) as Hch.
  { assert (Forall (node_ok opt_ok) ch) as Hok by (by inv Hn). rewrite Forall_forall in IH, Hok |- *. auto. }
  set (w1 := set_last w a _).
  destruct (eval_loop_ok (eval_children fastpath (eval_node fuel) a ch) n Hn) with (fuel := fuel) (w := w1)
    (c := cursor_copy c) (k := 0) (r := 0) as (r' & w' & E & Ha); [|done|by apply cursor_copy_wf|done| |].
  - intros w2 c2 v2 k2 r2 Hv2 Hk2 Hc2 Hs2. by apply eval_children_ok.
  - unfold enough in Hf. simpl. lia.
  - exists r', w'. split; [exact E|].
    assert (adds (justified n (vars w) c) w w1) as H1 by (by apply adds_same).
    eapply adds_trans; [exact H1|]. eapply adds_mono; [|exact Ha].
    intros otn [(Hd & Ht & Hl)|(Ht & v' & c' & x & Htr & Hx & Hj)].
    + subst n. simpl in Hd, Ht. subst. by constructor.
    + by eapply just_child.
Qed.
End Laws.

(** ** Which states change *)

Fixpoint addresses (n : node) : list nat :=
  match n with MkNode a _ _ _ _ _ ch => a :: flat_map addresses ch end.

Definition frame (l : list nat) (w w' : W) : Prop := forall a, a ∉ l -> node_state w' a = node_state w a.

Lemma frame_refl l w : frame l w w.
Proof. by intros a _. Qed.

Lemma frame_trans l w1 w2 w3 : frame l w1 w2 -> frame l w2 w3 -> frame l w1 w3.
Proof. intros H1 H2 a Ha. by rewrite H2, H1. Qed.

Lemma frame_mono l k w w' : l ⊆ k -> frame l w w' -> frame k w w'.
Proof. intros Hs H a Ha. apply H. by intros ?%Hs. Qed.

(** A world with the same states, and one where the state at [a] is set. *)
Lemma frame_states l w w' : states w' = states w -> frame l w w'.
Proof. intros E a _. unfold node_state. by rewrite E. Qed.

Lemma node_state_set (w : W) a s : node_state (set_state w a s) a = s.
Proof. unfold node_state. simpl. by rewrite lookup_insert_eq. Qed.

Lemma frame_set l w a s : a ∈ l -> frame l w (set_state w a s).
Proof. intros Ha b Hb. unfold node_state. simpl. by rewrite lookup_insert_ne by (by intros ->). Qed.

Lemma frame_set_result l w a r : a ∈ l -> frame l w (set_result w a r).
Proof. apply frame_set. Qed.
Lemma frame_set_last l w a x : a ∈ l -> frame l w (set_last w a x).
Proof. apply frame_set. Qed.
Lemma frame_set_last_result l w a r : a ∈ l -> frame l w (set_last_result w a r).
Proof. apply frame_set. Qed.
Lemma frame_set_last_failed l w a : a ∈ l -> frame l w (set_last_failed w a).
Proof. apply frame_set. Qed.
Lemma frame_inc_checks l w a : a ∈ l -> frame l w (inc_checks w a).
Proof. apply frame_set. Qed.

Lemma call_eval_states w (o : Opt) c s w' c' : call_eval (Otn := Otn) w o c = Some (s, w', c') ->
  states w' = states w /\ calls w' = calls w /\ flowbit_failed w' = flowbit_failed w /\ flowbit_noalert w' = flowbit_noalert w.
Proof. unfold call_eval. destruct (ips_eval _ _ _ _) as [[[[? ?] ?] ?]|]; [|done]. by intros [= <- <- <-]. Qed.

Lemma eval_leaf_states w otn ok w' : eval_leaf w otn = (ok, w') ->
  states w' = states w /\ flowbit_failed w' = flowbit_failed w /\ flowbit_noalert w' = flowbit_noalert w.
Proof.
  unfold eval_leaf. destruct (_ && _ && _); [by intros [= <- <-]|]. destruct (negb _); [by intros [= <- <-]|].
  destruct (detection_filter otn) as [t|]; [destruct (t (env w)) as [b e]|].
  - destruct (negb (negb b)); intros [= <- <-]; [done|]. by destruct (flowbit_noalert _) eqn:?.
  - simpl. intros [= <- <-]. by destruct (flowbit_noalert _) eqn:?.
Qed.

Lemma eval_option_states n w c r s r' w' c' : eval_option n w c r = Some (s, r', w', c') ->
  states w' = states w /\ flowbit_failed w' = flowbit_failed w /\ flowbit_noalert w' = flowbit_noalert w.
Proof.
  unfold eval_option. intros H.
  destruct (option_type n), (option_data n) as [otn|o]; try done.
  1: { destruct (eval_leaf w otn) as [ok w1] eqn:E. apply eval_leaf_states in E. by destruct ok; injection H as <- <- <- <-. }
  all: repeat match goal with
  | H : (if ?b then _ else _) = Some _ |- _ => destruct b
  | H : Some _ = Some _ |- _ => injection H as <- <- <- <-; done
  | H : match call_eval ?w ?o ?c with _ => _ end = _ |- _ => destruct (call_eval w o c) as [[[? ?] ?]|] eqn:E; [|done];
      apply call_eval_states in E as (? & ? & ? & ?)
  end; done.
Qed.

Lemma finish_states (n : node) (w : W) c r r' w' : finish n w c r = Some (r', w') ->
  states w' = states w /\ calls w' = calls w /\ flowbit_failed w' = flowbit_failed w /\ flowbit_noalert w' = flowbit_noalert w.
Proof.
  unfold finish. destruct (option_data n); [by intros [= <- <-]|]. destruct (_ && _); [|by intros [= <- <-]].
  destruct (call_eval _ _ _) as [[[? ?] ?]|] eqn:E; [|done]. intros [= <- <-]. by eapply call_eval_states.
Qed.

(** ** The loop as a sequence of steps *)

(** [R] holds from the start of an evaluation to its end if every step keeps
    it: the induction that the facts below share. *)
Section Steps.
Variable R : W -> W -> Prop.
Variable n : node.
Variable kids : W -> Cursor -> list Z -> Z -> Z -> option (bool * Z * W).
Hypothesis R_trans : forall w1 w2 w3, R w1 w2 -> R w2 w3 -> R w1 w3.
Hypothesis R_states : forall w w',
  states w' = states w -> (flowbit_failed w = true -> flowbit_failed w' = true) -> R w w'.
Hypothesis R_last : forall w r, R w (set_last_result w (address n) r).
Hypothesis R_failed : forall w, flowbit_failed w = true -> R w (set_last_failed w (address n)).
Hypothesis R_checks : forall w, R w (inc_checks w (address n)).
Hypothesis R_kids : forall w c tmp k r b r' w', kids w c tmp k r = Some (b, r', w') -> R w w'.

Lemma eval_loop_steps fuel : forall w c k r r' w', eval_loop kids n fuel w c k r = Some (r', w') -> R w w'.
Proof.
  induction fuel as [|fuel IH]; intros w c k r r' w'; [done|]. simpl.
  destruct (eval_option n w c r) as [[[[s r1] w1] c1]|] eqn:Eo; [|done].
  apply eval_option_states in Eo as (Es & Ef & En).
  assert (R w w1) as H1 by (apply R_states; [done|by rewrite Ef]).
  assert (forall s b, (let no_alert := bool_decide (s = NO_ALERT) in
     let w := if no_alert then set_noalert w1 true else w1 in
     let tmp := save_vars (vars w) in
     let '(stop, e) := fastpath (env w) in
     let w := set_env w e in
     if stop then Some (r1, set_last_result w (address n) r1)
     else match kids w c1 tmp k r1 with
       | None => None
       | Some (true, result, w) => Some (result, w)
       | Some (false, result, w) =>
           let done_ := negb (num_children n =? 0) && (result =? num_children n) in
           let w := if no_alert then set_noalert w (flowbit_noalert w1) else w in
           let again := negb done_ && b && truth (relative_children n) &&
             match option_data n with DOpt opt => ips_retry opt c1 | DOtn _ => false end in
           if again then eval_loop kids n fuel (inc_checks w (address n)) c1 (k + 1) result
           else match finish n w c1 result with
             | None => None
             | Some (result, w) =>
                 let w := if flowbit_failed w then set_last_failed w (address n) else w in
                 Some (result, set_last_result w (address n) result)
             end
       end) = Some (r', w') -> R w w') as Hgo.
  { intros s' b'. cbv zeta. set (w2 := if bool_decide (s' = NO_ALERT) then set_noalert w1 true else w1).
    assert (R w w2) as H2.
    { eapply R_trans; [exact H1|]. apply R_states; subst w2; by destruct (bool_decide (s' = NO_ALERT)). }
    destruct (fastpath (env w2)) as [stop e]. set (w3 := set_env w2 e).
    assert (R w w3) as H3 by (eapply R_trans; [exact H2|by apply R_states]). clearbody w3.
    destruct stop; [intros [= <- <-]; by eapply R_trans|].
    destruct (kids w3 c1 _ k r1) as [[[b r4] w4]|] eqn:Ek; [|done]. apply R_kids in Ek.
    assert (R w w4) as H4 by (by eapply R_trans).
    destruct b; [by intros [= <- <-]|].
    set (w5 := if bool_decide (s' = NO_ALERT) then set_noalert w4 _ else w4).
    assert (R w w5) as H5.
    { eapply R_trans; [exact H4|]. apply R_states; subst w5; by destruct (bool_decide (s' = NO_ALERT)). }
    clearbody w5. destruct (negb _ && _ && _ && _).
    - intros E%IH. eapply R_trans; [exact H5|]. by eapply R_trans; [apply R_checks|].
    - destruct (finish n w5 c1 r4) as [[r6 w6]|] eqn:Efi; [|done]. apply finish_states in Efi as (E1 & _ & E2 & _).
      intros [= <- <-]. eapply R_trans; [|apply R_last].
      assert (R w w6) as H6 by (eapply R_trans; [exact H5|apply R_states; [done|by rewrite E2]]).
      destruct (flowbit_failed w6) eqn:E6; [|done]. eapply R_trans; [exact H6|by apply R_failed]. }
  destruct s; try apply Hgo; intros [= <- <-].
  - by eapply R_trans.
  - eapply R_trans; [exact H1|]. eapply R_trans; [|apply R_last].
    eapply R_trans; [|by apply R_failed]. by apply R_states.
Qed.
End Steps.

(** The same for the loop over the children. *)
Section ChildSteps.
Variable R : W -> W -> Prop.
Variable ev : node -> W -> Cursor -> option (Z * W).
Variable parent : nat.
Hypothesis R_trans : forall w1 w2 w3, R w1 w2 -> R w2 w3 -> R w1 w3.
Hypothesis R_states : forall w w',
  states w' = states w -> (flowbit_failed w = true -> flowbit_failed w' = true) -> R w w'.
Hypothesis R_last : forall w r, R w (set_last_result w parent r).

Lemma eval_children_steps l :
  Forall (fun x => forall w c r w', ev x w c = Some (r, w') -> R w (set_result w' (address x) r)) l ->
  forall w c tmp i r b r' w', eval_children fastpath ev parent l w c tmp i r = Some (b, r', w') -> R w w'.
Proof.
  induction 1 as [|x l Hx Hl IH]; intros w c tmp i r b r' w'; simpl.
  - intros [= <- <- <-]. by apply R_states.
  - set (w1 := set_vars w _). assert (R w w1) as H1 by (by apply R_states).
    destruct (skip_child _ _ _) as [inc|]; [intros E%IH; by eapply R_trans|].
    destruct (ev x w1 c) as [[r1 w2]|] eqn:Ex; [|done]. apply Hx in Ex.
    assert (R w (set_result w2 (address x) r1)) as H2 by (by eapply R_trans).
    destruct (fastpath _) as [stop e]. set (w3 := set_env _ e).
    assert (R w w3) as H3 by (eapply R_trans; [exact H2|by apply R_states]). clearbody w3.
    destruct stop; [intros [= <- <- <-]; by eapply R_trans|].
    intros E%IH. by eapply R_trans.
Qed.
End ChildSteps.

(** An evaluation changes only the states of its own nodes. *)
Lemma eval_node_frame fuel n : forall w c r w', eval_node fuel n w c = Some (r, w') -> frame (addresses n) w w'.
Proof.
  induction n as [a e rl k d t ch IH] using node_induction. intros w c r w'. simpl.
  destruct (evaluated_before _ _ _ _); [intros [= <- <-]; apply frame_refl|].
  intros E. eapply frame_trans; [apply (frame_set_last _ w a); by left|].
  eapply (eval_loop_steps (frame (a :: flat_map addresses ch))); [..|exact E].
  - apply frame_trans.
  - intros. by apply frame_states.
  - intros. apply frame_set_last_result. by left.
  - intros. apply frame_set_last_failed. by left.
  - intros. apply frame_inc_checks. by left.
  - intros w1 c1 tmp i r1 b r2 w2 E1. eapply (eval_children_steps (frame (a :: flat_map addresses ch))); [..|exact E1].
    + apply frame_trans.
    + intros. by apply frame_states.
    + intros. apply frame_set_last_result. by left.
    + rewrite Forall_forall in IH |- *. intros x Hx w3 c3 r3 w4 E3%(IH x Hx).
      assert (addresses x ⊆ a :: flat_map addresses ch) as Hsub.
      { intros y Hy. right. apply list_elem_of_In, in_flat_map. exists x. by rewrite <- !list_elem_of_In. }
      eapply frame_trans; [by eapply frame_mono|]. apply frame_set_result, Hsub. destruct x. simpl. by left.
Qed.

(** ** A node is evaluated once per packet *)

Lemma eval_node_failed fuel n : forall w c r w',
  eval_node fuel n w c = Some (r, w') -> flowbit_failed w = true -> flowbit_failed w' = true.
Proof.
  induction n as [a e rl k d t ch IH] using node_induction. intros w c r w'. simpl.
  destruct (evaluated_before _ _ _ _); [by intros [= <- <-]|]. intros E.
  pose (R := fun w w' : W => flowbit_failed w = true -> flowbit_failed w' = true).
  change (R (set_last w a (new_last p run_num (last_check (node_state w a)))) w').
  assert (forall w1 w2 w3, R w1 w2 -> R w2 w3 -> R w1 w3) as Ht by (unfold R; auto).
  eapply (eval_loop_steps R); [exact Ht|by unfold R..| |exact E].
  intros w1 c1 tmp i r1 b r2 w2 E1. eapply (eval_children_steps R); [exact Ht|by unfold R..| |exact E1].
  rewrite Forall_forall in IH |- *. intros x Hx w3 c3 r3 w4 E3. exact (IH x Hx _ _ _ _ E3).
Qed.

(** The state at [a] is stamped with this packet, and it says a flowbit failed
    only if one did. *)
Definition stamped (a : nat) (w : W) : Prop :=
  let l := last_check (node_state w a) in
  lc_ts l = pkt_ts p /\ lc_run_num l = run_num /\ lc_context_num l = pkt_context_num p /\
  lc_rebuild_flag l = pkt_rebuilt p /\ (lc_flowbit_failed l = true -> flowbit_failed w = true).

Lemma eval_loop_result kids n :
  (forall w c tmp k r r' w', kids w c tmp k r = Some (true, r', w') ->
    lc_result (last_check (node_state w' (address n))) = s8 r') ->
  forall fuel w c k r r' w', eval_loop kids n fuel w c k r = Some (r', w') ->
  flowbit_failed w' = false -> lc_result (last_check (node_state w' (address n))) = s8 r'.
Proof.
  intros Hk. assert (forall (w : W) r, lc_result (last_check (node_state (set_last_result w (address n) r) (address n))) = s8 r) as Hset.
  { intros w r. unfold set_last_result, set_last. by rewrite node_state_set. }
  induction fuel as [|fuel IH]; intros w c k r r' w'; [done|]. simpl.
  destruct (eval_option n w c r) as [[[[s r1] w1] c1]|]; [|done].
  destruct s; [by intros [= <- <-]| | |by intros [= <- <-]];
    (match goal with |- context [fastpath ?e] => destruct (fastpath e) as [stop e1] end;
     destruct stop; [by intros [= <- <-]|];
     match goal with |- context [kids ?w ?c ?t ?k ?r] => destruct (kids w c t k r) as [[[[] r4] w4]|] eqn:Ek end;
     [by intros [= <- <-] _; eapply Hk| |done];
     destruct (negb _ && _ && _ && _); [by apply IH|];
     match goal with |- context [finish ?a ?b ?c ?d] => destruct (finish a b c d) as [[r6 w6]|] end; [|done];
     intros [= <- <-] _; apply Hset).
Qed.

Lemma eval_children_result ev parent (l : list node) : forall (w : W) c tmp k r r' w',
  eval_children fastpath ev parent l w c tmp k r = Some (true, r', w') ->
  lc_result (last_check (node_state w' parent)) = s8 r'.
Proof.
  induction l as [|x l IH]; intros w c tmp k r r' w'; simpl; [done|].
  destruct (skip_child _ _ _); [apply IH|]. destruct (ev _ _ _) as [[r1 w2]|]; [|done].
  destruct (fastpath _) as [[] e]; [|apply IH]. intros [= <- <-].
  unfold set_last_result, set_last. by rewrite node_state_set.
Qed.

Lemma eval_node_stamped fuel n w c r w' :
  address n ∉ flat_map addresses (children n) ->
  evaluated_before p run_num n (last_check (node_state w (address n))) = false ->
  eval_node fuel n w c = Some (r, w') ->
  stamped (address n) w' /\
  (flowbit_failed w' = false -> lc_result (last_check (node_state w' (address n))) = s8 r).
Proof.
  destruct n as [a e rl k d t ch]. intros Ha Hb. simpl in Ha, Hb |- *. rewrite Hb. set (n := MkNode _ _ _ _ _ _ _).
  set (w1 := set_last w a _). intros E. split.
  - pose (R := fun w w' : W => (flowbit_failed w = true -> flowbit_failed w' = true) /\ (stamped a w -> stamped a w')).
    assert (forall w1 w2 w3, R w1 w2 -> R w2 w3 -> R w1 w3) as Ht by (unfold R; intuition).
    assert (forall w w' : W, states w' = states w -> (flowbit_failed w = true -> flowbit_failed w' = true) -> R w w') as Hs.
    { intros w2 w3 E1 E2. split; [done|]. unfold stamped, node_state. rewrite E1. intuition. }
    assert (forall w r, R w (set_last_result w a r)) as Hl.
    { intros w2 r2. split; [done|]. unfold stamped, set_last_result, set_last. rewrite node_state_set. done. }
    assert (R w1 w') as [_ HR].
    { eapply (eval_loop_steps R n); [exact Ht|exact Hs|exact Hl| | | |exact E].
      - intros w2 Hw. split; [done|]. unfold stamped, set_last_failed, set_last. rewrite node_state_set. simpl. intuition.
      - intros w2. split; [done|]. unfold stamped, inc_checks. rewrite node_state_set. done.
      - intros w2 c2 tmp i r2 b r3 w3 E3. eapply (eval_children_steps R); [exact Ht|exact Hs|exact Hl| |exact E3].
        apply Forall_forall. intros x Hx w4 c4 r4 w5 E5. pose proof (eval_node_failed _ _ _ _ _ _ E5) as Hf.
        split; [exact Hf|]. pose proof (eval_node_frame _ _ _ _ _ _ E5) as Hfr.
        assert (a ∉ addresses x) as Hax.
        { intros Hin. apply Ha, list_elem_of_In, in_flat_map. exists x. by rewrite <- !list_elem_of_In. }
        assert (a <> address x) as Hne by (intros ->; apply Hax; destruct x; simpl; by left).
        unfold stamped. unfold set_result. rewrite (frame_set [address x] w5 (address x)) by (by rewrite ?list_elem_of_singleton).
        rewrite (Hfr a Hax). simpl. intuition. }
    apply HR. unfold stamped. subst w1. unfold set_last. rewrite node_state_set. simpl. done.
  - eapply (eval_loop_result _ n); [|exact E]. apply eval_children_result.
Qed.

(** The second evaluation for the same packet: the stored result. *)
Lemma eval_node_cached fuel fuel' n w c c' r w' :
  address n ∉ flat_map addresses (children n) ->
  evaluated_before p run_num n (last_check (node_state w (address n))) = false ->
  is_relative n = false -> pkt_allow_multiple p = false -> pkt_ip_rule_2nd p = false -> pkt_teredo_gtp p = false ->
  eval_node fuel n w c = Some (r, w') -> flowbit_failed w' = false ->
  eval_node fuel' n w' c' = Some (s8 r, w').
Proof.
  intros Ha Hb Hr H1 H2 H3 E Hf. destruct (eval_node_stamped _ _ _ _ _ _ Ha Hb E) as [(E1 & E2 & E3 & E4 & E5) E6].
  specialize (E6 Hf). destruct n as [a e rl k d t ch]. simpl in *. subst rl.
  assert (lc_flowbit_failed (last_check (node_state w' a)) = false) as E7.
  { destruct (lc_flowbit_failed _); [|done]. by rewrite E5 in Hf. }
  unfold evaluated_before. simpl. rewrite E1, E2, E3, E4, E7, H1, H2, H3, bool_decide_true, !Z.eqb_refl by done.
  simpl. by rewrite E6.
Qed.

(** ** Trees without relative children report exactly the rules that match *)

Section Exact.
Context (opt_ok : Opt -> Prop) (B : Z) `{!OptionLaws opt_ok B}.
(** Options that read only cursor and variables, packets that never take the
    fast path, and rules without a detection filter. *)
Variable f : Opt -> ips_vars -> Cursor -> option (EvalStatus * ips_vars * Cursor).
Hypothesis Hpure : forall o v e c, opt_ok o ->
  ips_eval o v e c = match f o v c with Some (s, v', c') => Some (s, v', e, c') | None => None end.
Hypothesis Hfast : forall e, fastpath e = (false, e).
Hypothesis Hfilter : forall otn, detection_filter otn = None.

Fixpoint nodes (n : node) : list node :=
  match n with MkNode _ _ _ _ _ _ ch => n :: flat_map nodes ch end.

Definition fresh (w : W) (n : node) : Prop :=
  Forall (fun x => evaluated_before p run_num x (last_check (node_state w (address x))) = false) (nodes n).

(** The rule accepts the packet. *)
Definition leaf_accepts (otn : Otn) : bool :=
  let is_service := existsb (Z.eqb (pkt_protocol_id p)) (services otn) in
  let by_service := negb (pkt_protocol_id p =? UNKNOWN_PROTOCOL_ID) && negb (pomd_check_ports =? 2) in
  negb (by_service && negb is_service && negb (bool_decide (services otn = []))) &&
  fpEvalRTN otn (negb (by_service && is_service)).

(** What an option makes of variables and cursor when it matches. *)
Definition option_step (n : node) (v : ips_vars) (c : Cursor) : option (ips_vars * Cursor) :=
  match option_data n with
  | DOtn _ => None
  | DOpt o =>
      if negb (evaluate n) then None
      else if bool_decide (option_type n = RULE_OPTION_TYPE_CONTENT) &&
              match ips_pattern o with
              | Some pmd => match pat_last pmd with Some l => already_found p run_num l | None => false end
              | None => false
              end then None
      else if is_setoperation n then Some (v, c)
      else match f o v c with Some (MATCH, v', c') => Some (v', c') | _ => None end
  end.

(** The rules of the leaves all of whose ancestors match, each ancestor seeing
    its parent's cursor and variables, in the order of the tree. *)
Fixpoint matching (n : node) (v : ips_vars) (c : Cursor) : list Otn :=
  match n with
  | MkNode _ _ _ _ d _ ch =>
      match d with
      | DOtn otn => if leaf_accepts otn then [otn] else []
      | DOpt _ =>
          match option_step n v (cursor_copy c) with
          | Some (v', c') => flat_map (fun x => matching x v' c') ch
          | None => []
          end
      end
  end.

Lemma addresses_nodes n : addresses n = map address (nodes n).
Proof.
  induction n as [a e rl k d t ch IH] using node_induction. simpl. f_equal.
  induction IH as [|x l Hx Hl IHl]; [done|]. simpl. by rewrite map_app, Hx, IHl.
Qed.

Lemma fresh_frame k w w' n :
  frame k w w' -> (forall a, a ∈ k -> a ∉ addresses n) -> fresh w n -> fresh w' n.
Proof.
  intros Hf Hd. unfold fresh. rewrite !Forall_forall. intros H x Hx. rewrite Hf; [by apply H|].
  intros Ha%Hd. apply Ha. rewrite addresses_nodes. by apply list_elem_of_fmap_2.
Qed.

Lemma fresh_states w w' n : (forall a, last_check (node_state w' a) = last_check (node_state w a)) -> fresh w n -> fresh w' n.
Proof. intros E. unfold fresh. intros H. eapply Forall_impl; [exact H|]. intros x Hx. by rewrite E. Qed.

Definition exactly (w w' : W) (l : list Otn) : Prop :=
  calls w' = calls w ++ map (pair pattern_size) l /\ flowbit_noalert w' = false.

Definition node_exact (fuel : nat) (n : node) : Prop :=
  forall w c r w', NoDup (addresses n) -> fresh w n -> vars_ok (vars w) -> cursor_wf c -> sz c <= B ->
  flowbit_noalert w = false -> eval_node fuel n w c = Some (r, w') -> exactly w w' (matching n (vars w) c).

Lemma eval_leaf_exact w otn :
  flowbit_noalert w = false ->
  exists w', eval_leaf w otn = (leaf_accepts otn, w') /\ exactly w w' (if leaf_accepts otn then [otn] else []).
Proof.
  intros Hn. unfold eval_leaf, leaf_accepts, exactly. rewrite Hfilter.
  set (svc := existsb _ _). set (by_svc := negb (pkt_protocol_id p =? _) && _).
  replace (by_svc && negb (by_svc && svc)) with (by_svc && negb svc) by (by destruct by_svc, svc).
  destruct (by_svc && negb svc && _); simpl; [exists w; by rewrite app_nil_r|].
  destruct (fpEvalRTN _ _); simpl; [|exists w; by rewrite app_nil_r].
  rewrite Hn. eexists. by split.
Qed.

Lemma eval_children_exact fuel parent l :
  enough B fuel -> Forall (node_ok opt_ok) l -> Forall (node_exact fuel) l -> NoDup (flat_map addresses l) ->
  forall w c v r b r' w',
  Forall (fresh w) l -> vars_ok v -> keeps v (vars w) -> cursor_wf c -> sz c <= B -> flowbit_noalert w = false ->
  eval_children fastpath (eval_node fuel) parent l w c (save_vars v) 0 r = Some (b, r', w') ->
  b = false /\ exactly w w' (flat_map (fun x => matching x v c) l).
Proof.
  intros Hen Hok Hex. induction Hex as [|x l Hx Hl IH]; intros Hnd w c v r b r' w' Hf Hv Hk Hc Hs Hn; simpl.
  { intros [= <- <- <-]. unfold exactly. by rewrite app_nil_r. }
  apply Forall_cons in Hok as [Hokx Hokl]. apply Forall_cons in Hf as [Hfx Hfl].
  simpl in Hnd. apply NoDup_app in Hnd as (Hndx & Hdis & Hndl).
  rewrite restore_save by (done || apply Hk). set (w1 := set_vars w v).
  destruct (eval_node fuel x w1 c) as [[r1 w2]|] eqn:Ex; [|done]. simpl. rewrite Hfast. simpl.
  assert (exactly w1 w2 (matching x v c)) as [Hc2 Hn2] by (by eapply (Hx w1)).
  destruct (eval_node_ok opt_ok B fuel x Hen Hokx w1 c Hv Hc Hs) as (r1' & w2' & E' & Ha).
  rewrite Ex in E'. injection E' as <- <-.
  set (w3 := set_env _ _). intros E.
  assert (Forall (fresh w3) l) as Hf3.
  { apply Forall_forall. intros y Hy. rewrite Forall_forall in Hfl.
    apply (fresh_frame (addresses x) w w3); [|intros a Hax Hay|by apply Hfl].
    - eapply frame_trans; [by eapply (frame_states _ w w1)|]. eapply frame_trans; [by eapply eval_node_frame|].
      eapply frame_trans; [|by apply (frame_states _ (set_result w2 (address x) r1))].
      apply frame_set_result. destruct x. simpl. by left.
    - apply (Hdis a Hax). apply list_elem_of_In, in_flat_map. exists y. by rewrite <- !list_elem_of_In. }
  destruct (IH Hokl Hndl _ _ _ _ _ _ _ Hf3 Hv (proj1 Ha) Hc Hs Hn2 E) as [-> [Hc4 Hn4]].
  split; [done|]. split; [|done]. rewrite Hc4. simpl. rewrite Hc2, map_app. simpl. by rewrite app_assoc.
Qed.

Lemma eval_option_exact a e rl k o t ch w c r :
  let n := MkNode a e rl k (DOpt o) t ch in
  node_ok opt_ok n -> vars_ok (vars w) -> cursor_wf c -> sz c <= B ->
  exists s w' c', eval_option n w c r = Some (s, r, w', c') /\ calls w' = calls w /\
    option_step n (vars w) c = if bool_decide (s = MATCH) then Some (vars w', c') else None.
Proof.
  intros n Hn Hv Hc Hs. assert (opt_ok o /\ t <> RULE_OPTION_TYPE_LEAF_NODE) as [Ho Ht] by (by inv Hn).
  assert (exists s w' c', match call_eval w o c with None => None | Some (s, w, c) => Some (s, r, w, c) end = Some (s, r, w', c') /\
    calls w' = calls w /\ match f o (vars w) c with Some (MATCH, v', c') => Some (v', c') | _ => None end =
      if bool_decide (s = MATCH) then Some (vars w', c') else None) as Hrun.
  { destruct (call_eval_ok opt_ok B w o c Ho Hv Hc Hs) as (s & w' & c' & e' & -> & _ & _ & Ev & _ & Hca & _).
    exists s, w', c'. split_and!; [done..|]. rewrite Hpure in Ev by done.
    destruct (f o (vars w) c) as [[[s0 v0] c0]|]; [|done]. injection Ev as -> -> _ ->. by destruct s. }
  unfold eval_option, option_step. simpl.
  destruct t; try done; (destruct e; simpl; [|by exists NO_MATCH, w, c]); try exact Hrun.
  - destruct (match ips_pattern o with Some pmd => _ | None => false end); [by exists NO_MATCH, w, c|exact Hrun].
  - unfold is_setoperation. simpl. destruct (FlowBits_SetOperation o); [by exists MATCH, w, c|exact Hrun].
Qed.

Lemma eval_children_nostop ev parent (l : list node) : forall (w : W) c tmp k r b r' w',
  eval_children fastpath ev parent l w c tmp k r = Some (b, r', w') -> b = false.
Proof.
  induction l as [|x l IH]; intros w c tmp k r b r' w'; simpl; [by intros [= <- <- <-]|].
  destruct (skip_child _ _ _); [apply IH|]. destruct (ev _ _ _) as [[r1 w2]|]; [|done]. rewrite Hfast. apply IH.
Qed.

Lemma eval_node_exact fuel n :
  enough B fuel -> node_ok opt_ok n -> Forall (fun x => relative_children x = 0) (nodes n) -> node_exact fuel n.
Proof.
  intros Hen. induction n as [a e rl k d t ch IH] using node_induction.
  intros Hok Hrel w c r w' Hnd Hfr Hv Hc Hs Hna. pose proof Hfr as Hfr'. unfold fresh in Hfr'. cbn [nodes] in Hfr', Hrel.
  apply Forall_cons in Hfr' as [Hb Hfch]. apply Forall_cons in Hrel as [Hk0 Hrch]. simpl in Hb, Hk0. subst k.
  simpl. rewrite Hb. set (n := MkNode _ _ _ _ _ _ _) in *. set (w1 := set_last w a _).
  destruct fuel as [|fuel]; [unfold enough in Hen; destruct Hc; lia|]. cbn [OptionEval.eval_loop].
  simpl in Hnd. apply NoDup_cons in Hnd as [Hna' Hnd].
  assert (Forall (node_ok opt_ok) ch) as Hokch by (by inv Hok).
  assert (Forall (node_exact (S fuel)) ch) as Hexch.
  { rewrite Forall_forall in IH, Hokch |- *. intros x Hx. apply IH; [done|by apply Hokch|].
    rewrite Forall_forall in Hrch |- *. intros y Hy. apply Hrch, list_elem_of_In, in_flat_map. exists x. by rewrite <- !list_elem_of_In. }
  assert (exactly w w1 []) as Hw1 by (unfold exactly; by rewrite app_nil_r).
  assert (forall l w1 w2, exactly w w1 [] -> calls w2 = calls w1 ++ map (pair pattern_size) l -> flowbit_noalert w2 = false -> exactly w w2 l) as Hcomp.
  { intros l w2 w3 [E2 _] E3 E4. split; [|done]. rewrite E3, E2. simpl. by rewrite app_nil_r. }
  destruct d as [otn|o].
  - assert (t = RULE_OPTION_TYPE_LEAF_NODE /\ ch = []) as [-> ->] by (by inv Hok).
    unfold OptionEval.eval_option. simpl. destruct (eval_leaf_exact w1 otn Hna) as (w2 & -> & Hc2 & Hn2).
    destruct (leaf_accepts otn); simpl; rewrite ?Hfast; simpl; intros [= <- <-]; unfold exactly; simpl in *;
      destruct (flowbit_failed w2); done.
  - destruct (eval_option_exact a e rl 0 o t ch w1 (cursor_copy c) 0 Hok Hv) as (s & w2 & c2 & Eo & Hc2 & Hst);
      [by apply cursor_copy_wf|done|].
    fold n in Eo, Hst. change (vars w1) with (vars w) in Hst. rewrite Hst, Eo.
    apply eval_option_states in Eo as Es. destruct Es as (Es & _ & En).
    destruct (eval_option_ok opt_ok B n w1 (cursor_copy c) 0 Hok Hv (cursor_copy_wf _ Hc) Hs) as (s' & r2 & w2' & c2' & Eo' & Hstep).
    rewrite Eo in Eo'. injection Eo' as <- <- <- <-. pose proof (step_adds opt_ok B n w1 _ _ _ _ Hok Hstep) as Ha.
    destruct Hstep as (Hwf2 & Hs2 & _).
    assert (exactly w w2 []) as Hw2 by (unfold exactly; rewrite Hc2, En; simpl; by rewrite app_nil_r).
    assert (Forall (fresh w2) ch) as Hf2.
    { apply Forall_forall. intros x Hx. apply (fresh_frame [a] w w2).
      - eapply frame_trans; [apply (frame_set_last [a] w a); by left|by apply frame_states].
      - intros b ->%list_elem_of_singleton Hbx. apply Hna', list_elem_of_In, in_flat_map. exists x. by rewrite <- !list_elem_of_In.
      - unfold fresh. rewrite Forall_forall in Hfch |- *. intros y Hy. apply Hfch, list_elem_of_In, in_flat_map.
        exists x. by rewrite <- !list_elem_of_In. }
    rewrite Hfast. destruct s; simpl bool_decide; cbv iota.
    + intros [= <- <-]. by eapply Hcomp; [exact Hw2|rewrite app_nil_r|apply Hw2].
    + destruct (eval_children _ _ _ _ _ _ _ _ _) as [[[b r3] w3]|] eqn:Ek; [|done].
      assert (vars_ok (vars w2)) as Hv2 by apply Ha.
      destruct (eval_children_exact (S fuel) a ch Hen Hokch Hexch Hnd (set_env w2 (env w2)) _ (vars w2) _ _ _ _ Hf2 Hv2 (keeps_refl _ Hv2) Hwf2 Hs2
                  (proj2 Hw2) Ek) as [-> [Hc3 Hn3]].
      simpl. rewrite andb_false_r. simpl. destruct (finish _ _ _ _) as [[r4 w4]|] eqn:Efi; [|done].
      apply finish_states in Efi as (_ & Hc4 & _ & Hn4). intros [= <- <-].
      simpl in Hc3, Hn3, Hc4, Hn4. apply (Hcomp _ w2 _ Hw2); destruct (flowbit_failed w4); simpl; rewrite ?Hc4, ?Hn4; done.
    + assert (Forall (child_ok B (eval_node (S fuel))) ch) as Hcok.
      { rewrite Forall_forall in Hokch |- *. intros x Hx. exact (eval_node_ok opt_ok B (S fuel) x Hen (Hokch x Hx)). }
      assert (vars_ok (vars w2)) as Hv2 by apply Ha.
      destruct (eval_children_ok B _ a ch Hcok (set_env (set_noalert w2 true) (env w2)) c2 (vars w2) 0 0 Hv2
                  (keeps_refl _ Hv2) Hwf2 Hs2) as (b & r3 & w3 & Ek & _ & new & Hc3 & _ & Hn3).
      simpl in Ek |- *. rewrite Ek. apply eval_children_nostop in Ek as ->.
      destruct (Hn3 eq_refl) as [-> Hn3']. rewrite app_nil_r in Hc3. simpl in Hc3.
      simpl. rewrite andb_false_r. simpl. destruct (finish _ _ _ _) as [[r4 w4]|] eqn:Efi; [|done].
      apply finish_states in Efi as (_ & Hc4 & _ & Hn4). intros [= <- <-]. simpl in Hc4, Hn4.
      eapply (Hcomp _ w2 _ Hw2); [rewrite app_nil_r|]; destruct (flowbit_failed w4); simpl; rewrite ?Hc4, ?Hn4; try done; apply Hw2.
    + intros [= <- <-]. by eapply Hcomp; [exact Hw2|rewrite app_nil_r|apply Hw2].
Qed.
End Exact.
End Facts.

(** ** Evaluation of any tree of options that keep the laws *)

Section Claims.
Context {Opt Otn Env : Type} `{!IpsOptionApi Opt Env}.
Context (opt_ok : Opt -> Prop) (B : Z) `{!OptionLaws opt_ok B}.
Variable p : pkt_t.
Variable run_num check_ports size : Z.
Variable services : Otn -> list Z.
Variable fpEvalRTN : Otn -> bool -> bool.
Variable filter : Otn -> option (Env -> bool * Env).
Variable fastpath : Env -> bool * Env.
Abbreviation evaluate_node :=
  (detection_option_node_evaluate p run_num check_ports size services fpEvalRTN filter fastpath).

(** C13. The evaluation of an option tree always ends, for options that move
    the search position forward when they ask to be tried again: the retry
    loop of a node runs at most once per byte of the buffer, whatever the
    state left in the nodes by earlier packets, the environment, the fast path
    and the detection filters do. *)
Theorem evaluate_terminates fuel n w c :
  B < Z.of_nat fuel -> node_ok opt_ok n -> vars_ok (vars w) -> cursor_wf c -> sz c <= B ->
  exists r w', evaluate_node fuel n w c = Some (r, w') /\ vars_ok (vars w').
Proof.
  intros Hf Hn Hv Hc Hs.
  destruct (eval_node_ok p run_num check_ports size services fpEvalRTN filter fastpath opt_ok B fuel n Hf Hn w c Hv Hc Hs)
    as (r & w' & E & Ha). exists r, w'. split; [done|apply Ha].
Qed.

(** C12. Every rule that an evaluation reports to the match queue has a chain
    of nodes from the evaluated node to a leaf of that rule: each option on it
    matched, at a position reached from where its parent left the cursor and
    with the variables its parent computed, and the rule's services, header
    and filter accept the packet.  Below an option that answers [NO_ALERT]
    nothing is reported. *)
Theorem evaluate_sound fuel n w c r w' :
  B < Z.of_nat fuel -> node_ok opt_ok n -> vars_ok (vars w) -> cursor_wf c -> sz c <= B ->
  evaluate_node fuel n w c = Some (r, w') ->
  exists new, calls w' = calls w ++ new /\
    Forall (fun x => x.1 = size /\
      justified p check_ports services fpEvalRTN filter n (vars w) c x.2) new /\
    (flowbit_noalert w = true -> new = []).
Proof.
  intros Hf Hn Hv Hc Hs E.
  destruct (eval_node_ok p run_num check_ports size services fpEvalRTN filter fastpath opt_ok B fuel n Hf Hn w c Hv Hc Hs)
    as (r' & w2 & E' & _ & new & Ha & Hj & Hno). rewrite E in E'. injection E' as <- <-.
  exists new. split_and!; [done..|]. intros Ht. by destruct (Hno Ht).
Qed.

(** A node that is not relative is evaluated once per packet: a second
    evaluation, at whatever cursor, changes nothing and returns the stored
    result, which is the first one cut to a [char]. *)
Theorem evaluate_once fuel fuel' n (w : world Otn Env) c c' r w' :
  NoDup (addresses n) -> fresh p run_num w n -> is_relative n = false ->
  pkt_allow_multiple p = false -> pkt_ip_rule_2nd p = false -> pkt_teredo_gtp p = false ->
  evaluate_node fuel n w c = Some (r, w') -> flowbit_failed w' = false ->
  evaluate_node fuel' n w' c' = Some (s8 r, w').
Proof.
  intros Hnd Hfr Hr H1 H2 H3 E Hff. destruct n as [a e rl k d t ch].
  eapply eval_node_cached; try done.
  - simpl in *. by apply NoDup_cons in Hnd as [].
  - unfold fresh in Hfr. simpl in Hfr. by apply Forall_cons in Hfr as [].
Qed.
End Claims.
