(* ===== verification/OptionTree.v ===== *)
(** * OptionTree: building option trees (detection/fp_create.cc) and keeping
    equal ones once (detection/detection_options.cc)

    Rules whose fast patterns coincide share a tree: a rule is added below the
    longest prefix of its options that the tree already has.  Options are
    pointers, which the option table has made unique; [Opt] and [Otn] are the
    types of pointers to options and rules.  In the source a node that has no
    child yet has one null child; here its list of children is empty. *)

From S2P Require Import Prelude Cursor Extract Hash XHash Intern OptionEval.

Section Build.
Context {Opt Otn : Type} `{!EqDecision Opt}.
(** What the parser stores in [OptFpList] from the option: its type, whether it
    is relative, whether it has a test function; and [is_fast_pattern_only]. *)
Variable opt_type : Opt -> option_type_t.
Variable opt_relative : Opt -> bool.
Variable opt_test : Opt -> bool.
Variable fp_only : Opt -> bool.
(** [gid], [sid] and [rev] of a rule. *)
Variable sig : Otn -> Z * Z * Z.

Abbreviation node := (node_t Opt Otn).

(** [new_node]; [a] is the address of the new node. *)
Definition new_node (a : nat) (type : option_type_t) (data : data_t Opt Otn) : node :=
  MkNode a false false 0 data type [].

Definition is_leaf (n : node) : bool := bool_decide (option_type n = RULE_OPTION_TYPE_LEAF_NODE).

Definition new_sig (nodes : list node) (otn : Otn) : bool :=
  negb (existsb (fun child =>
    is_leaf child && match option_data child with DOtn cotn => bool_decide (sig cotn = sig otn) | DOpt _ => false end)
    nodes).

(** [child->option_data == option_data]. *)
Definition has_data (o : Opt) (n : node) : Prop := option_data n = DOpt o.
#[local] Instance has_data_dec o n : Decision (has_data o n).
Proof.
  unfold has_data. destruct (option_data n) as [x|o']; [by right|].
  destruct (decide (o' = o)); [left; by subst|right; congruence].
Defined.

(** A node with its children and the relative ones among them counted. *)
Definition set_children (n : node) (ch : list node) (inc : Z) : node :=
  match n with MkNode a e r k d t _ => MkNode a e r (k + inc) d t ch end.

(** An option of the list that gets a node. *)
Definition has_node (o : Opt) : bool :=
  negb (bool_decide (opt_type o = RULE_OPTION_TYPE_LEAF_NODE)) && negb (fp_only o).

(** The loop of [otn_create_tree] over the rest of a rule's options, at the
    children of the node reached, and the leaf at its end: the children, what
    is added to the parent's [relative_children], and the next free address. *)
Fixpoint add_rule (otn : Otn) (opts : list Opt) (ch : list node) (need_leaf : bool) (next : nat)
    : list node * Z * nat :=
  match opts with
  | [] =>
      if need_leaf || new_sig ch otn
      then (ch ++ [new_node next RULE_OPTION_TYPE_LEAF_NODE (DOtn otn)], 0, S next)
      else (ch, 0, next)
  | o :: opts =>
      if negb (has_node o) then add_rule otn opts ch need_leaf next
      else
        match list_find (has_data o) ch with
        | Some (i, child) =>
            let '(ch', inc, next') := add_rule otn opts (children child) need_leaf next in
            (<[i := set_children child ch' inc]> ch, 0, next')
        | None =>
            let child := MkNode next (opt_test o) (opt_relative o) 0 (DOpt o) (opt_type o) [] in
            let '(ch', inc, next') := add_rule otn opts [] true (S next) in
            (ch ++ [set_children child ch' inc], b2z (opt_relative o), next')
        end
  end.

(** On the children of the root. *)
Definition otn_create_tree (opts : list Opt) (otn : Otn) (root : list node) (next : nat) : list node * nat :=
  let '(ch, _, next) := add_rule otn opts root (bool_decide (root = [])) next in (ch, next).

(** The rules of a pattern state, one after the other. *)
Definition create_all (rules : list (list Opt * Otn)) (root : list node) (next : nat) : list node * nat :=
  foldl (fun '(r, k) '(opts, otn) => otn_create_tree opts otn r k) (root, next) rules.

(** ** The rules of a tree *)

(** The options of a rule that have nodes. *)
Definition steps (opts : list Opt) : list Opt := List.filter has_node opts.

Fixpoint paths (n : node) : list (list Opt * Otn) :=
  match n with
  | MkNode _ _ _ _ d _ ch =>
      match d with
      | DOtn otn => [([], otn)]
      | DOpt o => map (fun x => (o :: x.1, x.2)) (flat_map paths ch)
      end
  end.

Definition rel_count (ch : list node) : Z := Zlen (List.filter is_relative ch).

(** What the construction establishes of a node. *)
Inductive built : node -> Prop :=
| built_leaf a otn : built (new_node a RULE_OPTION_TYPE_LEAF_NODE (DOtn otn))
| built_opt a o ch :
    has_node o = true -> ch <> [] -> Forall built ch ->
    built (MkNode a (opt_test o) (opt_relative o) (rel_count ch) (DOpt o) (opt_type o) ch).

Lemma has_node_type o : has_node o = true -> opt_type o <> RULE_OPTION_TYPE_LEAF_NODE.
Proof. unfold has_node. intros [H _]%andb_true_iff. by apply negb_true_iff, bool_decide_eq_false in H. Qed.

Lemma new_sig_false ch otn :
  Forall built ch -> new_sig ch otn = false -> exists otn', sig otn' = sig otn /\ ([], otn') ∈ flat_map paths ch.
Proof.
  unfold new_sig. intros Hb [x [Hx H]]%negb_false_iff%existsb_exists. apply andb_true_iff in H as [Hl Hd].
  destruct (option_data x) as [otn'|o] eqn:Ed; [|done]. apply bool_decide_eq_true in Hd. exists otn'. split; [done|].
  apply list_elem_of_In, in_flat_map. exists x. split; [done|]. destruct x. simpl in Ed |- *. subst. by left.
Qed.

Lemma rel_count_app l k : rel_count (l ++ k) = rel_count l + rel_count k.
Proof. unfold rel_count. by rewrite List.filter_app, Zlen_app. Qed.

(** Splitting the children at the one with the option's data. *)
Lemma find_split o ch i child :
  list_find (has_data o) ch = Some (i, child) ->
  exists l k, ch = l ++ child :: k /\ (forall x, <[i := x]> ch = l ++ x :: k) /\ option_data child = DOpt o.
Proof.
  intros (Hi & Hd & _)%list_find_Some. exists (take i ch), (drop (S i) ch).
  assert (i < length ch)%nat as Hlt by (by apply lookup_lt_Some in Hi).
  split_and!; [by rewrite take_drop_middle| |done]. intros x. by rewrite insert_take_drop.
Qed.

Lemma add_rule_built otn opts : forall ch need_leaf next ch' inc next',
  Forall built ch -> add_rule otn opts ch need_leaf next = (ch', inc, next') ->
  Forall built ch' /\ inc = rel_count ch' - rel_count ch /\ (next <= next')%nat /\
  (need_leaf = true \/ ch <> [] -> ch' <> []) /\
  flat_map addresses ch' ≡ₚ flat_map addresses ch ++ seq next (next' - next) /\
  ((flat_map paths ch' ≡ₚ (steps opts, otn) :: flat_map paths ch) \/
   (need_leaf = false /\ flat_map paths ch' = flat_map paths ch /\
    exists otn', sig otn' = sig otn /\ (steps opts, otn') ∈ flat_map paths ch)).
Proof.
  induction opts as [|o opts IH]; intros ch need_leaf next ch' inc next' Hb; simpl.
  - destruct (need_leaf || new_sig ch otn) eqn:E; intros [= <- <- <-].
    + split_and!.
      * apply Forall_app. split; [done|]. repeat constructor.
      * rewrite rel_count_app. unfold rel_count. simpl. unfold Zlen. simpl. lia.
      * lia.
      * by intros _ [_ ?]%app_nil.
      * replace (S next - next)%nat with 1%nat by lia. by rewrite flat_map_app.
      * left. rewrite flat_map_app. simpl. by rewrite Permutation_app_comm.
    + apply orb_false_iff in E as [-> En]. split_and!; try done; [lia|by intros [|]| |].
      * rewrite Nat.sub_diag. simpl. by rewrite app_nil_r.
      * right. split_and!; try done. by apply new_sig_false.
  - unfold steps. simpl. fold (steps opts). destruct (has_node o) eqn:Ho; simpl; [|by apply IH].
    destruct (list_find (has_data o) ch) as [[i child]|] eqn:Ef.
    + destruct (find_split _ _ _ _ Ef) as (l & k & -> & Hins & Hd).
      destruct (add_rule otn opts (children child) need_leaf next) as [[c2 inc2] next2] eqn:E2.
      intros [= <- <- <-]. rewrite Hins. clear Hins Ef.
      apply Forall_app in Hb as [Hl [Hc Hk]%Forall_cons].
      destruct Hc as [a otn'|a o' ch Ho' Hne Hch]; simpl in Hd; [done|]. injection Hd as ->. simpl in E2 |- *.
      destruct (IH _ _ _ _ _ _ Hch E2) as (Hb2 & -> & Hle & Hne2 & Ha2 & Hp2).
      replace (rel_count ch + (rel_count c2 - rel_count ch)) with (rel_count c2) by lia. split_and!.
      * apply Forall_app. split; [done|]. constructor; [|done]. constructor; auto.
      * rewrite !rel_count_app. unfold rel_count. simpl. destruct (opt_relative o); rewrite ?Zlen_cons; lia.
      * done.
      * by intros _ [_ ?]%app_nil.
      * rewrite !flat_map_app. simpl. rewrite Ha2. solve_Permutation.
      * destruct Hp2 as [Hp2|(-> & Hp2 & otn' & Hs & Hin)].
        -- left. rewrite !flat_map_app. simpl. rewrite Hp2. simpl. solve_Permutation.
        -- right. split_and!; [done|by rewrite !flat_map_app; simpl; rewrite Hp2|].
           exists otn'. split; [done|]. rewrite flat_map_app. simpl. rewrite !elem_of_app. right. left.
           apply (list_elem_of_fmap_2 (fun x => (o :: x.1, x.2))) in Hin. done.
    + destruct (add_rule otn opts [] true (S next)) as [[c2 inc2] next2] eqn:E2. intros [= <- <- <-].
      destruct (IH _ _ _ _ _ _ (Forall_nil_2 _) E2) as (Hb2 & -> & Hle & Hne2 & Ha2 & Hp2). simpl.
      change (rel_count []) with 0. rewrite Z.sub_0_r, ?Z.add_0_l.
      split_and!.
      * apply Forall_app. split; [done|]. repeat constructor; auto.
      * rewrite rel_count_app. unfold rel_count. simpl. destruct (opt_relative o); unfold Zlen; simpl; lia.
      * lia.
      * by intros _ [_ ?]%app_nil.
      * rewrite flat_map_app. simpl. rewrite Ha2, app_nil_r. simpl.
        replace (next2 - next)%nat with (S (next2 - S next)) by lia. done.
      * left. destruct Hp2 as [Hp2|(? & _)]; [|done]. rewrite flat_map_app. simpl. rewrite Hp2, app_nil_r. simpl.
        by rewrite Permutation_app_comm.
Qed.

(** ** Building a tree from rules *)

Lemma create_all_snoc rules opts otn root next :
  create_all (rules ++ [(opts, otn)]) root next =
  (let '(r, k) := create_all rules root next in otn_create_tree opts otn r k).
Proof. unfold create_all. rewrite foldl_snoc. by destruct (foldl _ _ rules). Qed.

(** Rules with different signatures: the tree has exactly their options as
    paths, and its nodes are distinct. *)
Lemma create_all_built rules : NoDup (map (fun r => sig r.2) rules) -> forall root next,
  create_all rules [] 0 = (root, next) ->
  Forall built root /\ flat_map addresses root ≡ₚ seq 0 next /\
  flat_map paths root ≡ₚ map (fun r => (steps r.1, r.2)) rules.
Proof.
  induction rules as [|[opts otn] rules IH] using rev_ind; intros Hnd root next.
  - intros [= <- <-]. done.
  - rewrite create_all_snoc. destruct (create_all rules [] 0) as [r k] eqn:E.
    rewrite map_app in Hnd. apply NoDup_app in Hnd as (Hnd & Hdis & _).
    destruct (IH Hnd r k eq_refl) as (Hb & Ha & Hp). unfold otn_create_tree.
    destruct (add_rule otn opts r _ k) as [[ch inc] next'] eqn:E2. intros [= <- <-].
    destruct (add_rule_built _ _ _ _ _ _ _ _ Hb E2) as (Hb2 & _ & Hle & _ & Ha2 & Hp2). split_and!; [done| |].
    + rewrite Ha2, Ha. replace next' with (k + (next' - k))%nat at 2 by lia. by rewrite seq_app.
    + rewrite map_app. simpl. destruct Hp2 as [Hp2|(_ & _ & otn' & Hs & Hin)].
      * rewrite Hp2, Hp. by rewrite Permutation_app_comm.
      * exfalso. rewrite Hp in Hin. apply list_elem_of_fmap in Hin as ([o2 t2] & [= _ ->] & Hin).
        apply (Hdis (sig t2)); [by apply (list_elem_of_fmap_2 (fun r => sig r.2)) in Hin|].
        simpl. rewrite Hs. by left.
Qed.

Lemma paths_nonempty n : built n -> exists x, x ∈ paths n.
Proof.
  induction n as [a e rl k d t ch IH] using node_induction. intros Hb. inv Hb as [|? ? ? Ho Hne Hch].
  - eexists. by left.
  - destruct ch as [|x ch]; [done|]. apply Forall_cons in IH as [IHx _]. apply Forall_cons in Hch as [Hx _].
    destruct (IHx Hx) as [y Hy]. exists (o :: y.1, y.2). simpl. rewrite map_app, elem_of_app. left.
    by apply (list_elem_of_fmap_2 (fun x => (o :: x.1, x.2))).
Qed.

(** A property of the options of all rules is one of all nodes. *)
Definition all_options (P : Opt -> Prop) (n : node) : Prop := Forall (fun x => Forall P x.1) (paths n).

Lemma all_options_child P a e rl k o t ch :
  Forall built ch -> ch <> [] -> all_options P (MkNode a e rl k (DOpt o) t ch) -> P o /\ Forall (all_options P) ch.
Proof.
  intros Hb Hne H. unfold all_options in *. simpl in H. rewrite Forall_map in H. split.
  - destruct ch as [|x ch]; [done|]. apply Forall_cons in Hb as [Hx _]. destruct (paths_nonempty x Hx) as [y Hy].
    rewrite Forall_forall in H. assert (y ∈ flat_map paths (x :: ch)) as Hin by (simpl; rewrite elem_of_app; by left).
    specialize (H y Hin). simpl in H. by apply Forall_cons in H as [].
  - apply Forall_forall. intros x Hx. apply Forall_forall. intros y Hy. rewrite Forall_forall in H.
    assert (y ∈ flat_map paths ch) as Hin.
    { apply list_elem_of_In, in_flat_map. exists x. by rewrite <- !list_elem_of_In. }
    specialize (H y Hin). simpl in H. by apply Forall_cons in H as [].
Qed.

Lemma built_node_ok (opt_ok : Opt -> Prop) n : built n -> all_options opt_ok n -> node_ok opt_ok n.
Proof.
  induction n as [a e rl k d t ch IH] using node_induction. intros Hb Ho. inv Hb as [|? ? ? Hn Hne Hch]; [constructor|].
  apply all_options_child in Ho as [Ho Hos]; [|done..]. constructor; [by apply has_node_type|done|].
  rewrite Forall_forall in IH, Hch, Hos |- *. auto.
Qed.

Lemma built_no_relative n :
  built n -> all_options (fun o => opt_relative o = false) n ->
  is_relative n = false /\ Forall (fun x => relative_children x = 0) (nodes n).
Proof.
  induction n as [a e rl k d t ch IH] using node_induction. intros Hb Ho. inv Hb as [|? ? ? Hn Hne Hch].
  { split; [done|]. repeat constructor. }
  apply all_options_child in Ho as [Ho Hos]; [|done..]. split; [done|].
  assert (Forall (fun x => is_relative x = false /\ Forall (fun y => relative_children y = 0) (nodes x)) ch) as Hx.
  { rewrite Forall_forall in IH, Hch, Hos |- *. auto. }
  simpl. constructor.
  - simpl. unfold rel_count. clear - Hx. induction Hx as [|x l [Hx _] Hl IHl]; [done|]. simpl. by rewrite Hx.
  - clear - Hx. induction Hx as [|x l [_ Hx] Hl IHl]; [constructor|]. simpl. by apply Forall_app.
Qed.
End Build.

(** ** Rules evaluated one by one and through the tree *)

Section Rules.
Context {Opt Otn Env : Type} `{!EqDecision Opt} `{!IpsOptionApi Opt Env}.
Variable opt_type : Opt -> option_type_t.
Variable opt_relative opt_test fp_only : Opt -> bool.
Variable sig : Otn -> Z * Z * Z.
Variable p : pkt_t.
Variable run_num check_ports size : Z.
Variable services : Otn -> list Z.
Variable fpEvalRTN : Otn -> bool -> bool.
Variable f : Opt -> ips_vars -> Cursor -> option (EvalStatus * ips_vars * Cursor).

Abbreviation node := (node_t Opt Otn).
Abbreviation built := (built (Otn := Otn) opt_type opt_relative opt_test fp_only).
Abbreviation steps := (steps opt_type fp_only).
Abbreviation matching := (matching p run_num check_ports services fpEvalRTN f).
Abbreviation accepts := (leaf_accepts p check_ports services fpEvalRTN).

(** One option of a rule: what it makes of variables and cursor. *)
Definition opt_step (o : Opt) (v : ips_vars) (c : Cursor) : option (ips_vars * Cursor) :=
  if negb (opt_test o) then None
  else if bool_decide (opt_type o = RULE_OPTION_TYPE_CONTENT) &&
          match ips_pattern o with
          | Some pmd => match pat_last pmd with Some l => already_found p run_num l | None => false end
          | None => false
          end then None
  else if bool_decide (opt_type o = RULE_OPTION_TYPE_FLOWBIT) && FlowBits_SetOperation o then Some (v, c)
  else match f o v c with Some (MATCH, v', c') => Some (v', c') | _ => None end.

(** The options of a rule, one after the other. *)
Fixpoint chain_matches (os : list Opt) (v : ips_vars) (c : Cursor) : bool :=
  match os with
  | [] => true
  | o :: os =>
      match opt_step o v (cursor_copy c) with
      | Some (v', c') => chain_matches os v' c'
      | None => false
      end
  end.

Definition rule_matches (v : ips_vars) (c : Cursor) (r : list Opt * Otn) : bool :=
  chain_matches r.1 v c && accepts r.2.

Lemma option_step_opt (n : node) o v c :
  option_data n = DOpt o -> evaluate n = opt_test o -> option_type n = opt_type o ->
  option_step p run_num f n v c = opt_step o v c.
Proof.
  intros Hd He Ht. unfold option_step, opt_step, is_setoperation. rewrite Hd, He, Ht.
  destruct (opt_test o); [|done]. simpl. destruct (_ && match ips_pattern o with Some _ => _ | None => _ end); [done|].
  by destruct (opt_type o).
Qed.

Lemma filter_map_cons {A B} (P : B -> bool) (g : A -> B) l : List.filter P (map g l) = map g (List.filter (fun x => P (g x)) l).
Proof. induction l as [|x l IH]; [done|]. simpl. destruct (P (g x)); simpl; by rewrite IH. Qed.

#[local] Instance list_filter_Permutation {A} (P : A -> bool) : Proper ((≡ₚ) ==> (≡ₚ)) (List.filter P).
Proof.
  intros l k H. induction H as [|x l k H IH|x y l|l k m _ IH1 _ IH2]; simpl; [done| | |by rewrite IH1].
  - destruct (P x); [by constructor|done].
  - destruct (P x), (P y); [by constructor|done..].
Qed.

Lemma filter_false {A} (l : list A) : List.filter (fun _ => false) l = [].
Proof. by induction l. Qed.

(** The rules a tree reports are those of its paths that match. *)
Lemma matching_paths n : built n -> forall v c,
  matching n v c = map snd (List.filter (rule_matches v c) (paths n)).
Proof.
  induction n as [a e rl k d t ch IH] using node_induction. intros Hb v c. inv Hb as [|? ? ? Hn Hne Hch].
  { simpl. unfold rule_matches. simpl. by destruct (accepts otn). }
  cbn [OptionEval.matching paths]. rewrite (option_step_opt _ o) by done. rewrite filter_map_cons, map_map.
  unfold rule_matches at 1. simpl.
  destruct (opt_step o v (cursor_copy c)) as [[v' c']|]; [|by rewrite filter_false].
  change (fun x : list Opt * Otn => chain_matches x.1 v' c' && accepts x.2) with (rule_matches v' c').
  induction ch as [|x ch IHch]; [done|]. apply Forall_cons in IH as [IHx IHl]. apply Forall_cons in Hch as [Hx Hl].
  simpl. rewrite List.filter_app, map_app, IHx by done. f_equal. destruct ch as [|y ch]; [done|]. by apply IHch.
Qed.

Section Evaluate.
Context (opt_ok : Opt -> Prop) (B : Z) `{!OptionLaws opt_ok B}.
Hypothesis Hpure : forall o v e c, opt_ok o ->
  ips_eval o v e c = match f o v c with Some (s, v', c') => Some (s, v', e, c') | None => None end.

Abbreviation eval_node := (detection_option_node_evaluate p run_num check_ports size services fpEvalRTN
  (fun _ => None) (fun e : Env => (false, e))).
Abbreviation eval_tree := (detection_option_tree_evaluate p run_num check_ports size services fpEvalRTN
  (fun _ => None) (fun e : Env => (false, e))).

(** The children of a root: each sees the variables as the one before left
    them, so their rules must not read variables they do not set. *)
Definition closed_node (c : Cursor) (n : node) : Prop :=
  forall v v', vars_ok v -> vars_ok v' -> matching n v c = matching n v' c.

Lemma eval_roots_exact fuel root c v0 : enough B fuel -> vars_ok v0 ->
  Forall (node_ok opt_ok) root -> Forall (fun n => Forall (fun x => relative_children x = 0) (nodes n)) root ->
  Forall (closed_node c) root -> NoDup (flat_map addresses root) -> cursor_wf c -> sz c <= B ->
  forall (w : world Otn Env) r0, Forall (fresh p run_num w) root -> vars_ok (vars w) -> flowbit_noalert w = false ->
  exists r w', eval_roots p run_num check_ports size services fpEvalRTN (fun _ => None) (fun e : Env => (false, e)) fuel root w c r0
      = Some (r, w') /\
    calls w' = calls w ++ map (pair size) (flat_map (fun n => matching n v0 c) root).
Proof.
  intros Hen Hv0 Hok Hrel Hcl Hnd Hc Hs. induction root as [|n root IH]; intros w r0 Hfr Hv Hna; simpl.
  { eexists _, _. split; [done|]. simpl. by rewrite app_nil_r. }
  apply Forall_cons in Hok as [Hokn Hok]. apply Forall_cons in Hrel as [Hreln Hrel].
  apply Forall_cons in Hcl as [Hcln Hcl]. apply Forall_cons in Hfr as [Hfrn Hfr].
  simpl in Hnd. apply NoDup_app in Hnd as (Hndn & Hdis & Hnd).
  destruct (eval_node_ok p run_num check_ports size services fpEvalRTN (fun _ => None) (fun e : Env => (false, e)) opt_ok B
    fuel n Hen Hokn w c Hv Hc Hs) as (r1 & w1 & E & Ha). rewrite E.
  destruct (eval_node_exact p run_num check_ports size services fpEvalRTN (fun _ => None) (fun e : Env => (false, e)) opt_ok B f
    Hpure (fun _ => eq_refl) (fun _ => eq_refl) fuel n Hen Hokn Hreln w c r1 w1 Hndn Hfrn Hv Hc Hs Hna E) as [Hca Hna1].
  assert (Forall (fresh p run_num w1) root) as Hfr1.
  { rewrite Forall_forall in Hfr |- *. intros y Hy. eapply fresh_frame; [by eapply eval_node_frame| |by apply Hfr].
    intros a Han Hay. apply (Hdis a Han), list_elem_of_In, in_flat_map. exists y. by rewrite <- !list_elem_of_In. }
  destruct (IH Hok Hrel Hcl Hnd w1 (r0 + r1) Hfr1 (proj1 (proj1 Ha)) Hna1) as (r & w' & E' & Hc').
  exists r, w'. split; [done|]. rewrite Hc', Hca, <- app_assoc, map_app. do 2 f_equal. f_equal. by apply Hcln.
Qed.

Lemma tree_reports fuel rules root next (w : world Otn Env) c :
  B < Z.of_nat fuel -> vars_ok (vars w) -> cursor_wf c -> sz c <= B -> flowbit_noalert w = false ->
  NoDup (map (fun r => sig r.2) rules) ->
  Forall (fun r => Forall (fun o => opt_ok o /\ opt_relative o = false) (steps r.1) /\
    (forall v v', vars_ok v -> vars_ok v' -> chain_matches (steps r.1) v c = chain_matches (steps r.1) v' c)) rules ->
  create_all opt_type opt_relative opt_test fp_only sig rules [] 0 = (root, next) ->
  Forall (fresh p run_num w) root ->
  exists r w', eval_tree fuel false root w c = Some (r, w') /\
    exists new, calls w' = calls w ++ map (pair size) new /\
      new ≡ₚ map snd (List.filter (rule_matches (vars w) c) (map (fun r => (steps r.1, r.2)) rules)).
Proof.
  intros Hen Hv Hc Hs Hna Hsig Hr Hcr Hfr.
  destruct (create_all_built _ _ _ _ _ rules Hsig root next Hcr) as (Hb & Haddr & Hp).
  assert (Forall (fun x => Forall (fun o => opt_ok o /\ opt_relative o = false) x.1 /\
    (forall v v', vars_ok v -> vars_ok v' -> chain_matches x.1 v c = chain_matches x.1 v' c)) (flat_map paths root)) as Hall.
  { rewrite Hp, Forall_map. exact Hr. }
  assert (Forall (fun n => node_ok opt_ok n /\ Forall (fun x => relative_children x = 0) (nodes n) /\ closed_node c n) root) as Hn.
  { apply Forall_forall. intros n Hn. rewrite Forall_forall in Hb. rewrite Forall_forall in Hall.
    assert (forall x, x ∈ paths n -> x ∈ flat_map paths root) as Hsub.
    { intros x Hx. apply list_elem_of_In, in_flat_map. exists n. by rewrite <- !list_elem_of_In. }
    specialize (Hb n Hn). split_and!.
    - apply (built_node_ok opt_type opt_relative opt_test fp_only); [done|]. apply Forall_forall. intros x Hx.
      eapply Forall_impl; [apply (Hall x (Hsub x Hx))|]. by intros o [].
    - apply (built_no_relative opt_type opt_relative opt_test fp_only); [done|]. apply Forall_forall. intros x Hx.
      eapply Forall_impl; [apply (Hall x (Hsub x Hx))|]. by intros o [].
    - intros v v' H1 H2. rewrite !matching_paths by done. f_equal. apply List.filter_ext_in. intros x Hx%list_elem_of_In.
      unfold rule_matches. f_equal. by apply (Hall x (Hsub x Hx)). }
  destruct (eval_roots_exact fuel root c (vars w) Hen Hv) with (w := w) (r0 := 0) as (r & w' & E & Hca); try done.
  - eapply Forall_impl; [exact Hn|]. by intros n [].
  - eapply Forall_impl; [exact Hn|]. by intros n (_ & ? & _).
  - eapply Forall_impl; [exact Hn|]. by intros n (_ & _ & ?).
  - rewrite Haddr. apply NoDup_seq.
  - exists r, w'. split; [done|]. eexists. split; [exact Hca|]. rewrite <- Hp. clear - Hb.
    induction Hb as [|n root Hn Hb IH]; [done|]. simpl. rewrite List.filter_app, map_app, IH. by rewrite matching_paths.
Qed.

(** C11. The tree that [otn_create_tree] builds from rules with different
    signatures stands for them: when it is evaluated on a new packet, the
    rules reported are, up to order, exactly those whose options match when
    evaluated one after the other from the start of the buffer and whose
    header accepts the packet.  Holds for rules without relative options whose
    options read only the cursor and the variables the rule has set. *)
Theorem tree_reports_matching_rules fuel rules root next (w : world Otn Env) c :
  B < Z.of_nat fuel -> vars_ok (vars w) -> cursor_wf c -> sz c <= B -> flowbit_noalert w = false ->
  NoDup (map (fun r => sig r.2) rules) ->
  Forall (fun r => Forall (fun o => opt_ok o /\ opt_relative o = false) (steps r.1) /\
    (forall v v', vars_ok v -> vars_ok v' -> chain_matches (steps r.1) v c = chain_matches (steps r.1) v' c)) rules ->
  create_all opt_type opt_relative opt_test fp_only sig rules [] 0 = (root, next) ->
  Forall (fresh p run_num w) root ->
  exists r w', eval_tree fuel false root w c = Some (r, w') /\
    exists new, calls w' = calls w ++ map (pair size) new /\
      new ≡ₚ map snd (List.filter (rule_matches (vars w) c) (map (fun r => (steps r.1, r.2)) rules)).
Proof. exact (tree_reports fuel rules root next w c). Qed.
End Evaluate.
End Rules.

(** ** The table of trees *)

Section TreeTable.
Context {Opt Otn : Type} `{!EqDecision Opt, !EqDecision Otn}.
(** The 64-bit address of the object behind [option_data]. *)
Variable addr : data_t Opt Otn -> Z.

Abbreviation node := (node_t Opt Otn).

#[local] Instance data_eq_dec : EqDecision (data_t Opt Otn).
Proof. solve_decision. Defined.

(** The loop of [detection_option_tree_hash] over the children. *)
Fixpoint hash_children (tree_hash : node -> Z) (l : list node) (t : triple) : triple :=
  match l with
  | [] => t
  | x :: l =>
      let '(a, b, c) := t in
      let ptr := addr (option_data x) in
      let '(a, b, c) := mix 32 (u32 (a + Z.shiftr ptr 32), u32 (b + Z.land ptr 4294967295), u32 (c + tree_hash x)) in
      hash_children tree_hash l (mix 32 (u32 (a + num_children x), b, c))
  end.

Fixpoint detection_option_tree_hash (n : node) : Z :=
  match n with
  | MkNode _ _ _ _ _ _ ch =>
      let '(_, _, c) := finalize 32 (hash_children detection_option_tree_hash ch (0, 0, 0)) in c
  end.

(** [true] for [HASH_EQUAL]. *)
Fixpoint detection_option_tree_compare (r l : node) : bool :=
  match r, l with
  | MkNode _ _ _ _ dr _ cr, MkNode _ _ _ _ dl _ cl =>
      if negb (bool_decide (dr = dl)) then false
      else if negb (Zlen cr =? Zlen cl) then false
      else (fix loop (rs ls : list node) : bool :=
              match rs, ls with
              | x :: rs, y :: ls => if negb (detection_option_tree_compare x y) then false else loop rs ls
              | _, _ => true
              end) cr cl
  end.

Definition HASH_RULE_TREE : Z := 8192.
Definition DetectionTreeHashTableNew : option (XHash (K := node) (D := node)) := xhash_new HASH_RULE_TREE 0 false true.

(** The key is the node itself: [option_type] of a tree key is always
    [RULE_OPTION_TYPE_LEAF_NODE] and not compared. *)
Definition add_detection_option_tree (t : XHash (K := node) (D := node)) (n : node) : option node * XHash :=
  find_or_add detection_option_tree_hash detection_option_tree_compare (fun n => n) 72 t n.

(** The nodes that [free_detection_option_tree] frees, in order. *)
Fixpoint free_detection_option_tree (n : node) : list nat :=
  match n with MkNode a _ _ _ _ _ ch => flat_map free_detection_option_tree ch ++ [a] end.

(** On the children of a root: the children it has then, the table, and the
    nodes freed. *)
Fixpoint finalize_detection_option_tree (t : XHash (K := node) (D := node)) (root : list node)
    : list node * XHash (K := node) (D := node) * list nat :=
  match root with
  | [] => ([], t, [])
  | n :: root =>
      let '(p, t) := add_detection_option_tree t n in
      let '(root', t, freed) := finalize_detection_option_tree t root in
      match p with
      | Some dup => (dup :: root', t, free_detection_option_tree n ++ freed)
      | None => (n :: root', t, freed)
      end
  end.

(** ** Equal trees *)

(** Same data in the same places: what the comparison decides. *)
Inductive same_tree : node -> node -> Prop :=
| same_node a e r k t a' e' r' k' t' d ch ch' :
    Forall2 same_tree ch ch' -> same_tree (MkNode a e r k d t ch) (MkNode a' e' r' k' d t' ch').

Lemma tree_compare_eq a e r k t a' e' r' k' t' d d' ch ch' :
  detection_option_tree_compare (MkNode a e r k d t ch) (MkNode a' e' r' k' d' t' ch') =
  bool_decide (d = d') && bool_decide (Forall2 (fun x y => detection_option_tree_compare x y = true) ch ch').
Proof.
  simpl. destruct (bool_decide (d = d')); simpl; [|done].
  revert ch'. induction ch as [|x ch IH]; intros [|y ch']; [done..|]. specialize (IH ch').
  replace (Zlen (x :: ch) =? Zlen (y :: ch')) with (Zlen ch =? Zlen ch') by (rewrite !Zlen_cons; lia).
  destruct (Zlen ch =? Zlen ch') eqn:E; simpl in IH |- *.
  - destruct (detection_option_tree_compare x y) eqn:Exy; simpl.
    + rewrite IH. apply bool_decide_ext. split; [by constructor|by inversion 1].
    + symmetry. apply bool_decide_eq_false. inversion 1. congruence.
  - symmetry. apply bool_decide_eq_false. intros H%Forall2_length. unfold Zlen in E. simpl in H. lia.
Qed.

Lemma tree_compare_spec r : forall l, detection_option_tree_compare r l = true <-> same_tree r l.
Proof.
  induction r as [a e rl k d t ch IH] using node_induction. intros [a' e' rl' k' d' t' ch'].
  rewrite tree_compare_eq, andb_true_iff, !bool_decide_eq_true. split.
  - intros [<- H]. constructor. clear - IH H. induction H as [|x y l l' Hxy Hl IHl]; [constructor|].
    apply Forall_cons in IH as [IHx IH]. constructor; [by apply IHx|by apply IHl].
  - inversion 1 as [? ? ? ? ? ? ? ? ? ? ? ? ? H2]; subst. split; [done|]. clear - IH H2.
    induction H2 as [|x y l l' Hxy Hl IHl]; [constructor|].
    apply Forall_cons in IH as [IHx IH]. constructor; [by apply IHx|by apply IHl].
Qed.

Lemma same_tree_sym r : forall l, same_tree r l -> same_tree l r.
Proof.
  induction r as [a e rl k d t ch IH] using node_induction. intros l. inversion 1 as [? ? ? ? ? ? ? ? ? ? ? ? ? H2]; subst.
  constructor. clear - IH H2. induction H2 as [|x y l l' Hxy Hl IHl]; [constructor|].
  apply Forall_cons in IH as [IHx IH]. constructor; [by apply IHx|by apply IHl].
Qed.

Lemma same_tree_refl n : same_tree n n.
Proof.
  induction n as [a e rl k d t ch IH] using node_induction. constructor. induction IH; by constructor.
Qed.

Lemma same_tree_hash r : forall l, same_tree r l -> detection_option_tree_hash r = detection_option_tree_hash l.
Proof.
  induction r as [a e rl k d t ch IH] using node_induction. intros l. inversion 1 as [? ? ? ? ? ? ? ? ? ? ? ? ? H2]; subst.
  cbn [detection_option_tree_hash].
  assert (forall tr, hash_children detection_option_tree_hash ch tr = hash_children detection_option_tree_hash ch' tr) as E.
  { clear - IH H2. induction H2 as [|x y l l' Hxy Hl IHl]; intros [[x1 x2] x3]; [done|].
    apply Forall_cons in IH as [IHx IH]. cbn [hash_children].
    assert (option_data x = option_data y /\ num_children x = num_children y) as [-> ->].
    { inversion Hxy as [? ? ? ? ? ? ? ? ? ? ? ? ? H3]; subst. split; [done|]. unfold num_children, Zlen. simpl.
      by rewrite (Forall2_length _ _ _ H3). }
    rewrite (IHx y Hxy). match goal with |- context [mix 32 ?t] => destruct (mix 32 t) as [[? ?] ?] end. by apply IHl. }
  by rewrite E.
Qed.

(** Equal trees have the same rules. *)
Lemma same_tree_paths r : forall l, same_tree r l -> paths r = paths l.
Proof.
  induction r as [a e rl k d t ch IH] using node_induction. intros l. inversion 1 as [? ? ? ? ? ? ? ? ? ? ? ? ? H2]; subst.
  simpl. destruct d as [otn|o]; [done|]. f_equal. clear - IH H2. induction H2 as [|x y l l' Hxy Hl IHl]; [done|].
  apply Forall_cons in IH as [IHx IH]. simpl. by rewrite (IHx y Hxy), IHl.
Qed.

#[export] Instance tree_keys : KeyOps detection_option_tree_hash detection_option_tree_compare.
Proof.
  constructor.
  - intros k k'. rewrite !tree_compare_spec. apply same_tree_sym.
  - intros k k'. rewrite tree_compare_spec. apply same_tree_hash.
Qed.

Abbreviation trees_ok := (Intern.table_ok detection_option_tree_hash detection_option_tree_compare (fun n : node => n)).

Lemma DetectionTreeHashTableNew_ok : exists t, DetectionTreeHashTableNew = Some t /\ trees_ok t /\ abs t = [].
Proof.
  unfold DetectionTreeHashTableNew. destruct (xhash_new HASH_RULE_TREE 0 false true) as [t|] eqn:E; [|done].
  exists t. split; [done|]. by apply (new_table_ok _ _ _ HASH_RULE_TREE 13 t).
Qed.

Lemma free_tree_addresses n : free_detection_option_tree n ≡ₚ addresses n.
Proof.
  induction n as [a e rl k d t ch IH] using node_induction. simpl. rewrite Permutation_app_comm. simpl. constructor.
  induction IH as [|x l Hx Hl IHl]; [done|]. simpl. by rewrite Hx, IHl.
Qed.

(** C14. Finalizing a tree keeps its rules and shares its children: every child
    of the root is replaced by the first equal tree ever finalized, which has
    the same rules; a child is freed, each of its nodes once, exactly when it
    was replaced; and the table never holds two equal trees. *)
Theorem finalize_shares_trees root : forall t root' t' freed,
  trees_ok t -> finalize_detection_option_tree t root = (root', t', freed) ->
  trees_ok t' /\
  Forall2 (fun n n' => same_tree n' n /\ paths n' = paths n /\ (n', n') ∈ abs t') root root' /\
  (exists kept dropped, root ≡ₚ kept ++ dropped /\ freed ≡ₚ flat_map addresses dropped /\
     abs t' ≡ₚ map (fun n => (n, n)) kept ++ abs t).
Proof.
  induction root as [|n root IH]; intros t root' t' freed Ht; simpl.
  - intros [= <- <- <-]. split_and!; [done|constructor|]. by exists [], [].
  - destruct (add_detection_option_tree t n) as [p t1] eqn:E1.
    destruct (finalize_detection_option_tree t1 root) as [[r2 t2] f2] eqn:E2. intros E.
    destruct (find_or_add_step _ _ (fun n => n) 72 t n p t1 Ht E1) as [Ht1 H1].
    destruct (IH t1 r2 t2 f2 Ht1 E2) as (Ht2 & Hr2 & kept & dropped & Hk & Hf & Ha).
    destruct p as [dup|]; injection E as <- <- <-.
    + destruct H1 as (Hp1 & k & Hin & Hc & ->). apply tree_compare_spec in Hc. split_and!; [done| |].
      * constructor; [|done]. split_and!; [done|by apply same_tree_paths|]. rewrite Ha, elem_of_app. right. by rewrite Hp1.
      * exists kept, (n :: dropped). split_and!.
        -- rewrite Hk. apply Permutation_middle.
        -- simpl. by rewrite Hf, free_tree_addresses.
        -- by rewrite Ha, Hp1.
    + destruct H1 as [Ha1 Hno]. split_and!; [done| |].
      * constructor; [|done]. split_and!; [apply same_tree_refl|done|]. rewrite Ha, Ha1, elem_of_app. right. by left.
      * exists (n :: kept), dropped. split_and!; [by rewrite Hk|done|]. rewrite Ha, Ha1. simpl. by rewrite Permutation_middle.
Qed.
End TreeTable.

(** Two trees over the same option and rule at different addresses. *)
Definition demo_trees : list (node_t nat nat) :=
  map (fun a => MkNode a true false 0 (DOpt 5%nat) RULE_OPTION_TYPE_OTHER
                  [new_node (S a) RULE_OPTION_TYPE_LEAF_NODE (DOtn 7%nat)]) [10; 20]%nat.
Definition demo_addr (d : data_t nat nat) : Z := match d with DOpt o => Z.of_nat o * 16 | DOtn o => Z.of_nat o * 16 + 8 end.

Lemma finalize_shares_trees_witness :
  exists t root' t' freed, finalize_detection_option_tree demo_addr t demo_trees = (root', t', freed) /\
    Forall2 (fun n n' => same_tree n' n /\ paths n' = paths n /\ (n', n') ∈ abs t') demo_trees root'.
Proof.
  destruct (DetectionTreeHashTableNew_ok demo_addr) as (t & _ & Ht & _).
  destruct (finalize_detection_option_tree demo_addr t demo_trees) as [[root' t'] freed] eqn:E.
  exists t, root', t', freed. split; [exact E|].
  apply (finalize_shares_trees demo_addr demo_trees t root' t' freed Ht E).
Defined.

Example trees_share :
  match DetectionTreeHashTableNew with
  | None => None
  | Some t => let '(root', _, freed) := finalize_detection_option_tree demo_addr t demo_trees in
              Some (map OptionEval.address root', freed)
  end = Some ([10; 10]%nat, [21; 20]%nat).
Proof. vm_compute. reflexivity. Qed.
