(* ===== verification/RuleEval.v ===== *)
(** * RuleEval: the evaluator on the modelled rule options

    The options of this development as implementations of [IpsOptionApi]: what
    each evaluates to, when it wants to be tried again, and that it keeps the
    promises of [OptionLaws], so that the theorems about
    [detection_option_node_evaluate] hold for trees of them. *)

From S2P Require Import Prelude Cursor Extract Hash BoyerMoore Content IpsCommon.
From S2P Require Import ByteTest ByteJump ByteExtract ByteMath IsDataAt RangeOptions OptionEval OptionTree.

(** An option object; a content option has the [last_check] of its pattern. *)
Inductive RuleOption :=
  | RContent (cd : Content.ContentData) (last : option PmdLastCheck)
  | RByteTest (d : ByteTest.ByteTestData)
  | RByteJump (d : ByteJump.ByteJumpData)
  | RByteExtract (d : ByteExtract.ByteExtractData)
  | RByteMath (d : ByteMath.ByteMathData)
  | RIsDataAt (d : IsDataAt.IsDataAtData)
  | RRange (o : RangeOptions.RangeObject).

Section Rules.
(** The packet as the byte options and the header options see it. *)
Variable pk : IpsCommon.Packet.
Variable hp : Headers.Packet.

(** [eval]; none of these options has state outside cursor and variables. *)
Definition rule_eval (o : RuleOption) (v : ips_vars) (c : Cursor) : option (EvalStatus * ips_vars * Cursor) :=
  match o with
  | RContent cd _ =>
      match Content.CheckANDPatternMatch v cd c with Some (s, c) => Some (s, v, c) | None => None end
  | RByteTest d => Some (ByteTest.eval v pk d c, v, c)
  | RByteJump d => let '(s, c) := ByteJump.eval v pk d c in Some (s, v, c)
  | RByteExtract d => let '(s, c, v) := ByteExtract.eval v pk d c in Some (s, v, c)
  | RByteMath d => match ByteMath.eval v pk d c with Some (s, c, v) => Some (s, v, c) | None => None end
  | RIsDataAt d => Some (IsDataAt.eval v d c, v, c)
  | RRange o => Some (cl_eval (class (ob_kind o)) (object o) c hp, v, c)
  end.

Definition rule_retry (o : RuleOption) (c : Cursor) : bool :=
  match o with RContent cd _ => Content.retry cd c | _ => false end.

Definition rule_pattern (o : RuleOption) : option Pattern :=
  match o with
  | RContent cd last => Some (MkPattern last (Content.depth (Content.pmd cd) =? 0))
  | _ => None
  end.

#[local] Instance rule_api : IpsOptionApi RuleOption unit := {|
  ips_eval o v e c := match rule_eval o v c with Some (s, v, c) => Some (s, v, e, c) | None => None end;
  ips_retry := rule_retry;
  ips_pattern := rule_pattern;
  FlowBits_SetOperation _ := false |}.

(** What the parsers establish: a content's tables and jump size, a
    [byte_math] operand that is defined. *)
Definition rule_ok (o : RuleOption) : Prop :=
  match o with
  | RContent cd _ =>
      Content.content_ok cd /\ Zlen (Content.pattern_buf (Content.pmd cd)) < 2 ^ 29 /\
      1 <= Content.match_delta cd <= Zlen (Content.pattern_buf (Content.pmd cd))
  | RByteMath d => ByteMath.safe_operand d
  | _ => True
  end.

(** ** The promises *)

Lemma SetVar_keeps v x i : vars_ok v -> keeps v (SetVarValueByIndex v x i).2.
Proof.
  intros Hv. unfold SetVarValueByIndex. bcases; [done|]. destruct Hv. split; [|done].
  constructor; simpl; rewrite ?Zlen_wr; done.
Qed.

Lemma add_pos_sz c n : sz (add_pos c n).2 = sz c.
Proof. by destruct (add_pos_data c n) as (_ & ? & _). Qed.

(** A content that matched and may be retried has moved its search position
    forward. *)
Lemma content_progress v cd c c' :
  rule_ok (RContent cd None) -> cursor_wf c -> sz c < 2 ^ 29 ->
  CheckANDPatternMatch v cd c = Some (MATCH, c') -> Content.retry cd c' = true ->
  sz c' = sz c /\ delta c < delta c'.
Proof.
  intros (Hok & Hlen & Hmd) Hc Hs E Hr.
  assert (small cd c) as Hsm by (unfold small; lia).
  destruct (search_window v cd c) as [p d] eqn:Hw.
  destruct (uniSearchReal_eq v cd c p d Hok Hc Hsm Hw) as (r & Hf & Hu).
  destruct (search_window_spec v cd c p d Hc Hs Hw) as (Hp & Hd & _).
  unfold CheckANDPatternMatch in E. rewrite Hu in E.
  assert (is_negated (pmd cd) = false) as Hneg.
  { unfold Content.retry in Hr. by destruct (is_negated _). }
  rewrite Hneg in E. simpl in E. bcase (r >=? 0) as Er; [|by destruct (Zlen _ <=? d)].
  injection E as <-. destruct Hf as [[-> _]|[(Hr0 & Hr1 & _) _]]; [lia|].
  set (n := Zlen (pattern_buf (pmd cd))) in *.
  destruct (set_delta_data c (p + r + match_delta cd)) as (_ & Es & _).
  assert (delta (set_delta c (p + r + match_delta cd)).2 = p + r + match_delta cd) as Ed.
  { unfold set_delta. rewrite u32_small by mlia. bcases; [lia|done]. }
  assert (delta c <= p) as Hdp.
  { unfold search_window in Hw. injection Hw as <- _. destruct Hc.
    rewrite s32_small by (unfold is_s32; lia). destruct (Z.eqb_spec (delta c) 0) as [E0|E0]; [|bcases; lia].
    rewrite E0. clear. set (x := s32 _). bcases; lia. }
  destruct (set_pos_data (set_delta c (p + r + match_delta cd)).2 (p + r + n)) as (_ & Es2 & Ed2).
  rewrite Es2, Es, Ed2, Ed. lia.
Qed.

Lemma compute_defined v d x :
  safe_operand d ->
  is_var (rvalue_var d) && (var_or v (rvalue_var d) (rvalue d) =? 0) && bool_decide (oper d = BM_DIVIDE) = false ->
  exists y, compute (oper d) x (var_or v (rvalue_var d) (rvalue d)) = Some y.
Proof.
  intros [Hdiv Hsh] Hz. unfold compute. destruct (oper d) eqn:Eo; [by eexists..| | |].
  - destruct (var_or _ _ _ =? 0) eqn:E0; [|eexists; reflexivity].
    destruct (is_var (rvalue_var d)) eqn:Ev; [by rewrite bool_decide_true in Hz|].
    breflect. rewrite var_or_const in E0 by done. by destruct (Hdiv eq_refl eq_refl).
  - destruct (Hsh eq_refl) as [Ev ?]. rewrite var_or_const by done. bcases; [lia|by eexists].
  - destruct (Hsh eq_refl) as [Ev ?]. rewrite var_or_const by done. bcases; [lia|by eexists].
Qed.

(** Evaluation is defined, and keeps variables, cursor and buffer. *)
Lemma rule_eval_ok o v c :
  rule_ok o -> vars_ok v -> cursor_wf c -> sz c < 2 ^ 29 ->
  exists s v' c', rule_eval o v c = Some (s, v', c') /\ keeps v v' /\ cursor_wf c' /\ sz c' = sz c.
Proof.
  intros Ho Hv Hc Hs. destruct o as [cd last|d|d|d|d|d|o]; simpl in Ho |- *.
  - destruct Ho as (Hok & Hl & Hm). assert (small cd c) as Hsm by (unfold small; lia).
    destruct (search_window v cd c) as [p d] eqn:Hw.
    destruct (uniSearchReal_eq v cd c p d Hok Hc Hsm Hw) as (r & _ & Hu).
    unfold CheckANDPatternMatch. rewrite Hu.
    bcase (r >=? 0) as Er; eexists _, _, _; (split; [done|]); split_and!; try done.
    + by apply cursor_after_match_wf.
    + destruct (set_pos_data (set_delta c (p + r + match_delta cd)).2 (p + r + Zlen (pattern_buf (pmd cd)))) as (_ & -> & _).
      by destruct (set_delta_data c (p + r + match_delta cd)) as (_ & -> & _).
  - by eexists _, _, _.
  - pose proof (ByteJump.eval_wf v pk d c Hc) as Hw. destruct (ByteJump.eval v pk d c) as [s c'] eqn:E.
    eexists _, _, _. split; [done|]. split_and!; try done.
    unfold ByteJump.eval in E. destruct (resolve_endian _ _ _); [|by injection E as <- <-].
    destruct (extract_jump _ _ _ _) as [[j g]|]; [|by injection E as <- <-].
    pose proof (set_pos_data c (jump_pos v d c j g)) as (_ & Hsz & _).
    destruct (set_pos _ _) as [[] c2]; by injection E as <- <-.
  - unfold ByteExtract.eval. destruct (_ || _); [by eexists _, _, _|]. destruct (resolve_endian _ _ _); [|by eexists _, _, _].
    destruct (ByteExtract.extract_value _ _ _ _ _) as [[x k]|]; [|by eexists _, _, _].
    eexists _, _, _. split; [done|]. split_and!; [by apply SetVar_keeps|by apply add_pos_wf|by rewrite add_pos_sz].
  - unfold ByteMath.eval. destruct (is_var _ && _ && _) eqn:Ez; [by eexists _, _, _|].
    destruct (_ || _); [by eexists _, _, _|]. destruct (resolve_endian _ _ _); [|by eexists _, _, _].
    destruct (ByteMath.extract_value _ _ _ _ _) as [[x k]|]; [|by eexists _, _, _].
    destruct (compute_defined v d (apply_bitmask x (bitmask_val d)) Ho Ez) as [y ->].
    eexists _, _, _. split; [done|]. split_and!; [by apply SetVar_keeps|by apply add_pos_wf|by rewrite add_pos_sz].
  - by eexists _, _, _.
  - by eexists _, _, _.
Qed.

#[local] Instance rule_laws B : B < 2 ^ 29 -> OptionLaws rule_ok B.
Proof.
  intros HB. split; [|done]. intros o v e c Ho Hv Hc Hs.
  destruct (rule_eval_ok o v c Ho Hv Hc) as (s & v' & c' & E & Hk & Hc' & Hs'); [lia|].
  exists s, v', e, c'. simpl. rewrite E. split_and!; [done..|lia|].
  intros -> Hr. destruct o as [cd last|d|d|d|d|d|o]; try done. simpl in E, Hr.
  destruct (CheckANDPatternMatch v cd c) as [[s2 c2]|] eqn:E2; [|done]. injection E as -> -> ->.
  eapply content_progress; [exact Ho|done|lia|done..].
Qed.
End Rules.

(** ** Properties *)

Section Exactness.
Variable pk : IpsCommon.Packet.
Variable hp : Headers.Packet.
#[local] Existing Instance rule_api.
#[local] Existing Instance rule_laws.
Context {Otn : Type}.
Variable p : pkt_t.
Variable run_num check_ports size : Z.
Variable services : Otn -> list Z.
Variable fpEvalRTN : Otn -> bool -> bool.

(** On trees of content, byte, [isdataat] and range options in which no
    option is relative to its parent, evaluation for a new packet reports
    exactly the rules all of whose options match when evaluated one after the
    other, in the order of the tree: sharing option prefixes between rules
    changes nothing, and variables set for one rule are not seen by the next. *)
Theorem evaluate_exact B fuel (n : node_t RuleOption Otn) (w : world Otn unit) c r w' :
  B < 2 ^ 29 -> B < Z.of_nat fuel -> node_ok rule_ok n ->
  Forall (fun x => relative_children x = 0) (nodes n) -> NoDup (addresses n) -> fresh p run_num w n ->
  vars_ok (vars w) -> cursor_wf c -> sz c <= B -> flowbit_noalert w = false ->
  @detection_option_node_evaluate _ _ _ (rule_api pk hp) p run_num check_ports size services fpEvalRTN
    (fun _ => None) (fun e => (false, e)) fuel n w c = Some (r, w') ->
  calls w' = calls w ++ map (pair size)
    (@matching _ _ _ (rule_api pk hp) p run_num check_ports services fpEvalRTN (rule_eval pk hp) n (vars w) c).
Proof.
  intros HB Hf Hn Hrel Hnd Hfr Hv Hc Hs Hna E.
  pose proof (rule_laws pk hp B HB) as HL.
  eapply (@eval_node_exact _ _ _ (rule_api pk hp) p run_num check_ports size services fpEvalRTN (fun _ => None)
    (fun e => (false, e)) rule_ok B HL (rule_eval pk hp)); try done.
Qed.
End Exactness.

(** ** A tree of two contents *)

Definition demo_pk : IpsCommon.Packet := IpsCommon.MkPacket None 0.
Definition demo_pkt : pkt_t := MkPkt (5, 0) 1 0 false false false 0.
Definition demo_leaf (a : nat) (otn : Z) : node_t RuleOption Z :=
  MkNode a false false 0 (DOtn otn) RULE_OPTION_TYPE_LEAF_NODE [].
(** The content of [demo_cd], under it rule 7 and, behind the same content
    again, rule 8. *)
Definition demo_tree (rel : Z) : node_t RuleOption Z :=
  MkNode 0 true false rel (DOpt (RContent demo_cd None)) RULE_OPTION_TYPE_CONTENT
    [demo_leaf 1 7;
     MkNode 2 true false 0 (DOpt (RContent demo_cd None)) RULE_OPTION_TYPE_CONTENT [demo_leaf 3 8]].
Definition demo_world : world Z unit := MkWorld ∅ demo_vars false false [] [] tt.
Abbreviation demo_eval :=
  (@detection_option_node_evaluate _ _ _ (rule_api demo_pk demo_packet) demo_pkt 1 0 0 (fun _ => []) (fun _ _ => true)
     (fun _ => None) (fun e => (false, e))).

Lemma demo_rule_ok : rule_ok (RContent demo_cd None).
Proof. split; [apply demo_cd_ok|]. split; vm_compute; split; congruence || done. Qed.

Lemma demo_tree_ok rel : node_ok rule_ok (demo_tree rel).
Proof.
  constructor; [done|apply demo_rule_ok|]. repeat constructor; [done|apply demo_rule_ok..].
Qed.

Lemma demo_laws : @OptionLaws _ _ (rule_api demo_pk demo_packet) rule_ok 5.
Proof. apply rule_laws. lia. Qed.

Lemma demo_world_ok : vars_ok (vars demo_world).
Proof. apply demo_vars_wf. Qed.

Lemma demo_fresh : fresh demo_pkt 1 demo_world (demo_tree 0).
Proof. vm_compute. repeat constructor. Qed.

Lemma demo_nodup : NoDup (addresses (demo_tree 0)).
Proof. apply (bool_decide_unpack _). vm_compute. exact I. Qed.

Lemma evaluate_terminates_witness :
  exists r w', demo_eval 6 (demo_tree 1) demo_world Content.demo_cursor = Some (r, w') /\ vars_ok (vars w').
Proof.
  apply (@evaluate_terminates _ _ _ (rule_api demo_pk demo_packet) rule_ok 5 demo_laws);
    [lia|apply demo_tree_ok|apply demo_world_ok|apply Content.demo_cursor_wf|vm_compute; discriminate].
Defined.

(** What the evaluation computes. *)
Lemma demo_result : exists w', demo_eval 6 (demo_tree 0) demo_world Content.demo_cursor = Some (2, w') /\
  calls w' = [(0, 7); (0, 8)] /\ flowbit_failed w' = false.
Proof. vm_compute. eexists. split; [reflexivity|done]. Qed.

Lemma evaluate_sound_witness :
  exists w', demo_eval 6 (demo_tree 0) demo_world Content.demo_cursor = Some (2, w') /\
    calls w' = [(0, 7); (0, 8)] /\
    Forall (fun x => x.1 = 0 /\ @justified _ _ _ (rule_api demo_pk demo_packet) demo_pkt 0 (fun _ => []) (fun _ _ => true)
      (fun _ => None) (demo_tree 0) demo_vars Content.demo_cursor x.2) (calls w').
Proof.
  destruct demo_result as (w' & E & Hc & _). exists w'. split; [exact E|]. split; [exact Hc|].
  assert (5 < Z.of_nat 6) as Hf by lia. assert (sz Content.demo_cursor <= 5) as Hs by (vm_compute; discriminate).
  destruct (@evaluate_sound _ _ _ (rule_api demo_pk demo_packet) rule_ok 5 demo_laws demo_pkt 1 0 0 (fun _ => [])
    (fun _ _ => true) (fun _ => None) (fun e => (false, e)) 6 (demo_tree 0) demo_world Content.demo_cursor 2 w'
    Hf (demo_tree_ok 0) demo_world_ok Content.demo_cursor_wf Hs E) as (new & Hn & Hj & _).
  rewrite Hn. exact Hj.
Defined.

Lemma evaluate_once_witness :
  exists w', demo_eval 6 (demo_tree 0) demo_world Content.demo_cursor = Some (2, w') /\
    demo_eval 0 (demo_tree 0) w' (cursor_set "pkt_data" [] 0) = Some (2, w').
Proof.
  destruct demo_result as (w' & E & _ & Hf). exists w'. split; [exact E|].
  exact (@evaluate_once _ _ _ (rule_api demo_pk demo_packet) demo_pkt 1 0 0 (fun _ => []) (fun _ _ => true)
    (fun _ => None) (fun e => (false, e)) 6 0 (demo_tree 0) demo_world Content.demo_cursor (cursor_set "pkt_data" [] 0) 2 w'
    demo_nodup demo_fresh eq_refl eq_refl eq_refl eq_refl E Hf).
Defined.

Lemma evaluate_exact_witness :
  exists w', demo_eval 6 (demo_tree 0) demo_world Content.demo_cursor = Some (2, w') /\
    calls w' = [(0, 7); (0, 8)].
Proof.
  destruct demo_result as (w' & E & _). exists w'. split; [exact E|].
  assert (5 < 2 ^ 29) as HB by lia. assert (5 < Z.of_nat 6) as Hf by lia.
  assert (sz Content.demo_cursor <= 5) as Hs by (vm_compute; discriminate).
  assert (Forall (fun x => relative_children x = 0) (nodes (demo_tree 0))) as Hr by (repeat constructor).
  rewrite (evaluate_exact demo_pk demo_packet demo_pkt 1 0 0 (fun _ => []) (fun _ _ => true) 5 6 (demo_tree 0) demo_world
    Content.demo_cursor 2 w' HB Hf (demo_tree_ok 0) Hr demo_nodup demo_fresh demo_world_ok Content.demo_cursor_wf Hs eq_refl E).
  vm_compute. reflexivity.
Defined.

(** ** Flowbits that several rules set *)

Section Flowbits.
Context {Opt Otn Env : Type} `{!IpsOptionApi Opt Env}.
Variable p : pkt_t.
Variable run_num check_ports size : Z.
Variable services : Otn -> list Z.
Variable fpEvalRTN : Otn -> bool -> bool.
Abbreviation evaluate_node := (detection_option_node_evaluate p run_num check_ports size services fpEvalRTN
  (fun _ => None) (fun e : Env => (false, e))).
Abbreviation accepts := (leaf_accepts p check_ports services fpEvalRTN).

Definition leaf_node (x : nat * Otn) : node_t Opt Otn :=
  MkNode x.1 false false 0 (DOtn x.2) RULE_OPTION_TYPE_LEAF_NODE [].
(** A [flowbits] node over the leaves of rules. *)
Definition flowbits_node (a : nat) (o : Opt) (l : list (nat * Otn)) : node_t Opt Otn :=
  MkNode a true false 0 (DOpt o) RULE_OPTION_TYPE_FLOWBIT (map leaf_node l).
(** How many of the rules accept the packet. *)
Definition accepted (l : list (nat * Otn)) : Z := Zlen (List.filter (fun x => accepts x.2) l).

Lemma leaf_node_eval fuel x (w : world Otn Env) c :
  evaluated_before p run_num (leaf_node x) (last_check (node_state w x.1)) = false ->
  exists w', evaluate_node (S fuel) (leaf_node x) w c = Some (if accepts x.2 then 1 else 0, w') /\
    frame [x.1] w w' /\ env w' = env w /\ vars w' = vars w.
Proof.
  destruct x as [a otn]. simpl. intros Hb. unfold leaf_node in Hb |- *. simpl in Hb |- *. rewrite Hb. set (w1 := set_last w a _).
  unfold eval_option, eval_leaf, leaf_accepts. simpl.
  set (svc := existsb _ _). set (by_svc := negb (pkt_protocol_id p =? _) && _).
  replace (by_svc && negb (by_svc && svc)) with (by_svc && negb svc) by (by destruct by_svc, svc).
  assert (forall w', (forall b, b <> a -> states w' !! b = states w !! b) -> frame [a] w w') as Hfr.
  { intros w' H b Hne. unfold node_state. rewrite H; [done|]. intros ->. apply Hne. by left. }
  destruct (by_svc && negb svc && _); simpl;
    [eexists; split; [done|]; split; [|done]; apply Hfr; intros b Hne; simpl; by rewrite !lookup_insert_ne by done|].
  destruct (fpEvalRTN _ _); simpl;
    [|eexists; split; [done|]; split; [|done]; apply Hfr; intros b Hne; simpl; by rewrite !lookup_insert_ne by done].
  destruct (flowbit_noalert w) eqn:En; simpl; destruct (flowbit_failed w) eqn:Ef; simpl;
    (eexists; split; [done|]; split; [|done]; apply Hfr; intros b Hne; simpl; by rewrite !lookup_insert_ne by done).
Qed.

Lemma leaf_nodes_eval fuel parent l : NoDup (map fst l) -> forall (w : world Otn Env) c v r,
  Forall (fun x => evaluated_before p run_num (leaf_node x) (last_check (node_state w x.1)) = false) l ->
  vars_ok v -> keeps v (vars w) ->
  exists w', eval_children (fun e => (false, e)) (evaluate_node (S fuel)) parent (map leaf_node l) w c (save_vars v) 0 r
    = Some (false, r + accepted l, w') /\ env w' = env w /\ keeps v (vars w').
Proof.
  unfold accepted. induction l as [|x l IH]; intros Hnd w c v r Hf Hv Hk; cbn [eval_children map].
  { exists w. change (Zlen (List.filter _ [])) with 0. rewrite Z.add_0_r. done. }
  apply Forall_cons in Hf as [Hx Hl]. simpl in Hnd. apply NoDup_cons in Hnd as [Hn Hnd].
  rewrite restore_save by (done || apply Hk). replace (skip_child _ _ _) with (@None Z) by reflexivity.
  destruct (leaf_node_eval fuel x (set_vars w v) c Hx) as (w1 & -> & Hfr & He & Hv1).
  set (w2 := set_env _ _). destruct (IH Hnd w2 c v (r + (if accepts x.2 then 1 else 0))) as (w' & E & He' & Hk').
  - rewrite Forall_forall in Hl |- *. intros y Hy. subst w2. simpl.
    assert (x.1 <> y.1) as Hne. { intros Exy. apply Hn. rewrite Exy. by apply list_elem_of_fmap_2. }
    unfold node_state. simpl. rewrite lookup_insert_ne by done. fold (node_state w1 y.1).
    rewrite Hfr by (by rewrite list_elem_of_singleton). by apply Hl.
  - done.
  - subst w2. simpl. rewrite Hv1. by apply keeps_refl.
  - exists w'. split; [|split; [by rewrite He'|done]]. eapply eq_trans; [exact E|]. f_equal. f_equal. f_equal.
    cbn [List.filter]. destruct (accepts x.2); rewrite ?Zlen_cons; lia.
Qed.

(** A [flowbits] option that sets a bit does so after the rules below it
    have been evaluated, and only if exactly one of them matched: with two
    matching rules behind the same option the bit is never set. *)
Theorem flowbits_set_needs_one_rule fuel a o l (w : world Otn Env) c e' :
  FlowBits_SetOperation o = true -> vars_ok (vars w) -> NoDup (a :: map fst l) ->
  fresh p run_num w (flowbits_node a o l) ->
  (forall v, exists s v' c', ips_eval o v (env w) (cursor_copy c) = Some (s, v', e', c')) ->
  exists r w', evaluate_node (S fuel) (flowbits_node a o l) w c = Some (r, w') /\
    env w' = if accepted l =? 1 then e' else env w.
Proof.
  intros Hset Hv Hnd Hfr Hev. apply NoDup_cons in Hnd as [Ha Hnd].
  unfold fresh in Hfr. simpl in Hfr. apply Forall_cons in Hfr as [Hb Hl]. simpl in Hb |- *.
  fold (flowbits_node a o l) in Hb |- *. rewrite Hb. set (w1 := set_last w a _). unfold eval_option. simpl. rewrite Hset. simpl.
  destruct (leaf_nodes_eval fuel a l Hnd (set_env w1 (env w1)) (cursor_copy c) (vars w1) 0) as (w2 & E & He & Hk); [|done..|].
  { apply Forall_forall. intros x Hx. rewrite Forall_forall in Hl.
    assert (leaf_node x ∈ flat_map nodes (map leaf_node l)) as Hin.
    { apply list_elem_of_In, in_flat_map. exists (leaf_node x). split; [|by left].
      apply in_map. by rewrite <- list_elem_of_In. }
    specialize (Hl _ Hin). simpl in Hl. unfold node_state. simpl. rewrite lookup_insert_ne; [done|].
    intros ->. apply Ha. by apply list_elem_of_fmap_2. }
  simpl in E |- *. rewrite E. simpl. rewrite andb_false_r. simpl. unfold finish, is_setoperation. simpl. rewrite Hset. simpl.
  rewrite ?Z.add_0_l in *. bcase (accepted l =? 1) as E1; simpl.
  - unfold call_eval. rewrite He. simpl. destruct (Hev (vars w2)) as (s & v' & c' & ->). simpl. eexists _, _. split; [reflexivity|]. by destruct (flowbit_failed _).
  - eexists _, _. split; [done|]. by destruct (flowbit_failed _).
Qed.
End Flowbits.

(** An option that counts in [Env] how often it is evaluated. *)
Definition counting_api : IpsOptionApi unit Z := {|
  ips_eval _ v e c := Some (MATCH, v, e + 1, c); ips_retry _ _ := false; ips_pattern _ := None;
  FlowBits_SetOperation _ := true |}.

(** One rule sets the bit, two do not. *)
Lemma flowbits_set_needs_one_rule_witness :
  let run l := @detection_option_node_evaluate _ _ _ counting_api demo_pkt 1 0 0 (fun _ : Z => []) (fun _ _ => true)
    (fun _ => None) (fun e => (false, e)) 1 (flowbits_node 0 tt l)
    (MkWorld ∅ demo_vars false false [] [] 0) Content.demo_cursor in
  (exists r w', run [(1%nat, 7)] = Some (r, w') /\ env w' = 1) /\
  (exists r w', run [(1%nat, 7); (2%nat, 8)] = Some (r, w') /\ env w' = 0).
Proof.
  assert (forall l, NoDup (0%nat :: map fst l) ->
    fresh demo_pkt 1 (MkWorld ∅ demo_vars false false [] [] 0) (flowbits_node 0 tt l) ->
    exists r w', @detection_option_node_evaluate _ _ _ counting_api demo_pkt 1 0 0 (fun _ : Z => []) (fun _ _ => true)
      (fun _ => None) (fun e => (false, e)) 1 (flowbits_node 0 tt l)
      (MkWorld ∅ demo_vars false false [] [] 0) Content.demo_cursor = Some (r, w') /\
      env w' = if accepted demo_pkt 0 (fun _ => []) (fun _ _ => true) l =? 1 then 1 else 0) as H.
  { intros l Hnd Hf.
    refine (@flowbits_set_needs_one_rule _ _ _ counting_api demo_pkt 1 0 0 (fun _ : Z => []) (fun _ _ => true) 0 0 tt l
      (MkWorld ∅ demo_vars false false [] [] 0) Content.demo_cursor 1 eq_refl demo_world_ok Hnd Hf _).
    intros v. eexists _, _, _. simpl. reflexivity. }
  split; (apply H; [apply (bool_decide_unpack _); vm_compute; exact I|vm_compute; repeat constructor]).
Defined.

(** ** Rules as lists of pointers to options *)

Section Heap.
Variable pk : IpsCommon.Packet.
Variable hp : Headers.Packet.
(** The option object at an address. *)
Variable heap : nat -> RuleOption.

Definition heap_eval (o : nat) := rule_eval pk hp (heap o).
Definition heap_api : IpsOptionApi nat unit := {|
  ips_eval o v e c := match heap_eval o v c with Some (s, v, c) => Some (s, v, e, c) | None => None end;
  ips_retry o := rule_retry (heap o);
  ips_pattern o := rule_pattern (heap o);
  FlowBits_SetOperation _ := false |}.

Lemma heap_laws B : B < 2 ^ 29 -> @OptionLaws _ _ heap_api (fun o => rule_ok (heap o)) B.
Proof.
  intros HB. split; [|done]. intros o v e c. exact (@ips_eval_ok _ _ (rule_api pk hp) _ _ (rule_laws pk hp B HB) (heap o) v e c).
Qed.

(** Contents whose modifiers are constants do not look at variables. *)
Lemma content_no_vars v v' cd c :
  Content.offset_var cd = -1 -> Content.depth_var cd = -1 -> CheckANDPatternMatch v cd c = CheckANDPatternMatch v' cd c.
Proof.
  intros Ho Hd. unfold CheckANDPatternMatch, uniSearchReal.
  assert (search_window v cd c = search_window v' cd c) as -> by (unfold search_window, var_or; by rewrite Ho, Hd).
  done.
Qed.

Lemma contents_closed p run_num ty test os c :
  Forall (fun o => exists cd last, heap o = RContent cd last /\ Content.offset_var cd = -1 /\ Content.depth_var cd = -1) os ->
  forall v v', @chain_matches _ _ heap_api ty test p run_num heap_eval os v c =
               @chain_matches _ _ heap_api ty test p run_num heap_eval os v' c.
Proof.
  intros H. revert c. induction H as [|o os (cd & last & Eo & Hov & Hdv) Hos IH]; intros c v v'; [done|]. simpl.
  unfold opt_step. destruct (test o); simpl; [|done]. destruct (_ && _); [done|]. rewrite andb_false_r.
  unfold heap_eval. rewrite Eo. simpl. rewrite (content_no_vars v v' cd) by done.
  destruct (CheckANDPatternMatch v' cd _) as [[[] c']|]; auto.
Qed.
End Heap.

(** Rule 7 has one content, rule 8 has it and another one; they share a node. *)
Definition demo_objects (o : nat) : RuleOption := RContent demo_cd None.
Definition demo_rules : list (list nat * Z) := [([0%nat], 7); ([0%nat; 1%nat], 8)].
Definition demo_root := create_all (fun _ => RULE_OPTION_TYPE_CONTENT) (fun _ => false) (fun _ => true) (fun _ => false)
  (fun otn => (1, otn, 1)) demo_rules [] 0.

Lemma tree_reports_matching_rules_witness :
  exists r w', @detection_option_tree_evaluate _ _ _ (heap_api demo_pk demo_packet demo_objects) demo_pkt 1 0 0 (fun _ => [])
      (fun _ _ => true) (fun _ => None) (fun e => (false, e)) 6 false demo_root.1 demo_world Content.demo_cursor = Some (r, w') /\
    exists new, calls w' = map (pair 0) new /\ new ≡ₚ [7; 8].
Proof.
  assert (5 < 2 ^ 29) as HB by lia. assert (5 < Z.of_nat 6) as Hf by lia.
  assert (sz Content.demo_cursor <= 5) as Hs by (vm_compute; discriminate).
  assert (NoDup (map (fun r : list nat * Z => (1, r.2, 1)) demo_rules)) as Hnd
    by (apply (bool_decide_unpack _); vm_compute; exact I).
  destruct demo_root as [root next] eqn:Er.
  assert (Forall (fresh demo_pkt 1 demo_world) root) as Hfr
    by (vm_compute in Er; injection Er as <- <-; vm_compute; repeat constructor).
  pose proof (@tree_reports_matching_rules nat Z unit _ (heap_api demo_pk demo_packet demo_objects)
    (fun _ => RULE_OPTION_TYPE_CONTENT) (fun _ => false) (fun _ => true) (fun _ => false) (fun otn => (1, otn, 1))
    demo_pkt 1 0 0 (fun _ => []) (fun _ _ => true) (heap_eval demo_pk demo_packet demo_objects)
    (fun o => rule_ok (demo_objects o)) 5 (heap_laws demo_pk demo_packet demo_objects 5 HB) (fun o v e c _ => eq_refl)
    6 demo_rules root next demo_world Content.demo_cursor Hf demo_world_ok Content.demo_cursor_wf Hs eq_refl Hnd) as H.
  destruct H as (r & w' & E & new & Hc & Hp); [|exact Er|exact Hfr|].
  - assert (forall l : list nat, Forall (fun o => rule_ok (demo_objects o) /\ false = false) l /\
      forall v v', vars_ok v -> vars_ok v' ->
      @chain_matches _ _ (heap_api demo_pk demo_packet demo_objects) (fun _ => RULE_OPTION_TYPE_CONTENT) (fun _ => true)
        demo_pkt 1 (heap_eval demo_pk demo_packet demo_objects) l v Content.demo_cursor =
      @chain_matches _ _ (heap_api demo_pk demo_packet demo_objects) (fun _ => RULE_OPTION_TYPE_CONTENT) (fun _ => true)
        demo_pkt 1 (heap_eval demo_pk demo_packet demo_objects) l v' Content.demo_cursor) as Hl.
    { intros l. split.
      - apply Forall_forall. intros o _. split; [exact demo_rule_ok|reflexivity].
      - intros v v' _ _. apply contents_closed. apply Forall_forall. intros o _. exists demo_cd, None. split; [reflexivity|].
        split; vm_compute; reflexivity. }
    apply Forall_forall. intros x _. apply Hl.
  - exists r, w'. split; [exact E|]. exists new. split; [exact Hc|]. rewrite Hp. vm_compute. reflexivity.
Defined.
