(* ===== verification/EventQueue.v ===== *)
(** * EventQueue: the queue of events of a packet (events/sfeventq.cc)

    Rules that match queue an event; the first few are logged when the packet
    has been inspected.  The memory of the queue is allocated once: [max_nodes]
    nodes, and one event more than that, the reserve.  A pointer to an event or
    a node is its index in [event_mem] or [node_mem]. *)

From S2P Require Import Prelude.

Section Queue.
(** The event structure, and what [snort_calloc] leaves in one. *)
Context {E : Type}.
Variable zero_event : E.

(** ** Data and operations *)

Record SF_EVENTQ_NODE := MkEvNode { ev_event : nat; ev_prev : option nat; ev_next : option nat }.

Record SF_EVENTQ := MkEventq {
  head : option nat;
  last : option nat;
  node_mem : list SF_EVENTQ_NODE;
  event_mem : list E;
  reserve_event : option nat;
  max_nodes : Z;
  log_nodes : Z;
  cur_nodes : Z;
  cur_events : Z;
  fails : Z }.

Definition sfeventq_new (max_nodes log_nodes event_size : Z) : option SF_EVENTQ :=
  if (max_nodes <=? 0) || (log_nodes <=? 0) || (event_size <=? 0) then None
  else Some (MkEventq None None
    (replicate (Z.to_nat max_nodes) (MkEvNode 0 None None))
    (replicate (Z.to_nat (max_nodes + 1)) zero_event)
    (Some (Z.to_nat max_nodes)) max_nodes log_nodes 0 0 0).

Definition sfeventq_event_alloc (q : SF_EVENTQ) : option nat * SF_EVENTQ :=
  if cur_events q >=? max_nodes q then
    match reserve_event q with
    | None => (None, q)
    | Some e =>
        (Some e, MkEventq (head q) (last q) (node_mem q) (event_mem q) None
                   (max_nodes q) (log_nodes q) (cur_nodes q) (cur_events q) (fails q))
    end
  else
    (Some (Z.to_nat (cur_events q)),
     MkEventq (head q) (last q) (node_mem q) (event_mem q) (reserve_event q)
       (max_nodes q) (log_nodes q) (cur_nodes q) (cur_events q + 1) (fails q)).

(** The number of events dropped since the last call. *)
Definition sfeventq_reset (q : SF_EVENTQ) : Z * SF_EVENTQ :=
  (fails q, MkEventq None (last q) (node_mem q) (event_mem q) (Some (Z.to_nat (max_nodes q)))
              (max_nodes q) (log_nodes q) 0 0 0).

Definition get_eventq_node (q : SF_EVENTQ) : option nat * SF_EVENTQ :=
  if cur_nodes q >=? max_nodes q then (None, q)
  else
    (Some (Z.to_nat (cur_nodes q)),
     MkEventq (head q) (last q) (node_mem q) (event_mem q) (reserve_event q)
       (max_nodes q) (log_nodes q) (cur_nodes q + 1) (cur_events q) (fails q)).

Definition set_links (q : SF_EVENTQ) (mem : list SF_EVENTQ_NODE) (h l : option nat) : SF_EVENTQ :=
  MkEventq h l mem (event_mem q) (reserve_event q)
    (max_nodes q) (log_nodes q) (cur_nodes q) (cur_events q) (fails q).

Definition set_fails (q : SF_EVENTQ) (f : Z) : SF_EVENTQ :=
  MkEventq (head q) (last q) (node_mem q) (event_mem q) (reserve_event q)
    (max_nodes q) (log_nodes q) (cur_nodes q) (cur_events q) f.

Definition set_event (q : SF_EVENTQ) (e : nat) (x : E) : SF_EVENTQ :=
  MkEventq (head q) (last q) (node_mem q) (<[e := x]> (event_mem q)) (reserve_event q)
    (max_nodes q) (log_nodes q) (cur_nodes q) (cur_events q) (fails q).

(** [last->next = node]. *)
Definition link_next (mem : list SF_EVENTQ_NODE) (l : option nat) (node : nat) : list SF_EVENTQ_NODE :=
  match l with
  | Some i => alter (fun x => MkEvNode (ev_event x) (ev_prev x) (Some node)) i mem
  | None => mem
  end.

Definition sfeventq_add (q : SF_EVENTQ) (event : nat) : Z * SF_EVENTQ :=
  match get_eventq_node q with
  | (None, q) => (-1, set_fails q (u32 (fails q + 1)))
  | (Some node, q) =>
      let mem := <[node := MkEvNode event None None]> (node_mem q) in
      if cur_nodes q =? 1 then (0, set_links q mem (Some node) (Some node))
      else
        let mem := <[node := MkEvNode event (last q) None]> mem in
        (0, set_links q (link_next mem (last q) node) (head q) (Some node))
  end.

Section Action.
(** The user function on an event, which may change it: whether it failed. *)
Context {A : Type}.
Variable action_func : E -> A -> bool * E * A.

Fixpoint action_loop (fuel : nat) (node : option nat) (logged : Z) (q : SF_EVENTQ) (user : A)
    : option (Z * SF_EVENTQ * A) :=
  match fuel with
  | O => None
  | S fuel =>
      match node with
      | None => Some (1, q, user)
      | Some i =>
          if logged >=? log_nodes q then Some (1, q, user)
          else
            match node_mem q !! i with
            | None => None
            | Some n =>
                match event_mem q !! ev_event n with
                | None => None
                | Some x =>
                    let '(failed, x, user) := action_func x user in
                    let q := set_event q (ev_event n) x in
                    if failed : bool then Some (-1, q, user)
                    else action_loop fuel (ev_next n) (logged + 1) q user
                end
            end
      end
  end.

(** [None]: the list does not end within [fuel] nodes, or leaves the memory. *)
Definition sfeventq_action (fuel : nat) (q : SF_EVENTQ) (user : A) : option (Z * SF_EVENTQ * A) :=
  match head q with
  | None => Some (0, q, user)
  | Some _ => action_loop fuel (head q) 0 q user
  end.
End Action.

(** [DetectionEngine::queue_event] once the rule is known to be in the policy:
    allocate, fill in, add. *)
Definition queue_event (q : SF_EVENTQ) (x : E) : Z * SF_EVENTQ :=
  match sfeventq_event_alloc q with
  | (None, q) => (-1, q)
  | (Some e, q) =>
      let '(r, q) := sfeventq_add (set_event q e x) e in
      (if truth r then -1 else 0, q)
  end.

(** ** What the memory stands for *)

(** Node [i] of a list of [n] nodes. *)
Definition nth_node (n i : nat) : SF_EVENTQ_NODE :=
  MkEvNode i (if decide (i = O) then None else Some (i - 1)%nat) (if decide (S i < n)%nat then Some (S i) else None).

(** [q] holds the events [l]; [dropped] are those it refused. *)
Record is_queue (mx lg : Z) (q : SF_EVENTQ) (l : list E) (dropped : bool) : Prop := {
  iq_max : max_nodes q = mx;
  iq_log : log_nodes q = lg;
  iq_pos : 0 < mx;
  iq_nodes : length (node_mem q) = Z.to_nat mx;
  iq_events : length (event_mem q) = S (Z.to_nat mx);
  iq_len : Zlen l <= mx;
  iq_cur : cur_nodes q = Zlen l;
  iq_cur_events : cur_events q = Zlen l;
  iq_head : head q = if decide (l = []) then None else Some O;
  iq_last : l <> [] -> last q = Some (length l - 1)%nat;
  iq_links : forall i, (i < length l)%nat -> node_mem q !! i = Some (nth_node (length l) i);
  iq_store : forall i x, l !! i = Some x -> event_mem q !! i = Some x;
  iq_reserve : reserve_event q = if dropped then None else Some (Z.to_nat mx);
  iq_fails : fails q = b2z dropped;
  iq_full : dropped = true -> Zlen l = mx }.

Lemma new_is_queue mx lg sz q :
  sfeventq_new mx lg sz = Some q -> is_queue mx lg q [] false /\ 0 < lg.
Proof.
  unfold sfeventq_new. bcases; [done|]. intros [= <-]. split; [|lia].
  split; simpl; rewrite ?length_replicate; try done; try lia.
  rewrite Zlen_nil; lia.
Qed.

Lemma reset_is_queue mx lg q l d :
  is_queue mx lg q l d -> exists q', sfeventq_reset q = (b2z d, q') /\ is_queue mx lg q' [] false.
Proof.
  intros H. unfold sfeventq_reset. rewrite (iq_fails _ _ _ _ _ H), (iq_max _ _ _ _ _ H).
  eexists; split; [done|]. destruct H. split; simpl; try done; rewrite ?Zlen_nil; lia.
Qed.

Lemma nth_node_snoc n i : (i < n)%nat ->
  nth_node (S n) i = if decide (i = n - 1)%nat then MkEvNode i (ev_prev (nth_node n i)) (Some n) else nth_node n i.
Proof. intros H. unfold nth_node. repeat case_decide; simpl; try lia; do 2 f_equal; lia. Qed.

(** A queue with room takes the event at its end. *)
Lemma queue_event_room mx lg q l d x :
  is_queue mx lg q l d -> Zlen l < mx ->
  exists q', queue_event q x = (0, q') /\ is_queue mx lg q' (l ++ [x]) false.
Proof.
  intros H Hroom. destruct d; [pose proof (iq_full _ _ _ _ _ H eq_refl); lia|].
  destruct H as [Hmx Hlg Hpos Hn He Hle Hcur Hcev Hh Hl Hlk Hst Hres Hf _].
  unfold queue_event, sfeventq_event_alloc. rewrite Hcev, Hmx.
  assert (G : (Zlen l >=? mx) = false) by (rewrite Z.geb_leb; apply Z.leb_gt; lia). rewrite G.
  unfold sfeventq_add, get_eventq_node. simpl. rewrite Hcur, G. simpl.
  unfold Zlen in *. rewrite !Nat2Z.id.
  assert (forall m h p, (forall i, (i < length l)%nat -> m !! i = Some (nth_node (S (length l)) i)) ->
    m !! length l = Some (nth_node (S (length l)) (length l)) -> length m = Z.to_nat mx ->
    h = Some O -> p = Some (length l) ->
    is_queue mx lg (MkEventq h p m (<[length l:=x]> (event_mem q)) (reserve_event q) mx
      (log_nodes q) (Z.of_nat (length l) + 1) (Z.of_nat (length l) + 1) (fails q)) (l ++ [x]) false) as Hmk.
  { intros m h p Hm Hm' Hlen -> ->.
    split; simpl; rewrite ?length_insert, ?length_app; unfold Zlen; rewrite ?length_app; simpl; try done; try lia.
    - by destruct l.
    - intros _. f_equal. lia.
    - intros i Hi. rewrite Nat.add_1_r. destruct (decide (i = length l)) as [->|]; [done|]. apply Hm. lia.
    - intros i y [Hy|[Hi Hy]]%lookup_app_Some.
      + rewrite list_lookup_insert_ne; [by apply Hst|]. apply lookup_lt_Some in Hy. lia.
      + apply list_lookup_singleton_Some in Hy as [Hi0 <-]. replace i with (length l) by lia.
        apply list_lookup_insert_eq. lia. }
  destruct (decide (l = [])) as [->|Hne].
  - simpl in *. eexists; split; [done|]. apply Hmk; simpl; rewrite ?length_insert; try done; [lia|].
    apply list_lookup_insert_eq. lia.
  - bcase (Z.of_nat (length l) + 1 =? 1) as G1; [destruct l; [done|simpl in G1; lia]|].
    eexists; split; [done|]. rewrite (Hl Hne). simpl.
    assert (0 < length l)%nat by (destruct l; simpl; [done|lia]).
    apply Hmk; simpl; rewrite ?length_alter, ?length_insert; try done.
    + intros i Hi. rewrite nth_node_snoc by done. case_decide as Hi'.
      * rewrite Hi', list_lookup_alter_eq, !list_lookup_insert_ne by lia.
        rewrite Hlk by lia. done.
      * rewrite list_lookup_alter_ne, !list_lookup_insert_ne by lia. by apply Hlk.
    + rewrite list_lookup_alter_ne by lia. rewrite list_lookup_insert_eq by (rewrite length_insert; lia).
      unfold nth_node. repeat case_decide; try lia. done.
Qed.

(** A full queue refuses it; only the first refusal is counted. *)
Lemma queue_event_full mx lg q l d x :
  is_queue mx lg q l d -> Zlen l = mx ->
  exists q', queue_event q x = (-1, q') /\ is_queue mx lg q' l true.
Proof.
  intros [Hmx Hlg Hpos Hn He Hle Hcur Hcev Hh Hl Hlk Hst Hres Hf Hfull] Hfl.
  unfold queue_event, sfeventq_event_alloc. rewrite Hcev, Hmx, Hres.
  assert (G : (Zlen l >=? mx) = true) by (rewrite Z.geb_leb; apply Z.leb_le; lia). rewrite G.
  destruct d; [by exists q|]. simpl. unfold sfeventq_add, get_eventq_node. simpl.
  rewrite Hcur, G. simpl. eexists; split; [done|].
  split; simpl; rewrite ?length_insert; try done; [|by rewrite Hf].
  intros i y Hy. apply lookup_lt_Some in Hy as Hi. unfold Zlen in *.
  rewrite list_lookup_insert_ne by lia. by apply Hst.
Qed.

Section ActionSpec.
Context {A : Type}.
Variable f : E -> A -> bool * E * A.

(** The user function on a list of events until it fails: the events as it
    leaves them. *)
Fixpoint log_all (l : list E) (user : A) : bool * list E * A :=
  match l with
  | [] => (false, [], user)
  | x :: l =>
      let '(failed, x, user) := f x user in
      if failed then (true, x :: l, user)
      else let '(failed, l, user) := log_all l user in (failed, x :: l, user)
  end.

(** What the action does to a queue's events. *)
Definition log_events (lg : Z) (l : list E) (user : A) : Z * list E * A :=
  match l with
  | [] => (0, [], user)
  | _ =>
      let '(failed, l', user) := log_all (take (Z.to_nat lg) l) user in
      (if failed then -1 else 1, l' ++ drop (Z.to_nat lg) l, user)
  end.

Lemma is_queue_set_event mx lg q l d i x :
  is_queue mx lg q l d -> (i < length l)%nat -> is_queue mx lg (set_event q i x) (<[i := x]> l) d.
Proof.
  intros [Hmx Hlg Hpos Hn He Hle Hcur Hcev Hh Hl Hlk Hst Hres Hf Hfull] Hi. unfold Zlen in *.
  split; simpl; unfold Zlen; rewrite ?length_insert; try done.
  - rewrite Hh. destruct l; [done|]. by destruct i.
  - intros _. apply Hl. by destruct l; simpl in Hi; [lia|].
  - intros j y Hy. destruct (decide (i = j)) as [->|].
    + rewrite list_lookup_insert_eq in Hy by done. injection Hy as ->. apply list_lookup_insert_eq. lia.
    + rewrite list_lookup_insert_ne in Hy |- * by done. by apply Hst.
Qed.

Lemma action_loop_spec mx lg fuel : forall i q done l d user,
  is_queue mx lg q (done ++ l) d -> length done = i -> 0 <= Z.of_nat i -> (length l < fuel)%nat ->
  let '(failed, l', user') := log_all (take (Z.to_nat (lg - Z.of_nat i)) l) user in
  exists q', action_loop f fuel (if decide (l = []) then None else Some i) (Z.of_nat i) q user =
    Some (if failed then -1 else 1, q', user') /\
  is_queue mx lg q' (done ++ l' ++ drop (Z.to_nat (lg - Z.of_nat i)) l) d.
Proof.
  induction fuel as [|fuel IH]; intros i q dn l d user Hq Hdn Hi Hf; [lia|].
  destruct l as [|x l]; simpl.
  { rewrite take_nil, drop_nil. simpl. eauto. }
  rewrite (iq_log _ _ _ _ _ Hq). bcase (Z.of_nat i >=? lg) as G.
  { replace (Z.to_nat (lg - Z.of_nat i)) with O by lia. simpl. eauto. }
  replace (Z.to_nat (lg - Z.of_nat i)) with (S (Z.to_nat (lg - Z.of_nat (S i)))) by lia. simpl.
  assert (i < length (dn ++ x :: l))%nat as Hlt by (rewrite length_app; simpl; lia).
  rewrite (iq_links _ _ _ _ _ Hq i Hlt).
  assert ((dn ++ x :: l) !! i = Some x) as Hx by (by subst i; rewrite list_lookup_middle).
  simpl. rewrite (iq_store _ _ _ _ _ Hq i x Hx).
  destruct (f x user) as [[failed y] user1] eqn:Hfx.
  pose proof (is_queue_set_event _ _ _ _ _ i y Hq Hlt) as Hq'.
  replace (<[i:=y]> (dn ++ x :: l)) with (dn ++ y :: l) in Hq'
    by (subst i; rewrite insert_app_r_alt by lia; by rewrite Nat.sub_diag).
  destruct failed.
  { eexists; split; [done|]. simpl. by rewrite take_drop. }
  specialize (IH (S i) (set_event q i y) (dn ++ [y]) l d user1).
  rewrite <- !app_assoc, length_app in IH. simpl in IH.
  specialize (IH Hq' ltac:(lia) ltac:(lia) ltac:(simpl in Hf; lia)).
  destruct (log_all _ user1) as [[fl l'] user'].
  destruct IH as (q' & Hrun & Hq''). exists q'. rewrite <- !app_assoc in Hq''. simpl in Hq''.
  split; [|done]. rewrite <- Hrun. rewrite length_app. simpl.
  replace (Z.of_nat i + 1) with (Z.of_nat (S i)) by lia. f_equal.
  repeat case_decide; subst; simpl in *; try done; try lia. destruct l; [done|simpl in *; lia].
Qed.

Lemma sfeventq_action_spec mx lg q l d user fuel :
  is_queue mx lg q l d -> mx < Z.of_nat fuel ->
  let '(r, l', user') := log_events lg l user in
  exists q', sfeventq_action f fuel q user = Some (r, q', user') /\ is_queue mx lg q' l' d.
Proof.
  intros Hq Hf. unfold sfeventq_action. rewrite (iq_head _ _ _ _ _ Hq).
  pose proof (iq_len _ _ _ _ _ Hq) as Hle. unfold Zlen in Hle.
  destruct l as [|x l]; simpl; [eauto|].
  pose proof (action_loop_spec mx lg fuel 0 q [] (x :: l) d user Hq eq_refl ltac:(lia) ltac:(lia)) as H.
  rewrite Z.sub_0_r in H. simpl in H. by destruct (log_all _ user) as [[fl l'] user'].
Qed.
End ActionSpec.

(** ** The abstract queue *)

(** A bounded list of events that keeps the first [mx] of a packet. *)
Inductive op := Queue (x : E) | Log | Reset.

Section Refinement.
Context {A : Type}.
Variable f : E -> A -> bool * E * A.
Variables mx lg : Z.

Definition abs_step (l : list E) (dropped : bool) (user : A) (o : op) : Z * list E * bool * A :=
  match o with
  | Queue x => if Zlen l <? mx then (0, l ++ [x], false, user) else (-1, l, true, user)
  | Log => let '(r, l, user) := log_events f lg l user in (r, l, dropped, user)
  | Reset => (b2z dropped, [], false, user)
  end.

Fixpoint abs_run (l : list E) (dropped : bool) (user : A) (ops : list op) : list Z * A :=
  match ops with
  | [] => ([], user)
  | o :: ops =>
      let '(r, l, dropped, user) := abs_step l dropped user o in
      let '(rs, user) := abs_run l dropped user ops in (r :: rs, user)
  end.

Definition step (fuel : nat) (q : SF_EVENTQ) (user : A) (o : op) : option (Z * SF_EVENTQ * A) :=
  match o with
  | Queue x => let '(r, q) := queue_event q x in Some (r, q, user)
  | Log => sfeventq_action f fuel q user
  | Reset => let '(r, q) := sfeventq_reset q in Some (r, q, user)
  end.

Fixpoint run (fuel : nat) (q : SF_EVENTQ) (user : A) (ops : list op) : option (list Z * A) :=
  match ops with
  | [] => Some ([], user)
  | o :: ops =>
      match step fuel q user o with
      | None => None
      | Some (r, q, user) =>
          match run fuel q user ops with Some (rs, user) => Some (r :: rs, user) | None => None end
      end
  end.

Lemma step_refines fuel q l d user o :
  is_queue mx lg q l d -> mx < Z.of_nat fuel ->
  let '(r, l', d', user') := abs_step l d user o in
  exists q', step fuel q user o = Some (r, q', user') /\ is_queue mx lg q' l' d'.
Proof.
  intros Hq Hf. destruct o as [x| |]; cbn [step abs_step].
  - bcase (Zlen l <? mx) as G.
    + destruct (queue_event_room _ _ _ _ _ x Hq G) as (q' & -> & ?). eauto.
    + pose proof (iq_len _ _ _ _ _ Hq).
      destruct (queue_event_full _ _ _ _ _ x Hq ltac:(lia)) as (q' & -> & ?). eauto.
  - pose proof (sfeventq_action_spec f _ _ _ _ _ user fuel Hq Hf) as H.
    by destruct (log_events f lg l user) as [[r l'] user'].
  - destruct (reset_is_queue _ _ _ _ _ Hq) as (q' & -> & ?). eauto.
Qed.

(** The whole behaviour of a new queue, also when more events are queued than it
    has room for: these are refused. *)
Lemma eventq_answers sz fuel q user ops :
  sfeventq_new mx lg sz = Some q -> mx < Z.of_nat fuel ->
  run fuel q user ops = Some (abs_run [] false user ops).
Proof.
  intros [Hq _]%new_is_queue Hf. revert Hq. generalize (@nil E) false. revert q user.
  induction ops as [|o ops IH]; intros q user l d Hq; simpl; [done|].
  pose proof (step_refines fuel q l d user o Hq Hf) as H.
  destruct (abs_step l d user o) as [[[r l'] d'] user']. destruct H as (q' & -> & Hq').
  rewrite (IH q' user' l' d' Hq'). by destruct (abs_run l' d' user' ops).
Qed.

(** A plain list of events. *)
Definition list_step (l : list E) (user : A) (o : op) : Z * list E * A :=
  match o with
  | Queue x => (0, l ++ [x], user)
  | Log => log_events f lg l user
  | Reset => (0, [], user)
  end.
Fixpoint list_run (l : list E) (user : A) (ops : list op) : list Z * A :=
  match ops with
  | [] => ([], user)
  | o :: ops =>
      let '(r, l, user) := list_step l user o in
      let '(rs, user) := list_run l user ops in (r :: rs, user)
  end.

(** No more than [mx] events are queued before a reset; there are [n] so far. *)
Fixpoint room (n : Z) (ops : list op) : bool :=
  match ops with
  | [] => true
  | Queue _ :: ops => (n <? mx) && room (n + 1) ops
  | Log :: ops => room n ops
  | Reset :: ops => room 0 ops
  end.

Lemma log_all_length l : forall user, length (log_all f l user).1.2 = length l.
Proof.
  induction l as [|x l IH]; intros user; [done|]. cbn [log_all]. destruct (f x user) as [[failed y] user'].
  destruct failed; [done|]. specialize (IH user'). destruct (log_all f l user') as [[b l'] u]. cbn in *. by rewrite IH.
Qed.
Lemma log_events_length l user : length (log_events f lg l user).1.2 = length l.
Proof.
  unfold log_events. destruct l as [|x l]; [done|]. pose proof (log_all_length (take (Z.to_nat lg) (x :: l)) user) as H.
  destruct (log_all _ _ _) as [[b l'] u]. cbn [fst snd] in *. rewrite length_app, H, <- length_app. by rewrite take_drop.
Qed.

Lemma abs_run_room ops : forall l user, room (Zlen l) ops = true -> abs_run l false user ops = list_run l user ops.
Proof.
  induction ops as [|o ops IH]; intros l user Hr; [done|]. cbn [abs_run list_run]. destruct o as [x| |]; cbn [abs_step list_step room] in *.
  - apply andb_prop in Hr as [-> Hr]. rewrite IH; [done|]. rewrite Zlen_app. exact Hr.
  - pose proof (log_events_length l user) as Hl. destruct (log_events f lg l user) as [[r l'] user']. cbn [fst snd] in Hl. rewrite IH; [done|]. unfold Zlen in *. by rewrite Hl.
  - by rewrite IH.
Qed.

End Refinement.
End Queue.


(** Four events into a queue of two: the last two are dropped, whatever they are,
    and the count that the reset returns is 1. *)
Theorem full_queue_drops : exists q, sfeventq_new 0 2 1 4 = Some q /\
  run (fun x seen => (false, x + 100, seen ++ [x])) 3 q [] [Queue 7; Queue 8; Queue 9; Queue 6; Log; Log; Reset; Queue 5; Log] =
    Some ([0; 0; -1; -1; 1; 1; 1; 0; 1], [7; 107; 5]).
Proof. eexists. split; reflexivity. Qed.
