(* ===== verification/FpDetect.v ===== *)
(** * FpDetect: from matched rules to events (detection/fp_detect.cc)

    The evaluator calls [fpAddMatch] for each rule that matched; the rules are
    kept per action group.  When the packet is done, [fpFinalSelectEvent] sorts
    the groups and queues events, which are logged from the queue.  Which rules
    were already alerted on is asked of the session ([Session]); the sessions of
    stream/libtcp and stream/ip are the implementations. *)

From stdpp Require Import sorting.
From S2P Require Import Prelude EventQueue.

Module Actions.
Inductive Type_ := NONE | LOG | PASS | ALERT | DROP | BLOCK | RESET | MAX.
Definition is_pass (a : Type_) : bool := match a with PASS => true | _ => false end.
End Actions.

(** ** Rules *)

(** [evalIndex] is [listhead->ruleListNode->evalIndex]. *)
Record RuleTreeNode := MkRtn { rtn_type : Actions.Type_; evalIndex : Z }.

(** What is read of an [OptTreeNode]; [proto_nodes] are its
    [proto_node_num] headers by policy.  Rules are compared as pointers:
    [otn_address] tells them apart. *)
Record OptTreeNode := MkOtn {
  otn_address : nat;
  gid : Z;
  sid : Z;
  rev : Z;
  priority : Z;
  longestPatternLen : Z;
  proto_nodes : list (option RuleTreeNode) }.

#[export] Instance Action_eq_dec : EqDecision Actions.Type_.
Proof. solve_decision. Defined.
#[export] Instance RuleTreeNode_eq_dec : EqDecision RuleTreeNode.
Proof. solve_decision. Defined.
#[export] Instance OptTreeNode_eq_dec : EqDecision OptTreeNode.
Proof. solve_decision. Defined.

Definition getRtnFromOtn (policyId : Z) (otn : OptTreeNode) : option RuleTreeNode :=
  if Zlen (proto_nodes otn) >? policyId then default None (rd (proto_nodes otn) policyId) else None.

(** ** Alerts of a session *)

(** [Session::check_alerted] and [add_alert] for the packet at hand. *)
Class Session (S : Type) := {
  check_alerted : S -> Z -> Z -> bool;
  add_alert : S -> Z -> Z -> bool * S }.

(** Recording an alert does not change what is known of others. *)
Class SessionLaws (S : Type) `{!Session S} : Prop := {
  add_alert_other s g i g' i' : (g, i) <> (g', i') ->
    check_alerted (add_alert s g i).2 g' i' = check_alerted s g' i' }.

(** stream/libtcp/tcp_stream_session.cc *)
Module TcpStreamSession.
Definition MAX_SESSION_ALERTS : Z := 8.
Record StreamAlertInfo := MkAlert { ai_gid : Z; ai_sid : Z; ai_seq : Z; ai_event_id : Z; ai_event_second : Z }.

(** The alerts of the two trackers. *)
Record t := MkSession { client : list StreamAlertInfo; server : list StreamAlertInfo }.

Section Packet.
(** [p->packet_flags & PKT_REBUILT_STREAM], and whether the source address is
    the client's. *)
Variables rebuilt from_client : bool.

Definition tracker (s : t) : list StreamAlertInfo := if from_client then server s else client s.
Definition set_tracker (s : t) (l : list StreamAlertInfo) : t :=
  if from_client then MkSession (client s) l else MkSession l (server s).

Definition add_alert (s : t) (gid sid : Z) : bool * t :=
  if Zlen (tracker s) >=? MAX_SESSION_ALERTS then (false, s)
  else (true, set_tracker s (tracker s ++ [MkAlert gid sid 0 0 0])).

Definition check_alerted (s : t) (gid sid : Z) : bool :=
  if negb rebuilt then false
  else existsb (fun a => (ai_gid a =? gid) && (ai_sid a =? sid)) (tracker s).

(** [SEQ_EQ (ai->seq, 0)]. *)
Fixpoint update_alerts (l : list StreamAlertInfo) (gid sid event_id event_second : Z) : Z * list StreamAlertInfo :=
  match l with
  | [] => (-1, [])
  | a :: l =>
      if (ai_gid a =? gid) && (ai_sid a =? sid) && (s32 (ai_seq a - 0) =? 0)
      then (0, MkAlert (ai_gid a) (ai_sid a) (ai_seq a) event_id event_second :: l)
      else let '(r, l) := update_alerts l gid sid event_id event_second in (r, a :: l)
  end.
Definition update_alert (s : t) (gid sid event_id event_second : Z) : Z * t :=
  let '(r, l) := update_alerts (tracker s) gid sid event_id event_second in (r, set_tracker s l).

#[local] Instance session : Session t := {| FpDetect.check_alerted := check_alerted; FpDetect.add_alert := add_alert |}.

Lemma tcp_laws : SessionLaws t.
Proof.
  split. intros s g i g' i' Hne. simpl. unfold check_alerted, add_alert. bcases; [done..|]. simpl.
  replace (tracker (set_tracker s _)) with (tracker s ++ [MkAlert g i 0 0 0])
    by (unfold tracker, set_tracker; by destruct from_client).
  rewrite existsb_app. simpl. replace ((g =? g') && (i =? i')) with false; [by rewrite !orb_false_r|].
  symmetry. apply andb_false_iff. rewrite !Z.eqb_neq. destruct (decide (g = g')); [right|by left]. congruence.
Qed.
End Packet.
End TcpStreamSession.

(** stream/ip/ip_session.cc *)
Module IpSession.
Definition MAX_FRAG_ALERTS : Z := 8.
(** [alert_gid] and [alert_sid] up to [alert_count]. *)
Record t := MkTracker { engine : bool; alerts : list (Z * Z) }.

Section Packet.
(** [p->packet_flags & PKT_REBUILT_FRAG]. *)
Variable rebuilt : bool.

Definition add_alert (s : t) (gid sid : Z) : bool * t :=
  if negb (engine s) || (Zlen (alerts s) >=? MAX_FRAG_ALERTS) then (false, s)
  else (true, MkTracker (engine s) (alerts s ++ [(gid, sid)])).

Definition check_alerted (s : t) (gid sid : Z) : bool :=
  if negb (engine s) then false
  else existsb (fun '(g, i) => rebuilt && (g =? gid) && (i =? sid)) (alerts s).

#[local] Instance session : Session t := {| FpDetect.check_alerted := check_alerted; FpDetect.add_alert := add_alert |}.

Lemma ip_laws : SessionLaws t.
Proof.
  split. intros s g i g' i' Hne. simpl. unfold check_alerted, add_alert.
  destruct (engine s) eqn:E; simpl; [|by rewrite E]. destruct (Zlen (alerts s) >=? MAX_FRAG_ALERTS); simpl; rewrite ?E; simpl; [done|].
  rewrite existsb_app. simpl. replace (rebuilt && (g =? g') && (i =? i')) with false; [by rewrite !orb_false_r|].
  symmetry. rewrite <- andb_assoc. apply andb_false_iff. right. apply andb_false_iff.
  rewrite !Z.eqb_neq. destruct (decide (g = g')); [right|by left]. congruence.
Qed.
End Packet.
End IpSession.

(** ** Matches *)

Definition MAX_EVENT_MATCH : Z := 100.

(** [MatchInfo]: the first [iMatchCount] entries of [MatchArray]. *)
Record OtnxMatchData := MkOmd { have_match : bool; matchInfo : list (list OptTreeNode) }.

Definition init_match_info (o : OtnxMatchData) : OtnxMatchData :=
  MkOmd false (map (fun _ => []) (matchInfo o)).

(** The counters of the detection module that this code increments. *)
Record PegCounts := MkPegs { match_limit : Z; queue_limit : Z; alert_limit : Z }.
Definition inc_match_limit (pc : PegCounts) := MkPegs (match_limit pc + 1) (queue_limit pc) (alert_limit pc).
Definition inc_queue_limit (pc : PegCounts) := MkPegs (match_limit pc) (queue_limit pc + 1) (alert_limit pc).
Definition inc_alert_limit (pc : PegCounts) := MkPegs (match_limit pc) (queue_limit pc) (alert_limit pc + 1).

(** [None]: the rule has no header in the policy, and a null pointer is
    followed. *)
Definition fpAddMatch (policyId max_queue_events : Z) (o : OtnxMatchData) (pc : PegCounts) (otn : OptTreeNode)
    : option (Z * OtnxMatchData * PegCounts) :=
  match getRtnFromOtn policyId otn with
  | None => None
  | Some rtn =>
      if evalIndex rtn >=? Zlen (matchInfo o) then Some (1, o, inc_match_limit pc)
      else
        match rd (matchInfo o) (evalIndex rtn) with
        | None => None
        | Some pmi =>
            if (Zlen pmi >=? max_queue_events) || (Zlen pmi >=? MAX_EVENT_MATCH)
            then Some (1, o, inc_match_limit pc)
            else if bool_decide (otn ∈ pmi) then Some (0, o, pc)
            else Some (0, MkOmd true (wr (matchInfo o) (evalIndex rtn) (pmi ++ [otn])), pc)
        end
  end.

(** The matches of a packet, one after the other. *)
Fixpoint add_matches (policyId max_queue_events : Z) (o : OtnxMatchData) (pc : PegCounts) (calls : list OptTreeNode)
    : option (OtnxMatchData * PegCounts) :=
  match calls with
  | [] => Some (o, pc)
  | otn :: calls =>
      match fpAddMatch policyId max_queue_events o pc otn with
      | None => None
      | Some (_, o, pc) => add_matches policyId max_queue_events o pc calls
      end
  end.

(** ** Sort orders *)

Definition sortOrderByPriority (otn1 otn2 : OptTreeNode) : Z :=
  if priority otn1 <? priority otn2 then -1
  else if priority otn1 >? priority otn2 then 1
  else if sid otn1 <? sid otn2 then -1
  else if sid otn1 >? sid otn2 then 1
  else 0.

Definition sortOrderByContentLength (otn1 otn2 : OptTreeNode) : Z :=
  if longestPatternLen otn1 <? longestPatternLen otn2 then 1
  else if longestPatternLen otn1 >? longestPatternLen otn2 then -1
  else if sid otn1 <? sid otn2 then 1
  else if sid otn1 >? sid otn2 then -1
  else 0.

(** The C library's [qsort]: an order-respecting permutation whenever the
    comparison is a total preorder. *)
Definition cmp_le {A} (cmp : A -> A -> Z) (x y : A) : Prop := cmp x y <= 0.
Class QsortLaws {A} (qsort : (A -> A -> Z) -> list A -> list A) : Prop := {
  qsort_perm cmp l : qsort cmp l ≡ₚ l;
  qsort_sorted cmp l : (forall x y, cmp_le cmp x y \/ cmp_le cmp y x) -> Transitive (cmp_le cmp) ->
    Sorted (cmp_le cmp) (qsort cmp l) }.

(** ** Selection *)

Definition SNORT_EVENTQ_PRIORITY : Z := 1.
Definition SNORT_EVENTQ_CONTENT_LEN : Z := 2.

(** [EventQueueConfig]. *)
Record EventQueueConfig := MkEqConfig {
  max_events : Z; log_events : Z; order : Z; process_all_events : bool }.
Definition EventQueueConfigNew : EventQueueConfig := MkEqConfig 8 3 SNORT_EVENTQ_CONTENT_LEN false.

(** [EventNode]; its [type] is not read. *)
Record EventNode := MkEvent { en_otn : OptTreeNode; en_rtn : option RuleTreeNode }.

(** What the selection changes: the queue, the session's alerts when the packet
    has a flow, [PKT_PASS_RULE] and the counters. *)
Record sel_state (S : Type) := MkSel {
  equeue : SF_EVENTQ (E := EventNode);
  flow : option S;
  pass_rule : bool;
  pegs : PegCounts }.
Arguments MkSel {S}. Arguments equeue {S}. Arguments flow {S}. Arguments pass_rule {S}. Arguments pegs {S}.

Section Select.
Context {S : Type} `{!Session S}.
Variable policyId : Z.
Variable qsort : (OptTreeNode -> OptTreeNode -> Z) -> list OptTreeNode -> list OptTreeNode.
Variable eq : EventQueueConfig.

Implicit Types st : sel_state S.
Definition set_queue st q : sel_state S := MkSel q (flow st) (pass_rule st) (pegs st).
Definition set_flow st f : sel_state S := MkSel (equeue st) f (pass_rule st) (pegs st).
Definition set_pass st : sel_state S := MkSel (equeue st) (flow st) true (pegs st).
Definition set_pegs st pc : sel_state S := MkSel (equeue st) (flow st) (pass_rule st) pc.

(** [DetectionEngine::queue_event (otn)]. *)
Definition queue_rule_event (q : SF_EVENTQ) (otn : OptTreeNode) : Z * SF_EVENTQ :=
  match getRtnFromOtn policyId otn with
  | None => (0, q)
  | Some rtn => queue_event q (MkEvent otn (Some rtn))
  end.

Definition fpSessionAlerted (f : option S) (otn : OptTreeNode) : bool :=
  match f with None => false | Some s => check_alerted s (gid otn) (sid otn) end.

Definition fpAddSessionAlert (f : option S) (otn : option OptTreeNode) : option S :=
  match f, otn with
  | Some s, Some otn => Some (add_alert s (gid otn) (sid otn)).2
  | _, _ => f
  end.

Definition rule_pass (otn : OptTreeNode) : bool :=
  match getRtnFromOtn policyId otn with Some rtn => Actions.is_pass (rtn_type rtn) | None => false end.

(** One event: [tcnt] and the state after the session has been asked and the
    event been queued. *)
Definition select_event (otn : option OptTreeNode) (tcnt : Z) st : Z * sel_state S :=
  match otn with
  | Some o =>
      if fpSessionAlerted (flow st) o then (tcnt, set_pegs st (inc_alert_limit (pegs st)))
      else
        let '(r, q) := queue_rule_event (equeue st) o in
        let st := set_queue st q in
        (tcnt + 1, if truth r then set_pegs st (inc_queue_limit (pegs st)) else st)
  | None => (tcnt, set_pegs st (inc_alert_limit (pegs st)))
  end.

(** The loop over a group; [prev] are the entries before.  The flag says that
    the function returned 1 inside it. *)
Fixpoint select_events (prev l : list OptTreeNode) (tcnt : Z) st : bool * Z * sel_state S :=
  match l with
  | [] => (false, tcnt, st)
  | otn :: l =>
      let pass := rule_pass otn in
      if pass && (tcnt >? 0) then (true, tcnt, st)
      else
        let otn' := if bool_decide (otn ∈ prev) then None else Some otn in
        let '(tcnt, st) := select_event otn' tcnt st in
        let st := if tcnt <=? log_events eq then set_flow st (fpAddSessionAlert (flow st) otn') else st in
        if tcnt >=? max_events eq then (true, tcnt, set_pegs st (inc_queue_limit (pegs st)))
        else if bool_decide (is_Some otn') && pass then (true, tcnt, set_pass st)
        else select_events (prev ++ [otn]) l tcnt st
  end.

(** The comparison function of the configured order, if it is valid. *)
Definition order_function : option (OptTreeNode -> OptTreeNode -> Z) :=
  if order eq =? SNORT_EVENTQ_PRIORITY then Some sortOrderByPriority
  else if order eq =? SNORT_EVENTQ_CONTENT_LEN then Some sortOrderByContentLength
  else None.

(** The loop over the groups, which are sorted in place; [None] is
    [FatalError]. *)
Fixpoint select_groups (groups : list (list OptTreeNode)) (tcnt : Z) st
    : option (Z * list (list OptTreeNode) * sel_state S) :=
  match groups with
  | [] => Some (0, [], st)
  | g :: groups =>
      if negb (process_all_events eq) && (tcnt >? 0) then Some (1, g :: groups, st)
      else if bool_decide (g = []) then
        match select_groups groups tcnt st with
        | None => None
        | Some (r, groups, st) => Some (r, g :: groups, st)
        end
      else
        match order_function with
        | None => None
        | Some cmp =>
            let g := qsort cmp g in
            match select_events [] g tcnt st with
            | (true, _, st) => Some (1, g :: groups, st)
            | (false, tcnt, st) =>
                match select_groups groups tcnt st with
                | None => None
                | Some (r, groups, st) => Some (r, g :: groups, st)
                end
            end
        end
  end.

Definition fpFinalSelectEvent (o : OtnxMatchData) st : option (Z * OtnxMatchData * sel_state S) :=
  if negb (have_match o) then Some (0, o, st)
  else
    match select_groups (matchInfo o) 0 st with
    | None => None
    | Some (r, groups, st) => Some (r, MkOmd (have_match o) groups, st)
    end.
End Select.

(** ** Sorting *)

Lemma order_total cmp eq : order_function eq = Some cmp -> forall x y, cmp_le cmp x y \/ cmp_le cmp y x.
Proof.
  unfold order_function. bcases; intros [= <-] x y; unfold cmp_le, sortOrderByPriority, sortOrderByContentLength; bcases; lia.
Qed.

Lemma order_trans cmp eq : order_function eq = Some cmp -> Transitive (cmp_le cmp).
Proof.
  unfold order_function. bcases; intros [= <-] x y z; unfold cmp_le, sortOrderByPriority, sortOrderByContentLength; bcases; lia.
Qed.

(** ** What is collected *)

Section Collected.
Variable policyId : Z.
Variable max_queue_events : Z.

(** The elements of a list in the order of their first occurrence. *)
Fixpoint dedup (seen l : list OptTreeNode) : list OptTreeNode :=
  match l with
  | [] => []
  | x :: l => if bool_decide (x ∈ seen) then dedup seen l else x :: dedup (seen ++ [x]) l
  end.

Definition index (otn : OptTreeNode) : Z :=
  match getRtnFromOtn policyId otn with Some rtn => evalIndex rtn | None => -1 end.
Definition limit : nat := Z.to_nat (Z.min max_queue_events MAX_EVENT_MATCH).

(** The rules of group [i]: the first [limit] different ones. *)
Definition collected (i : Z) (calls : list OptTreeNode) : list OptTreeNode :=
  take limit (dedup [] (filter (fun o => index o = i) calls)).

Lemma dedup_elem l : forall seen x, x ∈ dedup seen l <-> x ∈ l /\ x ∉ seen.
Proof.
  induction l as [|y l IH]; intros seen x; simpl; [split; [intros H; by apply not_elem_of_nil in H|tauto]|].
  rewrite elem_of_cons. case_bool_decide as Hy.
  - rewrite IH. destruct (decide (x = y)); subst; tauto.
  - rewrite elem_of_cons, IH, not_elem_of_app, list_elem_of_singleton.
    destruct (decide (x = y)); subst; tauto.
Qed.

Lemma dedup_NoDup l : forall seen, NoDup (dedup seen l).
Proof.
  induction l as [|y l IH]; intros seen; simpl; [constructor|].
  case_bool_decide; [done|]. constructor; [|done].
  rewrite dedup_elem, not_elem_of_app, list_elem_of_singleton. tauto.
Qed.

Lemma dedup_snoc l x : forall seen,
  dedup seen (l ++ [x]) = dedup seen l ++ (if decide (x ∈ seen ++ l) then [] else [x]).
Proof.
  induction l as [|y l IH]; intros seen; simpl.
  - rewrite app_nil_r. case_bool_decide; by case_decide.
  - case_bool_decide as Hy; rewrite IH.
    + f_equal. apply decide_ext. rewrite !elem_of_app, elem_of_cons. destruct (decide (x = y)); subst; tauto.
    + simpl. do 2 f_equal. apply decide_ext. rewrite !elem_of_app, list_elem_of_singleton, elem_of_cons. tauto.
Qed.

Definition in_policy (otn : OptTreeNode) : Prop :=
  exists rtn, getRtnFromOtn policyId otn = Some rtn /\ 0 <= evalIndex rtn.

(** [o] holds what the calls so far add. *)
Record collects (n : Z) (o : OtnxMatchData) (calls : list OptTreeNode) : Prop := {
  co_len : Zlen (matchInfo o) = n;
  co_group i : 0 <= i < n -> rd (matchInfo o) i = Some (collected i calls);
  co_have : have_match o = false -> Forall (fun g => g = []) (matchInfo o) }.

Lemma collected_snoc i calls otn :
  collected i (calls ++ [otn]) =
    if decide (index otn = i)
    then if decide (length (collected i calls) < limit /\ otn ∉ collected i calls)%nat
         then collected i calls ++ [otn] else collected i calls
    else collected i calls.
Proof.
  unfold collected. rewrite filter_app, filter_cons, filter_nil.
  case_decide as Hi; [|by rewrite app_nil_r]. rewrite dedup_snoc. simpl.
  set (l := filter _ calls). rewrite length_take.
  destruct (decide (length (dedup [] l) < limit)%nat) as [Hlt|Hge].
  - rewrite (take_ge (dedup [] l)) by lia. pose proof (dedup_elem l [] otn) as Hel.
    assert (otn ∉ []) by apply not_elem_of_nil.
    rewrite take_ge by (case_decide; rewrite length_app; simpl; lia).
    case_decide as H1; case_decide as H2; rewrite ?app_nil_r; try done; exfalso; [tauto|].
    apply H2. split; [lia|tauto].
  - rewrite take_app_le by lia. rewrite decide_False by lia. done.
Qed.

Lemma fpAddMatch_collects n o pc calls otn :
  collects n o calls -> in_policy otn ->
  exists r o' pc', fpAddMatch policyId max_queue_events o pc otn = Some (r, o', pc') /\ collects n o' (calls ++ [otn]).
Proof.
  intros [Hlen Hg Hh] (rtn & Hrtn & Hpos). unfold fpAddMatch. rewrite Hrtn, Hlen.
  assert (index otn = evalIndex rtn) as Hidx by (unfold index; by rewrite Hrtn).
  assert (forall b, b = have_match o -> (forall i, 0 <= i < n -> collected i (calls ++ [otn]) = collected i calls) ->
    collects n (MkOmd b (matchInfo o)) (calls ++ [otn])) as Hsame.
  { intros b -> Heq. split; [done| |done]. intros i Hi. rewrite Heq by done. by apply Hg. }
  bcase (evalIndex rtn >=? n) as G.
  { eexists _, _, _; split; [done|]. destruct o. apply Hsame; [done|]. intros i Hi.
    rewrite collected_snoc, decide_False by lia. done. }
  rewrite Hg by lia. set (g := collected _ calls).
  assert (forall i, i <> evalIndex rtn -> collected i (calls ++ [otn]) = collected i calls) as Hne.
  { intros i Hi. rewrite collected_snoc, decide_False by lia. done. }
  destruct ((Zlen g >=? max_queue_events) || (Zlen g >=? MAX_EVENT_MATCH)) eqn:Hfull.
  { eexists _, _, _; split; [done|]. destruct o. apply Hsame; [done|]. intros i Hi.
    destruct (decide (i = evalIndex rtn)) as [->|]; [|by apply Hne].
    rewrite collected_snoc, decide_True by done. fold g. rewrite decide_False; [done|].
    intros [? _]. apply orb_true_iff in Hfull. unfold limit, Zlen in *. destruct Hfull; breflect; lia. }
  breflect. case_bool_decide as Hin.
  { eexists _, _, _; split; [done|]. destruct o. apply Hsame; [done|]. intros i Hi.
    destruct (decide (i = evalIndex rtn)) as [->|]; [|by apply Hne].
    rewrite collected_snoc, decide_True by done. fold g. rewrite decide_False; [done|]. by intros []. }
  eexists _, _, _; split; [done|]. split; simpl; [by rewrite Zlen_wr| |done].
  intros i Hi. destruct (decide (i = evalIndex rtn)) as [->|].
  - rewrite rd_wr_eq by lia. rewrite collected_snoc, decide_True by done. fold g.
    rewrite decide_True; [done|]. unfold limit, Zlen in *. split; [lia|done].
  - rewrite rd_wr_ne by done. rewrite Hne by done. by apply Hg.
Qed.

Lemma add_matches_collects n calls : Forall in_policy calls -> forall o pc prev,
  collects n o prev ->
  exists o' pc', add_matches policyId max_queue_events o pc calls = Some (o', pc') /\ collects n o' (prev ++ calls).
Proof.
  induction 1 as [|otn calls Hotn _ IH]; intros o pc prev Ho; simpl; [rewrite app_nil_r; eauto|].
  destruct (fpAddMatch_collects n o pc prev otn Ho Hotn) as (r & o' & pc' & -> & Ho').
  destruct (IH o' pc' _ Ho') as (o2 & pc2 & -> & Ho2). rewrite <- app_assoc in Ho2. eauto.
Qed.

Lemma init_collects o : collects (Zlen (matchInfo o)) (init_match_info o) [].
Proof.
  split; simpl.
  - unfold Zlen. by rewrite length_map.
  - intros i Hi. unfold rd. bcases; [lia|]. rewrite list_lookup_fmap. unfold Zlen in Hi.
    destruct (lookup_lt_is_Some_2 (matchInfo o) (Z.to_nat i)) as [x ->]; [lia|]. simpl.
    unfold collected. simpl. by rewrite take_nil.
  - intros _. apply Forall_map, Forall_forall. done.
Qed.
End Collected.

(** ** What is selected *)

Section Chosen.
Variable pass : OptTreeNode -> bool.
Variable fresh : OptTreeNode -> bool.
Variable mx : Z.

(** The rules up to the first pass rule, and the rest. *)
Fixpoint cut (l : list OptTreeNode) : list OptTreeNode * list OptTreeNode :=
  match l with
  | [] => ([], [])
  | o :: l => if pass o then ([], o :: l) else let '(a, b) := cut l in (o :: a, b)
  end.

(** The new events among them; a pass rule counts when none comes before it. *)
Definition first_events (l : list OptTreeNode) : list OptTreeNode :=
  let '(a, b) := cut l in
  match List.filter fresh a with [] => List.filter fresh (take 1 b) | ev => ev end.

(** The packet passes. *)
Definition passed (l : list OptTreeNode) : bool :=
  let '(a, b) := cut l in
  match b with
  | [] => false
  | o :: _ => bool_decide (List.filter fresh a = []) && (negb (fresh o) || (1 <? mx))
  end.

(** The groups looked at: all of them, or those up to the first with a new
    event. *)
Fixpoint considered (all : bool) (gs : list (list OptTreeNode)) : list OptTreeNode :=
  match gs with
  | [] => []
  | g :: gs => g ++ (if all || negb (existsb fresh g) then considered all gs else [])
  end.

(** The selection as one loop: whether it stopped, the events, and the pass
    flag. *)
Fixpoint pick (tcnt : Z) (l : list OptTreeNode) : bool * list OptTreeNode * bool :=
  match l with
  | [] => (false, [], false)
  | o :: l =>
      if pass o && (tcnt >? 0) then (true, [], false)
      else
        let n := tcnt + b2z (fresh o) in
        let ev := if fresh o then [o] else [] in
        if n >=? mx then (true, ev, false)
        else if pass o then (true, ev, true)
        else let '(s, es, b) := pick n l in (s, ev ++ es, b)
  end.

Lemma pick_app l k : forall tcnt,
  pick tcnt (l ++ k) =
    let '(s, es, b) := pick tcnt l in
    if s then (s, es, b) else let '(s, es', b) := pick (tcnt + Zlen es) k in (s, es ++ es', b).
Proof.
  induction l as [|o l IH]; intros tcnt; simpl.
  - rewrite Zlen_nil, Z.add_0_r. by destruct (pick tcnt k) as [[s es] b].
  - destruct (pass o && (tcnt >? 0)); [done|]. destruct (tcnt + b2z (fresh o) >=? mx); [done|].
    destruct (pass o); [done|]. rewrite IH. destruct (pick _ l) as [[s es] b]. destruct s; [done|].
    rewrite Zlen_app. replace (Zlen (if fresh o then [o] else [])) with (b2z (fresh o)) by (by destruct (fresh o)).
    rewrite Z.add_assoc. destruct (pick _ k) as [[s es'] b']. by rewrite app_assoc.
Qed.

(** A run to the end takes every new event. *)
Lemma pick_through l : forall tcnt es b, pick tcnt l = (false, es, b) ->
  es = List.filter fresh l /\ b = false /\ Forall (fun o => pass o = false) l /\
  (tcnt < mx -> tcnt + Zlen es < mx).
Proof.
  induction l as [|o l IH]; intros tcnt es b; simpl.
  { intros [= <- <-]. split_and!; [done..|constructor|rewrite Zlen_nil; lia]. }
  destruct (pass o && (tcnt >? 0)); [done|]. bcase (tcnt + b2z (fresh o) >=? mx) as G; [done|].
  destruct (pass o) eqn:Hp; [done|]. destruct (pick _ l) as [[s es'] b'] eqn:E. intros [= -> <- <-].
  destruct (IH _ _ _ E) as (-> & -> & Hf & Hlt). rewrite Zlen_app.
  split_and!; [by destruct (fresh o)|done|by constructor|].
  intros _. specialize (Hlt ltac:(lia)). destruct (fresh o); simpl in *; rewrite ?Zlen_nil, ?Zlen_cons, ?Zlen_nil; lia.
Qed.

Lemma cut_app l : forall k, Forall (fun o => pass o = false) l ->
  cut (l ++ k) = let '(a, b) := cut k in (l ++ a, b).
Proof.
  induction l as [|o l IH]; intros k; simpl; [by destruct (cut k)|].
  intros [-> Hl]%Forall_cons. rewrite IH by done. by destruct (cut k).
Qed.

Lemma pick_started l : forall tcnt, 0 < tcnt < mx ->
  let '(_, es, b) := pick tcnt l in
  es = take (Z.to_nat (mx - tcnt)) (List.filter fresh (cut l).1) /\ b = false.
Proof.
  induction l as [|o l IH]; intros tcnt Ht; simpl; [by rewrite take_nil|].
  rewrite (proj2 (Z.gtb_lt tcnt 0)) by lia. rewrite andb_true_r.
  destruct (pass o); [simpl; by rewrite take_nil|]. bcase (tcnt + b2z (fresh o) >=? mx) as G.
  - split; [|done]. destruct (cut l) as [a b]. simpl. destruct (fresh o); simpl in *; [|lia].
    by replace (Z.to_nat (mx - tcnt)) with 1%nat by lia.
  - specialize (IH (tcnt + b2z (fresh o)) ltac:(destruct (fresh o); simpl in *; lia)).
    destruct (pick _ l) as [[s es] b]. destruct IH as [-> ->]. split; [|done].
    destruct (cut l) as [a b]. simpl. destruct (fresh o); simpl.
    + replace (Z.to_nat (mx - tcnt)) with (S (Z.to_nat (mx - (tcnt + 1)))) by lia. done.
    + by rewrite Z.add_0_r.
Qed.

Lemma pick_events l : 0 < mx ->
  let '(_, es, b) := pick 0 l in es = take (Z.to_nat mx) (first_events l) /\ b = passed l.
Proof.
  intros Hmx. induction l as [|o l IH]; simpl; [unfold first_events; simpl; by rewrite take_nil|].
  unfold first_events, passed. simpl. rewrite andb_false_r.
  destruct (pass o) eqn:Hp.
  - simpl. rewrite ?take_0. bcase (0 + b2z (fresh o) >=? mx) as G.
    + destruct (fresh o); simpl in *; [|lia]. rewrite (proj2 (Z.ltb_ge 1 mx)) by lia.
      by replace (Z.to_nat mx) with 1%nat by lia.
    + destruct (fresh o); simpl in *; [|by rewrite take_nil]. rewrite (proj2 (Z.ltb_lt 1 mx)) by lia.
      by rewrite take_ge by (simpl; lia).
  - destruct (fresh o) eqn:Hf; simpl b2z.
    + bcase (0 + 1 >=? mx) as G.
      * destruct (cut l) as [a b]. simpl. rewrite Hf. replace (Z.to_nat mx) with 1%nat by lia. simpl.
        rewrite ?take_0. split; [done|]. by destruct b.
      * pose proof (pick_started l 1 ltac:(lia)) as H. destruct (pick (0 + 1) l) as [[s es] b] eqn:E.
        change (0 + 1) with 1 in E. rewrite E in H. destruct H as [-> ->].
        destruct (cut l) as [a b]. simpl. rewrite Hf. simpl.
        replace (Z.to_nat mx) with (S (Z.to_nat (mx - 1))) by lia. split; [done|].
        by destruct b.
    + bcase (0 + 0 >=? mx) as G; [lia|].
      change (0 + 0) with 0. destruct (pick 0 l) as [[s es] b]. destruct IH as [-> ->].
      unfold first_events, passed. destruct (cut l) as [a b]. simpl. by rewrite Hf.
Qed.
End Chosen.

Lemma pick_ext pass fresh fresh' mx l : Forall (fun o => fresh o = fresh' o) l ->
  forall tcnt, pick pass fresh mx tcnt l = pick pass fresh' mx tcnt l.
Proof. induction 1 as [|o l Ho _ IH]; intros tcnt; simpl; [done|]. by rewrite Ho, IH. Qed.

Lemma first_events_sub pass fresh l : first_events pass fresh l ⊆ l.
Proof.
  assert (forall a b, cut pass l = (a, b) -> l = a ++ b) as Hcut.
  { induction l as [|o l IH]; simpl; intros a b; [by intros [= <- <-]|].
    destruct (pass o); [by intros [= <- <-]|]. destruct (cut pass l) as [a' b']. intros [= <- <-].
    by rewrite (IH a' b'). }
  unfold first_events. destruct (cut pass l) as [a b]. rewrite (Hcut a b) by done.
  assert (forall k x, x ∈ List.filter fresh k -> x ∈ k) as Hf.
  { intros k x. rewrite !list_elem_of_In. by intros [? _]%filter_In. }
  intros x Hx. rewrite elem_of_app. destruct (List.filter fresh a) as [|y ys] eqn:E.
  - right. destruct b as [|z b]; [by apply not_elem_of_nil in Hx|]. apply Hf in Hx. apply elem_of_take in Hx as (i & Hx & _).
    by apply list_elem_of_lookup_2 in Hx.
  - left. apply Hf. by rewrite E.
Qed.

Lemma considered_ext fresh fresh' all gs :
  Forall (fun o => fresh o = fresh' o) (concat gs) -> considered fresh all gs = considered fresh' all gs.
Proof.
  induction gs as [|g gs IH]; simpl; [done|]. intros [Hg Hgs]%Forall_app. rewrite IH by done.
  replace (existsb fresh' g) with (existsb fresh g); [done|].
  clear -Hg. induction Hg as [|o l Ho _ IH]; simpl; [done|]. by rewrite Ho, IH.
Qed.

Lemma considered_sub fresh all gs : considered fresh all gs ⊆ concat gs.
Proof.
  induction gs as [|g gs IH]; simpl; [done|]. intros o. rewrite !elem_of_app. intros [H|H]; [by left|].
  right. destruct (all || _); [by apply IH|by apply not_elem_of_nil in H].
Qed.

Section Spec.
Context {S : Type} `{!Session S} `{!SessionLaws S}.
Variable policyId : Z.
Context (qsort : (OptTreeNode -> OptTreeNode -> Z) -> list OptTreeNode -> list OptTreeNode) `{!QsortLaws qsort}.
Variable eq : EventQueueConfig.

Definition key (o : OptTreeNode) : Z * Z := (gid o, sid o).
Definition fresh (f : option S) (o : OptTreeNode) : bool := negb (fpSessionAlerted f o).
Definition queue_all (q : SF_EVENTQ) (es : list OptTreeNode) : SF_EVENTQ :=
  foldl (fun q o => (queue_rule_event policyId q o).2) q es.

Abbreviation pick_from f := (pick (rule_pass policyId) (fresh f) (max_events eq)).

(** A step leaves the queue with these events more, the flag, and knows as much
    as before of the rules outside [l]. *)
Definition selected (l : list OptTreeNode) (st : sel_state S) (es : list OptTreeNode) (b : bool) (st' : sel_state S) : Prop :=
  equeue st' = queue_all (equeue st) es /\ pass_rule st' = pass_rule st || b /\
  (forall o, key o ∉ map key l -> fresh (flow st') o = fresh (flow st) o).

Lemma selected_trans l k st1 st2 st3 es es' b :
  selected l st1 es false st2 -> selected k st2 es' b st3 -> selected (l ++ k) st1 (es ++ es') b st3.
Proof.
  intros (Hq & Hp & Hf) (Hq' & Hp' & Hf'). unfold selected, queue_all in *. rewrite foldl_app, Hq', Hq, Hp', Hp.
  rewrite orb_false_r. split_and!; [done..|]. intros o. rewrite map_app, not_elem_of_app. intros [H H'].
  by rewrite Hf', Hf.
Qed.

Lemma add_alert_fresh f o x : key o <> key x -> fresh (fpAddSessionAlert f (Some x)) o = fresh f o.
Proof.
  intros Hne. unfold fresh. f_equal. destruct f as [s|]; simpl; [|done]. by apply add_alert_other.
Qed.

Lemma select_event_spec (o : OptTreeNode) tcnt (st : sel_state S) (c : bool) :
  let '(n, st1) := select_event policyId (Some o) tcnt st in
  let st2 := if c then set_flow st1 (fpAddSessionAlert (flow st1) (Some o)) else st1 in
  n = tcnt + b2z (fresh (flow st) o) /\
  selected [o] st (if fresh (flow st) o then [o] else []) false st2.
Proof.
  assert (forall pc, selected [o] st (if fresh (flow st) o then [o] else []) false
    (let st1 := MkSel (if fresh (flow st) o then (queue_rule_event policyId (equeue st) o).2 else equeue st)
        (flow st) (pass_rule st) pc in
     if c then set_flow st1 (fpAddSessionAlert (flow st1) (Some o)) else st1)) as H.
  { intros pc. split_and!.
    - destruct c; simpl; by destruct (fresh (flow st) o).
    - rewrite orb_false_r. by destruct c.
    - simpl. intros x Hx. rewrite list_elem_of_singleton in Hx. destruct c; simpl; [|done]. by apply add_alert_fresh. }
  unfold select_event, fresh in *. destruct (fpSessionAlerted (flow st) o) eqn:E; simpl in *.
  - split; [lia|]. apply H.
  - destruct (queue_rule_event policyId (equeue st) o) as [r q]. simpl in *. split; [done|].
    destruct (truth r); apply H.
Qed.

Lemma select_events_pick l : forall prev tcnt (st : sel_state S), NoDup (prev ++ l) -> NoDup (map key l) ->
  let '(s, es, b) := pick_from (flow st) tcnt l in
  exists st', select_events policyId eq prev l tcnt st = (s, tcnt + Zlen es, st') /\ selected l st es b st'.
Proof.
  induction l as [|o l IH]; intros prev tcnt st Hnd Hk; simpl.
  { exists st. rewrite Zlen_nil, Z.add_0_r. unfold selected. rewrite orb_false_r. done. }
  destruct (rule_pass policyId o && (tcnt >? 0)).
  { exists st. rewrite Zlen_nil, Z.add_0_r. unfold selected. rewrite orb_false_r. done. }
  rewrite bool_decide_eq_false_2 by (apply NoDup_app in Hnd as (_ & Hnd & _); intros Hin; apply (Hnd o Hin); left).
  apply NoDup_cons in Hk as [Hko Hk].
  pose proof (select_event_spec o tcnt st) as Hs.
  destruct (select_event policyId (Some o) tcnt st) as [n st1]. cbv beta iota in Hs.
  destruct (Hs (n <=? log_events eq)) as [-> Hsel].
  match type of Hsel with selected _ _ _ _ ?x => set (st2 := x) in * end.
  assert (forall st', selected [o] st (if fresh (flow st) o then [o] else []) false st' ->
    selected (o :: l) st (if fresh (flow st) o then [o] else []) false st') as Hmore.
  { intros st' (Hq & Hp & Hf). split_and!; [done..|]. intros x Hx. apply Hf. simpl. rewrite list_elem_of_singleton.
    simpl in Hx. apply not_elem_of_cons in Hx. tauto. }
  assert (Zlen (if fresh (flow st) o then [o] else []) = b2z (fresh (flow st) o)) as Hlen by (by destruct (fresh _ o)).
  destruct (tcnt + b2z (fresh (flow st) o) >=? max_events eq).
  { eexists; rewrite Hlen; split; [done|]. by apply Hmore in Hsel. }
  rewrite bool_decide_eq_true_2 by done. simpl. destruct (rule_pass policyId o).
  { eexists; rewrite Hlen; split; [done|]. apply Hmore in Hsel as (Hq & Hp & Hf). split_and!; [done| |done].
    simpl. by rewrite orb_true_r. }
  specialize (IH (prev ++ [o]) (tcnt + b2z (fresh (flow st) o)) st2).
  rewrite <- app_assoc in IH. specialize (IH Hnd Hk).
  rewrite (pick_ext _ _ (fresh (flow st))) in IH.
  2:{ apply Forall_forall. intros x Hx. destruct Hsel as (_ & _ & Hf). apply Hf. simpl. rewrite list_elem_of_singleton.
      intros He. apply Hko. rewrite <- He. apply list_elem_of_fmap. eauto. }
  destruct (pick _ _ _ _ l) as [[s es] b]. destruct IH as (st' & -> & Hst'). exists st'.
  rewrite Zlen_app, Hlen, Z.add_assoc. split; [done|]. exact (selected_trans [o] l _ _ _ _ _ _ Hsel Hst').
Qed.

Variable cmp : OptTreeNode -> OptTreeNode -> Z.
Hypothesis Hcmp : order_function eq = Some cmp.

Lemma qsort_concat gs : concat (map (qsort cmp) gs) ≡ₚ concat gs.
Proof. induction gs as [|g gs IH]; simpl; [done|]. by rewrite qsort_perm, IH. Qed.

Lemma existsb_filter (fr : OptTreeNode -> bool) l : existsb fr l = bool_decide (0 < Zlen (List.filter fr l)).
Proof.
  induction l as [|o l IH]; simpl; [done|]. by destruct (fr o).
Qed.

Lemma select_groups_pick gs : forall tcnt (st : sel_state S), 0 <= tcnt < max_events eq ->
  NoDup (map key (concat gs)) ->
  let c := if negb (process_all_events eq) && (tcnt >? 0) then []
           else considered (fresh (flow st)) (process_all_events eq) (map (qsort cmp) gs) in
  let '(_, es, b) := pick_from (flow st) tcnt c in
  exists r gs' st', select_groups policyId qsort eq gs tcnt st = Some (r, gs', st') /\ selected (concat gs) st es b st'.
Proof.
  induction gs as [|g gs IH]; intros tcnt st Ht Hk; simpl.
  { replace (if negb _ && _ then [] else []) with (@nil OptTreeNode) by (by destruct (_ && _)). simpl.
    eexists _, _, st; split; [done|]. unfold selected. by rewrite orb_false_r. }
  simpl in Hk. destruct (negb (process_all_events eq) && (tcnt >? 0)) eqn:Hearly; simpl.
  { eexists _, _, st; split; [done|]. unfold selected. by rewrite orb_false_r. }
  rewrite map_app in Hk. apply NoDup_app in Hk as (Hkg & Hdis & Hkgs).
  assert (NoDup (map key (qsort cmp g))) as Hkg' by (by rewrite qsort_perm).
  pose proof (select_events_pick (qsort cmp g) [] tcnt st (NoDup_fmap_1 key _ Hkg') Hkg') as Hsel.
  rewrite pick_app. destruct (pick_from (flow st) tcnt (qsort cmp g)) as [[s es] b] eqn:Hp.
  destruct Hsel as (st1 & Hsel & Hst1).
  assert (forall l, l ≡ₚ qsort cmp g -> forall es b st', selected (qsort cmp g) st es b st' -> selected l st es b st') as Hperm.
  { intros l Hl es' b' st' (? & ? & Hf). split_and!; [done..|]. intros o. by rewrite Hl; apply Hf. }
  apply (Hperm g) in Hst1; [|by rewrite qsort_perm].
  assert (select_groups policyId qsort eq (g :: gs) tcnt st =
    match select_events policyId eq [] (qsort cmp g) tcnt st with
    | (true, _, st) => Some (1, qsort cmp g :: gs, st)
    | (false, tcnt, st) =>
        match select_groups policyId qsort eq gs tcnt st with
        | None => None
        | Some (r, groups, st) => Some (r, qsort cmp g :: groups, st)
        end
    end) as Hrun.
  { simpl. rewrite Hearly. case_bool_decide as Hg; [|by rewrite Hcmp].
    subst g. replace (qsort cmp []) with (@nil OptTreeNode) by (symmetry; apply Permutation_nil; symmetry; apply qsort_perm).
    done. }
  simpl in Hrun. rewrite Hearly in Hrun. rewrite Hrun, Hsel. destruct s.
  { eexists _, _, st1. split; [done|]. destruct Hst1 as (? & ? & Hf). split_and!; [done..|].
    intros o. rewrite map_app, not_elem_of_app. intros [? _]. by apply Hf. }
  apply pick_through in Hp as (Hes & -> & _ & Hlt). specialize (Hlt ltac:(lia)).
  pose proof (Zlen_nonneg es) as Hnn.
  specialize (IH (tcnt + Zlen es) st1 ltac:(lia) Hkgs).
  assert (Forall (fun o => fresh (flow st1) o = fresh (flow st) o) (concat (map (qsort cmp) gs))) as Hext.
  { apply Forall_forall. intros o Ho. rewrite qsort_concat in Ho. destruct Hst1 as (_ & _ & Hf). apply Hf.
    intros Hin. apply (Hdis _ Hin). apply list_elem_of_fmap. eauto. }
  cbv zeta in IH. rewrite (considered_ext _ (fresh (flow st))) in IH by done.
  replace (if negb (process_all_events eq) && (tcnt + Zlen es >? 0) then [] else _)
    with (if process_all_events eq || negb (existsb (fresh (flow st)) (qsort cmp g))
          then considered (fresh (flow st)) (process_all_events eq) (map (qsort cmp) gs) else []) in IH.
  2:{ clear Hrun. rewrite existsb_filter, <- Hes. destruct (process_all_events eq); simpl in *; [done|].
      breflect. case_bool_decide; bcases; simpl; try done; lia. }
  rewrite (pick_ext _ _ (fresh (flow st))) in IH.
  2:{ apply Forall_forall. intros o Ho. rewrite Forall_forall in Hext. apply Hext.
      destruct (_ || _) in Ho; [by apply considered_sub in Ho|by apply not_elem_of_nil in Ho]. }
  destruct (pick_from (flow st) (tcnt + Zlen es) _) as [[s' es'] b'].
  destruct IH as (r & gs' & st' & -> & Hst'). eexists _, _, st'. split; [done|].
  exact (selected_trans g (concat gs) _ _ _ _ _ _ Hst1 Hst').
Qed.

(** The event a rule queues. *)
Definition event (o : OptTreeNode) : EventNode := MkEvent o (getRtnFromOtn policyId o).

Lemma queue_all_spec mx lg es : Forall (in_policy policyId) es -> forall q l d, is_queue mx lg q l d ->
  exists d', is_queue mx lg (queue_all q es) (take (Z.to_nat mx) (l ++ map event es)) d'.
Proof.
  induction 1 as [|o es (rtn & Hrtn & _) _ IH]; intros q l d Hq; simpl;
    pose proof (iq_len _ _ _ _ _ Hq) as Hlen; unfold Zlen in Hlen.
  { exists d. rewrite app_nil_r, take_ge by lia. done. }
  unfold queue_rule_event. rewrite Hrtn. destruct (decide (Zlen l < mx)) as [Hlt|Hge].
  - destruct (queue_event_room _ _ _ _ _ (MkEvent o (Some rtn)) Hq Hlt) as (q' & -> & Hq'). simpl.
    destruct (IH _ _ _ Hq') as (d' & H). exists d'. rewrite <- app_assoc in H. unfold event at 1. by rewrite Hrtn.
  - destruct (queue_event_full _ _ _ _ _ (MkEvent o (Some rtn)) Hq ltac:(unfold Zlen in *; lia)) as (q' & -> & Hq').
    simpl. destruct (IH _ _ _ Hq') as (d' & H). exists d'. unfold Zlen in Hge.
    rewrite take_app_le in H |- * by lia. done.
Qed.

Lemma collected_elem mqe i calls o : o ∈ collected policyId mqe i calls -> o ∈ calls /\ index policyId o = i.
Proof.
  unfold collected. intros H%elem_of_take. destruct H as (j & H & _). apply list_elem_of_lookup_2 in H.
  apply dedup_elem in H as [H _]. apply list_elem_of_filter in H as [? ?]. done.
Qed.

Lemma collected_NoDup mqe calls is_ : NoDup is_ -> NoDup (concat (map (fun i => collected policyId mqe i calls) is_)).
Proof.
  induction 1 as [|i l Hi Hl IH]; simpl; [constructor|]. apply NoDup_app. split_and!; [|  |done].
  - unfold collected. eapply sublist_NoDup; [apply dedup_NoDup|apply sublist_take].
  - intros o [_ Ho]%collected_elem Hin. apply list_elem_of_In, in_concat in Hin as (g & Hg & Hin).
    apply in_map_iff in Hg as (j & <- & Hj). apply list_elem_of_In, collected_elem in Hin as [_ Hin].
    apply Hi. rewrite <- Ho, Hin. by apply list_elem_of_In.
Qed.

Lemma collects_groups mqe n o calls : 0 <= n -> collects policyId mqe n o calls ->
  matchInfo o = map (fun i => collected policyId mqe i calls) (seqZ 0 n).
Proof.
  intros Hn [Hlen Hg _]. apply list_eq_rd.
  - rewrite Hlen. unfold Zlen. rewrite length_map, length_seqZ. lia.
  - intros i Hi. rewrite Hlen in Hi. rewrite Hg by lia. unfold rd. bcases; [lia|].
    rewrite list_lookup_fmap, lookup_seqZ_lt by lia. simpl. do 2 f_equal. lia.
Qed.

Lemma final_select_pick mqe n o calls (st : sel_state S) :
  0 < max_events eq -> collects policyId mqe n o calls -> NoDup (map key (concat (matchInfo o))) ->
  let l := considered (fresh (flow st)) (process_all_events eq) (map (qsort cmp) (matchInfo o)) in
  let '(_, es, b) := pick_from (flow st) 0 l in
  exists r o' st', fpFinalSelectEvent policyId qsort eq o st = Some (r, o', st') /\
    equeue st' = queue_all (equeue st) es /\ pass_rule st' = pass_rule st || b.
Proof.
  intros Hmx Ho Hnd l. unfold fpFinalSelectEvent. destruct (have_match o) eqn:Hh; simpl.
  - pose proof (select_groups_pick (matchInfo o) 0 st ltac:(lia) Hnd) as H.
    rewrite andb_false_r in H. cbv zeta in H. fold l in H.
    destruct (pick_from (flow st) 0 l) as [[s es] b]. destruct H as (r & g2 & st' & -> & ? & ? & _). eauto 10.
  - assert (concat (map (qsort cmp) (matchInfo o)) = []) as Hnil.
    { apply Permutation_nil. symmetry. rewrite qsort_concat.
      pose proof (co_have _ _ _ _ _ Ho Hh) as Hnil. clear -Hnil. by induction Hnil as [|g k -> _ IH]. }
    replace l with (@nil OptTreeNode); [simpl; rewrite orb_false_r; eauto 10|].
    pose proof (considered_sub (fresh (flow st)) (process_all_events eq) (map (qsort cmp) (matchInfo o))) as Hsub.
    fold l in Hsub. rewrite Hnil in Hsub. destruct l as [|x l']; [done|].
    specialize (Hsub x (list_elem_of_here _ _)). by apply not_elem_of_nil in Hsub.
Qed.

(** The sorted groups. *)
Lemma sorted_groups mqe n o calls : 0 <= n -> collects policyId mqe n o calls ->
  Forall2 (fun i g => g ≡ₚ collected policyId mqe i calls /\ Sorted (cmp_le cmp) g) (seqZ 0 n) (map (qsort cmp) (matchInfo o)).
Proof.
  intros Hn Ho. rewrite (collects_groups mqe _ _ _ Hn Ho), map_map.
  induction (seqZ 0 n) as [|i l IH]; simpl; constructor; [|done]. split; [apply qsort_perm|].
  apply qsort_sorted; [exact (order_total _ _ Hcmp)|exact (order_trans _ _ Hcmp)].
Qed.

Lemma packet_events mqe o0 pc0 calls (st : sel_state S) mx lg l0 d :
  0 < max_events eq ->
  Forall (in_policy policyId) calls ->
  (forall o o', o ∈ calls -> o' ∈ calls -> key o = key o' -> o = o') ->
  is_queue mx lg (equeue st) l0 d ->
  exists o pc r o' st' gs d',
    add_matches policyId mqe (init_match_info o0) pc0 calls = Some (o, pc) /\
    fpFinalSelectEvent policyId qsort eq o st = Some (r, o', st') /\
    Forall2 (fun i g => g ≡ₚ collected policyId mqe i calls /\ Sorted (cmp_le cmp) g) (seqZ 0 (Zlen (matchInfo o0))) gs /\
    let l := considered (fresh (flow st)) (process_all_events eq) gs in
    let events := take (Z.to_nat (max_events eq)) (first_events (rule_pass policyId) (fresh (flow st)) l) in
    is_queue mx lg (equeue st') (take (Z.to_nat mx) (l0 ++ map event events)) d' /\
    pass_rule st' = pass_rule st || passed (rule_pass policyId) (fresh (flow st)) (max_events eq) l.
Proof.
  intros Hmx Hcalls Hkeys Hq.
  destruct (add_matches_collects policyId mqe _ calls Hcalls _ pc0 [] (init_collects policyId mqe o0)) as (o & pc & Hadd & Ho).
  simpl in Ho. pose proof (collects_groups mqe _ o calls (Zlen_nonneg _) Ho) as Hmi.
  assert (forall x, x ∈ concat (matchInfo o) -> x ∈ calls) as Hin.
  { intros x Hx. rewrite Hmi in Hx. apply list_elem_of_In, in_concat in Hx as (g & Hg & Hx).
    apply in_map_iff in Hg as (i & <- & _). apply list_elem_of_In, collected_elem in Hx. tauto. }
  assert (NoDup (map key (concat (matchInfo o)))) as Hnd.
  { apply NoDup_fmap_2_strong; [|rewrite Hmi; apply collected_NoDup, NoDup_seqZ].
    intros x y Hx Hy. apply Hkeys; by apply Hin. }
  pose proof (final_select_pick mqe _ o calls st Hmx Ho Hnd) as Hfin. cbv zeta in Hfin.
  set (gs := map (qsort cmp) (matchInfo o)) in *.
  set (l := considered (fresh (flow st)) (process_all_events eq) gs) in *.
  pose proof (pick_events (rule_pass policyId) (fresh (flow st)) (max_events eq) l Hmx) as Hev.
  destruct (pick_from (flow st) 0 l) as [[s es] b]. destruct Hev as [-> ->].
  destruct Hfin as (r & o' & st' & Hfin & Heq & Hpass).
  assert (Forall (in_policy policyId) (take (Z.to_nat (max_events eq)) (first_events (rule_pass policyId) (fresh (flow st)) l))) as Hpol.
  { apply Forall_take, Forall_forall. intros x Hx. rewrite Forall_forall in Hcalls. apply Hcalls, Hin.
    rewrite <- (qsort_concat (matchInfo o)). fold gs. apply (considered_sub (fresh (flow st)) (process_all_events eq)). fold l.
    by apply first_events_sub in Hx. }
  destruct (queue_all_spec mx lg _ Hpol _ _ _ Hq) as (d' & Hq').
  exists o, pc, r, o', st', gs, d'. cbv zeta. fold l. split_and!; [done..| |by rewrite Heq|done].
  apply sorted_groups; [apply Zlen_nonneg|done].
Qed.

(** C15. From the rules that matched to the events queued: each action group
    keeps its first different rules up to the limit; the groups are sorted by
    the configured order; the groups are gone through, only up to the first
    with a new event unless all are wanted; the events queued are the rules not
    yet alerted on in this session that come before the first pass rule, or
    that pass rule when it is the first, at most [max_events] of them and as
    many as the queue has room for; and the packet passes when a pass rule
    comes first. *)
Theorem packet_events_selected mqe o0 pc0 calls (st : sel_state S) mx lg l0 d :
  0 < max_events eq ->
  Forall (in_policy policyId) calls ->
  (forall o o', o ∈ calls -> o' ∈ calls -> key o = key o' -> o = o') ->
  is_queue mx lg (equeue st) l0 d ->
  exists o pc r o' st' gs d',
    add_matches policyId mqe (init_match_info o0) pc0 calls = Some (o, pc) /\
    fpFinalSelectEvent policyId qsort eq o st = Some (r, o', st') /\
    Forall2 (fun i g => g ≡ₚ collected policyId mqe i calls /\ Sorted (cmp_le cmp) g) (seqZ 0 (Zlen (matchInfo o0))) gs /\
    let l := considered (fresh (flow st)) (process_all_events eq) gs in
    let events := take (Z.to_nat (max_events eq)) (first_events (rule_pass policyId) (fresh (flow st)) l) in
    is_queue mx lg (equeue st') (take (Z.to_nat mx) (l0 ++ map event events)) d' /\
    pass_rule st' = pass_rule st || passed (rule_pass policyId) (fresh (flow st)) (max_events eq) l.
Proof. exact (packet_events mqe o0 pc0 calls st mx lg l0 d). Qed.
End Spec.

(** ** A packet with three rules *)

#[export] Instance cmp_le_dec {A} (cmp : A -> A -> Z) x y : Decision (cmp_le cmp x y) := Z_le_dec (cmp x y) 0.
Definition merge_qsort (cmp : OptTreeNode -> OptTreeNode -> Z) (l : list OptTreeNode) : list OptTreeNode :=
  merge_sort (cmp_le cmp) l.

#[export] Instance merge_qsort_laws : QsortLaws merge_qsort.
Proof.
  split; [intros; apply merge_sort_Permutation|]. intros cmp l Htot _. apply Sorted_merge_sort. intros x y. apply Htot.
Qed.

(** Rules with a content of [len] bytes in the alert group and in the pass
    group after it. *)
Definition demo_alert (a : nat) (sid len : Z) : OptTreeNode := MkOtn a 1 sid 1 1 len [Some (MkRtn Actions.ALERT 0)].
Definition demo_pass : OptTreeNode := MkOtn 9 1 90 1 1 20 [Some (MkRtn Actions.PASS 1)].
Definition demo_calls : list OptTreeNode :=
  [demo_alert 1 11 4; demo_alert 2 12 9; demo_alert 1 11 4; demo_pass; demo_alert 3 13 30].
(** A rebuilt packet of a session that has alerted on rule 13. *)
Definition demo_session : TcpStreamSession.t :=
  TcpStreamSession.MkSession [] [TcpStreamSession.MkAlert 1 13 0 0 0].
Definition demo_sel (q : SF_EVENTQ) : sel_state TcpStreamSession.t :=
  MkSel q (Some demo_session) false (MkPegs 0 0 0).
Definition demo_select (q : SF_EVENTQ) :=
  '(o, _) ← add_matches 0 5 (MkOmd false [[]; []]) (MkPegs 0 0 0) demo_calls;
  fpFinalSelectEvent (Session0 := TcpStreamSession.session true true) 0 merge_qsort EventQueueConfigNew o (demo_sel q).

(** The two new alerts are queued, the longer content first. *)
Example demo_packet_selected :
  exists q, sfeventq_new (MkEvent demo_pass None) 8 3 1 = Some q /\
  option_map (fun '(r, _, st) => (r, take 3 (event_mem (equeue st)), pass_rule st)) (demo_select q) =
  Some (1, [MkEvent (demo_alert 2 12 9) (Some (MkRtn Actions.ALERT 0));
            MkEvent (demo_alert 1 11 4) (Some (MkRtn Actions.ALERT 0)); MkEvent demo_pass None], false).
Proof. eexists; split; [reflexivity|]. vm_compute. reflexivity. Qed.

Lemma packet_events_selected_witness :
  exists q o pc r o' st' gs d',
    sfeventq_new (MkEvent demo_pass None) 8 3 1 = Some q /\
    add_matches 0 5 (MkOmd false [[]; []]) (MkPegs 0 0 0) demo_calls = Some (o, pc) /\
    fpFinalSelectEvent (Session0 := TcpStreamSession.session true true) 0 merge_qsort EventQueueConfigNew o (demo_sel q) =
      Some (r, o', st') /\
    is_queue 8 3 (equeue st') (take 8 ([] ++ map (event 0)
      (take 8 (first_events (rule_pass 0) (fresh (Session0 := TcpStreamSession.session true true) (Some demo_session))
        (considered (fresh (Session0 := TcpStreamSession.session true true) (Some demo_session)) false gs))))) d'.
Proof.
  destruct (sfeventq_new (MkEvent demo_pass None) 8 3 1) as [q|] eqn:Hq; [|discriminate Hq].
  destruct (packet_events_selected (Session0 := TcpStreamSession.session true true)
      (SessionLaws0 := TcpStreamSession.tcp_laws true true) 0 merge_qsort EventQueueConfigNew
      sortOrderByContentLength eq_refl 5 (MkOmd false [[]; []]) (MkPegs 0 0 0) demo_calls (demo_sel q) 8 3 [] false)
    as (o & pc & r & o' & st' & gs & d' & Hadd & Hfin & _ & Hqueue & _).
  - reflexivity.
  - repeat constructor; eexists; (split; [reflexivity|simpl; lia]).
  - intros x y Hx Hy. unfold demo_calls in Hx, Hy. rewrite !elem_of_cons in Hx, Hy.
    assert (forall z : OptTreeNode, z ∈ [] -> False) as Hnil by (intros z Hz; by apply not_elem_of_nil in Hz).
    destruct Hx as [->|[->|[->|[->|[->|[]%Hnil]]]]], Hy as [->|[->|[->|[->|[->|[]%Hnil]]]]]; intros [=]; done.
  - by apply new_is_queue in Hq as [? _].
  - exists q, o, pc, r, o', st', gs, d'. done.
Defined.

(** The function's documentation promises 1 for a match; when the last group's
    events have all been gone through it returns 0. *)
Example selection_returns_zero :
  exists q, sfeventq_new (MkEvent demo_pass None) 8 3 1 = Some q /\
  option_map (fun '(r, _, st) => (r, cur_nodes (equeue st)))
    (fpFinalSelectEvent (Session0 := TcpStreamSession.session true true) 0 merge_qsort EventQueueConfigNew
      (MkOmd true [[demo_alert 1 11 4]]) (demo_sel q)) = Some (0, 1).
Proof. eexists; split; [reflexivity|]. vm_compute. reflexivity. Qed.
