(* ===== verification/Threshold.v ===== *)
(** * Threshold: event filters, suppression and detection filters
    (filters/sfthd.cc, filters/sfthreshold.cc, filters/detection_filter.cc)

    A threshold object counts the events of an address over some seconds and
    decides which are logged.  The counters live in a hash table of limited
    memory (XHash) that forgets the least recently used; the objects are in
    lists per rule, suppressions first, with one object per generator as the
    default.  [filtered] counters, which nothing reads, are left out. *)

From S2P Require Import Prelude XHash KeyedTable.

(** ** Data *)

Inductive thd_type := THD_TYPE_LIMIT | THD_TYPE_THRESHOLD | THD_TYPE_BOTH | THD_TYPE_SUPPRESS | THD_TYPE_DETECT.
Inductive thd_track := THD_TRK_NONE | THD_TRK_SRC | THD_TRK_DST.
#[export] Instance thd_type_eq_dec : EqDecision thd_type.
Proof. solve_decision. Defined.
#[export] Instance thd_track_eq_dec : EqDecision thd_track.
Proof. solve_decision. Defined.

Definition THD_MAX_GENID : Z := 8129.
Definition THD_NO_THRESHOLD : Z := -1.
Definition THD_TOO_MANY_THDOBJ : Z := -15.
Definition THD_PRIORITY_SUPPRESS : Z := 1000000.

(** [THD_IP_NODE]: [count] and [prev] are [unsigned]. *)
Record THD_IP_NODE := MkIpNode { ip_count : Z; ip_prev : Z; ip_tstart : Z; ip_tlast : Z }.

Record THD_IP_NODE_KEY (IP : Type) := MkIpKey { k_thd_id : Z; k_policyId : Z; k_ip : IP }.
Record THD_IP_GNODE_KEY (IP : Type) := MkGKey { g_gen_id : Z; g_sig_id : Z; g_policyId : Z; g_ip : IP }.
Arguments MkIpKey {IP}. Arguments MkGKey {IP}.

#[export] Instance ip_key_eq_dec {IP} `{!EqDecision IP} : EqDecision (THD_IP_NODE_KEY IP).
Proof. solve_decision. Defined.
#[export] Instance ip_gkey_eq_dec {IP} `{!EqDecision IP} : EqDecision (THD_IP_GNODE_KEY IP).
Proof. solve_decision. Defined.

(** [V] is [sfip_var_t], a set of addresses; [None] is a null pointer. *)
Record THD_NODE (V : Type) := MkThd {
  thd_id : Z;
  gen_id : Z;
  sig_id : Z;
  tracking : thd_track;
  type : thd_type;
  priority : Z;
  thd_count : Z;
  seconds : Z;
  ip_address : option V }.
Arguments MkThd {V}. Arguments thd_id {V}. Arguments gen_id {V}. Arguments sig_id {V}. Arguments tracking {V}.
Arguments type {V}. Arguments priority {V}. Arguments thd_count {V}. Arguments seconds {V}. Arguments ip_address {V}.

(** [sfthd_create_rule_threshold]. *)
Definition sfthd_create_rule_threshold {V} (id : Z) (track : thd_track) (ty : thd_type) (cnt secs : Z) : THD_NODE V :=
  MkThd id 0 0 track ty 0 cnt secs None.

(** ** The counting test *)

(** On the counter of an address, which is changed: 0 log, -2 do not. *)
Definition sfthd_test_non_suppress {V} (n : THD_NODE V) (d : THD_IP_NODE) (curtime : Z) : Z * THD_IP_NODE :=
  let dt := u32 (curtime - ip_tstart d) in
  match type n with
  | THD_TYPE_DETECT =>
      let d :=
        if dt >=? seconds n then
          MkIpNode 1
            (if u32 (curtime - ip_tlast d) >? seconds n then 0 else u32 (ip_count d - 1)) curtime (ip_tlast d)
        else d in
      let d := MkIpNode (ip_count d) (ip_prev d) (ip_tstart d) curtime in
      if (s32 (ip_count d) >? thd_count n) || (s32 (ip_prev d) >? thd_count n) then (0, d) else (-2, d)
  | THD_TYPE_LIMIT =>
      let d := if dt >=? seconds n then MkIpNode 1 (ip_prev d) curtime (ip_tlast d) else d in
      if s32 (ip_count d) <=? thd_count n then (0, d) else (-2, d)
  | THD_TYPE_THRESHOLD =>
      let d := if dt >=? seconds n then MkIpNode 1 (ip_prev d) curtime (ip_tlast d) else d in
      if s32 (ip_count d) >=? thd_count n then (0, MkIpNode 0 (ip_prev d) curtime (ip_tlast d)) else (-2, d)
  | THD_TYPE_BOTH =>
      if dt >=? seconds n then (-2, MkIpNode 1 (ip_prev d) curtime (ip_tlast d))
      else if s32 (ip_count d) >=? thd_count n then
        (if s32 (ip_count d) >? thd_count n then -2 else 0, d)
      else (-2, d)
  | THD_TYPE_SUPPRESS => (0, d)
  end.

(** ** Counters in a table *)

Section Table.
Context {K : Type} `{!EqDecision K}.
(** The hash of a key; keys are compared byte by byte. *)
Variable hash_fcn : K -> Z.
Variable node_size : Z.
Abbreviation tbl := (XHash (K := K) (D := THD_IP_NODE)).
Definition thd_add (t : tbl) (k : K) (d : THD_IP_NODE) : xresult * tbl := xhash_add hash_fcn key_eqb None node_size t k d.

(** [sfthd_new_hash]; [size] is key plus data. *)
Definition sfthd_new_hash (nbytes size : Z) : option tbl :=
  let nbytes := if nbytes <? size then size else nbytes in
  xhash_new (nbytes / size) nbytes true true.

(** [local_hash->cnode->data], read and written. *)
Definition cnode_data (t : tbl) : option THD_IP_NODE :=
  match cnode t with Some n => data <$> nodes t !! n | None => None end.
Definition set_cnode_data (t : tbl) (d : THD_IP_NODE) : tbl :=
  match cnode t with Some n => set_data t n d | None => t end.

Definition new_data (curtime : Z) : THD_IP_NODE := MkIpNode 1 0 curtime curtime.
Definition count_event (d : THD_IP_NODE) : THD_IP_NODE :=
  MkIpNode (u32 (ip_count d + 1)) (ip_prev d) (ip_tstart d) (ip_tlast d).

(** The common end of [sfthd_test_local] and [sfthd_test_global].  For a new
    counter the test works on a copy. *)
Definition test_key {V} (t : tbl) (n : THD_NODE V) (k : K) (curtime : Z) : Z * tbl :=
  match thd_add t k (new_data curtime) with
  | (XHASH_INTABLE, t) =>
      match cnode_data t with
      | Some d =>
          let '(r, d) := sfthd_test_non_suppress n (count_event d) curtime in (r, set_cnode_data t d)
      | None => (1, t)
      end
  | (XHASH_OK, t) => ((sfthd_test_non_suppress n (new_data curtime) curtime).1, t)
  | (_, t) => (1, t)
  end.
End Table.

(** ** Testing an event *)

Section Test.
Context {IP V : Type} `{!EqDecision IP}.
(** [sfvar_ip_in]; the hash of the two kinds of keys and the sizes of their
    nodes; the network policy. *)
Variable sfvar_ip_in : V -> IP -> bool.
Variable hash_local : THD_IP_NODE_KEY IP -> Z.
Variable hash_global : THD_IP_GNODE_KEY IP -> Z.
Variables local_size global_size : Z.
Variable policy_id : Z.

Abbreviation ltbl := (XHash (K := THD_IP_NODE_KEY IP) (D := THD_IP_NODE)).
Abbreviation gtbl := (XHash (K := THD_IP_GNODE_KEY IP) (D := THD_IP_NODE)).

Definition sfthd_test_suppress (n : THD_NODE V) (ip : IP) : Z :=
  match ip_address n with
  | None => -1
  | Some v => if sfvar_ip_in v ip then -1 else 1
  end.

Definition tracked_ip (n : THD_NODE V) (sip dip : IP) : IP :=
  match tracking n with THD_TRK_SRC => sip | _ => dip end.

Definition local_key (n : THD_NODE V) (ip : IP) : THD_IP_NODE_KEY IP := MkIpKey (thd_id n) policy_id ip.

(** 0 log, negative do not and stop, positive try the next object. *)
Definition sfthd_test_local (t : ltbl) (n : THD_NODE V) (sip dip : IP) (curtime : Z) : Z * ltbl :=
  if thd_count n =? THD_NO_THRESHOLD then (0, t)
  else
    let ip := tracked_ip n sip dip in
    match type n with
    | THD_TYPE_SUPPRESS => (sfthd_test_suppress n ip, t)
    | _ => test_key hash_local local_size t n (local_key n ip) curtime
    end.

Definition sfthd_test_global (t : gtbl) (n : THD_NODE V) (sid : Z) (sip dip : IP) (curtime : Z) : Z * gtbl :=
  if thd_count n =? THD_NO_THRESHOLD then (0, t)
  else
    let ip := tracked_ip n sip dip in
    match type n with
    | THD_TYPE_SUPPRESS => (sfthd_test_suppress n ip, t)
    | _ => test_key hash_global global_size t n (MkGKey (gen_id n) sid policy_id ip) curtime
    end.

(** [sfthd_test_rule], [detection_filter_test]: 1 when the rule is filtered. *)
Definition sfthd_test_rule (t : ltbl) (n : THD_NODE V) (sip dip : IP) (curtime : Z) : Z * ltbl :=
  let '(status, t) := sfthd_test_local t n sip dip curtime in
  (if status <? -1 then 1 else status, t).
Definition detection_filter_test (t : ltbl) (n : option (THD_NODE V)) (sip dip : IP) (curtime : Z) : Z * ltbl :=
  match n with None => (0, t) | Some n => sfthd_test_rule t n sip dip curtime end.

(** [ThresholdObjects]: lists by generator, rule and policy; per policy an
    array of default objects by generator. *)
Record ThresholdObjects := MkObjs {
  objs_count : Z;
  sfthd_array : gmap (Z * (Z * Z)) (list (THD_NODE V));
  sfthd_garray : gmap Z (list (option (THD_NODE V))) }.
Definition sfthd_objs_new : ThresholdObjects := MkObjs 0 ∅ ∅.

Record THD_STRUCT := MkThdStruct { ip_nodes : ltbl; ip_gnodes : gtbl }.

(** The loop over the objects of a rule: the answer when there is one. *)
Fixpoint test_list (t : ltbl) (l : list (THD_NODE V)) (sip dip : IP) (curtime : Z) : option Z * ltbl :=
  match l with
  | [] => (None, t)
  | n :: l =>
      let '(status, t) := sfthd_test_local t n sip dip curtime in
      if status <? 0 then (Some (if status <? -1 then 1 else -1), t)
      else if status =? 0 then (Some 0, t)
      else test_list t l sip dip curtime
  end.

Definition sfthd_test_threshold (o : ThresholdObjects) (thd : THD_STRUCT) (gid sid : Z) (sip dip : IP) (curtime : Z)
    : Z * THD_STRUCT :=
  if gid >=? THD_MAX_GENID then (0, thd)
  else
    let l := default [] (sfthd_array o !! (gid, (sid, policy_id))) in
    let '(answer, t) := test_list (ip_nodes thd) l sip dip curtime in
    let thd := MkThdStruct t (ip_gnodes thd) in
    match answer with
    | Some r => (r, thd)
    | None =>
        match sfthd_garray o !! policy_id ≫= (fun a => default None (rd a gid)) with
        | Some g =>
            let '(status, t) := sfthd_test_global (ip_gnodes thd) g sid sip dip curtime in
            (if status <? 0 then if status <? -1 then 1 else -1 else 0, MkThdStruct (ip_nodes thd) t)
        | None => (0, thd)
        end
    end.

(** [sfthreshold_test] keeps its answer until [sfthreshold_reset]. *)
Record threshold_state := MkTS { thd_checked : bool; thd_answer : Z; thd_runtime : THD_STRUCT }.
Definition sfthreshold_test (enabled : bool) (o : ThresholdObjects) (s : threshold_state) (gid sid : Z) (sip dip : IP)
    (curtime : Z) : Z * threshold_state :=
  if negb enabled then (0, s)
  else
    let s :=
      if thd_checked s then s
      else let '(r, thd) := sfthd_test_threshold o (thd_runtime s) gid sid sip dip curtime in MkTS true r thd in
    (thd_answer s, s).
Definition sfthreshold_reset (s : threshold_state) : threshold_state := MkTS false (thd_answer s) (thd_runtime s).

(** ** Adding objects *)

(** Before the first object of lower priority, else at the end. *)
Fixpoint insert_node (n : THD_NODE V) (l : list (THD_NODE V)) : list (THD_NODE V) :=
  match l with
  | [] => [n]
  | x :: l => if priority n >? priority x then n :: x :: l else x :: insert_node n l
  end.

Definition is_suppress (n : THD_NODE V) : bool := bool_decide (type n = THD_TYPE_SUPPRESS).

(** The object as it is stored. *)
Definition local_node (c : THD_NODE V) : THD_NODE V :=
  let p := if priority c >=? THD_PRIORITY_SUPPRESS then THD_PRIORITY_SUPPRESS - 1 else priority c in
  MkThd (thd_id c) (gen_id c) (sig_id c) (tracking c) (type c)
    (if is_suppress c then THD_PRIORITY_SUPPRESS else p) (thd_count c) (seconds c) (ip_address c).

Definition sfthd_create_threshold_local (o : ThresholdObjects) (c : THD_NODE V) : Z * ThresholdObjects :=
  if gen_id c >=? THD_MAX_GENID then (-1, o)
  else
    let k := (gen_id c, (sig_id c, policy_id)) in
    let l := default [] (sfthd_array o !! k) in
    let store l := MkObjs (objs_count o) (<[k := l]> (sfthd_array o)) (sfthd_garray o) in
    match list.last l with
    | Some p =>
        if negb (is_suppress p) && negb (is_suppress c) then (THD_TOO_MANY_THDOBJ, store l)
        else (0, store (insert_node (local_node c) l))
    | None => (0, store [local_node c])
    end.

(** Objects are compared by address; their ids are unique. *)
Definition same_object (a b : option (THD_NODE V)) : bool := bool_decide (thd_id <$> a = thd_id <$> b).

(** [None]: the array is indexed out of bounds. *)
Definition sfthd_create_threshold_global (o : ThresholdObjects) (c : THD_NODE V) : option (Z * ThresholdObjects) :=
  let a := default (replicate (Z.to_nat THD_MAX_GENID) None) (sfthd_garray o !! policy_id) in
  let store a := MkObjs (objs_count o) (sfthd_array o) (<[policy_id := a]> (sfthd_garray o)) in
  match rd a (gen_id c), rd a 0 with
  | Some cur, Some dflt =>
      if (gen_id c =? 0) && bool_decide (is_Some cur) then Some (THD_TOO_MANY_THDOBJ, store a)
      else if negb (same_object cur dflt) && bool_decide (is_Some cur) then Some (THD_TOO_MANY_THDOBJ, store a)
      else
        let a := if same_object cur dflt then wr a (gen_id c) None else a in
        if gen_id c =? 0
        then Some (0, store (map (fun x => match x with None => Some c | Some _ => x end) a))
        else Some (0, store (wr a (gen_id c) (Some c)))
  | _, _ => None
  end.

Definition sfthd_create_threshold (o : ThresholdObjects) (gid sid : Z) (track : thd_track) (ty : thd_type)
    (prio cnt secs : Z) (ip : option V) : option (Z * ThresholdObjects) :=
  let o := MkObjs (objs_count o + 1) (sfthd_array o) (sfthd_garray o) in
  let n := MkThd (objs_count o) gid sid track ty prio cnt (u32 secs) ip in
  let a := default (replicate (Z.to_nat THD_MAX_GENID) None) (sfthd_garray o !! policy_id) in
  let o := MkObjs (objs_count o) (sfthd_array o) (<[policy_id := a]> (sfthd_garray o)) in
  if sid =? 0 then sfthd_create_threshold_global o n
  else if gid =? 0 then Some (-1, o)
  else Some (sfthd_create_threshold_local o n).
End Test.
Arguments ThresholdObjects V : clear implicits.

(** ** What the counting test decides *)

Section Windows.
Context {V : Type}.
Variable n : THD_NODE V.

(** One more event on a counter. *)
Definition next_event (d : THD_IP_NODE) (t : Z) : Z * THD_IP_NODE := sfthd_test_non_suppress n (count_event d) t.

Fixpoint run (d : THD_IP_NODE) (ts : list Z) : list Z :=
  match ts with
  | [] => []
  | t :: ts => let '(r, d) := next_event d t in r :: run d ts
  end.

(** The answers for the events of one address. *)
Definition answers (ts : list Z) : list Z :=
  match ts with
  | [] => []
  | t :: ts => (sfthd_test_non_suppress n (new_data t) t).1 :: run (new_data t) ts
  end.

(** The counter after them. *)
Definition counter (ts : list Z) : option THD_IP_NODE :=
  match ts with
  | [] => None
  | t :: ts => Some (foldl (fun d t => (next_event d t).2) (new_data t) ts)
  end.

Lemma run_snoc ts t : forall d, run d (ts ++ [t]) = run d ts ++ [(next_event (foldl (fun d t => (next_event d t).2) d ts) t).1].
Proof.
  induction ts as [|x ts IH]; intros d; simpl; [by destruct (next_event d t)|].
  destruct (next_event d x) as [r d']. simpl. by rewrite IH.
Qed.

Lemma answers_snoc ts t :
  answers (ts ++ [t]) = answers ts ++
    [match counter ts with None => (sfthd_test_non_suppress n (new_data t) t).1 | Some d => (next_event d t).1 end] /\
  counter (ts ++ [t]) = Some (match counter ts with None => new_data t | Some d => (next_event d t).2 end).
Proof.
  destruct ts as [|x ts]; simpl; [done|]. rewrite run_snoc, foldl_app. done.
Qed.

(** The events in windows of [secs] seconds, each opened by the first event
    after the one before has ended. *)
Fixpoint windows_from (s : Z) (w : list Z) (ts : list Z) : list (list Z) :=
  match ts with
  | [] => [w]
  | t :: ts => if t - s >=? seconds n then w :: windows_from t [t] ts else windows_from s (w ++ [t]) ts
  end.
Definition windows (ts : list Z) : list (list Z) :=
  match ts with [] => [] | t :: ts => windows_from t [t] ts end.

(** Answers by the number of an event in its window. *)
Definition by_position (log : Z -> bool) (w : list Z) : list Z :=
  map (fun i => if log i then 0 else -2) (seqZ 1 (Zlen w)).

(** A detection filter also lets events pass when the window before, which must
    have ended at most [secs] seconds ago, had more than [count] events. *)
Definition hot (before : option (list Z)) (w : list Z) : bool :=
  match before with
  | None => false
  | Some p => (Zlen p >? thd_count n) && negb (default 0 (head w) - default 0 (list.last p) >? seconds n)
  end.
Fixpoint detect_windows (before : option (list Z)) (ws : list (list Z)) : list Z :=
  match ws with
  | [] => []
  | w :: ws => by_position (fun i => (i >? thd_count n) || hot before w) w ++ detect_windows (Some w) ws
  end.

(** For a [threshold] a window also ends with its [count]-th event, and the
    next one opens at that moment, still empty. *)
Fixpoint threshold_windows (s : Z) (w : list Z) (ts : list Z) : list (list Z) :=
  match ts with
  | [] => [w]
  | t :: ts =>
      let take_event s w :=
        if Zlen w >=? thd_count n then w :: threshold_windows t [] ts else threshold_windows s w ts in
      if t - s >=? seconds n then w :: take_event t [t] else take_event s (w ++ [t])
  end.

Definition specified (ts : list Z) : list Z :=
  match type n with
  | THD_TYPE_THRESHOLD =>
      match ts with
      | [] => []
      | t :: ts => concat (map (by_position (fun i => i >=? thd_count n)) (threshold_windows t [t] ts))
      end
  | THD_TYPE_LIMIT => concat (map (by_position (fun i => i <=? thd_count n)) (windows ts))
  | THD_TYPE_BOTH =>
      concat (map (by_position (fun i => i =? thd_count n)) (windows ts))
  | THD_TYPE_DETECT => detect_windows None (windows ts)
  | _ => []
  end.

Lemma by_position_snoc log w t :
  by_position log (w ++ [t]) = by_position log w ++ [if log (Zlen w + 1) then 0 else -2].
Proof.
  unfold by_position. replace (Zlen (w ++ [t])) with (Zlen w + 1) by (by rewrite Zlen_app).
  rewrite seqZ_app by (pose proof (Zlen_nonneg w); lia). rewrite map_app. simpl.
  f_equal. replace (Z.of_nat 0 + (1 + Zlen w)) with (Zlen w + 1) by lia. done.
Qed.

(** Times of one counter: not decreasing, and within the range of the
    subtractions. *)
Fixpoint times_ok (s : Z) (lo : Z) (ts : list Z) : Prop :=
  match ts with [] => True | t :: ts => lo <= t /\ t - s < 2 ^ 32 /\ times_ok s t ts end.

Lemma times_ok_later s s' lo ts : s <= s' -> times_ok s lo ts -> times_ok s' lo ts.
Proof.
  revert lo. induction ts as [|t ts IH]; intros lo Hs; simpl; [done|].
  intros (H1 & H2 & H3). split_and!; [done|lia|by apply IH].
Qed.

Hypothesis Hsec : 0 < seconds n.
Hypothesis Hcount : 0 <= thd_count n.

Lemma count_ok d (w : list Z) k : ip_count d = Zlen w -> Zlen w + Z.of_nat (S k) < 2 ^ 31 ->
  u32 (ip_count d + 1) = Zlen w + 1 /\ s32 (Zlen w + 1) = Zlen w + 1 /\ s32 1 = 1.
Proof. intros -> Hw. pose proof (Zlen_nonneg w). split_and!; [apply u32_small|apply s32_small|done]; munfold; lia. Qed.

Lemma limit_windows ts : type n = THD_TYPE_LIMIT -> forall d s w lo,
  ip_tstart d = s -> ip_count d = Zlen w -> Zlen w + Zlen ts < 2 ^ 31 -> s <= lo -> times_ok s lo ts ->
  concat (map (by_position (fun i => i <=? thd_count n)) (windows_from s w ts)) =
  by_position (fun i => i <=? thd_count n) w ++ run d ts.
Proof.
  intros Hty. induction ts as [|t ts IH]; intros d s w lo Hs Hc Hw Hlo; simpl; [done|].
  intros (Ht & Hr & Hts). rewrite Zlen_cons in Hw.
  destruct (count_ok d w (length ts) Hc ltac:(unfold Zlen in *; lia)) as (E1 & E2 & E3).
  unfold next_event, sfthd_test_non_suppress, count_event. rewrite Hty.
  cbn [ip_count ip_prev ip_tstart ip_tlast]. rewrite Hs, E1, (u32_small (t - s)) by (munfold; lia).
  bcase (t - s >=? seconds n) as G; simpl.
  - rewrite (IH (MkIpNode 1 (ip_prev d) t (ip_tlast d)) t [t] t); simpl; try done; try lia.
    + change (Z.of_nat 0 + 1) with 1. rewrite E3. by destruct (1 <=? thd_count n).
    + rewrite Zlen_cons, Zlen_nil. pose proof (Zlen_nonneg w). lia.
    + by apply (times_ok_later s); [lia|].
  - rewrite E2. rewrite (IH (MkIpNode (Zlen w + 1) (ip_prev d) s (ip_tlast d)) s (w ++ [t]) t); simpl; try done; try lia.
    + rewrite by_position_snoc, <- app_assoc. simpl. by destruct (Zlen w + 1 <=? thd_count n).
    + by rewrite Zlen_app, Zlen_cons, Zlen_nil.
    + rewrite Zlen_app, Zlen_cons, Zlen_nil. lia.
Qed.

(** The later windows of a [both] object. *)
Definition later (i : Z) : bool := (i =? thd_count n) && negb (i =? 1).

Lemma both_windows ts : type n = THD_TYPE_BOTH -> forall log d s w lo,
  (forall i, 1 < i -> log i = (i =? thd_count n)) -> 1 <= Zlen w ->
  ip_tstart d = s -> ip_count d = Zlen w -> Zlen w + Zlen ts < 2 ^ 31 -> s <= lo -> times_ok s lo ts ->
  match windows_from s w ts with
  | [] => False
  | x :: ws => by_position log x ++ concat (map (by_position later) ws) = by_position log w ++ run d ts
  end.
Proof.
  intros Hty. induction ts as [|t ts IH]; intros log d s w lo Hlog Hw1 Hs Hc Hw Hlo; simpl; [done|].
  intros (Ht & Hr & Hts). rewrite Zlen_cons in Hw.
  destruct (count_ok d w (length ts) Hc ltac:(unfold Zlen in *; lia)) as (E1 & E2 & E3).
  unfold next_event, sfthd_test_non_suppress, count_event. rewrite Hty.
  cbn [ip_count ip_prev ip_tstart ip_tlast]. rewrite Hs, E1, E2, (u32_small (t - s)) by (munfold; lia).
  bcase (t - s >=? seconds n) as G; simpl.
  - assert (forall i, 1 < i -> later i = (i =? thd_count n)) as Hlater.
    { intros i Hi. unfold later. rewrite (proj2 (Z.eqb_neq i 1)) by lia. by rewrite andb_true_r. }
    assert (Zlen [t] = 1) as H1 by done.
    specialize (IH later (MkIpNode 1 (ip_prev d) t (ip_tlast d)) t [t] t Hlater ltac:(lia) eq_refl eq_refl
      ltac:(lia) ltac:(lia) ltac:(by apply (times_ok_later s); [lia|])).
    destruct (windows_from t [t] ts) as [|x ws]; [done|].
    simpl. f_equal. rewrite IH. simpl. unfold later. by rewrite andb_false_r.
  - specialize (IH log (MkIpNode (Zlen w + 1) (ip_prev d) s (ip_tlast d)) s (w ++ [t]) t Hlog).
    rewrite Zlen_app, Zlen_cons, Zlen_nil in IH.
    specialize (IH ltac:(lia) eq_refl ltac:(simpl; lia) ltac:(lia) ltac:(lia) Hts).
    destruct (windows_from s (w ++ [t]) ts) as [|x ws]; [done|].
    rewrite IH, by_position_snoc, <- app_assoc. simpl. rewrite Hlog by lia. f_equal.
    bcases; try lia; f_equal; lia.
Qed.

Lemma detect_windows_run ts : type n = THD_TYPE_DETECT -> forall before d s w lo,
  w <> [] -> (s32 (ip_prev d) >? thd_count n) = hot before w -> list.last w = Some (ip_tlast d) -> ip_tlast d = lo ->
  ip_tstart d = s -> ip_count d = Zlen w -> Zlen w + Zlen ts < 2 ^ 31 -> s <= lo -> times_ok s lo ts ->
  detect_windows before (windows_from s w ts) =
  by_position (fun i => (i >? thd_count n) || hot before w) w ++ run d ts.
Proof.
  intros Hty. induction ts as [|t ts IH]; intros before d s w lo Hne Hhot Hlast Hl Hs Hc Hw Hlo; simpl; [done|].
  intros (Ht & Hr & Hts). rewrite Zlen_cons in Hw.
  destruct (count_ok d w (length ts) Hc ltac:(unfold Zlen in *; lia)) as (E1 & E2 & E3).
  unfold next_event, sfthd_test_non_suppress, count_event. rewrite Hty.
  cbn [ip_count ip_prev ip_tstart ip_tlast]. rewrite Hs, E1, !u32_small by (munfold; pose proof (Zlen_nonneg w); lia).
  replace (Zlen w + 1 - 1) with (Zlen w) by lia. assert (Zlen [t] = 1) as H1 by done.
  pose proof (Zlen_nonneg w) as Hw0. pose proof (Zlen_nonneg ts) as Hts0.
  rewrite ?(u32_small (Zlen w)) by (munfold; lia).
  bcase (t - s >=? seconds n) as G; cbn [ip_count ip_prev ip_tstart ip_tlast].
  - set (prev := if t - ip_tlast d >? seconds n then 0 else Zlen w).
    assert ((s32 prev >? thd_count n) = hot (Some w) [t]) as Hprev.
    { unfold prev, hot. rewrite Hlast. simpl.
      destruct (t - ip_tlast d >? seconds n); simpl.
      - rewrite andb_false_r. rewrite s32_small by (munfold; lia). rewrite Z.gtb_ltb. apply Z.ltb_ge. lia.
      - rewrite andb_true_r, s32_small by (munfold; lia). done. }
    simpl. rewrite (IH (Some w) (MkIpNode 1 prev t t) t [t] t); try done; try lia.
    2: by apply (times_ok_later s); [lia|].
    f_equal. rewrite Hprev, E3.
    change (by_position ?f [t]) with [if f 1 then 0 else -2].
    by destruct ((1 >? thd_count n) || hot (Some w) [t]).
  - assert (hot before (w ++ [t]) = hot before w) as Hh.
    { unfold hot. destruct before; [|done]. by destruct w. }
    rewrite (IH before (MkIpNode (Zlen w + 1) (ip_prev d) s t) s (w ++ [t]) t); simpl; try done; try lia.
    + rewrite by_position_snoc, <- app_assoc, Hh, E2, Hhot. simpl.
      by destruct ((Zlen w + 1 >? thd_count n) || hot before w).
    + by destruct w.
    + by rewrite Hh.
    + by rewrite last_snoc.
    + by rewrite Zlen_app.
    + rewrite Zlen_app, H1. lia.
Qed.

Lemma threshold_windows_run ts : type n = THD_TYPE_THRESHOLD -> forall d s w lo,
  ip_tstart d = s -> ip_count d = Zlen w -> Zlen w + Zlen ts < 2 ^ 31 -> s <= lo -> times_ok s lo ts ->
  concat (map (by_position (fun i => i >=? thd_count n)) (threshold_windows s w ts)) =
  by_position (fun i => i >=? thd_count n) w ++ run d ts.
Proof.
  intros Hty. induction ts as [|t ts IH]; intros d s w lo Hs Hc Hw Hlo; simpl; [done|].
  intros (Ht & Hr & Hts). rewrite Zlen_cons in Hw.
  destruct (count_ok d w (length ts) Hc ltac:(unfold Zlen in *; lia)) as (E1 & E2 & E3).
  pose proof (Zlen_nonneg w) as Hw0. pose proof (Zlen_nonneg ts) as Hts0. assert (Zlen [t] = 1) as H1 by done.
  assert (times_ok t t ts) as Hts' by (by apply (times_ok_later s); [lia|]).
  unfold next_event, sfthd_test_non_suppress, count_event. rewrite Hty.
  cbn [ip_count ip_prev ip_tstart ip_tlast]. rewrite Hs, E1, (u32_small (t - s)) by (munfold; lia).
  assert (Zlen (w ++ [t]) = Zlen w + 1) as Ew by (by rewrite Zlen_app).
  bcase (t - s >=? seconds n) as G; cbn [ip_count ip_prev ip_tstart ip_tlast].
  - rewrite E3, H1. destruct (1 >=? thd_count n) eqn:G1; cbn [map concat].
    + rewrite (IH (MkIpNode 0 (ip_prev d) t (ip_tlast d)) t [] t); try done; try (rewrite ?Zlen_nil; lia).
      change (by_position ?f [t]) with [if f 1 then 0 else -2]. cbv beta. by rewrite G1.
    + rewrite (IH (MkIpNode 1 (ip_prev d) t (ip_tlast d)) t [t] t); try done; try lia.
      change (by_position ?f [t]) with [if f 1 then 0 else -2]. cbv beta. by rewrite G1.
  - rewrite E2, Ew. destruct (Zlen w + 1 >=? thd_count n) eqn:G1; cbn [map concat].
    + rewrite (IH (MkIpNode 0 (ip_prev d) t (ip_tlast d)) t [] t); try done; try (rewrite ?Zlen_nil; lia).
      by rewrite by_position_snoc, G1, <- app_assoc.
    + rewrite (IH (MkIpNode (Zlen w + 1) (ip_prev d) s (ip_tlast d)) s (w ++ [t]) t); try done; try lia.
      by rewrite by_position_snoc, G1, <- app_assoc.
Qed.

(** The events of one address, tested one after the other, are answered as
    specified. *)
Lemma answers_specified t ts :
  type n <> THD_TYPE_SUPPRESS -> (type n = THD_TYPE_BOTH -> thd_count n <> 1) ->
  Zlen (t :: ts) < 2 ^ 31 -> times_ok t t ts ->
  answers (t :: ts) = specified (t :: ts).
Proof.
  intros Hns Hone Hlen Hts. rewrite Zlen_cons in Hlen. assert (Zlen [t] = 1) as H1 by done.
  unfold answers, specified, windows. destruct (type n) eqn:Hty; try done.
  - rewrite (limit_windows ts Hty (new_data t) t [t] t); try done; try lia.
    unfold sfthd_test_non_suppress. rewrite Hty. simpl. rewrite Z.sub_diag.
    bcase (u32 0 >=? seconds n) as G; [vm_compute (u32 0) in G; lia|]. simpl.
    change (s32 1) with 1. change (Z.of_nat 0 + 1) with 1. by destruct (1 <=? thd_count n).
  - rewrite (threshold_windows_run ts Hty (new_data t) t [t] t); try done; try lia.
    unfold sfthd_test_non_suppress. rewrite Hty. simpl. rewrite Z.sub_diag.
    bcase (u32 0 >=? seconds n) as G; [vm_compute (u32 0) in G; lia|]. simpl.
    change (s32 1) with 1. change (Z.of_nat 0 + 1) with 1. by destruct (1 >=? thd_count n).
  - pose proof (both_windows ts Hty (fun i => i =? thd_count n) (new_data t) t [t] t) as H.
    specialize (H ltac:(done) ltac:(lia) eq_refl eq_refl ltac:(lia) ltac:(lia) Hts).
    assert (forall w, by_position later w = by_position (fun i => i =? thd_count n) w) as Hl.
    { intros w. unfold by_position, later. apply map_ext. intros i. specialize (Hone eq_refl).
      bcase (i =? thd_count n) as G; simpl; [|done]. by rewrite (proj2 (Z.eqb_neq i 1)) by lia. }
    destruct (windows_from t [t] ts) as [|x ws]; [done|]. rewrite (map_ext _ _ Hl) in H. cbn [map concat]. rewrite H.
    unfold sfthd_test_non_suppress. rewrite Hty. simpl. rewrite Z.sub_diag.
    bcase (u32 0 >=? seconds n) as G; [vm_compute (u32 0) in G; lia|]. simpl.
    change (s32 1) with 1. change (Z.of_nat 0 + 1) with 1. f_equal.
    change (match thd_count n with Z.pos _ => _ | _ => _ end) with (1 =? thd_count n). bcases; simpl; try done; lia.
  - rewrite (detect_windows_run ts Hty None (new_data t) t [t] t); try done; try lia.
    + unfold sfthd_test_non_suppress. rewrite Hty. simpl. rewrite Z.sub_diag.
      bcase (u32 0 >=? seconds n) as G; [vm_compute (u32 0) in G; lia|]. simpl.
      change (s32 1) with 1. change (s32 0) with 0. change (Z.of_nat 0 + 1) with 1.
      f_equal. rewrite orb_false_r. bcases; simpl; try done; destruct_or?; breflect; lia.
    + simpl. change (s32 0) with 0. rewrite Z.gtb_ltb. apply Z.ltb_ge. lia.
Qed.
End Windows.

(** ** The counters of many addresses in one table *)

Section Trace.
Context {K : Type} `{!EqDecision K}.
Variable hash_fcn : K -> Z.
Variable node_size : Z.
(** The object that counts under a key. *)
Context {V : Type} (n : K -> THD_NODE V).
Abbreviation tbl := (XHash (K := K) (D := THD_IP_NODE)).

Definition count_step (k : K) (o : option THD_IP_NODE) (time : Z) : Z * THD_IP_NODE :=
  match o with
  | None => ((sfthd_test_non_suppress (n k) (new_data time) time).1, new_data time)
  | Some d => next_event (n k) d time
  end.

Lemma test_key_accesses :
  accesses hash_fcn node_size count_step (fun t k time => test_key hash_fcn node_size t (n k) k time).
Proof.
  intros t k time m Iw Hs Hr Hm. unfold test_key, thd_add, xhash_add.
  destruct (decide (k ∈ (XHash.abs t).*1)) as [Hk|Hk].
  - destruct (find_old hash_fcn node_size t k m Iw Hs Hr Hk) as (x & t1 & d & l1 & l2 & -> & Ha & Hd & Hset).
    change (cnode_data (set_cur t1 (crow t1) (Some x) (gnode t1))) with (node_data t1 x). rewrite Hd.
    change (sfthd_test_non_suppress (n k) (count_event d) time) with (next_event (n k) d time).
    destruct (next_event (n k) d time) as [r d'] eqn:E.
    change (set_cnode_data (set_cur t1 (crow t1) (Some x) (gnode t1)) d') with (set_data (set_cur t1 (crow t1) (Some x) (gnode t1)) x d').
    rewrite set_data_cur. destruct (Hset d') as (? & ? & ? & ?). split_and!; [done|done|]. right.
    exists d, l1, l2. cbn [count_step]. rewrite E. split_and!; [done|done|done|by apply room_cur].
  - destruct Hm as [Hm|]; [|done].
    destruct (find_new hash_fcn node_size t k m Iw Hs Hr Hm Hk) as (t1 & x & t2 & -> & -> & _ & Hl).
    destruct (Hl (new_data time)) as (? & ? & ? & ? & _). split_and!; [done|done|]. by left.
Qed.

(** Events, each with its key and time, tested in order. *)
Definition test_all (t : tbl) (evs : list (K * Z)) : list (K * Z) * tbl :=
  access_all (fun t k time => test_key hash_fcn node_size t (n k) k time) t evs.

Lemma run_key_answers k ts : run_key count_step k ts = answers (n k) ts /\ state_of count_step k ts = counter (n k) ts.
Proof.
  induction ts as [|t ts [IH1 IH2]] using rev_ind; [done|]. destruct (answers_snoc (n k) ts t) as [Ea Ec].
  rewrite run_key_snoc, IH1, IH2, Ea, Ec. split.
  - f_equal. f_equal. by destruct (counter (n k) ts).
  - unfold state_of in *. rewrite foldl_app, IH2. simpl. by destruct (counter (n k) ts).
Qed.
End Trace.

(** ** Objects and their events *)

Section Objects.
Context {IP V : Type} `{!EqDecision IP}.
Variable sfvar_ip_in : V -> IP -> bool.
Variable hash_local : THD_IP_NODE_KEY IP -> Z.
Variable local_size : Z.
Variable policy_id : Z.
(** The object with a given id. *)
Variable obj : Z -> THD_NODE V.
Hypothesis obj_id : forall id, thd_id (obj id) = id.

(** An event that is tested against an object. *)
Record event := MkEv { ev_obj : Z; ev_sip : IP; ev_dip : IP; ev_time : Z }.
Definition ev_key (e : event) : THD_IP_NODE_KEY IP :=
  local_key policy_id (obj (ev_obj e)) (tracked_ip (obj (ev_obj e)) (ev_sip e) (ev_dip e)).

Definition test_events (t : XHash) (evs : list event) : list (THD_IP_NODE_KEY IP * Z) * XHash :=
  foldl (fun '(rs, t) e =>
    let '(r, t) := sfthd_test_local sfvar_ip_in hash_local local_size policy_id t (obj (ev_obj e)) (ev_sip e) (ev_dip e) (ev_time e) in
    (rs ++ [(ev_key e, r)], t)) ([], t) evs.

(** The object counts: no suppression, a window, for [both] a count that is not
    1 (sfthd.cc: "which must be > '1'"), and no addresses it is restricted to. *)
Definition counting (n : THD_NODE V) : Prop :=
  type n <> THD_TYPE_SUPPRESS /\ (type n = THD_TYPE_BOTH -> thd_count n <> 1) /\ ip_address n = None /\
  0 <= thd_count n /\ 0 < seconds n.

Lemma test_events_all (t : XHash) evs : Forall (fun e => counting (obj (ev_obj e))) evs ->
  test_events t evs = test_all hash_local local_size (fun k => obj (k_thd_id _ k)) t (map (fun e => (ev_key e, ev_time e)) evs).
Proof.
  intros H. unfold test_events, test_all, access_all.
  match goal with |- foldl ?F _ _ = foldl ?G _ _ =>
    enough (forall rs t, foldl F (rs, t) evs = foldl G (rs, t) (map (fun e => (ev_key e, ev_time e)) evs)) by done end.
  clear t. induction H as [|e evs (Hty & _ & _ & Hc & _) _ IH]; intros rs t; simpl; [done|].
  rewrite obj_id. unfold sfthd_test_local. rewrite (proj2 (Z.eqb_neq _ _)) by (unfold THD_NO_THRESHOLD; lia).
  change (local_key policy_id (obj (ev_obj e)) _) with (ev_key e).
  replace (match type (obj (ev_obj e)) with THD_TYPE_SUPPRESS => _ | _ => _ end)
    with (test_key hash_local local_size t (obj (ev_obj e)) (ev_key e) (ev_time e)) by (by destruct (type (obj (ev_obj e)))).
  destruct (test_key _ _ t _ _ _) as [r t']. apply IH.
Qed.

(** Times that do not decrease and lie within 2^32 seconds. *)
Definition times_fit (ts : list Z) : Prop := match ts with [] => True | t :: ts => times_ok t t ts end.

Lemma new_hash_room nbytes size (t : XHash (K := THD_IP_NODE_KEY IP) (D := THD_IP_NODE)) m :
  0 < size <= nbytes -> nbytes < 2 ^ 30 -> 0 <= local_size ->
  sfthd_new_hash nbytes size = Some t -> 8 * 2 ^ Z.log2_up (nbytes / size) + 8 + m * (local_size + 8) <= nbytes ->
  xwf hash_local key_eqb t /\ splay t = true /\ XHash.abs t = [] /\ room local_size t m.
Proof.
  intros Hs Hn Hl. unfold sfthd_new_hash. bcase (nbytes <? size) as G; [lia|]. intros Hnew Hmem.
  exact (xhash_new_room hash_local local_size nbytes size t m Hs Hn Hl Hnew Hmem).
Qed.

End Objects.

(** ** Configured objects *)

Section Config.
Context {IP V : Type} `{!EqDecision IP}.
Variable sfvar_ip_in : V -> IP -> bool.
Variable hash_local : THD_IP_NODE_KEY IP -> Z.
Variable hash_global : THD_IP_GNODE_KEY IP -> Z.
Variables local_size global_size : Z.
Variable policy_id : Z.

(** [THDX_STRUCT]: what the parser has read of a filter. *)
Record THDX_STRUCT := MkThdx {
  x_gen_id : Z; x_sig_id : Z; x_type : thd_type; x_tracking : thd_track; x_priority : Z; x_count : Z;
  x_seconds : Z; x_ip : option V }.

(** [sfthreshold_create] for one filter after the other; the answers. *)
Definition create_one (o : ThresholdObjects V) (x : THDX_STRUCT) : option (Z * ThresholdObjects V) :=
  sfthd_create_threshold policy_id o (x_gen_id x) (x_sig_id x) (x_tracking x) (x_type x) (x_priority x) (x_count x)
    (x_seconds x) (x_ip x).
Fixpoint create_all (o : ThresholdObjects V) (xs : list THDX_STRUCT) : option (list Z * ThresholdObjects V) :=
  match xs with
  | [] => Some ([], o)
  | x :: xs =>
      match create_one o x with
      | None => None
      | Some (r, o) => match create_all o xs with Some (rs, o) => Some (r :: rs, o) | None => None end
      end
  end.

Definition suppresses (x : THDX_STRUCT) : Prop := x_type x = THD_TYPE_SUPPRESS.
Definition rule_of (x : THDX_STRUCT) : Z * (Z * Z) := (x_gen_id x, (x_sig_id x, policy_id)).
(** A filter for one rule, of a generator that has an entry. *)
Definition for_rule (x : THDX_STRUCT) : Prop := x_gen_id x <> 0 /\ x_gen_id x < THD_MAX_GENID /\ x_sig_id x <> 0.

(** Suppressions at the front, at most one other object behind them. *)
Definition list_ok (l : list (THD_NODE V)) : Prop :=
  exists sups rest, l = sups ++ rest /\ (length rest <= 1)%nat /\
    Forall (fun n => type n = THD_TYPE_SUPPRESS /\ priority n = THD_PRIORITY_SUPPRESS) sups /\
    Forall (fun n => type n <> THD_TYPE_SUPPRESS /\ priority n < THD_PRIORITY_SUPPRESS) rest.

(** The suppression that a filter stands for. *)
Definition is_sup (x : THDX_STRUCT) (n : THD_NODE V) : Prop :=
  type n = THD_TYPE_SUPPRESS /\ tracking n = x_tracking x /\ ip_address n = x_ip x /\ thd_count n = x_count x.

Definition objs_ok (o : ThresholdObjects V) (xs : list THDX_STRUCT) : Prop :=
  forall k, list_ok (default [] (sfthd_array o !! k)) /\
    (forall n, n ∈ default [] (sfthd_array o !! k) -> type n = THD_TYPE_SUPPRESS ->
      exists x, x ∈ xs /\ suppresses x /\ is_sup x n) /\
    (forall x, x ∈ xs -> suppresses x -> for_rule x -> rule_of x = k ->
      exists n, n ∈ default [] (sfthd_array o !! k) /\ is_sup x n).

Lemma insert_suppression n sups rest :
  priority n = THD_PRIORITY_SUPPRESS -> (length rest <= 1)%nat ->
  Forall (fun n => type n = THD_TYPE_SUPPRESS /\ priority n = THD_PRIORITY_SUPPRESS) sups ->
  Forall (fun n : THD_NODE V => type n <> THD_TYPE_SUPPRESS /\ priority n < THD_PRIORITY_SUPPRESS) rest ->
  insert_node n (sups ++ rest) = sups ++ n :: rest.
Proof.
  intros Hn Hlen Hs Hr. induction Hs as [|x sups [_ Hx] _ IH]; simpl.
  - destruct Hr as [|y rest [_ Hy] _]; simpl; [done|]. bcase (priority n >? priority y) as G; [done|lia].
  - bcase (priority n >? priority x) as G; [lia|]. by rewrite IH.
Qed.

Lemma insert_last n sups :
  priority n < THD_PRIORITY_SUPPRESS ->
  Forall (fun n : THD_NODE V => type n = THD_TYPE_SUPPRESS /\ priority n = THD_PRIORITY_SUPPRESS) sups ->
  insert_node n sups = sups ++ [n].
Proof.
  intros Hn Hs. induction Hs as [|x sups [_ Hx] _ IH]; simpl; [done|].
  bcase (priority n >? priority x) as G; [lia|]. by rewrite IH.
Qed.

Lemma local_node_priority (c : THD_NODE V) :
  if is_suppress c then priority (local_node c) = THD_PRIORITY_SUPPRESS else priority (local_node c) < THD_PRIORITY_SUPPRESS.
Proof. unfold local_node. destruct (is_suppress c); simpl; [done|]. bcases; lia. Qed.

(** Storing an object: the list keeps its form, and the object is in it unless
    it is the second one that counts. *)
Lemma store_ok (c : THD_NODE V) l : list_ok l ->
  let l' :=
    match list.last l with
    | Some p => if negb (is_suppress p) && negb (is_suppress c) then l else insert_node (local_node c) l
    | None => [local_node c]
    end in
  list_ok l' /\ (forall n, n ∈ l' -> n ∈ l \/ n = local_node c) /\ l ⊆ l' /\
  (type c = THD_TYPE_SUPPRESS -> local_node c ∈ l').
Proof.
  intros (sups & rest & -> & Hlen & Hs & Hr). pose proof (local_node_priority c) as Hp.
  assert (type (local_node c) = type c) as Hty by done.
  unfold is_suppress in *. destruct (decide (type c = THD_TYPE_SUPPRESS)) as [Hc|Hc].
  - rewrite (bool_decide_eq_true_2 _ Hc) in Hp.
    assert (match list.last (sups ++ rest) with
      | Some p => if negb (bool_decide (type p = THD_TYPE_SUPPRESS)) && negb (bool_decide (type c = THD_TYPE_SUPPRESS))
          then sups ++ rest else insert_node (local_node c) (sups ++ rest)
      | None => [local_node c] end = sups ++ local_node c :: rest) as ->.
    { rewrite <- (insert_suppression (local_node c) sups rest) by done.
      destruct (list.last (sups ++ rest)) eqn:E; [|apply last_None in E; by rewrite E].
      rewrite (bool_decide_eq_true_2 (type c = _)) by done. by rewrite andb_false_r. }
    split_and!.
    + exists (sups ++ [local_node c]), rest. rewrite <- app_assoc. split_and!; try done.
      apply Forall_app. split; [done|]. by repeat constructor.
    + intros n. rewrite !elem_of_app, elem_of_cons. tauto.
    + intros n. rewrite !elem_of_app, elem_of_cons. tauto.
    + intros _. rewrite elem_of_app, elem_of_cons. tauto.
  - rewrite (bool_decide_eq_false_2 _ Hc) in *. simpl. destruct rest as [|y rest].
    + rewrite app_nil_r in *. assert (match list.last sups with
        | Some p => if negb (bool_decide (type p = THD_TYPE_SUPPRESS)) && true then sups else insert_node (local_node c) sups
        | None => [local_node c] end = sups ++ [local_node c]) as ->.
      { destruct (list.last sups) as [p|] eqn:E; [|apply last_None in E; by subst].
        apply last_Some_elem_of in E as Hin. rewrite Forall_forall in Hs.
        rewrite bool_decide_eq_true_2 by (by apply Hs). simpl. apply insert_last; [done|]. by apply Forall_forall. }
      split_and!; try done.
      * exists sups, [local_node c]. split_and!; try done. by repeat constructor.
      * intros n. rewrite elem_of_app, list_elem_of_singleton. tauto.
      * intros n. rewrite elem_of_app. tauto.
    + destruct rest; [|simpl in Hlen; lia]. rewrite last_snoc. apply Forall_cons in Hr as [[Hy Hyp] _].
      rewrite bool_decide_eq_false_2 by done. simpl. split_and!; try done; [|auto].
      exists sups, [y]. split_and!; try done. by repeat constructor.
Qed.

Lemma objs_ok_skip o o' xs x :
  sfthd_array o' = sfthd_array o -> ~ for_rule x -> objs_ok o xs -> objs_ok o' (xs ++ [x]).
Proof.
  intros E Hx H k. rewrite E. destruct (H k) as (Hl & Hn & Hs). split_and!; [done| |].
  - intros n Hin Hty. destruct (Hn n Hin Hty) as (y & Hy & ?). exists y. rewrite elem_of_app. auto.
  - intros y Hy Hsy Hr Hk. apply elem_of_app in Hy as [Hy|Hy%list_elem_of_singleton]; [by apply Hs|by subst].
Qed.

Lemma create_one_ok o xs x r o' :
  objs_ok o xs -> create_one o x = Some (r, o') ->
  objs_ok o' (xs ++ [x]) /\ (suppresses x -> for_rule x -> r = 0).
Proof.
  intros Ho. unfold create_one, sfthd_create_threshold. cbn [objs_count sfthd_array sfthd_garray].
  set (a := default _ (sfthd_garray o !! policy_id)).
  bcase (x_sig_id x =? 0) as Gs.
  { intros H. assert (sfthd_array o' = sfthd_array o) as E.
    { unfold sfthd_create_threshold_global in H. cbn [sfthd_array sfthd_garray] in H.
      repeat case_match; simplify_eq; done. }
    split; [|intros _ (_ & _ & ?); lia]. apply (objs_ok_skip o); [done| |done]. intros (_ & _ & ?). lia. }
  bcase (x_gen_id x =? 0) as Gg.
  { intros [= <- <-]. split; [|intros _ (? & _); lia]. apply (objs_ok_skip o); [done| |done]. intros (? & _). lia. }
  intros [= H]. unfold sfthd_create_threshold_local in H. cbn [gen_id sig_id sfthd_array objs_count sfthd_garray] in H.
  bcase (x_gen_id x >=? THD_MAX_GENID) as Gm.
  { injection H as <- <-. split; [|intros _ (_ & ? & _); lia]. apply (objs_ok_skip o); [done| |done]. intros (_ & ? & _). lia. }
  set (c := MkThd _ _ _ _ _ _ _ _ _) in H. change (x_gen_id x, (x_sig_id x, policy_id)) with (rule_of x) in H.
  destruct (Ho (rule_of x)) as (Hl & Hn & Hs). set (l := default [] (sfthd_array o !! rule_of x)) in *.
  pose proof (store_ok c l Hl) as (Hl' & Hn' & Hsub & Hin).
  match type of Hl' with list_ok ?y => set (l' := y) in * end.
  assert (sfthd_array o' = <[rule_of x := l']> (sfthd_array o) /\ (suppresses x -> r = 0)) as [Ea Hr].
  { unfold l'. destruct (list.last l) as [p|]; [|by injection H as <- <-].
    destruct (negb (is_suppress p) && negb (is_suppress c)) eqn:G; injection H as <- <-; [|done].
    split; [done|]. intros Hx. apply andb_true_iff in G as [_ G]. unfold is_suppress, c in G. simpl in G.
    rewrite bool_decide_eq_true_2 in G by done. done. }
  split; [|by auto]. intros k. rewrite Ea. destruct (decide (rule_of x = k)) as [<-|Hk].
  - rewrite lookup_insert_eq. simpl. split_and!; [done| |].
    + intros n Hnin Hty. destruct (Hn' n Hnin) as [Hold| ->].
      * destruct (Hn n Hold Hty) as (y & Hy & ?). exists y. rewrite elem_of_app. auto.
      * exists x. rewrite elem_of_app, list_elem_of_singleton. split_and!; [auto|done|done].
    + intros y Hy Hsy Hry Hk. apply elem_of_app in Hy as [Hy|Hy%list_elem_of_singleton].
      * destruct (Hs y Hy Hsy Hry Hk) as (n & Hnl & ?). exists n. split; [by apply Hsub|done].
      * subst y. exists (local_node c). split; [by apply Hin|]. done.
  - rewrite lookup_insert_ne by done. destruct (Ho k) as (Hlk & Hnk & Hsk). split_and!; [done| |].
    + intros n Hin' Hty. destruct (Hnk n Hin' Hty) as (y & Hy & ?). exists y. rewrite elem_of_app. auto.
    + intros y Hy Hsy Hr' Hky. apply elem_of_app in Hy as [Hy|Hy%list_elem_of_singleton]; [by apply Hsk|by subst].
Qed.

Lemma create_all_ok xs : forall o prev rs o', objs_ok o prev -> create_all o xs = Some (rs, o') ->
  objs_ok o' (prev ++ xs) /\ Forall2 (fun x r => suppresses x -> for_rule x -> r = 0) xs rs.
Proof.
  induction xs as [|x xs IH]; intros o prev rs o' Ho; simpl.
  { intros [= <- <-]. rewrite app_nil_r. by split. }
  destruct (create_one o x) as [[r o1]|] eqn:E; [|done]. destruct (create_all o1 xs) as [[rs' o2]|] eqn:E2; [|done].
  intros [= <- <-]. destruct (create_one_ok o prev x r o1 Ho E) as [Ho1 Hr].
  destruct (IH o1 _ _ _ Ho1 E2) as [Ho2 Hrs]. rewrite <- app_assoc in Ho2. split; [done|by constructor].
Qed.

Lemma new_objs_ok : objs_ok sfthd_objs_new [].
Proof.
  intros k. unfold sfthd_objs_new. simpl. rewrite lookup_empty. simpl. split_and!.
  - exists [], []. repeat split; auto; constructor.
  - intros n Hn. by apply not_elem_of_nil in Hn.
  - intros x Hx. by apply not_elem_of_nil in Hx.
Qed.

(** Testing a list whose suppressions come first. *)
Lemma test_list_suppress t l sip dip time : list_ok l ->
  Forall (fun n => type n = THD_TYPE_SUPPRESS -> thd_count n <> THD_NO_THRESHOLD) l ->
  (exists n, n ∈ l /\ type n = THD_TYPE_SUPPRESS /\ sfthd_test_suppress sfvar_ip_in n (tracked_ip n sip dip) = -1) ->
  test_list sfvar_ip_in hash_local local_size policy_id t l sip dip time = (Some (-1), t).
Proof.
  intros (sups & rest & -> & _ & Hs & Hr) Hc (n & Hn & Hty & Htest).
  apply elem_of_app in Hn as [Hn|Hn]; [|rewrite Forall_forall in Hr; by destruct (Hr n Hn)].
  clear Hr. induction Hs as [|x sups [Hx _] Hs IH]; [by apply not_elem_of_nil in Hn|].
  apply Forall_cons in Hc as [Hcx Hc]. simpl. unfold sfthd_test_local at 1.
  rewrite (proj2 (Z.eqb_neq _ _)) by (by apply Hcx). rewrite Hx.
  destruct (decide (sfthd_test_suppress sfvar_ip_in x (tracked_ip x sip dip) = -1)) as [E|E]; [by rewrite E|].
  assert (sfthd_test_suppress sfvar_ip_in x (tracked_ip x sip dip) = 1) as ->.
  { unfold sfthd_test_suppress in *. repeat case_match; done. }
  apply IH; [done|]. apply elem_of_cons in Hn as [->|]; [congruence|done].
Qed.

(** Whatever filters are configured and in whichever order, every
    suppression for a rule is accepted, and an event of that rule whose tracked
    address is in a configured suppression is answered -1, without touching a
    counter of any filter. *)
Theorem suppression_wins xs rs o thd x sip dip time :
  create_all sfthd_objs_new xs = Some (rs, o) ->
  Forall (fun x => suppresses x -> x_count x <> THD_NO_THRESHOLD) xs ->
  x ∈ xs -> suppresses x -> for_rule x ->
  match x_ip x with
  | None => True
  | Some v => sfvar_ip_in v (match x_tracking x with THD_TRK_SRC => sip | _ => dip end) = true
  end ->
  Forall2 (fun x r => suppresses x -> for_rule x -> r = 0) xs rs /\
  sfthd_test_threshold sfvar_ip_in hash_local hash_global local_size global_size policy_id o thd
    (x_gen_id x) (x_sig_id x) sip dip time = (-1, thd).
Proof.
  intros Hall Hcnt Hx Hsx Hrx Hip. destruct (create_all_ok xs _ [] rs o new_objs_ok Hall) as [Ho Hrs].
  split; [done|]. simpl in Ho. unfold sfthd_test_threshold. destruct Hrx as (Hg0 & Hg & Hs0).
  bcase (x_gen_id x >=? THD_MAX_GENID) as G; [lia|]. change (x_gen_id x, (x_sig_id x, policy_id)) with (rule_of x).
  destruct (Ho (rule_of x)) as (Hl & Hn & Hs). rewrite test_list_suppress; [by destruct thd|done| |].
  - apply Forall_forall. intros n Hin Hty. destruct (Hn n Hin Hty) as (y & Hy & Hsy & _ & _ & _ & ->).
    rewrite Forall_forall in Hcnt. by apply Hcnt.
  - destruct (Hs x Hx Hsx) as (n & Hin & Hty & Htr & Hipn & _); [done|done|].
    exists n. split_and!; [done|done|]. unfold sfthd_test_suppress, tracked_ip. rewrite Hipn, Htr.
    destruct (x_ip x) as [v|]; [|done]. by rewrite Hip.
Qed.
End Config.

(** ** What the configuration does not guard against *)

(** A [both] filter with [count] 1 answers its first event with log and no
    event after that, in however many windows: the event that opens a window is
    never logged, and the next one is past the count. *)
Theorem both_count_one {V} (n : THD_NODE V) t ts :
  type n = THD_TYPE_BOTH -> thd_count n = 1 -> 0 < seconds n -> Zlen ts < 2 ^ 30 ->
  answers n (t :: ts) = 0 :: replicate (length ts) (-2).
Proof.
  intros Hty Hc Hs Hlen. simpl. f_equal.
  { unfold sfthd_test_non_suppress. rewrite Hty, Hc. simpl. rewrite Z.sub_diag. change (u32 0) with 0.
    by rewrite (proj2 (Z.leb_gt _ _)) || (bcase (0 >=? seconds n) as G; [lia|]). }
  assert (forall d, 1 <= ip_count d -> ip_count d + Zlen ts < 2 ^ 31 -> run n d ts = replicate (length ts) (-2)) as H.
  2:{ apply H; simpl; lia. }
  clear Hlen. induction ts as [|x ts IH]; intros d Hd Hlen; simpl; [done|]. rewrite Zlen_cons in Hlen.
  pose proof (Zlen_nonneg ts). unfold next_event, sfthd_test_non_suppress, count_event. rewrite Hty, Hc.
  cbn [ip_count ip_prev ip_tstart ip_tlast]. rewrite (u32_small (ip_count d + 1)), (s32_small (ip_count d + 1)) by (munfold; lia).
  bcase (u32 (x - ip_tstart d) >=? seconds n) as G; [rewrite IH; simpl; [done|lia|lia]|].
  bcase (ip_count d + 1 >=? 1) as G2; [|lia]. bcase (ip_count d + 1 >? 1) as G3; [|lia].
  rewrite IH; simpl; [done|lia|lia].
Qed.

(** A default filter for a generator id that has no entry in the array is
    written outside it. *)
Theorem global_out_of_bounds {V} policy_id (o : ThresholdObjects V) gid track ty prio cnt secs ip :
  THD_MAX_GENID <= gid -> sfthd_garray o !! policy_id = None ->
  sfthd_create_threshold policy_id o gid 0 track ty prio cnt secs ip = None.
Proof.
  intros Hg Ho. unfold sfthd_create_threshold, sfthd_create_threshold_global.
  cbn [objs_count sfthd_array sfthd_garray gen_id Z.eqb]. rewrite Ho, lookup_insert_eq. cbn [default from_option].
  unfold id. rewrite rd_None; [done|].
  rewrite Zlen_replicate. unfold THD_MAX_GENID in *. lia.
Qed.

(** ** Examples *)

(** Object 1 limits, object 2 is a detection filter. *)
Definition demo_obj (id : Z) : THD_NODE (list Z) :=
  if id =? 1 then MkThd 1 1 7 THD_TRK_SRC THD_TYPE_LIMIT 0 2 10 None
  else MkThd id 0 0 THD_TRK_DST THD_TYPE_DETECT 0 1 10 None.
Definition demo_events : list (event (IP := Z)) :=
  [MkEv 1 5 9 100; MkEv 2 5 9 100; MkEv 1 5 9 101; MkEv 1 6 9 102; MkEv 2 6 9 103; MkEv 1 5 9 105; MkEv 1 5 9 110].
Definition demo_hash (k : THD_IP_NODE_KEY Z) : Z := k_ip _ k.


Definition demo_filters : list (THDX_STRUCT (V := list Z)) :=
  [MkThdx 1 7 THD_TYPE_LIMIT THD_TRK_SRC 0 3 60 None; MkThdx 1 7 THD_TYPE_SUPPRESS THD_TRK_DST 0 0 0 (Some [9]);
   MkThdx 1 7 THD_TYPE_THRESHOLD THD_TRK_SRC 0 3 60 None].

Lemma demo_created : exists o, create_all 0 sfthd_objs_new demo_filters = Some ([0; 0; THD_TOO_MANY_THDOBJ], o).
Proof. eexists. vm_compute. reflexivity. Qed.

Lemma suppression_wins_witness :
  exists o, forall lt gt, create_all 0 sfthd_objs_new demo_filters = Some ([0; 0; THD_TOO_MANY_THDOBJ], o) /\
  sfthd_test_threshold (fun v a => bool_decide (a ∈ v)) demo_hash (fun k => g_ip _ k) 60 64 0 o (MkThdStruct lt gt)
    1 7 5 9 100 = (-1, MkThdStruct lt gt).
Proof.
  destruct demo_created as [o Ho]. exists o. intros lt gt. split; [exact Ho|].
  refine (proj2 (suppression_wins (fun v a => bool_decide (a ∈ v)) demo_hash (fun k => g_ip _ k) 60 64 0 demo_filters _ o
    (MkThdStruct lt gt) (MkThdx 1 7 THD_TYPE_SUPPRESS THD_TRK_DST 0 0 0 (Some [9])) 5 9 100 Ho _ _ _ _ _)).
  - repeat constructor; vm_compute; congruence.
  - right. left.
  - reflexivity.
  - vm_compute. intuition congruence.
  - reflexivity.
Defined.

Lemma both_count_one_witness :
  answers (MkThd 1 1 7 THD_TRK_SRC THD_TYPE_BOTH 0 1 10 (@None (list Z))) [100; 101; 120; 140; 141] = [0; -2; -2; -2; -2].
Proof. apply (both_count_one _ 100 [101; 120; 140; 141]); try reflexivity; vm_compute; reflexivity. Defined.

Lemma global_out_of_bounds_witness :
  sfthd_create_threshold 0 (sfthd_objs_new (V := list Z)) 9000 0 THD_TRK_SRC THD_TYPE_LIMIT 0 1 60 None = None.
Proof. apply global_out_of_bounds; [vm_compute; congruence|reflexivity]. Defined.
