(* ===== verification/RateFilter.v ===== *)
(** * RateFilter: replacing the action of a rule that fires too often
    (filters/sfrf.cc, filters/rate_filter.cc)

    A rate filter counts the events of a rule, by address or in total, and
    gives the rule another action while they are too many.  The counters are in
    a hash table of limited memory; a configuration node has a unique id that
    is part of the key of its counters.  The table of configuration nodes
    (a [GHash] per generator) is a finite map. *)

From S2P Require Import Prelude XHash KeyedTable Threshold.

(** ** Data *)

Definition SFRF_MAX_GENID : Z := 8129.
Definition SFRF_NO_REVERT_LIMIT : Z := 1000.
Definition GID_SESSION : Z := 135.
Definition SESSION_EVENT_SETUP : Z := 2.
Definition SESSION_EVENT_CLEAR : Z := 3.
(** [snort::Actions::Type] *)
Definition DROP : Z := 4.
Definition MAX : Z := 7.

Inductive SFRF_TRACK := SFRF_TRACK_BY_SRC | SFRF_TRACK_BY_DST | SFRF_TRACK_BY_RULE | SFRF_TRACK_BY_MAX.
Inductive SFRF_COUNT_OPERATION := SFRF_COUNT_NOP | SFRF_COUNT_RESET | SFRF_COUNT_INCREMENT | SFRF_COUNT_DECREMENT.
Inductive FilterState := FS_NEW | FS_OFF | FS_ON.

(** [policyId], which nothing reads, is left out; [V] is [sfip_var_t]. *)
Record tSFRFConfigNode (V : Type) := MkCfg {
  tid : Z;
  gid : Z;
  sid : Z;
  tracking : SFRF_TRACK;
  cfg_count : Z;
  cfg_seconds : Z;
  newAction : Z;
  timeout : Z;
  applyTo : option V }.
Arguments MkCfg {V}. Arguments tid {V}. Arguments gid {V}. Arguments sid {V}. Arguments tracking {V}. Arguments cfg_count {V}.
Arguments cfg_seconds {V}. Arguments newAction {V}. Arguments timeout {V}. Arguments applyTo {V}.

Record tSFRFTrackingNodeKey (IP : Type) := MkKey { k_policyId : Z; k_tid : Z; k_ip : IP }.
Arguments MkKey {IP}. Arguments k_policyId {IP}. Arguments k_tid {IP}. Arguments k_ip {IP}.
#[export] Instance tracking_key_eq_dec {IP} `{!EqDecision IP} : EqDecision (tSFRFTrackingNodeKey IP).
Proof. solve_decision. Defined.

(** With [SFRF_OVER_RATE], which sfrf.h defines. *)
Record tSFRFTrackingNode := MkTrack {
  filterState : FilterState;
  overRate : bool;
  tlast : Z;
  count : Z;
  tstart : Z;
  revertTime : Z }.

(** Memory from [snort_calloc]. *)
Definition zero_node : tSFRFTrackingNode := MkTrack FS_NEW false 0 0 0 0.

(** ** Testing one node *)

Section Node.
Context {V : Type}.
Implicit Types (cfgNode : tSFRFConfigNode V) (d : tSFRFTrackingNode).

(** 1: a new sampling period is started. *)
Definition _checkSamplingPeriod cfgNode d (curTime : Z) : Z * tSFRFTrackingNode :=
  if negb (cfg_seconds cfgNode =? 0) then
    if u32 (curTime - tstart d) >=? cfg_seconds cfgNode then
      (1, MkTrack (filterState d)
            (if u32 (curTime - tlast d) >? cfg_seconds cfgNode then false else count d >? cfg_count cfgNode)
            curTime 0 curTime (revertTime d))
    else (0, MkTrack (filterState d) (overRate d) curTime (count d) (tstart d) (revertTime d))
  else (0, MkTrack (filterState d) (count d >? cfg_count cfgNode) curTime (count d) (tstart d) (revertTime d)).

Definition set_node_count d (c : Z) : tSFRFTrackingNode :=
  MkTrack (filterState d) (overRate d) (tlast d) c (tstart d) (revertTime d).

Definition count_op cfgNode d (op : SFRF_COUNT_OPERATION) : tSFRFTrackingNode :=
  match op with
  | SFRF_COUNT_INCREMENT => if negb (u32 (count d + 1) =? 0) then set_node_count d (u32 (count d + 1)) else d
  | SFRF_COUNT_DECREMENT =>
      if (cfg_seconds cfgNode =? 0) && negb (count d =? 0) then set_node_count d (u32 (count d - 1)) else d
  | SFRF_COUNT_RESET => set_node_count d 0
  | SFRF_COUNT_NOP => d
  end.

(** The end of [_checkThreshold], when the filter is off. *)
Definition check_start cfgNode d (curTime : Z) : Z * tSFRFTrackingNode :=
  if (count d <=? cfg_count cfgNode) && negb (overRate d) then (-1, d)
  else (MAX + newAction cfgNode, MkTrack FS_ON true (tlast d) (count d) (tstart d) curTime).

(** -1, the new action, or the new action plus [MAX] when it begins. *)
Definition _checkThreshold cfgNode d (curTime : Z) : Z * tSFRFTrackingNode :=
  match filterState d with
  | FS_ON =>
      if negb (timeout cfgNode =? 0) && (u32 (curTime - revertTime d) >=? timeout cfgNode) then
        if (count d >? cfg_count cfgNode) || overRate d then
          (newAction cfgNode, MkTrack FS_ON (overRate d) (tlast d) (count d) (tstart d) curTime)
        else check_start cfgNode (MkTrack FS_OFF (overRate d) (tlast d) (count d) (tstart d) (revertTime d)) curTime
      else (newAction cfgNode, d)
  | _ => check_start cfgNode d curTime
  end.

(** [SFRF_TestObject] on the node it has found. *)
Definition test_node cfgNode d (curTime : Z) (op : SFRF_COUNT_OPERATION) : Z * tSFRFTrackingNode :=
  let d := (_checkSamplingPeriod cfgNode d curTime).2 in
  let d := count_op cfgNode d op in
  let '(retValue, d) := _checkThreshold cfgNode d curTime in
  let d :=
    if (cfg_seconds cfgNode =? 0) && (count d >? cfg_count cfgNode) then
      if newAction cfgNode =? DROP then set_node_count d (u32 (count d - 1)) else d
    else d in
  (retValue, d).

(** First time initialization. *)
Definition init_node d (curTime : Z) : tSFRFTrackingNode :=
  match filterState d with
  | FS_NEW => MkTrack FS_OFF (overRate d) curTime (count d) curTime (revertTime d)
  | _ => d
  end.
End Node.

(** ** Testing an event *)

Section Test.
Context {IP V : Type} `{!EqDecision IP}.
Variable sfvar_ip_in : V -> IP -> bool.
(** The address of [SfIp::clear]. *)
Variable cleared : IP.
Variable hash_fcn : tSFRFTrackingNodeKey IP -> Z.
(** [SFRF_BYTES], and the size of a node of the hash table with its key and data. *)
Variables SFRF_BYTES node_size : Z.
Variable policy_id : Z.
Abbreviation tbl := (XHash (K := tSFRFTrackingNodeKey IP) (D := tSFRFTrackingNode)).

Definition SFRF_New (nbytes : Z) : option tbl :=
  let nbytes := if nbytes <? SFRF_BYTES then SFRF_BYTES else nbytes in
  xhash_new (nbytes / SFRF_BYTES) nbytes true true.

Definition SFRF_Flush (rf_hash : option tbl) : option tbl := xhash_make_empty node_size <$> rf_hash.
(** The memory account of the deleted table. *)
Definition SFRF_Delete (rf_hash : option tbl) : option MEMCAP * option tbl :=
  ((fun t => (xhash_delete node_size t).1) <$> rf_hash, None).

Definition tracking_key (ip : IP) (id : Z) : tSFRFTrackingNodeKey IP := MkKey policy_id id ip.

Definition _getSFRFTrackingNode (t : tbl) (ip : IP) (id curTime : Z) : option nat * tbl :=
  match xhash_get_node hash_fcn key_eqb None node_size t (tracking_key ip id) zero_node with
  | (Some n, t) =>
      match node_data t n with
      | Some d => (Some n, set_data t n (init_node d curTime))
      | None => (None, t)
      end
  | (None, t) => (None, t)
  end.

Definition SFRF_TestObject (t : tbl) (cfgNode : tSFRFConfigNode V) (ip : IP) (curTime : Z) (op : SFRF_COUNT_OPERATION) : Z * tbl :=
  match _getSFRFTrackingNode t ip (tid cfgNode) curTime with
  | (Some n, t) =>
      match node_data t n with
      | Some d => let '(retValue, d) := test_node cfgNode d curTime op in (retValue, set_data t n d)
      | None => (-1, t)
      end
  | (None, t) => (-1, t)
  end.

Definition SFRF_AppliesTo (pCfg : tSFRFConfigNode V) (ip : IP) : bool :=
  match applyTo pCfg with None => true | Some v => sfvar_ip_in v ip end.

(** One round of the loop; [newStatus] keeps its value when the node does not
    apply. *)
Definition test_one (t : tbl) (cfgNode : tSFRFConfigNode V) (sip dip : IP) (curTime : Z) (op : SFRF_COUNT_OPERATION)
    (newStatus : Z) : Z * tbl :=
  match tracking cfgNode with
  | SFRF_TRACK_BY_SRC => if SFRF_AppliesTo cfgNode sip then SFRF_TestObject t cfgNode sip curTime op else (newStatus, t)
  | SFRF_TRACK_BY_DST => if SFRF_AppliesTo cfgNode dip then SFRF_TestObject t cfgNode dip curTime op else (newStatus, t)
  | SFRF_TRACK_BY_RULE => SFRF_TestObject t cfgNode cleared curTime op
  | SFRF_TRACK_BY_MAX => (newStatus, t)
  end.

Fixpoint test_nodes (t : tbl) (l : list (tSFRFConfigNode V)) (sip dip : IP) (curTime : Z) (op : SFRF_COUNT_OPERATION)
    (newStatus status : Z) : Z * tbl :=
  match l with
  | [] => (status, t)
  | cfgNode :: l =>
      let '(newStatus, t) := test_one t cfgNode sip dip curTime op newStatus in
      let status := if (newStatus >=? 0) && (status =? -1) then newStatus else status in
      test_nodes t l sip dip curTime op newStatus status
  end.

(** [genHash] by generator, rule and policy. *)
Record RateFilterConfig := MkConf {
  genHash : gmap (Z * (Z * Z)) (list (tSFRFConfigNode V));
  conf_count : Z;
  noRevertCount : Z;
  conf_memcap : Z;
  internal_event_mask : Z }.

(** The nodes of a rule, tested. *)
Definition test_rule (config : RateFilterConfig) (t : tbl) (g s : Z) (sip dip : IP) (curTime : Z) (op : SFRF_COUNT_OPERATION)
    : Z * tbl :=
  match genHash config !! (g, (s, policy_id)) with
  | None => (-1, t)
  | Some l => test_nodes t l sip dip curTime op (-1) (-1)
  end.

(** The call of [SFRF_TestThreshold] is for another rule than the one that
    leads here, so it has no dependent thresholds itself. *)
Definition _updateDependentThresholds (config : RateFilterConfig) (t : tbl) (g s : Z) (sip dip : IP) (curTime : Z) : tbl :=
  if (g =? GID_SESSION) && (s =? SESSION_EVENT_CLEAR)
  then (test_rule config t g SESSION_EVENT_SETUP sip dip curTime SFRF_COUNT_DECREMENT).2
  else t.

Definition SFRF_TestThreshold (config : RateFilterConfig) (t : tbl) (g s : Z) (sip dip : IP) (curTime : Z)
    (op : SFRF_COUNT_OPERATION) : Z * tbl :=
  if g >=? SFRF_MAX_GENID then (-1, t)
  else
    let t := _updateDependentThresholds config t g s sip dip curTime in
    test_rule config t g s sip dip curTime op.

(** [addrs]: the addresses of an IP packet. *)
Definition RateFilter_Test (config : option RateFilterConfig) (t : tbl) (g s : Z) (addrs : option (IP * IP)) (from_server : bool)
    (tv_sec : Z) : Z * tbl :=
  let '(sip, dip) := default (cleared, cleared) addrs in
  match config with
  | None => (-1, t)
  | Some config =>
      if (g =? GID_SESSION) && from_server then SFRF_TestThreshold config t g s dip sip tv_sec SFRF_COUNT_INCREMENT
      else SFRF_TestThreshold config t g s sip dip tv_sec SFRF_COUNT_INCREMENT
  end.

(** ** Configuration *)

Definition RateFilter_ConfigNew : RateFilterConfig := MkConf ∅ 0 0 (1024 * 1024) 0.

Definition set_tid (c : tSFRFConfigNode V) (id : Z) : tSFRFConfigNode V :=
  MkCfg id (gid c) (sid c) (tracking c) (cfg_count c) (cfg_seconds c) (newAction c) (timeout c) (applyTo c).

(** The end of [SFRF_ConfigAdd].  [None]: the counter of ids overflows. *)
Definition config_store (conf : RateFilterConfig) (cfgNode : tSFRFConfigNode V) : option (Z * RateFilterConfig) :=
  let key := (gid cfgNode, (sid cfgNode, policy_id)) in
  let l := default [] (genHash conf !! key) in
  let n := conf_count conf + 1 in
  if n >=? 2147483648 then None
  else Some (0, MkConf (<[key := l ++ [set_tid cfgNode n]]> (genHash conf)) n (noRevertCount conf) (conf_memcap conf)
                 (internal_event_mask conf)).

Definition SFRF_ConfigAdd (rf_hash : option tbl) (conf : RateFilterConfig) (cfgNode : tSFRFConfigNode V)
    : option (Z * option tbl * RateFilterConfig) :=
  let rf_hash := match rf_hash with None => SFRF_New (conf_memcap conf) | Some t => Some t end in
  match rf_hash with
  | None => Some (-1, rf_hash, conf)
  | Some _ =>
      if (sid cfgNode =? 0) || (gid cfgNode =? 0) then Some (-1, rf_hash, conf)
      else if gid cfgNode >=? SFRF_MAX_GENID then Some (-1, rf_hash, conf)
      else if cfg_count cfgNode <? 1 then Some (-1, rf_hash, conf)
      else if (timeout cfgNode =? 0) && (noRevertCount conf >=? SFRF_NO_REVERT_LIMIT) then Some (-1, rf_hash, conf)
      else
        let conf :=
          if timeout cfgNode =? 0
          then MkConf (genHash conf) (conf_count conf) (noRevertCount conf + 1) (conf_memcap conf) (internal_event_mask conf)
          else conf in
        '(r, conf) ← config_store conf cfgNode; Some (r, rf_hash, conf)
  end.

Definition enable_internal_event (conf : RateFilterConfig) (s : Z) : RateFilterConfig :=
  MkConf (genHash conf) (conf_count conf) (noRevertCount conf) (conf_memcap conf)
    (s32 (Z.lor (internal_event_mask conf) (Z.shiftl 1 s))).
Definition is_internal_event_enabled (conf : option RateFilterConfig) (s : Z) : bool :=
  match conf with None => false | Some c => truth (Z.land (internal_event_mask c) (Z.shiftl 1 s)) end.

Definition RateFilter_Create (rf_hash : option tbl) (conf : RateFilterConfig) (thdx : tSFRFConfigNode V)
    : option (Z * option tbl * RateFilterConfig) :=
  '(error, rf_hash, conf) ← SFRF_ConfigAdd rf_hash conf thdx;
  if (error =? 0) && (gid thdx =? GID_SESSION) then
    let conf := enable_internal_event conf (sid thdx) in
    Some (error, rf_hash,
      if sid thdx =? SESSION_EVENT_SETUP then enable_internal_event conf SESSION_EVENT_CLEAR else conf)
  else Some (error, rf_hash, conf).

(** Filters, one after the other; the answers. *)
Fixpoint create_filters (rf_hash : option tbl) (conf : RateFilterConfig) (xs : list (tSFRFConfigNode V))
    : option (list Z * option tbl * RateFilterConfig) :=
  match xs with
  | [] => Some ([], rf_hash, conf)
  | x :: xs =>
      '(r, rf_hash, conf) ← RateFilter_Create rf_hash conf x;
      '(rs, rf_hash, conf) ← create_filters rf_hash conf xs;
      Some (r :: rs, rf_hash, conf)
  end.
End Test.
Arguments RateFilterConfig V : clear implicits.

(** ** What one node answers *)

Section Spec.
Context {V : Type}.
Variable cfgNode : tSFRFConfigNode V.

(** An event on the node of a key; [None]: the key is new. *)
Definition rate_step (o : option tSFRFTrackingNode) (curTime : Z) : Z * tSFRFTrackingNode :=
  test_node cfgNode (init_node (default zero_node o) curTime) curTime SFRF_COUNT_INCREMENT.

(** The detection filter with the same count and seconds: an event that it lets
    pass exceeds the rate. *)
Definition same_filter : THD_NODE V :=
  sfthd_create_rule_threshold 0 THD_TRK_NONE THD_TYPE_DETECT (cfg_count cfgNode) (cfg_seconds cfgNode).
Definition exceeds (ts : list Z) : list bool := (fun r => r =? 0) <$> specified same_filter ts.

(** The new action begins with an event that exceeds the rate and lasts for
    [timeout] seconds; then it goes on if that event exceeds the rate, too.
    [on]: the time the action was last decided. *)
Fixpoint limited (on : option Z) (evs : list (Z * bool)) : list Z :=
  match evs with
  | [] => []
  | (t, exceeded) :: evs =>
      match on with
      | Some since =>
          if negb (timeout cfgNode =? 0) && (t - since >=? timeout cfgNode) then
            if exceeded then newAction cfgNode :: limited (Some t) evs else -1 :: limited None evs
          else newAction cfgNode :: limited on evs
      | None => if exceeded then MAX + newAction cfgNode :: limited (Some t) evs else -1 :: limited None evs
      end
  end.
Definition rate_limited (ts : list Z) : list Z := limited None (zip ts (exceeds ts)).

Hypothesis Hsec : 0 < cfg_seconds cfgNode.
Hypothesis Hcount : 0 <= cfg_count cfgNode.
Hypothesis Htimeout : 0 <= timeout cfgNode.

(** The node beside the counter of the detection filter. *)
Record related (d : tSFRFTrackingNode) (f : THD_IP_NODE) (on : option Z) : Prop := {
  rel_count : count d = ip_count f;
  rel_start : tstart d = ip_tstart f;
  rel_last : tlast d = ip_tlast f;
  rel_over : overRate d = true -> count d > cfg_count cfgNode \/ s32 (ip_prev f) > cfg_count cfgNode;
  rel_prev : s32 (ip_prev f) > cfg_count cfgNode -> overRate d = true;
  rel_state : match on with
    | Some since => filterState d = FS_ON /\ revertTime d = since
    | None => filterState d = FS_OFF
    end }.

(** One event, after the sampling period was checked and the event counted. *)
Definition react (on : option Z) (t : Z) (exceeded : bool) : Z * option Z :=
  match on with
  | Some since =>
      if negb (timeout cfgNode =? 0) && (t - since >=? timeout cfgNode) then
        if exceeded then (newAction cfgNode, Some t) else (-1, None)
      else (newAction cfgNode, on)
  | None => if exceeded then (MAX + newAction cfgNode, Some t) else (-1, None)
  end.

Lemma limited_cons on t e evs : limited on ((t, e) :: evs) = (react on t e).1 :: limited (react on t e).2 evs.
Proof. unfold react. cbn [limited]. destruct on; repeat case_match; done. Qed.

Lemma check_react d f on t :
  related d f on -> (match on with Some since => since <= t < since + 2 ^ 32 | None => True end) ->
  let e := (count d >? cfg_count cfgNode) || (s32 (ip_prev f) >? cfg_count cfgNode) in
  let '(r, d') := _checkThreshold cfgNode d t in
  r = (react on t e).1 /\ related d' f (react on t e).2.
Proof.
  intros [Rc Rs Rl Ro Rp Rst] Ht e.
  assert ((count d >? cfg_count cfgNode) || overRate d = e) as He.
  { unfold e. destruct (overRate d); rewrite ?orb_true_r, ?orb_false_r.
    - symmetry. apply orb_true_iff. rewrite !Z.gtb_lt. specialize (Ro eq_refl). lia.
    - destruct (s32 (ip_prev f) >? cfg_count cfgNode) eqn:G; [|by rewrite orb_false_r].
      apply Z.gtb_lt in G. assert (false = true) by (apply Rp; lia). done. }
  assert ((count d <=? cfg_count cfgNode) && negb (overRate d) = negb e) as Hn.
  { rewrite <- He, negb_orb. f_equal. rewrite Z.gtb_ltb. apply Z.leb_antisym. }
  assert (e = true -> count d > cfg_count cfgNode \/ s32 (ip_prev f) > cfg_count cfgNode) as He'.
  { unfold e. intros [?|?]%orb_true_iff; breflect; lia. }
  clearbody e. unfold _checkThreshold, check_start, react. destruct on as [since|].
  - destruct Rst as [E1 E2]. rewrite E1, E2, u32_small by (munfold; lia). destruct (negb (timeout cfgNode =? 0) && (t - since >=? timeout cfgNode)).
    + cbn [count overRate]. rewrite He, Hn. destruct e; (split; [done|]); split; cbn; done.
    + split; [done|]. by split; cbn.
  - rewrite Rst, Hn. destruct e; (split; [done|]); split; cbn; done.
Qed.

(** The counter of the detection filter after an event is counted. *)
Definition counted (f : THD_IP_NODE) (t : Z) : THD_IP_NODE :=
  if t - ip_tstart f >=? cfg_seconds cfgNode
  then MkIpNode 1 (if t - ip_tlast f >? cfg_seconds cfgNode then 0 else ip_count f) t t
  else MkIpNode (ip_count f + 1) (ip_prev f) (ip_tstart f) t.

Definition in_range (f : THD_IP_NODE) (t : Z) : Prop :=
  0 <= ip_count f < 2 ^ 31 - 1 /\ ip_tstart f <= ip_tlast f <= t /\ t - ip_tstart f < 2 ^ 32.

Lemma next_event_counted f t : in_range f t ->
  next_event same_filter f t =
  (if (ip_count (counted f t) >? cfg_count cfgNode) || (s32 (ip_prev (counted f t)) >? cfg_count cfgNode) then 0 else -2, counted f t).
Proof.
  intros (Hc & Hl & Ht). unfold next_event, sfthd_test_non_suppress, same_filter, sfthd_create_rule_threshold, count_event, counted.
  cbn [type seconds thd_count ip_count ip_prev ip_tstart ip_tlast].
  rewrite (u32_small (t - ip_tstart f)), (u32_small (t - ip_tlast f)), (u32_small (ip_count f + 1)) by (munfold; lia).
  replace (ip_count f + 1 - 1) with (ip_count f) by lia. rewrite (u32_small (ip_count f)) by (munfold; lia).
  destruct (t - ip_tstart f >=? cfg_seconds cfgNode); cbn [ip_count ip_prev ip_tstart ip_tlast].
  - change (s32 1) with 1. by destruct (_ || _).
  - rewrite (s32_small (ip_count f + 1)) by (munfold; lia). by destruct (_ || _).
Qed.

Lemma count_related d f on t : related d f on -> in_range f t ->
  related (count_op cfgNode (_checkSamplingPeriod cfgNode d t).2 SFRF_COUNT_INCREMENT) (counted f t) on.
Proof.
  intros [Rc Rs Rl Ro Rp Rst] (Hc & Hl & Ht). unfold _checkSamplingPeriod, counted.
  rewrite (proj2 (Z.eqb_neq (cfg_seconds cfgNode) 0)) by lia. rewrite Rs, Rl, Rc, !u32_small by (munfold; lia). cbn [negb].
  destruct (t - ip_tstart f >=? cfg_seconds cfgNode); unfold count_op, set_node_count; cbn [snd count].
  - change (u32 (0 + 1)) with 1. cbn. split; cbn; try done.
    + intros H. right. destruct (t - ip_tlast f >? cfg_seconds cfgNode); [done|]. apply Z.gtb_lt in H. rewrite s32_small by (munfold; lia). lia.
    + intros H. destruct (t - ip_tlast f >? cfg_seconds cfgNode); [change (s32 0) with 0 in H; lia|].
      rewrite s32_small in H by (munfold; lia). apply Z.gtb_lt. lia.
  - rewrite u32_small by (munfold; lia). rewrite (proj2 (Z.eqb_neq (ip_count f + 1) 0)) by lia. cbn. split; cbn; try done.
    intros H. apply Ro in H. lia.
Qed.

Lemma node_event d f on t :
  related d f on -> in_range f t ->
  (match on with Some since => since <= t < since + 2 ^ 32 | None => True end) ->
  let '(r, d') := rate_step (Some d) t in
  let '(p, f') := next_event same_filter f t in
  r = (react on t (p =? 0)).1 /\ related d' f' (react on t (p =? 0)).2.
Proof.
  intros R Hr Hon. rewrite next_event_counted by done. unfold rate_step, test_node. change (default zero_node (Some d)) with d.
  replace (init_node d t) with d
    by (pose proof (rel_state _ _ _ R) as Rst; unfold init_node; destruct on as [?|]; [by destruct Rst as [-> _]|by rewrite Rst]).
  rewrite (proj2 (Z.eqb_neq (cfg_seconds cfgNode) 0)) by lia. cbn [andb].
  pose proof (count_related d f on t R Hr) as R1. pose proof (check_react _ _ on t R1 Hon) as H.
  rewrite (rel_count _ _ _ R1) in H. destruct (_checkThreshold _ _ t) as [r d'].
  destruct ((ip_count (counted f t) >? cfg_count cfgNode) || (s32 (ip_prev (counted f t)) >? cfg_count cfgNode)); exact H.
Qed.
(** A run of events on both. *)
Lemma events_limited ts : forall d f on s lo,
  related d f on -> ip_tstart f <= ip_tlast f <= lo -> s <= ip_tstart f -> 0 <= ip_count f -> ip_count f + Zlen ts < 2 ^ 31 ->
  (match on with Some since => s <= since <= lo | None => True end) -> times_ok s lo ts ->
  forall k, (foldl (fun '(o, rs) t => let '(r, d) := rate_step o t in (Some d, rs ++ [r])) (Some d, k) ts).2 =
    k ++ limited on (zip ts ((fun r => r =? 0) <$> run same_filter f ts)).
Proof.
  induction ts as [|t ts IH]; intros d f on s lo R Hl Hs Hc Hlen Hon Hts k; [by rewrite app_nil_r|].
  destruct Hts as (Ht & Hr & Hts). rewrite Zlen_cons in Hlen. pose proof (Zlen_nonneg ts).
  assert (in_range f t) as Hir by (split_and!; lia).
  assert (match on with Some since => since <= t < since + 2 ^ 32 | None => True end) as Hon' by (destruct on; [lia|done]).
  pose proof (node_event d f on t R Hir Hon') as H1. cbn [foldl run]. rewrite next_event_counted in * by done.
  destruct (rate_step (Some d) t) as [r d']. destruct H1 as [-> R1]. cbn [fmap list_fmap zip zip_with].
  rewrite limited_cons. rewrite (IH d' _ _ s t R1); [by rewrite <- app_assoc|..]; try done;
    try (unfold counted; destruct (t - ip_tstart f >=? cfg_seconds cfgNode); cbn; lia).
  unfold react. destruct on; repeat case_match; simplify_eq/=; done || lia.
Qed.

Lemma rate_answers ts : Zlen ts < 2 ^ 31 -> times_fit ts ->
  run_key (fun _ : unit => rate_step) () ts = rate_limited ts.
Proof.
  intros Hlen Hts. destruct ts as [|t ts]; [done|]. rewrite Zlen_cons in Hlen. cbn [times_fit] in Hts.
  unfold rate_limited, exceeds. rewrite <- answers_specified; [|cbn; lia|cbn; lia|done|done|rewrite Zlen_cons; lia|done].
  set (f0 := MkIpNode 0 0 t t). set (d0 := MkTrack FS_OFF false t 0 t 0).
  assert (in_range f0 t) as Hr by (split_and!; cbn; lia).
  assert (answers same_filter (t :: ts) = run same_filter f0 (t :: ts)) as ->.
  { cbn [answers run]. rewrite next_event_counted by done.
    assert (counted f0 t = new_data t) as E by (unfold counted; cbn; rewrite Z.sub_diag; bcase (0 >=? cfg_seconds cfgNode) as G; [lia|done]).
    pose proof (next_event_counted f0 t Hr) as H. unfold next_event in H. change (count_event f0) with (new_data t) in H.
    rewrite H, E. done. }
  change (run_key _ () (t :: ts)) with
    (foldl (fun '(o, rs) t => let '(r, d) := rate_step o t in (Some d, rs ++ [r])) (Some d0, []) (t :: ts)).2.
  assert (Zlen (t :: ts) < 2 ^ 31) as Hlen' by (rewrite Zlen_cons; lia).
  rewrite (events_limited (t :: ts) d0 f0 None t t); [done|by split; cbn|cbn; lia|cbn; lia|cbn; lia|cbn; lia|done|].
  split_and!; [lia|lia|done].
Qed.
End Spec.

(** ** The nodes of the table *)

Section Trace.
Context {IP V : Type} `{!EqDecision IP}.
Variable hash_fcn : tSFRFTrackingNodeKey IP -> Z.
Variables SFRF_BYTES node_size : Z.
Abbreviation tbl := (XHash (K := tSFRFTrackingNodeKey IP) (D := tSFRFTrackingNode)).
(** The configuration node with an id. *)
Variable node_of : Z -> tSFRFConfigNode V.
Hypothesis node_of_tid : forall i, tid (node_of i) = i.

Definition key_step (k : tSFRFTrackingNodeKey IP) : option tSFRFTrackingNode -> Z -> Z * tSFRFTrackingNode :=
  rate_step (node_of (k_tid k)).
Definition key_access (t : tbl) (k : tSFRFTrackingNodeKey IP) (time : Z) : Z * tbl :=
  SFRF_TestObject hash_fcn node_size (k_policyId k) t (node_of (k_tid k)) (k_ip k) time SFRF_COUNT_INCREMENT.

Lemma set_data_twice (t : tbl) x d d' nd : nodes t !! x = Some nd -> set_data (set_data t x d) x d' = set_data t x d'.
Proof. intros Hx. unfold set_data. rewrite Hx. cbn [nodes set_count]. rewrite lookup_insert_eq. unfold set_count. cbn. by rewrite insert_insert_eq. Qed.
Lemma node_data_set (t : tbl) x d nd : nodes t !! x = Some nd -> node_data (set_data t x d) x = Some d.
Proof. intros Hx. unfold set_data, node_data. rewrite Hx. cbn [nodes set_count]. by rewrite lookup_insert_eq. Qed.

(** The node is found or made, initialized and tested. *)
Lemma test_found (t : tbl) pol (c : tSFRFConfigNode V) ip time t1 x d :
  xhash_get_node hash_fcn key_eqb None node_size t (tracking_key pol ip (tid c)) zero_node = (Some x, t1) ->
  node_data t1 x = Some d ->
  SFRF_TestObject hash_fcn node_size pol t c ip time SFRF_COUNT_INCREMENT =
    let '(r, d') := test_node c (init_node d time) time SFRF_COUNT_INCREMENT in (r, set_data t1 x d').
Proof.
  intros Hget Hd. unfold SFRF_TestObject, _getSFRFTrackingNode. rewrite Hget, Hd. unfold node_data in Hd.
  destruct (nodes t1 !! x) as [nd|] eqn:Hx; [|done]. rewrite (node_data_set t1 x _ nd Hx).
  destruct (test_node c _ _ _) as [r d']. by rewrite (set_data_twice t1 x _ d' nd Hx).
Qed.

Lemma key_accesses : accesses hash_fcn node_size key_step key_access.
Proof.
  intros t k time m Iw Hs Hr Hm. unfold key_access, key_step.
  assert (tracking_key (k_policyId k) (k_ip k) (tid (node_of (k_tid k))) = k) as Hkey
    by (unfold tracking_key; rewrite node_of_tid; by destruct k).
  destruct (decide (k ∈ (XHash.abs t).*1)) as [Hk|Hk].
  - destruct (find_old hash_fcn node_size t k m Iw Hs Hr Hk) as (x & t1 & d & l1 & l2 & E & Ha & Hd & Hset).
    rewrite (test_found t _ _ _ _ (set_cur t1 (crow t1) (Some x) (gnode t1)) x d);
      [|rewrite Hkey; unfold xhash_get_node; by rewrite E|done].
    change (rate_step (node_of (k_tid k)) (Some d) time)
      with (test_node (node_of (k_tid k)) (init_node d time) time SFRF_COUNT_INCREMENT).
    destruct (test_node (node_of (k_tid k)) (init_node d time) time _) as [r d'] eqn:Ht. rewrite set_data_cur.
    destruct (Hset d') as (? & ? & ? & ?). split_and!; [done|done|]. right. exists d, l1, l2.
    change (rate_step (node_of (k_tid k)) (Some d) time)
      with (test_node (node_of (k_tid k)) (init_node d time) time SFRF_COUNT_INCREMENT).
    rewrite Ht. split_and!; [done|done|done|by apply room_cur].
  - destruct Hm as [Hm|]; [|done].
    destruct (find_new hash_fcn node_size t k m Iw Hs Hr Hm Hk) as (t1 & x & t2 & E1 & E2 & Hnone & Hl).
    destruct (Hl zero_node) as (_ & _ & _ & _ & Hd & Hset).
    rewrite (test_found t _ _ _ _ (link_new t2 (XHash.index hash_fcn t k) x k zero_node) x zero_node);
      [|rewrite Hkey; unfold xhash_get_node; by rewrite E1, E2, Hnone|done].
    change (rate_step (node_of (k_tid k)) None time)
      with (test_node (node_of (k_tid k)) (init_node zero_node time) time SFRF_COUNT_INCREMENT).
    destruct (test_node (node_of (k_tid k)) (init_node zero_node time) time _) as [r d'].
    destruct (Hset d') as (? & ? & ? & ?). split_and!; [done|done|]. by left.
Qed.
End Trace.

(** ** Rate filters, specified: only the times of the events are remembered *)

Section Refinement.
Context {IP V : Type} `{!EqDecision IP}.
Variable sfvar_ip_in : V -> IP -> bool.
Variable cleared : IP.
Variable hash_fcn : tSFRFTrackingNodeKey IP -> Z.
Variables SFRF_BYTES node_size : Z.
Variable policy_id : Z.
Abbreviation tbl := (XHash (K := tSFRFTrackingNodeKey IP) (D := tSFRFTrackingNode)).
Abbreviation hits := (tSFRFTrackingNodeKey IP -> list Z).

Record rf_event := MkRfEvent { e_gid : Z; e_sid : Z; e_sip : IP; e_dip : IP; e_time : Z }.

(** What a node counts an event under, if it counts it. *)
Definition counted_ip (n : tSFRFConfigNode V) (e : rf_event) : option IP :=
  match tracking n with
  | SFRF_TRACK_BY_SRC => if SFRF_AppliesTo sfvar_ip_in n (e_sip e) then Some (e_sip e) else None
  | SFRF_TRACK_BY_DST => if SFRF_AppliesTo sfvar_ip_in n (e_dip e) then Some (e_dip e) else None
  | SFRF_TRACK_BY_RULE => Some cleared
  | SFRF_TRACK_BY_MAX => None
  end.

(** The answers of the nodes that count the event, in order. *)
Fixpoint spec_nodes (h : hits) (l : list (tSFRFConfigNode V)) (e : rf_event) : list Z * hits :=
  match l with
  | [] => ([], h)
  | n :: l =>
      match counted_ip n e with
      | None => spec_nodes h l e
      | Some ip =>
          let k := MkKey policy_id (tid n) ip in
          let h := push h k (e_time e) in
          let r := default (-1) (list.last (rate_limited n (h k))) in
          let '(rs, h) := spec_nodes h l e in (r :: rs, h)
      end
  end.

(** The first node that limits the rule decides. *)
Definition first_limit (rs : list Z) : Z := default (-1) (head (filter (fun r => 0 <= r) rs)).

Definition rule_nodes (config : RateFilterConfig V) (e : rf_event) : list (tSFRFConfigNode V) :=
  default [] (genHash config !! (e_gid e, (e_sid e, policy_id))).

Fixpoint spec_events (config : RateFilterConfig V) (h : hits) (evs : list rf_event) : list Z * hits :=
  match evs with
  | [] => ([], h)
  | e :: evs =>
      let '(rs, h) := spec_nodes h (rule_nodes config e) e in
      let '(answers, h) := spec_events config h evs in (first_limit rs :: answers, h)
  end.

Fixpoint test_events (config : RateFilterConfig V) (t : tbl) (evs : list rf_event) : list Z * tbl :=
  match evs with
  | [] => ([], t)
  | e :: evs =>
      let '(r, t) := SFRF_TestThreshold sfvar_ip_in cleared hash_fcn node_size policy_id config t (e_gid e) (e_sid e)
                       (e_sip e) (e_dip e) (e_time e) SFRF_COUNT_INCREMENT in
      let '(rs, t) := test_events config t evs in (r :: rs, t)
  end.

(** *** The table follows the specification *)

Variable node_of : Z -> tSFRFConfigNode V.
Hypothesis node_of_tid : forall i, tid (node_of i) = i.
(** A node that measures a rate. *)
Definition measures (n : tSFRFConfigNode V) : Prop := 0 < cfg_seconds n /\ 0 <= cfg_count n /\ 0 <= timeout n.
Definition known (n : tSFRFConfigNode V) : Prop := node_of (tid n) = n /\ measures n.

(** The remembered times, since [s] and until [lo], in order. *)
Definition ordered (s lo : Z) (h : hits) : Prop := forall k, times_fit (h k) /\ Forall (fun x => s <= x <= lo) (h k).

Lemma times_ok_snoc s lo l t : times_ok s lo l -> Forall (fun x => x <= t) (lo :: l) -> t - s < 2 ^ 32 -> times_ok s lo (l ++ [t]).
Proof.
  revert lo; induction l as [|x l IH]; intros lo H Hf Ht; apply Forall_cons in Hf as [Hlo Hf]; simpl in *; [done|].
  destruct H as (? & ? & ?). split_and!; [done|done|]. by apply IH.
Qed.

Lemma ordered_push s lo h k t : ordered s lo h -> lo <= t -> s <= t -> t - s < 2 ^ 32 -> ordered s t (push h k t).
Proof.
  intros H Hlo Hst Ht k'. unfold push. destruct (decide (k' = k)) as [->|].
  - destruct (H k) as [Hfit Hin]. split.
    + destruct (h k) as [|x l]; [done|]. apply Forall_cons in Hin as [Hx Hin]. simpl in *. apply times_ok_snoc; [done| |lia].
      constructor; [lia|]. eapply Forall_impl; [done|]. simpl. lia.
    + apply Forall_app. split; [eapply Forall_impl; [done|]; simpl; lia|]. by repeat constructor.
  - destruct (H k') as [Hfit Hin]. split; [done|]. eapply Forall_impl; [done|]. simpl. lia.
Qed.

Lemma spec_nodes_grows l e : forall h k, Zlen (h k) <= Zlen ((spec_nodes h l e).2 k).
Proof.
  induction l as [|n l IH]; intros h k; simpl; [done|]. destruct (counted_ip n e) as [ip|]; [|apply IH].
  specialize (IH (push h (MkKey policy_id (tid n) ip) (e_time e)) k).
  destruct (spec_nodes _ l e) as [rs h']. simpl in *. etrans; [|exact IH]. unfold push. case_decide; [subst|done].
  rewrite Zlen_app. pose proof (Zlen_nonneg [e_time e]). lia.
Qed.

Lemma spec_events_grows config evs : forall h k, Zlen (h k) <= Zlen ((spec_events config h evs).2 k).
Proof.
  induction evs as [|e evs IH]; intros h k; simpl; [done|]. pose proof (spec_nodes_grows (rule_nodes config e) e h k) as H.
  destruct (spec_nodes h _ e) as [rs h1]. specialize (IH h1 k). destruct (spec_events config h1 evs) as [a h2]. simpl in *. lia.
Qed.

Lemma spec_nodes_length l e : forall h k, Zlen ((spec_nodes h l e).2 k) <= Zlen (h k) + Zlen l.
Proof.
  induction l as [|n l IH]; intros h k; cbn [spec_nodes snd]; [rewrite Zlen_nil; lia|]. rewrite Zlen_cons.
  destruct (counted_ip n e) as [ip|]; [|specialize (IH h k); lia].
  specialize (IH (push h (MkKey policy_id (tid n) ip) (e_time e)) k). destruct (spec_nodes _ l e) as [rs h']. cbn [snd] in *.
  unfold push in IH. case_decide; [subst; rewrite Zlen_app, Zlen_cons, Zlen_nil in IH|]; lia.
Qed.

Lemma spec_events_length config evs : forall h k,
  Zlen ((spec_events config h evs).2 k) <= Zlen (h k) + foldr (fun e a => Zlen (rule_nodes config e) + a) 0 evs.
Proof.
  induction evs as [|e evs IH]; intros h k; cbn [spec_events snd foldr]; [lia|].
  pose proof (spec_nodes_length (rule_nodes config e) e h k). destruct (spec_nodes h (rule_nodes config e) e) as [rs h1].
  specialize (IH h1 k). destruct (spec_events config h1 evs) as [a h2]. cbn [snd] in *. lia.
Qed.

Abbreviation following := (tracks hash_fcn node_size (key_step node_of)).

Lemma object_sim ks h t n ip time s lo :
  known n -> following ks h t -> ordered s lo h -> MkKey policy_id (tid n) ip ∈ ks ->
  lo <= time -> s <= time -> time - s < 2 ^ 32 ->
  let h' := push h (MkKey policy_id (tid n) ip) time in
  Zlen (h' (MkKey policy_id (tid n) ip)) < 2 ^ 31 ->
  let '(r, t') := SFRF_TestObject hash_fcn node_size policy_id t n ip time SFRF_COUNT_INCREMENT in
  r = default (-1) (list.last (rate_limited n (h' (MkKey policy_id (tid n) ip)))) /\ following ks h' t'.
Proof.
  intros [Hn (Hsec & Hcnt & Hto)] T Ho Hk Hlo Hst Ht h' Hlen. set (k := MkKey policy_id (tid n) ip) in *.
  assert (SFRF_TestObject hash_fcn node_size policy_id t n ip time SFRF_COUNT_INCREMENT = key_access hash_fcn node_size node_of t k time) as ->
    by (unfold key_access; cbn; by rewrite Hn).
  pose proof (tracks_step hash_fcn node_size _ _ (key_accesses hash_fcn node_size node_of node_of_tid) ks h t k time T Hk) as H.
  destruct (key_access _ _ _ t k time) as [r t']. destruct H as [T' ->]. split; [|done].
  destruct (ordered_push s lo h k time Ho Hlo Hst Ht k) as [Hfit _]. fold h' in Hfit.
  rewrite <- (rate_answers n) by done. unfold h', push. rewrite decide_True by done.
  change (run_key (fun _ : () => rate_step n) () (h k ++ [time])) with (run_key (fun _ : tSFRFTrackingNodeKey IP => rate_step n) k (h k ++ [time])).
  rewrite run_key_snoc, last_snoc. unfold state_of, key_step. change (k_tid k) with (tid n). rewrite Hn. done.
Qed.

Lemma first_limit_cons r rs : first_limit (r :: rs) = if 0 <=? r then r else first_limit rs.
Proof. unfold first_limit. rewrite filter_cons. bcase (0 <=? r) as G; [by rewrite decide_True|by rewrite decide_False by lia]. Qed.

Lemma nodes_sim ks l e s : forall h t lo newStatus status,
  Forall known l -> following ks h t -> ordered s lo h ->
  Forall (fun n => forall ip, counted_ip n e = Some ip -> MkKey policy_id (tid n) ip ∈ ks) l ->
  lo <= e_time e -> s <= e_time e -> e_time e - s < 2 ^ 32 -> (forall k, Zlen ((spec_nodes h l e).2 k) < 2 ^ 31) ->
  (newStatus < 0 \/ status <> -1) ->
  let '(rs, h') := spec_nodes h l e in
  let '(r, t') := test_nodes sfvar_ip_in cleared hash_fcn node_size policy_id t l (e_sip e) (e_dip e) (e_time e) SFRF_COUNT_INCREMENT newStatus status in
  r = (if status =? -1 then first_limit rs else status) /\ following ks h' t' /\ exists lo', lo' <= e_time e /\ ordered s lo' h'.
Proof.
  induction l as [|n l IH]; intros h t lo ns st Hkn T Ho Hks Hlo Hst Ht Hlen Hns; cbn [spec_nodes test_nodes].
  { split_and!; [by case_match; breflect|done|by exists lo]. }
  apply Forall_cons in Hkn as [Hn Hkn], Hks as [Hk Hks]. unfold test_one.
  assert (forall ip, counted_ip n e = Some ip ->
    let '(rs, h') := spec_nodes h (n :: l) e in
    let '(r, t') := let '(ns, t) := SFRF_TestObject hash_fcn node_size policy_id t n ip (e_time e) SFRF_COUNT_INCREMENT in
      test_nodes sfvar_ip_in cleared hash_fcn node_size policy_id t l (e_sip e) (e_dip e) (e_time e) SFRF_COUNT_INCREMENT ns
        (if (ns >=? 0) && (st =? -1) then ns else st) in
    r = (if st =? -1 then first_limit rs else st) /\ following ks h' t' /\ exists lo', lo' <= e_time e /\ ordered s lo' h') as Hyes.
  { intros ip Hip. cbn [spec_nodes] in *. rewrite Hip in *. set (k := MkKey policy_id (tid n) ip) in *.
    pose proof (spec_nodes_grows l e (push h k (e_time e)) k) as Hg.
    assert (Zlen (push h k (e_time e) k) < 2 ^ 31) as Hl1 by (specialize (Hlen k); destruct (spec_nodes _ l e); simpl in *; lia).
    pose proof (object_sim ks h t n ip (e_time e) s lo Hn T Ho (Hk ip eq_refl) Hlo Hst Ht Hl1) as H. fold k in H.
    destruct (SFRF_TestObject _ _ _ t n ip _ _) as [r t1]. destruct H as [<- T1].
    pose proof (ordered_push s lo h k (e_time e) Ho Hlo Hst Ht) as Ho1.
    specialize (IH (push h k (e_time e)) t1 (e_time e) r (if (r >=? 0) && (st =? -1) then r else st) Hkn T1 Ho1 Hks ltac:(lia) Hst Ht).
    destruct (spec_nodes (push h k (e_time e)) l e) as [rs h']. specialize (IH ltac:(done)).
    destruct (test_nodes _ _ _ _ _ t1 l _ _ _ _ _ _) as [r' t']. rewrite first_limit_cons.
    destruct IH as (-> & T' & Ho'); [bcases; breflect; lia|]. split_and!; [|done|done].
    rewrite Z.geb_leb. destruct (Z.leb_spec 0 r), (Z.eqb_spec st (-1)) as [->|]; cbn [andb]; try done;
      rewrite ?(proj2 (Z.eqb_neq _ _)) by lia; done. }
  unfold counted_ip in Hyes. cbn [spec_nodes] in *. unfold counted_ip in *.
  destruct (tracking n).
  - destruct (SFRF_AppliesTo sfvar_ip_in n (e_sip e)); [by apply Hyes|].
    rewrite (proj2 (andb_false_iff _ _)) by (destruct Hns; [left; bcases; lia|right; by apply Z.eqb_neq]). by apply (IH h t lo).
  - destruct (SFRF_AppliesTo sfvar_ip_in n (e_dip e)); [by apply Hyes|].
    rewrite (proj2 (andb_false_iff _ _)) by (destruct Hns; [left; bcases; lia|right; by apply Z.eqb_neq]). by apply (IH h t lo).
  - by apply Hyes.
  - rewrite (proj2 (andb_false_iff _ _)) by (destruct Hns; [left; bcases; lia|right; by apply Z.eqb_neq]). by apply (IH h t lo).
Qed.

(** *** Configurations *)

Record conf_ok (xs : list (tSFRFConfigNode V)) (conf : RateFilterConfig V) : Prop := {
  ck_count : 0 <= conf_count conf;
  ck_gid key l : genHash conf !! key = Some l -> key.1 < SFRF_MAX_GENID;
  ck_node key l n : genHash conf !! key = Some l -> n ∈ l -> (exists x, x ∈ xs /\ n = set_tid x (tid n)) /\ 1 <= tid n <= conf_count conf;
  ck_unique key key' l l' n n' : genHash conf !! key = Some l -> genHash conf !! key' = Some l' -> n ∈ l -> n' ∈ l' -> tid n = tid n' -> n = n' }.

Lemma conf_ok_weaken xs x conf conf' :
  conf_ok xs conf -> genHash conf' = genHash conf -> conf_count conf' = conf_count conf -> conf_ok (xs ++ [x]) conf'.
Proof.
  intros [H1 H2 H3 H4] Eg Ec. split; rewrite ?Eg, ?Ec; try done.
  intros key l n Hl Hn. destruct (H3 key l n Hl Hn) as [(y & Hy & ?) ?]. split; [|done]. exists y. rewrite elem_of_app. auto.
Qed.

Lemma conf_ok_store xs x conf r conf' : gid x < SFRF_MAX_GENID ->
  conf_ok xs conf -> config_store policy_id conf x = Some (r, conf') -> conf_ok (xs ++ [x]) conf'.
Proof.
  intros Hg [H1 H2 H3 H4]. unfold config_store. case_match; [done|]. intros [= <- <-].
  set (key := (gid x, (sid x, policy_id))). set (i := conf_count conf + 1).
  assert (forall k l n, <[key := default [] (genHash conf !! key) ++ [set_tid x i]]> (genHash conf) !! k = Some l -> n ∈ l ->
    n = set_tid x i \/ exists l0, genHash conf !! k = Some l0 /\ n ∈ l0) as Hold.
  { intros k l n. destruct (decide (k = key)) as [->|]; [|rewrite lookup_insert_ne by done; eauto].
    rewrite lookup_insert_eq. intros [= <-]. rewrite elem_of_app, list_elem_of_singleton. intros [Hn|Hn]; [|by left].
    right. destruct (genHash conf !! key) as [l0|]; [by exists l0|by apply not_elem_of_nil in Hn]. }
  split; cbn.
  - lia.
  - intros k l. destruct (decide (k = key)) as [->|]; [by intros _|rewrite lookup_insert_ne by done; apply H2].
  - intros k l n Hl Hn. destruct (Hold k l n Hl Hn) as [->|(l0 & Hl0 & Hn0)].
    + cbn. split; [|unfold i; lia]. exists x. split; [|done]. rewrite elem_of_app, list_elem_of_singleton. by right.
    + destruct (H3 k l0 n Hl0 Hn0) as [(y & Hy & ?) ?]. split; [exists y; rewrite elem_of_app; auto|unfold i; lia].
  - intros k k' l l' n n' Hl Hl' Hn Hn' E.
    destruct (Hold k l n Hl Hn) as [->|(l0 & Hl0 & Hn0)], (Hold k' l' n' Hl' Hn') as [->|(l0' & Hl0' & Hn0')]; [done|..].
    + destruct (H3 _ _ _ Hl0' Hn0') as [_ ?]. cbn in E. unfold i in E. lia.
    + destruct (H3 _ _ _ Hl0 Hn0) as [_ ?]. cbn in E. unfold i in E. lia.
    + exact (H4 k k' l0 l0' n n' Hl0 Hl0' Hn0 Hn0' E).
Qed.

Lemma config_add_ok xs x (rf_hash rf_hash' : option tbl) conf r conf' :
  conf_ok xs conf -> SFRF_ConfigAdd SFRF_BYTES policy_id rf_hash conf x = Some (r, rf_hash', conf') ->
  conf_ok (xs ++ [x]) conf' /\ conf_memcap conf' = conf_memcap conf /\
  rf_hash' = match rf_hash with None => SFRF_New SFRF_BYTES (conf_memcap conf) | Some t => Some t end.
Proof.
  intros Hok. unfold SFRF_ConfigAdd. destruct (match rf_hash with None => _ | Some t => Some t end) as [t|].
  2: { intros [= <- <- <-]. split_and!; [by eapply conf_ok_weaken|done|done]. }
  assert (forall r rf_hash' conf', Some (-1, Some t, conf) = Some (r, rf_hash', conf') ->
    conf_ok (xs ++ [x]) conf' /\ conf_memcap conf' = conf_memcap conf /\ rf_hash' = Some t) as Hsame
    by (intros ??? [= <- <- <-]; split_and!; [by eapply conf_ok_weaken|done|done]).
  destruct (_ || _); [by apply Hsame|]. bcase (gid x >=? SFRF_MAX_GENID) as G; [by apply Hsame|].
  destruct (cfg_count x <? 1); [by apply Hsame|]. destruct (_ && _); [by apply Hsame|].
  set (c1 := if timeout x =? 0 then _ else conf). assert (conf_ok xs c1 /\ conf_memcap c1 = conf_memcap conf) as [Hc1 Hm1]
    by (unfold c1; destruct (timeout x =? 0); [split; [destruct Hok; by split|done]|done]).
  destruct (config_store policy_id c1 x) as [[r1 c2]|] eqn:E; [|done]. cbn. intros [= <- <- <-].
  split_and!; [by eapply conf_ok_store; [|exact Hc1|exact E]; lia| |done].
  unfold config_store in E. case_match; [done|]. by injection E as <- <-.
Qed.

Lemma create_ok xs x (rf_hash rf_hash' : option tbl) conf r conf' :
  conf_ok xs conf -> RateFilter_Create SFRF_BYTES policy_id rf_hash conf x = Some (r, rf_hash', conf') ->
  conf_ok (xs ++ [x]) conf' /\ conf_memcap conf' = conf_memcap conf /\
  rf_hash' = match rf_hash with None => SFRF_New SFRF_BYTES (conf_memcap conf) | Some t => Some t end.
Proof.
  intros Hok. unfold RateFilter_Create. destruct (SFRF_ConfigAdd _ _ rf_hash conf x) as [[[r1 h1] c1]|] eqn:E; [|done]. cbn.
  destruct (config_add_ok xs x rf_hash h1 conf r1 c1 Hok E) as (H1 & Hm & Hh).
  destruct (_ && _); intros [= <- <- <-]; split_and!; try done; [|by destruct (sid x =? _)].
  destruct H1 as [? ? ? ?]. destruct (sid x =? _); by split.
Qed.

Lemma create_filters_ok xs : forall ys (rf_hash rf_hash' : option tbl) conf rs conf',
  conf_ok ys conf -> create_filters SFRF_BYTES policy_id rf_hash conf xs = Some (rs, rf_hash', conf') ->
  (forall t, rf_hash = Some t -> SFRF_New SFRF_BYTES (conf_memcap conf) = Some t) ->
  conf_ok (ys ++ xs) conf' /\ (forall t, rf_hash' = Some t -> SFRF_New SFRF_BYTES (conf_memcap conf) = Some t).
Proof.
  induction xs as [|x xs IH]; intros ys h h' conf rs conf' Hok E Hh.
  - injection E as <- <- <-. by rewrite app_nil_r.
  - cbn in E. destruct (RateFilter_Create _ _ h conf x) as [[[r1 h1] c1]|] eqn:E1; [|done]. cbn in E.
    destruct (create_filters _ _ h1 c1 xs) as [[[rs2 h2] c2]|] eqn:E2; [|done]. cbn in E. injection E as <- <- <-.
    destruct (create_ok ys x h h1 conf r1 c1 Hok E1) as (Hok1 & Hm & ->).
    rewrite <- Hm, (cons_middle x ys xs), app_assoc. eapply IH; [exact Hok1|exact E2|]. rewrite Hm.
    intros t. destruct h as [t'|]; [apply Hh|done].
Qed.

(** *** Runs of events *)

(** Not the event that a session has ended, which counts backwards. *)
Definition plain (e : rf_event) : Prop := ~ (e_gid e = GID_SESSION /\ e_sid e = SESSION_EVENT_CLEAR).

Lemma test_rule_nodes config t (e : rf_event) :
  plain e -> (forall key l, genHash config !! key = Some l -> key.1 < SFRF_MAX_GENID) ->
  SFRF_TestThreshold sfvar_ip_in cleared hash_fcn node_size policy_id config t (e_gid e) (e_sid e) (e_sip e) (e_dip e) (e_time e) SFRF_COUNT_INCREMENT =
  test_nodes sfvar_ip_in cleared hash_fcn node_size policy_id t (rule_nodes config e) (e_sip e) (e_dip e) (e_time e) SFRF_COUNT_INCREMENT (-1) (-1).
Proof.
  intros Hp Hg. unfold SFRF_TestThreshold, _updateDependentThresholds, rule_nodes, test_rule.
  rewrite (proj2 (andb_false_iff (e_gid e =? GID_SESSION) _)).
  2: { destruct (Z.eqb_spec (e_gid e) GID_SESSION); [right|by left]. apply Z.eqb_neq. intros ?. by apply Hp. }
  destruct (genHash config !! _) as [l|] eqn:E; [|by case_match].
  specialize (Hg _ _ E). cbn in Hg. bcase (e_gid e >=? SFRF_MAX_GENID) as G; [lia|done].
Qed.

Lemma events_sim ks config s evs : forall h t lo,
  (forall key l, genHash config !! key = Some l -> key.1 < SFRF_MAX_GENID) ->
  Forall (fun e => plain e /\ Forall (fun n => known n /\ forall ip, counted_ip n e = Some ip -> MkKey policy_id (tid n) ip ∈ ks) (rule_nodes config e)) evs ->
  following ks h t -> ordered s lo h -> s <= lo -> times_ok s lo (e_time <$> evs) ->
  (forall k, Zlen ((spec_events config h evs).2 k) < 2 ^ 31) ->
  (test_events config t evs).1 = (spec_events config h evs).1.
Proof.
  induction evs as [|e evs IH]; intros h t lo Hg Hevs T Ho Hs Hts Hlen; [done|].
  apply Forall_cons in Hevs as [[Hp Hn] Hevs]. rewrite Forall_and in Hn. destruct Hn as [Hkn Hks].
  cbn [fmap list_fmap times_ok] in Hts. destruct Hts as (Hlo & Hr & Hts).
  cbn [test_events spec_events] in *. rewrite test_rule_nodes by done.
  assert (forall k, Zlen ((spec_nodes h (rule_nodes config e) e).2 k) < 2 ^ 31) as Hl1.
  { intros k. specialize (Hlen k). destruct (spec_nodes h _ e) as [rs h1]. pose proof (spec_events_grows config evs h1 k).
    destruct (spec_events config h1 evs). simpl in *. lia. }
  pose proof (nodes_sim ks _ e s h t lo (-1) (-1) Hkn T Ho Hks Hlo ltac:(lia) Hr Hl1 ltac:(lia)) as H.
  destruct (spec_nodes h (rule_nodes config e) e) as [rs h1].
  destruct (test_nodes _ _ _ _ _ t _ _ _ _ _ _ _) as [r t1]. destruct H as (-> & T1 & lo' & Hlo' & Ho').
  assert (ordered s (e_time e) h1) as Ho1 by (intros k; destruct (Ho' k) as [? Hf]; split; [done|]; eapply Forall_impl; [exact Hf|]; simpl; lia).
  specialize (IH h1 t1 (e_time e) Hg Hevs T1 Ho1 ltac:(lia) Hts).
  destruct (spec_events config h1 evs) as [a h2]. specialize (IH Hlen). destruct (test_events config t1 evs). cbn in *. by rewrite IH.
Qed.
End Refinement.

Section Claims.
Context {IP V : Type} `{!EqDecision IP}.
Variable sfvar_ip_in : V -> IP -> bool.
Variable cleared : IP.
Variable hash_fcn : tSFRFTrackingNodeKey IP -> Z.
Variables SFRF_BYTES node_size : Z.
Variable policy_id : Z.
Abbreviation tbl := (XHash (K := tSFRFTrackingNodeKey IP) (D := tSFRFTrackingNode)).

Lemma new_table_room nbytes (t : tbl) m :
  0 < SFRF_BYTES <= nbytes -> nbytes < 2 ^ 30 -> 0 <= node_size ->
  SFRF_New SFRF_BYTES nbytes = Some t -> 8 * 2 ^ Z.log2_up (nbytes / SFRF_BYTES) + 8 + m * (node_size + 8) <= nbytes ->
  xwf hash_fcn key_eqb t /\ splay t = true /\ XHash.abs t = [] /\ room node_size t m.
Proof.
  intros Hs Hn Hl. unfold SFRF_New. bcase (nbytes <? SFRF_BYTES) as G; [lia|]. intros Hnew Hmem.
  exact (xhash_new_room hash_fcn node_size nbytes SFRF_BYTES t m Hs Hn Hl Hnew Hmem).
Qed.

(** The node with an id, from the configuration. *)
Definition all_nodes (conf : RateFilterConfig V) : list (tSFRFConfigNode V) := concat (map_to_list (genHash conf)).*2.
Definition node_with (conf : RateFilterConfig V) (i : Z) : tSFRFConfigNode V :=
  default (MkCfg i 0 0 SFRF_TRACK_BY_MAX 0 0 0 0 None) (List.find (fun n => tid n =? i) (all_nodes conf)).

Lemma elem_of_all_nodes conf n : n ∈ all_nodes conf <-> exists key l, genHash conf !! key = Some l /\ n ∈ l.
Proof.
  unfold all_nodes. rewrite list_elem_of_In, in_concat. split.
  - intros (l & Hl & Hn). apply list_elem_of_In, list_elem_of_fmap in Hl as ([key l'] & -> & Hin).
    apply elem_of_map_to_list in Hin. exists key, l'. split; [done|]. by apply list_elem_of_In.
  - intros (key & l & Hl & Hn). exists l. split; [|by apply list_elem_of_In]. apply list_elem_of_In, list_elem_of_fmap.
    exists (key, l). split; [done|]. by apply elem_of_map_to_list.
Qed.

Lemma node_with_tid conf i : tid (node_with conf i) = i.
Proof.
  unfold node_with. destruct (List.find _ _) as [n|] eqn:E; [|done]. apply List.find_some in E as [_ E]. by apply Z.eqb_eq in E.
Qed.

Lemma node_with_known xs conf key l n : conf_ok xs conf -> genHash conf !! key = Some l -> n ∈ l -> node_with conf (tid n) = n.
Proof.
  intros Hok Hl Hn. unfold node_with. destruct (List.find _ _) as [n'|] eqn:E.
  - apply List.find_some in E as [Hn' E]. apply Z.eqb_eq in E. apply list_elem_of_In, elem_of_all_nodes in Hn' as (key' & l' & Hl' & Hn').
    exact (ck_unique _ _ Hok _ _ _ _ _ _ Hl' Hl Hn' Hn E).
  - assert (n ∈ all_nodes conf) as Hin by (apply elem_of_all_nodes; eauto). apply list_elem_of_In in Hin.
    pose proof (List.find_none _ _ E n Hin) as H. cbn in H. by apply Z.eqb_neq in H.
Qed.

(** C19. Rate filters that measure events in time ([seconds] positive): however
    many are configured, and with memory for all the addresses,
    [SFRF_TestThreshold] answers any sequence of events, with times that do not
    decrease and without the session-clear event, as specified from the times of
    the events alone.  A node begins its action with an event that exceeds the
    rate - one that a detection filter with the same count and seconds lets pass -
    keeps it for the timeout and goes on while the rate is exceeded; the first
    node of a rule that limits it decides.  (Filters with [seconds] 0, which count
    open sessions, are the subject of [dropped_session_counted] and
    [sessions_blocked_for_ever].) *)
Theorem rate_filters_specified (memcap : Z) xs rs (t0 : tbl) conf evs ks s :
  0 < SFRF_BYTES <= memcap -> memcap < 2 ^ 30 -> 0 <= node_size ->
  create_filters SFRF_BYTES policy_id None (MkConf ∅ 0 0 memcap 0) xs = Some (rs, Some t0, conf) ->
  Forall measures xs ->
  8 * 2 ^ Z.log2_up (memcap / SFRF_BYTES) + 8 + Zlen ks * (node_size + 8) <= memcap ->
  Forall (fun e => plain e /\
    Forall (fun n => forall ip, counted_ip sfvar_ip_in cleared n e = Some ip -> MkKey policy_id (tid n) ip ∈ ks) (rule_nodes policy_id conf e)) evs ->
  times_ok s s (e_time <$> evs) ->
  let '(answers, hits) := spec_events sfvar_ip_in cleared policy_id conf (fun _ => []) evs in
  (forall k, Zlen (hits k) < 2 ^ 31) ->
  (test_events sfvar_ip_in cleared hash_fcn node_size policy_id conf t0 evs).1 = answers.
Proof.
  intros Hs Hm Hl Hc Hxs Hmem Hevs Hts.
  assert (conf_ok (V := V) [] (MkConf ∅ 0 0 memcap 0)) as Hok0 by (by split).
  destruct (create_filters_ok SFRF_BYTES policy_id xs [] None (Some t0) _ rs conf Hok0 Hc ltac:(done)) as [Hok Hnew].
  cbn in Hok, Hnew. specialize (Hnew t0 eq_refl).
  destruct (new_table_room memcap t0 (Zlen ks) Hs Hm Hl Hnew Hmem) as (I & Hsp & Habs & Hroom).
  pose proof (events_sim sfvar_ip_in cleared hash_fcn node_size policy_id (node_with conf) (node_with_tid conf) ks conf s evs (fun _ => []) t0 s
    (ck_gid _ _ Hok)) as H.
  destruct (spec_events _ _ _ conf (fun _ => []) evs) as [answers h]. intros Hlen. apply H; try done.
  - eapply Forall_impl; [exact Hevs|]. intros e [Hp Hn]. split; [done|]. rewrite Forall_forall in *. intros n Hin. split; [|by apply Hn].
    unfold rule_nodes in Hin. destruct (genHash conf !! _) as [l|] eqn:E; [|by apply not_elem_of_nil in Hin]. cbn in Hin.
    split; [by eapply node_with_known|]. destruct (ck_node _ _ Hok _ _ _ E Hin) as [(x & Hx & ->) _]. exact (Hxs x Hx).
  - by apply tracks_nil.
Qed.
End Claims.

(** ** Concrete filters *)

(** Addresses are numbers; a filter by source, twice in ten seconds, with
    [DROP] for five seconds. *)
Definition demo_in (v : unit) (ip : Z) : bool := true.
Definition demo_filter : tSFRFConfigNode unit := MkCfg 0 1 7 SFRF_TRACK_BY_SRC 2 10 DROP 5 None.
Definition demo_event (src time : Z) : rf_event (IP := Z) := MkRfEvent 1 7 src 99 time.
Definition demo_events : list rf_event :=
  [demo_event 1 100; demo_event 2 100; demo_event 1 101; demo_event 1 102; demo_event 1 104; demo_event 2 105; demo_event 1 107; demo_event 1 140].

Lemma demo_keys (c : RateFilterConfig unit) :
  (forall src time, rule_nodes 0 c (demo_event src time) = [set_tid demo_filter 1]) ->
  Forall (fun e => plain e /\
    Forall (fun n => forall ip, counted_ip demo_in 0 n e = Some ip -> MkKey 0 (tid n) ip ∈ [MkKey 0 1 1; MkKey 0 1 2]) (rule_nodes 0 c e)) demo_events.
Proof.
  intros Hr. apply Forall_forall. intros e He.
  assert (exists src time, e = demo_event src time /\ (src = 1 \/ src = 2)) as (src & time & -> & Hsrc).
  { unfold demo_events in He. repeat (apply elem_of_cons in He as [->|He]; [eexists _, _; split; [done|lia]|]). by apply not_elem_of_nil in He. }
  split; [by intros [? ?]|]. rewrite Hr. apply Forall_cons. split; [|by apply Forall_nil].
  intros ip [= <-]. cbn. destruct Hsrc as [->| ->]; rewrite !elem_of_cons; auto.
Qed.

(** The third event of address 1 begins the action (7 + 4), the fourth and fifth
    continue it, the last one finds it over; address 2 is not limited. *)
Lemma rate_filters_specified_witness :
  exists rs t0 conf,
    create_filters 100 0 None (MkConf ∅ 0 0 4096 0) [demo_filter] = Some (rs, Some t0, conf) /\
    (test_events demo_in 0 k_ip 150 0 conf t0 demo_events).1 = [-1; -1; -1; 11; 4; -1; 4; -1].
Proof.
  eexists _, _, _. split; [vm_compute; reflexivity|].
  match goal with |- (test_events _ _ _ _ _ ?c ?t _).1 = _ =>
    pose proof (rate_filters_specified demo_in 0 k_ip 100 150 0 4096 [demo_filter] [0] t c demo_events
      [MkKey 0 1 1; MkKey 0 1 2] 100 ltac:(lia) ltac:(lia) ltac:(lia) eq_refl) as H;
    assert ((spec_events demo_in 0 0 c (fun _ => []) demo_events).1 = [-1; -1; -1; 11; 4; -1; 4; -1]) as Ha by (vm_compute; reflexivity);
    assert (forall src time, rule_nodes 0 c (demo_event src time) = [set_tid demo_filter 1]) as Hr by (intros; vm_compute; reflexivity);
    pose proof (spec_events_length demo_in 0 0 c demo_events (fun _ => [])) as Hn
  end.
  destruct (spec_events demo_in 0 0 _ (fun _ => []) demo_events) as [a h]. cbn [fst snd] in *. rewrite <- Ha. apply H.
  - constructor; [split_and!; cbn; lia|constructor].
  - vm_compute. congruence.
  - exact (demo_keys _ Hr).
  - repeat split; vm_compute; congruence.
  - intros k. specialize (Hn k). vm_compute (foldr _ _ _) in Hn. rewrite Zlen_nil in Hn. lia.
Defined.

(** A node that is recovered for another address keeps its state: with memory
    for one node, the first event of address 2 finds the action of address 1. *)
Theorem recovered_node_inherits :
  exists rs t0 conf,
    create_filters 100 0 None (MkConf ∅ 0 0 300 0) [demo_filter] = Some (rs, Some t0, conf) /\
    (test_events demo_in 0 k_ip 150 0 conf t0 [demo_event 1 100; demo_event 1 101; demo_event 1 102; demo_event 2 103]).1 =
      [-1; -1; 11; 4] /\
    (spec_events demo_in 0 0 conf (fun _ => []) [demo_event 1 100; demo_event 1 101; demo_event 1 102; demo_event 2 103]).1 =
      [-1; -1; 11; -1].
Proof. eexists _, _, _. split; [vm_compute; reflexivity|]. split; vm_compute; reflexivity. Qed.

(** A limit on sessions ([seconds] is 0) takes a dropped session out of the
    count again only when the count is above the limit: a session that is
    dropped because the action is still on stays in the count for ever. *)
Theorem dropped_session_counted {V} (c : tSFRFConfigNode V) d time :
  cfg_seconds c = 0 -> newAction c = DROP -> filterState d = FS_ON -> 0 <= count d < cfg_count c -> cfg_count c < 2 ^ 31 ->
  (timeout c = 0 \/ u32 (time - revertTime d) < timeout c) ->
  let '(r, d') := test_node c d time SFRF_COUNT_INCREMENT in r = DROP /\ count d' = count d + 1.
Proof.
  intros Hs Ha Hf Hc Hl Hto. unfold test_node, _checkSamplingPeriod. rewrite Hs, Ha. cbn [Z.eqb negb snd].
  unfold count_op. cbn [count]. rewrite u32_small by (munfold; lia). rewrite (proj2 (Z.eqb_neq _ _)) by lia. cbn [negb].
  unfold _checkThreshold, set_node_count. cbn [filterState overRate tlast count tstart revertTime]. rewrite Hf.
  rewrite (proj2 (andb_false_iff _ _)).
  2: { destruct Hto as [->|Hto]; [by left|right]. rewrite Z.geb_leb. apply Z.leb_gt. lia. }
  rewrite Ha. cbn [count]. rewrite Z.gtb_ltb, (proj2 (Z.ltb_ge _ _)) by lia. done.
Qed.

(** With a limit of one session: the second is dropped, the first ends, the
    third is dropped while the action is on.  From then on every session is
    dropped, although none is open. *)
Definition session_filter : tSFRFConfigNode unit := MkCfg 0 GID_SESSION SESSION_EVENT_SETUP SFRF_TRACK_BY_SRC 1 0 DROP 60 None.
Definition session_event (s time : Z) : rf_event (IP := Z) := MkRfEvent GID_SESSION s 1 99 time.

Theorem sessions_blocked_for_ever :
  exists rs t0 conf,
    create_filters 100 0 None (MkConf ∅ 0 0 4096 0) [session_filter] = Some (rs, Some t0, conf) /\
    (test_events demo_in 0 k_ip 150 0 conf t0
      [session_event SESSION_EVENT_SETUP 0; session_event SESSION_EVENT_SETUP 1; session_event SESSION_EVENT_CLEAR 2;
       session_event SESSION_EVENT_SETUP 3; session_event SESSION_EVENT_SETUP 100; session_event SESSION_EVENT_SETUP 200;
       session_event SESSION_EVENT_SETUP 1000]).1 = [-1; 11; -1; 4; 4; 4; 4].
Proof. eexists _, _, _. split; [vm_compute; reflexivity|]. vm_compute. reflexivity. Qed.
