(* ===== verification/Detect.v ===== *)
(** * Detect: a packet from its rules to its events

    The evaluator (OptionEval), the trees it walks (OptionTree), the collection
    of matches and the selection (FpDetect) and the event queue (EventQueue) put
    together, the way detection/fp_detect.cc runs them for one packet. *)

From stdpp Require Import sorting.
From S2P Require Import Prelude Cursor Extract Hash Content RangeOptions OptionEval OptionTree RuleEval EventQueue FpDetect.

(** [fpEvalRTN] on the rule's header in the policy; [head] is
    [rtn->rule_func->RuleHeadFunc (p, rtn, rule_func, check_ports)]. *)
Definition fpEvalRTN (head : RuleTreeNode -> bool -> bool) (policyId : Z) (otn : OptTreeNode) (check_ports : bool) : bool :=
  match getRtnFromOtn policyId otn with
  | None => false
  | Some rtn => head rtn check_ports
  end.

(** [gid], [sid] and [rev] of a rule. *)
Definition sig (o : OptTreeNode) : Z * Z * Z := (gid o, sid o, rev o).

Section Packet.
Context {Opt Env S : Type} `{!EqDecision Opt} `{!IpsOptionApi Opt Env} `{!Session S}.
Variable opt_type : Opt -> option_type_t.
Variable opt_relative opt_test fp_only : Opt -> bool.
Variable p : pkt_t.
Variable run_num check_ports size : Z.
Variable services : OptTreeNode -> list Z.
Variable rule_head : RuleTreeNode -> bool -> bool.
Variable policyId max_queue_events : Z.
Variable qsort : (OptTreeNode -> OptTreeNode -> Z) -> list OptTreeNode -> list OptTreeNode.
Variable eq : EventQueueConfig.

(** The walk of [fpEvalHeaderSW] over the rules of a group that have no fast
    pattern, the one that hands the match data to the evaluation; no detection
    filters and no latency limits.  Every match is added to the match data when
    the evaluation calls [fpAddMatch]. *)
Definition eval_nfp (fuel : nat) (root : list (node_t Opt OptTreeNode)) (w : world OptTreeNode Env) (c : Cursor)
    (o : OtnxMatchData) (st : sel_state S) : option (world OptTreeNode Env * OtnxMatchData * sel_state S) :=
  match detection_option_tree_evaluate p run_num check_ports size services (fpEvalRTN rule_head policyId)
          (fun _ => None) (fun e : Env => (false, e)) fuel false root w c with
  | None => None
  | Some (_, w') =>
      match add_matches policyId max_queue_events o (pegs st) (map snd (drop (length (calls w)) (calls w'))) with
      | None => None
      | Some (o, pc) => Some (w', o, set_pegs st pc)
      end
  end.

(** [fp_local], with [fpEvalPacket] the walk over the one group that the packet
    selects. *)
Definition fp_local (fuel : nat) (root : list (node_t Opt OptTreeNode)) (w : world OptTreeNode Env) (c : Cursor)
    (o : OtnxMatchData) (st : sel_state S) : option (world OptTreeNode Env * sel_state S) :=
  match eval_nfp fuel root w c (init_match_info o) st with
  | None => None
  | Some (w', o, st) =>
      match fpFinalSelectEvent policyId qsort eq o st with
      | None => None
      | Some (_, _, st) => Some (w', st)
      end
  end.

Context `{!SessionLaws S} `{!QsortLaws qsort}.
Variable f : Opt -> ips_vars -> Cursor -> option (EvalStatus * ips_vars * Cursor).
Context (opt_ok : Opt -> Prop) (B : Z) `{!OptionLaws opt_ok B}.
Hypothesis Hpure : forall o v e c, opt_ok o ->
  ips_eval o v e c = match f o v c with Some (s, v', c') => Some (s, v', e, c') | None => None end.
Variable cmp : OptTreeNode -> OptTreeNode -> Z.
Hypothesis Hcmp : order_function eq = Some cmp.

Abbreviation steps := (steps opt_type fp_only).
Abbreviation chain := (chain_matches opt_type opt_test p run_num f).
Abbreviation rule_matches := (rule_matches opt_type opt_test p run_num check_ports services (fpEvalRTN rule_head policyId) f).

(** The rules that match the packet. *)
Definition matched (rules : list (list Opt * OptTreeNode)) (v : ips_vars) (c : Cursor) : list OptTreeNode :=
  map snd (List.filter (rule_matches v c) (map (fun r => (steps r.1, r.2)) rules)).

Lemma matched_sub rules v c o : o ∈ matched rules v c -> o ∈ map snd rules /\ (exists rtn, getRtnFromOtn policyId o = Some rtn).
Proof.
  unfold matched. rewrite !list_elem_of_In, !in_map_iff. intros ([os x] & <- & Hx). simpl.
  apply filter_In in Hx as [Hin Hm]. apply in_map_iff in Hin as (r & [= <- <-] & Hr). split; [by exists r|].
  unfold OptionTree.rule_matches, leaf_accepts, fpEvalRTN in Hm. simpl in Hm.
  destruct (getRtnFromOtn policyId r.2); [eauto|]. by rewrite !andb_false_r in Hm.
Qed.

Lemma matched_NoDup rules v c : NoDup (map (fun r => key r.2) rules) -> NoDup (matched rules v c).
Proof.
  intros H. unfold matched. assert (NoDup (map snd (map (fun r => (steps r.1, r.2)) rules))) as H'.
  { rewrite map_map. rewrite <- (map_map snd key) in H. exact (NoDup_fmap_1 key _ H). }
  induction (map (fun r => (steps r.1, r.2)) rules) as [|x l IH]; simpl in *; [constructor|].
  apply NoDup_cons in H' as [Hx Hl]. destruct (rule_matches v c x); [|by apply IH]. simpl. constructor; [|by apply IH].
  intros Hin. apply Hx. rewrite list_elem_of_In, in_map_iff in Hin |- *. destruct Hin as (y & Ey & Hy).
  exists y. split; [done|]. apply filter_In in Hy as [Hy _]. exact Hy.
Qed.

Lemma filter_index i l : filter (fun x => index policyId x = i) l = List.filter (fun x => index policyId x =? i) l.
Proof.
  induction l as [|x l IH]; [done|]. rewrite filter_cons. simpl. rewrite IH.
  case_decide as E; [by rewrite (proj2 (Z.eqb_eq _ _) E)|by rewrite (proj2 (Z.eqb_neq _ _) E)].
Qed.

Lemma dedup_id l : NoDup l -> dedup [] l = l.
Proof.
  assert (forall seen, NoDup (seen ++ l) -> dedup seen l = l) as H; [|by apply (H [])].
  induction l as [|x l IH]; intros seen Hnd; simpl; [done|].
  rewrite bool_decide_eq_false_2 by (apply NoDup_app in Hnd as (_ & Hd & _); intros Hx; apply (Hd x Hx); left).
  f_equal. apply IH. by rewrite <- app_assoc.
Qed.

(** C10. One packet from rules without fast pattern to events.  The rules have
    different keys, options that are not relative and that read only the cursor
    and variables the rule has set, and no detection filters; latency limits are
    off; at most as many rules match as the match data have room for.  When the
    tree built from them is evaluated and the matches are selected, the packet's
    queue gets, after what it already holds, the events of the rules that match
    the packet: of each action group all that match, sorted; up to the first
    group with a new event, or all groups; those not yet alerted on in the session
    before the first pass rule; at most [max_events], and as many as the queue has
    room for. *)
Theorem packet_detection fuel rules root next (w : world OptTreeNode Env) c o (st : sel_state S) mx lg l0 d :
  B < Z.of_nat fuel -> vars_ok (vars w) -> cursor_wf c -> sz c <= B -> flowbit_noalert w = false ->
  Forall (fun r => Forall (fun o => opt_ok o /\ opt_relative o = false) (steps r.1) /\
    (forall v v', vars_ok v -> vars_ok v' -> chain (steps r.1) v c = chain (steps r.1) v' c)) rules ->
  create_all opt_type opt_relative opt_test fp_only sig rules [] 0 = (root, next) ->
  Forall (OptionEval.fresh p run_num w) root ->
  NoDup (map (fun r => key r.2) rules) ->
  (forall r rtn, r ∈ rules -> getRtnFromOtn policyId r.2 = Some rtn -> 0 <= evalIndex rtn) ->
  Zlen (matched rules (vars w) c) <= Z.min max_queue_events MAX_EVENT_MATCH ->
  0 < max_events eq -> is_queue mx lg (equeue st) l0 d ->
  exists w' st' gs d',
    fp_local fuel root w c o st = Some (w', st') /\
    Forall2 (fun i g => g ≡ₚ List.filter (fun x => index policyId x =? i) (matched rules (vars w) c) /\ Sorted (cmp_le cmp) g)
      (seqZ 0 (Zlen (matchInfo o))) gs /\
    let l := considered (FpDetect.fresh (flow st)) (process_all_events eq) gs in
    let events := take (Z.to_nat (max_events eq)) (first_events (rule_pass policyId) (FpDetect.fresh (flow st)) l) in
    is_queue mx lg (equeue st') (take (Z.to_nat mx) (l0 ++ map (event policyId) events)) d'.
Proof.
  intros Hen Hv Hc Hs Hna Hr Hcr Hfr Hnd Hidx Hlim Hmx Hq.
  assert (NoDup (map (fun r => sig r.2) rules)) as Hsig.
  { eapply (NoDup_fmap_1 (fun x : Z * Z * Z => x.1)). by rewrite map_map. }
  destruct (tree_reports opt_type opt_relative opt_test fp_only sig p run_num check_ports size services
    (fpEvalRTN rule_head policyId) f opt_ok B Hpure fuel rules root next w c Hen Hv Hc Hs Hna Hsig Hr Hcr Hfr)
    as (r & w' & He & new & Hcalls & Hnew). fold (matched rules (vars w) c) in Hnew.
  unfold fp_local, eval_nfp. rewrite He, Hcalls, drop_app_length, map_map. simpl. rewrite map_id.
  assert (forall x, x ∈ new -> x ∈ map snd rules /\ exists rtn, getRtnFromOtn policyId x = Some rtn) as Hin.
  { intros x Hx. rewrite Hnew in Hx. by apply matched_sub in Hx. }
  assert (Forall (in_policy policyId) new) as Hpol.
  { apply Forall_forall. intros x Hx. destruct (Hin x Hx) as [Hx' (rtn & Hrtn)]. exists rtn. split; [done|].
    apply list_elem_of_fmap in Hx' as (y & -> & Hy). by apply (Hidx y). }
  assert (forall x y, x ∈ new -> y ∈ new -> key x = key y -> x = y) as Hkey.
  { intros x y Hx Hy Hk. destruct (Hin x Hx) as [Hx' _]. destruct (Hin y Hy) as [Hy' _].
    apply list_elem_of_lookup in Hx' as (i & Hi). apply list_elem_of_lookup in Hy' as (j & Hj).
    assert (i = j) as <-; [|congruence].
    eapply (NoDup_lookup _ i j (key x) Hnd); rewrite <- (map_map snd key), list_lookup_fmap; [by rewrite Hi|].
    rewrite Hj. simpl. by rewrite Hk. }
  destruct (packet_events policyId qsort eq cmp Hcmp max_queue_events o (pegs st) new
    (set_pegs st (pegs st)) mx lg l0 d Hmx Hpol Hkey Hq) as (o1 & pc & r1 & o' & st1 & gs1 & d1 & Hadd & _).
  destruct (packet_events policyId qsort eq cmp Hcmp max_queue_events o (pegs st) new
    (set_pegs st pc) mx lg l0 d Hmx Hpol Hkey Hq) as (o2 & pc2 & r2 & o2' & st' & gs & d' & Hadd' & Hfin & Hgs & Hqueue & _).
  rewrite Hadd in Hadd'. injection Hadd' as <- <-. rewrite Hadd, Hfin.
  exists w', st', gs, d'. split_and!; [done| |exact Hqueue].
  eapply Forall2_impl; [exact Hgs|]. intros i g [Hg Hsort]. split; [|done]. rewrite Hg. unfold collected.
  assert (NoDup new) as Hndn by (rewrite Hnew; by apply matched_NoDup).
  pose proof (length_filter (fun x => index policyId x = i) new) as Hlen. apply Permutation_length in Hnew as Hln.
  rewrite dedup_id by (by apply NoDup_filter). rewrite take_ge by (unfold limit, Zlen in *; lia).
  rewrite Hnew. by rewrite filter_index.
Qed.
End Packet.

(** ** A packet that one of two rules matches *)

Definition packet_rules : list (list nat * OptTreeNode) := [([0%nat], demo_alert 1 11 4); ([0%nat; 1%nat], demo_alert 2 12 9)].
Definition packet_root := create_all (fun _ => RULE_OPTION_TYPE_CONTENT) (fun _ => false) (fun _ => true) (fun _ => false)
  sig packet_rules [] 0.
Definition packet_world : world OptTreeNode unit := MkWorld ∅ demo_vars false false [] [] tt.

(** The evaluation and selection of the witness below, on contents. *)
Definition packet_detect (root : list (node_t nat OptTreeNode)) (q : SF_EVENTQ) :=
  @fp_local nat unit TcpStreamSession.t (heap_api demo_pk demo_packet demo_objects)
    (TcpStreamSession.session true true) demo_pkt 1 0 0 (fun _ => []) (fun _ _ => true) 0 5 merge_qsort EventQueueConfigNew
    6 root packet_world Content.demo_cursor (MkOmd false [[]; []]) (demo_sel q).

Lemma packet_rules_ok : Forall (fun r => Forall (fun o => rule_ok (demo_objects o) /\ false = false)
    (steps (fun _ => RULE_OPTION_TYPE_CONTENT) (fun _ => false) r.1) /\
  (forall v v', vars_ok v -> vars_ok v' ->
    @chain_matches _ _ (heap_api demo_pk demo_packet demo_objects) (fun _ => RULE_OPTION_TYPE_CONTENT) (fun _ => true)
      demo_pkt 1 (heap_eval demo_pk demo_packet demo_objects) (steps (fun _ => RULE_OPTION_TYPE_CONTENT) (fun _ => false) r.1) v Content.demo_cursor =
    @chain_matches _ _ (heap_api demo_pk demo_packet demo_objects) (fun _ => RULE_OPTION_TYPE_CONTENT) (fun _ => true)
      demo_pkt 1 (heap_eval demo_pk demo_packet demo_objects) (steps (fun _ => RULE_OPTION_TYPE_CONTENT) (fun _ => false) r.1) v' Content.demo_cursor)) packet_rules.
Proof.
  apply Forall_forall. intros r _. split.
  - apply Forall_forall. intros o _. split; [exact demo_rule_ok|reflexivity].
  - intros v v' _ _. apply contents_closed. apply Forall_forall. intros o _. exists demo_cd, None. split; [reflexivity|].
    split; vm_compute; reflexivity.
Qed.

Lemma packet_detection_witness :
  exists q w' st' gs d',
    sfeventq_new (MkEvent demo_pass None) 8 3 1 = Some q /\ packet_detect packet_root.1 q = Some (w', st') /\
    is_queue 8 3 (equeue st') (take 8 ([] ++ map (event 0)
      (take 8 (first_events (rule_pass 0) (FpDetect.fresh (Session0 := TcpStreamSession.session true true) (Some demo_session))
        (considered (FpDetect.fresh (Session0 := TcpStreamSession.session true true) (Some demo_session)) false gs))))) d'.
Proof.
  destruct (sfeventq_new (MkEvent demo_pass None) 8 3 1) as [q|] eqn:Hq; [|discriminate Hq].
  assert (5 < 2 ^ 29) as HB by lia. assert (5 < Z.of_nat 6) as Hf by lia.
  assert (sz Content.demo_cursor <= 5) as Hs by (vm_compute; discriminate).
  destruct packet_root as [root next] eqn:Er.
  assert (Forall (OptionEval.fresh demo_pkt 1 packet_world) root) as Hfr
    by (vm_compute in Er; injection Er as <- <-; vm_compute; repeat constructor).
  assert (NoDup (map (fun r : list nat * OptTreeNode => key r.2) packet_rules)) as Hnd
    by (apply (bool_decide_unpack _); vm_compute; exact I).
  pose proof (@packet_detection nat unit TcpStreamSession.t _ (heap_api demo_pk demo_packet demo_objects)
    (TcpStreamSession.session true true) (fun _ => RULE_OPTION_TYPE_CONTENT) (fun _ => false) (fun _ => true) (fun _ => false)
    demo_pkt 1 0 0 (fun _ => []) (fun _ _ => true) 0 5 merge_qsort EventQueueConfigNew (TcpStreamSession.tcp_laws true true) _
    (heap_eval demo_pk demo_packet demo_objects) (fun o => rule_ok (demo_objects o)) 5
    (heap_laws demo_pk demo_packet demo_objects 5 HB) (fun o v e c _ => eq_refl) sortOrderByContentLength eq_refl
    6 packet_rules root next packet_world Content.demo_cursor (MkOmd false [[]; []]) (demo_sel q) 8 3 [] false
    Hf demo_world_ok Content.demo_cursor_wf Hs eq_refl packet_rules_ok Er Hfr Hnd) as H.
  destruct H as (w' & st' & gs & d' & Hrun & _ & Hqueue).
  - intros r rtn Hr. apply elem_of_cons in Hr as [->|Hr]; [intros [= <-]; simpl; lia|].
    apply elem_of_cons in Hr as [->|Hr]; [intros [= <-]; simpl; lia|by apply not_elem_of_nil in Hr].
  - vm_compute. discriminate.
  - reflexivity.
  - by apply new_is_queue in Hq as [? _].
  - exists q, w', st', gs, d'. split; [reflexivity|]. split; [exact Hrun|exact Hqueue].
Defined.
