(* ===== verification/FastPattern.v ===== *)
(** * FastPattern: from the buffers of a packet to the trees it is tested with

    The fast pattern stage of detection/fp_detect.cc.  The buffers of a packet
    are searched with the matchers of a port group; every match names an option
    tree.  [MpseStash] collects the trees without repetition and evaluates them
    when it is full and at the end of a buffer.  The matcher is used through the
    class [Mpse] (framework/mpse.h), which the Aho-Corasick automaton of
    [AhoCorasick] implements the way search_engines/ac_std.cc does. *)

From S2P Require Import Prelude BoyerMoore Automata AhoCorasick.

(** ** The matcher's interface *)

(** What a matcher calls back with, and what the stash keeps. *)
Record Node (U T N : Type) := MkNode { user : option U; tree : T; index : Z; neg : N }.
Arguments MkNode {U T N}.
Arguments user {U T N}.
Arguments tree {U T N}.
Arguments index {U T N}.
Arguments neg {U T N}.

(** [MpseMatch]: the context, then the four parts of a node.  A positive
    result ends the search. *)
Definition MpseMatch (C U T N : Type) : Type := C -> option U -> T -> Z -> N -> Z * C.

Definition call {C U T N} (m : MpseMatch C U T N) (c : C) (n : Node U T N) : Z * C :=
  m c (user n) (tree n) (index n) (neg n).

Class Mpse (M U T N : Type) := {
  _search : forall C : Type, MpseMatch C U T N -> M -> list Z -> nat -> C -> option (Z * nat * C) }.
Arguments _search {M U T N _} C.

(** Calling back with a list of nodes until the callback ends the search. *)
Fixpoint deliver {C U T N} (m : MpseMatch C U T N) (l : list (Node U T N)) (nfound : Z) (c : C) : Z * C :=
  match l with
  | [] => (nfound, c)
  | n :: l => let '(r, c) := call m c n in if r >? 0 then (nfound + 1, c) else deliver m l (nfound + 1) c
  end.

(** What the stage expects of a matcher: from its start state it calls back
    with the nodes of the buffer, in order. *)
Class MpseLaws (M U T N : Type) `{!Mpse M U T N} := {
  mpse_ok : M -> Prop;
  mpse_max : Z;
  hits : M -> list Z -> list (Node U T N);
  search_hits : forall (C : Type) (m : MpseMatch C U T N) so Tx c,
    mpse_ok so -> bytes Tx -> Zlen Tx <= mpse_max ->
    exists s, _search C m so Tx 0%nat c = Some ((deliver m (hits so Tx) 0 c).1, s, (deliver m (hits so Tx) 0 c).2) }.

(** ** Aho-Corasick as a matcher (search_engines/ac_std.cc) *)

Section AcMpse.
Context {U T N : Type}.
Abbreviation acsm := (ACSM_STRUCT (U := U) (T := T) (N := N)).

Definition AcMpse_search (C : Type) (m : MpseMatch C U T N) (obj : acsm) (Tx : list Z) (current_state : nat) (c : C)
    : option (Z * nat * C) :=
  match acsmSearch m obj Tx (Some current_state) c with
  | Some (n, Some s, c) => Some (n, s, c)
  | _ => None
  end.

#[export] Instance AcMpse : Mpse acsm U T N := {| _search := AcMpse_search |}.

(** The nodes of a text, read off the automaton. *)
Fixpoint ac_hits (a : acsm) (state : nat) (text : list Z) (index : Z) : list (Node U T N) :=
  match text with
  | [] => []
  | c :: text =>
      match next (acsmStateTable a) state c with
      | None => []
      | Some state =>
          match matches (acsmStateTable a) state with
          | [] => []
          | p :: _ => [MkNode (user_id (users a) p) (rule_option_tree p) (index + 1) (neg_list p)]
          end ++ ac_hits a state text (index + 1)
      end
  end.

Lemma search_text_hits (C : Type) (m : MpseMatch C U T N) (a : acsm) text : forall s i n c n' s' c',
  search_text m a s text i n c = Some (n', s', c') -> deliver m (ac_hits a s text i) n c = (n', c').
Proof.
  induction text as [|x text IH]; intros s i n c n' s' c'; simpl; [by intros [= <- <- <-]|].
  destruct (next _ s x) as [s1|]; [|done]. destruct (matches _ s1) as [|p l]; simpl; [apply IH|].
  unfold call. simpl. destruct (m c _ _ _ _) as [r c1]. destruct (r >? 0); [by intros [= <- <- <-]|apply IH].
Qed.

(** A compiled automaton. *)
Definition ac_ok (a : acsm) : Prop :=
  exists agent nt nl l, Forall (fun '(pat, _, _, _) => bytes pat) l /\ Forall (fun '(pat, _, _, _) => pat <> []) l /\
    acsmCompile agent (add_patterns nt nl l) = Some a.

#[export] Program Instance AcMpse_laws : MpseLaws acsm U T N :=
  {| mpse_ok := ac_ok; mpse_max := Tc_size; hits a Tx := ac_hits a 0 (ConvertCaseEx Tx) 0 |}.
Next Obligation.
  intros C m a Tx c (agent & nt & nl & l & Hb & Hne & E) HT Hlen.
  destruct (acsm_search_run agent nt nl l Hb Hne) as (a' & M & rep & E' & H0 & _ & Hs).
  rewrite E in E'. injection E' as <-. specialize (Hs C m 0%nat [] Tx c H0 HT Hlen).
  destruct (ref_search _ _ _ _ _ _ _ _ _ _ _) as [[n x'] c']. destruct Hs as (s' & Hs & _).
  exists s'. unfold _search, AcMpse, AcMpse_search. rewrite Hs. unfold acsmSearch in Hs. destruct (_ >? _); [done|].
  destruct (search_text _ _ _ _ _ _ _) as [[[n1 s1] c1]|] eqn:Et; [|done]. injection Hs as -> -> ->.
  by rewrite (search_text_hits _ _ _ _ _ _ _ _ _ _ _ Et).
Qed.

(** The nodes without the automaton: at every position where patterns end,
    the user data of one of them, and what the agent builds from all of them. *)
Definition ref_hits (agent : option (MpseAgent (U := U))) (nt : T) (nl : N) (M : list Z -> list ACSM_PATTERN)
    (us : list ACSM_USERDATA) (text : list Z) : list (Node U T N) :=
  omap (fun i => match M (take (S i) text) with
                 | [] => None
                 | p :: l => Some (MkNode (user_id us p) (tree_of agent nt us (p :: l)) (Z.of_nat i + 1) (negs_of agent nl us (p :: l)))
                 end) (seq 0 (length text)).

Definition record_ (c : list (Node U T N)) (u : option U) (t : T) (i : Z) (n : N) : Z * list (Node U T N) :=
  (0, c ++ [MkNode u t i n]).

Lemma deliver_record (l : list (Node U T N)) : forall n c, (deliver record_ l n c).2 = c ++ l.
Proof.
  induction l as [|[u t i g] l IH]; intros n c; simpl; [by rewrite app_nil_r|].
  rewrite IH, <- app_assoc. done.
Qed.

Lemma ref_search_record agent nt nl M us text : forall x i n c,
  (ref_search agent nt nl record_ M us x text i n c).2 =
  c ++ omap (fun k => match M (x ++ take (S k) text) with
                 | [] => None
                 | p :: l => Some (MkNode (user_id us p) (tree_of agent nt us (p :: l)) (i + Z.of_nat k + 1) (negs_of agent nl us (p :: l)))
                 end) (seq 0 (length text)).
Proof.
  induction text as [|b text IH]; intros x i n c; simpl; [by rewrite app_nil_r|].
  assert (omap (fun k => match M ((x ++ [b]) ++ take (S k) text) with
      | [] => None
      | p :: l => Some (MkNode (user_id us p) (tree_of agent nt us (p :: l)) (i + 1 + Z.of_nat k + 1) (negs_of agent nl us (p :: l)))
      end) (seq 0 (length text)) =
    omap (fun k => match M (x ++ b :: take k text) with
      | [] => None
      | p :: l => Some (MkNode (user_id us p) (tree_of agent nt us (p :: l)) (i + Z.of_nat k + 1) (negs_of agent nl us (p :: l)))
      end) (seq 1 (length text))) as H.
  { apply list_omap_ext. rewrite <- fmap_S_seq, Forall2_fmap_r. apply Forall_Forall2_diag, Forall_forall. intros k _.
    rewrite <- app_assoc. cbn [app]. by replace (i + 1 + Z.of_nat k + 1) with (i + Z.of_nat (S k) + 1) by lia. }
  rewrite take_0, Z.add_0_r. destruct (M (x ++ [b])) as [|p l]; simpl; rewrite IH, H; [done|]. by rewrite <- app_assoc.
Qed.
End AcMpse.

(** ** The stash of matched trees *)

(** Statistics of the queue (search_engines/pat_stats.h) and of the searches. *)
Record PatMatQStat := MkPmqs {
  max_inq : Z; tot_inq_flush : Z; tot_inq_inserts : Z; tot_inq_uinserts : Z;
  non_qualified_events : Z; qualified_events : Z; matched_bytes : Z }.

Definition inc_inserts (q : PatMatQStat) : PatMatQStat :=
  MkPmqs (max_inq q) (tot_inq_flush q) (u64 (tot_inq_inserts q + 1)) (tot_inq_uinserts q)
    (non_qualified_events q) (qualified_events q) (matched_bytes q).
Definition inc_uinserts (q : PatMatQStat) : PatMatQStat :=
  MkPmqs (max_inq q) (tot_inq_flush q) (tot_inq_inserts q) (u64 (tot_inq_uinserts q + 1))
    (non_qualified_events q) (qualified_events q) (matched_bytes q).
Definition note_queue (q : PatMatQStat) (count flushed : Z) : PatMatQStat :=
  MkPmqs (if count >? max_inq q then count else max_inq q) (u64 (tot_inq_flush q + flushed)) (tot_inq_inserts q)
    (tot_inq_uinserts q) (non_qualified_events q) (qualified_events q) (matched_bytes q).
Definition add_bytes (q : PatMatQStat) (n : Z) : PatMatQStat :=
  MkPmqs (max_inq q) (tot_inq_flush q) (tot_inq_inserts q) (tot_inq_uinserts q)
    (non_qualified_events q) (qualified_events q) (u64 (matched_bytes q + n)).
Definition note_eval (q : PatMatQStat) (matched : bool) : PatMatQStat :=
  MkPmqs (max_inq q) (tot_inq_flush q) (tot_inq_inserts q) (tot_inq_uinserts q)
    (if matched then non_qualified_events q else u64 (non_qualified_events q + 1))
    (if matched then u64 (qualified_events q + 1) else qualified_events q) (matched_bytes q).

Section Stash.
Context {U T N : Type} `{!EqDecision T}.

(** [queue] holds the entries below [count], the only ones the code reads;
    trees are compared by address. *)
Record MpseStash := MkStash { enable : bool; flushed : Z; queue : list (Node U T N) }.
Definition max : Z := 32.
Definition count (s : MpseStash) : Z := Zlen (queue s).

Definition init (s : MpseStash) : MpseStash := if enable s then MkStash (enable s) 0 [] else s.
Definition disable_process (s : MpseStash) : MpseStash := MkStash false (flushed s) (queue s).
Definition enable_process (s : MpseStash) : MpseStash := MkStash true (flushed s) (queue s).

Definition push (s : MpseStash) (q : PatMatQStat) (n : Node U T N) : bool * MpseStash * PatMatQStat :=
  let q := inc_inserts q in
  if existsb (fun m => bool_decide (tree n = tree m)) (reverse (queue s)) then (false, s, q)
  else
    let '(s, q) := if count s <? max then (MkStash (enable s) (flushed s) (queue s ++ [n]), inc_uinserts q) else (s, q) in
    if count s =? max then (true, MkStash (enable s) (u32 (flushed s + 1)) (queue s), q) else (false, s, q).

(** ** The context of a search

    [C] is what the evaluation of a tree works on (the match data, the flow, the
    event queue), [P] the packet it reads. *)
Context {P C : Type}.

Record world := MkFp { pkt : P; ctx : C; stash : MpseStash; pmqs : PatMatQStat }.
Definition set_ctx (w : world) (c : C) : world := MkFp (pkt w) c (stash w) (pmqs w).
Definition set_stash (w : world) (s : MpseStash) (q : PatMatQStat) : world := MkFp (pkt w) (ctx w) s q.

(** [rule_tree_match]: evaluates the tree of a node on the packet. *)
Variable match_ : P -> MpseMatch C U T N.

Fixpoint process_loop (l : list (Node U T N)) (p : P) (c : C) : bool * C :=
  match l with
  | [] => (false, c)
  | n :: l => let '(res, c) := call (match_ p) c n in if res >? 0 then (true, c) else process_loop l p c
  end.

Definition process (w : world) : bool * world :=
  let s := stash w in
  if negb (enable s) then (true, w)
  else
    let q := note_queue (pmqs w) (count s) (flushed s) in
    let '(r, c) := process_loop (queue s) (pkt w) (ctx w) in
    (r, MkFp (pkt w) c (MkStash (enable s) (flushed s) []) q).

Definition rule_tree_queue : MpseMatch world U T N := fun w user tree index list =>
  let '(full, s, q) := push (stash w) (pmqs w) (MkNode user tree index list) in
  let w := set_stash w s q in
  if full then let '(r, w) := process w in (if r then 1 else 0, w) else (0, w).

Context {M : Type} `{!Mpse M U T N}.

(** [omd->data = buf; omd->size = len], and the latency check of the packet. *)
Variable set_buffer : C -> list Z -> C.
Variable fastpath : C -> bool * C.

(** The call of [Mpse::search] counts the bytes. *)
Definition search_data (so : M) (w : world) (buf : list Z) (cnt : Z) : option (Z * world * Z) :=
  let cnt := u64 (cnt + 1) in
  let w := set_ctx w (set_buffer (ctx w) buf) in
  let w := set_stash w (init (stash w)) (add_bytes (pmqs w) (Zlen buf)) in
  match _search world rule_tree_queue so buf 0%nat w with
  | None => None
  | Some (_, _, w) =>
      let '(_, w) := process w in
      let '(slow, c) := fastpath (ctx w) in
      Some (if slow then 1 else 0, set_ctx w c, cnt)
  end.

(** ** What is evaluated

    [batch q l]: the nodes evaluated and left in the queue when [l] is queued
    behind [q]. *)
Definition queued (q : list (Node U T N)) (n : Node U T N) : bool := existsb (fun m => bool_decide (tree n = tree m)) q.

Fixpoint batch (q l : list (Node U T N)) : list (Node U T N) * list (Node U T N) :=
  match l with
  | [] => ([], q)
  | n :: l =>
      if queued q n then batch q l
      else if Zlen (q ++ [n]) =? max then let '(e, p) := batch [] l in (q ++ n :: e, p)
      else batch (q ++ [n]) l
  end.
Definition evals (l : list (Node U T N)) : list (Node U T N) := (batch [] l).1 ++ (batch [] l).2.

Definition eval_all (p : P) (c : C) (l : list (Node U T N)) : C := fold_left (fun c n => (call (match_ p) c n).2) l c.

Hypothesis match_continues : forall p c n, (call (match_ p) c n).1 <= 0.

Lemma queued_reverse q n : existsb (fun m => bool_decide (tree n = tree m)) (reverse q) = queued q n.
Proof.
  unfold queued. apply eq_true_iff_eq. rewrite !existsb_exists. by setoid_rewrite <- list_elem_of_In; setoid_rewrite elem_of_reverse.
Qed.

Lemma process_loop_all p l : forall c, process_loop l p c = (false, eval_all p c l).
Proof.
  induction l as [|n l IH]; intros c; simpl; [done|]. pose proof (match_continues p c n) as H.
  destruct (call (match_ p) c n) as [r c']. simpl in *. bcases; [lia|]. apply IH.
Qed.

Lemma process_all (w : world) : enable (stash w) = true ->
  process w = (false, MkFp (pkt w) (eval_all (pkt w) (ctx w) (queue (stash w))) (MkStash true (flushed (stash w)) [])
    (note_queue (pmqs w) (count (stash w)) (flushed (stash w)))).
Proof. intros H. unfold process. rewrite H. simpl. by rewrite process_loop_all. Qed.

(** A node is put in the queue, or the full queue is evaluated. *)
Lemma rule_tree_queue_spec (w : world) n : enable (stash w) = true -> count (stash w) < max ->
  exists s q, enable s = true /\
    call rule_tree_queue w n =
      if queued (queue (stash w)) n then (0, set_stash w (stash w) q)
      else if Zlen (queue (stash w) ++ [n]) =? max
        then (0, MkFp (pkt w) (eval_all (pkt w) (ctx w) (queue (stash w) ++ [n])) (MkStash true (flushed s) []) q)
        else (0, set_stash w (MkStash true (flushed (stash w)) (queue (stash w) ++ [n])) q).
Proof.
  intros He Hc. unfold call, rule_tree_queue. replace (MkNode (user n) (tree n) (index n) (neg n)) with n by (by destruct n).
  unfold push. rewrite queued_reverse. destruct (queued _ _); [by exists (stash w); eexists|].
  bcase (count (stash w) <? max) as E; [|lia]. unfold count in *. cbn [queue].
  destruct (Zlen (queue (stash w) ++ _) =? max).
  - rewrite process_all by done. cbn. exists (MkStash true (u32 (flushed (stash w) + 1)) []). by eexists.
  - exists (stash w). rewrite He. by eexists.
Qed.

Lemma deliver_batch l : forall (w : world) n, enable (stash w) = true -> count (stash w) < max ->
  exists f q, (deliver rule_tree_queue l n w).2 =
    MkFp (pkt w) (eval_all (pkt w) (ctx w) (batch (queue (stash w)) l).1)
      (MkStash true f (batch (queue (stash w)) l).2) q.
Proof.
  induction l as [|h l IH]; intros w n He Hc; simpl.
  - exists (flushed (stash w)), (pmqs w). destruct w as [p c [e f qu] q]. simpl in *. by subst.
  - destruct (rule_tree_queue_spec w h He Hc) as (s & q & Hs & ->). destruct (queued _ _); cbn [Z.gtb Z.compare].
    + apply (IH (set_stash w (stash w) q)); done.
    + bcase (Zlen (queue (stash w) ++ [h]) =? max) as E; cbn [Z.gtb Z.compare].
      * destruct (IH (MkFp (pkt w) (eval_all (pkt w) (ctx w) (queue (stash w) ++ [h])) (MkStash true (flushed s) []) q)
          (n + 1)) as (f & q' & ->); [done|done|]. cbn [stash queue pkt ctx].
        destruct (batch [] l) as [e p]. exists f, q'. cbn [fst snd]. unfold eval_all. rewrite !fold_left_app. done.
      * apply (IH (set_stash w (MkStash true (flushed (stash w)) (queue (stash w) ++ [h])) q)); [done|].
        unfold count, Zlen in *. cbn. rewrite length_app in E |- *. simpl in *. lia.
Qed.

Context `{!MpseLaws M U T N}.

(** A search evaluates the trees of its matches and leaves the stash empty. *)
Lemma search_data_spec so (w : world) buf cnt : mpse_ok so -> bytes buf -> Zlen buf <= mpse_max -> enable (stash w) = true ->
  exists r w', search_data so w buf cnt = Some (r, w', u64 (cnt + 1)) /\ pkt w' = pkt w /\
    enable (stash w') = true /\ queue (stash w') = [] /\
    ctx w' = (fastpath (eval_all (pkt w) (set_buffer (ctx w) buf) (evals (hits so buf)))).2.
Proof.
  intros Hso Hb Hl He. unfold search_data, init. cbn [stash set_ctx]. rewrite He.
  set (w1 := set_stash _ _ _). destruct (search_hits world rule_tree_queue so buf w1 Hso Hb Hl) as (s & ->).
  destruct (deliver_batch (hits so buf) w1 0) as (f & q & ->); [done|done|]. rewrite process_all by done.
  cbn [ctx pkt stash queue w1 set_stash set_ctx]. destruct (fastpath _) as [slow c] eqn:Ef. eexists _, _. split; [done|].
  cbn [ctx pkt stash queue set_ctx enable]. split_and!; try done. unfold evals, eval_all in *. by rewrite fold_left_app, Ef.
Qed.
End Stash.
Arguments MpseStash : clear implicits.
Arguments world : clear implicits.

(** ** The buffers of a packet *)

Inductive PmType := PM_TYPE_PKT | PM_TYPE_ALT | PM_TYPE_KEY | PM_TYPE_HEADER | PM_TYPE_BODY | PM_TYPE_FILE.
Inductive InspectionBuffer_Type := IBT_KEY | IBT_HEADER | IBT_BODY | IBT_FILE | IBT_ALT.

(** The counts of searches by kind of buffer. *)
Inductive peg := pkt_searches | cooked_searches | raw_searches | key_searches | header_searches | body_searches
  | alt_searches | file_searches.
#[export] Instance peg_eq : EqDecision peg.
Proof. solve_decision. Defined.
Definition set_peg (pc : peg -> Z) (k : peg) (v : Z) : peg -> Z := fun j => if decide (j = k) then v else pc j.

(** Of a packet, what the stage reads: its data (null or bytes), [dsize], the
    detection limit, [is_cooked], the file data of its context, and the buffers
    its inspector gives ([None]: no inspector). *)
Record Packet := MkPacket {
  data : option (list Z); dsize : Z; alt_dsize : Z; PKT_DETECT_LIMIT : bool; is_cooked : bool; file_data : list Z;
  gadget : option (InspectionBuffer_Type -> option (list Z)) }.

Definition get_detect_limit (p : Packet) : Z := if PKT_DETECT_LIMIT p then alt_dsize p else dsize p.

Section Search.
Context {U T N C M : Type} `{!EqDecision T} `{!Mpse M U T N}.
Variable match_ : Packet -> MpseMatch C U T N.
Variable set_buffer : C -> list Z -> C.
Variable fastpath : C -> bool * C.
(** [omd->pg], [omd->p] and [omd->check_ports]. *)
Variable set_group : C -> C.
Variable user_mode : bool.
Abbreviation world := (world U T N Packet C).
Abbreviation search_data := (search_data match_ set_buffer fastpath).

Definition search_buffer (g : InspectionBuffer_Type -> option (list Z)) (mpse : PmType -> option M)
    (ibt : InspectionBuffer_Type) (pmt : PmType) (cnt : peg) (w : world) (pc : peg -> Z) : option (Z * world * (peg -> Z)) :=
  match g ibt, mpse pmt with
  | Some buf, Some so =>
      '(_, w, n) ← search_data so w buf (pc cnt); Some (0, w, set_peg pc cnt n)
  | _, _ => Some (0, w, pc)
  end.

(** The raw packet. *)
Definition search_packet (mpse : PmType -> option M) (type : Z) (w : world) (pc : peg -> Z) : option (world * (peg -> Z)) :=
  match data (pkt w), mpse PM_TYPE_PKT with
  | Some d, Some so =>
      let size := get_detect_limit (pkt w) in
      if (negb user_mode || (type <? 2)) && truth (dsize (pkt w)) && truth size then
        '(_, w, n) ← search_data so w (take (Z.to_nat size) d) (pc pkt_searches);
        let pc := set_peg pc pkt_searches n in
        let k := if is_cooked (pkt w) then cooked_searches else raw_searches in
        Some (w, set_peg pc k (u64 (pc k + 1)))
      else Some (w, pc)
  | _, _ => Some (w, pc)
  end.

(** The buffers of the inspector, each with the matcher of its kind. *)
Definition service_buffers : list (InspectionBuffer_Type * PmType * peg) :=
  [(IBT_KEY, PM_TYPE_KEY, key_searches); (IBT_HEADER, PM_TYPE_HEADER, header_searches);
   (IBT_BODY, PM_TYPE_BODY, body_searches); (IBT_ALT, PM_TYPE_PKT, alt_searches)].

(** The calls of [search_buffer], until one returns other than 0. *)
Fixpoint search_services (g : InspectionBuffer_Type -> option (list Z)) (mpse : PmType -> option M)
    (l : list (InspectionBuffer_Type * PmType * peg)) (w : world) (pc : peg -> Z) : option (Z * world * (peg -> Z)) :=
  match l with
  | [] => Some (0, w, pc)
  | (ibt, pmt, cnt) :: l =>
      '(r, w, pc) ← search_buffer g mpse ibt pmt cnt w pc;
      if truth r then Some (1, w, pc) else search_services g mpse l w pc
  end.

Definition fp_search (mpse : PmType -> option M) (type : Z) (w : world) (pc : peg -> Z) : option (Z * world * (peg -> Z)) :=
  '(w, pc) ← search_packet mpse type (set_ctx w (set_group (ctx w))) pc;
  '(r, w, pc) ← match gadget (pkt w) with
                | Some g => if negb user_mode || (type =? 1) then search_services g mpse service_buffers w pc else Some (0, w, pc)
                | None => Some (0, w, pc)
                end;
  if truth r then Some (1, w, pc)
  else if negb user_mode || (type >? 0) then
    match mpse PM_TYPE_FILE, file_data (pkt w) with
    | Some so, _ :: _ =>
        '(_, w, n) ← search_data so w (file_data (pkt w)) (pc file_searches);
        Some (0, w, set_peg pc file_searches n)
    | _, _ => Some (0, w, pc)
    end
  else Some (0, w, pc).
End Search.

(** ** Which trees a list of matches evaluates *)

Section Evals.
Context {U T N : Type} `{!EqDecision T}.
Abbreviation node := (Node U T N).
Implicit Types q l e : list node.

Lemma queued_spec q n : queued q n = true <-> tree n ∈ map tree q.
Proof.
  unfold queued. rewrite existsb_exists, list_elem_of_In, in_map_iff.
  split; intros (m & H1 & H2); exists m; [|by rewrite bool_decide_eq_true]. by apply bool_decide_eq_true in H2.
Qed.

Lemma batch_sublist l : forall q, (batch q l).1 ++ (batch q l).2 `sublist_of` q ++ l.
Proof.
  induction l as [|n l IH]; intros q; simpl; [by rewrite app_nil_r|]. destruct (queued q n).
  - etrans; [apply IH|]. apply sublist_app; [done|by apply sublist_cons].
  - destruct (_ =? _); [|etrans; [apply IH|by rewrite <- app_assoc]].
    specialize (IH []). destruct (batch [] l) as [e p]. simpl in *. rewrite <- app_assoc. simpl.
    apply sublist_app; [done|]. by apply sublist_skip.
Qed.

Lemma batch_trees l : forall q t, t ∈ map tree ((batch q l).1 ++ (batch q l).2) <-> t ∈ map tree (q ++ l).
Proof.
  induction l as [|n l IH]; intros q t; simpl; [by rewrite app_nil_r|].
  destruct (queued q n) eqn:E; [|destruct (_ =? _)].
  - apply queued_spec in E. rewrite IH, !map_app. simpl. rewrite !elem_of_app, elem_of_cons. intuition (subst; auto).
  - specialize (IH [] t). destruct (batch [] l) as [e p]. simpl in *. rewrite !map_app in *. simpl in *.
    rewrite elem_of_app in IH. rewrite !elem_of_app, !elem_of_cons, <- IH. tauto.
  - by rewrite IH, <- app_assoc.
Qed.

(** Evaluation runs in rounds without a repeated tree, full but for the last. *)
Lemma batch_rounds l : forall q, NoDup (map tree q) -> Zlen q < max ->
  exists rounds, (batch q l).1 = concat rounds /\ Forall (fun r => NoDup (map tree r) /\ Zlen r = max) rounds /\
    NoDup (map tree (batch q l).2) /\ Zlen (batch q l).2 < max.
Proof.
  induction l as [|n l IH]; intros q Hq Hl; simpl; [by exists []|].
  destruct (queued q n) eqn:E; [by apply IH|].
  assert (NoDup (map tree (q ++ [n]))) as Hq'.
  { rewrite map_app. simpl. apply NoDup_app. split_and!; [done| |apply NoDup_singleton].
    intros t Ht ->%list_elem_of_singleton. apply queued_spec in Ht. congruence. }
  bcase (Zlen (q ++ [n]) =? max) as Em.
  - destruct (IH [] ltac:(constructor) ltac:(done)) as (rs & H1 & H2 & H3 & H4). destruct (batch [] l) as [e p]. simpl in *.
    exists ((q ++ [n]) :: rs). rewrite H1. simpl. rewrite <- app_assoc. split_and!; try done. by constructor.
  - apply IH; [done|]. unfold Zlen in *. rewrite length_app in *. simpl in *. lia.
Qed.

(** Fewer different trees than the stash has places are evaluated once each. *)
Lemma evals_once l (ts : list T) : (forall n, n ∈ l -> tree n ∈ ts) -> Zlen ts < max -> NoDup (map tree (evals l)).
Proof.
  intros Hts Hl. destruct (batch_rounds l [] ltac:(constructor) ltac:(done)) as (rs & H1 & H2 & H3 & _).
  unfold evals. pose proof (batch_trees l []) as Ht. rewrite H1 in *. destruct rs as [|r rs]; [done|]. exfalso.
  apply Forall_cons in H2 as [[Hr Hlen] _].
  assert (map tree r ⊆ ts) as Hsub.
  { intros t Hin. assert (t ∈ map tree l) as Hin'.
    { apply (Ht t). simpl. rewrite !map_app, !elem_of_app. by left; left. }
    apply list_elem_of_fmap in Hin' as (n & -> & Hn). by apply Hts. }
  pose proof (submseteq_length _ _ (NoDup_submseteq _ _ Hr Hsub)) as Hle. rewrite length_map in Hle. unfold Zlen in *. lia.
Qed.
End Evals.

(** ** Properties *)

Section Packets.
Context {U T N C M : Type} `{!EqDecision T} `{!Mpse M U T N} `{!MpseLaws M U T N}.
Variable match_ : Packet -> MpseMatch C U T N.
Variable set_buffer : C -> list Z -> C.
Variable fastpath : C -> bool * C.
Variable set_group : C -> C.
Variable user_mode : bool.
Hypothesis match_continues : forall p c n, (call (match_ p) c n).1 <= 0.
Abbreviation world := (world U T N Packet C).

(** The buffers that are searched, in order, each with its matcher. *)
Definition packet_section (mpse : PmType -> option M) (type : Z) (p : Packet) : list (M * list Z) :=
  match data p, mpse PM_TYPE_PKT with
  | Some d, Some so =>
      if (negb user_mode || (type <? 2)) && truth (dsize p) && truth (get_detect_limit p)
      then [(so, take (Z.to_nat (get_detect_limit p)) d)] else []
  | _, _ => []
  end.
Definition service_section (g : InspectionBuffer_Type -> option (list Z)) (mpse : PmType -> option M)
    (b : InspectionBuffer_Type * PmType * peg) : list (M * list Z) :=
  match g b.1.1, mpse b.1.2 with Some buf, Some so => [(so, buf)] | _, _ => [] end.
Definition service_sections (mpse : PmType -> option M) (type : Z) (p : Packet) : list (M * list Z) :=
  match gadget p with
  | Some g => if negb user_mode || (type =? 1) then flat_map (service_section g mpse) service_buffers else []
  | None => []
  end.
Definition file_section (mpse : PmType -> option M) (type : Z) (p : Packet) : list (M * list Z) :=
  match mpse PM_TYPE_FILE, file_data p with
  | Some so, _ :: _ => if negb user_mode || (type >? 0) then [(so, file_data p)] else []
  | _, _ => []
  end.
Definition sections (mpse : PmType -> option M) (type : Z) (p : Packet) : list (M * list Z) :=
  packet_section mpse type p ++ service_sections mpse type p ++ file_section mpse type p.

Definition section_ok (s : M * list Z) : Prop := mpse_ok s.1 /\ bytes s.2 /\ Zlen s.2 <= mpse_max.

(** The effect of one buffer: the trees of its matches are evaluated. *)
Definition evaluate (p : Packet) (c : C) (s : M * list Z) : C :=
  (fastpath (eval_all match_ p (set_buffer c s.2) (evals (hits s.1 s.2)))).2.

(** [w'] is [w] after the evaluation of the buffers [l]. *)
Definition searched (w : world) (l : list (M * list Z)) (w' : world) : Prop :=
  pkt w' = pkt w /\ enable (stash w') = true /\ ctx w' = fold_left (evaluate (pkt w)) l (ctx w).

Lemma searched_nil (w : world) : enable (stash w) = true -> searched w [] w.
Proof. done. Qed.
Lemma searched_trans (w w' w'' : world) l k : searched w l w' -> searched w' k w'' -> searched w (l ++ k) w''.
Proof.
  intros (P1 & _ & C1) (P2 & E2 & C2). split_and!; [congruence|done|]. by rewrite fold_left_app, C2, P1, C1.
Qed.
Lemma searched_one (w : world) s cnt : section_ok s -> enable (stash w) = true ->
  exists r w', search_data match_ set_buffer fastpath s.1 w s.2 cnt = Some (r, w', u64 (cnt + 1)) /\ searched w [s] w'.
Proof.
  intros (H1 & H2 & H3) He.
  destruct (search_data_spec match_ set_buffer fastpath match_continues s.1 w s.2 cnt H1 H2 H3 He)
    as (r & w' & E & Hp & He' & _ & Hc). exists r, w'. done.
Qed.

Lemma search_packet_spec mpse type (w : world) pc : Forall section_ok (packet_section mpse type (pkt w)) -> enable (stash w) = true ->
  exists w' pc', search_packet match_ set_buffer fastpath user_mode mpse type w pc = Some (w', pc') /\
    searched w (packet_section mpse type (pkt w)) w'.
Proof.
  unfold search_packet, packet_section. intros Hok He. destruct (data (pkt w)) as [d|]; [|by eexists _, _].
  destruct (mpse PM_TYPE_PKT) as [so|]; [|by eexists _, _]. cbv zeta. destruct (_ && _); [|by eexists _, _].
  apply Forall_cons in Hok as [Hok _]. destruct (searched_one w _ (pc pkt_searches) Hok He) as (r & w' & E & Hs).
  simpl in E. rewrite E. by eexists _, _.
Qed.

Lemma search_services_spec g mpse l : forall (w : world) pc, Forall section_ok (flat_map (service_section g mpse) l) ->
  enable (stash w) = true ->
  exists w' pc', search_services match_ set_buffer fastpath g mpse l w pc = Some (0, w', pc') /\
    searched w (flat_map (service_section g mpse) l) w'.
Proof.
  induction l as [|[[ibt pmt] cnt] l IH]; intros w pc Hok He; simpl; [by eexists _, _|].
  simpl in Hok. apply Forall_app in Hok as [Hok Hl]. unfold search_buffer, service_section in *. cbn [fst snd] in *.
  destruct (g ibt) as [buf|]; [|by apply IH]. destruct (mpse pmt) as [so|]; [|by apply IH].
  apply Forall_cons in Hok as [Hok _]. destruct (searched_one w _ (pc cnt) Hok He) as (r & w1 & E & Hs). simpl in E. rewrite E. simpl.
  destruct (IH w1 (set_peg pc cnt (u64 (pc cnt + 1))) Hl) as (w2 & pc2 & E2 & Hs2); [apply Hs|].
  exists w2, pc2. split; [done|]. by eapply (searched_trans w w1 w2 [_]).
Qed.

Lemma services_spec mpse type (w : world) pc : Forall section_ok (service_sections mpse type (pkt w)) -> enable (stash w) = true ->
  exists w' pc', match gadget (pkt w) with
    | Some g => if negb user_mode || (type =? 1) then search_services match_ set_buffer fastpath g mpse service_buffers w pc
                else Some (0, w, pc)
    | None => Some (0, w, pc)
    end = Some (0, w', pc') /\ searched w (service_sections mpse type (pkt w)) w'.
Proof.
  unfold service_sections. intros Hok He. destruct (gadget (pkt w)) as [g|]; [|by eexists _, _].
  destruct (_ || _); [|by eexists _, _]. by apply search_services_spec.
Qed.

Lemma file_spec mpse type (w : world) pc : Forall section_ok (file_section mpse type (pkt w)) -> enable (stash w) = true ->
  exists w' pc', (if negb user_mode || (type >? 0) then
    match mpse PM_TYPE_FILE, file_data (pkt w) with
    | Some so, _ :: _ =>
        '(_, w, n) ← search_data match_ set_buffer fastpath so w (file_data (pkt w)) (pc file_searches);
        Some (0, w, set_peg pc file_searches n)
    | _, _ => Some (0, w, pc)
    end
  else Some (0, w, pc)) = Some (0, w', pc') /\ searched w (file_section mpse type (pkt w)) w'.
Proof.
  unfold file_section. intros Hok He. destruct (mpse PM_TYPE_FILE) as [so|]; [|exists w, pc; by destruct (_ || _)].
  destruct (file_data (pkt w)) as [|b d]; [exists w, pc; by destruct (_ || _)|]. destruct (_ || _); [|by eexists _, _].
  apply Forall_cons in Hok as [Hok _]. destruct (searched_one w _ (pc file_searches) Hok He) as (r & w' & E & Hs).
  cbn [fst snd] in E. rewrite E. by eexists _, _.
Qed.

Lemma fp_search_run mpse type (w : world) pc : enable (stash w) = true -> Forall section_ok (sections mpse type (pkt w)) ->
  exists w' pc', fp_search match_ set_buffer fastpath set_group user_mode mpse type w pc = Some (0, w', pc') /\
    searched (set_ctx w (set_group (ctx w))) (sections mpse type (pkt w)) w'.
Proof.
  intros He [Hok1 [Hok2 Hok3]%Forall_app]%Forall_app. unfold fp_search.
  destruct (search_packet_spec mpse type (set_ctx w (set_group (ctx w))) pc Hok1 He) as (w1 & pc1 & -> & Hs1).
  pose proof Hs1 as (Hp1 & He1 & _). cbn [pkt set_ctx] in Hp1. cbn [mbind option_bind].
  rewrite <- Hp1 in Hok2. destruct (services_spec mpse type w1 pc1 Hok2 He1) as (w2 & pc2 & -> & Hs2).
  pose proof Hs2 as (Hp2 & He2 & _). cbn [mbind option_bind]. change (truth 0) with false. cbv iota.
  rewrite <- Hp1, <- Hp2 in Hok3. destruct (file_spec mpse type w2 pc2 Hok3 He2) as (w3 & pc3 & -> & Hs3).
  exists w3, pc3. split; [done|]. rewrite Hp2, Hp1 in Hs3. rewrite Hp1 in Hs2. unfold sections.
  eapply searched_trans; [exact Hs1|]. by eapply searched_trans.
Qed.

(** C18. The fast pattern stage returns and evaluates exactly what it should:
    for every buffer the packet has - its data up to the detection limit, the
    inspector's buffers, the file data - with a matcher in the group, in this
    order, the trees of the matches in the buffer.  Every tree that a match
    names is evaluated and no other; the evaluations keep the order of the
    matches; they run in rounds, all but the last of 32, and no tree is
    evaluated twice in a round - so never twice when fewer than 32 different
    trees match.  The result is always 0. *)
Theorem fp_search_evaluates mpse type (w : world) pc :
  enable (stash w) = true -> Forall section_ok (sections mpse type (pkt w)) ->
  exists w' pc',
    fp_search match_ set_buffer fastpath set_group user_mode mpse type w pc = Some (0, w', pc') /\
    pkt w' = pkt w /\
    ctx w' = fold_left (evaluate (pkt w)) (sections mpse type (pkt w)) (set_group (ctx w)) /\
    Forall (fun s => let ms := hits s.1 s.2 in
      evals ms `sublist_of` ms /\
      (forall t, t ∈ map tree (evals ms) <-> t ∈ map tree ms) /\
      (exists rounds last, evals ms = concat rounds ++ last /\ Forall (fun r => NoDup (map tree r) /\ Zlen r = 32) rounds /\
        NoDup (map tree last) /\ Zlen last < 32) /\
      (forall ts, (forall n, n ∈ ms -> tree n ∈ ts) -> Zlen ts < 32 -> NoDup (map tree (evals ms)))) (sections mpse type (pkt w)).
Proof.
  intros He Hok. destruct (fp_search_run mpse type w pc He Hok) as (w' & pc' & E & Hp & _ & Hc).
  exists w', pc'. split_and!; [done|done|done|]. apply Forall_forall. intros s _ ms. split_and!.
  - apply (batch_sublist ms []).
  - apply (batch_trees ms []).
  - destruct (batch_rounds ms [] ltac:(constructor) ltac:(done)) as (rs & E1 & H). exists rs, (batch [] ms).2.
    unfold evals. by rewrite E1.
  - intros ts. apply evals_once.
Qed.
End Packets.

(** The automaton's nodes are those of the patterns that end at each position. *)
Lemma ac_hits_ref {U T N : Type} (agent : option (MpseAgent (U := U))) (nt : T) (nl : N) l a :
  Forall (fun '(pat, _, _, _) => bytes pat) l -> Forall (fun '(pat, _, _, _) => pat <> []) l ->
  acsmCompile agent (add_patterns nt nl l) = Some a ->
  exists M : list Z -> list ACSM_PATTERN,
    (forall x, M x ≡ₚ ending (acsmPatterns (add_patterns nt nl l)) x) /\
    forall Tx, bytes Tx -> Zlen Tx <= Tc_size ->
      hits a Tx = ref_hits agent nt nl M (users (add_patterns nt nl l)) (ConvertCaseEx Tx).
Proof.
  intros Hb Hne E. destruct (acsm_search_run agent nt nl l Hb Hne) as (a' & M & rep & E' & H0 & HM & Hs).
  rewrite E in E'. injection E' as <-. exists M. split; [done|]. intros Tx HT Hlen.
  specialize (Hs _ record_ 0%nat [] Tx [] H0 HT Hlen).
  pose proof (ref_search_record agent nt nl M (users (add_patterns nt nl l)) (ConvertCaseEx Tx) [] 0 0 []) as Hr.
  destruct (ref_search _ _ _ _ _ _ _ _ _ _ _) as [[n x'] c']. destruct Hs as (s' & Hs & _).
  unfold acsmSearch in Hs. destruct (_ >? _); [done|].
  destruct (search_text _ _ _ _ _ _ _) as [[[n1 s1] c1]|] eqn:Et; [|done]. injection Hs as -> -> ->.
  apply search_text_hits in Et. pose proof (deliver_record (ac_hits a 0 (ConvertCaseEx Tx) 0) 0 []) as Hd.
  rewrite Et in Hd. simpl in Hd, Hr.
  change (hits a Tx) with (ac_hits a 0 (ConvertCaseEx Tx) 0). by rewrite <- Hd, Hr.
Qed.

Lemma ref_hits_trees {U T N : Type} agent (nt : T) (nl : N) (M : list Z -> list ACSM_PATTERN) (us : list (ACSM_USERDATA (U := U))) text t :
  t ∈ map tree (ref_hits agent nt nl M us text) <->
  exists x y, text = x ++ y /\ x <> [] /\ M x <> [] /\ t = tree_of agent nt us (M x).
Proof.
  unfold ref_hits. rewrite list_elem_of_In, in_map_iff. setoid_rewrite <- list_elem_of_In. setoid_rewrite list_elem_of_omap. split.
  - intros (n & <- & i & Hi%elem_of_seq & E). exists (take (S i) text), (drop (S i) text). rewrite take_drop. split; [done|].
    split; [intros Hx%(f_equal length); rewrite length_take in Hx; destruct (length text); [lia|done]|].
    destruct (M (take (S i) text)) as [|p k]; [done|]. by injection E as <-.
  - intros (x & y & -> & Hx & HM & ->). destruct (M x) as [|p k] eqn:E; [done|].
    eexists. split; [|exists (length x - 1)%nat; split].
    2:{ apply elem_of_seq. destruct x; [done|]. rewrite length_app. simpl. lia. }
    2:{ replace (S (length x - 1)) with (length x) by (destruct x; [done|simpl; lia]). by rewrite take_app_length, E. }
    done.
Qed.

(** The fast pattern stage with the Aho-Corasick matcher misses nothing: in
    a buffer searched with patterns compiled by an agent, the trees evaluated are
    exactly those the agent builds from the patterns that end, in upper case, at
    some position of the buffer. *)
Theorem ac_trees_evaluated {U T N P C : Type} `{!EqDecision T} (match_ : P -> MpseMatch C U T N) set_buffer fastpath
    agent (nt : T) (nl : N) l a (w : world U T N P C) buf cnt :
  (forall p c n, (call (match_ p) c n).1 <= 0) ->
  Forall (fun '(pat, _, _, _) => bytes pat) l -> Forall (fun '(pat, _, _, _) => pat <> []) l ->
  acsmCompile agent (add_patterns nt nl l) = Some a ->
  bytes buf -> Zlen buf <= 65536 -> enable (stash w) = true ->
  exists r w' (M : list Z -> list ACSM_PATTERN) es,
    search_data match_ set_buffer fastpath a w buf cnt = Some (r, w', u64 (cnt + 1)) /\
    ctx w' = (fastpath (eval_all match_ (pkt w) (set_buffer (ctx w) buf) es)).2 /\
    (forall x, M x ≡ₚ ending (acsmPatterns (add_patterns nt nl l)) x) /\
    forall t, t ∈ map tree es <-> exists x y, ConvertCaseEx buf = x ++ y /\ x <> [] /\ M x <> [] /\
      t = tree_of agent nt (users (add_patterns nt nl l)) (M x).
Proof.
  intros Hm Hb Hne E HT Hlen He.
  assert (ac_ok a) as Hok by (by exists agent, nt, nl, l).
  destruct (search_data_spec (MpseLaws0 := AcMpse_laws) match_ set_buffer fastpath Hm a w buf cnt Hok HT Hlen He) as (r & w' & Es & _ & _ & _ & Hc).
  destruct (ac_hits_ref agent nt nl l a Hb Hne E) as (M & HM & Hh).
  exists r, w', M, (evals (hits a buf)). split_and!; [done|done|done|]. intros t.
  etrans; [apply (batch_trees (hits a buf) [] t)|]. rewrite app_nil_l, (Hh buf HT Hlen). apply ref_hits_trees.
Qed.

(** ** A packet searched with the patterns he, she, his and hers *)

Definition demo_compiled : ACSM_STRUCT (U := Z) (T := list Z) (N := list Z) :=
  default acsmNew (acsmCompile (Some demo_agent) demo_acsm).

(** The context records the trees evaluated. *)
Definition demo_eval (p : Packet) (c : list (list Z)) (u : option Z) (t : list Z) (i : Z) (n : list Z) : Z * list (list Z) :=
  (0, c ++ [t]).

(** "ushers he" with the file data "his". *)
Definition demo_packet : Packet :=
  MkPacket (Some [117; 115; 104; 101; 114; 115; 32; 104; 101]) 9 0 false false [104; 105; 115] None.
Definition demo_mpse (t : PmType) : option (ACSM_STRUCT (U := Z) (T := list Z) (N := list Z)) :=
  match t with PM_TYPE_PKT | PM_TYPE_FILE => Some demo_compiled | _ => None end.
Definition demo_world : world Z (list Z) (list Z) Packet (list (list Z)) :=
  MkFp demo_packet [] (MkStash true 0 []) (MkPmqs 0 0 0 0 0 0 0).
Definition demo_fp_search :=
  fp_search demo_eval (fun c _ => c) (fun c => (false, c)) (fun c => c) false demo_mpse 0 demo_world (fun _ => 0).

(** she and he, hers, he; then his. *)
Example demo_fp_search_trees : (fun r => ctx r.1.2) <$> demo_fp_search = Some [[1; 2]; [4]; [1]; [3]].
Proof. vm_compute. reflexivity. Qed.

Lemma demo_compiled_eq : acsmCompile (Some demo_agent) (add_patterns [] [] demo_patterns) = Some demo_compiled.
Proof. vm_compute. reflexivity. Qed.

Lemma demo_patterns_ok : Forall (fun '(pat, _, _, _) => bytes pat) demo_patterns /\ Forall (fun '(pat, _, _, _) => pat <> []) demo_patterns.
Proof. split; repeat constructor; done || mlia. Qed.

Lemma demo_sections_ok : Forall section_ok (sections false demo_mpse 0 demo_packet).
Proof.
  assert (ac_ok demo_compiled) as Hok.
  { exists (Some demo_agent), [], [], demo_patterns. destruct demo_patterns_ok. split_and!; [done|done|apply demo_compiled_eq]. }
  repeat constructor; try exact Hok; try mlia; vm_compute; discriminate.
Qed.

Lemma fp_search_evaluates_witness :
  exists w' pc', demo_fp_search = Some (0, w', pc') /\ pkt w' = demo_packet /\
    ctx w' = fold_left (evaluate demo_eval (fun c _ => c) (fun c => (false, c)) demo_packet) (sections false demo_mpse 0 demo_packet) [].
Proof.
  destruct (fp_search_evaluates demo_eval (fun c _ => c) (fun c => (false, c)) (fun c => c) false
    (fun p c n => Z.le_refl 0) demo_mpse 0 demo_world (fun _ => 0) eq_refl demo_sections_ok) as (w' & pc' & E & Hp & Hc & _).
  exists w', pc'. split; [exact E|]. split; [exact Hp|exact Hc].
Defined.

Lemma ac_trees_evaluated_witness :
  exists r w' (M : list Z -> list (ACSM_PATTERN (T := list Z) (N := list Z))) (es : list (Node Z (list Z) (list Z))),
    search_data demo_eval (fun c _ => c) (fun c => (false, c)) demo_compiled demo_world [115; 104; 101] 7 = Some (r, w', 8) /\
    ctx w' = eval_all demo_eval demo_packet [] es.
Proof.
  destruct demo_patterns_ok as [Hb Hne].
  destruct (ac_trees_evaluated demo_eval (fun c _ => c) (fun c => (false, c)) (Some demo_agent) [] [] demo_patterns
    demo_compiled demo_world [115; 104; 101] 7 (fun p c n => Z.le_refl 0) Hb Hne demo_compiled_eq) as (r & w' & M & es & E & Hc & _).
  - repeat constructor; mlia.
  - vm_compute. discriminate.
  - reflexivity.
  - exists r, w', M, es. split; [exact E|exact Hc].
Defined.
