(* ===== verification/FpSelect.v ===== *)
(** * FpSelect: the fast pattern of a rule (detection/fp_utils.cc,
    detection/fp_create.cc, detection/pattern_match_data.h, detection/fp_config.cc)

    Which content of a rule goes into the pattern matcher of a port group, which
    bytes of it, and which contents are left to the matcher alone.  Content
    options are not shared between rules, so that their data are kept in the
    option list of the rule. *)

From S2P Require Import Prelude BoyerMoore Cursor Extract ParseUtils Content.

(** ** Data *)

Inductive CursorActionType := CAT_NONE | CAT_ADJUST | CAT_SET_OTHER | CAT_SET_RAW | CAT_SET_FILE | CAT_SET_BODY | CAT_SET_HEADER | CAT_SET_KEY.
Definition cat_num (c : CursorActionType) : Z :=
  match c with
  | CAT_NONE => 0 | CAT_ADJUST => 1 | CAT_SET_OTHER => 2 | CAT_SET_RAW => 3
  | CAT_SET_FILE => 4 | CAT_SET_BODY => 5 | CAT_SET_HEADER => 6 | CAT_SET_KEY => 7
  end.

#[export] Instance CursorActionType_eq_dec : EqDecision CursorActionType.
Proof. solve_decision. Defined.

Inductive PmType := PM_TYPE_PKT | PM_TYPE_ALT | PM_TYPE_KEY | PM_TYPE_HEADER | PM_TYPE_BODY | PM_TYPE_FILE | PM_TYPE_MAX.

(** The fields of [PatternMatchData] that the content option does not use. *)
Record Pmd := MkFpPmd { base : PatternMatchData; fp_only : Z; pm_type : PmType }.
Definition set_fp_only (p : Pmd) (n : Z) : Pmd := MkFpPmd (base p) n (pm_type p).
Definition clear_fast_pattern (p : Pmd) : Pmd :=
  let b := base p in
  MkFpPmd (MkPmd (pattern_buf b) (pattern_size b) (offset b) (depth b) (Z.ldiff (flags b) FAST_PAT) (fp_offset b) (fp_length b)) (fp_only p) (pm_type p).

(** [OptFpList]: [has_opt] is false in the leaf; [pattern]: what [get_pattern]
    returns, [alternate]: what [get_alternate_pattern] returns. *)
Record OptFp := MkOpt { has_opt : bool; cursor_type : CursorActionType; fp_research : bool; is_rel : bool; pattern : option Pmd; alternate : option Pmd }.
Definition set_pattern (o : OptFp) (p : Pmd) : OptFp :=
  MkOpt (has_opt o) (cursor_type o) (fp_research o) (is_rel o) (Some p) (alternate o).

(** ** Selection *)

Definition pmd_can_be_fp (p : Pmd) (cat : CursorActionType) (only_literals : bool) : bool :=
  if cat_num cat <=? cat_num CAT_SET_OTHER then false
  else if only_literals && negb (is_literal (base p)) then false
  else can_be_fp (base p).

Definition get_pm_type (cat : CursorActionType) : PmType :=
  match cat with
  | CAT_SET_RAW | CAT_SET_OTHER => PM_TYPE_PKT
  | CAT_SET_BODY => PM_TYPE_BODY
  | CAT_SET_HEADER => PM_TYPE_HEADER
  | CAT_SET_KEY => PM_TYPE_KEY
  | CAT_SET_FILE => PM_TYPE_FILE
  | _ => PM_TYPE_MAX
  end.

(** The pattern without leading zero bytes, and its length. *)
Fixpoint strip_zeros (p : list Z) : list Z := match p with [] => [] | c :: r => if c =? 0 then strip_zeros r else p end.
Definition flp_trim (p : list Z) : Z * list Z := (Zlen (strip_zeros p), strip_zeros p).

(** [at_]: the place of the option in the rule. *)
Record FpSelector := MkSel { cat : CursorActionType; sel : Pmd; size : Z; at_ : nat }.
Definition new_selector (c : CursorActionType) (p : Pmd) (i : nat) : FpSelector :=
  MkSel c p (flp_trim (pattern_buf (base p))).1 i.

(** The answer and the pattern data afterwards. *)
Definition is_better_than (l : FpSelector) (rhs : option FpSelector) (only_literals : bool) : bool * Pmd :=
  let p := sel l in
  if negb (pmd_can_be_fp p (cat l) only_literals) then
    (false, if is_fast_pattern (base p) then clear_fast_pattern p else p)
  else
    match rhs with
    | None => (true, p)
    | Some r =>
        if is_fast_pattern (base p) then
          if is_fast_pattern (base (sel r)) then (false, clear_fast_pattern p) else (true, p)
        else if is_fast_pattern (base (sel r)) then (false, p)
        else if negb (is_negated (base p)) && is_negated (base (sel r)) then (true, p)
        else (size l >? size r, p)
    end.

(** The loop of [get_fp_content] over the options from place [i] on. *)
Fixpoint fp_loop (only_literals : bool) (l : list OptFp) (i : nat) (curr_cat : CursorActionType) (fo : bool) (best : option FpSelector) :
  list OptFp * option FpSelector :=
  match l with
  | [] => ([], best)
  | o :: l =>
      if negb (has_opt o) then
        let '(l, best) := fp_loop only_literals l (S i) curr_cat fo best in (o :: l, best)
      else
        let '(curr_cat, fo) := if cat_num (cursor_type o) >? cat_num CAT_ADJUST then (cursor_type o, negb (fp_research o)) else (curr_cat, fo) in
        match pattern o with
        | None => let '(l, best) := fp_loop only_literals l (S i) curr_cat fo best in (o :: l, best)
        | Some tmp =>
            let tmp := MkFpPmd (base tmp) (if fo then fp_only tmp else -1) (get_pm_type curr_cat) in
            let '(better, tmp) := is_better_than (new_selector curr_cat tmp i) best only_literals in
            let best := if better then Some (new_selector curr_cat tmp i) else best in
            let '(l, best) := fp_loop only_literals l (S i) curr_cat fo best in (set_pattern o tmp :: l, best)
        end
  end.

(** The options afterwards, the selected content and the alternate pattern of
    its option, and whether the rule is to be left out. *)
Record fp_content := MkFpContent { options : list OptFp; chosen : option FpSelector; chosen_alt : option Pmd; exclude : bool }.

Definition get_fp_content (l : list OptFp) (srvc only_literals : bool) (num_services : Z) (file_rule : bool) : fp_content :=
  let '(l, best) := fp_loop only_literals l 0 CAT_SET_RAW true None in
  match best with
  | None => MkFpContent l None None false
  | Some b =>
      let excl := negb (bool_decide (cat b = CAT_SET_RAW)) && negb srvc && (num_services >? 0) in
      if excl || (file_rule && negb (bool_decide (cat b = CAT_SET_FILE))) then MkFpContent l None None excl
      else MkFpContent l (Some b) (o ← l !! at_ b; alternate o) excl
  end.

(** ** The bytes of the fast pattern *)

(** [trim] and [max_pattern_len] of the configuration. *)
Record FastPatternConfig := MkFp { trim : bool; max_pattern_len : Z }.
Definition set_max (fp : FastPatternConfig) (bytes : Z) : Z :=
  if negb (max_pattern_len fp =? 0) && (bytes >? max_pattern_len fp) then max_pattern_len fp else bytes.

(** The place in the pattern and the number of bytes. *)
Definition fpGetFinalPattern (fp : FastPatternConfig) (p : Pmd) : Z * Z :=
  let b := base p in
  let bytes := pattern_size b in
  if (fp_only p >? 0) || is_negated b || negb (is_literal b) then (0, bytes)
  else
    let '(start, bytes) :=
      if is_fast_pattern b && (truth (fp_offset b) || truth (fp_length b)) then
        (fp_offset b, if truth (fp_length b) then fp_length b else pattern_size b - fp_length b)
      else if trim fp then
        let '(n, _) := flp_trim (pattern_buf b) in
        if n <? pattern_size b then if n =? 0 then (0, pattern_size b) else (pattern_size b - n, n) else (0, n)
      else (0, bytes) in
    (start, set_max fp bytes).

(** [None] when bytes behind the pattern are read. *)
Definition final_bytes (fp : FastPatternConfig) (p : Pmd) : option (list Z) :=
  let '(start, bytes) := fpGetFinalPattern fp p in
  if (0 <=? start) && (0 <=? bytes) && (start + bytes <=? Zlen (pattern_buf (base p))) then Some (slice (pattern_buf (base p)) start bytes) else None.

(** ** Adding a rule to a port group *)

(** A pattern of a matcher: its place and number of bytes in the pattern data,
    and the rule. *)
Record mpse_pattern := MkPattern { pat_pmd : Pmd; pat_bytes : Z * Z; pat_rule : Z }.
(** The patterns of the matchers, in the matcher of the type of their data; the
    rules that are always evaluated; the number of rules. *)
Record fp_group := MkPG { mpse : list mpse_pattern; nfp : list Z; pg_rule_count : Z }.

Definition add_nfp_rule (pg : fp_group) (r : Z) : fp_group := MkPG (mpse pg) (nfp pg ++ [r]) (pg_rule_count pg + 1).
Definition add_rule (pg : fp_group) : fp_group := MkPG (mpse pg) (nfp pg) (pg_rule_count pg + 1).
Definition add_pattern (pg : fp_group) (x : mpse_pattern) : fp_group := MkPG (mpse pg ++ [x]) (nfp pg) (pg_rule_count pg).

(** With a matcher, which exists or can be created. *)
Definition fpFinishPortGroupRule (fp : FastPatternConfig) (pg : fp_group) (r : Z) (p : option Pmd) : fp_group :=
  match p with
  | None => add_nfp_rule pg r
  | Some p => add_pattern (if is_negated (base p) then add_nfp_rule pg r else add_rule pg) (MkPattern p (fpGetFinalPattern fp p) r)
  end.

Definition fpAddAlternatePatterns (pg : fp_group) (r : Z) (p : Pmd) : fp_group := add_pattern pg (MkPattern p (0, pattern_size (base p)) r).

(** The content need not be evaluated again. *)
Definition only_fast (p : Pmd) (next : option OptFp) : bool :=
  negb (is_relative (base p)) && negb (is_negated (base p)) && (fp_only p >=? 0) &&
  (offset (base p) =? 0) && (depth (base p) =? 0) && is_no_case (base p) &&
  match next with None => true | Some o => negb (has_opt o) || negb (is_rel o) end.

(** What the function needs of a rule; [srvc]: for a service group. *)
Record fp_rule := MkFpRule { rule_options : list OptFp; builtin : bool; enabled : bool; num_services : Z; file_rule : bool; rule_id : Z }.

(** The options of the rule and the group. *)
Definition fpAddPortGroupRule (fp : FastPatternConfig) (only_literals srvc : bool) (r : fp_rule) (pg : fp_group) : list OptFp * fp_group :=
  if builtin r then (rule_options r, pg)
  else if negb (enabled r) then (rule_options r, pg)
  else
    let c := get_fp_content (rule_options r) srvc only_literals (num_services r) (file_rule r) in
    match chosen c with
    | Some b =>
        let main := if only_fast (sel b) (options c !! S (at_ b)) then set_fp_only (sel b) 1 else sel b in
        let l := alter (fun o => set_pattern o main) (at_ b) (options c) in
        let pg := fpFinishPortGroupRule fp pg (rule_id r) (Some main) in
        (l, match chosen_alt c with None => pg | Some a => fpAddAlternatePatterns pg (rule_id r) a end)
    | None => (options c, if exclude c then pg else fpFinishPortGroupRule fp pg (rule_id r) None)
    end.

(** [is_fast_pattern_only]: the options that are left out of the tree of the
    rule. *)
Definition is_fast_pattern_only (o : OptFp) : bool := match pattern o with None => false | Some p => fp_only p >? 0 end.

(** ** What is selected *)

Section Selection.
Variable only_literals : bool.

(** The contents that can be fast patterns, in order. *)
Fixpoint candidates (l : list OptFp) (i : nat) (curr_cat : CursorActionType) (fo : bool) : list FpSelector :=
  match l with
  | [] => []
  | o :: l =>
      if negb (has_opt o) then candidates l (S i) curr_cat fo
      else
        let '(curr_cat, fo) := if cat_num (cursor_type o) >? cat_num CAT_ADJUST then (cursor_type o, negb (fp_research o)) else (curr_cat, fo) in
        match pattern o with
        | None => candidates l (S i) curr_cat fo
        | Some p =>
            let p := MkFpPmd (base p) (if fo then fp_only p else -1) (get_pm_type curr_cat) in
            (if pmd_can_be_fp p curr_cat only_literals then [new_selector curr_cat p i] else []) ++ candidates l (S i) curr_cat fo
        end
  end.

Definition fast (c : FpSelector) : bool := is_fast_pattern (base (sel c)).
Definition negative (c : FpSelector) : bool := is_negated (base (sel c)).

(** Whether a candidate replaces the one that was found before. *)
Definition beats (c : FpSelector) (r : option FpSelector) : bool :=
  match r with
  | None => true
  | Some r => if fast c then negb (fast r) else if fast r then false else if negb (negative c) && negative r then true else size c >? size r
  end.
Definition choose (l : list FpSelector) (r : option FpSelector) : option FpSelector :=
  fold_left (fun r c => if beats c r then Some c else r) l r.

Lemma fp_loop_best l : forall i cc fo best, (fp_loop only_literals l i cc fo best).2 = choose (candidates l i cc fo) best.
Proof.
  induction l as [|o l IH]; intros i cc fo best; cbn [fp_loop candidates]; [done|]. destruct (negb (has_opt o)).
  { specialize (IH (S i) cc fo best). by destruct (fp_loop _ _ _ _ _ _). }
  destruct (if _ >? _ then _ else _) as [cc' fo']. destruct (pattern o) as [p|].
  2:{ specialize (IH (S i) cc' fo' best). by destruct (fp_loop _ _ _ _ _ _). }
  set (q := MkFpPmd _ _ _). unfold is_better_than. cbn [cat sel new_selector]. destruct (pmd_can_be_fp q cc' only_literals); cbn [negb app].
  - assert (forall x, (fp_loop only_literals l (S i) cc' fo' x).2 = choose (candidates l (S i) cc' fo') x) as Hx by (intros; apply IH). clear IH.
    unfold choose. cbn [fold_left]. fold (choose (candidates l (S i) cc' fo')). unfold beats, fast, negative. cbn [sel new_selector].
    destruct best as [r|]; [|rewrite <- Hx; by destruct (fp_loop _ _ _ _ _ _)].
    destruct (is_fast_pattern (base q)), (is_fast_pattern (base (sel r))); cbn [negb];
      [| | |destruct (negb (is_negated (base q)) && is_negated (base (sel r))); [|change (size (MkSel cc' q (flp_trim (pattern_buf (base q))).1 i)) with (flp_trim (pattern_buf (base q))).1; destruct (_ >? _)]];
      rewrite <- Hx; by destruct (fp_loop _ _ _ _ _ _).
  - rewrite <- IH. by destruct (fp_loop _ _ _ _ _ _).
Qed.

Lemma choose_app l k r : choose (l ++ k) r = choose k (choose l r).
Proof. unfold choose. by rewrite fold_left_app. Qed.

(** The first of the contents that are marked. *)
Lemma choose_fast pre b post r : Forall (fun c => fast c = false) pre -> fast b = true -> from_option fast false r = false -> choose (pre ++ b :: post) r = Some b.
Proof.
  intros Hpre Hb Hr. rewrite choose_app. assert (from_option fast false (choose pre r) = false) as Hr'.
  { clear Hb post b. revert r Hr. induction Hpre as [|c pre Hc _ IH]; intros r Hr; [done|]. unfold choose. cbn [fold_left]. apply IH. by destruct (beats c r). }
  change (choose (b :: post) (choose pre r)) with (choose post (if beats b (choose pre r) then Some b else choose pre r)).
  assert (beats b (choose pre r) = true) as ->.
  { unfold beats. destruct (choose pre r) as [x|]; [|done]. rewrite Hb. cbn in Hr'. by rewrite Hr'. }
  clear -Hb. induction post as [|c post IH]; [done|]. unfold choose. cbn [fold_left]. unfold beats at 2. rewrite Hb.
  destruct (fast c); cbn [negb]; apply IH.
Qed.

(** The first of the longest ones. *)
Lemma choose_longest l : Forall (fun c => fast c = false /\ negative c = false) l -> forall b0, fast b0 = false -> negative b0 = false ->
  exists pre b post, b0 :: l = pre ++ b :: post /\ choose l (Some b0) = Some b /\ Forall (fun c => size c < size b) pre /\ Forall (fun c => size c <= size b) post.
Proof.
  induction 1 as [|c l [Hc Hn] _ IH]; intros b0 H0 Hn0; [exists [], b0, []; split_and!; try done; constructor|].
  change (choose (c :: l) (Some b0)) with (choose l (if beats c (Some b0) then Some c else Some b0)).
  unfold beats. rewrite Hc, H0, Hn, Hn0. cbn [negb andb]. bcase (size c >? size b0) as E.
  - destruct (IH c Hc Hn) as (pre & b & post & El & Hb & H1 & H2). exists (b0 :: pre), b, post. split_and!; [cbn; by rewrite El|done| |done].
    constructor; [|done]. destruct pre as [|x pre]; injection El as -> _; [lia|]. inversion_clear H1. lia.
  - destruct (IH b0 H0 Hn0) as (pre & b & post & El & Hb & H1 & H2). destruct pre as [|x pre]; injection El as -> ->.
    + exists [], b, (c :: post). split_and!; try done. constructor; [lia|done].
    + exists (x :: c :: pre), b, post. split_and!; try done. inversion_clear H1. constructor; [done|]. constructor; [lia|done].
Qed.

Lemma choose_in l : forall r b, choose l r = Some b -> b ∈ l \/ r = Some b.
Proof.
  induction l as [|c l IH]; intros r b; [by right|]. change (choose (c :: l) r) with (choose l (if beats c r then Some c else r)).
  intros [Hin|Hr]%IH; [left; by right|]. destruct (beats c r); [injection Hr as ->; left; by left|by right].
Qed.

Lemma choose_some l c : choose (c :: l) None <> None.
Proof.
  change (choose (c :: l) None) with (choose l (Some c)). clear. revert c. induction l as [|d l IH]; intros c; [done|].
  change (choose (d :: l) (Some c)) with (choose l (if beats d (Some c) then Some d else Some c)). by destruct (beats d (Some c)).
Qed.
Lemma candidates_ok l : forall i cc fo, Forall (fun c => pmd_can_be_fp (sel c) (cat c) only_literals = true) (candidates l i cc fo).
Proof.
  induction l as [|o l IH]; intros i cc fo; cbn [candidates]; [constructor|]. destruct (negb (has_opt o)); [apply IH|].
  destruct (if _ >? _ then _ else _) as [cc' fo']. destruct (pattern o) as [p|]; [|apply IH]. destruct (pmd_can_be_fp _ _ _) eqn:E; [|apply IH].
  constructor; [exact E|apply IH].
Qed.

(** The first element that satisfies a test. *)
Lemma split_first (f : FpSelector -> bool) l : existsb f l = true -> exists pre b post, l = pre ++ b :: post /\ f b = true /\ Forall (fun x => f x = false) pre.
Proof.
  induction l as [|x l IH]; [done|]. cbn. destruct (f x) eqn:E; [intros _; exists [], x, l; split_and!; try done; constructor|].
  intros (pre & b & post & -> & Hb & Hp)%IH. exists (x :: pre), b, post. split_and!; try done. by constructor.
Qed.

Lemma existsb_false (f : FpSelector -> bool) l : existsb f l = false -> Forall (fun x => f x = false) l.
Proof. induction l as [|x l IH]; cbn; [constructor|]. intros [? ?]%orb_false_iff. constructor; auto. Qed.

Lemma choose_spec l b : choose l None = Some b -> exists pre post, l = pre ++ b :: post /\
  (existsb fast l = true -> fast b = true /\ Forall (fun x => fast x = false) pre) /\
  (existsb fast l = false -> existsb negative l = false -> Forall (fun x => size x < size b) pre /\ Forall (fun x => size x <= size b) post).
Proof.
  intros Hc. destruct (existsb fast l) eqn:Ef.
  - destruct (split_first fast l Ef) as (pre & b' & post & -> & Hb & Hp). rewrite choose_fast in Hc by done. injection Hc as ->.
    exists pre, post. by split_and!.
  - destruct (existsb negative l) eqn:En.
    + destruct (choose_in _ _ _ Hc) as [Hin|]; [|done]. apply list_elem_of_split in Hin as (pre & post & ->). by exists pre, post.
    + destruct l as [|c l]; [done|]. pose proof (existsb_false _ _ Ef) as F1. pose proof (existsb_false _ _ En) as F2.
      inversion_clear F1 as [|? ? C1 L1]. inversion_clear F2 as [|? ? C2 L2].
      destruct (choose_longest l) with (b0 := c) as (pre & b' & post & El & Hb & H1 & H2); [|done|done|].
      { rewrite Forall_forall in *. auto. }
      change (choose (c :: l) None) with (choose l (Some c)) in Hc. rewrite Hb in Hc. injection Hc as ->. exists pre, post. by split_and!.
Qed.
End Selection.


(** ** What the bytes mean *)

Record pmd_ok (p : Pmd) : Prop := {
  po_size : pattern_size (base p) = Zlen (pattern_buf (base p));
  po_nonempty : pattern_buf (base p) <> [];
  po_offset : 0 <= fp_offset (base p);
  po_length : 0 <= fp_length (base p);
  po_within : fp_offset (base p) + fp_length (base p) <= pattern_size (base p) }.

Lemma strip_zeros_length l : Zlen (strip_zeros l) <= Zlen l.
Proof. induction l as [|c l IH]; cbn [strip_zeros]; [done|]. rewrite Zlen_cons. bcases; rewrite ?Zlen_cons; lia. Qed.

Lemma set_max_range fp n : 0 <= max_pattern_len fp -> 0 < n -> 0 < set_max fp n <= n.
Proof. unfold set_max. intros. bcases; lia. Qed.

(** The bytes are a part of the pattern, and the whole pattern where the content
    is not evaluated again or negated. *)
Lemma final_spec fp p : pmd_ok p -> 0 <= max_pattern_len fp -> (fp_length (base p) = 0 -> fp_offset (base p) = 0) ->
  let '(start, n) := fpGetFinalPattern fp p in
  0 <= start /\ 0 < n /\ start + n <= Zlen (pattern_buf (base p)) /\
  ((fp_only p >? 0) || is_negated (base p) = true -> start = 0 /\ n = Zlen (pattern_buf (base p))).
Proof.
  intros [Hs Hne Ho Hl Hw] Hm Hb. unfold fpGetFinalPattern. pose proof (set_max_range fp) as Hmax.
  assert (0 < Zlen (pattern_buf (base p))) as Hp by (destruct (pattern_buf (base p)); [done|rewrite Zlen_cons; pose proof (Zlen_nonneg l); lia]).
  rewrite Hs in *. destruct ((fp_only p >? 0) || is_negated (base p)) eqn:E; cbn [orb]; [split_and!; try done; lia|].
  destruct (negb (is_literal (base p))); [split_and!; try done; lia|]. unfold truth. destruct (is_fast_pattern (base p) && _) eqn:Ef.
  - apply andb_prop in Ef as [_ Ef]. destruct (Z.eqb_spec (fp_length (base p)) 0) as [El|El]; cbn [negb] in *.
    + rewrite (Hb El) in Ef. done.
    + cbn [negb]. specialize (Hmax (fp_length (base p)) Hm ltac:(lia)). split_and!; try done; lia.
  - destruct (trim fp); [|specialize (Hmax (Zlen (pattern_buf (base p))) Hm Hp); split_and!; try done; lia].
    unfold flp_trim. pose proof (strip_zeros_length (pattern_buf (base p))) as Hz. pose proof (Zlen_nonneg (strip_zeros (pattern_buf (base p)))).
    bcase (Zlen (strip_zeros (pattern_buf (base p))) <? Zlen (pattern_buf (base p))) as E1; [bcase (Zlen (strip_zeros (pattern_buf (base p))) =? 0) as E2|].
    + specialize (Hmax (Zlen (pattern_buf (base p))) Hm Hp). split_and!; try done; lia.
    + specialize (Hmax (Zlen (strip_zeros (pattern_buf (base p)))) Hm ltac:(lia)). split_and!; try done; lia.
    + specialize (Hmax (Zlen (strip_zeros (pattern_buf (base p)))) Hm ltac:(lia)). split_and!; try done; lia.
Qed.

Lemma occurs_part norm buf blen ptrn r start n : occurs norm buf blen ptrn r -> 0 <= start -> 0 <= n -> start + n <= Zlen ptrn ->
  occurs norm buf blen (slice ptrn start n) (r + start).
Proof.
  intros (H0 & Hlen & Hj) Hs Hn Hle. unfold occurs. rewrite Zlen_slice by lia. split_and!; [lia|lia|]. intros j Hjn. unfold rd0 at 2.
  rewrite rd_slice by lia. fold (rd0 ptrn (start + j)). rewrite <- Hj by lia. f_equal. f_equal. lia.
Qed.

Section Meaning.
Variable v : ips_vars.
Variable cd : ContentData.
Variable c : Cursor.
Hypothesis cd_ok : content_ok cd.
Hypothesis c_wf : cursor_wf c.
Hypothesis sizes : small cd c.

(** The pattern occurs in the buffer. *)
Definition found_in (pat : list Z) : Prop := exists k, occurs (norm_of cd) (data c) (sz c) pat k.

Lemma window_occurs p d r : search_window v cd c = (p, d) -> occurs (norm_of cd) (drop (Z.to_nat p) (data c)) d (pattern_buf (pmd cd)) r ->
  occurs (norm_of cd) (data c) (sz c) (pattern_buf (pmd cd)) (p + r).
Proof.
  intros Hw (H0 & Hlen & Hj). destruct (search_window_spec v cd c p d c_wf (proj1 sizes) Hw) as (Hp & Hd & _).
  split_and!; [lia|lia|]. intros j Hjn. rewrite <- Hj by done. f_equal. unfold rd0, rd. bcases; try lia. rewrite lookup_drop. do 2 f_equal. lia.
Qed.

(** A content that matches occurs in the buffer. *)
Lemma match_found c' : is_negated (pmd cd) = false -> CheckANDPatternMatch v cd c = Some (MATCH, c') -> found_in (pattern_buf (pmd cd)).
Proof.
  intros Hn. unfold CheckANDPatternMatch. destruct (search_window v cd c) as [p d] eqn:Hw.
  destruct (uniSearchReal_eq v cd c p d cd_ok c_wf sizes Hw) as (r & Hf & ->). rewrite Hn. cbn [andb orb]. bcase (r >=? 0) as E.
  - intros _. destruct Hf as [[-> _]|[Ho _]]; [lia|]. exists (p + r). by apply (window_occurs p d).
  - destruct (_ || _); done.
Qed.

(** A content without restrictions searches the whole buffer. *)
Lemma whole_window : offset_var cd = IPS_OPTIONS_NO_VAR -> depth_var cd = IPS_OPTIONS_NO_VAR -> offset (pmd cd) = 0 -> depth (pmd cd) = 0 ->
  is_relative (pmd cd) = false -> delta c = 0 -> search_window v cd c = (0, sz c).
Proof.
  intros Ho Hd Ho0 Hd0 Hr Hdel. unfold search_window, var_or. rewrite Ho, Hd, Ho0, Hd0, Hr, Hdel. cbn.
  pose proof (wf_sz _ c_wf). destruct sizes as [Hs _]. f_equal. rewrite Z.sub_0_r. apply s32_of_u32. unfold is_s32. lia.
Qed.

Lemma whole_search : offset_var cd = IPS_OPTIONS_NO_VAR -> depth_var cd = IPS_OPTIONS_NO_VAR -> offset (pmd cd) = 0 -> depth (pmd cd) = 0 ->
  is_relative (pmd cd) = false -> delta c = 0 -> found_in (pattern_buf (pmd cd)) ->
  exists c', CheckANDPatternMatch v cd c = Some (if is_negated (pmd cd) then NO_MATCH else MATCH, c').
Proof.
  intros Ho Hd Ho0 Hd0 Hr Hdel (k & Hk). pose proof (whole_window Ho Hd Ho0 Hd0 Hr Hdel) as Hw. unfold CheckANDPatternMatch.
  destruct (uniSearchReal_eq v cd c 0 (sz c) cd_ok c_wf sizes Hw) as (r & Hf & ->).
  destruct Hf as [[_ Hno]|[(Hr0 & _) _]]; [by destruct (Hno k)|]. bcase (r >=? 0) as E; [|lia].
  eexists. cbn. by destruct (is_negated (pmd cd)).
Qed.
End Meaning.

(** No offset or depth from a variable. *)
Definition no_vars (cd : ContentData) : Prop := offset_var cd = IPS_OPTIONS_NO_VAR /\ depth_var cd = IPS_OPTIONS_NO_VAR.

(** C25.  What the pattern matcher searches stands for the content it was taken
    from, unless [fast_pattern_offset] is used without [fast_pattern_length]: the
    bytes lie within the pattern, and if the content matches anywhere in a buffer,
    the bytes are found in the buffer, so that no rule is missed.  For a content
    without variables in offset and depth, evaluated for the first time in the
    buffer ([delta] 0): if it is left to the matcher (it is not evaluated again),
    it matches whenever the bytes are found; if it is negated, it does not match
    when they are found.  ([offset_without_length] and [variable_offset_ignored]
    show what goes wrong in the cases left out.) *)
Theorem fast_pattern_faithful fp v cd c p next : content_ok cd -> cursor_wf c -> small cd c -> base p = pmd cd -> pmd_ok p -> 0 <= max_pattern_len fp ->
  (fp_length (base p) = 0 -> fp_offset (base p) = 0) ->
  exists pat, final_bytes fp p = Some pat /\ pat <> [] /\
    (is_negated (pmd cd) = false -> forall c', CheckANDPatternMatch v cd c = Some (MATCH, c') -> found_in cd c pat) /\
    (no_vars cd -> delta c = 0 -> only_fast p next = true -> fp_only p > 0 -> found_in cd c pat ->
      exists c', CheckANDPatternMatch v cd c = Some (MATCH, c')) /\
    (no_vars cd -> delta c = 0 -> is_negated (pmd cd) = true -> can_be_fp (pmd cd) = true -> found_in cd c pat ->
      exists c', CheckANDPatternMatch v cd c = Some (NO_MATCH, c')).
Proof.
  intros Hcd Hc Hsm Hb Hp Hm Hlen. pose proof (final_spec fp p Hp Hm Hlen) as Hf. unfold final_bytes. destruct (fpGetFinalPattern fp p) as [start n].
  destruct Hf as (F1 & F2 & F3 & F4). bcase ((0 <=? start) && (0 <=? n) && (start + n <=? Zlen (pattern_buf (base p)))) as E; [|lia].
  rewrite Hb in *. exists (slice (pattern_buf (pmd cd)) start n). split; [done|].
  assert (forall x : list Z, slice x 0 (Zlen x) = x) as Hall.
  { intros x. unfold slice, Zlen. cbn. rewrite Nat2Z.id. apply firstn_all. }
  split; [|split; [|split]].
  - intros E. assert (Zlen (slice (pattern_buf (pmd cd)) start n) = n) as Hn by (apply Zlen_slice; lia). rewrite E, Zlen_nil in Hn. lia.
  - intros Hneg c' Hmt. destruct (match_found v cd c Hcd Hc Hsm c' Hneg Hmt) as [k Hk]. exists (k + start). apply occurs_part; [done|lia..].
  - intros [Hv1 Hv2] Hd Hof Hfo Hin. destruct F4 as [-> ->]; [apply orb_true_iff; left; lia|]. rewrite Hall in Hin.
    unfold only_fast in Hof. rewrite Hb in Hof. breflect. destruct (whole_search v cd c Hcd Hc Hsm Hv1 Hv2) as [c' Hc']; try (done || lia).
    exists c'. rewrite Hc'. destruct (is_negated (pmd cd)); done.
  - intros [Hv1 Hv2] Hd Hneg Hcan Hin. destruct F4 as [-> ->]; [rewrite Hneg; apply orb_true_r|]. rewrite Hall in Hin.
    unfold can_be_fp in Hcan. destruct (_ || _); [done|]. destruct (truth _); [done|]. rewrite Hneg in Hcan. cbn [negb] in Hcan.
    destruct (is_relative (pmd cd) || negb (is_no_case (pmd cd)) || truth (offset (pmd cd)) || truth (depth (pmd cd))) eqn:E; [done|].
    apply orb_false_iff in E as [E E4]. apply orb_false_iff in E as [E E3]. apply orb_false_iff in E as [E1 E2]. unfold truth in E3, E4. breflect.
    destruct (whole_search v cd c Hcd Hc Hsm Hv1 Hv2) as [c' Hc']; try (done || lia). exists c'. by rewrite Hc', Hneg.
Qed.

(** The nocase content "ab", alone in its rule, on "xAbaB". *)
Definition demo_pmd : Pmd := MkFpPmd (pmd demo_cd) 1 PM_TYPE_PKT.

Lemma fast_pattern_faithful_witness :
  exists pat, final_bytes (MkFp true 0) demo_pmd = Some pat /\ pat = [65; 66] /\
    exists c', CheckANDPatternMatch demo_vars demo_cd demo_cursor = Some (MATCH, c').
Proof.
  destruct (fast_pattern_faithful (MkFp true 0) demo_vars demo_cd demo_cursor demo_pmd None demo_cd_ok demo_cursor_wf) as (pat & E & _ & _ & H & _).
  - vm_compute. repeat split; congruence.
  - reflexivity.
  - split; vm_compute; congruence.
  - vm_compute. congruence.
  - reflexivity.
  - exists pat. vm_compute in E. injection E as <-. split; [reflexivity|]. split; [reflexivity|]. apply H; try reflexivity; [by split|].
    exists 1. split; [lia|]. split; [vm_compute; congruence|]. intros j Hj. change (Zlen [65; 66]) with 2 in Hj.
    assert (j = 0 \/ j = 1) as [-> | ->] by lia; reflexivity.
Defined.

(** ** Adding rules *)

(** A rule that is enabled has a pattern in a matcher or is always evaluated,
    unless it is left to its service group. *)
Lemma rule_in_group fp ol srvc r pg : builtin r = false -> enabled r = true ->
  let c := get_fp_content (rule_options r) srvc ol (num_services r) (file_rule r) in
  let pg' := (fpAddPortGroupRule fp ol srvc r pg).2 in
  match chosen c with
  | None => exclude c = true /\ pg' = pg \/ rule_id r ∈ nfp pg'
  | Some b => exists x, x ∈ mpse pg' /\ pat_rule x = rule_id r /\ pat_bytes x = fpGetFinalPattern fp (pat_pmd x) /\ base (pat_pmd x) = base (sel b) /\
      (is_negated (base (sel b)) = true -> rule_id r ∈ nfp pg')
  end.
Proof.
  intros Hb He. cbv zeta. unfold fpAddPortGroupRule. rewrite Hb, He. cbn [negb].
  destruct (get_fp_content _ _ _ _ _) as [l [b|] alt ex]; cbn [chosen options chosen_alt exclude snd].
  - set (main := if only_fast _ _ then _ else _). assert (base main = base (sel b)) as Hm by (unfold main; by destruct (only_fast _ _)).
    exists (MkPattern main (fpGetFinalPattern fp main) (rule_id r)). unfold fpFinishPortGroupRule. rewrite Hm.
    split; [|split; [done|split; [done|split; [done|]]]].
    + destruct alt; cbn; set_solver.
    + intros ->. destruct alt; cbn; set_solver.
  - destruct ex; [by left|right]. cbn. set_solver.
Qed.

(** ** Corner cases *)

(** With [fast_pattern_offset] and no [fast_pattern_length] the bytes reach as
    far behind the pattern as they start after its beginning. *)
Example offset_without_length : exists cd, content_module demo_vars
    [MkValue "~data" 0 (print_pattern false [Text [97; 98; 99; 100]]) None; MkValue "fast_pattern_offset" 2 [] None] = Some cd /\
  fpGetFinalPattern (MkFp false 0) (MkFpPmd (pmd cd) 0 PM_TYPE_PKT) = (2, 4) /\ final_bytes (MkFp false 0) (MkFpPmd (pmd cd) 0 PM_TYPE_PKT) = None.
Proof. eexists. split; [vm_compute; reflexivity|]. by vm_compute. Qed.

(** A content with the offset in a variable counts as one without offset and is
    left to the matcher, although it does not match: "ab" is not found from
    offset 3 on. *)
Definition var_vars : ips_vars := IpsVars ["len"; ""; ""]%string [3; 0; 0] 1.
Example variable_offset_ignored : exists cd c', content_module var_vars
    [MkValue "~data" 0 (print_pattern false [Text [97; 98]]) None; MkValue "nocase" 0 [] None; MkValue "offset" 0 [108; 101; 110] None] = Some cd /\
  only_fast (MkFpPmd (pmd cd) 0 PM_TYPE_PKT) None = true /\
  CheckANDPatternMatch var_vars cd (cursor_set "pkt_data" [97; 98; 120; 120; 120] 5) = Some (NO_MATCH, c').
Proof. eexists _, _. split; [vm_compute; reflexivity|]. split; vm_compute; reflexivity. Qed.

(** Of a content and a longer negated one, the one that comes later is selected. *)
Definition demo_option (neg : bool) (pat : list Z) : OptFp :=
  MkOpt true CAT_NONE false false (Some (MkFpPmd (MkPmd pat (Zlen pat) 0 0 (if neg then 11 else 8) 0 0) 0 PM_TYPE_PKT)) None.
Example negated_by_order :
  from_option negative false (chosen (get_fp_content [demo_option false [97; 98]; demo_option true [99; 100; 101]] false true 0 false)) = true /\
  from_option negative true (chosen (get_fp_content [demo_option true [99; 100; 101]; demo_option false [97; 98]] false true 0 false)) = false.
Proof. by vm_compute. Qed.
