(* ===== verification/Checksum.v ===== *)
(** * Checksum: the internet checksum

    codecs/ip/checksum.h, with which the codecs check and fill in the headers
    they decode and encode.  A buffer is a list of bytes at an address that is
    even or not; a 16-bit word is loaded in the byte order of the host. *)

From S2P Require Import Prelude.

(** The [i]th word at [sp], where [sp] counts words. *)
Definition word (buf : list Z) (sp i : Z) : option Z :=
  b0 ← rd buf (2 * (sp + i)); b1 ← rd buf (2 * (sp + i) + 1); Some (b0 + 256 * b1).

(** ** The sum *)

(** [while ( len > 1 )] of the aligned case; the fuel is the number of words. *)
Fixpoint add_words (fuel : nat) (buf : list Z) (sp len cksum : Z) : option (Z * Z * Z) :=
  if len >? 1 then
    match fuel with
    | O => None
    | S fuel => w ← word buf sp 0; add_words fuel buf (sp + 1) (len - 2) (u32 (cksum + w))
    end
  else Some (sp, len, cksum).

(** The switch: case [k] adds [sp[k-1]] and falls through to case [k-1]. *)
Fixpoint fall_through (k : nat) (buf : list Z) (sp cksum : Z) : option Z :=
  match k with
  | O => Some cksum
  | S k => w ← word buf sp (Z.of_nat k); fall_through k buf sp (u32 (cksum + w))
  end.

(** The sixteen additions of the loop body, from [sp[i]] on. *)
Fixpoint unrolled (k : nat) (i : Z) (buf : list Z) (sp cksum : Z) : option Z :=
  match k with
  | O => Some cksum
  | S k => w ← word buf sp i; unrolled k (i + 1) buf sp (u32 (cksum + w))
  end.

(** [while (--n > 0)], with [k = n - 1] rounds left. *)
Fixpoint duff (k : nat) (buf : list Z) (sp cksum : Z) : option (Z * Z) :=
  match k with
  | O => Some (sp, cksum)
  | S k => cksum ← unrolled 16 0 buf sp cksum; duff k buf (sp + 16) cksum
  end.

(** The two additions that bring the carries back, and the complement. *)
Definition fold_carries (cksum : Z) : Z :=
  let cksum := u32 (Z.shiftr cksum 16 + Z.land cksum 65535) in
  let cksum := u32 (cksum + Z.shiftr cksum 16) in
  u16 (Z.lnot cksum).

Definition cksum_add (aligned : bool) (buf : list Z) (len cksum : Z) : option Z :=
  cksum ← (if aligned then
             '(sp, len, cksum) ← add_words (length buf) buf 0 len cksum;
             if truth len then b ← rd buf (2 * sp); Some (u32 (cksum + b)) else Some cksum
           else if len >? 1 then
             let sn := Z.land (len / 2) 15 in
             let n := (len / 2 + 15) / 16 in
             let sn := if sn =? 0 then 16 else sn in
             cksum ← fall_through (Z.to_nat sn) buf 0 cksum;
             '(sp, cksum) ← duff (Z.to_nat (n - 1)) buf sn cksum;
             if truth (Z.land len 1) then b ← rd buf (2 * sp); Some (u32 (cksum + b)) else Some cksum
           else Some cksum);
  Some (fold_carries cksum).

(** ** Headers and pseudo headers *)

Record Pseudoheader := MkPh { sip : Z; dip : Z; zero : Z; protocol : Z; ph_len : Z }.
Record Pseudoheader6 := MkPh6 { sip6 : list Z; dip6 : list Z; zero6 : Z; protocol6 : Z; ph_len6 : Z }.

(** The words of the structures in memory. *)
Definition halves (x : Z) : list Z := [Z.land x 65535; Z.shiftr x 16].
Definition ph4_arr (ph : Pseudoheader) : list Z :=
  halves (sip ph) ++ halves (dip ph) ++ [zero ph + 256 * protocol ph; ph_len ph].
Definition ph6_arr (ph : Pseudoheader6) : list Z :=
  flat_map halves (sip6 ph) ++ flat_map halves (dip6 ph) ++ [zero6 ph + 256 * protocol6 ph; ph_len6 ph].

Definition add_list (l : list Z) (cksum : Z) : Z := fold_left (fun c w => u32 (c + w)) l cksum.
Definition add_ipv4_pseudoheader (ph : Pseudoheader) (cksum : Z) : Z := add_list (take 6 (ph4_arr ph)) cksum.
Definition add_ipv6_pseudoheader (ph : Pseudoheader6) (cksum : Z) : Z := add_list (take 18 (ph6_arr ph)) cksum.

(** A header of [k] words: the buffer behind it, the remaining length and the sum. *)
Definition add_header (k : nat) (d : list Z) (len cksum : Z) : option (list Z * Z * Z) :=
  cksum ← unrolled k 0 d 0 cksum; Some (drop (2 * k) d, u64 (len - 2 * Z.of_nat k), cksum).
Definition add_tcp_header := add_header 10.
Definition add_udp_header := add_header 4.
Definition add_ip_header := add_header 10.

Definition icmp_cksum6 (al : bool) (buf : list Z) (len : Z) (ph : Pseudoheader6) : option Z :=
  cksum_add al buf len (add_ipv6_pseudoheader ph 0).
Definition icmp_cksum (al : bool) (buf : list Z) (len : Z) : option Z := cksum_add al buf len 0.
Definition tcp_cksum (al : bool) (h : list Z) (len : Z) (ph : Pseudoheader) : option Z :=
  '(h, len, cksum) ← add_tcp_header h len (add_ipv4_pseudoheader ph 0); cksum_add al h len cksum.
Definition tcp_cksum6 (al : bool) (h : list Z) (len : Z) (ph : Pseudoheader6) : option Z :=
  '(h, len, cksum) ← add_tcp_header h len (add_ipv6_pseudoheader ph 0); cksum_add al h len cksum.
Definition udp_cksum (al : bool) (h : list Z) (len : Z) (ph : Pseudoheader) : option Z :=
  '(h, len, cksum) ← add_udp_header h len (add_ipv4_pseudoheader ph 0); cksum_add al h len cksum.
Definition udp_cksum6 (al : bool) (h : list Z) (len : Z) (ph : Pseudoheader6) : option Z :=
  '(h, len, cksum) ← add_udp_header h len (add_ipv6_pseudoheader ph 0); cksum_add al h len cksum.
Definition ip_cksum (al : bool) (buf : list Z) (len : Z) : option Z :=
  '(d, len, cksum) ← add_ip_header buf len 0; cksum_add al d len cksum.

(** ** Reference: RFC 1071 *)

(** The words of a byte string; an odd byte is padded with zero. *)
Fixpoint words (l : list Z) : list Z :=
  match l with
  | a :: b :: l => a + 256 * b :: words l
  | [a] => [a]
  | [] => []
  end.

(** Addition with end-around carry, and the complement of the sum. *)
Definition oc_add (a b : Z) : Z := (a + b) mod 65536 + (a + b) / 65536.
Definition rfc1071 (ws : list Z) : Z := 65535 - fold_left oc_add ws 0.

(** The one's complement sum has the residue of the plain sum, and is 0 only
    for 0. *)
Definition oc (s : Z) : Z := if s =? 0 then 0 else (s - 1) mod 65535 + 1.
Definition sum (ws : list Z) : Z := fold_right Z.add 0 ws.

Lemma oc_add_oc s w : 0 <= s -> is_u16 w -> oc_add (oc s) w = oc (s + w).
Proof. unfold oc_add, oc, is_u16. intros Hs Hw. bcases; mlia. Qed.

Lemma fold_oc ws : forall s, 0 <= s -> Forall is_u16 ws -> fold_left oc_add ws (oc s) = oc (s + sum ws).
Proof.
  induction ws as [|w ws IH]; intros s Hs Hw; simpl; [by rewrite Z.add_0_r|].
  apply Forall_cons in Hw as [Hw Hws]. rewrite oc_add_oc by done. rewrite IH; [by rewrite Z.add_assoc|unfold is_u16 in Hw; lia|done].
Qed.

Lemma rfc1071_sum ws : Forall is_u16 ws -> rfc1071 ws = 65535 - oc (sum ws).
Proof. intros H. unfold rfc1071. change 0 with (oc 0) at 1. by rewrite fold_oc. Qed.

Lemma fold_carries_oc s : is_u32 s -> fold_carries s = 65535 - oc s.
Proof.
  unfold is_u32, fold_carries. intros Hs. rewrite !Z.shiftr_div_pow2 by lia.
  replace (Z.land s 65535) with (s mod 65536) by (change 65535 with (Z.ones 16); by rewrite Z.land_ones by lia).
  change (2 ^ 16) with 65536. set (t := s / 65536 + s mod 65536).
  assert (0 <= t <= 131070) as Ht by (unfold t; mlia). rewrite (u32_small t) by mlia.
  assert (0 <= t + t / 65536 < 131072) as Ht' by mlia. rewrite u32_small by mlia.
  assert (oc s = (t + t / 65536) mod 65536) as ->; [|unfold u16, Z.lnot; mlia].
  unfold oc, t in *. bcases; mlia.
Qed.

Lemma sum_app l k : sum (l ++ k) = sum l + sum k.
Proof. induction l as [|x l IH]; simpl; [done|]. rewrite IH. lia. Qed.
Lemma sum_range ws : Forall is_u16 ws -> 0 <= sum ws <= 65535 * Zlen ws.
Proof.
  induction 1 as [|w ws Hw _ IH]; simpl; [done|]. rewrite Zlen_cons. unfold is_u16 in Hw. lia.
Qed.

(** Induction two bytes at a time. *)
Lemma pairs_ind (Q : list Z -> Prop) : Q [] -> (forall a, Q [a]) -> (forall a b l, Q l -> Q (a :: b :: l)) -> forall l, Q l.
Proof.
  intros H0 H1 H2 l. assert (Q l /\ forall a, Q (a :: l)) as [? _]; [|done].
  induction l as [|b l [IH IH']]; [done|]. split; [apply IH'|]. intros a. by apply H2.
Qed.

Lemma words_u16 l : bytes l -> Forall is_u16 (words l).
Proof.
  induction l as [|a|a b l IH] using pairs_ind; simpl; intros H; [constructor| |].
  - apply Forall_cons in H as [Ha _]. constructor; [mlia|constructor].
  - apply Forall_cons in H as [Ha [Hb Hl]%Forall_cons]. constructor; [mlia|by apply IH].
Qed.
Lemma words_app l k : Nat.Even (length l) -> words (l ++ k) = words l ++ words k.
Proof.
  induction l as [|a|a b l IH] using pairs_ind; simpl; intros [n H]; [done|lia|].
  rewrite IH; [done|]. exists (n - 1)%nat. lia.
Qed.
Lemma Zlen_words l : Zlen (words l) = (Zlen l + 1) / 2.
Proof.
  induction l as [|a|a b l IH] using pairs_ind; [done|done|]. cbn [words]. rewrite !Zlen_cons, IH. mlia.
Qed.

(** ** The loops compute the sum of the words *)

Section Loops.
Variable buf : list Z.
Hypothesis Hbuf : bytes buf.

Definition wat (i : Z) : Z := rd0 buf (2 * i) + 256 * rd0 buf (2 * i + 1).
Fixpoint wsum (sp : Z) (k : nat) : Z :=
  match k with O => 0 | S k => wat sp + wsum (sp + 1) k end.

Lemma wat_range i : is_u16 (wat i).
Proof. unfold wat. pose proof (bytes_rd0 buf (2 * i) Hbuf). pose proof (bytes_rd0 buf (2 * i + 1) Hbuf). mlia. Qed.
Lemma wsum_nonneg k : forall sp, 0 <= wsum sp k.
Proof. induction k as [|k IH]; intros sp; simpl; [lia|]. pose proof (wat_range sp). specialize (IH (sp + 1)). mlia. Qed.
Lemma wsum_app j : forall sp k, wsum sp (j + k) = wsum sp j + wsum (sp + Z.of_nat j) k.
Proof.
  induction j as [|j IH]; intros sp k; simpl; [by rewrite Z.add_0_r|]. rewrite IH.
  replace (sp + 1 + Z.of_nat j) with (sp + Z.of_nat (S j)) by lia. cbn [wsum]. lia.
Qed.
Lemma word_eq sp i : 0 <= sp + i -> 2 * (sp + i) + 1 < Zlen buf -> word buf sp i = Some (wat (sp + i)).
Proof. intros. unfold word, wat. by rewrite !rd_rd0 by lia. Qed.

Lemma add_words_spec fuel : forall sp len c, 0 <= sp -> 0 <= len -> 2 * sp + len <= Zlen buf -> len / 2 <= Z.of_nat fuel ->
  0 <= c -> c + wsum sp (Z.to_nat (len / 2)) < 2 ^ 32 ->
  add_words fuel buf sp len c = Some (sp + len / 2, len mod 2, c + wsum sp (Z.to_nat (len / 2))).
Proof.
  induction fuel as [|fuel IH]; intros sp len c Hsp Hlen Hb Hf Hc Hs; simpl; bcase (len >? 1) as E; try (exfalso; mlia).
  2: rewrite word_eq by lia; simpl; pose proof (wat_range (sp + 0)) as Hw; rewrite Z.add_0_r in *;
     replace (Z.to_nat (len / 2)) with (S (Z.to_nat ((len - 2) / 2))) in * by mlia; cbn [wsum] in *;
     pose proof (wsum_nonneg (Z.to_nat ((len - 2) / 2)) (sp + 1));
     rewrite u32_small by mlia; rewrite IH by (lia || mlia); f_equal; f_equal; [f_equal|]; mlia.
  all: replace (Z.to_nat (len / 2)) with 0%nat by mlia; cbn [wsum]; f_equal; f_equal; [f_equal|]; mlia.
Qed.

Lemma fall_through_spec k : forall c, 2 * Z.of_nat k <= Zlen buf -> 0 <= c -> c + wsum 0 k < 2 ^ 32 ->
  fall_through k buf 0 c = Some (c + wsum 0 k).
Proof.
  induction k as [|k IH]; intros c Hb Hc Hs; [simpl; f_equal; lia|].
  replace (S k) with (k + 1)%nat in Hs |- * by lia. rewrite (wsum_app k 0 1) in *. replace (k + 1)%nat with (S k) by lia.
  cbn [fall_through wsum] in *. rewrite word_eq by lia. rewrite !Z.add_0_l in *. cbn [mbind option_bind]. pose proof (wat_range (Z.of_nat k)). pose proof (wsum_nonneg k 0).
  rewrite u32_small by mlia. rewrite IH; [f_equal; lia|lia|mlia|lia].
Qed.

Lemma unrolled_spec k : forall i sp c, 0 <= sp + i -> 2 * (sp + i + Z.of_nat k) <= Zlen buf -> 0 <= c -> c + wsum (sp + i) k < 2 ^ 32 ->
  unrolled k i buf sp c = Some (c + wsum (sp + i) k).
Proof.
  induction k as [|k IH]; intros i sp c Hi Hb Hc Hs; cbn [unrolled wsum] in *; [f_equal; lia|].
  rewrite word_eq by lia. simpl. pose proof (wat_range (sp + i)). pose proof (wsum_nonneg k (sp + i + 1)).
  rewrite u32_small by mlia. rewrite IH; replace (sp + (i + 1)) with (sp + i + 1) by lia; [f_equal; lia|lia|lia|mlia|lia].
Qed.

Lemma duff_spec k : forall sp c, 0 <= sp -> 2 * (sp + 16 * Z.of_nat k) <= Zlen buf -> 0 <= c -> c + wsum sp (16 * k) < 2 ^ 32 ->
  duff k buf sp c = Some (sp + 16 * Z.of_nat k, c + wsum sp (16 * k)).
Proof.
  induction k as [|k IH]; intros sp c Hsp Hb Hc Hs; cbn [duff].
  - f_equal. f_equal; [lia|simpl; lia].
  - replace (16 * S k)%nat with (16 + 16 * k)%nat in * by lia. rewrite wsum_app in *.
    change (Z.of_nat 16) with 16 in *. pose proof (wsum_nonneg 16 sp). pose proof (wsum_nonneg (16 * k) (sp + 16)).
    rewrite unrolled_spec by (rewrite ?Z.add_0_r; lia). cbn [mbind option_bind]. rewrite Z.add_0_r.
    rewrite IH by lia. f_equal. f_equal; lia.
Qed.
End Loops.

Lemma take_rd0 (buf : list Z) n : (n < length buf)%nat -> take (S n) buf = take n buf ++ [rd0 buf (Z.of_nat n)].
Proof.
  intros H. destruct (lookup_lt_is_Some_2 buf n H) as [x Hx]. erewrite take_S_r by exact Hx.
  unfold rd0, rd. bcases; [lia|]. by rewrite Nat2Z.id, Hx.
Qed.

Lemma words_take (buf : list Z) k : (2 * k <= length buf)%nat -> sum (words (take (2 * k) buf)) = wsum buf 0 k.
Proof.
  induction k as [|k IH]; intros H; [done|]. replace (2 * S k)%nat with (S (S (2 * k))) by lia.
  rewrite (take_rd0 buf (S (2 * k))), (take_rd0 buf (2 * k)), <- app_assoc by lia. rewrite words_app, sum_app, IH.
  2, 3: lia || (exists k; rewrite length_take; lia).
  replace (S k) with (k + 1)%nat by lia. rewrite (wsum_app buf k 0 1). cbn [wsum words app sum fold_right]. unfold wat. f_equal.
  rewrite !Z.add_0_l, !Z.add_0_r. f_equal; [|f_equal]; f_equal; lia.
Qed.

(** The sum of the words of the first [len] bytes, in the two forms. *)
Lemma words_sum buf len : 0 <= len <= Zlen buf ->
  sum (words (take (Z.to_nat len) buf)) =
  wsum buf 0 (Z.to_nat (len / 2)) + (if truth (len mod 2) then rd0 buf (2 * (len / 2)) else 0).
Proof.
  intros H. rewrite <- words_take by (unfold Zlen in H; mlia). bcase (truth (len mod 2)) as E.
  - replace (Z.to_nat len) with (S (2 * Z.to_nat (len / 2))) by mlia. rewrite take_rd0 by (unfold Zlen in H; mlia).
    rewrite words_app, sum_app by (exists (Z.to_nat (len / 2)); rewrite length_take; unfold Zlen in H; mlia).
    cbn [words sum fold_right]. rewrite Z.add_0_r. f_equal. f_equal. mlia.
  - replace (Z.to_nat len) with (2 * Z.to_nat (len / 2))%nat by mlia. lia.
Qed.

Lemma odd_land len : 0 <= len -> Z.land len 1 = len mod 2.
Proof. intros H. change 1 with (Z.ones 1). by rewrite Z.land_ones by lia. Qed.

(** Both ways through the buffer add its words; only a single byte at an odd
    address is left out. *)
Lemma cksum_add_sum al buf len c : bytes buf -> 0 <= len <= Zlen buf -> (al = false -> len <> 1) ->
  0 <= c -> c + sum (words (take (Z.to_nat len) buf)) < 2 ^ 32 ->
  cksum_add al buf len c = Some (fold_carries (c + sum (words (take (Z.to_nat len) buf)))).
Proof.
  intros Hb Hlen Hal Hc Hs. rewrite words_sum in * by done. pose proof (wsum_nonneg buf Hb (Z.to_nat (len / 2)) 0) as Hn.
  pose proof (bytes_rd0 buf (2 * (len / 2)) Hb) as Hl.
  assert (forall c' : Z, c' = c + wsum buf 0 (Z.to_nat (len / 2)) ->
    (if truth (len mod 2) then b ← rd buf (2 * (len / 2)); Some (u32 (c' + b)) else Some c') =
    Some (c + (wsum buf 0 (Z.to_nat (len / 2)) + (if truth (len mod 2) then rd0 buf (2 * (len / 2)) else 0)))) as Hlast.
  { intros c' ->. bcase (truth (len mod 2)) as E; [|f_equal; lia]. rewrite rd_rd0 by mlia. simpl.
    rewrite u32_small by mlia. f_equal. lia. }
  assert (0 <= (if truth (len mod 2) then rd0 buf (2 * (len / 2)) else 0)) as Ho by (destruct (truth _); mlia).
  unfold cksum_add. destruct al.
  - rewrite add_words_spec by (done || (unfold Zlen in *; mlia) || lia). cbn [mbind option_bind]. rewrite Z.add_0_l, Hlast by done. done.
  - specialize (Hal eq_refl). bcase (len >? 1) as E.
    2:{ assert (len = 0) as -> by lia. cbn. by rewrite Z.add_0_r. }
    rewrite odd_land by lia. replace (Z.land (len / 2) 15) with ((len / 2) mod 16) by (change 15 with (Z.ones 4); by rewrite Z.land_ones by lia).
    set (sn := if (len / 2) mod 16 =? 0 then 16 else (len / 2) mod 16). set (n := (len / 2 + 15) / 16).
    assert (1 <= sn <= 16 /\ sn + 16 * (n - 1) = len / 2 /\ 1 <= n) as (Hsn & Hn1 & Hn2)
      by (unfold sn, n; bcases; mlia).
    assert (wsum buf 0 (Z.to_nat (len / 2)) = wsum buf 0 (Z.to_nat sn) + wsum buf sn (16 * Z.to_nat (n - 1))) as Hw.
    { replace (Z.to_nat (len / 2)) with (Z.to_nat sn + 16 * Z.to_nat (n - 1))%nat by lia. rewrite wsum_app. f_equal. f_equal. lia. }
    pose proof (wsum_nonneg buf Hb (Z.to_nat sn) 0). pose proof (wsum_nonneg buf Hb (16 * Z.to_nat (n - 1)) sn).
    rewrite fall_through_spec by (done || mlia). cbn [mbind option_bind].
    rewrite duff_spec by (done || lia || mlia). cbn [mbind option_bind]. rewrite Z2Nat.id by lia. rewrite Hn1, Hlast by lia. done.
Qed.

(** ** Headers *)

Lemma add_list_sum l : forall c, 0 <= c -> Forall is_u16 l -> c + sum l < 2 ^ 32 -> add_list l c = c + sum l.
Proof.
  induction l as [|w l IH]; intros c Hc Hl Hs; simpl in *; [lia|]. apply Forall_cons in Hl as [Hw Hl].
  pose proof (sum_range l Hl). rewrite u32_small by mlia. rewrite IH by (done || mlia). lia.
Qed.

Definition ph_ok (ph : Pseudoheader) : Prop :=
  is_u32 (sip ph) /\ is_u32 (dip ph) /\ is_u8 (zero ph) /\ is_u8 (protocol ph) /\ is_u16 (ph_len ph).
Definition ph6_ok (ph : Pseudoheader6) : Prop :=
  length (sip6 ph) = 4%nat /\ length (dip6 ph) = 4%nat /\ Forall is_u32 (sip6 ph) /\ Forall is_u32 (dip6 ph) /\
  is_u8 (zero6 ph) /\ is_u8 (protocol6 ph) /\ is_u16 (ph_len6 ph).

Lemma halves_u16 x : is_u32 x -> Forall is_u16 (halves x).
Proof.
  intros H. unfold halves. rewrite Z.shiftr_div_pow2 by lia. change 65535 with (Z.ones 16). rewrite Z.land_ones by lia.
  change (2 ^ 16) with 65536. repeat constructor; mlia.
Qed.
Lemma halves_all l : Forall is_u32 l -> Forall is_u16 (flat_map halves l).
Proof. induction 1 as [|x l Hx _ IH]; cbn [flat_map]; [constructor|]. apply Forall_app. split; [by apply halves_u16|done]. Qed.
Lemma length_halves l : length (flat_map halves l) = (2 * length l)%nat.
Proof. induction l as [|x l IH]; simpl; [done|]. rewrite IH. lia. Qed.

Lemma ph4_words ph : ph_ok ph -> take 6 (ph4_arr ph) = ph4_arr ph /\ Forall is_u16 (ph4_arr ph) /\ Zlen (ph4_arr ph) <= 18.
Proof.
  intros (H1 & H2 & H3 & H4 & H5). split_and!; [done| |by vm_compute].
  unfold ph4_arr. repeat (apply Forall_app; split); try by apply halves_u16. repeat constructor; mlia.
Qed.
Lemma ph6_words ph : ph6_ok ph -> take 18 (ph6_arr ph) = ph6_arr ph /\ Forall is_u16 (ph6_arr ph) /\ Zlen (ph6_arr ph) <= 18.
Proof.
  intros (L1 & L2 & H1 & H2 & H3 & H4 & H5).
  assert (length (ph6_arr ph) = 18%nat) as Hl by (unfold ph6_arr; rewrite !length_app, !length_halves, L1, L2; done).
  split_and!; [apply take_ge; lia| |unfold Zlen; lia].
  unfold ph6_arr. repeat (apply Forall_app; split); try by apply halves_all. repeat constructor; mlia.
Qed.

(** A sum that starts with the words [ws], adds a header of [k] words and then
    the rest of the buffer. *)
Lemma header_cksum al k ws buf len : Forall is_u16 ws -> Zlen ws <= 18 -> bytes buf ->
  2 * Z.of_nat k <= len -> len <= Zlen buf -> len <= 65535 -> (al = false -> len - 2 * Z.of_nat k <> 1) ->
  ('(h, len, cksum) ← add_header k buf len (add_list ws 0); cksum_add al h len cksum) =
  Some (rfc1071 (ws ++ words (take (Z.to_nat len) buf))).
Proof.
  intros Hws Hwl Hb Hk Hlen Hmax Hal. pose proof (sum_range ws Hws) as Hr.
  set (rest := take (Z.to_nat (len - 2 * Z.of_nat k)) (drop (2 * k) buf)).
  assert (take (Z.to_nat len) buf = take (2 * k) buf ++ rest) as Ht.
  { replace (Z.to_nat len) with (2 * k + Z.to_nat (len - 2 * Z.of_nat k))%nat by lia. by rewrite <- take_take_drop. }
  assert (Nat.Even (length (take (2 * k) buf))) as Hev by (exists k; rewrite length_take; unfold Zlen in Hlen; lia).
  assert (bytes (take (Z.to_nat len) buf)) as Hbt by by apply Forall_take.
  pose proof (words_u16 _ Hbt) as Hw. pose proof (sum_range _ Hw) as Hr2. rewrite Zlen_words in Hr2.
  assert (Zlen (take (Z.to_nat len) buf) <= 65535) as Hl2 by (unfold Zlen; rewrite length_take; lia).
  assert (sum ws + sum (words (take (Z.to_nat len) buf)) < 2 ^ 32) as Hs by mlia.
  rewrite Ht, words_app in Hs, Hw by done. rewrite sum_app in Hs. apply Forall_app in Hw as [Hw1 Hw2].
  pose proof (sum_range _ Hw1). pose proof (sum_range _ Hw2).
  rewrite add_list_sum by (done || lia). unfold add_header. rewrite Z.add_0_l.
  rewrite words_take in * by (unfold Zlen in Hlen; lia).
  rewrite unrolled_spec by (done || (rewrite ?Z.add_0_r; lia)). rewrite Z.add_0_r. cbn [mbind option_bind].
  replace (u64 (len - 2 * Z.of_nat k)) with (len - 2 * Z.of_nat k) by mlia.
  assert (Zlen (drop (2 * k) buf) = Zlen buf - 2 * Z.of_nat k) as Hd by (unfold Zlen in *; rewrite length_drop; lia).
  rewrite cksum_add_sum; fold rest; try (done || lia); [|by apply Forall_drop]. f_equal.
  rewrite fold_carries_oc by mlia. rewrite Ht, words_app by done.
  rewrite rfc1071_sum by (repeat (apply Forall_app; split); done). rewrite !sum_app, words_take by (unfold Zlen in Hlen; lia).
  f_equal. f_equal. lia.
Qed.

Lemma plain_cksum al ws buf len : Forall is_u16 ws -> Zlen ws <= 18 -> bytes buf ->
  0 <= len <= Zlen buf -> len <= 65535 -> (al = false -> len <> 1) ->
  cksum_add al buf len (add_list ws 0) = Some (rfc1071 (ws ++ words (take (Z.to_nat len) buf))).
Proof.
  intros Hws Hwl Hb Hlen Hmax Hal. rewrite <- (header_cksum al 0 ws buf len) by (done || lia || (intros E; specialize (Hal E); lia)).
  unfold add_header. simpl. rewrite Z.sub_0_r, drop_0. f_equal. mlia.
Qed.

(** The value the checks look for. *)
Lemma rfc1071_zero ws : Forall is_u16 ws -> rfc1071 ws = 0 <-> 0 < sum ws /\ (65535 | sum ws).
Proof.
  intros H. rewrite rfc1071_sum by done. pose proof (sum_range ws H). rewrite <- Z.mod_divide by lia.
  unfold oc. bcases; mlia.
Qed.

Lemma rfc1071_u16 ws : Forall is_u16 ws -> is_u16 (rfc1071 ws).
Proof. intros H. rewrite rfc1071_sum by done. pose proof (sum_range ws H). unfold oc. bcases; mlia. Qed.

(** Storing the checksum of a buffer in a field that was zero. *)
Lemma rfc1071_filled ws a b : Forall is_u16 ws -> bytes a -> bytes b -> Nat.Even (length a) ->
  let k := rfc1071 (ws ++ words (a ++ [0; 0] ++ b)) in
  rfc1071 (ws ++ words (a ++ [k mod 256; k / 256] ++ b)) = 0.
Proof.
  intros Hws Ha Hb Hev k. assert (Forall is_u16 (ws ++ words (a ++ [0; 0] ++ b))) as H0.
  { apply Forall_app. split; [done|]. apply words_u16. repeat (apply Forall_app; split); try done. repeat constructor; mlia. }
  pose proof (rfc1071_u16 _ H0) as Hk. fold k in Hk. pose proof (sum_range _ H0) as Hs.
  assert (Forall is_u16 (ws ++ words (a ++ [k mod 256; k / 256] ++ b))) as H1.
  { apply Forall_app. split; [done|]. apply words_u16. repeat (apply Forall_app; split); try done. repeat constructor; mlia. }
  assert (k = 65535 - oc (sum (ws ++ words (a ++ [0; 0] ++ b)))) as Ek by (by apply rfc1071_sum). clearbody k.
  apply rfc1071_zero; [done|].
  assert (sum (ws ++ words (a ++ [k mod 256; k / 256] ++ b)) = sum (ws ++ words (a ++ [0; 0] ++ b)) + k) as ->.
  { rewrite !sum_app, (words_app a ([_; _] ++ b)), (words_app a ([0; 0] ++ b)), !sum_app by done. clear. cbn [words app sum fold_right]. mlia. }
  rewrite <- Z.mod_divide by lia. revert Hs Ek. generalize (sum (ws ++ words (a ++ [0; 0] ++ b))). clear.
  intros z [Hz _] ->. unfold oc. bcases; mlia.
Qed.

(** ** Properties *)

(** C34. Every checksum function of the codecs returns the checksum of RFC 1071
    over the pseudo header and the first [len] bytes of the buffer - for an odd
    [len] as if padded with a zero byte - reads inside the buffer only, and does
    so along the plain and the unrolled loop alike, for buffers of up to 65535
    bytes that hold the fixed header; except, at an odd address, for the lengths
    with a single byte behind the fixed header (9 for UDP, 21 for TCP and IP, 1
    for ICMP), where that byte is left out ([unaligned_byte_ignored]). *)
Theorem checksums_rfc1071 al buf len ph ph6 :
  bytes buf -> 0 <= len -> len <= Zlen buf -> len <= 65535 -> ph_ok ph -> ph6_ok ph6 ->
  let data := words (take (Z.to_nat len) buf) in
  (8 <= len -> (al = false -> len <> 9) ->
    udp_cksum al buf len ph = Some (rfc1071 (ph4_arr ph ++ data)) /\
    udp_cksum6 al buf len ph6 = Some (rfc1071 (ph6_arr ph6 ++ data))) /\
  ((al = false -> len <> 1) ->
    icmp_cksum al buf len = Some (rfc1071 data) /\
    icmp_cksum6 al buf len ph6 = Some (rfc1071 (ph6_arr ph6 ++ data))) /\
  (20 <= len -> (al = false -> len <> 21) ->
    tcp_cksum al buf len ph = Some (rfc1071 (ph4_arr ph ++ data)) /\
    tcp_cksum6 al buf len ph6 = Some (rfc1071 (ph6_arr ph6 ++ data)) /\
    ip_cksum al buf len = Some (rfc1071 data)).
Proof.
  intros Hb Hlen Hl Hmax Hph Hph6 data.
  destruct (ph4_words ph Hph) as (E4 & H4 & L4). destruct (ph6_words ph6 Hph6) as (E6 & H6 & L6).
  unfold udp_cksum, udp_cksum6, icmp_cksum, icmp_cksum6, tcp_cksum, tcp_cksum6, ip_cksum,
    add_ipv4_pseudoheader, add_ipv6_pseudoheader, add_udp_header, add_tcp_header, add_ip_header.
  rewrite E4, E6. split_and!.
  - intros H8 Hal. split; apply header_cksum; done || lia || (intros E; specialize (Hal E); lia).
  - intros Hal. split; [apply (plain_cksum al [])|apply plain_cksum]; done || lia.
  - intros H20 Hal. split_and!; [apply header_cksum..|apply (header_cksum al 10 [])]; done || lia || (intros E; specialize (Hal E); lia).
Qed.

(** The checksum functions, on a buffer and its length. *)
Definition checks (al : bool) (ph : Pseudoheader) (ph6 : Pseudoheader6) : list (list Z -> Z -> option Z) :=
  [fun buf len => udp_cksum al buf len ph; fun buf len => udp_cksum6 al buf len ph6;
   fun buf len => icmp_cksum al buf len; fun buf len => icmp_cksum6 al buf len ph6;
   fun buf len => tcp_cksum al buf len ph; fun buf len => tcp_cksum6 al buf len ph6; fun buf len => ip_cksum al buf len].

Lemma checks_eq al ph ph6 f : f ∈ checks al ph ph6 -> ph_ok ph -> ph6_ok ph6 ->
  exists ws, Forall is_u16 ws /\ forall buf len, bytes buf -> 20 <= len -> len <= Zlen buf -> len <= 65535 ->
    (al = false -> len <> 21) -> f buf len = Some (rfc1071 (ws ++ words (take (Z.to_nat len) buf))).
Proof.
  intros Hf Hph Hph6. destruct (ph4_words ph Hph) as (E4 & H4 & L4). destruct (ph6_words ph6 Hph6) as (E6 & H6 & L6).
  unfold checks in Hf. rewrite !elem_of_cons, elem_of_nil in Hf.
  unfold udp_cksum, udp_cksum6, icmp_cksum, icmp_cksum6, tcp_cksum, tcp_cksum6, ip_cksum,
    add_ipv4_pseudoheader, add_ipv6_pseudoheader, add_udp_header, add_tcp_header, add_ip_header in Hf. rewrite E4, E6 in Hf.
  destruct Hf as [->|[->|[->|[->|[->|[->|[->|[]]]]]]]];
    [exists (ph4_arr ph)|exists (ph6_arr ph6)|exists []|exists (ph6_arr ph6)|exists (ph4_arr ph)|exists (ph6_arr ph6)|exists []];
    (split; [done|]); intros buf len Hb H20 Hl Hmax Hal;
    try (apply header_cksum; done || lia || (intros E; specialize (Hal E); lia));
    try (apply (plain_cksum al []); done || lia); try (apply plain_cksum; done || lia);
    apply (header_cksum al 10 []); done || lia || (intros E; specialize (Hal E); lia).
Qed.

(** What the encoders write is what the decoders accept: when a checksum
    function is run over a header whose checksum field, at any even offset, is
    zero, and its result is stored in the field, the same function returns 0 on
    the result; and it returns 0 exactly when the words of pseudo header and
    buffer add up to a positive multiple of 65535, so a change of one word is
    noticed unless it exchanges 0 and 65535. *)
Theorem checksum_verifies al ph ph6 f :
  f ∈ checks al ph ph6 -> ph_ok ph -> ph6_ok ph6 ->
  exists ws, Forall is_u16 ws /\
    (forall a b k, bytes a -> bytes b -> Nat.Even (length a) -> let len := Zlen a + 2 + Zlen b in
       20 <= len -> len <= 65535 -> (al = false -> len <> 21) ->
       f (a ++ [0; 0] ++ b) len = Some k ->
       is_u16 k /\ f (a ++ [k mod 256; k / 256] ++ b) len = Some 0) /\
    (forall buf, bytes buf -> 20 <= Zlen buf -> Zlen buf <= 65535 -> (al = false -> Zlen buf <> 21) ->
       f buf (Zlen buf) = Some 0 <-> 0 < sum (ws ++ words buf) /\ (65535 | sum (ws ++ words buf))).
Proof.
  intros Hf Hph Hph6. destruct (checks_eq al ph ph6 f Hf Hph Hph6) as (ws & Hws & Heq). exists ws. split; [done|].
  assert (forall buf, bytes buf -> 20 <= Zlen buf -> Zlen buf <= 65535 -> (al = false -> Zlen buf <> 21) ->
    f buf (Zlen buf) = Some (rfc1071 (ws ++ words buf))) as Hall.
  { intros buf Hb H20 Hmax Hal. rewrite Heq by (done || lia). unfold Zlen. by rewrite Nat2Z.id, firstn_all. }
  split.
  - intros a b k Ha Hb Hev len H20 Hmax Hal.
    assert (forall x y, len = Zlen (a ++ [x; y] ++ b)) as Hlen
      by (intros x y; unfold len; rewrite !Zlen_app; change (Zlen [x; y]) with 2; lia).
    assert (forall x y, is_u8 x -> is_u8 y -> bytes (a ++ [x; y] ++ b)) as Hbb
      by (intros x y Hx Hy; apply Forall_app; split; [done|]; constructor; [done|]; by constructor).
    assert (forall x y, is_u8 x -> is_u8 y -> f (a ++ [x; y] ++ b) len = Some (rfc1071 (ws ++ words (a ++ [x; y] ++ b)))) as Hf'.
    { intros x y Hx Hy. rewrite (Hlen x y). apply Hall; [by apply Hbb|..]; rewrite <- Hlen; done. }
    rewrite (Hf' 0 0) by mlia. intros E. assert (k = rfc1071 (ws ++ words (a ++ [0; 0] ++ b))) as -> by congruence.
    assert (Forall is_u16 (ws ++ words (a ++ [0; 0] ++ b))) as H0.
    { apply Forall_app. split; [done|]. apply words_u16, Hbb; mlia. }
    pose proof (rfc1071_u16 _ H0) as Hk. split; [done|].
    rewrite Hf'; [f_equal; by apply rfc1071_filled|..]; revert Hk; generalize (rfc1071 (ws ++ words (a ++ [0; 0] ++ b))); clear; intros z Hz; mlia.
  - intros buf Hb H20 Hmax Hal. rewrite Hall by done. rewrite <- rfc1071_zero.
    + split; [by intros [= ->]|by intros ->].
    + apply Forall_app. split; [done|by apply words_u16].
Qed.

(** At an odd address the sum of a one-byte payload leaves the byte out. *)
Theorem unaligned_byte_ignored b c : is_u8 b -> is_u32 c ->
  cksum_add false [b] 1 c = Some (fold_carries c) /\ cksum_add true [b] 1 c = Some (fold_carries (u32 (c + b))).
Proof. done. Qed.

(** ** A TCP header with one option, checked and filled *)

Definition demo_ph : Pseudoheader := MkPh 16885952 33663168 0 6 6144.
Definition demo_ph6 : Pseudoheader6 := MkPh6 [1; 0; 0; 0] [2; 0; 0; 0] 0 6 6144.
Definition demo_a : list Z := [0; 80; 4; 210; 0; 0; 0; 1; 0; 0; 0; 0; 96; 2; 255; 255].
Definition demo_b : list Z := [0; 0; 2; 4; 5; 180].

Lemma demo_phs_ok : ph_ok demo_ph /\ ph6_ok demo_ph6.
Proof.
  assert (Forall is_u32 [1; 0; 0; 0] /\ Forall is_u32 [2; 0; 0; 0]) as [? ?] by (split; repeat (constructor; [mlia|]); constructor).
  split; unfold ph_ok, ph6_ok; cbn; split_and!; done || mlia.
Qed.

Lemma checksums_rfc1071_witness :
  tcp_cksum false (demo_a ++ [0; 0] ++ demo_b) 24 demo_ph =
    Some (rfc1071 (ph4_arr demo_ph ++ words (demo_a ++ [0; 0] ++ demo_b))) /\
  rfc1071 (ph4_arr demo_ph ++ words (demo_a ++ [0; 0] ++ demo_b)) = 45071.
Proof.
  split; [|vm_compute; reflexivity]. destruct demo_phs_ok as [H4 H6].
  apply (checksums_rfc1071 false (demo_a ++ [0; 0] ++ demo_b) 24 demo_ph demo_ph6).
  - repeat constructor; mlia.
  - lia.
  - vm_compute. discriminate.
  - lia.
  - exact H4.
  - exact H6.
  - lia.
  - lia.
Defined.

Lemma checksum_verifies_witness :
  tcp_cksum true (demo_a ++ [45071 mod 256; 45071 / 256] ++ demo_b) 24 demo_ph = Some 0.
Proof.
  destruct demo_phs_ok as [H4 H6].
  destruct (checksum_verifies true demo_ph demo_ph6 (fun buf len => tcp_cksum true buf len demo_ph)) as (ws & _ & H & _).
  - unfold checks. do 4 right. left.
  - exact H4.
  - exact H6.
  - apply (H demo_a demo_b 45071); try (by repeat constructor; mlia); try (vm_compute; congruence).
    exists 8%nat. reflexivity.
Defined.
