(* ===== verification/Base64.v ===== *)
(** * Base64: the streaming encoder and the decoder

    helpers/base64_encoder.{h,cc}, which the loggers use, and [sf_base64decode]
    of mime/decode_b64.cc, which the mail inspectors and the base64 rule options
    use.  The decoder undoes the encoder. *)

From S2P Require Import Prelude.

(** ** Encoder *)

(** "ABCDEFGHIJKLMNOPQRSTUVWXYZabcdefghijklmnopqrstuvwxyz0123456789+/" *)
Definition encoding : list Z := seqZ 65 26 ++ seqZ 97 26 ++ seqZ 48 10 ++ [43; 47].
Definition b64 (idx : Z) : Z := rd0 encoding idx.

Inductive Steps := step_A | step_B | step_C.
Record Base64Encoder := MkEnc { step : Steps; state : Z }.
Definition reset : Base64Encoder := MkEnc step_A 0.

(** One case of the switch: the fragment read and the characters written. *)
Definition encode_byte (e : Base64Encoder) (fragment : Z) : Base64Encoder * list Z :=
  match step e with
  | step_A =>
      let s := u8 (Z.shiftr (Z.land fragment 252) 2) in
      (MkEnc step_B (u8 (Z.shiftl (Z.land fragment 3) 4)), [b64 s])
  | step_B =>
      let s := u8 (Z.lor (state e) (Z.shiftr (Z.land fragment 240) 4)) in
      (MkEnc step_C (u8 (Z.shiftl (Z.land fragment 15) 2)), [b64 s])
  | step_C =>
      let s := u8 (Z.lor (state e) (Z.shiftr (Z.land fragment 192) 6)) in
      let t := u8 (Z.shiftr (Z.land fragment 63) 0) in
      (MkEnc step_A t, [b64 s; b64 t])
  end.

Fixpoint encode (e : Base64Encoder) (plain_text : list Z) : Base64Encoder * list Z :=
  match plain_text with
  | [] => (e, [])
  | b :: l =>
      let '(e, p) := encode_byte e b in
      let '(e, q) := encode e l in (e, p ++ q)
  end.

Definition finish (e : Base64Encoder) : list Z :=
  match step e with
  | step_A => []
  | step_B => [b64 (state e); 61; 61]
  | step_C => [b64 (state e); 61]
  end.

(** Several calls of [encode], then [finish]. *)
Fixpoint encode_pieces (e : Base64Encoder) (pieces : list (list Z)) : list Z :=
  match pieces with
  | [] => finish e
  | l :: pieces => let '(e, p) := encode e l in p ++ encode_pieces e pieces
  end.

(** ** Decoder *)

Definition junk (n : nat) : list Z := replicate n 100.
Definition sf_decode64tab : list Z :=
  junk 43 ++ [62] ++ junk 3 ++ [63] ++ seqZ 52 10 ++ junk 3 ++ [99] ++ junk 3 ++ seqZ 0 26 ++ junk 6 ++ seqZ 26 26 ++ junk 133.
Definition tab (c : Z) : Z := rd0 sf_decode64tab c.

(** The bytes of a full group; [None] is the error, the flag says whether the
    loop goes on. *)
Definition decode_group (c0 c1 c2 c3 outbuf_size : Z) (out : list Z) : option (bool * list Z) :=
  if (c0 =? 61) || (c1 =? 61) then None
  else
    let a := tab c0 in
    let b := tab c1 in
    let c := tab c2 in
    let d := tab c3 in
    let out := if Zlen out <? outbuf_size then out ++ [u8 (Z.lor (Z.shiftl a 2) (Z.shiftr b 4))] else out in
    if negb (c2 =? 61) && (Zlen out <? outbuf_size) then
      let out := out ++ [u8 (Z.lor (Z.shiftl b 4) (Z.shiftr c 2))] in
      if negb (c3 =? 61) && (Zlen out <? outbuf_size) then Some (true, out ++ [u8 (Z.lor (Z.shiftl c 6) d)])
      else Some (false, out)
    else Some (false, out).

(** The loop over the input; [data] are the characters of the current group. *)
Fixpoint decode_loop (cursor : list Z) (data : list Z) (n max_base64_chars outbuf_size : Z) (out : list Z) : Z * list Z :=
  match cursor with
  | [] => (0, out)
  | c :: cursor =>
      if n <? max_base64_chars then
        if tab c =? 100 then decode_loop cursor data n max_base64_chars outbuf_size out
        else
          match data with
          | [c0; c1; c2] =>
              match decode_group c0 c1 c2 c outbuf_size out with
              | None => (-1, out)
              | Some (false, out) => (0, out)
              | Some (true, out) => decode_loop cursor [] (u32 (n + 1)) max_base64_chars outbuf_size out
              end
          | _ => decode_loop cursor (data ++ [c]) (u32 (n + 1)) max_base64_chars outbuf_size out
          end
      else (0, out)
  end.

(** The result and what was written to [outbuf]. *)
Definition sf_base64decode (inbuf : list Z) (outbuf_size : Z) : Z * list Z :=
  decode_loop inbuf [] 0 (u32 (outbuf_size / 3 * 4 + 4)) outbuf_size [].

(** ** The alphabet *)

Lemma tab_b64 i : 0 <= i < 64 -> tab (b64 i) = i /\ b64 i <> 61.
Proof.
  intros Hi. assert (forallb (fun i => (tab (b64 i) =? i) && negb (b64 i =? 61)) (seqZ 0 64) = true) as H by (vm_compute; reflexivity).
  rewrite forallb_forall in H. specialize (H i). rewrite <- list_elem_of_In, elem_of_seqZ in H. specialize (H Hi). breflect. done.
Qed.
Lemma tab_pad : tab 61 = 99.
Proof. done. Qed.

(** The masked shifts of the encoder, as arithmetic. *)
Lemma field x k j : 0 <= k -> 0 <= j -> Z.shiftr (Z.land x (Z.shiftl (Z.ones j) k)) k = x / 2 ^ k mod 2 ^ j.
Proof.
  intros Hk Hj. rewrite Z.shiftr_land, Z.shiftr_shiftl_l, Z.sub_diag, Z.shiftl_0_r, Z.land_ones, Z.shiftr_div_pow2 by lia. done.
Qed.

Definition sextet1 (a : Z) : Z := a / 4.
Definition sextet2 (a b : Z) : Z := a mod 4 * 16 + b / 16.
Definition sextet3 (b c : Z) : Z := b mod 16 * 4 + c / 64.
Definition sextet4 (c : Z) : Z := c mod 64.

Lemma carry_A s a : is_u8 a ->
  encode_byte (MkEnc step_A s) a = (MkEnc step_B (sextet2 a 0), [b64 (sextet1 a)]).
Proof.
  intros Ha. unfold encode_byte, sextet1, sextet2. cbn [step state].
  change 252 with (Z.shiftl (Z.ones 6) 2). change 3 with (Z.ones 2).
  rewrite field, Z.land_ones, Z.shiftl_mul_pow2 by lia. change (2 ^ 2) with 4. change (2 ^ 4) with 16. change (2 ^ 6) with 64.
  repeat f_equal; mlia.
Qed.

Lemma carry_B a b : is_u8 a -> is_u8 b ->
  encode_byte (MkEnc step_B (sextet2 a 0)) b = (MkEnc step_C (sextet3 b 0), [b64 (sextet2 a b)]).
Proof.
  intros Ha Hb. unfold encode_byte, sextet2, sextet3. cbn [step state].
  change 240 with (Z.shiftl (Z.ones 4) 4). change 15 with (Z.ones 4).
  rewrite field, Z.land_ones, Z.shiftl_mul_pow2 by lia. change (2 ^ 2) with 4. change (2 ^ 4) with 16.
  replace (a mod 4 * 16 + 0 / 16) with (Z.shiftl (a mod 4) 4) by (rewrite Z.shiftl_mul_pow2 by lia; mlia).
  rewrite lor_shiftl by mlia. change (2 ^ 4) with 16. repeat f_equal; mlia.
Qed.

Lemma carry_C b c : is_u8 b -> is_u8 c ->
  encode_byte (MkEnc step_C (sextet3 b 0)) c = (MkEnc step_A (sextet4 c), [b64 (sextet3 b c); b64 (sextet4 c)]).
Proof.
  intros Hb Hc. unfold encode_byte, sextet3, sextet4. cbn [step state].
  change 192 with (Z.shiftl (Z.ones 2) 6). change 63 with (Z.ones 6).
  rewrite field, Z.land_ones, Z.shiftr_0_r by lia. change (2 ^ 2) with 4. change (2 ^ 6) with 64.
  replace (b mod 16 * 4 + 0 / 64) with (Z.shiftl (b mod 16) 2) by (rewrite Z.shiftl_mul_pow2 by lia; mlia).
  rewrite lor_shiftl by mlia. change (2 ^ 2) with 4. repeat f_equal; mlia.
Qed.

(** ** The reference encoding (RFC 4648, section 4) *)

Fixpoint base64 (l : list Z) : list Z :=
  match l with
  | [] => []
  | [a] => [b64 (sextet1 a); b64 (sextet2 a 0); 61; 61]
  | [a; b] => [b64 (sextet1 a); b64 (sextet2 a b); b64 (sextet3 b 0); 61]
  | a :: b :: c :: l => b64 (sextet1 a) :: b64 (sextet2 a b) :: b64 (sextet3 b c) :: b64 (sextet4 c) :: base64 l
  end.

Lemma triples_ind (P : list Z -> Prop) :
  P [] -> (forall a, P [a]) -> (forall a b, P [a; b]) -> (forall a b c l, P l -> P (a :: b :: c :: l)) -> forall l, P l.
Proof.
  intros H0 H1 H2 H3. fix IH 1. intros [|a [|b [|c l]]]; [apply H0|apply H1|apply H2|apply H3, IH].
Qed.

Lemma encode_app e l l' :
  encode e (l ++ l') = let '(e1, p) := encode e l in let '(e2, q) := encode e1 l' in (e2, p ++ q).
Proof.
  revert e; induction l as [|b l IH]; intros e; cbn [encode app].
  - by destruct (encode e l').
  - destruct (encode_byte e b) as [e1 p]. rewrite IH. destruct (encode e1 l) as [e2 q]. destruct (encode e2 l') as [e3 r].
    by rewrite app_assoc.
Qed.

Lemma encode_pieces_concat e pieces :
  encode_pieces e pieces = let '(e', p) := encode e (concat pieces) in p ++ finish e'.
Proof.
  revert e; induction pieces as [|l pieces IH]; intros e; cbn [encode_pieces concat]; [done|].
  rewrite encode_app. destruct (encode e l) as [e1 p]. rewrite IH. destruct (encode e1 (concat pieces)) as [e2 q].
  by rewrite app_assoc.
Qed.

Ltac split_bytes := unfold bytes in *; repeat match goal with H : Forall is_u8 (_ :: _) |- _ => apply Forall_cons in H as [? H] end.

Lemma encode_base64 l s : bytes l ->
  (let '(e', p) := encode (MkEnc step_A s) l in p ++ finish e') = base64 l.
Proof.
  revert s; induction l as [|a|a b|a b c l IH] using triples_ind; intros s Hl; cbn [encode base64]; split_bytes.
  - done.
  - by rewrite carry_A.
  - rewrite carry_A by done. by rewrite carry_B.
  - rewrite carry_A by done. rewrite carry_B by done. rewrite carry_C by done. specialize (IH (sextet4 c) Hl).
    destruct (encode (MkEnc step_A (sextet4 c)) l) as [e q]. cbn [app]. by rewrite IH.
Qed.

Lemma encoder_reference pieces : bytes (concat pieces) -> encode_pieces reset pieces = base64 (concat pieces).
Proof. intros H. rewrite encode_pieces_concat. by apply encode_base64. Qed.

(** ** The decoder on the reference encoding *)

Lemma sextets_back a b c : is_u8 a -> is_u8 b -> is_u8 c ->
  u8 (Z.lor (Z.shiftl (sextet1 a) 2) (Z.shiftr (sextet2 a b) 4)) = a /\
  u8 (Z.lor (Z.shiftl (sextet2 a b) 4) (Z.shiftr (sextet3 b c) 2)) = b /\
  u8 (Z.lor (Z.shiftl (sextet3 b c) 6) (sextet4 c)) = c.
Proof.
  intros Ha Hb Hc. unfold sextet1, sextet2, sextet3, sextet4. rewrite !Z.shiftr_div_pow2 by lia.
  change (2 ^ 4) with 16. change (2 ^ 2) with 4. rewrite !lor_shiftl by mlia.
  change (2 ^ 6) with 64. change (2 ^ 4) with 16. change (2 ^ 2) with 4. split_and!; mlia.
Qed.

Lemma sextets_range a b c : is_u8 a -> is_u8 b -> is_u8 c ->
  (0 <= sextet1 a < 64) /\ (0 <= sextet2 a b < 64) /\ (0 <= sextet3 b c < 64) /\ (0 <= sextet4 c < 64).
Proof. intros Ha Hb Hc. unfold sextet1, sextet2, sextet3, sextet4. split_and!; mlia. Qed.

(** What fits of the bytes of a group is written. *)
Lemma take_fits {A} (out l : list A) n : Zlen out <= n ->
  take (Z.to_nat n) (out ++ l) = out ++ take (Z.to_nat (n - Zlen out)) l.
Proof. intros H. rewrite take_app, take_ge by (unfold Zlen in *; lia). do 2 f_equal. unfold Zlen in *. lia. Qed.

Lemma room_cases (x o : Z) : x <= o -> o - x = 0 \/ o - x = 1 \/ o - x = 2 \/ (3 <= o - x)%Z.
Proof. lia. Qed.

Ltac decide_room :=
  repeat match goal with
  | |- context [Zlen (_ ++ _)] => rewrite Zlen_app
  | |- context [Zlen [_]] => rewrite Zlen_cons, Zlen_nil
  | |- context [?a <? ?b] => first [rewrite (proj2 (Z.ltb_lt a b)) by lia | rewrite (proj2 (Z.ltb_ge a b)) by lia]
  | |- context [?a <=? ?b] => first [rewrite (proj2 (Z.leb_le a b)) by lia | rewrite (proj2 (Z.leb_gt a b)) by lia]
  end; cbn [andb negb].

Lemma decode_three o out a b c : Zlen out <= o -> is_u8 a -> is_u8 b -> is_u8 c ->
  decode_group (b64 (sextet1 a)) (b64 (sextet2 a b)) (b64 (sextet3 b c)) (b64 (sextet4 c)) o out =
  Some (Zlen out + 3 <=? o, take (Z.to_nat o) (out ++ [a; b; c])).
Proof.
  intros Hout Ha Hb Hc.
  destruct (sextets_range a b c Ha Hb Hc) as (H1 & H2 & H3 & H4). destruct (sextets_back a b c Ha Hb Hc) as (E1 & E2 & E3).
  apply tab_b64 in H1 as [T1 N1], H2 as [T2 N2], H3 as [T3 N3], H4 as [T4 N4].
  unfold decode_group. rewrite T1, T2, T3, T4, E1, E2, E3. rewrite !(proj2 (Z.eqb_neq _ _)) by done. cbn [orb negb andb].
  rewrite take_fits by done.
  destruct (room_cases _ _ Hout) as [E|[E|[E|E]]]; decide_room.
  - by rewrite E, app_nil_r.
  - by rewrite E.
  - rewrite E. cbn. by rewrite <- app_assoc.
  - rewrite (take_ge [a; b; c]) by (simpl; lia). by rewrite <- !app_assoc.
Qed.

Lemma decode_two o out a b : Zlen out <= o -> is_u8 a -> is_u8 b ->
  decode_group (b64 (sextet1 a)) (b64 (sextet2 a b)) (b64 (sextet3 b 0)) 61 o out = Some (false, take (Z.to_nat o) (out ++ [a; b])).
Proof.
  intros Hout Ha Hb.
  assert (is_u8 0) as H0 by mlia.
  destruct (sextets_range a b 0 Ha Hb H0) as (H1 & H2 & H3 & _). destruct (sextets_back a b 0 Ha Hb H0) as (E1 & E2 & _).
  apply tab_b64 in H1 as [T1 N1], H2 as [T2 N2], H3 as [T3 N3].
  unfold decode_group. rewrite T1, T2, T3, E1, E2. rewrite !(proj2 (Z.eqb_neq _ _)) by done. cbn [orb negb andb].
  rewrite take_fits by done.
  destruct (room_cases _ _ Hout) as [E|[E|E]]; decide_room.
  - by rewrite E, app_nil_r.
  - by rewrite E.
  - rewrite (take_ge [a; b]) by (simpl; lia). cbn. by rewrite <- !app_assoc.
Qed.

Lemma decode_one o out a : Zlen out <= o -> is_u8 a ->
  decode_group (b64 (sextet1 a)) (b64 (sextet2 a 0)) 61 61 o out = Some (false, take (Z.to_nat o) (out ++ [a])).
Proof.
  intros Hout Ha.
  assert (is_u8 0) as H0 by mlia.
  destruct (sextets_range a 0 0 Ha H0 H0) as (H1 & H2 & _). destruct (sextets_back a 0 0 Ha H0 H0) as (E1 & _).
  apply tab_b64 in H1 as [T1 N1], H2 as [T2 N2].
  unfold decode_group. rewrite T1, T2, E1. rewrite !(proj2 (Z.eqb_neq _ _)) by done. cbn [orb negb andb].
  rewrite take_fits by done.
  destruct (room_cases _ _ Hout) as [E|E]; decide_room.
  - by rewrite E, app_nil_r.
  - rewrite (take_ge [a]) by (simpl; lia). done.
Qed.

(** Four characters of the alphabet make a group. *)
Lemma decode_quad c0 c1 c2 c3 l n m o out :
  tab c0 <> 100 -> tab c1 <> 100 -> tab c2 <> 100 -> tab c3 <> 100 -> 0 <= n -> n + 4 <= m -> is_u32 m ->
  decode_loop (c0 :: c1 :: c2 :: c3 :: l) [] n m o out =
    match decode_group c0 c1 c2 c3 o out with
    | None => (-1, out)
    | Some (false, out) => (0, out)
    | Some (true, out) => decode_loop l [] (n + 4) m o out
    end.
Proof.
  intros H0 H1 H2 H3 Hn Hm Hu. cbn [decode_loop app]. rewrite !(proj2 (Z.eqb_neq _ _)) by done.
  rewrite (u32_small (n + 1)) by mlia. rewrite (u32_small (n + 1 + 1)) by mlia. rewrite (u32_small (n + 1 + 1 + 1)) by mlia.
  rewrite (u32_small (n + 1 + 1 + 1 + 1)) by mlia. rewrite !(proj2 (Z.ltb_lt _ _)) by lia.
  replace (n + 1 + 1 + 1 + 1) with (n + 4) by lia. done.
Qed.

(** Everything outside the alphabet is skipped. *)
Lemma decode_skips l data n m o out :
  decode_loop l data n m o out = decode_loop (filter (fun c => tab c <> 100) l) data n m o out.
Proof.
  revert data n out; induction l as [|c l IH]; intros data n out; [done|]. rewrite filter_cons. cbn [decode_loop].
  destruct (Z.ltb_spec n m) as [Hn|Hn].
  - destruct (Z.eqb_spec (tab c) 100) as [E|E].
    + rewrite decide_False by tauto. apply IH.
    + rewrite decide_True by done. cbn [decode_loop]. rewrite (proj2 (Z.ltb_lt _ _) Hn), (proj2 (Z.eqb_neq _ _) E).
      destruct data as [|c0 [|c1 [|c2 [|c3 data]]]]; try apply IH. destruct (decode_group c0 c1 c2 c o out) as [[[] out']|]; try done.
  - destruct (decide _); [cbn [decode_loop]; by rewrite (proj2 (Z.ltb_ge _ _) Hn)|].
    destruct (filter _ l); [done|]. cbn [decode_loop]. by rewrite (proj2 (Z.ltb_ge _ _) Hn).
Qed.

Lemma tab_b64_valid i : 0 <= i < 64 -> tab (b64 i) <> 100.
Proof. intros H. destruct (tab_b64 i H) as [-> _]. lia. Qed.

Lemma decode_base64 l o out k :
  bytes l -> 0 <= o < 3 * (2 ^ 30 - 1) -> 0 <= k -> Zlen out = 3 * k -> 3 * k <= o ->
  decode_loop (base64 l) [] (4 * k) (u32 (o / 3 * 4 + 4)) o out = (0, take (Z.to_nat o) (out ++ l)).
Proof.
  intros Hl Ho. assert (u32 (o / 3 * 4 + 4) = o / 3 * 4 + 4) as -> by (apply u32_small; mlia). assert (is_u8 0) as H0 by mlia.
  revert out k; induction l as [|a|a b|a b c l IH] using triples_ind; intros out k Hk Hlen Hfit; cbn [base64]; split_bytes.
  - cbn [decode_loop]. rewrite app_nil_r, take_ge by (unfold Zlen in *; lia). done.
  - destruct (sextets_range a 0 0) as (S1 & S2 & S3 & S4); [done..|].
    rewrite decode_quad by (try done; try (by apply tab_b64_valid); mlia). rewrite decode_one by (done || lia). done.
  - destruct (sextets_range a b 0) as (S1 & S2 & S3 & S4); [done..|].
    rewrite decode_quad by (try done; try (by apply tab_b64_valid); mlia). rewrite decode_two by (done || lia). done.
  - destruct (sextets_range a b c) as (S1 & S2 & S3 & S4); [done..|].
    rewrite decode_quad by (try done; try (by apply tab_b64_valid); mlia). rewrite decode_three by (done || lia).
    destruct (Z.leb_spec (Zlen out + 3) o) as [Hr|Hr].
    + replace (4 * k + 4) with (4 * (k + 1)) by lia. rewrite take_fits, (take_ge [a; b; c]) by (simpl; lia).
      rewrite IH by (try done; rewrite ?Zlen_app, ?Zlen_cons, ?Zlen_nil; lia). by rewrite <- app_assoc.
    + rewrite !take_fits by lia. do 2 f_equal. change (a :: b :: c :: l) with ([a; b; c] ++ l).
      rewrite take_app_le by (simpl; lia). done.
Qed.

(** The decoder undoes the encoder: however a text is cut into pieces for
    [encode], and whatever characters outside the alphabet are interspersed in
    what [encode] and [finish] wrote, [sf_base64decode] succeeds and writes the
    text, cut to the size of the output buffer. *)
Theorem base64_roundtrip (pieces : list (list Z)) (inbuf : list Z) (outbuf_size : Z) :
  bytes (concat pieces) -> 0 <= outbuf_size < 3 * (2 ^ 30 - 1) ->
  filter (fun c => tab c <> 100) inbuf = encode_pieces reset pieces ->
  sf_base64decode inbuf outbuf_size = (0, take (Z.to_nat outbuf_size) (concat pieces)).
Proof.
  intros Hb Ho Hin. unfold sf_base64decode. rewrite decode_skips, Hin, encoder_reference by done.
  apply (decode_base64 (concat pieces) outbuf_size [] 0); [done|done|lia|done|lia].
Qed.

(** "The", cut after one byte, with a line break in the encoding. *)
Lemma base64_roundtrip_witness :
  encode_pieces reset [[84]; [104; 101; 33]] = [86; 71; 104; 108; 73; 81; 61; 61] /\
  sf_base64decode [86; 71; 13; 10; 104; 108; 73; 81; 61; 61] 10 = (0, [84; 104; 101; 33]).
Proof.
  split; [reflexivity|].
  apply (base64_roundtrip [[84]; [104; 101; 33]] [86; 71; 13; 10; 104; 108; 73; 81; 61; 61] 10);
    [repeat (constructor; [mlia|]); constructor|lia|reflexivity].
Defined.

(** A group that starts with padding is an error. *)
Theorem base64_padding_error c1 c2 c3 l o :
  tab c1 <> 100 -> tab c2 <> 100 -> tab c3 <> 100 -> 0 <= o < 3 * (2 ^ 30 - 1) ->
  sf_base64decode (61 :: c1 :: c2 :: c3 :: l) o = (-1, []).
Proof.
  intros H1 H2 H3 Ho. unfold sf_base64decode. rewrite decode_quad; [reflexivity|done..|rewrite u32_small; mlia|apply u32_range].
Qed.
