(* ===== verification/IpVar.v ===== *)
(** * IpVar: addresses, networks and address variables

    sfip/sf_ip.{h,cc}, sfip/sf_cidr.{h,cc} and sfip/sf_ipvar.cc: what the source
    and destination of a rule header denote.  An address is kept as the code
    keeps it: four 32-bit words in network byte order, an IPv4 address mapped
    into the last of them; reading a word as a number needs [ntohl]. *)

From S2P Require Import Prelude Headers.

Inductive AF := AF_UNSPEC | AF_INET | AF_INET6.
#[export] Instance AF_eq : EqDecision AF.
Proof. solve_decision. Defined.

Inductive SfIpRet :=
  SFIP_SUCCESS | SFIP_FAILURE | SFIP_LESSER | SFIP_GREATER | SFIP_EQUAL | SFIP_ARG_ERR | SFIP_CONTAINS
  | SFIP_NOT_CONTAINS | SFIP_CONFLICT.
#[export] Instance SfIpRet_eq : EqDecision SfIpRet.
Proof. solve_decision. Defined.

(** ** Addresses *)

Record SfIp := MkIp { family : AF; ip32 : list Z }.
Definition w32 (ip : SfIp) (i : Z) : Z := rd0 (ip32 ip) i.
(** The halves of the third word. *)
Definition ip16_4 (ip : SfIp) : Z := Z.land (w32 ip 2) 65535.
Definition ip16_5 (ip : SfIp) : Z := Z.shiftr (w32 ip 2) 16.

Definition SfIp_set4 (src : Z) : SfIp := MkIp AF_INET [0; 0; 4294901760; src].
Definition SfIp_set6 (src : list Z) : SfIp := MkIp AF_INET6 src.

Definition is_ip4 (ip : SfIp) : bool := bool_decide (family ip = AF_INET).
Definition is_ip6 (ip : SfIp) : bool := bool_decide (family ip = AF_INET6).

Definition SfIp_is_set (ip : SfIp) : bool :=
  (is_ip4 ip && truth (w32 ip 3)) ||
  (is_ip6 ip && (truth (w32 ip 0) || truth (w32 ip 1) || truth (w32 ip 3) || truth (ip16_4 ip) ||
                 (truth (ip16_5 ip) && negb (ip16_5 ip =? 65535)))).

Definition _ip4_cmp (ip1 ip2 : Z) : SfIpRet :=
  let hip1 := ntohl ip1 in
  let hip2 := ntohl ip2 in
  if hip1 <? hip2 then SFIP_LESSER else if hip1 >? hip2 then SFIP_GREATER else SFIP_EQUAL.

Definition _ip6_cmp (ip ip2 : SfIp) : SfIpRet :=
  let ret := _ip4_cmp (w32 ip 0) (w32 ip2 0) in
  if negb (bool_decide (ret = SFIP_EQUAL)) then ret else
  let ret := _ip4_cmp (w32 ip 1) (w32 ip2 1) in
  if negb (bool_decide (ret = SFIP_EQUAL)) then ret else
  let ret := _ip4_cmp (w32 ip 2) (w32 ip2 2) in
  if negb (bool_decide (ret = SFIP_EQUAL)) then ret else
  _ip4_cmp (w32 ip 3) (w32 ip2 3).

Definition SfIp_compare (ip ip2 : SfIp) (match_unset : bool) : SfIpRet :=
  if negb (SfIp_is_set ip) || negb (SfIp_is_set ip2) then (if match_unset then SFIP_EQUAL else SFIP_FAILURE)
  else if is_ip4 ip && is_ip4 ip2 then _ip4_cmp (w32 ip 3) (w32 ip2 3)
  else _ip6_cmp ip ip2.

Definition _is_lesser (ip rhs : SfIp) : bool :=
  if is_ip4 ip then is_ip4 rhs && (ntohl (w32 ip 3) <? ntohl (w32 rhs 3))
  else if is_ip6 ip then
    is_ip6 rhs && (ntohl (w32 ip 0) <? ntohl (w32 rhs 0)) && (ntohl (w32 ip 1) <? ntohl (w32 rhs 1)) &&
    (ntohl (w32 ip 2) <? ntohl (w32 rhs 2)) && (ntohl (w32 ip 3) <? ntohl (w32 rhs 3))
  else false.
Definition less_than (ip rhs : SfIp) : bool :=
  if negb (SfIp_is_set ip) || negb (SfIp_is_set rhs) then false else _is_lesser ip rhs.

(** [cidr_mask]: clears what is behind the first [val] bits. *)
Definition cidr_mask (ip : SfIp) (val : Z) : SfIpRet * SfIp :=
  if (val <? 0) || (val >? 128) then (SFIP_ARG_ERR, ip)
  else if val =? 128 then (SFIP_SUCCESS, ip)
  else
    let index := (val + 31) / 32 - 1 in
    let bits := 32 - (val - index * 32) in
    let p := if truth bits
             then wr (ip32 ip) index (Z.land (w32 ip index) (ntohl (u32 (Z.shiftl (Z.shiftr 4294967295 bits) bits))))
             else ip32 ip in
    (SFIP_SUCCESS, MkIp (family ip) (take (Z.to_nat (index + 1)) p ++ replicate (Z.to_nat (4 - (index + 1))) 0)).

(** ** Networks *)

Record SfCidr := MkCidr { addr : SfIp; bits : Z }.

Definition SfCidr_is_set (c : SfCidr) : bool :=
  SfIp_is_set (addr c) || ((is_ip4 (addr c) || is_ip6 (addr c)) && negb (bits c =? 128)).

(** [x >> s << s] on [uint32_t]; undefined for a shift by 32 or more. *)
Definition clear_low (x s : Z) : option Z :=
  if (0 <=? s) && (s <? 32) then Some (u32 (Z.shiftl (Z.shiftr x s) s)) else None.

Definition fast_cont4 (c : SfCidr) (ip : SfIp) : option bool :=
  let shift := u32 (128 - bits c) in
  let needle := ntohl (w32 ip 3) in
  let haystack := ntohl (w32 (addr c) 3) in
  if haystack =? 0 then Some true else needle ← clear_low needle shift; Some (haystack =? needle).

Fixpoint words_equal (k : nat) (i : Z) (p q : SfIp) : bool :=
  match k with
  | O => true
  | S k => if w32 p i =? w32 q i then words_equal k (i + 1) p q else false
  end.

Definition fast_cont6 (c : SfCidr) (ip : SfIp) : option bool :=
  let words := bits c / 32 in
  if negb (words_equal (Z.to_nat words) 0 (addr c) ip) then Some false
  else
    let shift := 32 - bits c mod 32 in
    if shift =? 32 then Some true
    else needle ← clear_low (ntohl (w32 ip words)) shift; Some (ntohl (w32 (addr c) words) =? needle).

(** [SfCidr::contains]; a null address is contained. *)
Definition SfCidr_contains (c : SfCidr) (ip : option SfIp) : option SfIpRet :=
  match ip with
  | None => Some SFIP_CONTAINS
  | Some ip =>
      let i := bits c / 32 in
      if negb (words_equal (Z.to_nat i) 0 (addr c) ip) then Some SFIP_NOT_CONTAINS
      else
        let mask := u32 (32 - (bits c - 32 * i)) in
        if mask =? 32 then Some SFIP_CONTAINS
        else temp ← clear_low (ntohl (w32 ip i)) mask;
             Some (if ntohl (w32 (addr c) i) =? temp then SFIP_CONTAINS else SFIP_NOT_CONTAINS)
  end.

Definition SfCidr_compare (c c2 : SfCidr) : SfIpRet :=
  let ret := SfIp_compare (addr c) (addr c2) true in
  if bool_decide (SFIP_EQUAL = ret) then
    if bits c <? bits c2 then SFIP_LESSER else if bits c >? bits c2 then SFIP_GREATER else ret
  else ret.

(** ** Variables *)

Record sfip_node_t := MkIpNode { ip : SfCidr; SFIP_ANY : bool; SFIP_NEGATED : bool; addr_negated : bool }.

(** A variable in [SFIP_LIST] mode, with its two lists and their counts. *)
Record sfip_var_t := MkVar { head : list sfip_node_t; neg_head : list sfip_node_t; head_count : Z; neg_head_count : Z }.
Definition _alloc_var : sfip_var_t := MkVar [] [] 0 0.

(** The insertion loop of [sfvar_add_node] behind the head: the list and
    whether the node was linked. *)
Fixpoint insertion (l : list sfip_node_t) (node : sfip_node_t) : list sfip_node_t * bool :=
  match l with
  | [] => ([node], true)
  | p :: l =>
      match SfCidr_compare (ip node) (ip p) with
      | SFIP_EQUAL => (p :: l, false)
      | SFIP_LESSER => (node :: p :: l, true)
      | _ => let '(l, n) := insertion l node in (p :: l, n)
      end
  end.

Definition add_node (l : list sfip_node_t) (count : Z) (node : sfip_node_t) : list sfip_node_t * Z :=
  match l with
  | [] => ([node], u32 (count + 1))
  | h :: t =>
      if SFIP_ANY h then (l, count)
      else if SFIP_ANY node then ([node], 1)
      else match SfCidr_compare (ip node) (ip h) with
           | SFIP_EQUAL => (l, count)
           | SFIP_LESSER => (node :: l, u32 (count + 1))
           | _ =>
               if bool_decide (SfIp_compare (addr (ip node)) (addr (ip h)) true = SFIP_LESSER) then (node :: l, count)
               else let '(t, n) := insertion t node in (h :: t, if n then u32 (count + 1) else count)
           end
  end.

Definition sfvar_add_node (var : sfip_var_t) (node : sfip_node_t) (negated : bool) : sfip_var_t :=
  if negated then
    let '(l, n) := add_node (neg_head var) (neg_head_count var) node in MkVar (head var) l (head_count var) n
  else
    let '(l, n) := add_node (head var) (head_count var) node in MkVar l (neg_head var) n (neg_head_count var).

(** The loop of [merge_lists], and what remains of the longer list. *)
Fixpoint merge_loop (l1 : list sfip_node_t) : list sfip_node_t -> list sfip_node_t :=
  fix merge2 (l2 : list sfip_node_t) : list sfip_node_t :=
    match l1, l2 with
    | [], _ => l2
    | _, [] => l1
    | a :: l1', b :: l2' =>
        match SfCidr_compare (ip a) (ip b) with
        | SFIP_GREATER => b :: merge2 l2'
        | SFIP_EQUAL => a :: merge_loop l1' l2'
        | _ => a :: merge_loop l1' l2
        end
    end.

(** The count kept along the loop: nodes linked, plus what is left of the
    length of the list that remains. *)
Fixpoint merge_count (l1 : list sfip_node_t) : list sfip_node_t -> Z -> Z -> Z -> Z :=
  fix count2 (l2 : list sfip_node_t) (len1 len2 num : Z) : Z :=
    match l1, l2 with
    | [], [] => num
    | [], _ => u16 (num + len2)
    | _, [] => u16 (num + len1)
    | a :: l1', b :: l2' =>
        match SfCidr_compare (ip a) (ip b) with
        | SFIP_GREATER => count2 l2' len1 (u16 (len2 - 1)) (u16 (num + 1))
        | SFIP_EQUAL => merge_count l1' l2' (u16 (len1 - 1)) (u16 (len2 - 1)) (u16 (num + 1))
        | _ => merge_count l1' l2 (u16 (len1 - 1)) len2 (u16 (num + 1))
        end
    end.

Definition merge_lists (l1 l2 : list sfip_node_t) (len1 len2 : Z) : list sfip_node_t * Z :=
  match l1, l2 with
  | [], [] => ([], 0)
  | [], _ => (l2, u16 len2)
  | _, [] => (l1, u16 len1)
  | a :: _, b :: _ =>
      if SFIP_ANY a then (l1, u16 len1)
      else if SFIP_ANY b then (l2, u16 len2)
      else (merge_loop l1 l2, merge_count l1 l2 (u16 len1) (u16 len2) 0)
  end.

(** [sfvar_add] merges a copy of [src] into [dst]. *)
Definition sfvar_add (dst src : sfip_var_t) : sfip_var_t :=
  let '(h, n) := merge_lists (head dst) (head src) (head_count dst) (head_count src) in
  let '(g, m) := merge_lists (neg_head dst) (neg_head src) (neg_head_count dst) (neg_head_count src) in
  MkVar h g n m.

Definition _negate_node (n : sfip_node_t) : sfip_node_t :=
  if addr_negated n then MkIpNode (ip n) (SFIP_ANY n) false false else MkIpNode (ip n) (SFIP_ANY n) true true.
Definition _negate_lists (v : sfip_var_t) : sfip_var_t :=
  MkVar (map _negate_node (neg_head v)) (map _negate_node (head v)) (neg_head_count v) (head_count v).

Definition sfvar_validate (v : sfip_var_t) : option SfIpRet :=
  match head v, neg_head v with
  | [], _ | _, [] => Some SFIP_SUCCESS
  | _, _ =>
      fold_right (fun idx r =>
        fold_right (fun neg_idx r =>
          if bits (ip neg_idx) <=? bits (ip idx) then
            c ← SfCidr_contains (ip neg_idx) (Some (addr (ip idx)));
            if bool_decide (c = SFIP_CONTAINS) then Some SFIP_CONFLICT else r
          else r) r (neg_head v)) (Some SFIP_SUCCESS) (head v)
  end.

(** ** Membership *)

(** The two code paths: [fam] is the family looked for, [cont] its test. *)
Section In.
Variable fam : AF.
Variable cont : SfCidr -> SfIp -> option bool.
Variable a : SfIp.

(** [family == fam && cont]. *)
Definition node_cont (n : sfip_node_t) : option bool :=
  if bool_decide (family (addr (ip n)) = fam) then cont (ip n) a else Some false.

Fixpoint no_negation (neg : list sfip_node_t) : option bool :=
  match neg with
  | [] => Some true
  | n :: neg => r ← node_cont n; if (r : bool) then Some false else no_negation neg
  end.

(** The loop over both lists; each round advances one of them or ends. *)
Fixpoint in_loop (fuel : nat) (pos neg : list sfip_node_t) (matched : bool) : option bool :=
  match fuel with
  | O => None
  | S fuel =>
      match pos with
      | [] => Some false
      | p :: pos' =>
          let rest (neg : list sfip_node_t) : option bool :=
            if matched then in_loop fuel pos neg matched
            else if SfCidr_is_set (ip p) then
              r ← node_cont p; if (r : bool) then in_loop fuel pos neg true else in_loop fuel pos' neg false
            else in_loop fuel pos neg true in
          match neg with
          | n :: neg' => r ← node_cont n; if (r : bool) then Some false else rest neg'
          | [] => if matched then Some true else rest []
          end
      end
  end.

Definition ip_in (v : sfip_var_t) : option bool :=
  match head v with
  | [] => no_negation (neg_head v)
  | _ => in_loop (length (head v) + length (neg_head v) + 2) (head v) (neg_head v) false
  end.
End In.

Definition sfvar_ip_in4 (v : sfip_var_t) (a : SfIp) : option bool := ip_in AF_INET fast_cont4 a v.
Definition sfvar_ip_in6 (v : sfip_var_t) (a : SfIp) : option bool := ip_in AF_INET6 fast_cont6 a v.

Definition sfvar_ip_in (v : option sfip_var_t) (a : option SfIp) : option bool :=
  match v, a with
  | Some v, Some a => if is_ip4 a then sfvar_ip_in4 v a else sfvar_ip_in6 v a
  | _, _ => Some false
  end.

(** ** The number a word stands for *)

Definition bytes32 (x : Z) : list Z := [x mod 256; x / 256 mod 256; x / 65536 mod 256; x / 16777216].

Lemma ntohl_eq x : is_u32 x ->
  ntohl x = (x mod 256) * 16777216 + (x / 256 mod 256) * 65536 + (x / 65536 mod 256) * 256 + x / 16777216.
Proof.
  intros H. assert (bytes (bytes32 x)) as Hb by (repeat (constructor; [mlia|]); constructor).
  assert (rd0 (bytes32 x) 0 = x mod 256 /\ rd0 (bytes32 x) (0 + 1) = x / 256 mod 256 /\
    rd0 (bytes32 x) (0 + 2) = x / 65536 mod 256 /\ rd0 (bytes32 x) (0 + 2 + 1) = x / 16777216) as (E0 & E1 & E2 & E3) by done.
  replace (ntohl x) with (ntohl (load32 (bytes32 x) 0)).
  - rewrite ntohl_load32 by done. unfold be32, be16. rewrite E0, E1, E2, E3. lia.
  - f_equal. unfold load32, load16. rewrite E0, E1, E2, E3. mlia.
Qed.

(** A word is its four bytes, read in the two orders. *)
Lemma ntohl_bytes x : is_u32 x -> exists a b c d, is_u8 a /\ is_u8 b /\ is_u8 c /\ is_u8 d /\
  x = a + 256 * b + 65536 * c + 16777216 * d /\ ntohl x = a * 16777216 + b * 65536 + c * 256 + d.
Proof.
  intros H. exists (x mod 256), (x / 256 mod 256), (x / 65536 mod 256), (x / 16777216).
  split_and!; try mlia. by apply ntohl_eq.
Qed.

Lemma ntohl_range x : is_u32 x -> is_u32 (ntohl x).
Proof. intros (a & b & c & d & Ha & Hb & Hc & Hd & _ & ->)%ntohl_bytes. munfold. lia. Qed.
Lemma ntohl_inj x y : is_u32 x -> is_u32 y -> ntohl x = ntohl y -> x = y.
Proof.
  intros (a & b & c & d & Ha & Hb & Hc & Hd & -> & ->)%ntohl_bytes (a' & b' & c' & d' & Ha' & Hb' & Hc' & Hd' & -> & ->)%ntohl_bytes.
  munfold. lia.
Qed.

(** ** Addresses as numbers *)

Record ip_wf (a : SfIp) : Prop := {
  ip_len4 : length (ip32 a) = 4%nat;
  ip_words : Forall is_u32 (ip32 a);
  ip_fam : family a = AF_INET \/ family a = AF_INET6;
  ip_mapped : family a = AF_INET -> w32 a 0 = 0 /\ w32 a 1 = 0 /\ w32 a 2 = 4294901760 }.

(** The first [k] words as a number, and the whole address. *)
Fixpoint prefix_value (k : nat) (a : SfIp) : Z :=
  match k with O => 0 | S k => prefix_value k a * 2 ^ 32 + ntohl (w32 a (Z.of_nat k)) end.
Definition value (a : SfIp) : Z := prefix_value 4 a.

Lemma w32_range a i : Forall is_u32 (ip32 a) -> is_u32 (w32 a i).
Proof.
  intros H. unfold w32, rd0, rd. bcases; [cbn; mlia|]. destruct (ip32 a !! Z.to_nat i) eqn:E; [|cbn; mlia].
  simpl. by eapply (proj1 (Forall_lookup _ _) H).
Qed.

Lemma div_shift x y b s : 0 <= b -> 0 <= s -> 0 <= y < 2 ^ b -> (x * 2 ^ b + y) / 2 ^ (b + s) = x / 2 ^ s.
Proof.
  intros Hb Hs Hy. rewrite Z.pow_add_r by lia. rewrite <- Z.div_div by lia. f_equal.
  rewrite Z.add_comm, Z.div_add by lia. rewrite Z.div_small by lia. lia.
Qed.

Section Values.
Context (a : SfIp) (Ha : Forall is_u32 (ip32 a)).

Lemma word_value i : 0 <= ntohl (w32 a i) < 2 ^ 32.
Proof. pose proof (ntohl_range _ (w32_range a i Ha)). mlia. Qed.
Lemma prefix_range k : 0 <= prefix_value k a < 2 ^ (32 * Z.of_nat k).
Proof.
  induction k as [|k IH]; [done|]. cbn [prefix_value]. pose proof (word_value (Z.of_nat k)).
  replace (32 * Z.of_nat (S k)) with (32 * Z.of_nat k + 32) by lia. rewrite Z.pow_add_r by lia. nia.
Qed.
(** Cutting off the last words. *)
Lemma prefix_cut k j s : 0 <= s -> prefix_value (k + j) a / 2 ^ (32 * Z.of_nat j + s) = prefix_value k a / 2 ^ s.
Proof.
  intros Hs. revert s Hs. induction j as [|j IH]; intros s Hs; [by rewrite Nat.add_0_r|].
  replace (k + S j)%nat with (S (k + j)) by lia. cbn [prefix_value].
  replace (32 * Z.of_nat (S j) + s) with (32 + (32 * Z.of_nat j + s)) by lia.
  rewrite div_shift by (lia || apply word_value). by apply IH.
Qed.
(** A word cut in the middle. *)
Lemma prefix_split k s : 0 <= s <= 32 ->
  prefix_value (S k) a / 2 ^ s = prefix_value k a * 2 ^ (32 - s) + ntohl (w32 a (Z.of_nat k)) / 2 ^ s.
Proof.
  intros Hs. cbn [prefix_value]. replace (2 ^ 32) with (2 ^ (32 - s) * 2 ^ s) by (rewrite <- Z.pow_add_r by lia; f_equal; lia).
  rewrite Z.mul_assoc, Z.add_comm, Z.div_add by lia. lia.
Qed.
Lemma word_cut k s : 0 <= s <= 32 -> 0 <= ntohl (w32 a (Z.of_nat k)) / 2 ^ s < 2 ^ (32 - s).
Proof.
  intros Hs. pose proof (word_value (Z.of_nat k)). split; [apply Z.div_pos; lia|]. apply Z.div_lt_upper_bound; [lia|].
  rewrite <- Z.pow_add_r by lia. replace (s + (32 - s)) with 32 by lia. lia.
Qed.
End Values.

Lemma words_equal_prefix a b k : Forall is_u32 (ip32 a) -> Forall is_u32 (ip32 b) ->
  words_equal k 0 a b = (prefix_value k a =? prefix_value k b).
Proof.
  intros Ha Hb. assert (forall j k, words_equal (j + k) 0 a b = words_equal j 0 a b && words_equal k (Z.of_nat j) a b) as Happ.
  { assert (forall j i k, words_equal (j + k) i a b = words_equal j i a b && words_equal k (i + Z.of_nat j) a b) as H.
    { induction j as [|j IH]; intros i m; simpl; [by rewrite Z.add_0_r|]. destruct (_ =? _); [|done].
      rewrite IH. f_equal. f_equal. lia. }
    intros j m. apply (H j 0 m). }
  induction k as [|k IH]; [done|]. replace (S k) with (k + 1)%nat by lia. rewrite Happ, IH.
  replace (k + 1)%nat with (S k) by lia. cbn [words_equal prefix_value].
  pose proof (word_value a Ha (Z.of_nat k)). pose proof (word_value b Hb (Z.of_nat k)).
  pose proof (ntohl_inj (w32 a (Z.of_nat k)) (w32 b (Z.of_nat k)) (w32_range a _ Ha) (w32_range b _ Hb)) as Hinj.
  apply eq_true_iff_eq. rewrite andb_true_iff, !Z.eqb_eq. bcase (w32 a (Z.of_nat k) =? w32 b (Z.of_nat k)) as E.
  - rewrite E. split; [intros [-> _]; done|]. intros Hv. split; [nia|done].
  - split; [by intros [_ ?]|]. intros Hv. exfalso. apply E, Hinj. nia.
Qed.

(** ** Networks as prefixes *)

Record cidr_wf (c : SfCidr) : Prop := {
  cidr_ip : ip_wf (addr c);
  cidr_bits : 0 <= bits c <= 128;
  cidr_bits4 : family (addr c) = AF_INET -> 96 <= bits c;
  cidr_masked : value (addr c) mod 2 ^ (128 - bits c) = 0 }.

(** The address has the first [bits] bits of the network. *)
Definition same_prefix (c : SfCidr) (a : SfIp) : bool :=
  value (addr c) / 2 ^ (128 - bits c) =? value a / 2 ^ (128 - bits c).
Definition in_net (c : SfCidr) (a : SfIp) : bool := bool_decide (family (addr c) = family a) && same_prefix c a.

Lemma prefix_masked a k j s : Forall is_u32 (ip32 a) -> 0 <= s ->
  prefix_value (k + j) a mod 2 ^ (32 * Z.of_nat j + s) = 0 -> prefix_value k a mod 2 ^ s = 0.
Proof.
  intros Ha Hs H. pose proof (prefix_cut a Ha k j 0 ltac:(lia)) as Hc. rewrite Z.add_0_r, Z.pow_0_r, Z.div_1_r in Hc.
  apply Z.mod_divide in H as [q Hq]; [|lia]. rewrite Hq, Z.pow_add_r, (Z.mul_comm (2 ^ _) (2 ^ s)), Z.mul_assoc, Z.div_mul in Hc by lia.
  rewrite <- Hc. apply Z.mod_mul; lia.
Qed.

Lemma word_masked a k s : Forall is_u32 (ip32 a) -> 0 <= s <= 32 -> prefix_value (S k) a mod 2 ^ s = 0 ->
  ntohl (w32 a (Z.of_nat k)) = ntohl (w32 a (Z.of_nat k)) / 2 ^ s * 2 ^ s.
Proof.
  intros Ha Hs H. assert (ntohl (w32 a (Z.of_nat k)) mod 2 ^ s = 0) as Hm; [|pose proof (Z_div_mod_eq_full (ntohl (w32 a (Z.of_nat k))) (2 ^ s)); lia].
  cbn [prefix_value] in H. replace (2 ^ 32) with (2 ^ (32 - s) * 2 ^ s) in H by (rewrite <- Z.pow_add_r by lia; f_equal; lia).
  rewrite Z.mul_assoc, Z.add_comm, Z.mod_add in H by lia. done.
Qed.

Lemma pair_eq P P' u u' m : 0 < m -> 0 <= u < m -> 0 <= u' < m -> P * m + u = P' * m + u' <-> P = P' /\ u = u'.
Proof. intros. split; [|by intros [-> ->]]. intros H'. assert (P = P') by nia. subst. split; [done|lia]. Qed.

Lemma clear_low_eq x s : is_u32 x -> 0 <= s < 32 -> clear_low x s = Some (x / 2 ^ s * 2 ^ s).
Proof.
  intros Hx Hs. unfold clear_low. bcase ((0 <=? s) && (s <? 32)) as E; [|lia]. f_equal.
  rewrite Z.shiftr_div_pow2, Z.shiftl_mul_pow2 by lia. apply u32_small. unfold is_u32 in *.
  pose proof (Z.mul_div_le x (2 ^ s)). pose proof (Z.div_pos x (2 ^ s)). nia.
Qed.

(** The prefix is the same when the whole words are, and the cut word is. *)
Lemma same_prefix_words c a : cidr_wf c -> ip_wf a ->
  same_prefix c a = words_equal (Z.to_nat (bits c / 32)) 0 (addr c) a &&
    (if 32 - bits c mod 32 =? 32 then true
     else ntohl (w32 (addr c) (bits c / 32)) =? ntohl (w32 a (bits c / 32)) / 2 ^ (32 - bits c mod 32) * 2 ^ (32 - bits c mod 32)).
Proof.
  intros [[_ Hx _ _] Hb _ Hm] [_ Ha _ _]. rewrite words_equal_prefix by done. unfold same_prefix, value in *.
  set (k := Z.to_nat (bits c / 32)). set (s := 32 - bits c mod 32).
  assert (0 <= s <= 32 /\ (k <= 4)%nat /\ bits c = 32 * Z.of_nat k + (32 - s)) as (Hs & Hk & Hbits) by (unfold k, s; mlia).
  replace (bits c / 32) with (Z.of_nat k) by (unfold k; mlia). bcase (s =? 32) as E.
  - replace (128 - bits c) with (32 * Z.of_nat (4 - k) + 0) by lia.
    assert (forall j x, k + j = 4 -> prefix_value 4 x = prefix_value (k + j) x)%nat as H4 by (by intros j x ->).
    rewrite (H4 (4 - k)%nat), (H4 (4 - k)%nat a) by lia.
    rewrite !prefix_cut by (done || lia). by rewrite Z.pow_0_r, !Z.div_1_r, andb_true_r.
  - assert (k < 4)%nat as Hk' by lia. replace (128 - bits c) with (32 * Z.of_nat (4 - S k) + s) in * by lia.
    assert (forall j x, S k + j = 4 -> prefix_value 4 x = prefix_value (S k + j) x)%nat as H4 by (by intros j x ->).
    rewrite (H4 (4 - S k)%nat) in Hm by lia. apply prefix_masked in Hm; [|done|lia].
    rewrite (H4 (4 - S k)%nat), (H4 (4 - S k)%nat a) by lia. rewrite !prefix_cut, !prefix_split by (done || lia).
    rewrite (word_masked (addr c) k s Hx Hs Hm) at 2.
    pose proof (word_cut (addr c) Hx k s Hs) as B1. pose proof (word_cut a Ha k s Hs) as B2. pose proof (Z.pow_pos_nonneg 2 s).
    apply eq_true_iff_eq. rewrite andb_true_iff, !Z.eqb_eq, (pair_eq _ _ _ _ (2 ^ (32 - s))) by (done || lia).
    split; intros [H1 H2]; (split; [done|]); [by rewrite H2|nia].
Qed.

Lemma fast_cont6_eq c a : cidr_wf c -> ip_wf a -> fast_cont6 c a = Some (same_prefix c a).
Proof.
  intros Hc Ha. rewrite same_prefix_words by done. unfold fast_cont6. destruct (words_equal _ _ _ _); [|done]. cbn [negb andb].
  destruct (32 - bits c mod 32 =? 32) eqn:E; [done|]. apply Z.eqb_neq in E.
  rewrite clear_low_eq by (mlia || (apply ntohl_range, w32_range, Ha)). done.
Qed.

Lemma contains_eq c a : cidr_wf c -> ip_wf a ->
  SfCidr_contains c (Some a) = Some (if same_prefix c a then SFIP_CONTAINS else SFIP_NOT_CONTAINS).
Proof.
  intros Hc Ha. pose proof (cidr_bits _ Hc) as Hb. rewrite same_prefix_words by done. unfold SfCidr_contains.
  replace (u32 (32 - (bits c - 32 * (bits c / 32)))) with (32 - bits c mod 32) by mlia.
  destruct (words_equal _ _ _ _); [|done]. cbn [negb andb].
  destruct (32 - bits c mod 32 =? 32) eqn:E; [done|]. apply Z.eqb_neq in E.
  rewrite clear_low_eq by (mlia || (apply ntohl_range, w32_range, Ha)). cbn [mbind option_bind]. by destruct (_ =? _).
Qed.

(** *** Masking *)

Lemma high_bits_zero x n i : 0 <= x < 2 ^ n -> 0 <= n <= i -> Z.testbit x i = false.
Proof.
  intros Hx Hi. destruct (Z.eq_dec x 0) as [->|]; [apply Z.bits_0|]. apply Z.bits_above_log2; [lia|].
  apply Z.log2_lt_pow2; [lia|]. pose proof (Z.pow_le_mono_r 2 n i). lia.
Qed.

Lemma land_range x y n : 0 <= n -> 0 <= x < 2 ^ n -> 0 <= y -> 0 <= Z.land x y < 2 ^ n.
Proof.
  intros Hn Hx Hy. split; [apply Z.land_nonneg; left; lia|]. replace (Z.land x y) with (Z.land x y mod 2 ^ n); [apply Z.mod_pos_bound; lia|].
  rewrite <- Z.land_ones by lia. rewrite <- Z.land_assoc, (Z.land_comm y), Z.land_assoc, Z.land_ones by lia. by rewrite Z.mod_small.
Qed.

(** Bitwise and works on the digits. *)
Lemma land_digits n a b a' b' : 0 <= n -> 0 <= a < 2 ^ n -> 0 <= a' < 2 ^ n ->
  Z.land (b * 2 ^ n + a) (b' * 2 ^ n + a') = Z.land b b' * 2 ^ n + Z.land a a'.
Proof.
  intros Hn Ha Ha'. pose proof (land_range a a' n Hn Ha ltac:(lia)) as Hr. rewrite <- !lor_shiftl by done.
  apply Z.bits_inj'. intros i Hi. rewrite Z.land_spec, !Z.lor_spec. destruct (Z.lt_ge_cases i n).
  - rewrite !Z.shiftl_spec_low by done. by rewrite Z.land_spec.
  - rewrite !Z.shiftl_spec_high by lia. rewrite (high_bits_zero a n), (high_bits_zero a' n), (high_bits_zero (Z.land a a') n) by (done || lia).
    by rewrite !orb_false_r, Z.land_spec.
Qed.

Lemma ntohl_digits a b c d : is_u8 a -> is_u8 b -> is_u8 c -> is_u8 d ->
  ntohl (a + 256 * b + 65536 * c + 16777216 * d) = a * 16777216 + b * 65536 + c * 256 + d.
Proof.
  intros Ha Hb Hc Hd. set (x := a + _ + _ + _).
  destruct (ntohl_bytes x) as (a' & b' & c' & d' & Ha' & Hb' & Hc' & Hd' & E & ->); [unfold x; munfold; lia|].
  unfold x in E. clear x. munfold. assert (a = a' /\ b = b' /\ c = c' /\ d = d') by lia. lia.
Qed.

Lemma ntohl_land x m : is_u32 x -> is_u32 m -> ntohl (Z.land x (ntohl m)) = Z.land (ntohl x) m.
Proof.
  intros (a & b & c & d & Ha & Hb & Hc & Hd & -> & ->)%ntohl_bytes (d' & c' & b' & a' & Hd' & Hc' & Hb' & Ha' & -> & ->)%ntohl_bytes.
  assert (forall p q r s p' q' r' s', is_u8 p -> is_u8 q -> is_u8 r -> is_u8 s -> is_u8 p' -> is_u8 q' -> is_u8 r' -> is_u8 s' ->
    Z.land (s * 16777216 + (r * 65536 + (q * 256 + p))) (s' * 16777216 + (r' * 65536 + (q' * 256 + p'))) =
    Z.land s s' * 16777216 + (Z.land r r' * 65536 + (Z.land q q' * 256 + Z.land p p'))) as H.
  { intros p q r s p' q' r' s' Hp Hq Hr Hs Hp' Hq' Hr' Hs'.
    pose proof (land_digits 24 (r * 65536 + (q * 256 + p)) s (r' * 65536 + (q' * 256 + p')) s' ltac:(lia)) as H24.
    pose proof (land_digits 16 (q * 256 + p) r (q' * 256 + p') r' ltac:(lia)) as H16.
    pose proof (land_digits 8 p q p' q' ltac:(lia)) as H8. change (2 ^ 24) with 16777216 in H24. change (2 ^ 16) with 65536 in H16.
    change (2 ^ 8) with 256 in H8. rewrite H24, H16, H8 by (munfold; lia). done. }
  replace (a + 256 * b + 65536 * c + 16777216 * d) with (d * 16777216 + (c * 65536 + (b * 256 + a))) by lia.
  replace (d' * 16777216 + c' * 65536 + b' * 256 + a') with (d' * 16777216 + (c' * 65536 + (b' * 256 + a'))) by lia.
  replace (a * 16777216 + b * 65536 + c * 256 + d) with (a * 16777216 + (b * 65536 + (c * 256 + d))) by lia.
  replace (d' + 256 * c' + 65536 * b' + 16777216 * a') with (a' * 16777216 + (b' * 65536 + (c' * 256 + d'))) by lia.
  rewrite !H by done.
  assert (forall u v, is_u8 u -> is_u8 v -> is_u8 (Z.land u v)) as Hl by (intros u v Hu Hv; apply (land_range u v 8); munfold; lia).
  replace (Z.land d d' * 16777216 + (Z.land c c' * 65536 + (Z.land b b' * 256 + Z.land a a')))
    with (Z.land a a' + 256 * Z.land b b' + 65536 * Z.land c c' + 16777216 * Z.land d d') by lia.
  rewrite ntohl_digits by (by apply Hl). lia.
Qed.

Lemma land_mask y s : is_u32 y -> 0 <= s < 32 ->
  Z.land y (u32 (Z.shiftl (Z.shiftr 4294967295 s) s)) = y / 2 ^ s * 2 ^ s.
Proof.
  intros Hy Hs. pose proof (clear_low_eq 4294967295 s ltac:(mlia) Hs) as Hc. unfold clear_low in Hc.
  replace ((0 <=? s) && (s <? 32)) with true in Hc by (symmetry; apply andb_true_iff; split; [apply Z.leb_le|apply Z.ltb_lt]; lia).
  injection Hc as ->. replace (4294967295 / 2 ^ s) with (Z.ones (32 - s)).
  - pose proof (Z_div_mod_eq_full y (2 ^ s)) as E. pose proof (Z.mod_pos_bound y (2 ^ s) ltac:(lia)) as Hb.
    rewrite E at 1. rewrite (Z.mul_comm (2 ^ s)). replace (Z.ones (32 - s) * 2 ^ s) with (Z.ones (32 - s) * 2 ^ s + 0) by lia.
    rewrite land_digits by lia. rewrite Z.land_0_r, Z.add_0_r. f_equal. rewrite Z.land_ones by lia. apply Z.mod_small.
    split; [apply Z.div_pos; unfold is_u32 in Hy; lia|]. apply Z.div_lt_upper_bound; [lia|]. rewrite <- Z.pow_add_r by lia.
    replace (s + (32 - s)) with 32 by lia. unfold is_u32 in Hy. lia.
  - change 4294967295 with (Z.ones 32). rewrite <- Z.shiftr_div_pow2 by lia. apply Z.bits_inj'. intros i Hi.
    rewrite Z.shiftr_spec, !Z.testbit_ones by lia.
    apply eq_true_iff_eq. rewrite !andb_true_iff, !Z.leb_le, !Z.ltb_lt. lia.
Qed.

Lemma prefix_value_ext a b k : (forall i, (i < k)%nat -> w32 a (Z.of_nat i) = w32 b (Z.of_nat i)) -> prefix_value k a = prefix_value k b.
Proof. induction k as [|k IH]; intros H; [done|]. cbn [prefix_value]. rewrite IH by (intros; apply H; lia). by rewrite (H k) by lia. Qed.

(** Whole words kept, one masked, the rest zero. *)
Lemma masked_value a a' (k j : nat) s : Forall is_u32 (ip32 a) -> (S k + j = 4)%nat -> 0 <= s <= 32 ->
  (forall i, (i < k)%nat -> w32 a' (Z.of_nat i) = w32 a (Z.of_nat i)) ->
  ntohl (w32 a' (Z.of_nat k)) = ntohl (w32 a (Z.of_nat k)) / 2 ^ s * 2 ^ s ->
  (forall i, (k < i)%nat -> w32 a' (Z.of_nat i) = 0) ->
  value a' = value a / 2 ^ (32 * Z.of_nat j + s) * 2 ^ (32 * Z.of_nat j + s).
Proof.
  intros Ha Hk Hs H1 H2 H3. assert (forall x, value x = prefix_value (S k + j) x) as Hv by (intros x; unfold value; f_equal; lia).
  rewrite !Hv, prefix_cut, prefix_split by (done || lia).
  assert (forall m, prefix_value (S k + m) a' = prefix_value (S k) a' * 2 ^ (32 * Z.of_nat m)) as Hz.
  { induction m as [|m IH]; [rewrite Nat.add_0_r; lia|]. rewrite Nat.add_succ_r.
    change (prefix_value (S (S k + m)) a') with (prefix_value (S k + m) a' * 2 ^ 32 + ntohl (w32 a' (Z.of_nat (S k + m)))).
    rewrite H3 by lia. change (ntohl 0) with 0.
    rewrite IH. replace (32 * Z.of_nat (S m)) with (32 * Z.of_nat m + 32) by lia. rewrite Z.pow_add_r by lia. ring. }
  rewrite Hz. cbn [prefix_value]. rewrite H2, (prefix_value_ext a' a k H1). rewrite Z.pow_add_r by lia.
  replace (2 ^ 32) with (2 ^ (32 - s) * 2 ^ s) by (rewrite <- Z.pow_add_r by lia; f_equal; lia). ring.
Qed.

(** [cidr_mask] keeps the prefix of the address and clears the rest. *)
Lemma cidr_mask_value a val : length (ip32 a) = 4%nat -> Forall is_u32 (ip32 a) -> 0 <= val <= 128 ->
  exists a', cidr_mask a val = (SFIP_SUCCESS, a') /\ family a' = family a /\
    value a' = value a / 2 ^ (128 - val) * 2 ^ (128 - val).
Proof.
  intros Hl Ha Hval. unfold cidr_mask. bcase ((val <? 0) || (val >? 128)) as E1; [lia|].
  bcase (val =? 128) as E2. { exists a. subst. by rewrite Z.pow_0_r, Z.div_1_r, Z.mul_1_r. }
  set (index := (val + 31) / 32 - 1). set (s := 32 - (val - index * 32)). eexists. split; [done|]. split; [done|].
  destruct a as [fa l]. simpl in Hl. destruct l as [|x0 [|x1 [|x2 [|x3 [|]]]]]; try done.
  pose proof (w32_range (MkIp fa [x0; x1; x2; x3])) as Hw. cbn [ip32] in *.
  assert (0 <= s < 32 /\ 128 - val = 32 * (3 - index) + s /\ -1 <= index <= 3) as (Hs & Hb & Hi) by (unfold s, index; mlia).
  destruct (Z.eq_dec index (-1)) as [E|Hne].
  { assert (s = 0) as -> by (unfold s; rewrite E in *; lia). rewrite E in *. cbn. rewrite Hb. pose proof (prefix_range (MkIp fa [x0; x1; x2; x3]) Ha 4) as Hr.
    fold (value (MkIp fa [x0; x1; x2; x3])) in Hr. rewrite Z.div_small by exact Hr. done. }
  assert (forall x, is_u32 x -> ntohl (if truth s then Z.land x (ntohl (u32 (Z.shiftl (Z.shiftr 4294967295 s) s))) else x) =
    ntohl x / 2 ^ s * 2 ^ s) as Hn.
  { intros x Hx. bcase (truth s) as Es; [|rewrite Es, Z.pow_0_r, Z.div_1_r; lia].
    rewrite ntohl_land by (done || apply u32_range). apply land_mask; [by apply ntohl_range|done]. }
  replace (128 - val) with (32 * Z.of_nat (Z.to_nat (3 - index)) + s) by lia.
  apply (masked_value _ _ (Z.to_nat index)); [done|lia|lia|..].
  - intros i Hlt. assert (index = 1 \/ index = 2 \/ index = 3) as [E|[E|E]] by lia; rewrite E in *;
      destruct i as [|[|[|i]]]; try (exfalso; simpl in Hlt; lia); by destruct (truth s).
  - rewrite <- Hn by (by apply Hw). assert (index = 0 \/ index = 1 \/ index = 2 \/ index = 3) as [E|[E|[E|E]]] by lia; rewrite E in *;
      by destruct (truth s).
  - intros i Hgt. assert (index = 0 \/ index = 1 \/ index = 2 \/ index = 3) as [E|[E|[E|E]]] by lia; rewrite E in *;
      destruct i as [|[|[|[|i]]]]; try (exfalso; simpl in Hgt; lia); try (by destruct (truth s));
      unfold w32, rd0, rd; bcases; try done; by rewrite Nat2Z.id; destruct (truth s).
Qed.

(** For IPv4 the test is right but for networks whose address is 0. *)
Lemma fast_cont4_eq c a : cidr_wf c -> ip_wf a -> family (addr c) = AF_INET -> family a = AF_INET -> w32 (addr c) 3 <> 0 ->
  fast_cont4 c a = Some (same_prefix c a).
Proof.
  intros Hc Ha Hf Hfa H0. pose proof (cidr_bits _ Hc) as Hb. pose proof (cidr_bits4 _ Hc Hf) as Hb4. pose proof Hc as [[_ Hx _ Hm] _ _ Hmask].
  destruct (Hm Hf) as (X0 & X1 & X2). destruct (ip_mapped _ Ha Hfa) as (A0 & A1 & A2).
  pose proof (word_value (addr c) Hx 3) as R. pose proof (word_value a (ip_words _ Ha) 3) as Ra.
  assert (ntohl (w32 (addr c) 3) <> 0) as Hn.
  { intros E. apply H0. apply (ntohl_inj _ 0); [by apply w32_range|mlia|]. by rewrite E. }
  set (s := 128 - bits c) in *. assert (0 <= s <= 32) as Hs by (unfold s; lia).
  assert (value (addr c) mod 2 ^ s = ntohl (w32 (addr c) 3) mod 2 ^ s) as Hv.
  { unfold value. cbn [prefix_value]. replace (2 ^ 32) with (2 ^ (32 - s) * 2 ^ s) by (rewrite <- Z.pow_add_r by lia; f_equal; lia).
    rewrite Z.mul_assoc, Z.add_comm. by rewrite Z.mod_add by lia. }
  rewrite Hv in Hmask. assert (s < 32) as Hs'.
  { destruct (Z.eq_dec s 32) as [E|]; [|lia]. rewrite E, Z.mod_small in Hmask by done. done. }
  unfold fast_cont4. fold s. rewrite (u32_small s) by mlia. bcase (ntohl (w32 (addr c) 3) =? 0) as E; [done|].
  rewrite clear_low_eq by (lia || (apply ntohl_range, w32_range, Ha)). cbn [mbind option_bind]. f_equal.
  unfold same_prefix, value. fold s. rewrite !prefix_split by (done || apply Ha).
  assert (prefix_value 3 (addr c) = prefix_value 3 a) as -> by (cbn [prefix_value]; change (Z.of_nat 2) with 2; change (Z.of_nat 1) with 1; change (Z.of_nat 0) with 0; congruence).
  pose proof (Z_div_mod_eq_full (ntohl (w32 (addr c) 3)) (2 ^ s)). change (Z.of_nat 3) with 3. pose proof (Z.pow_pos_nonneg 2 s).
  apply eq_true_iff_eq. rewrite !Z.eqb_eq. split; intros; nia.
Qed.

(** ** Nodes and lists *)

(** A node with an address of its own, and "any" (0.0.0.0).  An IPv6 node is
    not a mapped IPv4 address. *)
Record plain (n : sfip_node_t) : Prop := {
  pl_any : SFIP_ANY n = false;
  pl_wf : cidr_wf (ip n);
  pl_set : SfIp_is_set (addr (ip n)) = true;
  pl_v6 : family (addr (ip n)) = AF_INET6 ->
    ~ (w32 (addr (ip n)) 0 = 0 /\ w32 (addr (ip n)) 1 = 0 /\ w32 (addr (ip n)) 2 = 4294901760) }.
Definition any_node (n : sfip_node_t) : Prop := SFIP_ANY n = true /\ SfCidr_is_set (ip n) = false.

Definition denotes (a : SfIp) (n : sfip_node_t) : bool := SFIP_ANY n || in_net (ip n) a.
Definition covers (l : list sfip_node_t) (a : SfIp) : bool := existsb (denotes a) l.

(** A list is "any" alone or has no "any". *)
Definition list_ok (l : list sfip_node_t) : Prop := (exists n, l = [n] /\ any_node n) \/ Forall plain l.

Lemma ip4_cmp_equal x y : is_u32 x -> is_u32 y -> _ip4_cmp x y = SFIP_EQUAL -> x = y.
Proof. intros Hx Hy. unfold _ip4_cmp. bcases; try done. intros _. apply ntohl_inj; [done|done|lia]. Qed.

Lemma ip6_cmp_equal a b : Forall is_u32 (ip32 a) -> Forall is_u32 (ip32 b) -> _ip6_cmp a b = SFIP_EQUAL ->
  w32 a 0 = w32 b 0 /\ w32 a 1 = w32 b 1 /\ w32 a 2 = w32 b 2 /\ w32 a 3 = w32 b 3.
Proof.
  intros Ha Hb. unfold _ip6_cmp. repeat case_bool_decide; cbn [negb]; try done. intros.
  split_and!; apply ip4_cmp_equal; done || by apply w32_range.
Qed.

Lemma compare_equal n m a : plain n -> plain m -> SfCidr_compare (ip n) (ip m) = SFIP_EQUAL ->
  in_net (ip n) a = in_net (ip m) a.
Proof.
  intros [_ Hn Sn Vn] [_ Hm Sm Vm]. unfold SfCidr_compare. case_bool_decide as E.
  2:{ intros H. by rewrite H in E. }
  bcases; try done. intros _. assert (bits (ip n) = bits (ip m)) as Eb by lia. symmetry in E.
  unfold SfIp_compare in E. rewrite Sn, Sm in E. cbn [negb orb] in E.
  pose proof (cidr_ip _ Hn) as [_ Wn Fn Mn]. pose proof (cidr_ip _ Hm) as [_ Wm Fm Mm].
  assert (family (addr (ip n)) = family (addr (ip m)) /\ w32 (addr (ip n)) 0 = w32 (addr (ip m)) 0 /\
    w32 (addr (ip n)) 1 = w32 (addr (ip m)) 1 /\ w32 (addr (ip n)) 2 = w32 (addr (ip m)) 2 /\
    w32 (addr (ip n)) 3 = w32 (addr (ip m)) 3) as (Ef & E0 & E1 & E2 & E3).
  { unfold is_ip4 in E. repeat case_bool_decide; cbn [andb] in E; try apply ip6_cmp_equal in E as (E0 & E1 & E2 & E3); try done.
    - apply ip4_cmp_equal in E; try by apply w32_range. destruct (Mn H) as (-> & -> & ->), (Mm H0) as (-> & -> & ->). by rewrite H, H0.
    - destruct Fm as [|F6]; [done|]. destruct (Mn H) as (Z0 & Z1 & Z2). exfalso. apply (Vm F6). by rewrite <- E0, <- E1, <- E2.
    - destruct Fn as [|F6]; [done|]. destruct (Mm H0) as (Z0 & Z1 & Z2). exfalso. apply (Vn F6). by rewrite E0, E1, E2.
    - destruct Fn as [Fn|Fn], Fm as [Fm|Fm]; try done. by rewrite Fn, Fm. }
  unfold in_net, same_prefix. rewrite Ef, Eb. do 2 f_equal. f_equal. unfold value. cbn [prefix_value].
  change (Z.of_nat 3) with 3. change (Z.of_nat 2) with 2. change (Z.of_nat 1) with 1. change (Z.of_nat 0) with 0. congruence.
Qed.

Lemma denotes_plain n a : plain n -> denotes a n = in_net (ip n) a.
Proof. intros H. unfold denotes. by rewrite (pl_any _ H). Qed.

Lemma covers_cons n l a : covers (n :: l) a = denotes a n || covers l a.
Proof. done. Qed.
Lemma covers_app l k a : covers (l ++ k) a = covers l a || covers k a.
Proof. apply existsb_app. Qed.

Lemma insertion_spec l n a : Forall plain l -> plain n ->
  covers (insertion l n).1 a = covers l a || denotes a n /\ Forall plain (insertion l n).1.
Proof.
  intros Hl Hn. induction l as [|p l IH]; cbn [insertion].
  - cbn [fst]. rewrite covers_cons, orb_false_r. split; [done|by constructor].
  - apply Forall_cons in Hl as [Hp Hl]. specialize (IH Hl). pose proof (compare_equal n p a Hn Hp) as He.
    destruct (insertion l n) as [l' k] eqn:E. cbn [fst] in IH. destruct IH as [IH1 IH2].
    destruct (SfCidr_compare (ip n) (ip p)); cbn [fst]; rewrite ?covers_cons, ?IH1; (split; [|by repeat (apply Forall_cons; split)]);
      try (by rewrite orb_assoc); rewrite ?(denotes_plain n), ?(denotes_plain p) by done.
    + by rewrite (orb_comm (_ || _)).
    + rewrite He by done. by destruct (in_net (ip p) a), (covers l a).
Qed.

Lemma any_denotes n a : any_node n -> denotes a n = true.
Proof. intros [H _]. unfold denotes. by rewrite H. Qed.
Lemma any_plain n : any_node n -> plain n -> False.
Proof. intros [H _] [H' _ _ _]. congruence. Qed.

Lemma add_node_spec l c n a : list_ok l -> plain n \/ any_node n ->
  covers (add_node l c n).1 a = covers l a || denotes a n /\ list_ok (add_node l c n).1 /\ (add_node l c n).1 <> [].
Proof.
  intros Hl Hn. unfold add_node. destruct l as [|h t]; cbn [fst].
  { rewrite covers_cons, orb_false_r. split_and!; [done| |done]. destruct Hn; [right; by constructor|left; by exists n]. }
  destruct Hl as [(x & [= -> ->] & Hx)|Hl].
  - rewrite (proj1 Hx). cbn [fst]. rewrite covers_cons, (any_denotes x a Hx). split_and!; [done|left; by exists x|done].
  - pose proof Hl as [Hh Ht]%Forall_cons. rewrite (pl_any _ Hh). destruct Hn as [Hn|Hn].
    2:{ rewrite (proj1 Hn). cbn [fst]. rewrite (covers_cons n), (any_denotes n a Hn), orb_true_r.
        split_and!; [done|left; by exists n|done]. }
    rewrite (pl_any _ Hn). pose proof (compare_equal n h a Hn Hh) as He. pose proof (insertion_spec t n a Ht Hn) as [Hi1 Hi2].
    assert (list_ok (n :: h :: t)) as Hnl by (right; by constructor).
    destruct (insertion t n) as [t' k]. cbn [fst] in Hi1, Hi2. assert (list_ok (h :: t')) as Ht' by (right; by constructor).
    destruct (SfCidr_compare (ip n) (ip h)); try (case_bool_decide); cbn [fst]; rewrite ?(covers_cons n), ?(covers_cons h), ?Hi1;
      (split_and!; [|done || by right|done]); try (by rewrite orb_assoc); try (by rewrite (orb_comm (_ || _))).
    rewrite !denotes_plain, He by done. by destruct (in_net (ip h) a), (covers t a).
Qed.

Lemma merge_loop_spec l1 : forall l2 a, Forall plain l1 -> Forall plain l2 ->
  covers (merge_loop l1 l2) a = covers l1 a || covers l2 a /\ Forall plain (merge_loop l1 l2) /\
  (merge_loop l1 l2 = [] -> l1 = [] /\ l2 = []).
Proof.
  induction l1 as [|x l1 IH1]; [by intros []|]. induction l2 as [|y l2 IH2]; intros a H1 H2.
  { cbn. by rewrite orb_false_r. }
  pose proof H1 as [Hx H1']%Forall_cons. pose proof H2 as [Hy H2']%Forall_cons.
  destruct (IH2 a H1 H2') as (A1 & A2 & _). destruct (IH1 (y :: l2) a H1' H2) as (B1 & B2 & _).
  destruct (IH1 l2 a H1' H2') as (C1 & C2 & _). cbn [merge_loop] in *. pose proof (compare_equal x y a Hx Hy) as He.
  destruct (SfCidr_compare (ip x) (ip y)); (split_and!; [|by constructor|done]);
    rewrite ?(covers_cons x), ?(covers_cons y); rewrite ?A1, ?B1, ?C1, ?(covers_cons x), ?(covers_cons y);
    try (by rewrite orb_assoc).
  - rewrite !orb_assoc. by rewrite (orb_comm (denotes a y)), <- !orb_assoc, (orb_assoc (denotes a y)), (orb_comm (denotes a y)), !orb_assoc.
  - rewrite !denotes_plain, He by done. by destruct (in_net (ip y) a), (covers l1 a).
Qed.

Lemma merge_lists_spec l1 l2 m n a : list_ok l1 -> list_ok l2 ->
  let l := (merge_lists l1 l2 m n).1 in
  covers l a = covers l1 a || covers l2 a /\ list_ok l /\ (l = [] <-> l1 = [] /\ l2 = []).
Proof.
  intros H1 H2. unfold merge_lists. destruct l1 as [|x l1]; destruct l2 as [|y l2]; cbn [fst].
  - done.
  - split_and!; [done|done|]. split; [done|by intros []].
  - rewrite orb_false_r. split_and!; [done|done|]. split; [done|by intros []].
  - destruct H1 as [(x' & [= <- ->] & Hx)|H1].
    { rewrite (proj1 Hx). cbn [fst]. rewrite covers_cons, (any_denotes x a Hx). split_and!; [done|left; by exists x|].
      split; [done|by intros []]. }
    rewrite (pl_any x) by (by apply Forall_cons in H1 as []). destruct H2 as [(y' & [= <- ->] & Hy)|H2].
    { rewrite (proj1 Hy). cbn [fst]. rewrite (covers_cons y), (any_denotes y a Hy), orb_true_r. split_and!; [done|left; by exists y|].
      split; [done|by intros []]. }
    rewrite (pl_any y) by (by apply Forall_cons in H2 as []). cbn [fst].
    destruct (merge_loop_spec (x :: l1) (y :: l2) a H1 H2) as (E & Hp & He).
    split_and!; [done|by right|]. split; [done|by intros []].
Qed.

Lemma negate_covers l a : covers (map _negate_node l) a = covers l a.
Proof.
  induction l as [|n l IH]; [done|]. cbn [map]. rewrite !covers_cons, IH. f_equal.
  unfold denotes, _negate_node. by destruct (addr_negated n).
Qed.
Lemma negate_plain l : Forall plain l -> Forall plain (map _negate_node l).
Proof.
  induction 1 as [|n l [H1 H2 H3 H4] _ IH]; [constructor|]. cbn [map]. constructor; [|done].
  unfold _negate_node. destruct (addr_negated n); by constructor.
Qed.

(** ** The lookup loop *)

Section Lookup.
Context (fam : AF) (cont : SfCidr -> SfIp -> option bool) (a : SfIp) (cb : sfip_node_t -> bool).
Definition hit (n : sfip_node_t) : bool := negb (SfCidr_is_set (ip n)) || cb n.

Lemma no_negation_spec neg : Forall (fun n => node_cont fam cont a n = Some (cb n)) neg ->
  no_negation fam cont a neg = Some (negb (existsb cb neg)).
Proof.
  induction 1 as [|n neg Hn _ IH]; [done|]. cbn [no_negation existsb]. rewrite Hn. cbn [mbind option_bind].
  by destruct (cb n).
Qed.

Lemma in_loop_spec fuel : forall pos neg m,
  Forall (fun n => SfCidr_is_set (ip n) = true -> node_cont fam cont a n = Some (cb n)) pos ->
  Forall (fun n => node_cont fam cont a n = Some (cb n)) neg ->
  (m = true -> pos <> []) -> (length pos + length neg + (if m then 0 else 1) < fuel)%nat ->
  in_loop fam cont a fuel pos neg m = Some ((m || existsb hit pos) && negb (existsb cb neg)).
Proof.
  induction fuel as [|fuel IH]; intros pos neg m Hp Hn Hm Hf; [lia|]. cbn [in_loop].
  destruct pos as [|p pos]; [destruct m; [by destruct (Hm eq_refl)|done]|]. pose proof Hp as [Hp1 Hp2]%Forall_cons. cbv zeta.
  assert (forall neg', Forall (fun n => node_cont fam cont a n = Some (cb n)) neg' ->
    (S (length pos) + length neg' + (if m then 0 else 1) < S fuel)%nat -> (m = true -> length neg' < length neg)%nat ->
    (if m then in_loop fam cont a fuel (p :: pos) neg' m
     else if SfCidr_is_set (ip p) then
       r ← node_cont fam cont a p; if (r : bool) then in_loop fam cont a fuel (p :: pos) neg' true else in_loop fam cont a fuel pos neg' false
     else in_loop fam cont a fuel (p :: pos) neg' true) =
    Some ((m || existsb hit (p :: pos)) && negb (existsb cb neg'))) as Hrest.
  { intros neg' Hn' Hf' Hl. cbn [existsb]. destruct m.
    - specialize (Hl eq_refl). rewrite IH; [done|done|done|done|simpl in *; lia].
    - unfold hit at 1. destruct (SfCidr_is_set (ip p)) eqn:Es; cbn [negb orb].
      + rewrite Hp1 by done. cbn [mbind option_bind]. destruct (cb p); cbn [orb].
        * rewrite IH; [done|done|done|done|simpl in *; lia].
        * rewrite IH; [done|done|done|done|simpl in *; lia].
      + rewrite IH; [done|done|done|done|simpl in *; lia]. }
  destruct neg as [|n neg].
  - destruct m; [done|]. apply (Hrest []); [done|simpl in *; lia|done].
  - apply Forall_cons in Hn as [Hn1 Hn2]. rewrite Hn1. cbn [mbind option_bind existsb]. destruct (cb n); cbn [orb negb].
    + by rewrite andb_false_r.
    + rewrite Hrest; [done|done|simpl in *; lia|simpl; lia].
Qed.
End Lookup.

(** A node of the right family answers for its network. *)
Lemma plain_cont4 n a : plain n -> ip_wf a -> family a = AF_INET -> node_cont AF_INET fast_cont4 a n = Some (in_net (ip n) a).
Proof.
  intros [_ Hw Hs _] Ha Hf. unfold node_cont, in_net. rewrite Hf. case_bool_decide as E; [|done]. cbn [andb].
  apply fast_cont4_eq; try done. intros E3. unfold SfIp_is_set, is_ip4, is_ip6 in Hs. rewrite E, E3 in Hs. done.
Qed.
Lemma plain_cont6 n a : plain n -> ip_wf a -> family a = AF_INET6 -> node_cont AF_INET6 fast_cont6 a n = Some (in_net (ip n) a).
Proof.
  intros [_ Hw _ _] Ha Hf. unfold node_cont, in_net. rewrite Hf. case_bool_decide as E; [|done]. cbn [andb]. by apply fast_cont6_eq.
Qed.

Lemma plain_is_set n : plain n -> SfCidr_is_set (ip n) = true.
Proof. intros H. unfold SfCidr_is_set. by rewrite (pl_set _ H). Qed.

(** ** Variables *)

Record var_ok (v : sfip_var_t) : Prop := { vo_pos : list_ok (head v); vo_neg : Forall plain (neg_head v) }.

Lemma covers_hits l a cb : list_ok l -> (forall n, plain n -> cb n = in_net (ip n) a) -> existsb (hit cb) l = covers l a.
Proof.
  intros [(n & -> & Hn)|Hl] Hcb; cbn.
  - rewrite (any_denotes n a Hn). unfold hit. by rewrite (proj2 Hn).
  - induction Hl as [|n l Hn _ IH]; [done|]. cbn. rewrite IH. unfold hit. by rewrite plain_is_set, denotes_plain, Hcb.
Qed.

Lemma existsb_covers l a cb : Forall plain l -> (forall n, plain n -> cb n = in_net (ip n) a) -> existsb cb l = covers l a.
Proof. intros Hl Hcb. induction Hl as [|n l Hn _ IH]; [done|]. cbn. by rewrite IH, denotes_plain, Hcb. Qed.

(** The lookup answers with the lists. *)
Lemma sfvar_ip_in_lists v a : var_ok v -> ip_wf a ->
  sfvar_ip_in (Some v) (Some a) = Some ((bool_decide (head v = []) || covers (head v) a) && negb (covers (neg_head v) a)).
Proof.
  intros [Hp Hn] Ha. assert (forall fam cont, (forall n, plain n -> node_cont fam cont a n = Some (in_net (ip n) a)) ->
    ip_in fam cont a v = Some ((bool_decide (head v = []) || covers (head v) a) && negb (covers (neg_head v) a))) as H.
  { intros fam cont Hc. unfold ip_in. assert (Forall (fun n => node_cont fam cont a n = Some (in_net (ip n) a)) (neg_head v)) as Hn'.
    { eapply Forall_impl; [exact Hn|done]. }
    destruct (head v) as [|p l] eqn:E.
    - rewrite (no_negation_spec fam cont a (fun n => in_net (ip n) a)) by done. by rewrite (existsb_covers _ a) by done.
    - rewrite bool_decide_eq_false_2 by done. cbn [orb].
      rewrite (in_loop_spec fam cont a (fun n => in_net (ip n) a)); [|..|done|done|simpl; lia].
      + cbn [orb]. by rewrite (covers_hits (p :: l) a), (existsb_covers _ a).
      + destruct Hp as [(n & -> & Hn2)|Hp]; [constructor; [by rewrite (proj2 Hn2)|constructor]|].
        eapply Forall_impl; [exact Hp|]. intros n Hpl _. by apply Hc. }
  unfold sfvar_ip_in, is_ip4. destruct (bool_decide (family a = AF_INET)) eqn:E;
    [apply bool_decide_eq_true in E|apply bool_decide_eq_false in E].
  - apply H. intros n Hpl. by apply plain_cont4.
  - apply H. intros n Hpl. apply plain_cont6; try done. by destruct (ip_fam _ Ha).
Qed.

(** The variables that can be built: from nodes, and from other variables whose
    lists are merged in, possibly negated; with the nodes added to the two sides. *)
Inductive built : sfip_var_t -> list sfip_node_t -> list sfip_node_t -> Prop :=
| built_new : built _alloc_var [] []
| built_node v P N n : built v P N -> plain n \/ any_node n -> built (sfvar_add_node v n false) (n :: P) N
| built_neg v P N n : built v P N -> plain n -> built (sfvar_add_node v n true) P (n :: N)
| built_var v P N v' P' N' : built v P N -> built v' P' N' -> built (sfvar_add v v') (P ++ P') (N ++ N')
| built_negvar v P N v' P' N' : built v P N -> built v' P' N' -> Forall plain (head v') ->
    built (sfvar_add v (_negate_lists v')) (P ++ N') (N ++ P').

Lemma add_node_plain l c n a : Forall plain l -> plain n ->
  covers (add_node l c n).1 a = covers l a || denotes a n /\ Forall plain (add_node l c n).1.
Proof.
  intros Hl Hn. destruct (add_node_spec l c n a (or_intror Hl) (or_introl Hn)) as (E & [(x & Ex & Hx)|Hok] & _); [|done].
  split; [done|]. exfalso. pose proof Hx as [Hany _]. unfold add_node in Ex. destruct l as [|h t]; cbn [fst] in Ex.
  { injection Ex as ->. by eapply any_plain. }
  apply Forall_cons in Hl as [Hh Ht]. rewrite (pl_any _ Hh), (pl_any _ Hn) in Ex.
  pose proof (insertion_spec t n a Ht Hn) as [_ Hi]. destruct (insertion t n) as [t' k]. cbn [fst] in Hi.
  destruct (SfCidr_compare _ _); try case_bool_decide; cbn [fst] in Ex; injection Ex as ??; subst; by eapply any_plain.
Qed.

Lemma merge_plain l1 l2 m n a : Forall plain l1 -> Forall plain l2 ->
  covers (merge_lists l1 l2 m n).1 a = covers l1 a || covers l2 a /\ Forall plain (merge_lists l1 l2 m n).1.
Proof.
  intros H1 H2. split; [apply (merge_lists_spec l1 l2 m n a); by right|]. unfold merge_lists.
  destruct l1 as [|x l1]; [by destruct l2|]. destruct l2 as [|y l2]; [done|].
  rewrite (pl_any x) by (by apply Forall_cons in H1 as []). rewrite (pl_any y) by (by apply Forall_cons in H2 as []).
  cbn [fst]. by apply (merge_loop_spec (x :: l1) (y :: l2) a).
Qed.

Lemma built_spec v P N a : built v P N ->
  var_ok v /\ (head v = [] <-> P = []) /\ (neg_head v = [] <-> N = []) /\
  covers (head v) a = covers P a /\ covers (neg_head v) a = covers N a.
Proof.
  induction 1 as [|v P N n _ ([Hp Hn] & He & Hg & E1 & E2) Hnode|v P N n _ ([Hp Hn] & He & Hg & E1 & E2) Hnode
    |v P N v' P' N' _ ([Hp Hn] & He & Hg & E1 & E2) _ ([Hp' Hn'] & He' & Hg' & E1' & E2')
    |v P N v' P' N' _ ([Hp Hn] & He & Hg & E1 & E2) _ ([Hp' Hn'] & He' & Hg' & E1' & E2') Hpl].
  - split_and!; try done. constructor; [by right|constructor].
  - unfold sfvar_add_node. destruct (add_node_spec (head v) (head_count v) n a Hp Hnode) as (E & Hok & Hne).
    destruct (add_node _ _ _) as [l k]. cbn in *. split_and!; try done.
    by rewrite E, E1, orb_comm.
  - unfold sfvar_add_node. destruct (add_node_plain (neg_head v) (neg_head_count v) n a Hn Hnode) as (E & Hok).
    destruct (add_node_spec (neg_head v) (neg_head_count v) n a (or_intror Hn) (or_introl Hnode)) as (_ & _ & Hne).
    destruct (add_node _ _ _) as [l k]. cbn in *. split_and!; try done. by rewrite E, E2, orb_comm.
  - unfold sfvar_add.
    destruct (merge_lists_spec (head v) (head v') (head_count v) (head_count v') a Hp Hp') as (E & Hok & Hnil).
    destruct (merge_plain (neg_head v) (neg_head v') (neg_head_count v) (neg_head_count v') a Hn Hn') as (E' & Hok').
    destruct (merge_lists_spec (neg_head v) (neg_head v') (neg_head_count v) (neg_head_count v') a (or_intror Hn) (or_intror Hn'))
      as (_ & _ & Hnil').
    destruct (merge_lists (head v) _ _ _) as [l k]. destruct (merge_lists (neg_head v) _ _ _) as [l' k']. cbn in *.
    rewrite !covers_app, Hnil, Hnil', He, He', Hg, Hg', E, E', E1, E2, E1', E2', !app_nil. split_and!; done.
  - unfold sfvar_add, _negate_lists. cbn [head neg_head head_count neg_head_count].
    pose proof (negate_plain _ Hn') as Hn2. pose proof (negate_plain _ Hpl) as Hp2.
    assert (forall l, map _negate_node l = [] <-> l = []) as Hmap by (intros []; done).
    destruct (merge_lists_spec (head v) (map _negate_node (neg_head v')) (head_count v) (neg_head_count v') a Hp (or_intror Hn2))
      as (E & Hok & Hnil).
    destruct (merge_plain (neg_head v) (map _negate_node (head v')) (neg_head_count v) (head_count v') a Hn Hp2) as (E' & Hok').
    destruct (merge_lists_spec (neg_head v) (map _negate_node (head v')) (neg_head_count v) (head_count v') a
      (or_intror Hn) (or_intror Hp2)) as (_ & _ & Hnil').
    destruct (merge_lists (head v) _ _ _) as [l k]. destruct (merge_lists (neg_head v) _ _ _) as [l' k']. cbn in *.
    rewrite !negate_covers in *. rewrite !Hmap in *.
    rewrite !covers_app, Hnil, Hnil', He, Hg, He', Hg', E, E', E1, E2, E1', E2', !app_nil. split_and!; done.
Qed.

(** ** Properties *)

(** C27. What an address variable denotes: however it was put together from
    addresses, networks, "any" and other variables, negated or not, and however
    the insertions and merges sorted its lists and dropped duplicates, the lookup
    returns, for every IPv4 and IPv6 address, whether it lies in one of the
    networks added - or none was - and in none of those excluded.  The networks
    are written with their host bits zero, have an address other than 0, and no
    IPv6 network is a mapped IPv4 one; "any" is not negated.
    ([zero_network_matches_all] shows why the address 0 is left out.) *)
Theorem ip_variable_denotes v P N a : built v P N -> ip_wf a ->
  sfvar_ip_in (Some v) (Some a) = Some ((bool_decide (P = []) || covers P a) && negb (covers N a)).
Proof.
  intros Hb Ha. destruct (built_spec v P N a Hb) as (Hok & He & _ & E1 & E2).
  rewrite sfvar_ip_in_lists, E1, E2 by done. do 3 f_equal. by apply bool_decide_ext.
Qed.

(** A network with the address 0, such as 0.0.0.0/8, contains every IPv4 address. *)
Theorem zero_network_matches_all c a : w32 (addr c) 3 = 0 -> fast_cont4 c a = Some true.
Proof. intros H. unfold fast_cont4. by rewrite H. Qed.

(** [less_than] on IPv6 addresses is not an order: of two different addresses
    neither need be less. *)
Theorem less_than_incomplete : exists a b, ip_wf a /\ ip_wf b /\ family a = AF_INET6 /\ family b = AF_INET6 /\
  value a < value b /\ less_than a b = false /\ less_than b a = false.
Proof.
  exists (SfIp_set6 [1; 2; 3; 4]), (SfIp_set6 [1; 2; 3; 67108864 + 4]).
  assert (forall l, length l = 4%nat -> Forall is_u32 l -> ip_wf (SfIp_set6 l)) as H
    by (intros l H1 H2; constructor; [done|done|by right|done]).
  split_and!; try (apply H; [done|]; repeat (constructor; [mlia|]); constructor); vm_compute; done.
Qed.

(** ** A variable: 10.0.0.0/8 and 2001:db8::/32 but not 10.1.0.0/16 *)

Definition demo_10 : sfip_node_t := MkIpNode (MkCidr (SfIp_set4 10) 104) false false false.
Definition demo_10_1 : sfip_node_t := MkIpNode (MkCidr (SfIp_set4 266) 112) false true true.
Definition demo_2001 : sfip_node_t := MkIpNode (MkCidr (SfIp_set6 [3087860000; 0; 0; 0]) 32) false false false.
Definition demo_var : sfip_var_t :=
  sfvar_add_node (sfvar_add_node (sfvar_add_node _alloc_var demo_2001 false) demo_10 false) demo_10_1 true.

Lemma set4_wf x : is_u32 x -> ip_wf (SfIp_set4 x).
Proof. intros H. constructor; [done|repeat (constructor; [done || mlia|]); constructor|by left|done]. Qed.
Lemma set6_wf l : length l = 4%nat -> Forall is_u32 l -> ip_wf (SfIp_set6 l).
Proof. intros H1 H2. constructor; [done|done|by right|done]. Qed.

Lemma demo_plain : plain demo_10 /\ plain demo_10_1 /\ plain demo_2001.
Proof.
  assert (ip_wf (SfIp_set6 [3087860000; 0; 0; 0])) as H6 by (apply set6_wf; [done|repeat (constructor; [mlia|]); constructor]).
  assert (ip_wf (SfIp_set4 10) /\ ip_wf (SfIp_set4 266)) as [Ha Hb] by (split; apply set4_wf; mlia).
  split_and!; (constructor; [done| |done|by vm_compute; intuition congruence]); (constructor; [done|simpl; lia|simpl; lia || done|vm_compute; reflexivity]).
Qed.

Lemma demo_built : built demo_var [demo_10; demo_2001] [demo_10_1].
Proof.
  destruct demo_plain as (H1 & H2 & H3). apply built_neg; [|done]. apply built_node; [|by left]. apply built_node; [constructor|by left].
Qed.

(** 10.2.0.1 is in, 10.1.0.1 and 11.0.0.1 are not. *)
Example demo_lookup :
  (fun x => sfvar_ip_in (Some demo_var) (Some (SfIp_set4 x))) <$> [16777738; 16777482; 16777227] = [Some true; Some false; Some false].
Proof. vm_compute. reflexivity. Qed.

Lemma ip_variable_denotes_witness :
  sfvar_ip_in (Some demo_var) (Some (SfIp_set4 16777738)) = Some true /\
  (bool_decide ([demo_10; demo_2001] = []) || covers [demo_10; demo_2001] (SfIp_set4 16777738)) &&
    negb (covers [demo_10_1] (SfIp_set4 16777738)) = true.
Proof.
  pose proof (ip_variable_denotes demo_var [demo_10; demo_2001] [demo_10_1] (SfIp_set4 16777738) demo_built) as H.
  specialize (H ltac:(apply set4_wf; mlia)).
  split; [rewrite H; vm_compute; reflexivity|vm_compute; reflexivity].
Defined.
