(* ===== verification/Offload.v ===== *)
(** * Offload: contexts and offloaded packets

    detection/context_switcher.cc, detection/regex_offload.cc and the offloading
    of detection/detection_engine.cc: the contexts of a packet thread, the
    requests its worker threads serve, and the calls in which the packet thread
    puts packets on hold and takes them back.  Contexts and requests are numbers
    (their addresses); [None] is an assertion that fails or a null pointer that
    is followed.  A C++ vector is a list whose head is its back. *)

From stdpp Require Import functions.
From S2P Require Import Prelude.

(** ** Data *)

(** The parts of a context that matter here; [flow] is its packet's. *)
Record IpsContext := MkContext { slot : nat; context_num : Z; flow : option Z }.

Record ContextSwitcher := MkSwitcher { idle : list nat; busy : list nat; hold : list (option nat) }.

Record RegexRequest := MkRequest { packet : option nat; offload_ : bool; id_ : nat; go : bool }.

(** The lists of requests, front first. *)
Record RegexOffload := MkOffload { rbusy : list nat; ridle : list nat }.

(** ** The context switcher *)

Definition ContextSwitcher_new (max : nat) : ContextSwitcher := MkSwitcher [] [] (replicate (S max) None).

Definition set_slot (c : nat) (s : nat) (cs : list IpsContext) : list IpsContext :=
  alter (fun x => MkContext s (context_num x) (flow x)) c cs.

Definition push (c : nat) (w : ContextSwitcher) (cs : list IpsContext) : ContextSwitcher * list IpsContext :=
  (MkSwitcher (c :: idle w) (busy w) (hold w), set_slot c (length (idle w) + 1) cs).

Definition pop (w : ContextSwitcher) : option nat * ContextSwitcher :=
  match idle w with
  | [] => (None, w)
  | c :: l => (Some c, MkSwitcher l (busy w) (hold w))
  end.

Definition start (w : ContextSwitcher) : option ContextSwitcher :=
  match busy w, idle w with
  | [], c :: l => Some (MkSwitcher l [c] (hold w))
  | _, _ => None
  end.

Definition stop (w : ContextSwitcher) : option ContextSwitcher :=
  match busy w with
  | [c] => Some (MkSwitcher (c :: idle w) [] (hold w))
  | _ => None
  end.

Definition abort (w : ContextSwitcher) : ContextSwitcher :=
  MkSwitcher (rev (busy w) ++ rev (omap id (hold w)) ++ idle w) [] (map (fun _ => None) (hold w)).

Definition interrupt (w : ContextSwitcher) : option (nat * ContextSwitcher) :=
  match idle w with
  | c :: l => Some (c, MkSwitcher l (c :: busy w) (hold w))
  | [] => None
  end.

(** The context that is the current one again, if any. *)
Definition complete (w : ContextSwitcher) : option (option nat * ContextSwitcher) :=
  match busy w with
  | c :: l => Some (head l, MkSwitcher (c :: idle w) l (hold w))
  | [] => None
  end.

Definition suspend (w : ContextSwitcher) (cs : list IpsContext) : option (nat * ContextSwitcher) :=
  match busy w with
  | c :: l =>
      x ← cs !! c;
      match hold w !! slot x with
      | Some None => Some (slot x, MkSwitcher (idle w) l (<[slot x := Some c]> (hold w)))
      | _ => None
      end
  | [] => None
  end.

Definition resume (s : nat) (w : ContextSwitcher) : option ContextSwitcher :=
  match hold w !! s with
  | Some (Some c) => Some (MkSwitcher (idle w) (c :: busy w) (<[s := None]> (hold w)))
  | _ => None
  end.

Definition get_context (w : ContextSwitcher) : option nat := head (busy w).
Definition get_context_at (s : nat) (w : ContextSwitcher) : option nat := mjoin (hold w !! s).
Definition get_next (w : ContextSwitcher) : option nat := head (idle w).
Definition idle_count (w : ContextSwitcher) : nat := length (idle w).
Definition busy_count (w : ContextSwitcher) : nat := length (busy w).
Definition hold_count (w : ContextSwitcher) : nat := length (omap id (hold w)).
Definition can_hold (w : ContextSwitcher) : bool := (5 <? idle_count w)%nat.
Definition flow_of (cs : list IpsContext) (c : nat) : option Z := x ← cs !! c; flow x.
Definition on_hold (f : Z) (w : ContextSwitcher) (cs : list IpsContext) : bool :=
  existsb (fun c => bool_decide (flow_of cs c = Some f)) (omap id (hold w)).

(** ** The requests *)

Definition available (o : RegexOffload) : nat := length (ridle o).
Definition count (o : RegexOffload) : nat := length (rbusy o).

Definition put (s c : nat) (o : RegexOffload) (rs : list RegexRequest) : option (RegexOffload * list RegexRequest) :=
  match ridle o with
  | r :: l => Some (MkOffload (rbusy o ++ [r]) l, alter (fun q => MkRequest (Some c) true s (go q)) r rs)
  | [] => None
  end.

(** [Some None]: the first request is not finished. *)
Definition get (o : RegexOffload) (rs : list RegexRequest) : option (option (nat * RegexOffload * list RegexRequest)) :=
  match rbusy o with
  | r :: l =>
      q ← rs !! r;
      Some (if offload_ q then None
            else Some (id_ q, MkOffload l (ridle o ++ [r]), <[r := MkRequest None false (id_ q) (go q)]> rs))
  | [] => None
  end.

Definition roffload_stop (o : RegexOffload) (rs : list RegexRequest) : option (list RegexRequest) :=
  match rbusy o with
  | [] => Some (foldr (fun r => alter (fun q => MkRequest (packet q) (offload_ q) (id_ q) false) r) rs (ridle o))
  | _ => None
  end.

Definition roffload_on_hold (f : Z) (o : RegexOffload) (rs : list RegexRequest) (cs : list IpsContext) : bool :=
  existsb (fun r => bool_decide ((q ← rs !! r; c ← packet q; flow_of cs c) = Some f)) (rbusy o).

(** ** The packet thread and its workers *)

(** What the packet thread is in the middle of, innermost first: the packet
    from the wire, a detection engine, or an onload; with its context. *)
Inductive kind := Wire | Engine | Loading.

(** [pending]: [offloads_pending] of the flows; [num]: the thread's
    [context_num].  The last lists record the contexts' numbers: offloaded,
    evaluated by a worker, onloaded. *)
Record state := MkSt {
  ctxs : list IpsContext; sw : ContextSwitcher; reqs : list RegexRequest; ro : RegexOffload; pending : Z -> Z; num : Z;
  frames : list (kind * nat); offloaded : list Z; evaluated : list Z; onloaded : list Z }.

Definition set_offloaded (f : Z) (p : Z -> Z) : option (Z -> Z) := if p f <? 255 then Some (<[f := p f + 1]> p) else None.
Definition clear_offloaded (f : Z) (p : Z -> Z) : option (Z -> Z) := if p f =? 0 then None else Some (<[f := p f - 1]> p).
Definition is_offloaded (f : Z) (p : Z -> Z) : bool := negb (p f =? 0).

(** [DetectionEngine::reset], for the current context. *)
Definition reset (st : state) : option state :=
  c ← get_context (sw st);
  Some (MkSt (alter (fun x => MkContext (slot x) (u64 (num st + 1)) (flow x)) c (ctxs st)) (sw st) (reqs st) (ro st) (pending st)
    (u64 (num st + 1)) (frames st) (offloaded st) (evaluated st) (onloaded st)).

Definition with_sw (st : state) (w : ContextSwitcher) (fr : list (kind * nat)) : state :=
  MkSt (ctxs st) w (reqs st) (ro st) (pending st) (num st) fr (offloaded st) (evaluated st) (onloaded st).

(** The start and the end of a packet from the wire. *)
Definition wire_start (st : state) : option state :=
  w ← start (sw st);
  c ← get_context w;
  reset (with_sw st w ((Wire, c) :: frames st)).
Definition wire_stop (st : state) : option state := w ← stop (sw st); Some (with_sw st w (tail (frames st))).

(** [set_next_packet]: the next context's packet is set up, with its flow. *)
Definition set_next_packet (f : option Z) (st : state) : option state :=
  c ← get_next (sw st);
  Some (MkSt (alter (fun x => MkContext (slot x) (context_num x) f) c (ctxs st)) (sw st) (reqs st) (ro st) (pending st) (num st)
    (frames st) (offloaded st) (evaluated st) (onloaded st)).

(** The constructor of [DetectionEngine]. *)
Definition engine_begin (st : state) : option state :=
  '(c, w) ← interrupt (sw st);
  reset (with_sw st w ((Engine, c) :: frames st)).

(** The events of the packet are logged and cleared by the other modules. *)
Definition finish_packet (st : state) : option state :=
  _ ← get_next (sw st);
  '(_, w) ← complete (sw st);
  Some (with_sw st w (frames st)).

(** Its destructor, for the context [c] it was constructed with. *)
Definition engine_end (c : nat) (st : state) : option state :=
  cur ← get_context (sw st);
  st ← (if (c =? cur)%nat then finish_packet st else Some st);
  Some (with_sw st (sw st) (tail (frames st))).

(** For the packet of the current context: [pdu] is its type, [large] whether it
    reaches the limit for offloading.  [false]: the packet is evaluated at once,
    by [fp_local]. *)
Definition offload (pdu large : bool) (st : state) : option (bool * state) :=
  if negb pdu || negb large || negb (can_hold (sw st)) || (available (ro st) =? 0)%nat then Some (false, st)
  else
    c ← get_context (sw st);
    x ← ctxs st !! c;
    '(s, w) ← suspend (sw st) (ctxs st);
    f ← flow x;
    p ← set_offloaded f (pending st);
    '(o, rs) ← put s c (ro st) (reqs st);
    Some (true, MkSt (ctxs st) w rs o p (num st) (frames st) (offloaded st ++ [context_num x]) (evaluated st) (onloaded st)).

(** [DetectionEngine::onload()] up to the packet's rules and events, which
    happen in its context. *)
Definition onload (st : state) : option state :=
  match get (ro st) (reqs st) with
  | None => None
  | Some None => Some st
  | Some (Some (s, o, rs)) =>
      c ← get_context_at s (sw st);
      x ← ctxs st !! c;
      f ← flow x;
      p ← clear_offloaded f (pending st);
      w ← resume s (sw st);
      Some (MkSt (ctxs st) w rs o p (num st) ((Loading, c) :: frames st) (offloaded st) (evaluated st) (onloaded st ++ [context_num x]))
  end.
(** Its end. *)
Definition onload_end (st : state) : option state := st ← finish_packet st; Some (with_sw st (sw st) (tail (frames st))).

(** A turn of the loop of the worker of request [r]. *)
Definition worker (r : nat) (st : state) : option state :=
  q ← reqs st !! r;
  if negb (go q) || negb (offload_ q) then Some st
  else
    c ← packet q;
    x ← ctxs st !! c;
    f ← flow x;
    if is_offloaded f (pending st) then
      Some (MkSt (ctxs st) (sw st) (<[r := MkRequest (packet q) false (id_ q) (go q)]> (reqs st)) (ro st) (pending st) (num st) (frames st)
        (offloaded st) (evaluated st ++ [context_num x]) (onloaded st))
    else None.

(** [Snort::thread_init_unprivileged] and [DetectionEngine::thread_init]. *)
Definition push_all (n : nat) : ContextSwitcher * list IpsContext :=
  foldl (fun '(w, cs) c => push c w cs) (ContextSwitcher_new n, replicate n (MkContext 0 0 None)) (seq 0 n).
Definition thread_init (n threads : nat) : state :=
  MkSt (push_all n).2 (push_all n).1 (replicate threads (MkRequest None false 0 true)) (MkOffload [] (seq 0 threads)) (fun _ => 0) 0 [] [] [] [].

(** ** Calls in the order the program makes them *)

Inductive op :=
  | Op_start | Op_stop | Op_begin (f : option Z) | Op_end | Op_offload (pdu large : bool) | Op_onload | Op_onload_end | Op_work (r : nat).

(** After an offload the packet is not finished, the engine's end follows. *)
Definition run_op (o : op) (st : state) : option state :=
  match o with
  | Op_start => wire_start st
  | Op_stop => wire_stop st
  | Op_begin f => st ← set_next_packet f st; engine_begin st
  | Op_end => match frames st with (_, c) :: _ => engine_end c st | [] => None end
  | Op_offload pdu large =>
      '(b, st') ← offload pdu large st;
      if b : bool then match frames st' with (_, c) :: _ => engine_end c st' | [] => None end else Some st'
  | Op_onload => onload st
  | Op_onload_end => onload_end st
  | Op_work r => worker r st
  end.

Definition is_loading (f : kind * nat) : bool := match f.1 with Loading => true | _ => false end.
Definition engines (fr : list (kind * nat)) : list (kind * nat) := List.filter (fun f => negb (is_loading f)) fr.
Definition loading (fr : list (kind * nat)) : list (kind * nat) := List.filter is_loading fr.

#[global] Arguments engines : simpl never.
#[global] Arguments loading : simpl never.

(** Calls are nested; at most five packets, from the wire or rebuilt, are
    worked on at a time; a packet that may be offloaded was rebuilt during the
    work on another one and has a flow; the loops onload only while requests are
    busy; fewer than 2^64 packets. *)
Definition allowed (o : op) (st : state) : Prop :=
  match o, frames st with
  | Op_start, [] => num st < 2 ^ 64 - 1
  | Op_stop, [(Wire, _)] => True
  | Op_begin _, _ => (length (engines (frames st)) < 5)%nat /\ num st < 2 ^ 64 - 1
  | Op_end, (Engine, _) :: _ => True
  | Op_offload _ _, (Engine, c) :: _ :: _ => flow_of (ctxs st) c <> None
  | Op_onload, _ => rbusy (ro st) <> []
  | Op_onload_end, (Loading, _) :: _ => True
  | Op_work r, _ => (r < length (reqs st))%nat
  | _, _ => False
  end.

Inductive reachable (n threads : nat) : state -> Prop :=
  | reach_init : reachable n threads (thread_init n threads)
  | reach_step st o st' : reachable n threads st -> allowed o st -> run_op o st = Some st' -> reachable n threads st'.

#[export] Instance allowed_dec o st : Decision (allowed o st).
Proof. unfold allowed. destruct o, (frames st) as [|[[] ?] [|]]; apply _. Defined.
#[export] Instance kind_eq_dec : EqDecision kind.
Proof. solve_decision. Defined.

(** ** Waiting for the workers *)

(** [Waiting]: the schedule is over before the loop is; [Improper]: the schedule
    has a call that the program does not make there; [Failed]: an assertion
    fails. *)
Inductive outcome := Ended (st : state) | Waiting (st : state) | Improper | Failed.

Definition then_ (r : outcome) (f : state -> outcome) : outcome := match r with Ended st => f st | _ => r end.
Definition ended (o : option state) : outcome := match o with Some st => Ended st | None => Failed end.

Fixpoint run_calls (os : list op) (st : state) : outcome :=
  match os with
  | [] => Ended st
  | o :: os => if decide (allowed o st) then then_ (ended (run_op o st)) (run_calls os) else Improper
  end.

(** [DetectionEngine::onload()]; [os] are the calls that [fp_onload] and the two
    [finish_inspect] functions make for the packet, which may work on further
    packets, offload them and wait for them, and return. *)
Definition onload_all (os : list op) (st : state) : outcome :=
  then_ (ended (onload st)) (fun st1 =>
    if (length (frames st) <? length (frames st1))%nat then
      then_ (run_calls os st1) (fun st2 => if decide (frames st2 = frames st1) then ended (onload_end st2) else Improper)
    else Ended st1).

Fixpoint workers (rs : list nat) (st : state) : option state :=
  match rs with
  | [] => Some st
  | r :: rs => st ← worker r st; workers rs st
  end.

(** The loop of [DetectionEngine::idle]; for each sleep the turns of the workers
    and the calls for the packet that is onloaded then, if any. *)
Fixpoint engine_idle (sched : list (list nat * list op)) (st : state) : outcome :=
  if (count (ro st) =? 0)%nat then
    ended (rs ← roffload_stop (ro st) (reqs st);
      Some (MkSt (ctxs st) (sw st) rs (ro st) (pending st) (num st) (frames st) (offloaded st) (evaluated st) (onloaded st)))
  else
    match sched with
    | [] => Waiting st
    | (rs, os) :: sched => then_ (ended (workers rs st)) (fun st => then_ (onload_all os st) (engine_idle sched))
    end.

(** The loop of [DetectionEngine::onload(Flow* )], with the assertions after it. *)
Fixpoint onload_flow (f : Z) (sched : list (list nat * list op)) (st : state) : outcome :=
  if is_offloaded f (pending st) then
    match sched with
    | [] => Waiting st
    | (rs, os) :: sched => then_ (ended (workers rs st)) (fun st => then_ (onload_all os st) (onload_flow f sched))
    end
  else if on_hold f (sw st) (ctxs st) || roffload_on_hold f (ro st) (reqs st) (ctxs st) then Failed
  else Ended st.

(** ** The invariant *)

Definition held (st : state) : list nat := omap id (hold (sw st)).
Definition num_of (cs : list IpsContext) (c : nat) : Z := match cs !! c with Some x => context_num x | None => 0 end.
(** The context of a request, and whether its work is done. *)
Definition req_ctx (rs : list RegexRequest) (r : nat) : option nat := q ← rs !! r; packet q.
Definition req_done (rs : list RegexRequest) (r : nat) : bool := match rs !! r with Some q => negb (offload_ q) | None => false end.

Record Inv (n : nat) (st : state) : Prop := MkInv {
  inv_len : length (ctxs st) = n;
  inv_slot : forall c x, ctxs st !! c = Some x -> slot x = S c;
  inv_hold_len : length (hold (sw st)) = S n;
  inv_hold : forall s c, hold (sw st) !! s = Some (Some c) -> s = S c;
  inv_parts : idle (sw st) ++ busy (sw st) ++ held st ≡ₚ seq 0 n;
  inv_frames : busy (sw st) = map snd (frames st);
  inv_depth : (length (engines (frames st)) <= 5)%nat;
  inv_room : (length (held st) + length (loading (frames st)) + 6 <= n)%nat;
  inv_reqs : rbusy (ro st) ++ ridle (ro st) ≡ₚ seq 0 (length (reqs st));
  inv_req : forall r, r ∈ rbusy (ro st) -> exists q c, reqs st !! r = Some q /\ packet q = Some c /\ id_ q = S c;
  inv_go : forall r q, reqs st !! r = Some q -> go q = true;
  inv_free : forall r q, r ∈ ridle (ro st) -> reqs st !! r = Some q -> offload_ q = false;
  inv_held : omap (req_ctx (reqs st)) (rbusy (ro st)) ≡ₚ held st;
  inv_flow : forall c, c ∈ held st -> flow_of (ctxs st) c <> None;
  inv_pending : forall f, pending st f = Z.of_nat (length (List.filter (fun c => bool_decide (flow_of (ctxs st) c = Some f)) (held st)));
  inv_num : 0 <= num st < 2 ^ 64;
  inv_nums : Forall (fun k => k <= num st) (offloaded st ++ map (fun f => num_of (ctxs st) f.2) (engines (frames st)));
  inv_nodup : NoDup (offloaded st ++ map (fun f => num_of (ctxs st) f.2) (engines (frames st)));
  inv_fifo : offloaded st = onloaded st ++ map (num_of (ctxs st)) (omap (req_ctx (reqs st)) (rbusy (ro st)));
  inv_once : evaluated st ≡ₚ onloaded st ++ map (num_of (ctxs st)) (omap (req_ctx (reqs st)) (List.filter (req_done (reqs st)) (rbusy (ro st)))) }.

(** *** Lists *)

Lemma omap_insert_some {A} (l : list (option A)) s c : l !! s = Some None -> omap id (<[s := Some c]> l) ≡ₚ c :: omap id l.
Proof.
  revert s. induction l as [|x l IH]; intros [|s] H; try done; cbn in *; [by injection H as ->|].
  destruct x as [x|]; cbn; rewrite IH by done; [apply perm_swap|done].
Qed.
Lemma omap_insert_none {A} (l : list (option A)) s c : l !! s = Some (Some c) -> omap id l ≡ₚ c :: omap id (<[s := None]> l).
Proof.
  revert s. induction l as [|x l IH]; intros [|s] H; try done; cbn in *; [by injection H as ->|].
  destruct x as [x|]; cbn; rewrite (IH s) by done; [apply perm_swap|done].
Qed.
Lemma elem_of_omap_id {A} (l : list (option A)) c : c ∈ omap id l <-> exists s, l !! s = Some (Some c).
Proof.
  rewrite list_elem_of_omap. split; [intros (x & Hx & E)|intros [s Hs]]; [cbn in E; subst; by apply list_elem_of_lookup|].
  exists (Some c). split; [by apply list_elem_of_lookup; exists s|done].
Qed.
Lemma omap_ext_in {A B} (f g : A -> option B) (l : list A) : (forall x, x ∈ l -> f x = g x) -> omap f l = omap g l.
Proof. induction l as [|x l IH]; intros H; [done|]. cbn. rewrite H, IH by set_solver. done. Qed.
Lemma map_ext_elem {A B} (f g : A -> B) (l : list A) : (forall x, x ∈ l -> f x = g x) -> map f l = map g l.
Proof. intros H. apply map_ext_in. intros x Hx. apply H. by apply list_elem_of_In. Qed.
Lemma filter_ext_elem {A} (f g : A -> bool) (l : list A) : (forall x, x ∈ l -> f x = g x) -> List.filter f l = List.filter g l.
Proof. intros H. apply filter_ext_in. intros x Hx. apply H. by apply list_elem_of_In. Qed.
Lemma filter_perm {A} (f : A -> bool) l l' : l ≡ₚ l' -> List.filter f l ≡ₚ List.filter f l'.
Proof. induction 1; cbn; repeat case_match; try done; [by f_equiv|apply perm_swap|by etransitivity]. Qed.
Lemma filter_length_perm {A} (f : A -> bool) l l' : l ≡ₚ l' -> length (List.filter f l) = length (List.filter f l').
Proof. intros H. by rewrite (filter_perm f l l' H). Qed.
Lemma frames_split fr : length fr = (length (engines fr) + length (loading fr))%nat.
Proof. induction fr as [|f fr IH]; [done|]. unfold engines, loading in *. cbn. destruct (is_loading f); cbn; lia. Qed.

(** *** Consequences of the invariant *)

Section Consequences.
Context (n : nat) (st : state) (H : Inv n st).

Lemma inv_total : (length (idle (sw st)) + length (frames st) + length (held st) = n)%nat.
Proof. pose proof (Permutation_length (inv_parts _ _ H)) as E. rewrite !length_app, (inv_frames _ _ H), length_map, length_seq in E. lia. Qed.

Lemma inv_all_nodup : NoDup (idle (sw st) ++ busy (sw st) ++ held st).
Proof. rewrite (inv_parts _ _ H). apply NoDup_seq. Qed.

Lemma inv_ctx c : c ∈ idle (sw st) ++ busy (sw st) ++ held st -> exists x, ctxs st !! c = Some x /\ slot x = S c.
Proof.
  rewrite (inv_parts _ _ H), elem_of_seq. intros Hc. destruct (lookup_lt_is_Some_2 (ctxs st) c) as [x Hx]; [rewrite (inv_len _ _ H); lia|].
  exists x. split; [done|]. by apply (inv_slot _ _ H).
Qed.

Lemma inv_held_at c : c ∈ held st -> hold (sw st) !! S c = Some (Some c).
Proof. intros [s Hs]%elem_of_omap_id. by rewrite <- (inv_hold _ _ H _ _ Hs). Qed.

Lemma inv_not_held c : c ∉ held st -> (c < n)%nat -> hold (sw st) !! S c = Some None.
Proof.
  intros Hc Hn. destruct (lookup_lt_is_Some_2 (hold (sw st)) (S c)) as [[d|] Hd]; [rewrite (inv_hold_len _ _ H); lia| |done].
  pose proof (inv_hold _ _ H _ _ Hd) as E. injection E as <-. destruct Hc. apply elem_of_omap_id. by exists (S c).
Qed.

Lemma inv_req_held r c : r ∈ rbusy (ro st) -> req_ctx (reqs st) r = Some c -> c ∈ held st.
Proof. intros Hr Hc. rewrite <- (inv_held _ _ H). apply list_elem_of_omap. by exists r. Qed.

Lemma inv_req_nodup : NoDup (rbusy (ro st) ++ ridle (ro st)).
Proof. rewrite (inv_reqs _ _ H). apply NoDup_seq. Qed.

Lemma inv_req_lookup r : r ∈ rbusy (ro st) ++ ridle (ro st) -> exists q, reqs st !! r = Some q.
Proof. rewrite (inv_reqs _ _ H), elem_of_seq. intros Hr. apply lookup_lt_is_Some_2. lia. Qed.

Lemma inv_held_rbusy : length (held st) = length (rbusy (ro st)).
Proof.
  rewrite <- (inv_held _ _ H). assert (forall l, (forall r, r ∈ l -> r ∈ rbusy (ro st)) -> length (omap (req_ctx (reqs st)) l) = length l) as E; [|by apply E].
  induction l as [|r l IH]; intros Hl; [done|]. destruct (inv_req _ _ H r) as (q & c & Hq & Hp & _); [apply Hl; left|].
  cbn. unfold req_ctx at 1. rewrite Hq. cbn. rewrite Hp. cbn. f_equal. apply IH. set_solver.
Qed.

Lemma inv_pending_pos c f : c ∈ held st -> flow_of (ctxs st) c = Some f -> 0 < pending st f.
Proof.
  intros Hc Hf. rewrite (inv_pending _ _ H). apply list_elem_of_In in Hc.
  assert (In c (List.filter (fun c => bool_decide (flow_of (ctxs st) c = Some f)) (held st))) as Hin
    by (apply filter_In; split; [done|by apply bool_decide_eq_true]).
  destruct (List.filter _ _); [done|cbn [length]; lia].
Qed.

Lemma inv_pending_le f : pending st f <= Z.of_nat (length (held st)).
Proof. rewrite (inv_pending _ _ H). pose proof (List.filter_length_le (fun c => bool_decide (flow_of (ctxs st) c = Some f)) (held st)). lia. Qed.
End Consequences.

(** *** Calls that leave the contexts on hold alone *)

Definition frame_nums (cs : list IpsContext) (fr : list (kind * nat)) : list Z := map (fun f => num_of cs f.2) (engines fr).

Lemma inv_same_hold n st cs w num' fr : Inv n st ->
  length cs = n -> (forall c x, cs !! c = Some x -> slot x = S c) -> (forall c, c ∈ held st -> cs !! c = ctxs st !! c) ->
  hold w = hold (sw st) -> idle w ++ busy w ≡ₚ idle (sw st) ++ busy (sw st) -> busy w = map snd fr ->
  (length (engines fr) <= 5)%nat -> (length (loading fr) <= length (loading (frames st)))%nat -> num st <= num' < 2 ^ 64 ->
  Forall (fun k => k <= num') (frame_nums cs fr) -> NoDup (offloaded st ++ frame_nums cs fr) ->
  Inv n (MkSt cs w (reqs st) (ro st) (pending st) num' fr (offloaded st) (evaluated st) (onloaded st)).
Proof.
  intros H Hl Hs Hc Hh Hp Hb He Hld Hn Hf Hd.
  assert (forall c, c ∈ held st -> flow_of cs c = flow_of (ctxs st) c) as Ef by (intros c Hin; unfold flow_of; by rewrite Hc).
  assert (forall rs, (forall r, r ∈ rs -> r ∈ rbusy (ro st)) -> map (num_of cs) (omap (req_ctx (reqs st)) rs) = map (num_of (ctxs st)) (omap (req_ctx (reqs st)) rs)) as En.
  { intros rs Hrs. apply map_ext_elem. intros c (r & Hr & Er)%list_elem_of_omap. unfold num_of. rewrite Hc; [done|].
    eapply inv_req_held; [exact H|by apply Hrs|done]. }
  constructor; cbn; unfold held in *; cbn; rewrite ?Hh; try apply H; try done.
  - rewrite app_assoc, Hp, <- app_assoc. apply H.
  - pose proof (inv_room _ _ H). unfold held in *. lia.
  - intros c Hin. rewrite Ef by done. by apply (inv_flow _ _ H).
  - intros f. rewrite (inv_pending _ _ H). do 2 f_equal. apply filter_ext_elem. intros c Hin. by rewrite Ef.
  - destruct (inv_num _ _ H) as [Hn0 _], Hn as [Hn1 Hn2]. split; [by etransitivity|exact Hn2].
  - apply Forall_app. split; [|done]. pose proof (inv_nums _ _ H) as Hx. apply Forall_app in Hx as [Hx _]. eapply Forall_impl; [exact Hx|]. cbn. intros k Hk. lia.
  - rewrite (inv_fifo _ _ H) at 1. by rewrite En.
  - rewrite (inv_once _ _ H), En; [done|]. intros r Hr. apply list_elem_of_In in Hr. apply filter_In in Hr as [Hr _]. by apply list_elem_of_In.
Qed.

Lemma alter_slot (cs : list IpsContext) (g : IpsContext -> IpsContext) c : (forall x, slot (g x) = slot x) ->
  (forall c x, cs !! c = Some x -> slot x = S c) -> forall d x, alter g c cs !! d = Some x -> slot x = S d.
Proof.
  intros Hg Hs d x Hx. destruct (decide (c = d)) as [->|Hn].
  - rewrite list_lookup_alter_eq in Hx. destruct (cs !! d) as [y|] eqn:E; [|done]. injection Hx as <-. rewrite Hg. by apply Hs.
  - rewrite list_lookup_alter_ne in Hx by done. by apply Hs.
Qed.

Lemma frame_nums_cons cs k c fr : frame_nums cs ((k, c) :: fr) = match k with Loading => frame_nums cs fr | _ => num_of cs c :: frame_nums cs fr end.
Proof. by destruct k. Qed.
Lemma engines_cons k c fr : engines ((k, c) :: fr) = match k with Loading => engines fr | _ => (k, c) :: engines fr end.
Proof. by destruct k. Qed.
Lemma loading_cons k c fr : loading ((k, c) :: fr) = match k with Loading => (k, c) :: loading fr | _ => loading fr end.
Proof. by destruct k. Qed.
Lemma engines_sub fr f : f ∈ engines fr -> f ∈ fr.
Proof. intros H%list_elem_of_In. apply filter_In in H as [H _]. by apply list_elem_of_In. Qed.

(** An idle context becomes the current one, with a new number. *)
Lemma inv_activate n st c l g k : Inv n st -> idle (sw st) = c :: l -> num st < 2 ^ 64 - 1 -> k <> Loading -> (length (engines (frames st)) < 5)%nat ->
  (forall x, slot (g x) = slot x /\ context_num (g x) = num st + 1) ->
  Inv n (MkSt (alter g c (ctxs st)) (MkSwitcher l (c :: busy (sw st)) (hold (sw st))) (reqs st) (ro st) (pending st) (num st + 1)
    ((k, c) :: frames st) (offloaded st) (evaluated st) (onloaded st)).
Proof.
  intros H Hi Hnum Hk Hdep Hg. pose proof (inv_all_nodup _ _ H) as Hnd. rewrite Hi in Hnd. cbn in Hnd. apply NoDup_cons in Hnd as [Hc _].
  assert (forall d, d ∈ busy (sw st) ++ held st -> alter g c (ctxs st) !! d = ctxs st !! d) as Eq.
  { intros d Hd. apply list_lookup_alter_ne. intros ->. apply Hc. set_solver. }
  assert (frame_nums (alter g c (ctxs st)) (frames st) = frame_nums (ctxs st) (frames st)) as En.
  { apply map_ext_elem. intros f Hf%engines_sub. unfold num_of. rewrite Eq; [done|]. rewrite (inv_frames _ _ H). apply elem_of_app. left.
    apply list_elem_of_In, in_map. by apply list_elem_of_In. }
  assert (num_of (alter g c (ctxs st)) c = num st + 1) as Ec.
  { destruct (inv_ctx _ _ H c) as (x & Hx & _); [rewrite Hi; set_solver|]. unfold num_of. rewrite list_lookup_alter_eq, Hx. cbn. apply Hg. }
  pose proof (inv_nums _ _ H) as Hle. pose proof (inv_num _ _ H) as Hn.
  assert (frame_nums (alter g c (ctxs st)) ((k, c) :: frames st) = (num st + 1) :: frame_nums (ctxs st) (frames st)) as Ef
    by (rewrite frame_nums_cons, Ec, En; by destruct k).
  apply inv_same_hold; cbn [idle busy hold]; try done; rewrite ?Ef.
  - rewrite length_alter. apply H.
  - apply alter_slot; [intros x; apply Hg|apply H].
  - intros d Hd. apply Eq. set_solver.
  - rewrite Hi. cbn. rewrite <- Permutation_middle. done.
  - cbn [map snd]. f_equal. apply H.
  - rewrite engines_cons. destruct k; cbn [length]; [lia..|done].
  - rewrite loading_cons. by destruct k.
  - split; [lia|]. clear -Hnum. change (2 ^ 64) with 18446744073709551616 in *. lia.
  - apply Forall_app in Hle as [_ Hle]. constructor; [lia|]. eapply Forall_impl; [exact Hle|]. cbn. intros. lia.
  - rewrite <- Permutation_middle. constructor; [|apply H]. intros Hin. rewrite Forall_forall in Hle. apply Hle in Hin. lia.
Qed.

Lemma num_wrap k : 0 <= k < 2 ^ 64 - 1 -> u64 (k + 1) = k + 1.
Proof. intros Hk. unfold u64. apply Z.mod_small. change (2 ^ 64) with 18446744073709551616 in *. lia. Qed.

(** A context of the current packet becomes idle. *)
Lemma inv_deactivate n st k c fr : Inv n st -> frames st = (k, c) :: fr ->
  Inv n (MkSt (ctxs st) (MkSwitcher (c :: idle (sw st)) (map snd fr) (hold (sw st))) (reqs st) (ro st) (pending st) (num st)
    fr (offloaded st) (evaluated st) (onloaded st)).
Proof.
  intros H Hf. pose proof (inv_nums _ _ H) as Hle. pose proof (inv_nodup _ _ H) as Hnd. rewrite Hf in Hle, Hnd.
  change (map (fun f => num_of (ctxs st) f.2) (engines ((k, c) :: fr))) with (frame_nums (ctxs st) ((k, c) :: fr)) in *. rewrite frame_nums_cons in Hle, Hnd.
  apply inv_same_hold; cbn [idle busy hold]; try done; try apply H.
  - rewrite (inv_frames _ _ H), Hf. cbn [map snd app]. rewrite <- Permutation_middle. done.
  - pose proof (inv_depth _ _ H) as Hd. rewrite Hf, engines_cons in Hd. destruct k; cbn [length] in Hd; lia.
  - rewrite Hf, loading_cons. destruct k; cbn [length]; lia.
  - split; [lia|apply H].
  - apply Forall_app in Hle as [_ Hle]. destruct k; [by apply Forall_cons in Hle as [_ Hle]..|done].
  - destruct k; [..|done]; rewrite <- Permutation_middle in Hnd; by apply NoDup_cons in Hnd as [_ Hnd].
Qed.

Section Calls.
Context (n : nat) (st : state) (H : Inv n st).

Lemma ok_start : frames st = [] -> num st < 2 ^ 64 - 1 -> exists st', wire_start st = Some st' /\ Inv n st'.
Proof.
  intros Hf Hn. pose proof (inv_total _ _ H) as Ht. pose proof (inv_room _ _ H) as Hr. pose proof (inv_frames _ _ H) as Hb. rewrite Hf in *. cbn in Hb.
  destruct (idle (sw st)) as [|c l] eqn:Hi; [cbn in Ht; lia|]. unfold wire_start, start. rewrite Hi, Hb. cbn. eexists. split; [reflexivity|].
  pose proof (inv_num _ _ H). rewrite num_wrap by lia.
  assert (busy (sw st) = []) as Hb' by done. pose proof (inv_activate n st c l (fun x => MkContext (slot x) (num st + 1) (flow x)) Wire H Hi Hn) as HI.
  rewrite Hb', Hf in HI. rewrite ?Hf. apply HI; [done|unfold engines; cbn; lia|done].
Qed.

Lemma ok_stop c : frames st = [(Wire, c)] -> exists st', wire_stop st = Some st' /\ Inv n st'.
Proof.
  intros Hf. unfold wire_stop, stop. rewrite (inv_frames _ _ H), Hf. cbn. eexists. split; [reflexivity|]. unfold with_sw. apply (inv_deactivate _ _ _ _ [] H Hf).
Qed.

(** With at most five packets in work there is an idle context. *)
Lemma inv_idle : exists c l, idle (sw st) = c :: l.
Proof.
  pose proof (inv_depth _ _ H) as He. pose proof (inv_total _ _ H) as Ht. pose proof (inv_room _ _ H) as Hr. rewrite frames_split in Ht.
  destruct (idle (sw st)) as [|c l]; [cbn in Ht; lia|by eauto].
Qed.

Lemma ok_begin f : (length (engines (frames st)) < 5)%nat -> num st < 2 ^ 64 - 1 -> exists st', run_op (Op_begin f) st = Some st' /\ Inv n st'.
Proof.
  intros He Hn. destruct inv_idle as (c & l & Hi). cbn [run_op]. unfold set_next_packet, get_next. rewrite Hi. cbn.
  unfold engine_begin, interrupt. cbn. rewrite Hi. cbn. eexists. split; [reflexivity|]. pose proof (inv_num _ _ H). rewrite num_wrap by lia.
  rewrite list_alter_alter_eq. apply inv_activate; done.
Qed.

Lemma ok_finish k c fr : frames st = (k, c) :: fr ->
  exists st', finish_packet st = Some st' /\ frames st' = frames st /\ Inv n (with_sw st' (sw st') fr).
Proof.
  intros Hf. destruct inv_idle as (d & l & Hi). unfold finish_packet, get_next, complete. rewrite (inv_frames _ _ H), Hf, Hi. cbn.
  eexists. split; [reflexivity|]. cbn. split; [done|]. unfold with_sw. cbn. rewrite <- Hi. apply (inv_deactivate _ _ k c fr H Hf).
Qed.

Lemma ok_end c fr : frames st = (Engine, c) :: fr -> exists st', engine_end c st = Some st' /\ Inv n st'.
Proof.
  intros Hf. destruct (ok_finish _ _ _ Hf) as (st' & Hx & Hf' & HI). unfold engine_end, get_context. rewrite (inv_frames _ _ H), Hf. cbn.
  rewrite Nat.eqb_refl, Hx. cbn. eexists. split; [reflexivity|]. by rewrite Hf', Hf.
Qed.

Lemma ok_onload_end c fr : frames st = (Loading, c) :: fr -> exists st', onload_end st = Some st' /\ Inv n st'.
Proof.
  intros Hf. destruct (ok_finish _ _ _ Hf) as (st' & Hx & Hf' & HI). unfold onload_end. rewrite Hx. cbn. eexists. split; [reflexivity|]. by rewrite Hf', Hf.
Qed.
End Calls.

(** *** Offloading *)

Ltac fields := unfold held; cbn [ctxs sw reqs ro pending num frames offloaded evaluated onloaded idle busy hold rbusy ridle].
(** The clauses that a call does not touch. *)
Ltac keep H :=
  try first [exact (inv_len _ _ H)|exact (inv_slot _ _ H)|exact (inv_hold_len _ _ H)|exact (inv_hold _ _ H)|exact (inv_parts _ _ H)|exact (inv_frames _ _ H)
    |exact (inv_depth _ _ H)|exact (inv_room _ _ H)|exact (inv_reqs _ _ H)|exact (inv_req _ _ H)|exact (inv_go _ _ H)|exact (inv_free _ _ H)|exact (inv_held _ _ H)
    |exact (inv_flow _ _ H)|exact (inv_pending _ _ H)|exact (inv_num _ _ H)|exact (inv_nums _ _ H)|exact (inv_nodup _ _ H)|exact (inv_fifo _ _ H)|exact (inv_once _ _ H)].

(** Requests that are busy are not the one that is taken next. *)
Lemma inv_ridle_head n st r l : Inv n st -> ridle (ro st) = r :: l -> r ∉ rbusy (ro st) /\ r ∉ l /\ (r < length (reqs st))%nat.
Proof.
  intros H Hr. pose proof (inv_req_nodup _ _ H) as Hnd. rewrite Hr in Hnd. rewrite <- Permutation_middle in Hnd. apply NoDup_cons in Hnd as [Hn _].
  split; [set_solver|split; [set_solver|]]. destruct (inv_req_lookup _ _ H r) as [q Hq]; [rewrite Hr; set_solver|]. by eapply lookup_lt_Some.
Qed.

Lemma req_ctx_ext rs rs' (l : list nat) : (forall s, s ∈ l -> rs' !! s = rs !! s) -> omap (req_ctx rs') l = omap (req_ctx rs) l.
Proof. intros Hr. apply omap_ext_in. intros s Hs. unfold req_ctx. by rewrite Hr. Qed.
Lemma req_done_ext rs rs' (l : list nat) : (forall s, s ∈ l -> rs' !! s = rs !! s) -> List.filter (req_done rs') l = List.filter (req_done rs) l.
Proof. intros Hr. apply filter_ext_elem. intros s Hs. unfold req_done. by rewrite Hr. Qed.
Lemma filter_sub {A} (f : A -> bool) (l : list A) x : x ∈ List.filter f l -> x ∈ l.
Proof. intros Hin%list_elem_of_In. apply filter_In in Hin as [Hin _]. by apply list_elem_of_In. Qed.

Lemma inv_suspend n st c x f fr r l : Inv n st -> frames st = (Engine, c) :: fr -> (5 < length (idle (sw st)))%nat ->
  ctxs st !! c = Some x -> flow x = Some f -> ridle (ro st) = r :: l ->
  Inv n (MkSt (ctxs st) (MkSwitcher (idle (sw st)) (map snd fr) (<[S c := Some c]> (hold (sw st))))
    (alter (fun q => MkRequest (Some c) true (S c) (go q)) r (reqs st)) (MkOffload (rbusy (ro st) ++ [r]) l) (<[f := pending st f + 1]> (pending st))
    (num st) fr (offloaded st ++ [context_num x]) (evaluated st) (onloaded st)).
Proof.
  intros H Hf Hi Hx Hfl Hr. destruct (inv_ridle_head _ _ _ _ H Hr) as (Hrb & Hrl & Hrn).
  pose proof (inv_frames _ _ H) as Hb. rewrite Hf in Hb. cbn [map snd] in Hb.
  assert (c ∉ held st) as Hch.
  { pose proof (inv_all_nodup _ _ H) as Hnd. rewrite Hb in Hnd. cbn [app] in Hnd. rewrite <- Permutation_middle in Hnd. apply NoDup_cons in Hnd as [Hn _]. set_solver. }
  assert (c < n)%nat as Hcn by (rewrite <- (inv_len _ _ H); by eapply lookup_lt_Some).
  pose proof (inv_not_held _ _ H c Hch Hcn) as Hs. pose proof (omap_insert_some (hold (sw st)) (S c) c Hs) as Hp.
  assert (alter (fun q => MkRequest (Some c) true (S c) (go q)) r (reqs st) !! r = (fun q => MkRequest (Some c) true (S c) (go q)) <$> reqs st !! r) as Er
    by apply list_lookup_alter_eq.
  destruct (lookup_lt_is_Some_2 (reqs st) r Hrn) as [q Hq]. rewrite Hq in Er. cbn in Er.
  assert (num_of (ctxs st) c = context_num x) as Enum by (unfold num_of; by rewrite Hx).
  assert (flow_of (ctxs st) c = Some f) as Eflow by (unfold flow_of; by rewrite Hx).
  assert (forall s, s ∈ rbusy (ro st) -> alter (fun q => MkRequest (Some c) true (S c) (go q)) r (reqs st) !! s = reqs st !! s) as Eo
    by (intros s Hs'; apply list_lookup_alter_ne; by intros ->).
  constructor; fields; keep H.
  - rewrite length_insert. apply (inv_hold_len _ _ H).
  - intros s d Hd. destruct (decide (S c = s)) as [<-|Hne]; [rewrite list_lookup_insert_eq in Hd by (by eapply lookup_lt_Some); by injection Hd as ->|].
    rewrite list_lookup_insert_ne in Hd by done. by apply (inv_hold _ _ H).
  - rewrite Hp, <- (inv_parts _ _ H), Hb. cbn [app]. rewrite <- Permutation_middle. done.
  - done.
  - pose proof (inv_depth _ _ H) as Hd. rewrite Hf, engines_cons in Hd. cbn [length] in Hd. lia.
  - rewrite Hp. cbn [length]. change (omap id (hold (sw st))) with (held st). pose proof (inv_total _ _ H) as Ht. rewrite Hf in Ht. cbn [length] in Ht.
    pose proof (frames_split fr). lia.
  - rewrite length_alter, <- (inv_reqs _ _ H), Hr, <- app_assoc. done.
  - intros s [Hs'|Hs']%elem_of_app.
    + rewrite list_lookup_alter_ne by (by intros ->). by apply (inv_req _ _ H).
    + apply list_elem_of_singleton in Hs' as ->. rewrite Er. by eexists _, c.
  - intros s q' Hq'. destruct (decide (r = s)) as [<-|Hne]; [|rewrite list_lookup_alter_ne in Hq' by done; by apply (inv_go _ _ H) in Hq'].
    rewrite Er in Hq'. injection Hq' as <-. cbn. by apply (inv_go _ _ H) in Hq.
  - intros s q' Hs' Hq'. rewrite list_lookup_alter_ne in Hq' by (by intros ->). eapply (inv_free _ _ H); [rewrite Hr; by right|done].
  - rewrite omap_app, (req_ctx_ext (reqs st)) by done. cbn. unfold req_ctx at 2. rewrite Er. cbn. rewrite Hp, (inv_held _ _ H). unfold held. by rewrite Permutation_app_comm.
  - intros d. rewrite Hp. intros [->|Hd]%elem_of_cons; [by rewrite Eflow|by apply (inv_flow _ _ H)].
  - intros g. rewrite (filter_length_perm _ _ _ Hp). cbn [List.filter]. destruct (decide (f = g)) as [<-|Hne].
    + rewrite fn_lookup_insert, bool_decide_true by done. cbn [length]. rewrite (inv_pending _ _ H). unfold held. lia.
    + rewrite fn_lookup_insert_ne by done. rewrite bool_decide_false by congruence. apply (inv_pending _ _ H).
  - pose proof (inv_nums _ _ H) as Hn. rewrite Hf, engines_cons in Hn. cbn [map snd] in Hn. by rewrite <- app_assoc, <- Enum.
  - pose proof (inv_nodup _ _ H) as Hn. rewrite Hf, engines_cons in Hn. cbn [map snd] in Hn. by rewrite <- app_assoc, <- Enum.
  - rewrite omap_app, map_app, (req_ctx_ext (reqs st)), (inv_fifo _ _ H), <- app_assoc by done. cbn. unfold req_ctx at 3. rewrite Er. cbn. by rewrite Enum.
  - rewrite List.filter_app, (req_done_ext (reqs st)) by done. cbn [List.filter]. unfold req_done at 2. rewrite Er. cbn [offload_ negb]. rewrite app_nil_r, (req_ctx_ext (reqs st)); [apply (inv_once _ _ H)|].
    intros s Hs'%filter_sub. by apply Eo.
Qed.

Lemma inv_resume n st c x f r l q : Inv n st -> rbusy (ro st) = r :: l -> reqs st !! r = Some q -> offload_ q = false -> packet q = Some c ->
  ctxs st !! c = Some x -> flow x = Some f ->
  Inv n (MkSt (ctxs st) (MkSwitcher (idle (sw st)) (c :: busy (sw st)) (<[S c := None]> (hold (sw st))))
    (<[r := MkRequest None false (id_ q) (go q)]> (reqs st)) (MkOffload l (ridle (ro st) ++ [r])) (<[f := pending st f - 1]> (pending st))
    (num st) ((Loading, c) :: frames st) (offloaded st) (evaluated st) (onloaded st ++ [context_num x])).
Proof.
  intros H Hr Hq Ho Hpk Hx Hfl. assert (req_ctx (reqs st) r = Some c) as Ec by (unfold req_ctx; by rewrite Hq).
  assert (c ∈ held st) as Hch by (eapply inv_req_held; [done|rewrite Hr; left|done]). pose proof (inv_held_at _ _ H c Hch) as Hs.
  pose proof (omap_insert_none (hold (sw st)) (S c) c Hs) as Hp. assert (r < length (reqs st))%nat as Hrn by (by eapply lookup_lt_Some).
  assert (num_of (ctxs st) c = context_num x) as Enum by (unfold num_of; by rewrite Hx).
  assert (flow_of (ctxs st) c = Some f) as Eflow by (unfold flow_of; by rewrite Hx).
  pose proof (inv_req_nodup _ _ H) as Hnd. rewrite Hr in Hnd. cbn [app] in Hnd. apply NoDup_cons in Hnd as [Hrn' _].
  assert (forall s, s ∈ l ++ ridle (ro st) -> <[r := MkRequest None false (id_ q) (go q)]> (reqs st) !! s = reqs st !! s) as Eo
    by (intros s Hs'; apply list_lookup_insert_ne; by intros ->).
  assert (omap (req_ctx (<[r := MkRequest None false (id_ q) (go q)]> (reqs st))) l = omap (req_ctx (reqs st)) l) as El
    by (apply req_ctx_ext; intros; apply Eo; set_solver).
  assert (omap (req_ctx (reqs st)) (rbusy (ro st)) = c :: omap (req_ctx (reqs st)) l) as Er by (rewrite Hr; cbn; by rewrite Ec).
  constructor; fields; keep H.
  - rewrite length_insert. apply (inv_hold_len _ _ H).
  - intros s d Hd. destruct (decide (S c = s)) as [<-|Hne]; [rewrite list_lookup_insert_eq in Hd by (by eapply lookup_lt_Some); done|].
    rewrite list_lookup_insert_ne in Hd by done. by apply (inv_hold _ _ H).
  - rewrite <- (inv_parts _ _ H). unfold held. rewrite Hp. cbn [app]. by rewrite <- !Permutation_middle.
  - cbn [map snd]. f_equal. apply (inv_frames _ _ H).
  - rewrite loading_cons. cbn [length]. pose proof (inv_room _ _ H) as Hroom. unfold held in Hroom. rewrite Hp in Hroom. cbn [length] in Hroom. lia.
  - rewrite length_insert, <- (inv_reqs _ _ H), Hr. cbn [app]. rewrite app_assoc. by rewrite <- Permutation_cons_append.
  - intros s Hs'. rewrite Eo by set_solver. apply (inv_req _ _ H). rewrite Hr. by right.
  - intros s q' Hq'. destruct (decide (r = s)) as [<-|Hne]; [|rewrite list_lookup_insert_ne in Hq' by done; by apply (inv_go _ _ H) in Hq'].
    rewrite list_lookup_insert_eq in Hq' by done. injection Hq' as <-. cbn. by apply (inv_go _ _ H) in Hq.
  - intros s q' [Hs'|Hs'%list_elem_of_singleton]%elem_of_app Hq'; [rewrite Eo in Hq' by set_solver; by apply (inv_free _ _ H s)|].
    subst s. rewrite list_lookup_insert_eq in Hq' by done. by injection Hq' as <-.
  - rewrite El. pose proof (inv_held _ _ H) as Hh. rewrite Er in Hh. unfold held in Hh. rewrite Hp in Hh. by apply Permutation_cons_inv in Hh.
  - intros d Hd. apply (inv_flow _ _ H). unfold held. rewrite Hp. by right.
  - intros g. pose proof (inv_pending _ _ H g) as Hg. unfold held in Hg. rewrite (filter_length_perm _ _ _ Hp) in Hg. cbn [List.filter] in Hg.
    destruct (decide (f = g)) as [<-|Hne].
    + rewrite bool_decide_true in Hg by done. rewrite fn_lookup_insert. cbn [length] in Hg. lia.
    + rewrite bool_decide_false in Hg by congruence. by rewrite fn_lookup_insert_ne.
  - rewrite El, (inv_fifo _ _ H), Er, <- app_assoc. cbn. by rewrite Enum.
  - rewrite (inv_once _ _ H), Hr. cbn [List.filter]. unfold req_done at 1. rewrite Hq, Ho. cbn [negb]. cbn [omap list_omap]. rewrite Ec. cbn [map]. rewrite Enum, <- app_assoc.
    cbn [app]. rewrite (req_done_ext (reqs st) (<[r := _]> (reqs st))) by (intros; apply Eo; set_solver).
    rewrite (req_ctx_ext (reqs st) (<[r := _]> (reqs st))); [done|].
    intros s Hs'%filter_sub. apply Eo. set_solver.
Qed.

Lemma inv_work n st r q c x : Inv n st -> r ∈ rbusy (ro st) -> reqs st !! r = Some q -> offload_ q = true -> packet q = Some c -> ctxs st !! c = Some x ->
  Inv n (MkSt (ctxs st) (sw st) (<[r := MkRequest (packet q) false (id_ q) (go q)]> (reqs st)) (ro st) (pending st) (num st) (frames st)
    (offloaded st) (evaluated st ++ [context_num x]) (onloaded st)).
Proof.
  intros H Hr Hq Ho Hpk Hx. assert (r < length (reqs st))%nat as Hrn by (by eapply lookup_lt_Some).
  set (rs' := <[r := MkRequest (packet q) false (id_ q) (go q)]> (reqs st)).
  assert (rs' !! r = Some (MkRequest (packet q) false (id_ q) (go q))) as E by (by apply list_lookup_insert_eq).
  assert (forall s, s <> r -> rs' !! s = reqs st !! s) as Eo by (intros s Hs; by apply list_lookup_insert_ne).
  assert (forall l : list nat, omap (req_ctx rs') l = omap (req_ctx (reqs st)) l) as Ec.
  { intros l. apply omap_ext_in. intros s _. unfold req_ctx. destruct (decide (s = r)) as [->|Hs]; [by rewrite E, Hq|by rewrite Eo]. }
  constructor; fields; keep H; rewrite ?Ec; keep H.
  - unfold rs'. rewrite length_insert. apply (inv_reqs _ _ H).
  - intros s Hs. destruct (decide (s = r)) as [->|Hne]; [|rewrite Eo by done; by apply (inv_req _ _ H)].
    destruct (inv_req _ _ H r Hs) as (q' & c' & Hq' & Hp' & Hi'). rewrite E. rewrite Hq in Hq'. injection Hq' as <-. by eexists _, c'.
  - intros s q' Hq'. destruct (decide (s = r)) as [->|Hne]; [|rewrite Eo in Hq' by done; by apply (inv_go _ _ H) in Hq'].
    rewrite E in Hq'. injection Hq' as <-. cbn. by apply (inv_go _ _ H) in Hq.
  - intros s q' Hs Hq'. destruct (decide (s = r)) as [->|Hne]; [rewrite E in Hq'; by injection Hq' as <-|rewrite Eo in Hq' by done; by apply (inv_free _ _ H s)].
  - assert (num_of (ctxs st) c = context_num x) as Enum by (unfold num_of; by rewrite Hx). rewrite (inv_once _ _ H), <- app_assoc. apply Permutation_app_head.
    rewrite <- Enum. pose proof (inv_req_nodup _ _ H) as Hnd. apply NoDup_app in Hnd as (Hnd & _ & _).
    apply elem_of_Permutation in Hr as [l Hl]. rewrite !(filter_perm _ _ _ Hl). cbn [List.filter].
    assert (req_done (reqs st) r = false) as -> by (unfold req_done; by rewrite Hq, Ho).
    assert (req_done rs' r = true) as -> by (unfold req_done; by rewrite E). cbn [omap list_omap].
    assert (req_ctx (reqs st) r = Some c) as -> by (unfold req_ctx; by rewrite Hq). cbn [map].
    rewrite Hl in Hnd. apply NoDup_cons in Hnd as [Hrl _]. rewrite (req_done_ext (reqs st) rs') by (intros; apply Eo; by intros ->).
    by rewrite <- Permutation_cons_append.
Qed.

Section Offloading.
Context (n : nat) (st : state) (H : Inv n st).

Lemma inv_top k c fr : frames st = (k, c) :: fr -> exists x, ctxs st !! c = Some x /\ slot x = S c /\ c ∉ map snd fr /\ c ∉ held st /\ (c < n)%nat.
Proof.
  intros Hf. pose proof (inv_frames _ _ H) as Hb. rewrite Hf in Hb. cbn [map snd] in Hb.
  destruct (inv_ctx _ _ H c) as (x & Hx & Hs); [rewrite Hb; set_solver|]. exists x. split; [done|]. split; [done|].
  pose proof (inv_all_nodup _ _ H) as Hnd. rewrite Hb in Hnd. cbn [app] in Hnd. rewrite <- Permutation_middle in Hnd. apply NoDup_cons in Hnd as [Hn _].
  split; [set_solver|]. split; [set_solver|]. rewrite <- (inv_len _ _ H). by eapply lookup_lt_Some.
Qed.

Lemma ok_offload pdu large c f2 fr : (n <= 255)%nat -> frames st = (Engine, c) :: f2 :: fr -> flow_of (ctxs st) c <> None ->
  exists st', run_op (Op_offload pdu large) st = Some st' /\ Inv n st'.
Proof.
  intros Hn Hf Hfl. cbn [run_op]. unfold offload. destruct (negb pdu || negb large || negb (can_hold (sw st)) || (available (ro st) =? 0)%nat) eqn:Eg; [by exists st|].
  apply orb_false_iff in Eg as [Eg Ea]. apply orb_false_iff in Eg as [_ Eh]. destruct (inv_top _ _ _ Hf) as (x & Hx & Hs & Hc & Hh & Hcn).
  destruct (flow x) as [f|] eqn:Ef; [|unfold flow_of in Hfl; rewrite Hx in Hfl; cbn in Hfl; congruence].
  assert (5 < length (idle (sw st)))%nat as Hi by (apply negb_false_iff in Eh; by apply Nat.ltb_lt in Eh).
  destruct (ridle (ro st)) as [|r l] eqn:Hr; [unfold available in Ea; by rewrite Hr in Ea|].
  unfold get_context, suspend, put. rewrite (inv_frames _ _ H), Hf, Hr. cbn. rewrite Hx. cbn. rewrite Hs, (inv_not_held _ _ H c Hh Hcn). cbn. rewrite Ef. cbn.
  unfold set_offloaded. pose proof (inv_pending_le _ _ H f) as Hp. pose proof (inv_room _ _ H) as Hroom.
  assert ((pending st f <? 255) = true) as -> by (apply Z.ltb_lt; lia). cbn. unfold engine_end. cbn.
  assert ((c =? f2.2)%nat = false) as -> by (apply Nat.eqb_neq; intros ->; apply Hc; left). cbn. eexists. split; [reflexivity|].
  unfold with_sw. cbn. apply (inv_suspend n st c x f (f2 :: fr) r l); done.
Qed.

(** The request at the front, and its context. *)
Lemma inv_front r : r ∈ rbusy (ro st) -> exists q c x f, reqs st !! r = Some q /\ packet q = Some c /\ id_ q = S c /\ ctxs st !! c = Some x /\
  flow x = Some f /\ hold (sw st) !! S c = Some (Some c) /\ 0 < pending st f.
Proof.
  intros Hr. destruct (inv_req _ _ H r Hr) as (q & c & Hq & Hp & Hi). assert (c ∈ held st) as Hh by (eapply inv_req_held; [done|done|unfold req_ctx; by rewrite Hq]).
  destruct (inv_ctx _ _ H c) as (x & Hx & _); [set_solver|]. pose proof (inv_flow _ _ H c Hh) as Hf. unfold flow_of in Hf. rewrite Hx in Hf. cbn in Hf.
  destruct (flow x) as [f|] eqn:Ef; [|done]. exists q, c, x, f. do 5 (split; [done|]). split; [by apply (inv_held_at _ _ H)|].
  eapply inv_pending_pos; [done|done|]. unfold flow_of. by rewrite Hx.
Qed.

Lemma ok_onload : rbusy (ro st) <> [] -> exists st', onload st = Some st' /\ Inv n st'.
Proof.
  intros Hr. destruct (rbusy (ro st)) as [|r l] eqn:E; [done|]. destruct (inv_front r) as (q & c & x & f & Hq & Hp & Hid & Hx & Hf & Hh & Hpos); [rewrite E; left|].
  unfold onload, get. rewrite E. cbn. rewrite Hq. cbn. destruct (offload_ q) eqn:Ho; [by exists st|]. unfold get_context_at, resume. rewrite Hid, Hh. cbn. rewrite Hx. cbn. rewrite Hf. cbn.
  unfold clear_offloaded. assert ((pending st f =? 0) = false) as -> by (apply Z.eqb_neq; lia). cbn. eexists. split; [reflexivity|].
  rewrite <- Hid at 2. by apply (inv_resume n st c x f r l q).
Qed.

Lemma ok_work r : (r < length (reqs st))%nat -> exists st', worker r st = Some st' /\ Inv n st'.
Proof.
  intros Hr. destruct (lookup_lt_is_Some_2 (reqs st) r Hr) as [q Hq]. unfold worker. rewrite Hq. cbn. rewrite (inv_go _ _ H r q Hq). cbn.
  destruct (offload_ q) eqn:Ho; [|by exists st]. cbn.
  assert (r ∈ rbusy (ro st)) as Hb.
  { assert (r ∈ rbusy (ro st) ++ ridle (ro st)) as [Hb|Hb]%elem_of_app by (rewrite (inv_reqs _ _ H); apply elem_of_seq; lia); [done|].
    pose proof (inv_free _ _ H r q Hb Hq). congruence. }
  destruct (inv_front r Hb) as (q' & c & x & f & Hq' & Hp & Hid & Hx & Hf & _ & Hpos). rewrite Hq in Hq'. injection Hq' as <-. rewrite Hp. cbn. rewrite Hx. cbn. rewrite Hf. cbn.
  unfold is_offloaded. assert ((pending st f =? 0) = false) as -> by (apply Z.eqb_neq; lia). cbn. eexists. split; [reflexivity|].
  rewrite <- Hp. pose proof (inv_work n st r q c x H Hb Hq Ho Hp Hx) as HI. by rewrite (inv_go _ _ H r q Hq) in HI.
Qed.

(** No call fails, and each leaves the invariant. *)
Lemma ok_op o : (n <= 255)%nat -> allowed o st -> exists st', run_op o st = Some st' /\ Inv n st'.
Proof.
  intros Hn Ha. unfold allowed in Ha. destruct o; cbn [run_op].
  - destruct (frames st) eqn:Hf; [|done]. by apply (ok_start n st H).
  - destruct (frames st) as [|[[] c] [|]] eqn:Hf; try done. by apply (ok_stop n st H c).
  - destruct Ha. apply (ok_begin n st H); [|done]. by destruct (frames st).
  - destruct (frames st) as [|[[] c] fr] eqn:Hf; try done. by apply (ok_end n st H c fr).
  - destruct (frames st) as [|[[] c] [|f2 fr]] eqn:Hf; try done. by apply (ok_offload _ _ c f2 fr).
  - apply ok_onload. by destruct (frames st).
  - destruct (frames st) as [|[[] c] fr] eqn:Hf; try done. by apply (ok_onload_end n st H c fr).
  - apply ok_work. by destruct (frames st).
Qed.
End Offloading.

(** *** The first state *)

Lemma push_all_spec n k : (k <= n)%nat ->
  exists cs, foldl (fun '(w, cs) c => push c w cs) (ContextSwitcher_new n, replicate n (MkContext 0 0 None)) (seq 0 k) =
    (MkSwitcher (rev (seq 0 k)) [] (replicate (S n) None), cs) /\ length cs = n /\ (forall c x, (c < k)%nat -> cs !! c = Some x -> slot x = S c).
Proof.
  induction k as [|k IH]; intros Hk; [eexists; split; [reflexivity|]; split; [apply length_replicate|lia]|].
  destruct IH as (cs & E & Hl & Hs); [lia|]. rewrite seq_S, foldl_app, E, rev_app_distr. cbn [foldl push idle busy hold]. cbn [Nat.add rev app].
  eexists. split; [unfold push; cbn; reflexivity|]. unfold set_slot. rewrite length_alter. split; [done|]. intros c x Hc Hx.
  rewrite length_rev, length_seq in Hx. destruct (decide (k = c)) as [<-|Hne].
  - rewrite list_lookup_alter_eq in Hx. destruct (cs !! k); [|done]. injection Hx as <-. cbn. lia.
  - rewrite list_lookup_alter_ne in Hx by done. apply (Hs c x); [lia|done].
Qed.

Lemma omap_replicate_none {A} k : omap id (replicate k (@None A)) = [].
Proof. by induction k. Qed.

Lemma inv_init n threads : (6 <= n)%nat -> Inv n (thread_init n threads).
Proof.
  intros Hn. destruct (push_all_spec n n) as (cs & E & Hl & Hs); [lia|]. unfold thread_init, push_all. rewrite E. cbn [fst snd].
  assert (omap id (replicate (S n) (@None nat)) = []) as E0 by apply omap_replicate_none.
  constructor; fields; rewrite ?E0; try done.
  - intros c x Hx. apply (Hs c x); [|done]. rewrite <- Hl. by eapply lookup_lt_Some.
  - apply length_replicate.
  - intros s c Hc. apply lookup_replicate in Hc as [Hc _]. done.
  - rewrite !app_nil_r. symmetry. apply Permutation_rev.
  - cbn [length]. unfold engines. cbn. lia.
  - by rewrite length_replicate.
  - intros r Hr. by apply elem_of_nil in Hr.
  - intros r q Hq. by apply lookup_replicate in Hq as [-> _].
  - intros r q _ Hq. by apply lookup_replicate in Hq as [-> _].
  - intros c Hc. by apply elem_of_nil in Hc.
  - constructor.
Qed.

Lemma reachable_inv n threads st : (6 <= n <= 255)%nat -> reachable n threads st -> Inv n st.
Proof.
  intros Hn. induction 1 as [|st o st' _ IH Ha Hr]; [apply inv_init; lia|].
  destruct (ok_op n st IH o) as (st2 & E & HI); [lia|done|]. congruence.
Qed.

(** ** The contract *)

(** C22.  As long as the calls are nested with at most five packets in work, no
    assertion of the context switcher, of the requests, of the flows' counters
    and of the workers fails and no null pointer is followed, whatever the
    workers do in between, for any number of threads. *)
Theorem offload_never_fails n threads st o : (6 <= n <= 255)%nat -> reachable n threads st -> allowed o st -> exists st', run_op o st = Some st'.
Proof.
  intros Hn Hr Ha. destruct (ok_op n st (reachable_inv _ _ _ Hn Hr) o) as (st' & E & _); [lia|done|]. by exists st'.
Qed.

Lemma count_filter_zero {A} (f : A -> bool) l : negb (Z.of_nat (length (List.filter f l)) =? 0) = existsb f l.
Proof.
  induction l as [|x l IH]; [done|]. cbn [List.filter existsb]. destruct (f x); cbn [orb length]; [|exact IH].
  apply negb_true_iff, Z.eqb_neq. lia.
Qed.
Lemma existsb_perm {A} (f : A -> bool) l l' : l ≡ₚ l' -> existsb f l = existsb f l'.
Proof. induction 1; cbn; try congruence. destruct (f x), (f y); done. Qed.

Lemma sublist_done {A B C} (g : B -> C) (h : A -> option B) p (l : list A) : sublist (map g (omap h (List.filter p l))) (map g (omap h l)).
Proof.
  induction l as [|x l IH]; [constructor|]. cbn [List.filter omap list_omap]. destruct (p x); cbn [omap list_omap]; destruct (h x); cbn [map]; try done; by constructor.
Qed.
Lemma existsb_omap {A B} (p : B -> bool) (h : A -> option B) (l : list A) :
  existsb p (omap h l) = existsb (fun x => match h x with Some y => p y | None => false end) l.
Proof. induction l as [|x l IH]; [done|]. cbn. destruct (h x); cbn; by rewrite IH. Qed.

Lemma inv_on_hold n st f : Inv n st ->
  on_hold f (sw st) (ctxs st) = is_offloaded f (pending st) /\ roffload_on_hold f (ro st) (reqs st) (ctxs st) = is_offloaded f (pending st).
Proof.
  intros H. assert (is_offloaded f (pending st) = on_hold f (sw st) (ctxs st)) as Hh by (unfold is_offloaded; rewrite (inv_pending _ _ H); apply count_filter_zero).
  split; [done|]. rewrite Hh. unfold on_hold, roffload_on_hold. rewrite <- (existsb_perm _ _ _ (inv_held _ _ H)), existsb_omap.
  clear. induction (rbusy (ro st)) as [|r l IH]; [done|]. cbn [existsb]. rewrite IH. f_equal. unfold req_ctx. destruct (reqs st !! r) as [q|]; cbn; [|done]. by destruct (packet q).
Qed.

(** C23.  Every context is idle, busy or on hold; packets are onloaded in the
    order they were offloaded, after a worker has evaluated each of them exactly
    once; a flow counts as offloaded exactly while one of its packets is on hold,
    which is when a request for it is pending. *)
Theorem offloaded_once_in_order n threads st : (6 <= n <= 255)%nat -> reachable n threads st ->
  idle (sw st) ++ busy (sw st) ++ omap id (hold (sw st)) ≡ₚ seq 0 n /\
  (exists waiting, offloaded st = onloaded st ++ waiting /\ length waiting = count (ro st)) /\
  NoDup (offloaded st) /\ NoDup (evaluated st) /\ (forall k, k ∈ onloaded st -> k ∈ evaluated st) /\ (forall k, k ∈ evaluated st -> k ∈ offloaded st) /\
  (forall f, is_offloaded f (pending st) = on_hold f (sw st) (ctxs st)) /\
  (forall f, is_offloaded f (pending st) = roffload_on_hold f (ro st) (reqs st) (ctxs st)).
Proof.
  intros Hn Hr. pose proof (reachable_inv _ _ _ Hn Hr) as H. pose proof (inv_fifo _ _ H) as Hf. pose proof (inv_once _ _ H) as Ho.
  assert (NoDup (offloaded st)) as Hnd by (pose proof (inv_nodup _ _ H) as Hx; by apply NoDup_app in Hx as [Hx _]).
  split; [apply (inv_parts _ _ H)|]. split.
  { eexists. split; [exact Hf|]. rewrite length_map. unfold count. rewrite <- (inv_held_rbusy _ _ H). by rewrite (inv_held _ _ H). }
  assert (sublist (onloaded st ++ map (num_of (ctxs st)) (omap (req_ctx (reqs st)) (List.filter (req_done (reqs st)) (rbusy (ro st))))) (offloaded st)) as Hs
    by (rewrite Hf; apply sublist_app; [done|apply sublist_done]).
  split; [done|]. split; [|split; [|split; [|split]]].
  - rewrite Ho. by eapply sublist_NoDup.
  - intros k Hk. rewrite Ho. set_solver.
  - intros k. rewrite Ho. by apply sublist_subseteq.
  - intros f. symmetry. by apply (inv_on_hold n).
  - intros f. symmetry. by apply (inv_on_hold n).
Qed.

(** *** The end of a thread *)

Lemma worker_spec n st r st' : Inv n st -> worker r st = Some st' ->
  ro st' = ro st /\ frames st' = frames st /\ offloaded st' = offloaded st /\ onloaded st' = onloaded st /\ length (reqs st') = length (reqs st) /\
  (forall s, (s < length (reqs st))%nat -> s = r \/ req_done (reqs st) s = true -> req_done (reqs st') s = true).
Proof.
  intros H E. unfold worker in E. destruct (reqs st !! r) as [q|] eqn:Hq; [|done]. cbn in E. rewrite (inv_go _ _ H r q Hq) in E. cbn in E.
  destruct (offload_ q) eqn:Ho; cbn in E.
  - destruct (packet q) as [c|]; [|done]. cbn in E. destruct (ctxs st !! c) as [x|]; [|done]. cbn in E. destruct (flow x) as [f|]; [|done]. cbn in E.
    destruct (is_offloaded f (pending st)); [|done]. injection E as <-. cbn. rewrite length_insert. do 5 (split; [done|]). intros s Hs Hd. unfold req_done.
    destruct (decide (s = r)) as [->|Hne]; [by rewrite list_lookup_insert_eq|]. destruct Hd as [->|Hd]; [done|]. by rewrite list_lookup_insert_ne.
  - injection E as <-. do 5 (split; [done|]). intros s _ [->|Hd]; [unfold req_done; by rewrite Hq, Ho|done].
Qed.

Lemma workers_spec n rs : forall st, Inv n st -> Forall (fun r => r < length (reqs st))%nat rs ->
  exists st', workers rs st = Some st' /\ Inv n st' /\ ro st' = ro st /\ frames st' = frames st /\ offloaded st' = offloaded st /\ onloaded st' = onloaded st /\
    length (reqs st') = length (reqs st) /\ (forall s, (s < length (reqs st))%nat -> s ∈ rs \/ req_done (reqs st) s = true -> req_done (reqs st') s = true).
Proof.
  induction rs as [|r rs IH]; intros st H Hv; cbn [workers].
  - exists st. do 7 (split; [done|]). intros s _ [Hs%elem_of_nil|Hd]; done.
  - apply Forall_cons in Hv as [Hr Hv]. destruct (ok_work n st H r Hr) as (st1 & E & H1). rewrite E. cbn.
    destruct (worker_spec n st r st1 H E) as (E1 & E2 & E3 & E4 & E5 & E6). destruct (IH st1 H1) as (st2 & F & H2 & F1 & F2 & F3 & F4 & F5 & F6); [by rewrite E5|].
    exists st2. rewrite F1, F2, F3, F4, F5. do 7 (split; [done|]). intros s Hs Hd. apply F6; [lia|]. destruct Hd as [[->|Hd]%elem_of_cons|Hd]; [|by left|].
    + right. apply E6; [done|by left].
    + right. apply E6; [done|by right].
Qed.

(** How many packets a sequence of calls may offload. *)
Definition offloads (os : list op) : nat := length (List.filter (fun o => match o with Op_offload _ _ => true | _ => false end) os).
Definition total_offloads (sched : list (list nat * list op)) : nat := offloads (flat_map snd sched).

Lemma engine_end_keeps c st st' : engine_end c st = Some st' -> ro st' = ro st /\ reqs st' = reqs st /\ offloaded st' = offloaded st.
Proof.
  unfold engine_end, finish_packet. intros E. apply bind_Some in E as (cur & _ & E). apply bind_Some in E as (st1 & E1 & E). injection E as <-. cbn.
  destruct (_ =? _)%nat; [|by injection E1 as <-]. apply bind_Some in E1 as (? & _ & E1). apply bind_Some in E1 as ([? w] & _ & E1). by injection E1 as <-.
Qed.

(** A call offloads at most one packet. *)
Lemma run_op_count o st st' : run_op o st = Some st' ->
  (count (ro st') <= count (ro st) + offloads [o])%nat /\ length (reqs st') = length (reqs st) /\ offloaded st `prefix_of` offloaded st'.
Proof.
  unfold count, offloads. destruct o as [| |f| |pdu large| | |r]; cbn [run_op List.filter length]; intros E.
  - unfold wire_start, reset in E. repeat (apply bind_Some in E as (? & ? & E)). injection E as <-. cbn. split_and!; [lia|done|done].
  - unfold wire_stop in E. repeat (apply bind_Some in E as (? & ? & E)). injection E as <-. cbn. split_and!; [lia|done|done].
  - apply bind_Some in E as (st1 & E1 & E). unfold set_next_packet in E1. apply bind_Some in E1 as (? & ? & E1). injection E1 as <-.
    unfold engine_begin, reset in E. apply bind_Some in E as ([c w] & ? & E). apply bind_Some in E as (? & ? & E). injection E as <-. cbn. split_and!; [lia|done|done].
  - destruct (frames st) as [|[k c] fr]; [done|]. apply engine_end_keeps in E as (-> & -> & ->). split_and!; [lia|done|done].
  - apply bind_Some in E as ([b st1] & E1 & E).
    assert ((length (rbusy (ro st1)) <= length (rbusy (ro st)) + 1)%nat /\ length (reqs st1) = length (reqs st) /\ offloaded st `prefix_of` offloaded st1) as H1.
    { unfold offload in E1. destruct (_ || _); [injection E1 as <- <-; split_and!; [lia|done|done]|].
      apply bind_Some in E1 as (c & _ & E1). apply bind_Some in E1 as (x & _ & E1). apply bind_Some in E1 as ([s w] & _ & E1).
      apply bind_Some in E1 as (f & _ & E1). apply bind_Some in E1 as (p & _ & E1). apply bind_Some in E1 as ([o rs] & Ep & E1). injection E1 as <- <-. cbn.
      unfold put in Ep. destruct (ridle (ro st)); [done|]. injection Ep as <- <-. cbn. rewrite length_app, length_alter. cbn. split_and!; [lia|done|by eexists]. }
    destruct b; [|by injection E as <-]. destruct (frames st1) as [|[k c] fr]; [done|]. by apply engine_end_keeps in E as (-> & -> & ->).
  - unfold onload, get in E. destruct (rbusy (ro st)) as [|r l] eqn:Er; [done|]. cbn in E. destruct (reqs st !! r) as [q|]; [|done]. cbn in E.
    destruct (offload_ q); [injection E as <-; rewrite Er; split_and!; [lia|done|done]|].
    repeat (apply bind_Some in E as (? & ? & E)). injection E as <-. cbn. rewrite length_insert. split_and!; [lia|done|done].
  - unfold onload_end, finish_packet in E. apply bind_Some in E as (st1 & E1 & E). injection E as <-. apply bind_Some in E1 as (? & _ & E1).
    apply bind_Some in E1 as ([? w] & _ & E1). injection E1 as <-. cbn. split_and!; [lia|done|done].
  - unfold worker in E. apply bind_Some in E as (q & _ & E). destruct (_ || _); [injection E as <-; split_and!; [lia|done|done]|].
    apply bind_Some in E as (c & _ & E). apply bind_Some in E as (x & _ & E). apply bind_Some in E as (f & _ & E). destruct (is_offloaded _ _); [|done].
    injection E as <-. cbn. rewrite length_insert. split_and!; [lia|done|done].
Qed.

Lemma offloads_app os os' : offloads (os ++ os') = (offloads os + offloads os')%nat.
Proof. unfold offloads. by rewrite List.filter_app, length_app. Qed.

(** Calls that the program makes do not fail. *)
Lemma run_calls_spec n os : (n <= 255)%nat -> forall st, Inv n st ->
  match run_calls os st with
  | Ended st' => Inv n st' /\ (count (ro st') <= count (ro st) + offloads os)%nat /\ length (reqs st') = length (reqs st) /\ offloaded st `prefix_of` offloaded st'
  | Improper => True
  | _ => False
  end.
Proof.
  intros Hn. induction os as [|o os IH]; intros st H; cbn [run_calls]; [split_and!; [done|lia|done|done]|].
  destruct (decide (allowed o st)) as [Ha|]; [|done]. destruct (ok_op n st H o Hn Ha) as (st1 & E & H1). rewrite E. cbn [ended then_].
  destruct (run_op_count o st st1 E) as (C1 & C2 & C3). specialize (IH st1 H1). destruct (run_calls os st1) as [st2| | |]; try done.
  destruct IH as (H2 & D1 & D2 & D3). split_and!; [done| |congruence|by etransitivity].
  change (o :: os) with ([o] ++ os). rewrite offloads_app. lia.
Qed.

(** One packet is onloaded and finished, with the calls made for it. *)
Lemma onload_all_spec n st os r l : (n <= 255)%nat -> Inv n st -> rbusy (ro st) = r :: l -> req_done (reqs st) r = true ->
  match onload_all os st with
  | Ended st' => Inv n st' /\ (count (ro st') <= length l + offloads os)%nat /\ length (reqs st') = length (reqs st) /\ offloaded st `prefix_of` offloaded st'
  | Improper => True
  | _ => False
  end.
Proof.
  intros Hn H E Hd. destruct (ok_onload n st H) as (st1 & Ho & H1); [by rewrite E|]. unfold onload_all. rewrite Ho. cbn [ended then_].
  destruct (inv_front n st H r) as (q & c & x & f & Hq & Hp & Hid & Hx & Hf & Hh & Hpos); [rewrite E; left|].
  unfold req_done in Hd. rewrite Hq in Hd. apply negb_true_iff in Hd.
  unfold onload, get in Ho. rewrite E in Ho. cbn in Ho. rewrite Hq in Ho. cbn in Ho. rewrite Hd in Ho. unfold get_context_at, resume in Ho. rewrite Hid, Hh in Ho. cbn in Ho.
  rewrite Hx in Ho. cbn in Ho. rewrite Hf in Ho. cbn in Ho. unfold clear_offloaded in Ho.
  assert ((pending st f =? 0) = false) as Ep by (apply Z.eqb_neq; lia). rewrite Ep in Ho. cbn in Ho. injection Ho as Est.
  assert (frames st1 = (Loading, c) :: frames st /\ count (ro st1) = length l /\ length (reqs st1) = length (reqs st) /\ offloaded st1 = offloaded st) as (F1 & F2 & F3 & F4)
    by (rewrite <- Est; cbn; by rewrite length_insert).
  rewrite F1. cbn [length]. match goal with |- context [if ?b then _ else _] => assert (b = true) as -> by (by apply Nat.leb_le) end.
  pose proof (run_calls_spec n os Hn st1 H1) as Hc. destruct (run_calls os st1) as [st2| | |]; cbn [then_]; try done. destruct Hc as (H2 & C1 & C2 & C3).
  destruct (decide _) as [F5|]; [|done]. destruct (ok_onload_end n st2 H2 c (frames st) F5) as (st3 & F & H3). rewrite F. cbn [ended].
  destruct (run_op_count Op_onload_end st2 st3 F) as (D1 & D2 & D3). cbn in D1. rewrite <- F4, <- F3, <- F2. split_and!; [done|lia|congruence|by etransitivity].
Qed.

(** Every worker takes a turn, and no others. *)
Definition fair (m : nat) (rs : list nat) : Prop := Forall (fun r => r < m)%nat rs /\ forall r, (r < m)%nat -> r ∈ rs.

(** The next packet is onloaded after such a round. *)
Lemma round_spec n st rs os r l (k : state -> outcome) : (n <= 255)%nat -> Inv n st -> rbusy (ro st) = r :: l -> fair (length (reqs st)) rs ->
  let x := then_ (ended (workers rs st)) (fun st => then_ (onload_all os st) k) in
  x = Improper \/
  exists st', x = k st' /\ Inv n st' /\ (count (ro st') <= length l + offloads os)%nat /\ length (reqs st') = length (reqs st) /\
    offloaded st `prefix_of` offloaded st'.
Proof.
  intros Hn H E [Hv Hall] x. unfold x. destruct (workers_spec n rs st H Hv) as (st1 & -> & H1 & E1 & E2 & E3 & E4 & E5 & E6). cbn [ended then_].
  assert (r < length (reqs st))%nat as Hr.
  { assert (r ∈ rbusy (ro st) ++ ridle (ro st)) as Hin by (rewrite E; left). rewrite (inv_reqs _ _ H) in Hin. apply elem_of_seq in Hin. lia. }
  pose proof (onload_all_spec n st1 os r l Hn H1) as Ho. specialize (Ho ltac:(by rewrite E1) ltac:(apply E6; [done|left; by apply Hall])).
  destruct (onload_all os st1) as [st2| | |]; cbn [then_]; try done; [|by left]. rewrite E5, E3 in Ho. right. by exists st2.
Qed.

Lemma total_offloads_cons rs os sched : total_offloads ((rs, os) :: sched) = (offloads os + total_offloads sched)%nat.
Proof. unfold total_offloads. cbn [flat_map snd]. apply offloads_app. Qed.

Lemma onload_flow_drains n f sched : (n <= 255)%nat -> forall st, Inv n st -> Forall (fun x => fair (length (reqs st)) x.1) sched ->
  (count (ro st) + total_offloads sched <= length sched)%nat ->
  match onload_flow f sched st with Ended st' => pending st' f = 0 | Improper => True | _ => False end.
Proof.
  intros Hn. induction sched as [|[rs os] sched IH]; intros st H Hs Hc; cbn [onload_flow]; destruct (inv_on_hold n st f H) as [Hh Hh']; destruct (is_offloaded f (pending st)) eqn:Eo.
  1,3: destruct (rbusy (ro st)) as [|r l] eqn:E; [pose proof (inv_held_rbusy _ _ H) as Hx; rewrite E in Hx; apply nil_length_inv in Hx;
    unfold is_offloaded in Eo; rewrite (inv_pending _ _ H), Hx in Eo; done|unfold count in Hc; rewrite E in Hc; cbn [length] in Hc].
  1: lia.
  2,3: rewrite Hh, Hh'; cbn; unfold is_offloaded in Eo; apply negb_false_iff in Eo; by apply Z.eqb_eq.
  apply Forall_cons in Hs as [Hf Hs]. rewrite total_offloads_cons in Hc. pose proof (round_spec n st rs os r l (onload_flow f sched) Hn H E Hf) as R.
  destruct R as [->|(st' & -> & H' & F1 & F2 & _)]; [done|]. apply IH; rewrite ?F2; try done; lia.
Qed.

Lemma idle_drains n sched : (n <= 255)%nat -> forall st, Inv n st -> Forall (fun x => fair (length (reqs st)) x.1) sched ->
  (count (ro st) + total_offloads sched <= length sched)%nat ->
  match engine_idle sched st with
  | Ended st' => rbusy (ro st') = [] /\ omap id (hold (sw st')) = [] /\ (forall f, pending st' f = 0) /\
      offloaded st `prefix_of` offloaded st' /\ onloaded st' = offloaded st'
  | Improper => True
  | _ => False
  end.
Proof.
  intros Hn. induction sched as [|[rs os] sched IH]; intros st H Hs Hc; cbn [engine_idle]; destruct (rbusy (ro st)) as [|r l] eqn:E; unfold count in Hc |- *; rewrite E in Hc |- *;
    cbn [length Nat.eqb]; try (cbn [length] in Hc; lia).
  1,2: unfold roffload_stop; rewrite E; cbn; (split; [done|]);
    pose proof (inv_held_rbusy _ _ H) as Hh; rewrite E in Hh; apply nil_length_inv in Hh; (split; [exact Hh|]);
    (split; [intros f; rewrite (inv_pending _ _ H), Hh; done|]); (split; [done|]); pose proof (inv_fifo _ _ H) as Hf; rewrite E in Hf; cbn in Hf; by rewrite app_nil_r in Hf.
  apply Forall_cons in Hs as [Hf Hs]. rewrite total_offloads_cons in Hc. cbn [length] in Hc. pose proof (round_spec n st rs os r l (engine_idle sched) Hn H E Hf) as R.
  destruct R as [->|(st' & -> & H' & F1 & F2 & F3)]; [done|].
  specialize (IH st' H'). rewrite F2 in IH. specialize (IH Hs ltac:(lia)). destruct (engine_idle sched st') as [st2| | |]; try done.
  destruct IH as (? & ? & ? & ? & ?). split_and!; try done. by etransitivity.
Qed.

(** C24.  The loops that wait for the workers end.  Every worker takes a turn
    between any two polls; for a packet that is onloaded, [fp_onload] and the
    inspection that follows make any calls the program can make there, offloading
    further packets included.  Then as many polls are enough as there are requests
    pending at first and packets offloaded meanwhile: for a flow, until none of
    its packets is on hold; for a thread that ends, until all packets have been
    onloaded, no context is on hold and no flow counts as offloaded; no assertion
    fails. *)
Theorem waiting_ends n threads sched st f : (6 <= n <= 255)%nat -> reachable n threads st ->
  Forall (fun x => fair (length (reqs st)) x.1) sched -> (count (ro st) + total_offloads sched <= length sched)%nat ->
  match onload_flow f sched st with
  | Ended st' => is_offloaded f (pending st') = false
  | Improper => True
  | Waiting _ | Failed => False
  end /\
  match engine_idle sched st with
  | Ended st' => count (ro st') = 0%nat /\ hold_count (sw st') = 0%nat /\ (forall f, pending st' f = 0) /\
      offloaded st `prefix_of` offloaded st' /\ onloaded st' = offloaded st'
  | Improper => True
  | Waiting _ | Failed => False
  end.
Proof.
  intros Hn Hr Hs Hc. pose proof (reachable_inv _ _ _ Hn Hr) as H. split.
  - pose proof (onload_flow_drains n f sched ltac:(lia) st H Hs Hc) as E. destruct (onload_flow f sched st); try done. unfold is_offloaded. by rewrite E.
  - pose proof (idle_drains n sched ltac:(lia) st H Hs Hc) as E. destruct (engine_idle sched st); try done.
    destruct E as (E1 & E2 & E3). unfold count, hold_count. by rewrite E1, E2.
Qed.

(** The destructor of the context switcher finds every context. *)
Lemma abort_frees_all n threads st : (6 <= n <= 255)%nat -> reachable n threads st -> idle (abort (sw st)) ≡ₚ seq 0 n.
Proof.
  intros Hn Hr. rewrite <- (inv_parts _ _ (reachable_inv _ _ _ Hn Hr)). cbn. rewrite <- !Permutation_rev. change (omap id (hold (sw st))) with (held st).
  rewrite (Permutation_app_comm (idle (sw st))), <- app_assoc. done.
Qed.

(** ** Instances *)

Lemma run_calls_reachable n threads os : forall st st', reachable n threads st -> run_calls os st = Ended st' -> reachable n threads st'.
Proof.
  induction os as [|o os IH]; intros st st' Hr E; cbn [run_calls] in E; [by injection E as <-|].
  destruct (decide (allowed o st)) as [Ha|]; [|done]. destruct (run_op o st) as [st1|] eqn:E1; [|done]. apply (IH st1 st'); [by eapply reach_step|exact E].
Qed.

(** Two packets of flow 7 are offloaded and one is onloaded during the work on a
    third. *)
Definition sample_ops : list op :=
  [Op_start; Op_begin (Some 7); Op_offload true true; Op_begin (Some 7); Op_offload true true; Op_begin None; Op_work 1; Op_work 0; Op_onload; Op_onload_end].
Definition sample : state := match run_calls sample_ops (thread_init 20 2) with Ended st => st | _ => thread_init 20 2 end.
Lemma sample_reachable : reachable 20 2 sample.
Proof. apply (run_calls_reachable 20 2 sample_ops (thread_init 20 2)); [constructor|vm_compute; reflexivity]. Qed.

Lemma sample_requests : length (reqs sample) = 2%nat.
Proof. vm_compute. reflexivity. Qed.
Lemma sample_pending : count (ro sample) = 1%nat /\ offloaded sample = [2; 3].
Proof. vm_compute. done. Qed.

Lemma offload_never_fails_witness : exists st', run_op Op_onload sample = Some st'.
Proof. apply (offload_never_fails 20 2); [lia|exact sample_reachable|vm_compute; discriminate]. Defined.

Lemma offloaded_once_in_order_witness : offloaded sample = [2; 3] /\ onloaded sample = [2] /\
  (forall f, is_offloaded f (pending sample) = on_hold f (sw sample) (ctxs sample)).
Proof.
  split; [vm_compute; reflexivity|]. split; [vm_compute; reflexivity|].
  apply (offloaded_once_in_order 20 2); [lia|exact sample_reachable].
Defined.

(** The packet that is onloaded first has another one offloaded. *)
Definition sample_sched : list (list nat * list op) :=
  [([0; 1]%nat, [Op_begin (Some 7); Op_offload true true]); ([1; 0]%nat, [])].
Lemma waiting_ends_witness : exists st', engine_idle sample_sched sample = Ended st' /\ onloaded st' = [2; 3; 5].
Proof.
  destruct (waiting_ends 20 2 sample_sched sample 7) as (_ & H); [lia|exact sample_reachable| | |].
  - rewrite sample_requests. repeat (apply Forall_cons; split); [..|constructor];
      (split; [repeat constructor|intros r Hr; assert (r = 0%nat \/ r = 1%nat) as [-> | ->] by lia; set_solver]).
  - rewrite (proj1 sample_pending). cbn. lia.
  - destruct (engine_idle sample_sched sample) as [st'|st'| |] eqn:E; [|destruct H|exfalso; vm_compute in E; discriminate|destruct H].
    exists st'. split; [reflexivity|]. destruct H as (_ & _ & _ & _ & ->). vm_compute in E. injection E as <-. reflexivity.
Defined.

(** Five is all that [can_hold] leaves room for: with a sixth packet in work the
    end of a packet can find no next context. *)
Definition crowd : list op :=
  Op_start :: (seq 0 13 ≫= fun _ => [Op_begin (Some 7); Op_offload true true]) ++ [Op_stop; Op_work 0; Op_onload; Op_begin (Some 7); Op_offload true true] ++
  replicate 5 (Op_begin None).
Theorem sixth_packet_fails : exists st st', run_calls crowd (thread_init 20 13) = Ended st /\ run_op (Op_begin None) st = Some st' /\ run_op Op_end st' = None.
Proof.
  destruct (run_calls crowd (thread_init 20 13)) as [st|st| |] eqn:E; [|vm_compute in E; discriminate..]. exists st.
  destruct (run_op (Op_begin None) st) as [st'|] eqn:E1; [exists st'; split; [done|split; [done|]]|]; vm_compute in E; injection E as <-; vm_compute in E1; [|discriminate].
  injection E1 as <-. vm_compute. reflexivity.
Qed.
