(* ===== verification/GHash.v ===== *)
(** * GHash: the generic hash table (hash/ghash.cc, hash/ghash.h)

    A row is the list of its nodes, head first; rows that are empty are not in
    [table].  New nodes are linked at the head, so a node is named by its row
    and the number of nodes behind it.  The hash and comparison functions are
    arguments of every operation, as the keys can be pointers to objects that
    change.  Keys are the bytes that are copied (or the pointers that are
    stored, with user keys); memory is always available. *)

From S2P Require Import Prelude PrimeTable.

Inductive gresult := GHASH_OK | GHASH_ERR | GHASH_INTABLE.

#[export] Instance gresult_eq_dec : EqDecision gresult.
Proof. solve_decision. Defined.

(** A pointer to a node: null, the node of row [r] with [h] nodes behind it, or
    one that was freed. *)
Inductive node_ptr := Null | Node (r : Z) (h : nat) | Freed.

#[export] Instance node_ptr_eq_dec : EqDecision node_ptr.
Proof. solve_decision. Defined.

Record GHash (K D : Type) := MkGHash {
  nrows : Z;
  table : gmap Z (list (K * D));
  count : Z;
  userfree : bool;
  crow : Z;
  cnode : node_ptr }.
Arguments MkGHash {K D}.
Arguments nrows {K D}.
Arguments table {K D}.
Arguments count {K D}.
Arguments userfree {K D}.
Arguments crow {K D}.
Arguments cnode {K D}.

Section GHash.
Context {K D : Type}.
Implicit Types (t : GHash K D) (k : K) (d : D) (l : list (K * D)).

Definition ghash_new (rows : Z) (uf : bool) : GHash K D :=
  MkGHash (if rows >? 0 then nearest_prime rows else - rows) ∅ 0 uf 0 Null.

Definition row t (i : Z) : list (K * D) := default [] (table t !! i).

Definition set_cursor t (r : Z) (n : node_ptr) : GHash K D :=
  MkGHash (nrows t) (table t) (count t) (userfree t) r n.
Definition set_row t (i : Z) l (c : Z) (n : node_ptr) : GHash K D :=
  MkGHash (nrows t) (<[i := l]> (table t)) c (userfree t) (crow t) n.

(** ** Enumeration *)

(** The first node of the first row from [r] on that has one. *)
Fixpoint next_row (fuel : nat) t (r : Z) : Z * node_ptr :=
  match fuel with
  | O => (r, Null)
  | S fuel =>
      if r <? nrows t then
        match row t r with
        | [] => next_row fuel t (r + 1)
        | _ :: l => (r, Node r (length l))
        end
      else (r, Null)
  end.
Definition rows_from t (r : Z) : Z * node_ptr := next_row (S (Z.to_nat (nrows t - r))) t r.

(** The node a pointer points to, if it is one. *)
Definition deref t (n : node_ptr) : option (K * D) :=
  match n with
  | Node r h => row t r !! (length (row t r) - 1 - h)%nat
  | _ => None
  end.

(** [None]: the current node is null or was freed. *)
Definition ghash_next t : option (GHash K D) :=
  match cnode t with
  | Node r (S h) => Some (set_cursor t (crow t) (Node r h))
  | Node r O => let '(r, n) := rows_from t (crow t + 1) in Some (set_cursor t r n)
  | _ => None
  end.

Definition ghash_findfirst t : option (option (K * D) * GHash K D) :=
  let '(r, n) := rows_from t 0 in
  let t := set_cursor t r n in
  match n with
  | Null => Some (None, t)
  | _ => t' ← ghash_next t; Some (deref t n, t')
  end.

Definition ghash_findnext t : option (option (K * D) * GHash K D) :=
  match cnode t with
  | Null => Some (None, t)
  | n => t' ← ghash_next t; Some (deref t n, t')
  end.

(** The loop over all nodes: what [findfirst] and then [findnext] return. *)
Fixpoint iterate (fuel : nat) (r : option (option (K * D) * GHash K D)) : option (list (K * D) * GHash K D) :=
  '(n, t) ← r;
  match n, fuel with
  | None, _ => Some ([], t)
  | Some _, O => None
  | Some x, S fuel => '(l, t) ← iterate fuel (ghash_findnext t); Some (x :: l, t)
  end.
Definition ghash_iterate t : option (list (K * D) * GHash K D) :=
  iterate (Z.to_nat (count t)) (ghash_findfirst t).

(** ** Access by key *)

Section Keys.
Variable hash_fcn : K -> Z.
(** The comparison function returns 0 for the key of a node and the given key. *)
Variable keycmp : K -> K -> bool.

(** The first node with the key: the nodes behind it and its data. *)
Fixpoint find_node l k : option (nat * D) :=
  match l with
  | [] => None
  | (k', d) :: l => if keycmp k' k then Some (length l, d) else find_node l k
  end.

Definition index t k : Z := hash_fcn k mod nrows t.

Definition ghash_add t k d : gresult * GHash K D :=
  let i := index t k in
  match find_node (row t i) k with
  | Some (h, _) => (GHASH_INTABLE, set_cursor t (crow t) (Node i h))
  | None => (GHASH_OK, set_row t i ((k, d) :: row t i) (u32 (count t + 1)) (cnode t))
  end.

Definition ghash_find_node t k : option (nat * D) := find_node (row t (index t k)) k.
Definition ghash_find t k : option D := snd <$> ghash_find_node t k.

(** What becomes of a pointer when the node [h] of row [i] is freed. *)
Definition after_free (n : node_ptr) (i : Z) (h : nat) : node_ptr :=
  match n with
  | Node r h' =>
      if bool_decide (r = i) then
        if bool_decide (h' = h) then Freed
        else if (h <? h')%nat then Node r (h' - 1) else n
      else n
  | _ => n
  end.

(** The row without the node that has [h] nodes behind it. *)
Definition unlink l (h : nat) : list (K * D) := delete (length l - 1 - h)%nat l.

(** With the data passed to [userfree]. *)
Definition ghash_free_node t (i : Z) (h : nat) d : gresult * GHash K D * list D :=
  (GHASH_OK, set_row t i (unlink (row t i) h) (u32 (count t - 1)) (after_free (cnode t) i h),
   if userfree t then [d] else []).

Definition ghash_remove t k : gresult * GHash K D * list D :=
  match ghash_find_node t k with
  | Some (h, d) => ghash_free_node t (index t k) h d
  | None => (GHASH_ERR, t, [])
  end.

End Keys.

(** The data passed to [userfree] by [ghash_delete], row by row. *)
Definition ghash_delete t : list D :=
  if userfree t then concat (map (fun i => (row t i).*2) (seqZ 0 (nrows t))) else [].

(** ** All nodes *)

(** The nodes of the rows from [r] on. *)
Definition nodes_from t (r : Z) : list (K * D) := concat (map (row t) (seqZ r (nrows t - r))).
Definition elements t : list (K * D) := nodes_from t 0.

Lemma nodes_from_cons t r : r < nrows t -> nodes_from t r = row t r ++ nodes_from t (r + 1).
Proof.
  intros H. unfold nodes_from. rewrite seqZ_cons by lia. simpl. unfold Z.succ.
  by replace (Z.pred (nrows t - r)) with (nrows t - (r + 1)) by lia.
Qed.
Lemma nodes_from_end t r : nrows t <= r -> nodes_from t r = [].
Proof. intros H. unfold nodes_from. by rewrite seqZ_nil by lia. Qed.

(** The nodes an enumeration has still to return. *)
Definition pending t : list (K * D) :=
  match cnode t with
  | Node r h => drop (length (row t r) - 1 - h) (row t r) ++ nodes_from t (crow t + 1)
  | _ => []
  end.
Definition enumerating t : Prop :=
  match cnode t with
  | Node r h => r = crow t /\ 0 <= r < nrows t /\ (h < length (row t r))%nat
  | Null => True
  | Freed => False
  end.

Lemma gnext_row_spec fuel t : forall r, 0 <= r -> (Z.to_nat (nrows t - r) < fuel)%nat ->
  let '(r', n) := next_row fuel t r in
  pending (set_cursor t r' n) = nodes_from t r /\ enumerating (set_cursor t r' n) /\ n <> Freed.
Proof.
  induction fuel as [|fuel IH]; intros r Hr Hf; [lia|]. cbn [next_row]. bcase (r <? nrows t) as E.
  - destruct (row t r) as [|x l] eqn:El.
    + specialize (IH (r + 1) ltac:(lia) ltac:(lia)). rewrite (nodes_from_cons t r E), El. apply IH.
    + rewrite (nodes_from_cons t r E), El. split_and!; [|split_and!|]; try done; cbn.
      * unfold pending. cbn. change (row (set_cursor t r (Node r (length l))) r) with (row t r).
        rewrite El. cbn [length]. by replace (S (length l) - 1 - length l)%nat with 0%nat by lia.
      * change (row (set_cursor t r (Node r (length l))) r) with (row t r). rewrite El. cbn. lia.
  - rewrite nodes_from_end by lia. done.
Qed.

Lemma rows_from_spec t r : 0 <= r ->
  let '(r', n) := rows_from t r in
  pending (set_cursor t r' n) = nodes_from t r /\ enumerating (set_cursor t r' n) /\ n <> Freed.
Proof. intros H. apply gnext_row_spec; [done|lia]. Qed.

(** One step returns the first pending node and leaves the others. *)
Lemma ghash_next_spec t n : enumerating t -> n = cnode t -> n <> Null ->
  exists x t', deref t n = Some x /\ ghash_next t = Some t' /\ pending t = x :: pending t' /\
    enumerating t' /\ table t' = table t /\ nrows t' = nrows t /\ count t' = count t.
Proof.
  unfold enumerating, pending, ghash_next, deref. intros H -> Hn. destruct (cnode t) as [|r h|]; try done.
  destruct H as (-> & Hr & Hh).
  destruct (lookup_lt_is_Some_2 (row t (crow t)) (length (row t (crow t)) - 1 - h)) as [x Ex]; [lia|].
  exists x. rewrite (drop_S _ _ _ Ex). destruct h as [|h].
  - pose proof (rows_from_spec t (crow t + 1) ltac:(lia)) as Hs.
    destruct (rows_from t (crow t + 1)) as [r' n]. destruct Hs as (Hp & He & _). eexists. split; [done|].
    split; [done|]. rewrite drop_ge by lia. unfold pending, enumerating in *. cbn in *. rewrite Hp. done.
  - eexists. split; [done|]. split; [done|]. cbn.
    change (row (set_cursor t (crow t) (Node (crow t) h)) (crow t)) with (row t (crow t)).
    split; [|split_and!; [done|lia|lia|lia|done|done|done]]. simpl. do 2 f_equal. f_equal. lia.
Qed.

Lemma iterate_spec fuel : forall t, enumerating t -> (length (pending t) <= fuel)%nat ->
  exists t', iterate fuel (ghash_findnext t) = Some (pending t, t') /\ table t' = table t /\
    nrows t' = nrows t /\ count t' = count t.
Proof.
  induction fuel as [|fuel IH]; intros t He Hf; unfold ghash_findnext.
  - destruct (decide (cnode t = Null)) as [E|E].
    { exists t. cbn. unfold pending. by rewrite E. }
    destruct (ghash_next_spec t _ He eq_refl E) as (x & t' & _ & _ & Hp & _). rewrite Hp in Hf. cbn in Hf. lia.
  - destruct (decide (cnode t = Null)) as [E|E].
    { exists t. cbn. unfold pending. by rewrite E. }
    destruct (ghash_next_spec t _ He eq_refl E) as (x & t' & Hx & Hn & Hp & He' & Ht & Hr & Hc).
    destruct (IH t' He') as (t'' & Hi & Ht' & Hr' & Hc'); [rewrite Hp in Hf; cbn in Hf; lia|].
    exists t''. rewrite Hn. destruct (cnode t) as [|r h|] eqn:E'; [done| |by unfold enumerating in He; rewrite E' in He].
    rewrite Hx. cbn. rewrite Hi, Hp. cbn. by rewrite Ht', Hr', Hc'.
Qed.

(** Enumeration returns every node once, row by row. *)
Lemma ghash_iterate_spec t : count t = Zlen (elements t) ->
  exists t', ghash_iterate t = Some (elements t, t') /\ table t' = table t /\ nrows t' = nrows t /\ count t' = count t.
Proof.
  intros Hc. unfold ghash_iterate, ghash_findfirst. pose proof (rows_from_spec t 0 ltac:(lia)) as Hs.
  destruct (rows_from t 0) as [r n]. destruct Hs as (Hp & He & Hn).
  destruct (decide (n = Null)) as [->|E].
  - eexists. unfold elements. rewrite <- Hp. by destruct (Z.to_nat (count t)).
  - assert (Z.to_nat (count t) = length (pending (set_cursor t r n))) as Hl.
    { rewrite Hp, Hc. unfold Zlen, elements. lia. }
    destruct (iterate_spec (Z.to_nat (count t)) _ He ltac:(lia)) as (t' & Hi & Ht & Hr & Hc').
    exists t'. unfold ghash_findnext in Hi. cbn [cnode set_cursor] in Hi.
    unfold elements. rewrite <- Hp. destruct n; try done.
Qed.

(** The nodes of one row among all. *)
Lemma elements_row t i l c n : 0 <= i < nrows t -> exists pre post,
  elements t = pre ++ row t i ++ post /\ elements (set_row t i l c n) = pre ++ l ++ post.
Proof.
  intros Hi. exists (concat (map (row t) (seqZ 0 i))), (nodes_from t (i + 1)).
  assert (forall u, nrows u = nrows t -> elements u = concat (map (row u) (seqZ 0 i)) ++ row u i ++ nodes_from u (i + 1)) as H.
  { intros u Hu. rewrite <- nodes_from_cons by lia. unfold elements, nodes_from. rewrite <- concat_app, <- map_app.
    do 2 f_equal. rewrite Hu. replace (nrows t - 0) with (i + (nrows t - i)) by lia. rewrite seqZ_app by lia. done. }
  assert (forall j, j <> i -> row (set_row t i l c n) j = row t j) as Hj.
  { intros j Hj. unfold row. cbn. by rewrite lookup_insert_ne. }
  split; [by apply H|]. rewrite (H (set_row t i l c n)) by done. f_equal; [|f_equal].
  - f_equal. apply map_ext_in. intros j Hin%list_elem_of_In%elem_of_seqZ. apply Hj. lia.
  - unfold row. cbn. by rewrite lookup_insert_eq.
  - unfold nodes_from. f_equal. apply map_ext_in. intros j Hin%list_elem_of_In%elem_of_seqZ. apply Hj. lia.
Qed.

Lemma row_elements t i x : 0 <= i < nrows t -> x ∈ row t i -> x ∈ elements t.
Proof. intros Hi Hx. destruct (elements_row t i [] 0 Null Hi) as (pre & post & -> & _). set_solver. Qed.

(** No operation changes whether data are freed. *)
Lemma ghash_next_userfree t : from_option userfree (userfree t) (ghash_next t) = userfree t.
Proof. unfold ghash_next. destruct (cnode t) as [|r [|h]|]; simpl; try done. by destruct (rows_from _ _). Qed.
Lemma iterate_userfree fuel uf : forall r, from_option (fun x => userfree x.2) uf r = uf ->
  from_option (fun x => userfree x.2) uf (iterate fuel r) = uf.
Proof.
  assert (forall t : GHash K D, from_option (fun x => userfree x.2) (userfree t) (ghash_findnext t) = userfree t) as Hn.
  { intros t. unfold ghash_findnext. pose proof (ghash_next_userfree t) as H.
    destruct (cnode t); simpl; try done; by destruct (ghash_next t). }
  induction fuel as [|fuel IH]; intros [[[x|] t]|]; simpl; try done. intros <-.
  specialize (IH _ (Hn t)). destruct (iterate fuel (ghash_findnext t)) as [[l t']|]; done.
Qed.
Lemma ghash_iterate_userfree t : from_option (fun x => userfree x.2) (userfree t) (ghash_iterate t) = userfree t.
Proof.
  apply iterate_userfree. unfold ghash_findfirst. destruct (rows_from t 0) as [r n].
  pose proof (ghash_next_userfree (set_cursor t r n)) as H.
  destruct n; simpl; try done; by destruct (ghash_next _).
Qed.
Lemma ghash_add_userfree hash_fcn keycmp t k d : userfree (ghash_add hash_fcn keycmp t k d).2 = userfree t.
Proof. unfold ghash_add. by destruct (find_node _ _ _) as [[h ?]|]. Qed.
Lemma ghash_remove_userfree hash_fcn keycmp t k : userfree (ghash_remove hash_fcn keycmp t k).1.2 = userfree t.
Proof. unfold ghash_remove. by destruct (ghash_find_node _ _ _ _) as [[h ?]|]. Qed.

Section Access.
Variable hash_fcn : K -> Z.
Variable keycmp : K -> K -> bool.

Lemma find_node_spec l k h d : find_node keycmp l k = Some (h, d) ->
  exists pre k' post, l = pre ++ (k', d) :: post /\ keycmp k' k = true /\ h = length post /\
    Forall (fun x => keycmp x.1 k = false) pre.
Proof.
  induction l as [|[k' d'] l IH]; simpl; [done|]. destruct (keycmp k' k) eqn:E.
  - intros [= <- <-]. by exists [], k', l.
  - intros (pre & k'' & post & -> & ? & ? & ?)%IH. exists ((k', d') :: pre), k'', post. auto.
Qed.
Lemma find_node_None l k : find_node keycmp l k = None <-> Forall (fun x => keycmp x.1 k = false) l.
Proof.
  induction l as [|[k' d'] l IH]; simpl; [done|]. rewrite Forall_cons, <- IH. simpl.
  destruct (keycmp k' k); naive_solver.
Qed.

Lemma index_in_range t k : 0 < nrows t -> 0 <= index hash_fcn t k < nrows t.
Proof. intros H. unfold index. by apply Z.mod_pos_bound. Qed.

Lemma ghash_find_elements t k d : 0 < nrows t -> ghash_find hash_fcn keycmp t k = Some d ->
  exists k', (k', d) ∈ elements t /\ keycmp k' k = true.
Proof.
  intros Hr. unfold ghash_find, ghash_find_node. intros ([h d'] & (pre & k' & post & El & Hk & _)%find_node_spec & ->)%fmap_Some.
  exists k'. split; [|done]. eapply row_elements; [by apply index_in_range|]. rewrite El. set_solver.
Qed.

Lemma ghash_add_spec t k d : 0 < nrows t ->
  match ghash_add hash_fcn keycmp t k d with
  | (GHASH_OK, t') =>
      ghash_find hash_fcn keycmp t k = None /\ elements t' ≡ₚ (k, d) :: elements t /\ nrows t' = nrows t /\
      count t' = u32 (count t + 1) /\
      table t' = <[index hash_fcn t k := (k, d) :: row t (index hash_fcn t k)]> (table t)
  | (GHASH_INTABLE, t') =>
      is_Some (ghash_find hash_fcn keycmp t k) /\ table t' = table t /\ nrows t' = nrows t /\ count t' = count t
  | _ => False
  end.
Proof.
  intros Hr. unfold ghash_add, ghash_find, ghash_find_node.
  destruct (find_node keycmp (row t (index hash_fcn t k)) k) as [[h d']|] eqn:E; [done|].
  split; [done|]. split; [|done].
  destruct (elements_row t (index hash_fcn t k) ((k, d) :: row t (index hash_fcn t k)) (u32 (count t + 1)) (cnode t))
    as (pre & post & -> & ->); [by apply index_in_range|]. symmetry. apply Permutation_middle.
Qed.

(** ** Keys compared by equality: a finite map *)

Context `{Countable K}.
Hypothesis keycmp_eq : forall k1 k2, keycmp k1 k2 = bool_decide (k1 = k2).

(** Every node is in the row of its key; the nodes are the entries of [m]. *)
Record refines t (m : gmap K D) : Prop := {
  ref_rows : 0 < nrows t;
  ref_placed : forall i k d, (k, d) ∈ row t i -> i = index hash_fcn t k;
  ref_elements : elements t ≡ₚ map_to_list m;
  ref_count : count t = Z.of_nat (size m) }.

Lemma grefines_new rows uf : rows <> 0 -> refines (ghash_new rows uf) ∅.
Proof.
  intros Hr. assert (forall i, row (ghash_new rows uf : GHash K D) i = []) as Hrow by done.
  split; [..|by rewrite map_size_empty].
  - cbn. bcases; [apply nearest_prime_pos|lia].
  - intros i k d. rewrite Hrow. by intros ?%elem_of_nil.
  - rewrite map_to_list_empty. unfold elements, nodes_from. induction (seqZ _ _) as [|i l IH]; [done|]. simpl. by rewrite Hrow.
Qed.

Lemma grefines_find t m k : refines t m -> ghash_find hash_fcn keycmp t k = m !! k.
Proof.
  intros [Hr Hp He _]. apply option_eq. intros d. split.
  - intros (k' & Hin & Hk)%ghash_find_elements; [|done]. rewrite keycmp_eq in Hk. apply bool_decide_eq_true in Hk as ->.
    rewrite He in Hin. by apply elem_of_map_to_list.
  - intros Hm. assert ((k, d) ∈ row t (index hash_fcn t k)) as Hin.
    { assert ((k, d) ∈ elements t) as Hin by (rewrite He; by apply elem_of_map_to_list).
      unfold elements, nodes_from in Hin. apply list_elem_of_In, in_concat in Hin as (l & Hl & Hin).
      apply in_map_iff in Hl as (i & <- & _). apply list_elem_of_In in Hin. by rewrite <- (Hp _ _ _ Hin). }
    unfold ghash_find, ghash_find_node. destruct (find_node _ _ _) as [[h d']|] eqn:E; simpl.
    + apply find_node_spec in E as (pre & k' & post & El & Hk & _). rewrite keycmp_eq in Hk.
      apply bool_decide_eq_true in Hk as ->. f_equal.
      assert ((k, d') ∈ elements t) as Hd' by (eapply row_elements; [by apply index_in_range|]; rewrite El; set_solver).
      rewrite He in Hd'. apply elem_of_map_to_list in Hd'. congruence.
    + apply find_node_None in E. rewrite Forall_forall in E. specialize (E _ Hin). simpl in E.
      rewrite keycmp_eq in E. by apply bool_decide_eq_false in E.
Qed.

Lemma grefines_cursor t m r n : refines t m -> refines (set_cursor t r n) m.
Proof. by intros [? ? ? ?]. Qed.

Lemma grefines_add t m k d : refines t m -> Z.of_nat (size m) + 1 < 4294967296 ->
  let '(r, t') := ghash_add hash_fcn keycmp t k d in
  match m !! k with
  | None => r = GHASH_OK /\ refines t' (<[k := d]> m)
  | Some _ => r = GHASH_INTABLE /\ refines t' m
  end.
Proof.
  intros Ht Hs. pose proof Ht as [Hr Hp He Hc]. pose proof (ghash_add_spec t k d Hr) as Ha.
  destruct (ghash_add hash_fcn keycmp t k d) as [[] t'] eqn:Et; [|done|].
  - destruct Ha as (Hf & He' & Hr' & Hc' & Ht'). rewrite (grefines_find _ _ _ Ht) in Hf. rewrite Hf.
    split; [done|]. split; [lia|..].
    + intros i k' d'. unfold row. rewrite Ht'. unfold index in *. rewrite Hr'.
      destruct (decide (i = hash_fcn k mod nrows t)) as [->|Hi].
      * rewrite lookup_insert_eq. simpl. intros [[= -> ->]|Hin]%elem_of_cons; [done|by apply (Hp _ _ d')].
      * rewrite lookup_insert_ne by done. apply Hp.
    + by rewrite He', He, map_to_list_insert.
    + rewrite Hc', Hc, map_size_insert_None by done. rewrite u32_small; unfold is_u32; lia.
  - destruct Ha as ([d' Hf] & Ht' & Hr' & Hc'). rewrite (grefines_find _ _ _ Ht) in Hf. rewrite Hf.
    split; [done|]. unfold ghash_add in Et. destruct (find_node _ _ _) as [[h d'']|]; simplify_eq. by apply grefines_cursor.
Qed.

Lemma unlink_spec pre x post : unlink (pre ++ x :: post) (length post) = pre ++ post.
Proof.
  unfold unlink. rewrite length_app. simpl.
  replace (length pre + S (length post) - 1 - length post)%nat with (length pre) by lia.
  by rewrite delete_middle.
Qed.

Lemma grefines_remove t m k : refines t m -> Z.of_nat (size m) < 4294967296 ->
  let '(r, t', fr) := ghash_remove hash_fcn keycmp t k in
  match m !! k with
  | None => r = GHASH_ERR /\ t' = t /\ fr = []
  | Some d => r = GHASH_OK /\ refines t' (delete k m) /\ fr = if userfree t then [d] else []
  end.
Proof.
  intros Ht Hs. pose proof Ht as [Hr Hp He Hc]. pose proof (grefines_find t m k Ht) as Hf.
  unfold ghash_remove. unfold ghash_find in Hf. destruct (ghash_find_node _ _ _ _) as [[h d]|] eqn:En; simpl in Hf; rewrite <- Hf; [|done].
  split; [done|]. split; [|done]. set (i := index hash_fcn t k).
  apply find_node_spec in En as (pre & k' & post & El & Hk & -> & _). fold i in El.
  rewrite keycmp_eq in Hk. apply bool_decide_eq_true in Hk as ->.
  rewrite El, unlink_spec.
  destruct (elements_row t i (pre ++ post) (u32 (count t - 1)) (after_free (cnode t) i (length post))) as (a & b & Ea & Eb);
    [by apply index_in_range|].
  split; [done|..].
  - intros j k' d'. unfold row. cbn. destruct (decide (j = i)) as [->|Hj].
    + rewrite lookup_insert_eq. simpl. intros Hin. apply (Hp _ _ d'). rewrite El. set_solver.
    + rewrite lookup_insert_ne by done. apply Hp.
  - rewrite Eb. apply (Permutation_cons_inv (a := (k, d))). rewrite map_to_list_delete by done.
    rewrite <- He, Ea, El. rewrite <- (app_assoc pre), <- !Permutation_middle. cbn. by rewrite <- Permutation_middle, <- app_assoc.
  - rewrite map_size_delete_Some by done. cbn. rewrite Hc.
    assert (size m <> 0)%nat by (intros ?%map_size_empty_inv; simplify_map_eq). rewrite u32_small; unfold is_u32; lia.
Qed.

(** Sequences of calls; [GEach] is a loop over all nodes. *)
Inductive gcall := GAdd (k : K) (d : D) | GFind (k : K) | GRemove (k : K) | GEach.
Inductive ganswer := Status (r : gresult) | Data (o : option D) | Removed (r : gresult) (fr : list D) | Nodes (l : list (K * D)).

Definition gexec t (c : gcall) : option (ganswer * GHash K D) :=
  match c with
  | GAdd k d => let '(r, t) := ghash_add hash_fcn keycmp t k d in Some (Status r, t)
  | GFind k => Some (Data (ghash_find hash_fcn keycmp t k), t)
  | GRemove k => let '(r, t, fr) := ghash_remove hash_fcn keycmp t k in Some (Removed r fr, t)
  | GEach => '(l, t) ← ghash_iterate t; Some (Nodes l, t)
  end.
Fixpoint gexec_all t (l : list gcall) : option (list ganswer * GHash K D) :=
  match l with
  | [] => Some ([], t)
  | c :: l => '(a, t) ← gexec t c; '(r, t) ← gexec_all t l; Some (a :: r, t)
  end.

(** What a finite map answers; the order of [GEach] is open. *)
Definition map_step (uf : bool) (m : gmap K D) (c : gcall) : gmap K D * (ganswer -> Prop) :=
  match c with
  | GAdd k d => match m !! k with
                | None => (<[k := d]> m, fun a => a = Status GHASH_OK)
                | Some _ => (m, fun a => a = Status GHASH_INTABLE)
                end
  | GFind k => (m, fun a => a = Data (m !! k))
  | GRemove k => match m !! k with
                 | None => (m, fun a => a = Removed GHASH_ERR [])
                 | Some d => (delete k m, fun a => a = Removed GHASH_OK (if uf then [d] else []))
                 end
  | GEach => (m, fun a => exists l, a = Nodes l /\ l ≡ₚ map_to_list m)
  end.
Fixpoint map_answers (uf : bool) (m : gmap K D) (l : list gcall) (r : list ganswer) : Prop :=
  match l, r with
  | [], [] => True
  | c :: l, a :: r => (map_step uf m c).2 a /\ map_answers uf (map_step uf m c).1 l r
  | _, _ => False
  end.

Lemma gexec_refines t m c : refines t m -> Z.of_nat (size m) + 1 < 4294967296 ->
  exists a t', gexec t c = Some (a, t') /\ (map_step (userfree t) m c).2 a /\
    refines t' (map_step (userfree t) m c).1 /\ userfree t' = userfree t /\
    (size (map_step (userfree t) m c).1 <= S (size m))%nat.
Proof.
  intros Ht Hs. destruct c as [k d|k|k|]; simpl.
  - pose proof (grefines_add t m k d Ht Hs) as Ha. pose proof (ghash_add_userfree hash_fcn keycmp t k d) as Hu.
    destruct (ghash_add _ _ _ _ _) as [r t']. destruct (m !! k) eqn:E; destruct Ha as [-> Ha]; do 2 eexists; split_and!; try done.
    + simpl. lia.
    + simpl. rewrite map_size_insert_None by done. lia.
  - do 2 eexists. split_and!; try done; [by rewrite (grefines_find t m k Ht)|lia].
  - pose proof (grefines_remove t m k Ht ltac:(lia)) as Ha. pose proof (ghash_remove_userfree hash_fcn keycmp t k) as Hu.
    destruct (ghash_remove _ _ _ _) as [[r t'] fr].
    destruct (m !! k) eqn:E; [destruct Ha as (-> & Ha & ->)|destruct Ha as (-> & -> & ->)]; do 2 eexists; split_and!; try done; simpl.
    + rewrite map_size_delete_Some by done. lia.
    + lia.
  - destruct Ht as [Hr Hp He Hc]. destruct (ghash_iterate_spec t) as (t' & Hi & Htb & Hnr & Hct).
    { rewrite Hc. unfold Zlen. by rewrite He, length_map_to_list. }
    rewrite Hi. simpl. pose proof (ghash_iterate_userfree t) as Hu. rewrite Hi in Hu. do 2 eexists.
    split_and!; [done| |split| |]; try done; [eauto|lia| | | |lia].
    + intros i k d. unfold row, index. rewrite Htb, Hnr. apply Hp.
    + unfold elements, nodes_from, row. rewrite Htb, Hnr. apply He.
    + congruence.
Qed.

End Access.

End GHash.

(** C38.  Over any sequence of fewer than 2^32 calls on a new table, with any
    hash function and keys compared by equality, every call answers as a finite
    map does: additions of a key that is there are refused, removals free its
    data, and a loop with findfirst and findnext visits every entry once. *)
Theorem ghash_refines_map {K D} `{Countable K} (hash_fcn : K -> Z) (keycmp : K -> K -> bool) rows uf (l : list (gcall (K:=K) (D:=D))) :
  (forall k1 k2, keycmp k1 k2 = bool_decide (k1 = k2)) -> rows <> 0 -> Zlen l < 4294967296 ->
  exists r t, gexec_all hash_fcn keycmp (ghash_new rows uf) l = Some (r, t) /\ map_answers uf ∅ l r.
Proof.
  intros Hk Hr Hl.
  enough (forall (t : GHash K D) m, refines hash_fcn t m -> userfree t = uf -> Z.of_nat (size m) + Zlen l < 4294967296 ->
    exists r t', gexec_all hash_fcn keycmp t l = Some (r, t') /\ map_answers uf m l r) as Hgen.
  { apply Hgen; [by apply grefines_new|done|]. rewrite map_size_empty. lia. }
  clear Hl. induction l as [|c l IH]; intros t m Ht Hu Hs; [by exists [], t|]. rewrite Zlen_cons in Hs.
  pose proof (Zlen_nonneg l). destruct (gexec_refines hash_fcn keycmp Hk t m c Ht) as (a & t' & He & Ha & Ht' & Hu' & Hs'); [lia|].
  rewrite Hu in *. destruct (IH t' _ Ht') as (r & t'' & Hr' & Hm); [done|lia|].
  exists (a :: r), t''. simpl. rewrite He. simpl. by rewrite Hr'.
Qed.

Lemma ghash_refines_map_witness : exists r t,
  gexec_all (fun k => k) (fun a b => bool_decide (a = b)) (ghash_new 5 true)
    [GAdd 1 10; GAdd 18 11; GAdd 1 12; GFind 18; GRemove 1; GEach] = Some (r, t) /\
  map_answers true ∅ [GAdd 1 10; GAdd 18 11; GAdd 1 12; GFind 18; GRemove 1; GEach] r.
Proof. by apply (ghash_refines_map (fun k : Z => k) (fun a b => bool_decide (a = b)) 5 true). Defined.
