(* ===== verification/PortObject.v ===== *)
(** * PortObject: sets of ports (ports/port_item.h, ports/port_utils.cc,
    ports/port_object.cc)

    A port object is a list of ranges, some of them negated, with the rules that
    use it.  What the functions do to the item list alone is defined on the list,
    since PortObject2 has it at the same place and is passed to them too.  A
    [PortBitSet] is the set of the ports whose bit is set. *)

From S2P Require Import Prelude.

Abbreviation text := (list Z).
Definition name_any : text := [97; 110; 121].
Definition name_dup : text := [100; 117; 112].

Definition SFPO_MAX_PORTS : Z := 65536.

Record PortObjectItem := MkItem { negate : bool; lport : Z; hport : Z }.

#[export] Instance PortObjectItem_eq_dec : EqDecision PortObjectItem.
Proof. solve_decision. Defined.

Definition item_any (i : PortObjectItem) : bool := negb (negate i) && (lport i =? 0) && (hport i =? SFPO_MAX_PORTS - 1).
Definition item_one (i : PortObjectItem) : bool := lport i =? hport i.
Definition PortObjectItemsEqual (a b : PortObjectItem) : bool := (lport a =? lport b) && (hport a =? hport b).

Abbreviation items := (list PortObjectItem).
Abbreviation PortBitSet := (gset Z).

Record PortObject := MkPO { name : option text; po_id : Z; item_list : items; rule_list : list Z }.

Definition PortObjectNew : PortObject := MkPO None 0 [] [].
Definition set_items (po : PortObject) (l : items) : PortObject := MkPO (name po) (po_id po) l (rule_list po).
Definition PortObjectSetName (po : PortObject) (n : text) : PortObject := MkPO (Some n) (po_id po) (item_list po) (rule_list po).

(** ** Adding *)

Definition PortObjectAddItem (l : items) (poi : PortObjectItem) : items := l ++ [poi].
Definition PortObjectAddPortObject (podst posrc : items) : items := fold_left PortObjectAddItem posrc podst.
Definition PortObjectAddRange (l : items) (lp hp : Z) : items := l ++ [MkItem false (u16 lp) (u16 hp)].
Definition PortObjectAddPort (l : items) (port : Z) : items := PortObjectAddRange l port port.
Definition PortObjectAddRule (po : PortObject) (rule : Z) : PortObject :=
  MkPO (name po) (po_id po) (item_list po) (rule_list po ++ [rule]).
Definition PortObjectAddPortAny (po : PortObject) : PortObject :=
  MkPO (Some (default name_any (name po))) (po_id po) (PortObjectAddRange (item_list po) 0 (SFPO_MAX_PORTS - 1)) (rule_list po).
Definition PortObjectAppend (poa pob : items) : items := fold_left (fun l i => l ++ [i]) pob poa.

Definition PortObjectDup (po : PortObject) : PortObject :=
  MkPO (Some (default name_dup (name po))) 0 (fold_left PortObjectAddItem (item_list po) [])
    (fold_left (fun l r => l ++ [r]) (rule_list po) []).
Definition PortObjectDupPorts (po : PortObject) : PortObject :=
  MkPO (Some (default name_dup (name po))) 0 (fold_left PortObjectAddItem (item_list po) []) [].

(** ** Questions *)

Fixpoint PortObjectHasAny (l : items) : bool :=
  match l with [] => false | i :: l => item_any i || PortObjectHasAny l end.

(** [PortObjectHasPort] over the items of the object. *)
Fixpoint has_port (l : items) (port : Z) : bool :=
  match l with
  | [] => false
  | poi :: l =>
      if item_any poi then false
      else if (u16 port >=? lport poi) && (u16 port <=? hport poi) then true
      else if negate poi then true
      else has_port l port
  end.
Definition PortObjectHasPort (po : option items) (port : Z) : bool :=
  match po with None => false | Some l => has_port l port end.

Definition PortObjectToggle (l : items) : items := map (fun i => MkItem (negb (negate i)) (lport i) (hport i)) l.

Definition PortObjectIsPureNot (l : items) : bool := negb (bool_decide (l = [])) && forallb negate l.

(** -1 for "any". *)
Fixpoint port_count (l : items) (cnt : Z) : Z :=
  match l with
  | [] => if cnt <? 0 then cnt + SFPO_MAX_PORTS else cnt
  | poi :: l =>
      if item_any poi then -1
      else
        let nports := hport poi - lport poi + 1 in
        port_count l (if negate poi then cnt - nports else cnt + nports)
  end.
Definition PortObjectPortCount (l : items) : Z := port_count l 0.

Fixpoint items_equal (a b : items) : bool :=
  match a, b with
  | [], [] => true
  | x :: a, y :: b => PortObjectItemsEqual x y && items_equal a b
  | _, _ => false
  end.
Definition PortObjectEqual (a b : items) : bool := (Zlen a =? Zlen b) && items_equal a b.

(** ** Bits *)

(** The numbers a loop from [lo] to [hi] runs through. *)
Fixpoint count_up (n : nat) (i : Z) : list Z := match n with O => [] | S n => i :: count_up n (i + 1) end.
Definition port_range (lo hi : Z) : list Z := count_up (Z.to_nat (hi - lo + 1)) lo.

(** Bit [i] set or reset: in the map under the set, which is much faster than a
    union with one element. *)
Definition set_bit (i : Z) (P : PortBitSet) : PortBitSet := mapset.Mapset (<[i := ()]> (mapset.mapset_car P)).
Definition reset_bit (i : Z) (P : PortBitSet) : PortBitSet := mapset.Mapset (delete i (mapset.mapset_car P)).

(** The loops over [lport .. hport]. *)
Definition add_range (s : Z * PortBitSet) (poi : PortObjectItem) : Z * PortBitSet :=
  fold_left (fun '(cnt, parray) i => (if bool_decide (i ∈ parray) then cnt else cnt + 1, set_bit i parray))
    (port_range (lport poi) (hport poi)) s.
Definition remove_range (s : Z * PortBitSet) (poi : PortObjectItem) : Z * PortBitSet :=
  fold_left (fun '(cnt, parray) i => (if bool_decide (i ∈ parray) then cnt - 1 else cnt, reset_bit i parray))
    (port_range (lport poi) (hport poi)) s.

Fixpoint add_items (l : items) (s : Z * PortBitSet) : Z * PortBitSet :=
  match l with
  | [] => s
  | poi :: l => add_items l (if negate poi || item_any poi then s else add_range s poi)
  end.
Fixpoint remove_items (l : items) (s : Z * PortBitSet) : Z * PortBitSet :=
  match l with
  | [] => s
  | poi :: l => remove_items l (if negb (negate poi) || item_any poi then s else remove_range s poi)
  end.

Definition all_ports : PortBitSet := fold_right set_bit ∅ (port_range 0 (SFPO_MAX_PORTS - 1)).
Definition not_count (l : items) : Z := Zlen (filter (fun i => negate i = true) l).

(** The count and the bits; [parray] holds the bits set before. *)
Definition PortObjectBits (parray : PortBitSet) (l : items) : Z * PortBitSet :=
  if PortObjectHasAny l then (0, parray)
  else
    let '(cnt, parray) := remove_items l (add_items l (0, parray)) in
    if Zlen l =? not_count l then remove_items l (cnt + Z.of_nat (size all_ports), all_ports)
    else (cnt, parray).

(** The inner loop of [PortObjectItemListFromBits]: to the end of a range. *)
Fixpoint range_end (fuel : nat) (parray : PortBitSet) (n i h nports : Z) : Z * Z * Z :=
  match fuel with
  | O => (i, h, nports)
  | S fuel =>
      if i <? n then
        if bool_decide (i ∈ parray) then range_end fuel parray n (i + 1) i (nports - 1) else (i, h, nports)
      else (i, h, nports)
  end.
Fixpoint items_from (fuel : nat) (parray : PortBitSet) (n i nports : Z) : items :=
  match fuel with
  | O => []
  | S fuel' =>
      if (i <? n) && (nports >? 0) then
        if bool_decide (i ∈ parray) then
          let '(i', h, nports) := range_end fuel parray n (i + 1) i (nports - 1) in
          MkItem false (u16 i) (u16 h) :: items_from fuel' parray n (i' + 1) nports
        else items_from fuel' parray n (i + 1) nports
      else []
  end.
Definition PortObjectItemListFromBits (parray : PortBitSet) (n : Z) : items :=
  items_from (Z.to_nat n) parray n 0 (Z.of_nat (size parray)).

(** The count and the new items. *)
Definition PortObjectNormalize (l : items) : Z * items :=
  if PortObjectHasAny l then (0, l)
  else let '(nports, parray) := PortObjectBits ∅ l in (nports, PortObjectItemListFromBits parray SFPO_MAX_PORTS).

Definition PortObjectRemovePorts (a b : items) : items :=
  let pA := (PortObjectBits ∅ a).2 in
  let pB := (PortObjectBits ∅ b).2 in
  PortObjectItemListFromBits (pA ∖ pB) SFPO_MAX_PORTS.

(** ** What an object denotes *)

Definition item_has (p : Z) (i : PortObjectItem) : bool := (lport i <=? p) && (p <=? hport i).
(** Some item with the given sign has the port. *)
Definition listed (neg : bool) (l : items) (p : Z) : bool := existsb (fun i => eqb (negate i) neg && item_has p i) l.
Definition only_negated (l : items) : bool := forallb negate l.

(** "any", or the ports that are listed (all, when only exceptions are) and not
    excepted; no ports, when nothing is listed. *)
Definition denotes (l : items) (p : Z) : bool :=
  PortObjectHasAny l || ((negb (bool_decide (l = [])) && only_negated l || listed false l p) && negb (listed true l p)).

Definition items_ok (l : items) : Prop := Forall (fun i => 0 <= lport i /\ hport i < SFPO_MAX_PORTS) l.

Lemma listed_true neg l p : listed neg l p = true <-> exists i, i ∈ l /\ negate i = neg /\ lport i <= p <= hport i.
Proof.
  unfold listed. rewrite existsb_exists. unfold item_has. split.
  - intros (i & Hi%list_elem_of_In & H). apply andb_prop in H as [He H]. apply eqb_prop in He. breflect. exists i. auto.
  - intros (i & Hi & <- & H). exists i. split; [by apply list_elem_of_In|]. rewrite eqb_reflx. simpl. apply andb_true_intro. split; lia.
Qed.

Lemma listed_app neg l k p : listed neg (l ++ k) p = listed neg l p || listed neg k p.
Proof. unfold listed. apply existsb_app. Qed.

(** *** Counting *)

Lemma set_bit_union i P : set_bit i P = {[i]} ∪ P.
Proof.
  apply set_eq. intros x. rewrite elem_of_union, elem_of_singleton.
  unfold set_bit, elem_of at 1, gset_elem_of, mapset.mapset_elem_of at 1. cbn [mapset.mapset_car].
  destruct (decide (x = i)) as [->|]; [rewrite lookup_insert_eq; naive_solver|]. rewrite lookup_insert_ne by done.
  split; [by right|by intros [?|?]].
Qed.
Lemma reset_bit_difference i P : reset_bit i P = P ∖ {[i]}.
Proof.
  apply set_eq. intros x. rewrite elem_of_difference, elem_of_singleton.
  unfold reset_bit, elem_of at 1, gset_elem_of, mapset.mapset_elem_of at 1. cbn [mapset.mapset_car].
  destruct (decide (x = i)) as [->|]; [rewrite lookup_delete_eq; naive_solver|]. rewrite lookup_delete_ne by done.
  split; [by split|by intros [? _]].
Qed.

Lemma elem_of_count_up n : forall i p, p ∈ count_up n i <-> i <= p < i + Z.of_nat n.
Proof.
  induction n as [|n IH]; intros i p; simpl; [rewrite elem_of_nil; lia|]. rewrite elem_of_cons, IH. lia.
Qed.
Lemma elem_of_port_range lo hi p : p ∈ port_range lo hi <-> lo <= p <= hi.
Proof. unfold port_range. rewrite elem_of_count_up. lia. Qed.
Lemma NoDup_port_range lo hi : NoDup (port_range lo hi).
Proof.
  unfold port_range. generalize (Z.to_nat (hi - lo + 1)). intros n. revert lo.
  induction n as [|n IH]; intros lo; simpl; constructor; [rewrite elem_of_count_up; lia|apply IH].
Qed.

Lemma size_add (P : PortBitSet) i : Z.of_nat (size ({[i]} ∪ P)) = if bool_decide (i ∈ P) then Z.of_nat (size P) else Z.of_nat (size P) + 1.
Proof.
  case_bool_decide as E.
  - by replace ({[i]} ∪ P) with P by set_solver.
  - rewrite size_union by set_solver. rewrite size_singleton. lia.
Qed.
Lemma size_remove (P : PortBitSet) i : Z.of_nat (size (P ∖ {[i]})) = if bool_decide (i ∈ P) then Z.of_nat (size P) - 1 else Z.of_nat (size P).
Proof.
  case_bool_decide as E.
  - pose proof (size_add (P ∖ {[i]}) i) as H. rewrite bool_decide_false in H by set_solver.
    replace ({[i]} ∪ P ∖ {[i]}) with P in H; [lia|]. apply set_eq. intros x. destruct (decide (x = i)); set_solver.
  - by replace (P ∖ {[i]}) with P by set_solver.
Qed.

Lemma item_has_range poi p : item_has p poi = true <-> p ∈ port_range (lport poi) (hport poi).
Proof.
  unfold item_has. rewrite elem_of_port_range. split; [intros H; breflect; lia|intros H; apply andb_true_intro; lia].
Qed.

(** The count stays the number of bits. *)
Definition counted (s s' : Z * PortBitSet) : Prop := s'.1 - Z.of_nat (size s'.2) = s.1 - Z.of_nat (size s.2).

Lemma add_range_spec s poi : counted s (add_range s poi) /\
  (forall p, p ∈ (add_range s poi).2 <-> p ∈ s.2 \/ item_has p poi = true).
Proof.
  setoid_rewrite item_has_range. unfold add_range. revert s.
  induction (port_range _ _) as [|i l IH]; intros [c P]; simpl.
  - split; [done|]. intros p. rewrite elem_of_nil. tauto.
  - destruct (IH (if bool_decide (i ∈ P) then c else c + 1, set_bit i P)) as [H1 H2]. unfold counted in *. cbn [fst snd] in H1, H2. split.
    + rewrite H1, set_bit_union, size_add. destruct (bool_decide (i ∈ P)); simpl; lia.
    + intros p. rewrite H2, set_bit_union. set_solver.
Qed.
Lemma remove_range_spec s poi : counted s (remove_range s poi) /\
  (forall p, p ∈ (remove_range s poi).2 <-> p ∈ s.2 /\ item_has p poi <> true).
Proof.
  setoid_rewrite item_has_range. unfold remove_range. revert s.
  induction (port_range _ _) as [|i l IH]; intros [c P]; simpl.
  - split; [done|]. intros p. rewrite elem_of_nil. tauto.
  - destruct (IH (if bool_decide (i ∈ P) then c - 1 else c, reset_bit i P)) as [H1 H2]. unfold counted in *. cbn [fst snd] in H1, H2. split.
    + rewrite H1, reset_bit_difference, size_remove. destruct (bool_decide (i ∈ P)); simpl; lia.
    + intros p. rewrite H2, reset_bit_difference. set_solver.
Qed.

Lemma add_items_spec l : PortObjectHasAny l = false -> forall s, counted s (add_items l s) /\
  (forall p, p ∈ (add_items l s).2 <-> p ∈ s.2 \/ listed false l p = true).
Proof.
  induction l as [|i l IH]; simpl.
  - intros _ s. split; [done|]. intros p. unfold listed. simpl. naive_solver.
  - intros [Ha Hl]%orb_false_iff s. rewrite Ha, orb_false_r. unfold listed in *. simpl.
    destruct (negate i) eqn:En; simpl; [by apply IH|]. destruct (add_range_spec s i) as [Hc1 HP1].
    destruct (IH Hl (add_range s i)) as [Hc HP]. split; [unfold counted in *; lia|].
    intros p. rewrite HP, HP1, orb_true_iff. tauto.
Qed.
Lemma remove_items_spec l : PortObjectHasAny l = false -> forall s, counted s (remove_items l s) /\
  (forall p, p ∈ (remove_items l s).2 <-> p ∈ s.2 /\ listed true l p = false).
Proof.
  induction l as [|i l IH]; simpl.
  - intros _ s. split; [done|]. intros p. unfold listed. simpl. naive_solver.
  - intros [Ha Hl]%orb_false_iff s. rewrite Ha, orb_false_r. unfold listed in *. simpl.
    destruct (negate i) eqn:En; simpl; [|by apply IH]. destruct (remove_range_spec s i) as [Hc1 HP1].
    destruct (IH Hl (remove_range s i)) as [Hc HP]. split; [unfold counted in *; lia|].
    intros p. rewrite HP, HP1, orb_false_iff, not_true_iff_false. tauto.
Qed.

Lemma not_count_spec l : (Zlen l =? not_count l) = only_negated l.
Proof.
  unfold not_count, Zlen, only_negated.
  assert (forall l : items, (length (filter (fun i => negate i = true) l) <= length l)%nat) as Hle by (intros; apply length_filter).
  induction l as [|i l IH]; [done|]. rewrite filter_cons. simpl. specialize (Hle l). destruct (negate i); simpl.
  - rewrite <- IH. apply eq_iff_eq_true. rewrite Z.eqb_eq, Pos.eqb_eq. lia.
  - destruct (Z.of_nat (length (filter _ l))) eqn:E; try done. apply Pos.eqb_neq. lia.
Qed.

Lemma elem_of_all_ports p : p ∈ all_ports <-> 0 <= p < SFPO_MAX_PORTS.
Proof.
  unfold all_ports. transitivity (p ∈ port_range 0 (SFPO_MAX_PORTS - 1)); [|rewrite elem_of_port_range; lia].
  induction (port_range _ _) as [|i l IH]; cbn [fold_right]; [set_solver|]. rewrite set_bit_union. set_solver.
Qed.

(** The bits are the ports the object denotes, and are counted. *)
Lemma PortObjectBits_spec l : items_ok l -> l <> [] -> PortObjectHasAny l = false ->
  (PortObjectBits ∅ l).1 = Z.of_nat (size (PortObjectBits ∅ l).2) /\
  (forall p, p ∈ (PortObjectBits ∅ l).2 <-> 0 <= p < SFPO_MAX_PORTS /\ denotes l p = true).
Proof.
  intros Hok Hne Ha. unfold PortObjectBits, denotes. rewrite Ha, not_count_spec, (bool_decide_false _ Hne). cbn [orb negb andb].
  pose proof elem_of_all_ports as Hall. revert Hall. generalize all_ports. intros all Hall.
  destruct (add_items_spec l Ha (0, ∅)) as [H1 E1].
  destruct (remove_items_spec l Ha (add_items l (0, ∅))) as [H2 E2]. unfold counted in *. cbn [fst snd] in H1.
  destruct (remove_items l (add_items l (0, ∅))) as [c2 P2]. cbn [fst snd] in *.
  rewrite size_empty in H1. destruct (only_negated l) eqn:En; cbn [orb].
  - assert (P2 = ∅) as ->.
    { apply set_eq. intros p. rewrite E2, E1, listed_true. split; [|set_solver].
      intros [[?|(i & Hi & Hn & _)] _]; [done|]. unfold only_negated in En. rewrite forallb_forall in En.
      rewrite En in Hn; [done|by apply list_elem_of_In]. }
    rewrite size_empty in H2.
    destruct (remove_items_spec l Ha (c2 + Z.of_nat (size all), all)) as [H3 E3]. unfold counted in H3. cbn [fst snd] in H3, E3.
    split; [lia|]. intros p. rewrite E3, Hall. cbn [andb]. by rewrite negb_true_iff.
  - split; [cbn [fst snd]; lia|]. intros p. cbn [fst snd]. rewrite E2, E1, andb_true_iff, negb_true_iff. split.
    + intros [[?|Hc] Hn]; [set_solver|]. split; [|done]. apply listed_true in Hc as (i & Hi & _ & Hr).
      unfold items_ok in Hok. rewrite Forall_forall in Hok. specialize (Hok i Hi). lia.
    + tauto.
Qed.

(** *** Normal forms *)

(** Ranges that are not negated, not empty, ordered and apart. *)
Fixpoint canonical (lo : Z) (l : items) : Prop :=
  match l with
  | [] => True
  | i :: l => negate i = false /\ lo <= lport i <= hport i /\ hport i < SFPO_MAX_PORTS /\ canonical (hport i + 2) l
  end.

Lemma canonical_weaken lo lo' l : lo' <= lo -> canonical lo l -> canonical lo' l.
Proof. destruct l as [|i l]; simpl; [done|]. intros ? (? & ? & ? & ?). split_and!; [done|lia|lia|done|done]. Qed.

Lemma canonical_from lo l : canonical lo l -> Forall (fun i => negate i = false /\ lo <= lport i <= hport i /\ hport i < SFPO_MAX_PORTS) l.
Proof.
  revert lo. induction l as [|i l IH]; intros lo; simpl; [done|]. intros (H1 & H2 & H3 & H4). constructor; [done|].
  eapply Forall_impl; [by eapply IH|]. simpl. intros x (? & ? & ?). split; [done|lia].
Qed.

Lemma canonical_ok l : canonical 0 l -> items_ok l.
Proof. intros H%canonical_from. eapply Forall_impl; [done|]. simpl. lia. Qed.

Lemma canonical_listed_lo lo l p : canonical lo l -> listed false l p = true -> lo <= p.
Proof.
  intros Hc%canonical_from (i & Hi & _ & Hp)%listed_true. rewrite Forall_forall in Hc. specialize (Hc i Hi). lia.
Qed.

Lemma canonical_no_negated lo l p : canonical lo l -> listed true l p = false.
Proof.
  intros Hc%canonical_from. apply not_true_iff_false. intros (i & Hi & Hn & _)%listed_true.
  rewrite Forall_forall in Hc. destruct (Hc i Hi). congruence.
Qed.

Lemma listed_cons neg i l p : listed neg (i :: l) p = eqb (negate i) neg && item_has p i || listed neg l p.
Proof. done. Qed.

(** There is one normal form of a set. *)
Lemma canonical_unique l : forall k lo, canonical lo l -> canonical lo k ->
  (forall p, listed false l p = listed false k p) -> l = k.
Proof.
  assert (forall lo i (l k : items), canonical lo (i :: l) -> canonical lo k -> (forall p, listed false (i :: l) p = listed false k p) ->
    exists j k', k = j :: k' /\ lport j <= lport i) as Hhead.
  { intros lo i l' k Hl Hk He. specialize (He (lport i)). simpl in Hl. destruct Hl as (Hn & Hr & _).
    rewrite listed_cons, Hn in He. unfold item_has in He. rewrite (proj2 (Z.leb_le _ _)), (proj2 (Z.leb_le _ _)) in He by lia. simpl in He.
    symmetry in He. destruct k as [|j k]; [done|]. exists j, k. split; [done|].
    simpl in Hk. destruct Hk as (Hnj & Hrj & Hm & Hk). rewrite listed_cons in He. apply orb_prop in He as [He|He].
    - unfold item_has in He. breflect. lia.
    - pose proof (canonical_listed_lo _ _ _ Hk He). lia. }
  assert (forall i (l : items) p, canonical (hport i + 2) l -> listed false l p = true -> hport i + 2 <= p) as Hgap.
  { intros i l' p. apply canonical_listed_lo. }
  induction l as [|i l IH]; intros k lo Hl Hk He.
  - destruct k as [|j k]; [done|]. destruct (Hhead lo j k [] Hk Hl) as (? & ? & ? & _); done.
  - destruct (Hhead lo i l k Hl Hk He) as (j & k' & -> & Hji).
    destruct (Hhead lo j k' (i :: l) Hk Hl (fun p => eq_sym (He p))) as (? & ? & [= <- <-] & Hij).
    simpl in Hl, Hk. destruct Hl as (Hn & Hr & Hm & Hl), Hk as (Hnj & Hrj & Hmj & Hk).
    assert (forall p, item_has p i || listed false l p = item_has p j || listed false k' p) as He'.
    { intros p. specialize (He p). rewrite !listed_cons, Hn, Hnj in He. done. }
    assert (forall i j (l k : items), lport i = lport j -> lport i <= hport i -> lport j <= hport j -> canonical (hport i + 2) l -> canonical (hport j + 2) k ->
      (forall p, item_has p i || listed false l p = item_has p j || listed false k p) -> hport j <= hport i) as Hle.
    { clear. intros i j l k Hlp Hi Hj Hl Hk He. destruct (decide (hport j <= hport i)) as [|Hgt]; [done|].
      specialize (He (hport i + 1)). unfold item_has in He.
      rewrite (proj2 (Z.leb_gt (hport i + 1) (hport i))), andb_false_r in He by lia.
      rewrite (proj2 (Z.leb_le (lport j) _)), (proj2 (Z.leb_le _ (hport j))) in He by lia. simpl in He.
      pose proof (canonical_listed_lo _ _ _ Hl He). lia. }
    assert (hport i = hport j) as Hh.
    { apply Z.le_antisymm; [apply (Hle j i k' l)|apply (Hle i j l k')]; try done; try lia. }
    assert (i = j) as ->.
    { destruct i, j. simpl in *. f_equal; [congruence|lia|lia]. }
    f_equal. apply (IH k' (hport j + 2)); [done|done|]. intros p. specialize (He' p).
    destruct (item_has p j) eqn:Ep; [|done]. unfold item_has in Ep. breflect.
    destruct (listed false l p) eqn:E1; [pose proof (Hgap _ _ _ Hl E1); lia|].
    destruct (listed false k' p) eqn:E2; [pose proof (Hgap _ _ _ Hk E2); lia|]. done.
Qed.

(** *** From bits to ranges *)

Section Bits.
Variable parray : PortBitSet.
Hypothesis in_range : forall p, p ∈ parray -> 0 <= p < SFPO_MAX_PORTS.

(** The bits from [i] on. *)
Definition bits_left (i : Z) : Z := Z.of_nat (size (filter (fun p => i <= p) parray)).

Lemma bits_left_next i : bits_left i = (if bool_decide (i ∈ parray) then 1 else 0) + bits_left (i + 1).
Proof.
  unfold bits_left. case_bool_decide as E.
  - replace (filter (fun p => i <= p) parray) with ({[i]} ∪ filter (fun p => i + 1 <= p) parray).
    + rewrite size_union by (intros x; rewrite elem_of_singleton, elem_of_filter; lia). rewrite size_singleton. lia.
    + apply set_eq. intros x. rewrite elem_of_union, elem_of_singleton, !elem_of_filter.
      split; [intros [->|[? ?]]; [split; [lia|done]|split; [lia|done]]|intros [? ?]].
      destruct (decide (x = i)); [by left|right; split; [lia|done]].
  - rewrite Z.add_0_l. do 2 f_equal. apply set_eq. intros x. rewrite !elem_of_filter. split; intros [? ?]; (split; [|done]); [|lia].
    destruct (decide (x = i)) as [->|]; [done|lia].
Qed.

Lemma bits_left_none i p : bits_left i <= 0 -> i <= p -> p ∉ parray.
Proof.
  unfold bits_left. intros H Hp Hin. assert (size (filter (fun p => i <= p) parray) = 0%nat) as E by lia.
  apply size_empty_inv in E. apply (not_elem_of_empty (C := PortBitSet) p), E. rewrite elem_of_filter. done.
Qed.

Lemma range_end_spec fuel : forall i, 0 <= i <= SFPO_MAX_PORTS -> SFPO_MAX_PORTS - i <= Z.of_nat fuel ->
  exists i', range_end fuel parray SFPO_MAX_PORTS i (i - 1) (bits_left i) = (i', i' - 1, bits_left i') /\
    i <= i' <= SFPO_MAX_PORTS /\ (forall p, i <= p < i' -> p ∈ parray) /\ i' ∉ parray.
Proof.
  induction fuel as [|fuel IH]; intros i Hi Hf; simpl.
  - exists i. split_and!; [done|lia|lia|lia|]. intros H%in_range. lia.
  - bcase (i <? SFPO_MAX_PORTS) as E.
    2: { exists i. split_and!; [done|lia|lia|lia|]. intros H%in_range. lia. }
    case_bool_decide as Eb.
    2: { exists i. split_and!; [done|lia|lia|lia|done]. }
    destruct (IH (i + 1)) as (i' & Hr & Hi' & Hp & Hn); [lia|lia|].
    exists i'. rewrite (bits_left_next i), bool_decide_true by done.
    replace (1 + bits_left (i + 1) - 1) with (bits_left (i + 1)) by lia. replace (i + 1 - 1) with i in Hr by lia.
    split; [done|]. split_and!; [lia|lia| |done]. intros p Hip. destruct (decide (p = i)) as [->|]; [done|apply Hp; lia].
Qed.

Lemma items_from_spec fuel : forall i, 0 <= i -> SFPO_MAX_PORTS - i <= Z.of_nat fuel ->
  canonical i (items_from fuel parray SFPO_MAX_PORTS i (bits_left i)) /\
  (forall p, i <= p -> listed false (items_from fuel parray SFPO_MAX_PORTS i (bits_left i)) p = bool_decide (p ∈ parray)).
Proof.
  assert (forall i p, bits_left i <= 0 \/ SFPO_MAX_PORTS <= i -> i <= p -> bool_decide (p ∈ parray) = false) as Hnone.
  { intros i p Hor Hp. apply bool_decide_false. destruct Hor; [by eapply bits_left_none|]. intros ?%in_range. lia. }
  induction fuel as [|fuel IH]; intros i Hi Hf; [simpl; split; [done|]; intros p Hp; rewrite (Hnone i); auto with lia|].
  cbn [items_from]. destruct ((i <? SFPO_MAX_PORTS) && (bits_left i >? 0)) eqn:E.
  2: { split; [done|]. intros p Hp. rewrite (Hnone i); [done| |done]. apply andb_false_iff in E as [E|E]; breflect; lia. }
  apply andb_prop in E as [E1 E2]. breflect. case_bool_decide as Eb.
  - destruct (range_end_spec (S fuel) (i + 1)) as (i' & Hr & Hi' & Hp & Hn); [lia|lia|].
    replace (i + 1 - 1) with i in Hr by lia.
    replace (bits_left i - 1) with (bits_left (i + 1)) by (rewrite (bits_left_next i), bool_decide_true by done; lia).
    rewrite Hr. assert (bits_left i' = bits_left (i' + 1)) as -> by (rewrite (bits_left_next i'), bool_decide_false by done; lia).
    destruct (IH (i' + 1)) as [Hc Hcov]; [lia|lia|].
    rewrite (u16_small i), (u16_small (i' - 1)) by (unfold is_u16, SFPO_MAX_PORTS in *; lia). cbn [canonical negate lport hport]. split.
    + split_and!; [done|lia|lia|lia|]. by replace (i' - 1 + 2) with (i' + 1) by lia.
    + intros p Hip. rewrite listed_cons. unfold item_has. cbn [negate lport hport eqb andb].
      destruct (decide (i' + 1 <= p)).
      * rewrite Hcov by done. rewrite (proj2 (Z.leb_gt p (i' - 1))), andb_false_r by lia. done.
      * destruct (listed false _ p) eqn:Ec; [pose proof (canonical_listed_lo _ _ _ Hc Ec); lia|]. rewrite orb_false_r.
        rewrite (proj2 (Z.leb_le i p)) by lia. simpl. destruct (decide (p = i')) as [->|].
        -- rewrite bool_decide_false by done. apply Z.leb_gt. lia.
        -- rewrite (proj2 (Z.leb_le p _)) by lia. symmetry. apply bool_decide_true.
           destruct (decide (p = i)) as [->|]; [done|apply Hp; lia].
  - assert (bits_left i = bits_left (i + 1)) as -> by (rewrite (bits_left_next i), bool_decide_false by done; lia).
    destruct (IH (i + 1)) as [Hc Hcov]; [lia|lia|]. split; [by eapply canonical_weaken; [|done]; lia|].
    intros p Hip. destruct (decide (p = i)) as [->|]; [|apply Hcov; lia].
    rewrite bool_decide_false by done. apply not_true_iff_false. intros H%(canonical_listed_lo _ _ _ Hc). lia.
Qed.

Lemma ItemListFromBits_spec :
  canonical 0 (PortObjectItemListFromBits parray SFPO_MAX_PORTS) /\
  (forall p, listed false (PortObjectItemListFromBits parray SFPO_MAX_PORTS) p = bool_decide (p ∈ parray)).
Proof.
  unfold PortObjectItemListFromBits.
  replace (Z.of_nat (size parray)) with (bits_left 0).
  2: { unfold bits_left. do 2 f_equal. apply set_eq. intros x. rewrite elem_of_filter. naive_solver lia. }
  destruct (items_from_spec (Z.to_nat SFPO_MAX_PORTS) 0) as [Hc Hp]; [done|lia|]. split; [done|]. intros p.
  destruct (decide (0 <= p)); [by apply Hp|]. rewrite bool_decide_false by (intros ?%in_range; lia).
  apply not_true_iff_false. intros H%(canonical_listed_lo _ _ _ Hc). lia.
Qed.

End Bits.

Lemma canonical_denotes lo l p : canonical lo l -> l <> [] -> PortObjectHasAny l = false -> denotes l p = listed false l p.
Proof.
  intros Hc Hl Ha. unfold denotes. rewrite Ha, (canonical_no_negated _ _ _ Hc). destruct l as [|i l]; [done|].
  destruct Hc as (Hn & _). unfold only_negated. simpl. rewrite Hn. simpl. by rewrite andb_true_r.
Qed.

Lemma has_port_ranges (l : items) port : Forall (fun i => negate i = false /\ item_any i = false) l -> is_u16 port ->
  has_port l port = existsb (fun i => (lport i <=? port) && (port <=? hport i)) l.
Proof.
  intros Hl Hp. induction Hl as [|i l [H1 H2] _ IH]; [done|]. cbn [has_port existsb]. rewrite H1, H2, u16_small, IH by done.
  rewrite Z.geb_leb. by destruct ((lport i <=? port) && (port <=? hport i)).
Qed.

Lemma HasAny_false (l : items) : PortObjectHasAny l = false <-> Forall (fun i => item_any i = false) l.
Proof. induction l as [|i l IH]; simpl; [done|]. rewrite orb_false_iff, Forall_cons. by rewrite IH. Qed.

Lemma has_port_canonical l lo p : canonical lo l -> PortObjectHasAny l = false -> is_u16 p -> has_port l p = listed false l p.
Proof.
  intros Hc%canonical_from Ha%HasAny_false Hp. rewrite has_port_ranges; [|..|done].
  - clear -Hc. unfold listed, item_has. induction Hc as [|i l [Hn _] _ IH]; [done|]. simpl. by rewrite Hn, IH.
  - rewrite Forall_forall in *. intros i Hi. split; [apply Hc|apply Ha]; done.
Qed.

Lemma items_equal_spec l k : Forall (fun i => negate i = false) l -> Forall (fun i => negate i = false) k ->
  items_equal l k = true <-> l = k.
Proof.
  intros Hl. revert k. induction Hl as [|[n a b] l Hn Hl IH]; intros [|[m c d] k] Hk; simpl; try done.
  apply Forall_cons in Hk as [Hm Hk]. unfold PortObjectItemsEqual. simpl in *. subst.
  rewrite !andb_true_iff, (IH k Hk), !Z.eqb_eq. naive_solver.
Qed.

Lemma PortObjectEqual_canonical l k lo : canonical lo l -> canonical lo k -> PortObjectEqual l k = true <-> l = k.
Proof.
  intros Hl%canonical_from Hk%canonical_from. unfold PortObjectEqual. rewrite andb_true_iff, items_equal_spec, Z.eqb_eq.
  - naive_solver.
  - eapply Forall_impl; [exact Hl|]. simpl. tauto.
  - eapply Forall_impl; [exact Hk|]. simpl. tauto.
Qed.

(** The ports an object denotes, in order. *)
Definition ports_of (l : items) : list Z := List.filter (denotes l) (port_range 0 (SFPO_MAX_PORTS - 1)).

Lemma Normalize_spec l : items_ok l -> l <> [] -> PortObjectHasAny l = false ->
  (PortObjectNormalize l).1 = Zlen (ports_of l) /\ canonical 0 (PortObjectNormalize l).2 /\
  (forall p, 0 <= p < SFPO_MAX_PORTS -> listed false (PortObjectNormalize l).2 p = denotes l p).
Proof.
  intros Hok Hne Ha. destruct (PortObjectBits_spec l Hok Hne Ha) as [Hc HP]. unfold PortObjectNormalize. rewrite Ha.
  destruct (PortObjectBits ∅ l) as [c P]. cbn [fst snd] in *. destruct (ItemListFromBits_spec P) as [Hcan Hcov].
  { intros p [? _]%HP. done. }
  split; [|split; [done|]].
  - rewrite Hc. unfold Zlen. f_equal.
    assert (NoDup (ports_of l)) as Hnd.
    { unfold ports_of. apply NoDup_ListNoDup, List.NoDup_filter, NoDup_ListNoDup, NoDup_port_range. }
    rewrite <- (size_list_to_set (C := PortBitSet) (ports_of l)) by done. f_equal. apply set_eq. intros p.
    rewrite HP, elem_of_list_to_set, list_elem_of_In. unfold ports_of. rewrite List.filter_In, <- list_elem_of_In, elem_of_port_range. naive_solver lia.
  - intros p Hp. rewrite Hcov. apply eq_iff_eq_true. rewrite bool_decide_eq_true, HP. naive_solver.
Qed.

Lemma elem_of_ports_of l p : p ∈ ports_of l <-> 0 <= p < SFPO_MAX_PORTS /\ denotes l p = true.
Proof. unfold ports_of. rewrite list_elem_of_In, List.filter_In, <- list_elem_of_In, elem_of_port_range. naive_solver lia. Qed.

Lemma canonical_range l p : canonical 0 l -> listed false l p = true -> 0 <= p < SFPO_MAX_PORTS.
Proof.
  intros Hx%canonical_ok (i & Hi & _ & Hq)%listed_true. unfold items_ok in Hx. rewrite Forall_forall in Hx. specialize (Hx i Hi). lia.
Qed.

(** Two normal forms compare equal exactly when the lists have the same ports. *)
Lemma normal_forms_equal l k l' k' : canonical 0 l' -> canonical 0 k' ->
  (forall p, 0 <= p < SFPO_MAX_PORTS -> listed false l' p = denotes l p) ->
  (forall p, 0 <= p < SFPO_MAX_PORTS -> listed false k' p = denotes k p) ->
  PortObjectEqual l' k' = true <-> ports_of l = ports_of k.
Proof.
  intros Cl Ck Vl Vk. rewrite (PortObjectEqual_canonical _ _ 0) by done. split.
  - intros E. unfold ports_of. apply List.filter_ext_in. intros p Hp%list_elem_of_In%elem_of_port_range.
    rewrite <- Vl, <- Vk, E by lia. done.
  - intros E. apply (canonical_unique l' k' 0 Cl Ck). intros p.
    assert (0 <= p < SFPO_MAX_PORTS -> listed false l' p = listed false k' p) as Hin.
    { intros Hp. rewrite Vl, Vk by done. apply eq_iff_eq_true. pose proof (elem_of_ports_of l p) as H1.
      pose proof (elem_of_ports_of k p) as H2. rewrite E in H1. tauto. }
    destruct (listed false l' p) eqn:E1; [apply Hin; by apply (canonical_range l')|].
    destruct (listed false k' p) eqn:E2; [|done]. apply Hin. by apply (canonical_range k').
Qed.

(** C29.  Normalising a port list that is not empty and has no item for all ports
    counts its ports and gives ranges that are sorted, apart and cover exactly the
    ports of the list: those named, or all when only exceptions are, less the
    exceptions.  Two such lists compare equal after normalising exactly when they
    have the same ports, and the membership test on a normalised list is exact
    unless it covers all ports. *)
Theorem normalize_normal_form l k :
  items_ok l -> items_ok k -> l <> [] -> k <> [] -> PortObjectHasAny l = false -> PortObjectHasAny k = false ->
  let '(n, l') := PortObjectNormalize l in
  n = Zlen (ports_of l) /\ canonical 0 l' /\
  (forall p, 0 <= p < SFPO_MAX_PORTS -> listed false l' p = denotes l p) /\
  (PortObjectEqual l' (PortObjectNormalize k).2 = true <-> ports_of l = ports_of k) /\
  (PortObjectHasAny l' = false -> forall p, is_u16 p -> PortObjectHasPort (Some l') p = denotes l p).
Proof.
  intros Hl Hk Nel Nek Al Ak. pose proof (Normalize_spec l Hl Nel Al) as (Nl & Cl & Vl). pose proof (Normalize_spec k Hk Nek Ak) as (_ & Ck & Vk).
  revert Nl Cl Vl Ck Vk. generalize (PortObjectNormalize k).2. generalize (PortObjectNormalize l).
  intros [n l'] k' Nl Cl Vl Ck Vk. cbn [fst snd] in *. split_and!; [done|done|done|by apply normal_forms_equal|].
  intros Ha p Hp. cbn [PortObjectHasPort]. rewrite (has_port_canonical l' 0), Vl; [done| |done..].
  unfold is_u16 in Hp. unfold SFPO_MAX_PORTS. lia.
Qed.

(** 80 to 90 but not 85, and the same written otherwise. *)
Definition web : items := [MkItem false 80 90; MkItem true 85 85].
Definition web' : items := [MkItem false 86 90; MkItem false 80 84; MkItem false 83 84].

Lemma normalize_normal_form_witness : PortObjectNormalize web = (10, [MkItem false 80 84; MkItem false 86 90]) /\
  (PortObjectEqual (PortObjectNormalize web).2 (PortObjectNormalize web').2 = true <-> ports_of web = ports_of web').
Proof.
  split; [vm_compute; reflexivity|].
  assert (items_ok web /\ items_ok web') as [H1 H2] by (split; repeat constructor; by simpl).
  pose proof (normalize_normal_form web web' H1 H2 ltac:(done) ltac:(done) eq_refl eq_refl) as H.
  destruct (PortObjectNormalize web) as [n l]. apply H.
Defined.

(** A list without items is made one of all ports, so what is left when every
    port is excepted becomes everything when it is normalised again. *)
Theorem empty_becomes_any :
  (PortObjectNormalize [MkItem true 0 65535]).2 = [] /\ (PortObjectNormalize []).2 = [MkItem false 0 65535].
Proof. split; vm_compute; reflexivity. Qed.
