(* ===== verification/PortTable.v ===== *)
(** * PortTable: from port lists to one rule set per port
    (ports/port_object2.{h,cc}, ports/port_table.{h,cc})

    The rules of a protocol come as port objects, each with its rules.  Compiling
    gives every port an object with the rules of all port objects that have the
    port; ports with the same port objects, or whose merged objects have the same
    ports, share it.  The merged objects live in a heap and are named by
    numbers, because two hash tables and the array of ports point to them and
    they change after they were entered: [mhash] is keyed by the ports of the
    object a pointer points to, [mhashx] by the list of merged port objects.
    Input objects are named by their addresses, which order them.  Memory is
    always available; [None] is a fatal error. *)

From stdpp Require Import sorting.
From S2P Require Import Prelude Hash PrimeTable GHash PortObject.
#[local] Open Scope Z_scope.

Definition SFPO_MAX_LPORTS : nat := 500.
Definition PO_EXTRA_RULE_CNT : Z := 25.
Definition PTBL_LRC_DEFAULT : Z := 10.
Definition PO_INIT_ID : Z := 1000000.
Definition PO_HASH_TBL_ROWS : Z := 10000.

(** ** PortObject2 *)

(** [fnc]: the constants of the hash function of [rule_hash]. *)
Record PortObject2 := MkPO2 {
  name2 : option text; id2 : Z; items2 : items; rule_hash : GHash Z Z; fnc : HashFnc;
  port_list : option PortBitSet; port_cnt : Z }.

(** The bytes of an [int] on little-endian hardware. *)
Definition int_bytes (k : Z) : list Z :=
  [Z.land k 255; Z.land (Z.shiftr k 8) 255; Z.land (Z.shiftr k 16) 255; Z.land (Z.shiftr k 24) 255].
Definition po_rule_hash_func (p : HashFnc) (k : Z) : Z := hashfcn_hash p (int_bytes k).
Definition rule_keycmp (a b : Z) : bool := bool_decide (a = b).

Definition set_rules (po : PortObject2) (h : GHash Z Z) : PortObject2 :=
  MkPO2 (name2 po) (id2 po) (items2 po) h (fnc po) (port_list po) (port_cnt po).
Definition set_items2 (po : PortObject2) (l : items) : PortObject2 :=
  MkPO2 (name2 po) (id2 po) l (rule_hash po) (fnc po) (port_list po) (port_cnt po).
Definition set_ports (po : PortObject2) (pl : option PortBitSet) (c : Z) : PortObject2 :=
  MkPO2 (name2 po) (id2 po) (items2 po) (rule_hash po) (fnc po) pl c.
Definition set_id (po : PortObject2) (i : Z) : PortObject2 :=
  MkPO2 (name2 po) i (items2 po) (rule_hash po) (fnc po) (port_list po) (port_cnt po).

Definition PortObject2New (f : HashFnc) (nrules : Z) : PortObject2 :=
  MkPO2 None 0 [] (ghash_new nrules true) f None 0.

(** The loops that copy rule numbers into the hash of an object. *)
Definition add_rule (f : HashFnc) (h : GHash Z Z) (r : Z) : GHash Z Z :=
  (ghash_add (po_rule_hash_func f) rule_keycmp h r r).2.
Definition add_rules (f : HashFnc) (h : GHash Z Z) (l : list Z) : GHash Z Z := fold_left (add_rule f) l h.

Definition PortObject2Dup (f : HashFnc) (po : PortObject) : PortObject2 :=
  let ponew := PortObject2New f (Zlen (rule_list po) + PO_EXTRA_RULE_CNT) in
  MkPO2 (Some (default name_dup (name po))) 0 (fold_left PortObjectAddItem (item_list po) [])
    (add_rules f (rule_hash ponew) (rule_list po)) f None 0.

Definition PortObject2AppendPortObject (poa : PortObject2) (pob : PortObject) : PortObject2 :=
  set_rules poa (add_rules (fnc poa) (rule_hash poa) (rule_list pob)).

(** The second component is [pob], whose hash was enumerated. *)
Definition PortObject2AppendPortObject2 (poa pob : PortObject2) : option (PortObject2 * PortObject2) :=
  '(nodes, h) ← ghash_iterate (rule_hash pob);
  Some (set_rules poa (add_rules (fnc poa) (rule_hash poa) nodes.*2), set_rules pob h).

Definition PortObjectAppendEx2 (poa : PortObject2) (pob : PortObject) : PortObject2 :=
  PortObject2AppendPortObject (set_items2 poa (PortObjectAppend (items2 poa) (item_list pob))) pob.

(** The ports of the items that are not "any". *)
Definition PortObject2Iterate (l : items) : list Z :=
  concat (map (fun poi => if item_any poi then [] else port_range (lport poi) (hport poi)) l).

(** ** The table *)

Record PortTable := MkPT {
  pt_optimize : bool;
  pt_polist : list (Z * PortObject);
  pt_lrc : Z }.

Definition PortTableNew : PortTable := MkPT true [] PTBL_LRC_DEFAULT.

(** The first object with the same ports. *)
Fixpoint find_ports (l : list (Z * PortObject)) (pox : items) : option Z :=
  match l with
  | [] => None
  | (a, po) :: l => if PortObjectEqual (item_list po) pox then Some a else find_ports l pox
  end.
Definition PortTableFindInputPortObjectPorts (pt : PortTable) (pox : items) : option Z := find_ports (pt_polist pt) pox.

Definition PortTableAddObject (p : PortTable) (a : Z) (po : PortObject) : PortTable :=
  if existsb (fun x => x.1 =? a) (pt_polist p) then p
  else MkPT (pt_optimize p) (pt_polist p ++ [(a, po)]) (pt_lrc p).

(** [RuleListSortUniq]: the numbers above -1, sorted, each once; an empty list
    stays. *)
Fixpoint uniq_above (last : Z) (l : list Z) : list Z :=
  match l with
  | [] => []
  | x :: l => if x >? last then x :: uniq_above x l else uniq_above last l
  end.
Definition RuleListSortUniq (rl : list Z) : list Z := uniq_above (-1) (merge_sort Z.le rl).
Definition PortTableSortUniqRules (p : PortTable) : PortTable :=
  MkPT (pt_optimize p)
    (map (fun '(a, po) => (a, MkPO (name po) (po_id po) (item_list po) (RuleListSortUniq (rule_list po)))) (pt_polist p)) (pt_lrc p).

(** ** Merging *)

(** The objects made so far and the two tables. *)
Record merge := MkMerge {
  heap : gmap nat PortObject2;
  next : nat;
  mhash : GHash nat nat;
  mhashx : GHash (list Z) nat }.

Section Compile.
(** The constants of the hash functions: of [mhash], of [mhashx] and of the rule
    hash of each object. *)
Variable hp hx : HashFnc.
Variable hr : nat -> HashFnc.
(** The input objects. *)
Variable polist : list (Z * PortObject).

Definition obj (a : Z) : option PortObject := snd <$> List.find (fun x => x.1 =? a) polist.

(** The bytes of a pointer. *)
Definition ptr_bytes (a : Z) : list Z := map (fun k => Z.land (Z.shiftr a (8 * k)) 255) [0; 1; 2; 3; 4; 5; 6; 7].
Definition plx_hash (plx : list Z) : Z :=
  Z.lxor (fold_left (fun hash c => u32 (u32 (hash * scale hx) + c)) (concat (map ptr_bytes plx)) (seed hx)) (hardener hx).
Definition plx_keycmp (a b : list Z) : bool := bool_decide (a = b).

Definition hash_item (h : Z) (poi : PortObjectItem) : Z :=
  if item_any poi then h
  else fold_left (fun hash c => u32 (u32 (hash * scale hp) + c))
         [Z.land (lport poi) 255; Z.land (Z.shiftr (lport poi) 8) 255; Z.land (hport poi) 255; Z.land (Z.shiftr (hport poi) 8) 255] h.
Definition ports_at (m : gmap nat PortObject2) (n : nat) : items := default [] (items2 <$> m !! n).
Definition PortObject_hash (m : gmap nat PortObject2) (n : nat) : Z :=
  Z.lxor (fold_left hash_item (ports_at m n) (seed hp)) (hardener hp).
Definition PortObject_keycmp (m : gmap nat PortObject2) (a b : nat) : bool := PortObjectEqual (ports_at m a) (ports_at m b).

(** The object that merges [pol], not yet in a table. *)
Definition merged (n : nat) (pol : list PortObject) : option PortObject2 :=
  match pol with
  | [] => None
  | [po] => Some (PortObject2Dup (hr n) po)
  | po :: rest =>
      let ponew := fold_left PortObjectAppendEx2 rest (PortObject2Dup (hr n) po) in
      Some (set_items2 ponew (PortObjectNormalize (items2 ponew)).2)
  end.

(** [None]: a fatal error. *)
Definition _merge_N_pol (st : merge) (pol : list Z) : option (nat * merge) :=
  match ghash_find plx_hash plx_keycmp (mhashx st) pol with
  | Some ponew => Some (ponew, st)
  | None =>
      pos ← mapM obj pol;
      ob ← merged (next st) pos;
      let n := next st in
      let hp' := <[n := ob]> (heap st) in
      '(ponew, hp', mh) ←
        match ghash_add (PortObject_hash hp') (PortObject_keycmp hp') (mhash st) n n with
        | (GHASH_OK, mh) => Some (n, hp', mh)
        | (GHASH_INTABLE, mh) =>
            pox ← ghash_find (PortObject_hash hp') (PortObject_keycmp hp') mh n;
            obx ← hp' !! pox;
            '(obx, _) ← PortObject2AppendPortObject2 obx ob;
            Some (pox, delete n (<[pox := obx]> hp'), mh)
        | _ => None
        end;
      match ghash_add plx_hash plx_keycmp (mhashx st) pol ponew with
      | (GHASH_OK, mx) =>
          if bool_decide (ghash_find plx_hash plx_keycmp mx pol = Some ponew)
          then Some (ponew, MkMerge hp' (S n) mh mx) else None
      | _ => None
      end
  end.

Definition rule_count (a : Z) : Z := from_option (fun po => Zlen (rule_list po)) 0 (obj a).

Definition PortTableCompileMergePortObjectList2 (st : merge) (pol : list Z) (lcnt : Z) : option (nat * merge) :=
  let polarge := merge_sort Z.le (take SFPO_MAX_LPORTS (List.filter (fun a => rule_count a >=? lcnt) pol)) in
  let posmall := merge_sort Z.le (take SFPO_MAX_LPORTS (List.filter (fun a => negb (rule_count a >=? lcnt)) pol)) in
  match polarge, posmall with
  | [], [] => None
  | [], _ => _merge_N_pol st posmall
  | _, [] => _merge_N_pol st polarge
  | _, _ =>
      '(ponew, st) ← _merge_N_pol st polarge;
      '(posnew, st) ← _merge_N_pol st posmall;
      if bool_decide (ponew = posnew) then Some (ponew, st)
      else
        l ← heap st !! ponew;
        s ← heap st !! posnew;
        '(l, s) ← PortObject2AppendPortObject2 l s;
        let s := set_items2 s (PortObjectRemovePorts (items2 s) (items2 l)) in
        Some (ponew, MkMerge (<[posnew := s]> (<[ponew := l]> (heap st))) (next st) (mhash st) (mhashx st))
  end.

(** *** The port objects of each port *)

Definition add_port_object (parray : gmap Z (list Z)) (port a : Z) : gmap Z (list Z) :=
  let l := default [] (parray !! port) in
  if bool_decide (last l = Some a) then parray else <[port := l ++ [a]]> parray.

Fixpoint update_port_lists (parray : gmap Z (list Z)) (a : Z) (l : items) : gmap Z (list Z) :=
  match l with
  | [] => parray
  | poi :: l =>
      if item_any poi then parray
      else
        let parray :=
          if item_one poi then add_port_object parray (lport poi) a
          else fold_left (fun p port => add_port_object p port a) (port_range (lport poi) (hport poi)) parray in
        update_port_lists (add_port_object parray (lport poi) a) a l
  end.

Definition create_port_lists : gmap Z (list Z) :=
  fold_left (fun parray '(a, po) => update_port_lists parray a (item_list po)) polist ∅.

(** *** All ports *)

(** The loop over the ports: the objects, the array and the next id. *)
Definition merge_port (lcnt : Z) (lists : gmap Z (list Z)) (s : merge * gmap Z nat * Z) (i : Z) :
  option (merge * gmap Z nat * Z) :=
  let '(st, arr, id) := s in
  match take SFPO_MAX_LPORTS (default [] (lists !! i)) with
  | [] => Some (st, arr, id)
  | pol =>
      '(n, st) ← PortTableCompileMergePortObjectList2 st pol lcnt;
      let hp' := alter (fun ob => set_id ob id) n (heap st) in
      Some (MkMerge hp' (next st) (mhash st) (mhashx st), <[i := n]> arr, id + 1)
  end.
Fixpoint merge_ports (lcnt : Z) (lists : gmap Z (list Z)) (l : list Z) (s : merge * gmap Z nat * Z) :
  option (merge * gmap Z nat * Z) :=
  match l with
  | [] => Some s
  | i :: l => s ← merge_port lcnt lists s i; merge_ports lcnt lists l s
  end.

(** Bits for the objects of [mhashx]. *)
Definition new_bits (ob : PortObject2) : PortObject2 :=
  match port_list ob with Some _ => ob | None => set_ports ob (Some ∅) (port_cnt ob) end.
Definition new_port_list (m : gmap nat PortObject2) (n : nat) : gmap nat PortObject2 := alter new_bits n m.

(** The port counted at its object: a fatal error without bits. *)
Definition count_port (arr : gmap Z nat) (m : gmap nat PortObject2) (i : Z) : option (gmap nat PortObject2) :=
  match arr !! i with
  | None => Some m
  | Some n =>
      ob ← m !! n;
      match port_list ob with
      | None => None
      | Some pl => Some (<[n := set_ports ob (Some (set_bit i pl)) (port_cnt ob + 1)]> m)
      end
  end.
Fixpoint count_ports (arr : gmap Z nat) (l : list Z) (m : gmap nat PortObject2) : option (gmap nat PortObject2) :=
  match l with
  | [] => Some m
  | i :: l => m ← count_port arr m i; count_ports arr l m
  end.

(** The items of an object that is used: the ports that use it. *)
Definition final_object (ob : PortObject2) : PortObject2 :=
  if port_cnt ob =? 0 then ob
  else match port_list ob with
       | None => ob
       | Some pl => set_items2 (set_ports ob None (port_cnt ob)) (PortObjectItemListFromBits pl SFPO_MAX_PORTS)
       end.
Definition final_items (m : gmap nat PortObject2) (n : nat) : gmap nat PortObject2 := alter final_object n m.

(** The compiled part of a table. *)
Record compiled := MkCompiled {
  objects : gmap nat PortObject2;
  pt_mpo_hash : GHash nat nat;
  pt_mpxo_hash : GHash (list Z) nat;
  pt_port_object : gmap Z nat }.

Definition PortTableCompileMergePortObjects (lcnt : Z) : option compiled :=
  let st := MkMerge ∅ 0 (ghash_new PO_HASH_TBL_ROWS false) (ghash_new PO_HASH_TBL_ROWS false) in
  let ports := port_range 0 (SFPO_MAX_PORTS - 1) in
  '(st, arr, _) ← merge_ports lcnt create_port_lists ports (st, ∅, PO_INIT_ID);
  '(nodes, mx) ← ghash_iterate (mhashx st);
  let m := fold_left new_port_list nodes.*2 (heap st) in
  m ← count_ports arr ports m;
  '(nodes, mx) ← ghash_iterate mx;
  Some (MkCompiled (fold_left final_items nodes.*2 m) (mhash st) mx arr).

End Compile.

(** [None] inside: not optimised, nothing is built. *)
Definition PortTableCompile (hp hx : HashFnc) (hr : nat -> HashFnc) (p : PortTable) : option (option compiled) :=
  if pt_optimize p then Some <$> PortTableCompileMergePortObjects hp hx hr (pt_polist p) (pt_lrc p) else Some None.

(** ** The rules of an object *)

(** The rule hash [h] holds exactly the rules of [R], each under its own number. *)
Definition rset (f : HashFnc) (h : GHash Z Z) (R : gset Z) : Prop :=
  exists rm : gmap Z Z, refines (po_rule_hash_func f) h rm /\ (forall r d, rm !! r = Some d <-> r ∈ R /\ d = r).

Definition small_set (R : gset Z) : Prop := Z.of_nat (size R) + 1 < 4294967296.

Lemma small_subset R R' : R ⊆ R' -> small_set R' -> small_set R.
Proof. intros H%subseteq_size. unfold small_set. lia. Qed.

Lemma rset_size (rm : gmap Z Z) (R : gset Z) : (forall r d, rm !! r = Some d <-> r ∈ R /\ d = r) -> size rm = size R.
Proof.
  intros H. rewrite <- size_dom. f_equal. apply set_eq. intros r. rewrite elem_of_dom. unfold is_Some. naive_solver.
Qed.

Lemma rset_new f n : 0 < n -> rset f (ghash_new n true) ∅.
Proof. intros Hn. exists ∅. split; [apply grefines_new; lia|]. intros r d. rewrite lookup_empty. set_solver. Qed.

Lemma rset_add f h R r : rset f h R -> small_set R -> rset f (add_rule f h r) ({[r]} ∪ R).
Proof.
  intros (rm & Hr & Hm) Hs. pose proof (rset_size _ _ Hm) as Hsz. unfold small_set in Hs.
  pose proof (grefines_add (po_rule_hash_func f) rule_keycmp ltac:(done) h rm r r Hr ltac:(lia)) as Ha.
  unfold add_rule. destruct (ghash_add _ _ _ _ _) as [s h']. cbn [snd]. destruct (rm !! r) as [d|] eqn:E; destruct Ha as [_ Ha].
  - exists rm. split; [done|]. apply Hm in E as [? ->]. intros r' d'. rewrite Hm. set_solver.
  - exists (<[r := r]> rm). split; [done|]. intros r' d'. destruct (decide (r' = r)) as [->|].
    + rewrite lookup_insert_eq. set_solver.
    + rewrite lookup_insert_ne by done. rewrite Hm. set_solver.
Qed.

Lemma rset_adds f l : forall h R, rset f h R -> small_set (R ∪ list_to_set l) -> rset f (add_rules f h l) (R ∪ list_to_set l).
Proof.
  induction l as [|r l IH]; intros h R Hr Hs; cbn [add_rules fold_left list_to_set].
  - by rewrite union_empty_r_L.
  - replace (R ∪ ({[r]} ∪ list_to_set l)) with (({[r]} ∪ R) ∪ list_to_set l) by set_solver. apply IH.
    + apply rset_add; [done|]. eapply small_subset; [|done]. set_solver.
    + eapply small_subset; [|done]. set_solver.
Qed.

Lemma rset_iterate f h R : rset f h R -> exists l h', ghash_iterate h = Some (l, h') /\ rset f h' R /\ list_to_set l.*2 = R.
Proof.
  intros (rm & [Hr Hp He Hc] & Hm). destruct (ghash_iterate_spec h) as (h' & Hi & Ht & Hn & Hct).
  { rewrite Hc. unfold Zlen. by rewrite He, length_map_to_list. }
  exists (elements h), h'. split; [done|]. split.
  - exists rm. split; [|done]. split; [by rewrite Hn| | |by rewrite Hct].
    + intros i k d. unfold row, index. rewrite Ht, Hn. apply Hp.
    + unfold elements, nodes_from, row. rewrite Ht, Hn. apply He.
  - apply set_eq. intros r. rewrite elem_of_list_to_set, list_elem_of_fmap. split.
    + intros ([k d] & -> & Hin). rewrite He, elem_of_map_to_list, Hm in Hin. simpl. naive_solver.
    + intros Hin. exists (r, r). split; [done|]. rewrite He, elem_of_map_to_list. naive_solver.
Qed.

(** The code's test for a rule. *)
Definition rule_in (ob : PortObject2) (r : Z) : bool :=
  bool_decide (is_Some (ghash_find (po_rule_hash_func (fnc ob)) rule_keycmp (rule_hash ob) r)).

Lemma rset_find ob R r : rset (fnc ob) (rule_hash ob) R -> rule_in ob r = true <-> r ∈ R.
Proof.
  intros (rm & Hr & Hm). unfold rule_in. rewrite bool_decide_eq_true, (grefines_find _ rule_keycmp ltac:(done) _ rm r Hr).
  unfold is_Some. naive_solver.
Qed.

(** ** Merging keeps every rule *)

Lemma length_port_range lo hi : length (port_range lo hi) = Z.to_nat (hi - lo + 1).
Proof. unfold port_range. generalize (Z.to_nat (hi - lo + 1)). intros n. revert lo. induction n as [|n IH]; intros lo; [done|]. simpl. by rewrite IH. Qed.

#[local] Opaque port_range.

Section Merge.
Variable hp hx : HashFnc.
Variable hr : nat -> HashFnc.
Variable polist : list (Z * PortObject).

Abbreviation obj := (obj polist).
Abbreviation plx_hash := (plx_hash hx).

Definition rules_of (a : Z) : gset Z := list_to_set (from_option rule_list [] (obj a)).
Definition rules_in (pol : list Z) : gset Z := ⋃ (map rules_of pol).
Definition all_rules : gset Z := rules_in (map fst polist).

Lemma obj_in a po : obj a = Some po -> (a, po) ∈ polist.
Proof.
  unfold PortTable.obj. intros ([a' po'] & Hf & ->)%fmap_Some. apply List.find_some in Hf as [Hin E].
  simpl in *. breflect. subst. by apply list_elem_of_In.
Qed.
Lemma elem_of_rules_in pol r : r ∈ rules_in pol <-> exists a, a ∈ pol /\ r ∈ rules_of a.
Proof.
  unfold rules_in. rewrite elem_of_union_list. split.
  - intros (X & HX & Hr). apply list_elem_of_In, List.in_map_iff in HX as (a & <- & Ha%list_elem_of_In). eauto.
  - intros (a & Ha & Hr). exists (rules_of a). split; [|done]. apply list_elem_of_In, List.in_map. by apply list_elem_of_In.
Qed.
Lemma rules_in_all pol : rules_in pol ⊆ all_rules.
Proof.
  intros r (a & Ha & Hr)%elem_of_rules_in. apply elem_of_rules_in. exists a. split; [|done].
  unfold rules_of in Hr. destruct (obj a) as [po|] eqn:E; [|cbn in Hr; set_solver].
  apply obj_in in E. apply list_elem_of_In, List.in_map_iff. exists (a, po). split; [done|by apply list_elem_of_In].
Qed.

Hypothesis few_rules : small_set all_rules.

Lemma small_rules R : R ⊆ all_rules -> small_set R.
Proof. intros H. by eapply small_subset. Qed.

(** A new object: its rules are known and its ports are not collected yet. *)
Record fresh_obj (ob : PortObject2) (R : gset Z) : Prop := {
  fo_rules : rset (fnc ob) (rule_hash ob) R;
  fo_all : R ⊆ all_rules;
  fo_list : port_list ob = None;
  fo_cnt : port_cnt ob = 0 }.

Lemma fresh_items ob R l : fresh_obj ob R -> fresh_obj (set_items2 ob l) R.
Proof. by intros [? ? ? ?]. Qed.

Lemma rules_of_obj a po : obj a = Some po -> rules_of a = list_to_set (rule_list po).
Proof. unfold rules_of. by intros ->. Qed.
Lemma rules_of_all a : rules_of a ⊆ all_rules.
Proof. intros r Hr. apply (rules_in_all [a]), elem_of_rules_in. exists a. split; [set_solver|done]. Qed.

Lemma Dup_fresh f a po : obj a = Some po -> fresh_obj (PortObject2Dup f po) (rules_of a).
Proof.
  intros E. split; [|apply rules_of_all|done|done]. rewrite (rules_of_obj _ _ E).
  pose proof (rset_new f (Zlen (rule_list po) + PO_EXTRA_RULE_CNT)) as Hn. cbn [fnc rule_hash PortObject2Dup PortObject2New].
  replace (list_to_set (rule_list po)) with (∅ ∪ list_to_set (rule_list po) : gset Z) by set_solver.
  apply rset_adds; [apply Hn; unfold PO_EXTRA_RULE_CNT; pose proof (Zlen_nonneg (rule_list po)); lia|].
  apply small_rules. rewrite <- (rules_of_obj _ _ E). pose proof (rules_of_all a). set_solver.
Qed.

Lemma AppendEx2_fresh ob R a po : obj a = Some po -> fresh_obj ob R -> fresh_obj (PortObjectAppendEx2 ob po) (R ∪ rules_of a).
Proof.
  intros E [H1 H2 H3 H4]. pose proof (rules_of_all a). split; [|set_solver|done|done].
  rewrite (rules_of_obj _ _ E) in *. apply rset_adds; [done|]. apply small_rules. set_solver.
Qed.

Lemma merged_fresh n pol pos : pol <> [] -> mapM obj pol = Some pos -> exists ob, merged hr n pos = Some ob /\ fresh_obj ob (rules_in pol).
Proof.
  intros Hne Hm. destruct pol as [|a pol]; [done|]. cbn in Hm. apply bind_Some in Hm as (po & Ea & Hm).
  apply bind_Some in Hm as (pos' & Em & [= <-]).
  assert (fresh_obj (fold_left PortObjectAppendEx2 pos' (PortObject2Dup (hr n) po)) (rules_in (a :: pol))) as Hf.
  { replace (rules_in (a :: pol)) with (rules_of a ∪ rules_in pol) by done.
    pose proof (Dup_fresh (hr n) a po Ea) as Hd. revert Hd. generalize (PortObject2Dup (hr n) po) (rules_of a).
    clear Ea Hne. revert pos' Em. induction pol as [|b pol IH]; intros pos' Em ob R Hd; cbn in Em.
    - injection Em as <-. simpl. replace (R ∪ rules_in []) with R by (cbn; set_solver). done.
    - apply bind_Some in Em as (pb & Eb & Em). apply bind_Some in Em as (pos & Em & [= <-]). cbn [fold_left].
      replace (R ∪ rules_in (b :: pol)) with ((R ∪ rules_of b) ∪ rules_in pol) by (cbn; set_solver).
      apply IH; [done|]. by apply AppendEx2_fresh. }
  destruct pos' as [|p2 pos']; (eexists; split; [reflexivity|]); [done|by apply fresh_items].
Qed.

Lemma Append2_fresh a R b Q : fresh_obj a R -> fresh_obj b Q ->
  exists a' b', PortObject2AppendPortObject2 a b = Some (a', b') /\ fresh_obj a' (R ∪ Q) /\ fresh_obj b' Q.
Proof.
  intros [H1 H2 H3 H4] [K1 K2 K3 K4]. destruct (rset_iterate _ _ _ K1) as (l & h & Hi & Hh & Hl).
  unfold PortObject2AppendPortObject2. rewrite Hi. do 2 eexists. split; [reflexivity|]. split; split; try done; [|set_solver].
  cbn [fnc rule_hash set_rules]. rewrite <- Hl. apply rset_adds; [done|]. rewrite Hl. apply small_rules. set_solver.
Qed.

(** [R] has the rules of every object, [X] the objects of the lists merged so
    far; the rules of a list are in its object. *)
Record merging (st : merge) (X : gmap (list Z) nat) (R : gmap nat (gset Z)) : Prop := {
  mg_heap : forall n S, R !! n = Some S -> exists ob, heap st !! n = Some ob /\ fresh_obj ob S;
  mg_next : forall n, (next st <= n)%nat -> R !! n = None;
  mg_rows : 0 < nrows (mhash st);
  mg_mhash : forall k d, (k, d) ∈ elements (mhash st) -> is_Some (R !! d);
  mg_x : refines plx_hash (mhashx st) X;
  mg_rules : forall pol n, X !! pol = Some n -> exists S, R !! n = Some S /\ rules_in pol ⊆ S;
  mg_in : forall pol n, X !! pol = Some n -> exists k, (k, n) ∈ elements (mhash st);
  mg_count : count (mhash st) = Zlen (elements (mhash st));
  mg_size : (length (elements (mhash st)) <= size X)%nat }.

Implicit Types (R : gmap nat (gset Z)) (X : gmap (list Z) nat).

(** Rules are added, never lost. *)
Definition grows (R R' : gmap nat (gset Z)) : Prop := forall n S, R !! n = Some S -> exists S', R' !! n = Some S' /\ S ⊆ S'.

#[local] Instance grows_preorder : PreOrder grows.
Proof.
  split; [by intros R n S H; exists S|]. intros R1 R2 R3 H1 H2 n S HS.
  destruct (H1 n S HS) as (S' & HS' & Hs). destruct (H2 n S' HS') as (S'' & HS'' & Hs'). exists S''. split; [done|set_solver].
Qed.

Lemma grows_insert R n S : (forall S0, R !! n = Some S0 -> S0 ⊆ S) -> grows R (<[n := S]> R).
Proof.
  intros H m T HT. destruct (decide (m = n)) as [->|]; [exists S; rewrite lookup_insert_eq; auto|].
  exists T. by rewrite lookup_insert_ne.
Qed.

Lemma grows_rules R R' (X : gmap (list Z) nat) : grows R R' -> (forall (pol : list Z) n, X !! pol = Some n -> exists S, R !! n = Some S /\ rules_in pol ⊆ S) ->
  forall (pol : list Z) n, X !! pol = Some n -> exists S, R' !! n = Some S /\ rules_in pol ⊆ S.
Proof.
  intros Hg H pol n Hp. destruct (H pol n Hp) as (S & HS & Hs). destruct (Hg n S HS) as (S' & HS' & Hs'). exists S'. split; [done|set_solver].
Qed.

Lemma merging_heap st X R hp' R' : merging st X R -> grows R R' ->
  (forall n S, R' !! n = Some S -> exists ob, hp' !! n = Some ob /\ fresh_obj ob S) ->
  (forall n, (next st <= n)%nat -> R' !! n = None) ->
  merging (MkMerge hp' (next st) (mhash st) (mhashx st)) X R'.
Proof.
  intros [H1 H2 H3 H4 H5 H6 H7 H8 H9] Hg Hh Hn. split; try done.
  - intros k d Hin. destruct (H4 k d Hin) as [S HS]. destruct (Hg d S HS) as (S' & HS' & _). by exists S'.
  - by eapply grows_rules.
Qed.

(** Entering a new object, or giving its rules to one with the same ports. *)
Lemma enter_spec st X R ob S : merging st X R -> fresh_obj ob S -> Z.of_nat (size X) + 1 < 4294967296 ->
  let n := next st in let hp' := <[n := ob]> (heap st) in
  exists m hp'' mh R',
    match ghash_add (PortObject_hash hp hp') (PortObject_keycmp hp') (mhash st) n n with
    | (GHASH_OK, mh) => Some (n, hp', mh)
    | (GHASH_INTABLE, mh) =>
        pox ← ghash_find (PortObject_hash hp hp') (PortObject_keycmp hp') mh n;
        obx ← hp' !! pox;
        '(obx, _) ← PortObject2AppendPortObject2 obx ob;
        Some (pox, delete n (<[pox := obx]> hp'), mh)
    | _ => None
    end = Some (m, hp'', mh) /\
    grows R R' /\ (exists T, R' !! m = Some T /\ S ⊆ T) /\
    (forall k T, R' !! k = Some T -> exists ob, hp'' !! k = Some ob /\ fresh_obj ob T) /\
    (forall k, (n < k)%nat -> R' !! k = None) /\ 0 < nrows mh /\
    (forall k d, (k, d) ∈ elements mh -> is_Some (R' !! d)) /\ (exists k, (k, m) ∈ elements mh) /\
    (forall x, x ∈ elements (mhash st) -> x ∈ elements mh) /\
    count mh = Zlen (elements mh) /\ (length (elements mh) <= 1 + size X)%nat.
Proof.
  intros Hmg Hob Hsz n hp'. pose proof Hmg as [H1 H2 H3 H4 H5 H6 H7 H8 H9].
  assert (R !! n = None) as Hn by (apply H2; done).
  pose proof (ghash_add_spec (PortObject_hash hp hp') (PortObject_keycmp hp') (mhash st) n n H3) as Ha.
  destruct (ghash_add _ _ _ _ _) as [[] mh]; [|done|].
  - destruct Ha as (_ & He & Hr & Hct & _). exists n, hp', mh, (<[n := S]> R). split; [done|].
    split; [apply grows_insert; congruence|]. split; [exists S; by rewrite lookup_insert_eq|]. split_and!.
    + intros k T. unfold hp'. destruct (decide (k = n)) as [->|].
      * rewrite !lookup_insert_eq. intros [= <-]. eauto.
      * rewrite !lookup_insert_ne by done. apply H1.
    + intros k Hk. rewrite lookup_insert_ne by lia. apply H2. unfold n in *. lia.
    + by rewrite Hr.
    + intros k d. rewrite He, elem_of_cons. intros [[= -> ->]|Hin]; [by rewrite lookup_insert_eq|].
      destruct (H4 k d Hin) as [T HT]. rewrite lookup_insert_ne by congruence. by exists T.
    + exists n. rewrite He. set_solver.
    + intros x Hx. rewrite He. set_solver.
    + rewrite Hct, H8. unfold Zlen in *. rewrite He. cbn [length]. rewrite u32_small; unfold is_u32; lia.
    + rewrite He. cbn [length]. lia.
  - destruct Ha as (Hf & Ht & Hr & Hct).
    assert (elements mh = elements (mhash st)) as Heq by (unfold elements, nodes_from, row; by rewrite Ht, Hr).
    assert (ghash_find (PortObject_hash hp hp') (PortObject_keycmp hp') mh n = ghash_find (PortObject_hash hp hp') (PortObject_keycmp hp') (mhash st) n) as Hfe.
    { unfold ghash_find, ghash_find_node, index, row. by rewrite Ht, Hr. }
    destruct Hf as [pox Hf]. rewrite Hfe, Hf. cbn [mbind option_bind].
    destruct (ghash_find_elements _ _ _ _ _ H3 Hf) as (k' & Hin & _). destruct (H4 _ _ Hin) as [Q HQ].
    assert (pox <> n) as Hpn by congruence. destruct (H1 _ _ HQ) as (obx & Hx & Hxf).
    assert (hp' !! pox = Some obx) as Hpx by (unfold hp'; by rewrite lookup_insert_ne). rewrite Hpx. cbn [mbind option_bind].
    destruct (Append2_fresh _ _ _ _ Hxf Hob) as (a' & b' & Hap & Ha' & _). rewrite Hap. cbn [mbind option_bind].
    exists pox, (delete n (<[pox := a']> hp')), mh, (<[pox := Q ∪ S]> R). split; [done|].
    split; [apply grows_insert; intros ? E; simplify_eq; set_solver|]. split; [exists (Q ∪ S); rewrite lookup_insert_eq; set_solver|]. split_and!.
    + intros k T HT. destruct (decide (k = n)) as [->|]; [rewrite lookup_insert_ne in HT; congruence|].
      rewrite lookup_delete_ne by done. destruct (decide (k = pox)) as [->|].
      * rewrite lookup_insert_eq in HT. injection HT as <-. exists a'. by rewrite lookup_insert_eq.
      * rewrite lookup_insert_ne in HT by done. unfold hp'. rewrite !lookup_insert_ne by done. by apply H1.
    + intros k Hk. assert (R !! k = None) as Hk' by (apply H2; unfold n in *; lia). rewrite lookup_insert_ne; [done|congruence].
    + by rewrite Hr.
    + intros k d. rewrite Heq. intros Hkd. destruct (H4 _ _ Hkd) as [T HT]. destruct (decide (d = pox)) as [->|]; [by rewrite lookup_insert_eq|].
      rewrite lookup_insert_ne by done. by exists T.
    + exists k'. by rewrite Heq.
    + intros x. by rewrite Heq.
    + by rewrite Hct, Heq.
    + rewrite Heq. lia.
Qed.

Lemma refines_size_add (t : GHash (list Z) nat) X pol n : refines plx_hash t X -> Z.of_nat (size X) + 1 < 4294967296 -> X !! pol = None ->
  exists t', ghash_add plx_hash plx_keycmp t pol n = (GHASH_OK, t') /\ refines plx_hash t' (<[pol := n]> X) /\
    ghash_find plx_hash plx_keycmp t' pol = Some n.
Proof.
  intros Ht Hs HX. pose proof (grefines_add plx_hash plx_keycmp ltac:(done) t X pol n Ht Hs) as Ha.
  rewrite HX in Ha. destruct (ghash_add _ _ _ _ _) as [r t']. destruct Ha as [-> Ha]. exists t'. split; [done|]. split; [done|].
  by rewrite (grefines_find _ plx_keycmp ltac:(done) _ _ _ Ha), lookup_insert_eq.
Qed.

(** Merging a list of objects never fails, and its object has their rules. *)
Lemma merge_N_pol_spec st X R pol pos : merging st X R -> pol <> [] -> mapM obj pol = Some pos -> Z.of_nat (size X) + 1 < 4294967296 ->
  exists n st' X' R', _merge_N_pol hp hx hr polist st pol = Some (n, st') /\ merging st' X' R' /\ grows R R' /\
    X' !! pol = Some n /\ X ⊆ X' /\ (size X' <= S (size X))%nat.
Proof.
  intros Hmg Hne Hpos Hs. pose proof Hmg as [H1 H2 H3 H4 H5 H6 H7 H8 H9]. unfold _merge_N_pol.
  rewrite (grefines_find _ plx_keycmp ltac:(done) _ X pol H5). destruct (X !! pol) as [n|] eqn:EX.
  - exists n, st, X, R. split_and!; [done|done|reflexivity|done|done|lia].
  - rewrite Hpos. cbn [mbind option_bind]. destruct (merged_fresh (next st) pol pos Hne Hpos) as (ob & -> & Hob). cbn [mbind option_bind].
    destruct (enter_spec st X R ob _ Hmg Hob Hs) as (m & hp'' & mh & R' & -> & Hg & (T & HT & HsT) & Hh & Hnx & Hrw & Hmh & Hm & Hkeep & Hct & Hlen).
    cbn [mbind option_bind].
    destruct (refines_size_add (mhashx st) X pol m H5 Hs EX) as (mx & -> & Hx & Hf). rewrite bool_decide_true by done.
    exists m, (MkMerge hp'' (S (next st)) mh mx), (<[pol := m]> X), R'.
    split; [done|]. split; [|split_and!; [done|by rewrite lookup_insert_eq|by apply insert_subseteq|rewrite map_size_insert_None by done; lia]].
    split; try done.
    + intros pol' n'. destruct (decide (pol' = pol)) as [->|].
      * rewrite lookup_insert_eq. intros [= <-]. eauto.
      * rewrite lookup_insert_ne by done. by eapply grows_rules.
    + intros pol' n'. destruct (decide (pol' = pol)) as [->|].
      * rewrite lookup_insert_eq. by intros [= <-].
      * rewrite lookup_insert_ne by done. intros Hp'. destruct (H7 _ _ Hp') as [k Hk]. exists k. by apply Hkeep.
    + cbn [mhash]. rewrite map_size_insert_None by done. lia.
Qed.

Lemma sorted_part (f : Z -> bool) (pol : list Z) a : (length pol <= SFPO_MAX_LPORTS)%nat ->
  a ∈ merge_sort Z.le (take SFPO_MAX_LPORTS (List.filter f pol)) <-> a ∈ pol /\ f a = true.
Proof.
  intros Hl. rewrite merge_sort_Permutation, take_ge by (pose proof (List.filter_length_le f pol); lia).
  rewrite !list_elem_of_In. apply List.filter_In.
Qed.

Lemma objects_found (l : list Z) : (forall a, a ∈ l -> is_Some (obj a)) -> exists pos, mapM obj l = Some pos.
Proof. intros H. apply mapM_is_Some_2, Forall_forall. done. Qed.

Lemma rules_in_subset (l k : list Z) (T : gset Z) : (forall a, a ∈ l -> a ∈ k) -> rules_in k ⊆ T -> rules_in l ⊆ T.
Proof. intros H HT r (a & Ha & Hr)%elem_of_rules_in. apply HT, elem_of_rules_in. eauto. Qed.

(** The object of a port has the rules of all port objects of the port. *)
Lemma merge_list2_spec st X R pol lcnt : merging st X R -> pol <> [] -> (forall a, a ∈ pol -> is_Some (obj a)) ->
  (length pol <= SFPO_MAX_LPORTS)%nat -> Z.of_nat (size X) + 2 < 4294967296 ->
  exists n st' X' R', PortTableCompileMergePortObjectList2 hp hx hr polist st pol lcnt = Some (n, st') /\ merging st' X' R' /\ grows R R' /\
    (exists T, R' !! n = Some T /\ rules_in pol ⊆ T) /\ (exists pl, X' !! pl = Some n) /\ X ⊆ X' /\ (size X' <= 2 + size X)%nat.
Proof.
  intros Hmg Hne Hobj Hlen Hs. unfold PortTableCompileMergePortObjectList2.
  pose proof (fun a => sorted_part (fun a => rule_count polist a >=? lcnt) pol a Hlen) as Hlarge.
  pose proof (fun a => sorted_part (fun a => negb (rule_count polist a >=? lcnt)) pol a Hlen) as Hsmall.
  revert Hlarge Hsmall. generalize (merge_sort Z.le (take SFPO_MAX_LPORTS (List.filter (fun a => rule_count polist a >=? lcnt) pol))).
  generalize (merge_sort Z.le (take SFPO_MAX_LPORTS (List.filter (fun a => negb (rule_count polist a >=? lcnt)) pol))).
  intros small large Hlarge Hsmall.
  assert (forall a, a ∈ pol -> a ∈ large \/ a ∈ small) as Hsplit.
  { intros a Ha. rewrite Hlarge, Hsmall. destruct (rule_count polist a >=? lcnt); auto. }
  assert (forall a, a ∈ large -> is_Some (obj a)) as Hol by (intros a [? _]%Hlarge; auto).
  assert (forall a, a ∈ small -> is_Some (obj a)) as Hos by (intros a [? _]%Hsmall; auto).
  destruct (objects_found large Hol) as [pl Hpl], (objects_found small Hos) as [ps Hps].
  destruct large as [|x large]; [destruct small as [|y small]|destruct small as [|y small]].
  - exfalso. destruct pol as [|a pol]; [done|]. destruct (Hsplit a ltac:(set_solver)); set_solver.
  - destruct (merge_N_pol_spec st X R (y :: small) ps Hmg ltac:(done) Hps ltac:(lia)) as (n & st' & X' & R' & -> & Hmg' & Hg & HX & Hsub & Hsz).
    exists n, st', X', R'. split_and!; try done; [|by eexists|lia]. destruct (mg_rules _ _ _ Hmg' _ _ HX) as (T & HT & Hr).
    exists T. split; [done|]. eapply rules_in_subset; [|done]. intros a Ha. destruct (Hsplit a Ha); set_solver.
  - destruct (merge_N_pol_spec st X R (x :: large) pl Hmg ltac:(done) Hpl ltac:(lia)) as (n & st' & X' & R' & -> & Hmg' & Hg & HX & Hsub & Hsz).
    exists n, st', X', R'. split_and!; try done; [|by eexists|lia]. destruct (mg_rules _ _ _ Hmg' _ _ HX) as (T & HT & Hr).
    exists T. split; [done|]. eapply rules_in_subset; [|done]. intros a Ha. destruct (Hsplit a Ha); set_solver.
  - destruct (merge_N_pol_spec st X R (x :: large) pl Hmg ltac:(done) Hpl ltac:(lia)) as (n & st1 & X1 & R1 & -> & Hmg1 & Hg1 & HX1 & Hsub1 & Hsz1).
    cbn [mbind option_bind].
    destruct (merge_N_pol_spec st1 X1 R1 (y :: small) ps Hmg1 ltac:(done) Hps ltac:(lia)) as (k & st2 & X2 & R2 & -> & Hmg2 & Hg2 & HX2 & Hsub2 & Hsz2).
    cbn [mbind option_bind].
    assert (X2 !! (x :: large) = Some n) as HX1' by (by eapply lookup_weaken).
    destruct (mg_rules _ _ _ Hmg2 _ _ HX1') as (T & HT & HrT). destruct (mg_rules _ _ _ Hmg2 _ _ HX2) as (Q & HQ & HrQ).
    case_bool_decide as Enk.
    + subst k. exists n, st2, X2, R2. split_and!; [done|done|by transitivity R1| |by eexists|by transitivity X1|lia].
      exists T. split; [done|]. simplify_eq. intros r (a & Ha & Hr)%elem_of_rules_in. destruct (Hsplit a Ha) as [Hin|Hin].
      * apply HrT, elem_of_rules_in. eauto.
      * apply HrQ, elem_of_rules_in. eauto.
    + destruct (mg_heap _ _ _ Hmg2 _ _ HT) as (ol & Hol' & Hfl). destruct (mg_heap _ _ _ Hmg2 _ _ HQ) as (os & Hos' & Hfs).
      rewrite Hol'. cbn [mbind option_bind]. rewrite Hos'. cbn [mbind option_bind].
      destruct (Append2_fresh _ _ _ _ Hfl Hfs) as (l' & s' & -> & Hl' & Hs'). cbn [mbind option_bind].
      exists n, (MkMerge (<[k := set_items2 s' (PortObjectRemovePorts (items2 s') (items2 l'))]> (<[n := l']> (heap st2))) (next st2) (mhash st2) (mhashx st2)),
        X2, (<[n := T ∪ Q]> R2).
      assert (grows R2 (<[n := T ∪ Q]> R2)) as Hg3 by (apply grows_insert; intros ? ?; simplify_eq; set_solver).
      split; [done|]. split; [apply (merging_heap st2 X2 R2 _ _ Hmg2 Hg3)|split_and!].
      * intros m U. destruct (decide (m = k)) as [->|].
        { rewrite lookup_insert_ne by done. rewrite lookup_insert_eq, HQ. intros [= <-]. eexists. split; [done|]. by apply fresh_items. }
        rewrite (lookup_insert_ne _ k) by done. destruct (decide (m = n)) as [->|].
        { rewrite !lookup_insert_eq. intros [= <-]. eauto. }
        rewrite !lookup_insert_ne by done. apply (mg_heap _ _ _ Hmg2).
      * intros m Hm. pose proof (mg_next _ _ _ Hmg2 m Hm). rewrite lookup_insert_ne; [done|congruence].
      * transitivity R1; [done|]. by transitivity R2.
      * exists (T ∪ Q). rewrite lookup_insert_eq. split; [done|]. intros r (a & Ha & Hr)%elem_of_rules_in.
        apply elem_of_union. destruct (Hsplit a Ha) as [Hin|Hin]; [left; apply HrT|right; apply HrQ]; apply elem_of_rules_in; eauto.
      * by exists (x :: large).
      * by transitivity X1.
      * lia.
Qed.

(** *** The port objects of a port, in order *)

Definition at_port (parray : gmap Z (list Z)) (i : Z) : list Z := default [] (parray !! i).
Definition push (a : Z) (l : list Z) : list Z := if bool_decide (last l = Some a) then l else l ++ [a].

Lemma push_twice a l : push a (push a l) = push a l.
Proof.
  unfold push. destruct (decide (last l = Some a)) as [E|E].
  - by rewrite !(bool_decide_true (last l = Some a)).
  - rewrite (bool_decide_false (last l = Some a)) by done. rewrite bool_decide_true; [done|]. by rewrite last_snoc.
Qed.

Lemma at_add parray port a i : at_port (add_port_object parray port a) i = if decide (i = port) then push a (at_port parray i) else at_port parray i.
Proof.
  unfold add_port_object, at_port, push. destruct (decide (i = port)) as [->|]; case_bool_decide; try done.
  - by rewrite lookup_insert_eq.
  - by rewrite lookup_insert_ne.
Qed.

Lemma at_add_range l a i : forall parray, at_port (fold_left (fun p port => add_port_object p port a) l parray) i =
  if decide (i ∈ l) then push a (at_port parray i) else at_port parray i.
Proof.
  induction l as [|port l IH]; intros parray; cbn [fold_left]; [done|]. rewrite IH, at_add.
  destruct (decide (i ∈ l)), (decide (i = port)), (decide (i ∈ port :: l)); try done; try set_solver. by rewrite push_twice.
Qed.

Lemma at_update a (items : list PortObjectItem) i : Forall (fun p => negate p = false /\ lport p <= hport p) items -> PortObjectHasAny items = false ->
  forall parray, at_port (update_port_lists parray a items) i = if listed false items i then push a (at_port parray i) else at_port parray i.
Proof.
  induction items as [|poi l IH]; intros Hn Ha parray; [done|]. cbn in Ha. apply orb_false_iff in Ha as [Hany Ha].
  apply Forall_cons in Hn as [[Hneg Hle] Hn]. cbn [update_port_lists]. rewrite Hany, IH, at_add by done. rewrite listed_cons, Hneg.
  cbn [eqb andb]. set (p' := if item_one poi then _ else _).
  assert (at_port p' i = if item_has i poi then push a (at_port parray i) else at_port parray i) as Hp.
  { transitivity (if decide (i ∈ port_range (lport poi) (hport poi)) then push a (at_port parray i) else at_port parray i).
    - unfold p', item_one. bcase (lport poi =? hport poi) as E; [|apply at_add_range]. rewrite at_add.
      destruct (decide (i = lport poi)), (decide (i ∈ _)) as [Hi|Hi]; rewrite elem_of_port_range in Hi; try done; lia.
    - pose proof (item_has_range poi i) as Hh. destruct (decide (i ∈ _)), (item_has i poi); try done; naive_solver. }
  rewrite Hp. clear p' Hp. destruct (decide (i = lport poi)) as [Ei|].
  - replace (item_has i poi) with true by (symmetry; unfold item_has; apply andb_true_intro; lia).
    cbn [orb]. by destruct (listed false l i); rewrite ?push_twice.
  - by destruct (item_has i poi), (listed false l i); cbn [orb]; rewrite ?push_twice.
Qed.

(** Every object is a normalised list that is not "any". *)
Definition objects_ok : Prop := Forall (fun x => canonical 0 (item_list x.2) /\ PortObjectHasAny (item_list x.2) = false) polist.
Hypothesis Hpo : objects_ok.
Hypothesis Haddr : NoDup (map fst polist).

Definition users (i : Z) : list Z := map fst (List.filter (fun x => listed false (item_list x.2) i) polist).

Lemma create_port_lists_spec i : at_port (create_port_lists polist) i = users i.
Proof.
  unfold create_port_lists, users. unfold objects_ok in Hpo.
  enough (forall l parray, Forall (fun x => canonical 0 (item_list x.2) /\ PortObjectHasAny (item_list x.2) = false) l -> NoDup (map fst l) ->
    (forall a, a ∈ map fst l -> a ∉ at_port parray i) ->
    at_port (fold_left (fun parray '(a, po) => update_port_lists parray a (item_list po)) l parray) i =
    at_port parray i ++ map fst (List.filter (fun x => listed false (item_list x.2) i) l)) as H.
  { rewrite (H polist ∅); [done|done|done|]. intros a _. unfold at_port. rewrite lookup_empty. set_solver. }
  induction l as [|[a po] l IH]; intros parray Hl Hnd Hfr; cbn [fold_left map List.filter fst snd]; [by rewrite app_nil_r|].
  apply Forall_cons in Hl as [[Hc Ha] Hl]. cbn [map fst] in Hnd, Hfr. apply NoDup_cons in Hnd as [Hna Hnd].
  assert (at_port (update_port_lists parray a (item_list po)) i = at_port parray i ++ (if listed false (item_list po) i then [a] else [])) as Hu.
  { rewrite at_update; [|eapply Forall_impl; [by eapply canonical_from|]; simpl; naive_solver lia|done].
    destruct (listed false (item_list po) i); [|by rewrite app_nil_r]. unfold push. rewrite bool_decide_false; [done|].
    intros Hlast%last_Some_elem_of. apply (Hfr a); [set_solver|done]. }
  rewrite IH; [|done|done|].
  - rewrite Hu, <- app_assoc. by destruct (listed false (item_list po) i).
  - intros b Hb. rewrite Hu, not_elem_of_app. split; [apply Hfr; set_solver|].
    destruct (listed false (item_list po) i); set_solver.
Qed.

Lemma users_obj i a : a ∈ users i -> exists po, obj a = Some po /\ (a, po) ∈ polist /\ listed false (item_list po) i = true.
Proof.
  unfold users. rewrite list_elem_of_In, List.in_map_iff. intros ([a' po] & <- & [Hin Hl]%List.filter_In). simpl in *. exists po.
  split; [|split; [by apply list_elem_of_In|done]]. unfold PortTable.obj. clear Hl Hpo few_rules i. revert Haddr.
  induction polist as [|[b pb] l IH]; [done|]. cbn [map fst List.find]. intros [Hnb Hnd]%NoDup_cons. destruct Hin as [[= -> ->]|Hin].
  - rewrite Z.eqb_refl. done.
  - bcase (b =? a') as E; [|by apply IH]. subst. exfalso. apply Hnb. apply list_elem_of_In, List.in_map_iff. by exists (a', po).
Qed.

(** *** All ports *)

(** After the ports [l]: exactly those with a port object have an object, which
    has all their rules and is in [mhashx]. *)
Record swept (s : merge * gmap Z nat * Z) X R (l : list Z) : Prop := {
  sw_merging : merging s.1.1 X R;
  sw_some : forall i n, s.1.2 !! i = Some n -> i ∈ l /\ users i <> [] /\
    (exists T, R !! n = Some T /\ rules_in (users i) ⊆ T) /\ (exists pl, X !! pl = Some n);
  sw_none : forall i, i ∈ l -> users i <> [] -> is_Some (s.1.2 !! i);
  sw_size : (size X <= 2 * length l)%nat }.

Lemma fresh_id ob S i : fresh_obj ob S -> fresh_obj (set_id ob i) S.
Proof. by intros [? ? ? ?]. Qed.

Lemma merge_port_spec lcnt s X R l i : swept s X R l -> (length (users i) <= SFPO_MAX_LPORTS)%nat -> Z.of_nat (length l) < 65536 ->
  exists s' X' R', merge_port hp hx hr polist lcnt (create_port_lists polist) s i = Some s' /\ swept s' X' R' (i :: l).
Proof.
  intros [Hmg Hsome Hnone Hsz] Hlen Hll. destruct s as [[st arr] id]. cbn [fst snd] in *. unfold merge_port.
  change (default [] (create_port_lists polist !! i)) with (at_port (create_port_lists polist) i).
  rewrite create_port_lists_spec, take_ge by done.
  pose proof (fun a => users_obj i a) as Hobj. destruct (users i) as [|a us] eqn:Eu.
  - do 3 eexists. split; [reflexivity|]. split; cbn [fst snd]; [exact Hmg| | |simpl; lia].
    + intros j n Hj. destruct (Hsome j n Hj) as (? & ? & ? & ?). split_and!; try done. set_solver.
    + intros j [->|Hj]%elem_of_cons Hu; [done|auto].
  - destruct (merge_list2_spec st X R (a :: us) lcnt Hmg) as (n & st' & X' & R' & -> & Hmg' & Hg & (T & HT & Hr) & Hpl & Hsub & Hsz'); [done| |done|lia|].
    { intros b Hb. destruct (Hobj b Hb) as (po & -> & _). done. }
    cbn [mbind option_bind]. do 3 eexists. split; [reflexivity|]. split; cbn [fst snd].
    + apply (merging_heap st' X' R' _ R' Hmg'); [reflexivity| |apply (mg_next _ _ _ Hmg')].
      intros m U HU. destruct (mg_heap _ _ _ Hmg' m U HU) as (ob & Hob & Hf). destruct (decide (m = n)) as [->|].
      * exists (set_id ob id). rewrite lookup_alter_eq, Hob. split; [done|by apply fresh_id].
      * exists ob. by rewrite lookup_alter_ne.
    + intros j m. destruct (decide (j = i)) as [->|].
      * rewrite lookup_insert_eq. intros [= <-]. rewrite Eu. split_and!; [set_solver|done|eauto|done].
      * rewrite lookup_insert_ne by done. intros Hj. destruct (Hsome j m Hj) as (? & ? & (U & HU & HrU) & [pl Hpl']).
        split_and!; [set_solver|done| |exists pl; by eapply lookup_weaken].
        destruct (Hg m U HU) as (U' & HU' & ?). exists U'. split; [done|set_solver].
    + intros j [->|Hj]%elem_of_cons Hu; [by rewrite lookup_insert_eq|]. destruct (decide (j = i)) as [->|]; [by rewrite lookup_insert_eq|].
      rewrite lookup_insert_ne by done. auto.
    + simpl. lia.
Qed.

Lemma merge_ports_spec lcnt l : (forall i, i ∈ l -> (length (users i) <= SFPO_MAX_LPORTS)%nat) -> forall s X R k,
  swept s X R k -> Z.of_nat (length k + length l) <= 65536 ->
  exists s' X' R', merge_ports hp hx hr polist lcnt (create_port_lists polist) l s = Some s' /\ swept s' X' R' (rev l ++ k).
Proof.
  induction l as [|i l IH]; intros Hu s X R k Hsw Hl; cbn [merge_ports]; [by exists s, X, R|]. cbn [length] in Hl.
  destruct (merge_port_spec lcnt s X R k i Hsw) as (s1 & X1 & R1 & -> & Hsw1); [apply Hu; set_solver|lia|]. cbn [mbind option_bind].
  destruct (IH ltac:(set_solver) s1 X1 R1 (i :: k) Hsw1) as (s' & X' & R' & -> & Hsw'); [simpl; lia|].
  exists s', X', R'. split; [done|]. simpl. by rewrite <- app_assoc.
Qed.

(** *** Collecting the ports of each object *)

Lemma fold_alter {A} (f : A -> A) (l : list nat) n : (forall x, f (f x) = f x) -> forall m : gmap nat A,
  fold_left (fun m n => alter f n m) l m !! n = if decide (n ∈ l) then f <$> m !! n else m !! n.
Proof.
  intros Hf. induction l as [|k l IH]; intros m; cbn [fold_left]; [done|]. rewrite IH.
  destruct (decide (n = k)) as [->|Hk].
  - rewrite lookup_alter_eq. rewrite (decide_True _ _ (P := k ∈ k :: l)) by set_solver. destruct (m !! k); simpl; [|by destruct (decide _)].
    rewrite Hf. by destruct (decide _).
  - rewrite lookup_alter_ne by done. destruct (decide (n ∈ l)), (decide (n ∈ k :: l)); try done; set_solver.
Qed.

Section Collect.
Variable arr : gmap Z nat.

(** The bits and the number of the ports of [l] that use object [n]. *)
Definition uses (n : nat) (i : Z) : bool := bool_decide (arr !! i = Some n).
Definition collect (n : nat) (l : list Z) (pl : PortBitSet) : PortBitSet :=
  fold_left (fun p i => if uses n i then set_bit i p else p) l pl.
Definition counted_ports (n : nat) (l : list Z) (ob : PortObject2) : PortObject2 :=
  match port_list ob with
  | None => ob
  | Some pl => set_ports ob (Some (collect n l pl)) (port_cnt ob + Zlen (List.filter (uses n) l))
  end.

Lemma collect_cons n j l pl : collect n (j :: l) pl = collect n l (if uses n j then set_bit j pl else pl).
Proof. done. Qed.
Lemma filter_uses n j l : List.filter (uses n) (j :: l) = (if uses n j then [j] else []) ++ List.filter (uses n) l.
Proof. cbn [List.filter]. by destruct (uses n j). Qed.

Lemma elem_of_collect n l i : forall pl, i ∈ collect n l pl <-> i ∈ pl \/ i ∈ l /\ arr !! i = Some n.
Proof.
  induction l as [|j l IH]; intros pl; [cbn; set_solver|]. rewrite collect_cons, IH. unfold uses. case_bool_decide as E.
  - rewrite set_bit_union. set_solver.
  - set_solver.
Qed.

Lemma count_ports_spec l : forall m, (forall i n, i ∈ l -> arr !! i = Some n -> exists ob pl, m !! n = Some ob /\ port_list ob = Some pl) ->
  exists m', count_ports arr l m = Some m' /\ forall n, m' !! n = counted_ports n l <$> m !! n.
Proof.
  induction l as [|i l IH]; intros m Hm; cbn [count_ports].
  - exists m. split; [done|]. intros n. destruct (m !! n) as [ob|]; [|done]. simpl. unfold counted_ports.
    destruct (port_list ob) eqn:E; [|done]. destruct ob. cbn in *. subst. by rewrite Z.add_0_r.
  - unfold count_port at 1. destruct (arr !! i) as [n|] eqn:Ei.
    2: { cbn [mbind option_bind]. destruct (IH m) as (m' & -> & H'); [intros; apply (Hm i0 n); set_solver|].
      exists m'. split; [done|]. intros n. rewrite H'. destruct (m !! n) as [ob|]; [|done]. simpl. f_equal. unfold counted_ports.
      rewrite filter_uses. destruct (port_list ob); [|done]. rewrite collect_cons. replace (uses n i) with false by (unfold uses; by rewrite Ei, bool_decide_false). done. }
    destruct (Hm i n ltac:(set_solver) Ei) as (ob & pl & Hob & Hpl). rewrite Hob. cbn [mbind option_bind]. rewrite Hpl. cbn [mbind option_bind].
    destruct (IH (<[n := set_ports ob (Some (set_bit i pl)) (port_cnt ob + 1)]> m)) as (m' & -> & H').
    { intros j k Hj Hk. destruct (decide (k = n)) as [->|]; [rewrite lookup_insert_eq; by do 2 eexists|].
      rewrite lookup_insert_ne by done. apply (Hm j k); [set_solver|done]. }
    exists m'. split; [done|]. intros k. rewrite H'. destruct (decide (k = n)) as [->|Hk].
    + rewrite lookup_insert_eq, Hob. simpl. f_equal. unfold counted_ports. rewrite Hpl. cbn [port_list set_ports].
      rewrite filter_uses, collect_cons. replace (uses n i) with true by (unfold uses; by rewrite Ei, bool_decide_true).
      rewrite Zlen_app. unfold set_ports. cbn [port_cnt name2 id2 items2 rule_hash fnc]. f_equal. unfold Zlen. simpl. lia.
    + rewrite lookup_insert_ne by done. destruct (m !! k) as [ob'|]; [|done]. simpl. f_equal. unfold counted_ports.
      destruct (port_list ob'); [|done]. rewrite filter_uses, collect_cons.
      replace (uses k i) with false by (unfold uses; rewrite Ei, bool_decide_false; congruence). done.
Qed.
End Collect.

(** An object of a compiled table: its rules, how many ports use it and, if any
    do, which. *)
Record compiled_obj (arr : gmap Z nat) (n : nat) (ob : PortObject2) (S : gset Z) : Prop := {
  co_rules : rset (fnc ob) (rule_hash ob) S;
  co_all : S ⊆ all_rules;
  co_cnt : port_cnt ob = Zlen (List.filter (uses arr n) (port_range 0 (SFPO_MAX_PORTS - 1)));
  co_items : port_cnt ob <> 0 -> canonical 0 (items2 ob) /\ forall i, listed false (items2 ob) i = uses arr n i }.

Record compiled_ok (c : compiled) X R : Prop := {
  ck_x : refines plx_hash (pt_mpxo_hash c) X;
  ck_rows : 0 < nrows (pt_mpo_hash c);
  ck_count : count (pt_mpo_hash c) = Zlen (elements (pt_mpo_hash c));
  ck_mpo : forall k d, (k, d) ∈ elements (pt_mpo_hash c) -> is_Some (R !! d);
  ck_in : forall pl n, X !! pl = Some n -> is_Some (R !! n) /\ exists k, (k, n) ∈ elements (pt_mpo_hash c);
  ck_obj : forall n S, R !! n = Some S -> exists ob, objects c !! n = Some ob /\ compiled_obj (pt_port_object c) n ob S;
  ck_some : forall i n, pt_port_object c !! i = Some n -> 0 <= i < SFPO_MAX_PORTS /\ users i <> [] /\
    (exists S, R !! n = Some S /\ rules_in (users i) ⊆ S) /\ (exists pl, X !! pl = Some n);
  ck_none : forall i, 0 <= i < SFPO_MAX_PORTS -> users i <> [] -> is_Some (pt_port_object c !! i) }.

Lemma swept_start i : swept (MkMerge ∅ 0 (ghash_new PO_HASH_TBL_ROWS false) (ghash_new PO_HASH_TBL_ROWS false), ∅, i) ∅ ∅ [].
Proof.
  assert (elements (ghash_new PO_HASH_TBL_ROWS false : GHash nat nat) = []) as He.
  { unfold elements, nodes_from. generalize (seqZ 0 (nrows (ghash_new PO_HASH_TBL_ROWS false : GHash nat nat) - 0)).
    intros l. induction l as [|x l IH]; [done|]. simpl. by rewrite IH. }
  assert (0 < PO_HASH_TBL_ROWS) as Hr by done. revert He Hr. generalize PO_HASH_TBL_ROWS. intros rows He Hr.
  split; cbn [fst snd]; [split; cbn [heap next mhash mhashx]; rewrite ?He|..]; try set_solver; try (intros; simplify_map_eq; done).
  - cbn [nrows ghash_new]. bcase (rows >? 0) as E; [apply nearest_prime_pos|lia].
  - apply grefines_new. lia.
Qed.

Lemma new_bits_twice ob : new_bits (new_bits ob) = new_bits ob.
Proof. unfold new_bits. destruct (port_list ob) eqn:E; [by rewrite E|done]. Qed.
Lemma final_object_twice ob : final_object (final_object ob) = final_object ob.
Proof.
  unfold final_object. destruct (port_cnt ob =? 0) eqn:E; [by rewrite E|]. destruct (port_list ob) eqn:El; [cbn|]; by rewrite ?E, ?El.
Qed.

(** An object of the heap after the three loops. *)
Lemma final_object_spec arr n ob S : fresh_obj ob S -> (forall i, arr !! i = Some n -> 0 <= i < SFPO_MAX_PORTS) ->
  compiled_obj arr n (final_object (counted_ports arr n (port_range 0 (SFPO_MAX_PORTS - 1)) (new_bits ob))) S.
Proof.
  intros [F1 F2 F3 F4] Harr.
  assert (forall i, i ∈ collect arr n (port_range 0 (SFPO_MAX_PORTS - 1)) ∅ <-> arr !! i = Some n) as Hbits.
  { intros i. rewrite elem_of_collect, elem_of_port_range. split; [intros [?|[_ ?]]; [set_solver|done]|].
    intros Hi. right. split; [|done]. pose proof (Harr i Hi). lia. }
  unfold new_bits. rewrite F3, F4. unfold counted_ports. cbn [port_list set_ports port_cnt]. rewrite Z.add_0_l.
  enough (forall k P, (forall i, i ∈ P <-> arr !! i = Some n) -> k = Zlen (List.filter (uses arr n) (port_range 0 (SFPO_MAX_PORTS - 1))) ->
    compiled_obj arr n (final_object (set_ports (set_ports ob (Some ∅) 0) (Some P) k)) S) as Hgen by by apply Hgen.
  clear Hbits. intros k P HP Hk. unfold final_object. cbn [port_cnt set_ports port_list]. bcase (k =? 0) as E.
  - split; done.
  - destruct (ItemListFromBits_spec P) as [Hc Hl]; [intros p Hp; apply Harr; by apply HP|]. split; try done.
    intros _. split; [done|]. intros i. cbn [items2 set_items2]. rewrite Hl. unfold uses. by apply bool_decide_ext.
Qed.

Lemma unused_object_spec arr n ob S : fresh_obj ob S -> (forall i, arr !! i <> Some n) -> compiled_obj arr n ob S.
Proof.
  intros [F1 F2 F3 F4] Harr. split; [done|done| |done]. rewrite F4. generalize (port_range 0 (SFPO_MAX_PORTS - 1)). intros l.
  induction l as [|i l IH]; [done|]. rewrite filter_uses. unfold uses at 1. rewrite bool_decide_false by done. done.
Qed.

Lemma heap_passes (m : gmap nat PortObject2) (data data' : list nat) arr R :
  (forall n, n ∈ data <-> n ∈ data') ->
  (forall n S, R !! n = Some S -> exists ob, m !! n = Some ob /\ fresh_obj ob S) ->
  (forall i n, arr !! i = Some n -> 0 <= i < SFPO_MAX_PORTS /\ n ∈ data /\ is_Some (R !! n)) ->
  exists m', count_ports arr (port_range 0 (SFPO_MAX_PORTS - 1)) (fold_left new_port_list data m) = Some m' /\
    forall n S, R !! n = Some S -> exists ob, fold_left final_items data' m' !! n = Some ob /\ compiled_obj arr n ob S.
Proof.
  intros Hdata Hm Harr. unfold new_port_list, final_items.
  pose proof (fun n => fold_alter new_bits data n new_bits_twice m) as H1.
  destruct (count_ports_spec arr (port_range 0 (SFPO_MAX_PORTS - 1)) (fold_left (fun m n => alter new_bits n m) data m)) as (m' & Hc & Hm').
  { intros i n _ Hi. destruct (Harr i n Hi) as (_ & Hd & [S HS]). destruct (Hm n S HS) as (ob & Hob & Hf).
    rewrite H1, decide_True, Hob by done. simpl. unfold new_bits. rewrite (fo_list _ _ Hf). by do 2 eexists. }
  exists m'. split; [exact Hc|]. intros n S HS. destruct (Hm n S HS) as (ob & Hob & Hf).
  rewrite (fold_alter final_object data' n final_object_twice m'), Hm', H1, Hob.
  rewrite (decide_ext (n ∈ data') (n ∈ data)) by (by rewrite Hdata). destruct (decide (n ∈ data)) as [Hd|Hd].
  - eexists. split; [reflexivity|]. apply final_object_spec; [done|]. intros i Hi. by destruct (Harr i n Hi).
  - cbn [fmap option_fmap option_map]. eexists. split; [reflexivity|]. unfold counted_ports. rewrite (fo_list _ _ Hf).
    apply unused_object_spec; [done|]. intros i Hi. by destruct (Harr i n Hi) as (_ & ? & _).
Qed.

Lemma refines_iterate (t : GHash (list Z) nat) X : refines plx_hash t X ->
  exists l t', ghash_iterate t = Some (l, t') /\ refines plx_hash t' X /\ (forall n, n ∈ l.*2 <-> exists pl, X !! pl = Some n).
Proof.
  intros [Hr Hp He Hc]. destruct (ghash_iterate_spec t) as (t' & Hi & Ht & Hn & Hct).
  { rewrite Hc. unfold Zlen. by rewrite He, length_map_to_list. }
  exists (elements t), t'. split; [done|]. split.
  - split; [by rewrite Hn| | |by rewrite Hct].
    + intros i k d. unfold row, index. rewrite Ht, Hn. apply Hp.
    + unfold elements, nodes_from, row. rewrite Ht, Hn. apply He.
  - intros n. rewrite list_elem_of_fmap. split.
    + intros ([pl k] & -> & Hin). rewrite He, elem_of_map_to_list in Hin. by exists pl.
    + intros [pl Hpl]. exists (pl, n). split; [done|]. rewrite He. by apply elem_of_map_to_list.
Qed.

(** Compiling never fails. *)
Lemma compile_spec lcnt : (forall i, (length (users i) <= SFPO_MAX_LPORTS)%nat) ->
  exists c X R, PortTableCompileMergePortObjects hp hx hr polist lcnt = Some c /\ compiled_ok c X R.
Proof.
  intros Hu. unfold PortTableCompileMergePortObjects. cbv zeta.
  pose proof heap_passes as HP. pose proof (fun i => elem_of_port_range 0 (SFPO_MAX_PORTS - 1) i) as Hel.
  assert (Z.of_nat (length (port_range 0 (SFPO_MAX_PORTS - 1))) <= 65536) as Hlen by (by rewrite length_port_range, Z2Nat.id).
  revert HP Hel Hlen. generalize (port_range 0 (SFPO_MAX_PORTS - 1)). intros ports HP Hel Hlen.
  destruct (merge_ports_spec lcnt ports (fun i _ => Hu i) _ _ _ [] (swept_start PO_INIT_ID) Hlen)
    as ([[st arr] id] & X & R & Hm & [Hmg Hsome Hnone Hsz]).
  rewrite Hm. cbn [mbind option_bind]. clear Hm. cbn [fst snd] in *.
  assert (forall i, i ∈ rev ports ++ [] <-> 0 <= i < SFPO_MAX_PORTS) as Hports.
  { intros i. rewrite app_nil_r, list_elem_of_In, <- List.in_rev, <- list_elem_of_In, Hel. lia. }
  destruct (refines_iterate _ _ (mg_x _ _ _ Hmg)) as (l & mx & -> & Hx & Hl). cbn [mbind option_bind].
  destruct (refines_iterate _ _ Hx) as (l' & mx' & Hit & Hx' & Hl').
  destruct (HP (heap st) l.*2 l'.*2 arr R) as (m' & -> & Hobj).
  { intros n. by rewrite Hl, Hl'. }
  { apply (mg_heap _ _ _ Hmg). }
  { intros i n Hi. destruct (Hsome i n Hi) as (Hin & _ & (T & HT & _) & Hpl). rewrite <- Hports, Hl. split_and!; [done|done|by exists T]. }
  cbn [mbind option_bind]. rewrite Hit. cbn [mbind option_bind]. exists (MkCompiled (fold_left final_items l'.*2 m') (mhash st) mx' arr), X, R.
  split; [done|]. destruct Hmg as [G1 G2 G3 G4 G5 G6 G7 G8 G9]. split; cbn [pt_mpxo_hash pt_mpo_hash objects pt_port_object]; try done.
  - intros pl n Hpl. destruct (G6 _ _ Hpl) as (S & HS & _). split; [by exists S|by eapply G7].
  - intros i n Hi. destruct (Hsome i n Hi) as (Hin & ? & ? & ?). apply Hports in Hin. done.
  - intros i Hi Hus. apply Hnone; [by apply Hports|done].
Qed.

End Merge.

(** ** The compiled table *)

(** Input objects at different addresses, each a normalised list that is not
    "any", fewer than 2^32 rules, at most 500 objects on a port. *)
Record table_ok (p : PortTable) : Prop := {
  to_addr : NoDup (map fst (pt_polist p));
  to_objects : objects_ok (pt_polist p);
  to_rules : small_set (all_rules (pt_polist p));
  to_ports : forall i, (length (users (pt_polist p) i) <= SFPO_MAX_LPORTS)%nat }.

Lemma elem_of_users l i a : a ∈ users l i <-> exists po, (a, po) ∈ l /\ listed false (item_list po) i = true.
Proof.
  unfold users. rewrite list_elem_of_In, List.in_map_iff. split.
  - intros ([a' po] & <- & [Hin Hl]%List.filter_In). exists po. by rewrite list_elem_of_In.
  - intros (po & Hin & Hl). exists (a, po). rewrite List.filter_In, <- list_elem_of_In. done.
Qed.

Lemma users_rules l i a po r : NoDup (map fst l) -> (a, po) ∈ l -> listed false (item_list po) i = true -> r ∈ rule_list po -> r ∈ rules_in l (users l i).
Proof.
  intros Hnd Hin Hl Hr. apply elem_of_rules_in. assert (a ∈ users l i) as Ha by (apply elem_of_users; eauto). exists a. split; [done|].
  destruct (users_obj l Hnd i a Ha) as (po' & Ho & Hin' & _). unfold rules_of. rewrite Ho. simpl.
  assert (po' = po) as ->; [|by apply elem_of_list_to_set].
  clear -Hnd Hin Hin'. induction l as [|[b pb] l IH]; [set_solver|]. cbn [map fst] in Hnd. apply NoDup_cons in Hnd as [Hb Hnd].
  assert (forall x, (b, x) ∉ l) as Hno. { intros x Hx. apply Hb, list_elem_of_In, List.in_map_iff. exists (b, x). by rewrite <- list_elem_of_In. }
  apply elem_of_cons in Hin as [E|Hin]; apply elem_of_cons in Hin' as [E'|Hin']; simplify_eq; try done; [by destruct (Hno po')|by destruct (Hno po)|by apply IH].
Qed.

Lemma used_count arr n i : 0 <= i < SFPO_MAX_PORTS -> arr !! i = Some n -> Zlen (List.filter (uses arr n) (port_range 0 (SFPO_MAX_PORTS - 1))) <> 0.
Proof.
  intros Hi Ha. assert (i ∈ List.filter (uses arr n) (port_range 0 (SFPO_MAX_PORTS - 1))) as Hin.
  { rewrite list_elem_of_In, List.filter_In, <- list_elem_of_In, elem_of_port_range. unfold uses. rewrite bool_decide_true by done. split; [lia|done]. }
  destruct (List.filter _ _); [set_solver|]. rewrite Zlen_cons. pose proof (Zlen_nonneg l). lia.
Qed.

(** C31.  Compiling a port table with optimisation on, of normalised lists of
    which no port is in more than 500 ([table_ok]; with more, the code leaves lists
    out), ends without a fatal error whatever the hash functions are.  A port has
    an object exactly when some port list has it; that object has every rule of
    every list with the port, no rule that is in no list, and its items are the
    ports that share it. *)
Theorem port_table_compiled hp hx hr p : pt_optimize p = true -> table_ok p ->
  exists c, PortTableCompile hp hx hr p = Some (Some c) /\ forall i, 0 <= i < SFPO_MAX_PORTS ->
    match pt_port_object c !! i with
    | None => forall a po, (a, po) ∈ pt_polist p -> listed false (item_list po) i = false
    | Some n => exists ob, objects c !! n = Some ob /\
        (forall a po r, (a, po) ∈ pt_polist p -> listed false (item_list po) i = true -> r ∈ rule_list po -> rule_in ob r = true) /\
        (forall r, rule_in ob r = true -> exists a po, (a, po) ∈ pt_polist p /\ r ∈ rule_list po) /\
        canonical 0 (items2 ob) /\ (forall j, listed false (items2 ob) j = true <-> pt_port_object c !! j = Some n)
    end.
Proof.
  intros Hopt [Ha Ho Hr Hu]. unfold PortTableCompile. rewrite Hopt.
  destruct (compile_spec hp hx hr (pt_polist p) Hr Ho Ha (pt_lrc p) Hu) as (c & X & R & -> & Hck). exists c. split; [done|].
  intros i Hi. destruct (pt_port_object c !! i) as [n|] eqn:En.
  - destruct (ck_some _ _ _ _ _ Hck i n En) as (_ & _ & (S & HS & Hsub) & _).
    destruct (ck_obj _ _ _ _ _ Hck n S HS) as (ob & Hob & [C1 C2 C3 C4]). exists ob. split; [done|].
    destruct C4 as [C4 C5]; [rewrite C3; by apply (used_count _ _ i)|]. split_and!; [| |done|].
    + intros a po r Hin Hl Hrr. apply (rset_find ob S r C1), Hsub. by eapply users_rules.
    + intros r Hin%(rset_find ob S r C1)%C2. apply elem_of_rules_in in Hin as (a & _ & Hrr). unfold rules_of in Hrr.
      destruct (obj (pt_polist p) a) as [po|] eqn:E; [|by apply elem_of_empty in Hrr]. apply obj_in in E. exists a, po.
      by apply elem_of_list_to_set in Hrr.
    + intros j. rewrite C5. unfold uses. apply bool_decide_eq_true.
  - intros a po Hin. apply not_true_iff_false. intros Hl.
    destruct (ck_none _ _ _ _ _ Hck i Hi) as [n Hn]; [|congruence].
    intros E. assert (a ∈ users (pt_polist p) i) as Hin' by (apply elem_of_users; eauto). rewrite E in Hin'. set_solver.
Qed.

(** Web servers and proxies, with port 85 in both lists. *)
Definition demo_table : PortTable :=
  MkPT true [(4096, MkPO None 0 [MkItem false 80 90] [1; 2]); (8192, MkPO None 0 [MkItem false 85 85; MkItem false 3128 3130] [3])] 2.

Lemma demo_table_ok : table_ok demo_table.
Proof.
  split.
  - cbn. repeat constructor; set_solver.
  - repeat constructor; cbn; try lia; done.
  - unfold small_set. vm_compute. reflexivity.
  - intros i. unfold users. rewrite length_map. pose proof (List.filter_length_le (fun x => listed false (item_list x.2) i) (pt_polist demo_table)) as H.
    cbn [pt_polist demo_table] in *. cbn [length] in H. unfold SFPO_MAX_LPORTS. lia.
Qed.

Lemma port_table_compiled_witness : exists c, PortTableCompile hashfcn_static hashfcn_static (fun _ => hashfcn_static) demo_table = Some (Some c) /\
  match pt_port_object c !! 85 with
  | None => False
  | Some n => exists ob, objects c !! n = Some ob /\ rule_in ob 1 = true /\ rule_in ob 3 = true
  end.
Proof.
  assert (0 <= 85 < SFPO_MAX_PORTS) as H85 by (unfold SFPO_MAX_PORTS; lia).
  destruct (port_table_compiled hashfcn_static hashfcn_static (fun _ => hashfcn_static) demo_table eq_refl demo_table_ok) as (c & Hc & H).
  exists c. split; [exact Hc|]. specialize (H 85 H85). clear Hc. destruct (pt_port_object c !! 85) as [n|].
  - destruct H as (ob & Hob & Hr & _). exists ob. split; [exact Hob|]. split.
    + apply (Hr 4096 (MkPO None 0 [MkItem false 80 90] [1; 2])); [left|reflexivity|left].
    + apply (Hr 8192 (MkPO None 0 [MkItem false 85 85; MkItem false 3128 3130] [3])); [right; left|reflexivity|left].
  - specialize (H 4096 (MkPO None 0 [MkItem false 80 90] [1; 2]) ltac:(left)). discriminate H.
Defined.
