(* ===== verification/RuleHeader.v ===== *)
(** * RuleHeader: the addresses and ports of a rule

    detection/rtn_checks.cc, the checks of a rule header against a packet, the
    list of checks that parser/parse_rule.cc sets up for a header.  Address
    variables are those of [IpVar], ports those of [PortObject]. *)

From S2P Require Import Prelude Headers IpVar PortObject.

(** ** Headers and packets *)

Definition ANY_SRC_PORT : Z := 1.
Definition ANY_DST_PORT : Z := 2.
Definition BIDIRECTIONAL : Z := 8.
Definition ANY_SRC_IP : Z := 16.
Definition ANY_DST_IP : Z := 32.

Record RtnHeader := MkRtn {
  flags : Z; sip : option sfip_var_t; dip : option sfip_var_t;
  src_portobject : option (list PortObjectItem); dst_portobject : option (list PortObjectItem) }.
Record PktPtrs := MkPtrs { get_src : SfIp; get_dst : SfIp; sp : Z; dp : Z }.

Definition flag (r : RtnHeader) (f : Z) : bool := truth (Z.land (flags r) f).

(** ** The checks *)

Definition CHECK_SRC_IP : Z := 1.
Definition CHECK_DST_IP : Z := 2.
Definition INVERSE : Z := 4.
Definition CHECK_SRC_PORT : Z := 8.
Definition CHECK_DST_PORT : Z := 16.

Definition CheckAddrPort (rule_addr : option sfip_var_t) (po : option (list PortObjectItem)) (p : PktPtrs)
    (flags mode : Z) : option bool :=
  let '(pkt_addr, pkt_port, any_port_flag) :=
    if truth (Z.land mode CHECK_SRC_IP)
    then (get_src p, sp p, if truth (Z.land mode INVERSE) then Z.land flags ANY_DST_PORT else Z.land flags ANY_SRC_PORT)
    else (get_dst p, dp p, if truth (Z.land mode INVERSE) then Z.land flags ANY_SRC_PORT else Z.land flags ANY_DST_PORT) in
  ip_match ← match rule_addr with None => Some false | Some v => sfvar_ip_in (Some v) (Some pkt_addr) end;
  if negb ip_match then Some false
  else if truth any_port_flag then Some true
  else if negb (truth (Z.land mode (Z.lor CHECK_SRC_PORT CHECK_DST_PORT))) then Some true
  else Some (PortObjectHasPort po pkt_port).

Definition CheckBidirectional (p : PktPtrs) (r : RtnHeader) (check_ports : Z) : option bool :=
  let ports m := if truth check_ports then m else 0 in
  let inverse :=
    b1 ← CheckAddrPort (dip r) (dst_portobject r) p (flags r) (Z.lor (Z.lor CHECK_SRC_IP INVERSE) (ports CHECK_SRC_PORT));
    if (b1 : bool) then CheckAddrPort (sip r) (src_portobject r) p (flags r) (Z.lor (Z.lor CHECK_DST_IP INVERSE) (ports CHECK_DST_PORT))
    else Some false in
  f1 ← CheckAddrPort (sip r) (src_portobject r) p (flags r) (Z.lor CHECK_SRC_IP (ports CHECK_SRC_PORT));
  if (f1 : bool) then
    f2 ← CheckAddrPort (dip r) (dst_portobject r) p (flags r) (Z.lor CHECK_DST_IP (ports CHECK_DST_PORT));
    if negb f2 then inverse else Some true
  else inverse.

(** The functions a header's list is made of; each calls the next. *)
Inductive RuleHeadFunc := F_CheckBidirectional | F_CheckSrcIP | F_CheckDstIP | F_CheckSrcPortEqual | F_CheckSrcPortNotEq
  | F_CheckDstPortEqual | F_CheckDstPortNotEq | F_RuleListEnd.

Fixpoint call_head (l : list RuleHeadFunc) (p : PktPtrs) (r : RtnHeader) (check_ports : Z) : option bool :=
  match l with
  | [] => None
  | f :: next =>
      let go_if (b : bool) := if b then call_head next p r check_ports else Some false in
      match f with
      | F_CheckBidirectional => CheckBidirectional p r check_ports
      | F_CheckSrcIP => b ← sfvar_ip_in (sip r) (Some (get_src p)); go_if b
      | F_CheckDstIP => b ← sfvar_ip_in (dip r) (Some (get_dst p)); go_if b
      | F_CheckSrcPortEqual => go_if ((check_ports =? 0) || PortObjectHasPort (src_portobject r) (sp p))
      | F_CheckSrcPortNotEq => go_if ((check_ports =? 0) || negb (PortObjectHasPort (src_portobject r) (sp p)))
      | F_CheckDstPortEqual => go_if ((check_ports =? 0) || PortObjectHasPort (dst_portobject r) (dp p))
      | F_CheckDstPortNotEq => go_if ((check_ports =? 0) || negb (PortObjectHasPort (dst_portobject r) (dp p)))
      | F_RuleListEnd => Some true
      end
  end.

(** ** Setting up the list *)

Inductive MODE := SRC | DST.

Definition AddRuleFuncToList (f : RuleHeadFunc) (l : list RuleHeadFunc) : list RuleHeadFunc := l ++ [f].

Definition AddrToFunc (r : RtnHeader) (mode : MODE) (l : list RuleHeadFunc) : list RuleHeadFunc :=
  match mode with
  | SRC => if flag r ANY_SRC_IP then l else AddRuleFuncToList F_CheckSrcIP l
  | DST => if flag r ANY_DST_IP then l else AddRuleFuncToList F_CheckDstIP l
  end.

Definition PortToFunc (any_flag except_flag : bool) (mode : MODE) (l : list RuleHeadFunc) : list RuleHeadFunc :=
  if any_flag then l
  else if except_flag then
    match mode with SRC => AddRuleFuncToList F_CheckSrcPortNotEq l | DST => AddRuleFuncToList F_CheckDstPortNotEq l end
  else
    match mode with SRC => AddRuleFuncToList F_CheckSrcPortEqual l | DST => AddRuleFuncToList F_CheckDstPortEqual l end.

Definition SetupRTNFuncList (r : RtnHeader) : list RuleHeadFunc :=
  AddRuleFuncToList F_RuleListEnd
    (if flag r BIDIRECTIONAL then AddRuleFuncToList F_CheckBidirectional []
     else AddrToFunc r DST (AddrToFunc r SRC (PortToFunc (flag r ANY_SRC_PORT) false SRC (PortToFunc (flag r ANY_DST_PORT) false DST [])))).

(** ** What a header means *)

(** An address side: the networks added and excluded. *)
Record side := MkSide { nets : list sfip_node_t; excluded : list sfip_node_t; ports : list PortObjectItem; any_port : bool }.

Definition addr_in (s : side) (a : SfIp) : bool := (bool_decide (nets s = []) || covers (nets s) a) && negb (covers (excluded s) a).
Definition port_in (s : side) (check : bool) (port : Z) : bool :=
  any_port s || negb check || existsb (fun i => (lport i <=? port) && (port <=? hport i)) (ports s).
Definition side_matches (s : side) (check : bool) (a : SfIp) (port : Z) : bool := addr_in s a && port_in s check port.

(** The header's source and destination sides; ports are given as ranges. *)
Record header_ok (r : RtnHeader) (src dst : side) : Prop := {
  ho_sip : exists v, sip r = Some v /\ built v (nets src) (excluded src);
  ho_dip : exists v, dip r = Some v /\ built v (nets dst) (excluded dst);
  ho_sp : src_portobject r = Some (ports src);
  ho_dp : dst_portobject r = Some (ports dst);
  ho_sany : any_port src = flag r ANY_SRC_PORT;
  ho_dany : any_port dst = flag r ANY_DST_PORT;
  ho_ports : Forall (fun i => negate i = false /\ item_any i = false) (ports src ++ ports dst);
  ho_sall : flag r ANY_SRC_IP = true -> forall a, addr_in src a = true;
  ho_dall : flag r ANY_DST_IP = true -> forall a, addr_in dst a = true }.

Record ptrs_ok (p : PktPtrs) : Prop := {
  po_src : ip_wf (get_src p); po_dst : ip_wf (get_dst p); po_sp : is_u16 (sp p); po_dp : is_u16 (dp p) }.

(** One side of a packet against one side of a header. *)
Lemma CheckAddrPort_eq v (s : side) p fl mode a port any :
  built v (nets s) (excluded s) -> Forall (fun i => negate i = false /\ item_any i = false) (ports s) -> ip_wf a -> is_u16 port ->
  (if truth (Z.land mode CHECK_SRC_IP)
   then (get_src p, sp p, if truth (Z.land mode INVERSE) then Z.land fl ANY_DST_PORT else Z.land fl ANY_SRC_PORT)
   else (get_dst p, dp p, if truth (Z.land mode INVERSE) then Z.land fl ANY_SRC_PORT else Z.land fl ANY_DST_PORT)) = (a, port, any) ->
  truth any = any_port s ->
  CheckAddrPort (Some v) (Some (ports s)) p fl mode =
    Some (side_matches s (truth (Z.land mode (Z.lor CHECK_SRC_PORT CHECK_DST_PORT))) a port).
Proof.
  intros Hv Hp Ha Hport E Hany. unfold CheckAddrPort. rewrite E. clear E.
  destruct (built_spec v (nets s) (excluded s) a Hv) as (Hok & He & _ & E1 & E2).
  rewrite sfvar_ip_in_lists, E1, E2 by done. cbn [mbind option_bind].
  unfold side_matches, addr_in, port_in. rewrite (bool_decide_ext _ _ He).
  destruct (_ && _); cbn [negb andb]; [|done]. rewrite Hany. destruct (any_port s); [done|]. cbn [orb].
  destruct (truth (Z.land mode _)); cbn [negb orb]; [|done]. unfold PortObjectHasPort. by rewrite has_port_ranges.
Qed.

Section Header.
Context (r : RtnHeader) (src dst : side) (p : PktPtrs) (Hr : header_ok r src dst) (Hp : ptrs_ok p).

Lemma ports_src : Forall (fun i => negate i = false /\ item_any i = false) (ports src).
Proof. pose proof (ho_ports _ _ _ Hr) as H. by apply Forall_app in H as []. Qed.
Lemma ports_dst : Forall (fun i => negate i = false /\ item_any i = false) (ports dst).
Proof. pose proof (ho_ports _ _ _ Hr) as H. by apply Forall_app in H as []. Qed.

(** Both directions of a rule with [<>]. *)
Lemma CheckBidirectional_eq check :
  CheckBidirectional p r check =
    Some ((side_matches src (truth check) (get_src p) (sp p) && side_matches dst (truth check) (get_dst p) (dp p)) ||
          (side_matches dst (truth check) (get_src p) (sp p) && side_matches src (truth check) (get_dst p) (dp p))).
Proof.
  destruct (ho_sip _ _ _ Hr) as (vs & Es & Bs). destruct (ho_dip _ _ _ Hr) as (vd & Ed & Bd). destruct Hp as [H1 H2 H3 H4].
  pose proof ports_src as Ps. pose proof ports_dst as Pd.
  pose proof (eq_sym (ho_sany _ _ _ Hr)) as As. pose proof (eq_sym (ho_dany _ _ _ Hr)) as Ad. unfold flag in As, Ad.
  unfold CheckBidirectional. cbv beta zeta. rewrite Es, Ed, (ho_sp _ _ _ Hr), (ho_dp _ _ _ Hr).
  rewrite (CheckAddrPort_eq vs src p (flags r) (Z.lor CHECK_SRC_IP (if truth check then CHECK_SRC_PORT else 0)) (get_src p) (sp p) (Z.land (flags r) ANY_SRC_PORT)) by
    (done || by destruct (truth check)).
  rewrite (CheckAddrPort_eq vd dst p (flags r) (Z.lor CHECK_DST_IP (if truth check then CHECK_DST_PORT else 0)) (get_dst p) (dp p) (Z.land (flags r) ANY_DST_PORT)) by
    (done || by destruct (truth check)).
  rewrite (CheckAddrPort_eq vd dst p (flags r) (Z.lor (Z.lor CHECK_SRC_IP INVERSE) (if truth check then CHECK_SRC_PORT else 0)) (get_src p) (sp p) (Z.land (flags r) ANY_DST_PORT)) by
    (done || by destruct (truth check)).
  rewrite (CheckAddrPort_eq vs src p (flags r) (Z.lor (Z.lor CHECK_DST_IP INVERSE) (if truth check then CHECK_DST_PORT else 0)) (get_dst p) (dp p) (Z.land (flags r) ANY_SRC_PORT)) by
    (done || by destruct (truth check)).
  assert (forall m, m = CHECK_SRC_PORT \/ m = CHECK_DST_PORT -> forall k, k = CHECK_SRC_IP \/ k = CHECK_DST_IP \/ k = Z.lor CHECK_SRC_IP INVERSE \/
    k = Z.lor CHECK_DST_IP INVERSE -> truth (Z.land (Z.lor k (if truth check then m else 0)) (Z.lor CHECK_SRC_PORT CHECK_DST_PORT)) = truth check) as Hm.
  { intros m [->| ->] k [->|[->|[->| ->]]]; by destruct (truth check). }
  rewrite !Hm by auto. cbn [mbind option_bind].
  destruct (side_matches src _ (get_src p) _), (side_matches dst _ (get_dst p) _), (side_matches dst _ (get_src p) _); done.
Qed.

(** C28. The header of a rule whose networks are written with their host bits
    zero, have an address other than 0 and are no mapped IPv4 networks, and whose
    ports are ranges without negation, as the parser leaves them: the checks that
    are set up for it and called in turn answer, for every packet, exactly whether
    the packet's source lies in the header's source networks and its source port
    in the source ports and likewise for the destination - or, for a bidirectional
    rule, the other way round; ports count only when they are to be checked and
    are not "any". *)
Theorem rule_header_matches check :
  call_head (SetupRTNFuncList r) p r check =
    let forward := side_matches src (truth check) (get_src p) (sp p) && side_matches dst (truth check) (get_dst p) (dp p) in
    let backward := side_matches dst (truth check) (get_src p) (sp p) && side_matches src (truth check) (get_dst p) (dp p) in
    Some (if flag r BIDIRECTIONAL then forward || backward else forward).
Proof.
  cbv zeta. unfold SetupRTNFuncList, AddRuleFuncToList. destruct (flag r BIDIRECTIONAL); [apply CheckBidirectional_eq|].
  destruct (ho_sip _ _ _ Hr) as (vs & Es & Bs). destruct (ho_dip _ _ _ Hr) as (vd & Ed & Bd). pose proof Hp as [H1 H2 H3 H4].
  assert (sfvar_ip_in (sip r) (Some (get_src p)) = Some (addr_in src (get_src p))) as Is.
  { rewrite Es. destruct (built_spec vs _ _ (get_src p) Bs) as (Hok & He & _ & E1 & E2).
    rewrite sfvar_ip_in_lists, E1, E2 by done. unfold addr_in. by rewrite (bool_decide_ext _ _ He). }
  assert (sfvar_ip_in (dip r) (Some (get_dst p)) = Some (addr_in dst (get_dst p))) as Id.
  { rewrite Ed. destruct (built_spec vd _ _ (get_dst p) Bd) as (Hok & He & _ & E1 & E2).
    rewrite sfvar_ip_in_lists, E1, E2 by done. unfold addr_in. by rewrite (bool_decide_ext _ _ He). }
  assert ((check =? 0) = negb (truth check)) as Hc by (unfold truth; by rewrite negb_involutive).
  pose proof (has_port_ranges _ (sp p) ports_src H3) as Qs. pose proof (has_port_ranges _ (dp p) ports_dst H4) as Qd.
  unfold AddrToFunc, PortToFunc, AddRuleFuncToList, side_matches, port_in.
  rewrite (ho_sany _ _ _ Hr), (ho_dany _ _ _ Hr). pose proof (ho_sall _ _ _ Hr) as Hs. pose proof (ho_dall _ _ _ Hr) as Hd.
  destruct (flag r ANY_SRC_PORT), (flag r ANY_DST_PORT), (flag r ANY_SRC_IP), (flag r ANY_DST_IP); cbn [app call_head];
    rewrite ?Is, ?Id, ?Hc, ?(ho_sp _ _ _ Hr), ?(ho_dp _ _ _ Hr); cbn [mbind option_bind PortObjectHasPort orb];
    rewrite ?Qs, ?Qd, ?Hs, ?Hd by done; rewrite ?andb_true_r, ?andb_true_l;
    repeat (match goal with |- context [if ?b then _ else _] => destruct b end); cbn [andb orb]; rewrite ?andb_true_r, ?andb_false_r; done.
Qed.
End Header.

(** ** A rule: 10.0.0.0/8 but not 10.1.0.0/16, high ports, to and from port 80 anywhere *)

Definition demo_any : sfip_node_t := MkIpNode (MkCidr (SfIp_set4 0) 128) true false false.
Definition demo_rtn : RtnHeader :=
  MkRtn BIDIRECTIONAL (Some demo_var) (Some (sfvar_add_node _alloc_var demo_any false))
    (Some [MkItem false 1024 65535]) (Some [MkItem false 80 80]).
Definition demo_src : side := MkSide [demo_10; demo_2001] [demo_10_1] [MkItem false 1024 65535] false.
Definition demo_dst : side := MkSide [demo_any] [] [MkItem false 80 80] false.

(** From port 80 of 8.8.8.8 to 10.2.0.1. *)
Definition demo_ptrs : PktPtrs := MkPtrs (SfIp_set4 134744072) (SfIp_set4 16777738) 80 5000.

Example demo_header : call_head (SetupRTNFuncList demo_rtn) demo_ptrs demo_rtn 1 = Some true.
Proof. vm_compute. reflexivity. Qed.

Lemma demo_header_ok : header_ok demo_rtn demo_src demo_dst.
Proof.
  constructor; try done.
  - exists demo_var. split; [done|apply demo_built].
  - exists (sfvar_add_node _alloc_var demo_any false). split; [done|]. apply built_node; [constructor|]. right. by split.
  - repeat constructor.
Qed.

Lemma rule_header_matches_witness :
  call_head (SetupRTNFuncList demo_rtn) demo_ptrs demo_rtn 1 =
    Some ((side_matches demo_src true (get_src demo_ptrs) 80 && side_matches demo_dst true (get_dst demo_ptrs) 5000) ||
          (side_matches demo_dst true (get_src demo_ptrs) 80 && side_matches demo_src true (get_dst demo_ptrs) 5000)).
Proof.
  apply (rule_header_matches demo_rtn demo_src demo_dst demo_ptrs demo_header_ok).
  constructor; [apply set4_wf; mlia|apply set4_wf; mlia|simpl; mlia|simpl; mlia].
Defined.
