(* ===== verification/BitOp.v ===== *)
(** * BitOp: vectors of bits (utils/bitop.h)

    A vector of [len] bits in bytes, the highest bit of a byte first.  [None]
    stands for an access outside the allocated bytes. *)

From S2P Require Import Prelude.

(** ** Operations *)

(** [new uint8_t[len]()], of which [buf_size] bytes are used. *)
Record BitOp := MkBitOp { bit_buf : list Z; buf_size : Z }.

Definition BitOp_new (len : Z) : BitOp :=
  MkBitOp (replicate (Z.to_nat len) 0) (if len =? 0 then 1 else Z.shiftr (len + 7) 3).

Definition mask (bit : Z) : Z := u8 (Z.shiftr 128 (Z.land bit 7)).
Definition size (b : BitOp) : Z := Z.shiftl (buf_size b) 3.
Definition get_buf_element (b : BitOp) (i : Z) : option Z := rd (bit_buf b) i.
Definition set_buf_element (b : BitOp) (i x : Z) : option BitOp :=
  if (0 <=? i) && (i <? Zlen (bit_buf b)) then Some (MkBitOp (wr (bit_buf b) i x) (buf_size b)) else None.

(** [memset] of [buf_size] bytes. *)
Definition reset (b : BitOp) : option BitOp :=
  if buf_size b <=? Zlen (bit_buf b)
  then Some (MkBitOp (replicate (Z.to_nat (buf_size b)) 0 ++ drop (Z.to_nat (buf_size b)) (bit_buf b)) (buf_size b))
  else None.

Definition set (b : BitOp) (bit : Z) : option BitOp :=
  x ← get_buf_element b (Z.shiftr bit 3); set_buf_element b (Z.shiftr bit 3) (Z.lor x (mask bit)).
Definition is_set (b : BitOp) (bit : Z) : option bool :=
  x ← get_buf_element b (Z.shiftr bit 3); Some (truth (Z.land (mask bit) x)).
Definition clear (b : BitOp) (bit : Z) : option BitOp :=
  x ← get_buf_element b (Z.shiftr bit 3); set_buf_element b (Z.shiftr bit 3) (Z.land x (u8 (Z.lnot (mask bit)))).

(** ** Bits as a set of numbers *)

Definition mem (b : BitOp) (i : Z) : bool := Z.testbit (rd0 (bit_buf b) (i / 8)) (7 - i mod 8).

(** A vector of [n] bits. *)
Record bwf (n : Z) (b : BitOp) : Prop := {
  bwf_pos : 1 <= n;
  bwf_len : Zlen (bit_buf b) = n;
  bwf_size : buf_size b = (n + 7) / 8;
  bwf_bytes : bytes (bit_buf b) }.

Lemma mask_pow bit : 0 <= bit -> mask bit = 2 ^ (7 - bit mod 8).
Proof.
  intros H. unfold mask. change 7 with (Z.ones 3) at 1. rewrite Z.land_ones by lia. change (2 ^ 3) with 8.
  change 128 with (2 ^ 7). rewrite Z.shiftr_div_pow2 by mlia. rewrite <- Z.pow_sub_r by mlia.
  apply u8_small. unfold is_u8. pose proof (Z.pow_pos_nonneg 2 (7 - bit mod 8)). pose proof (Z.pow_le_mono_r 2 (7 - bit mod 8) 7). mlia.
Qed.

Lemma byte_index n i : 0 <= i < n -> 0 <= i / 8 < n.
Proof. mlia. Qed.

Lemma update_byte n b k x : bwf n b -> 0 <= k < n -> is_u8 x ->
  exists b', set_buf_element b k x = Some b' /\ bwf n b' /\
    forall j, 0 <= j -> mem b' j = if j / 8 =? k then Z.testbit x (7 - j mod 8) else mem b j.
Proof.
  intros [H1 H2 H3 H4] Hk Hx. unfold set_buf_element. rewrite H2.
  rewrite (proj2 (Z.leb_le 0 k)), (proj2 (Z.ltb_lt k n)) by lia. cbn [andb]. eexists. split; [done|]. split.
  - split; cbn [bit_buf buf_size]; [done|by rewrite Zlen_wr|done|]. unfold wr. case_match; [done|]. by apply Forall_insert.
  - intros j Hj. unfold mem. cbn [bit_buf]. destruct (Z.eqb_spec (j / 8) k) as [->|Hne]; [by rewrite rd0_wr_eq by lia|].
    by rewrite rd0_wr_ne by congruence.
Qed.

Lemma byte_of n b k : bwf n b -> 0 <= k < n -> get_buf_element b k = Some (rd0 (bit_buf b) k) /\ is_u8 (rd0 (bit_buf b) k).
Proof. intros [H1 H2 H3 H4] Hk. split; [apply rd_rd0; lia|by apply bytes_rd0]. Qed.

(** Bits of a byte. *)
Lemma bitwise_u8 (f : Z -> Z -> Z) (F : bool -> bool -> bool) x y :
  (forall x y i, 0 <= i -> Z.testbit (f x y) i = F (Z.testbit x i) (Z.testbit y i)) -> F false false = false ->
  is_u8 x -> is_u8 y -> (0 <= f x y) -> is_u8 (f x y).
Proof.
  intros Hf HF Hx Hy H0. split; [done|]. change 256 with (2 ^ 8). destruct (Z.eq_dec (f x y) 0) as [->|Hne]; [lia|].
  apply Z.log2_lt_pow2; [lia|]. destruct (Z.lt_ge_cases (Z.log2 (f x y)) 8) as [|Hge]; [done|]. exfalso.
  pose proof (Z.bit_log2 (f x y) ltac:(lia)) as Hb. rewrite Hf in Hb by lia.
  assert (forall z, is_u8 z -> Z.testbit z (Z.log2 (f x y)) = false) as Hz.
  { intros z Hz. destruct (Z.eq_dec z 0) as [->|]; [apply Z.bits_0|]. apply Z.bits_above_log2; [mlia|].
    assert (Z.log2 z < 8) by (apply Z.log2_lt_pow2; mlia). lia. }
  rewrite !Hz, HF in Hb by done. done.
Qed.

Lemma mask_bit i p : 0 <= i -> 0 <= p -> Z.testbit (mask i) p = (p =? 7 - i mod 8).
Proof. intros Hi Hp. rewrite mask_pow by done. rewrite Z.pow2_bits_eqb by mlia. apply Z.eqb_sym. Qed.
Lemma mask_u8 i : is_u8 (mask i).
Proof. unfold mask. apply u8_range. Qed.

Lemma not_mask_bit y p : 0 <= p < 8 -> Z.testbit (u8 (Z.lnot y)) p = negb (Z.testbit y p).
Proof. intros Hp. unfold u8. change 256 with (2 ^ 8). rewrite Z.mod_pow2_bits_low by lia. by rewrite Z.lnot_spec by lia. Qed.

Lemma same_bit i j : 0 <= i -> 0 <= j -> (j / 8 =? i / 8) && (7 - j mod 8 =? 7 - i mod 8) = (j =? i).
Proof.
  intros Hi Hj. destruct (Z.eqb_spec j i) as [->|Hne]; [by rewrite !Z.eqb_refl|]. apply andb_false_iff.
  destruct (Z.eqb_spec (j / 8) (i / 8)) as [E|]; [right|by left]. apply Z.eqb_neq. mlia.
Qed.

Lemma is_set_mem n b i : bwf n b -> 0 <= i < n -> is_set b i = Some (mem b i).
Proof.
  intros Hb Hi. unfold is_set. rewrite Z.shiftr_div_pow2 by lia. change (2 ^ 3) with 8.
  destruct (byte_of n b (i / 8) Hb (byte_index n i Hi)) as [-> Hx]. cbn. f_equal. unfold mem.
  set (x := rd0 (bit_buf b) (i / 8)) in *. rewrite mask_pow by lia. destruct (Z.testbit x (7 - i mod 8)) eqn:E.
  - apply truth_true. intros H0. assert (Z.testbit (Z.land (2 ^ (7 - i mod 8)) x) (7 - i mod 8) = false) as H by (rewrite H0; apply Z.bits_0).
    rewrite Z.land_spec, Z.pow2_bits_true, E in H by mlia. done.
  - apply truth_false. apply Z.bits_inj'. intros p Hp. rewrite Z.land_spec, Z.bits_0, Z.pow2_bits_eqb by mlia.
    destruct (Z.eqb_spec (7 - i mod 8) p) as [<-|]; [by rewrite E|done].
Qed.

Lemma land_u8 x y : is_u8 x -> is_u8 y -> is_u8 (Z.land x y).
Proof.
  intros Hx Hy. apply (bitwise_u8 Z.land andb); try done; [intros; apply Z.land_spec|apply Z.land_nonneg; mlia].
Qed.
Lemma lor_u8 x y : is_u8 x -> is_u8 y -> is_u8 (Z.lor x y).
Proof.
  intros Hx Hy. apply (bitwise_u8 Z.lor orb); try done; [intros; apply Z.lor_spec|apply Z.lor_nonneg; mlia].
Qed.
Lemma lxor_u8 x y : is_u8 x -> is_u8 y -> is_u8 (Z.lxor x y).
Proof.
  intros Hx Hy. apply (bitwise_u8 Z.lxor xorb); try done; [intros; apply Z.lxor_spec|apply Z.lxor_nonneg; mlia].
Qed.

Lemma set_mem n b i : bwf n b -> 0 <= i < n ->
  exists b', set b i = Some b' /\ bwf n b' /\ forall j, 0 <= j -> mem b' j = mem b j || (j =? i).
Proof.
  intros Hb Hi. unfold set. rewrite Z.shiftr_div_pow2 by lia. change (2 ^ 3) with 8. pose proof (byte_index n i Hi) as Hk.
  destruct (byte_of n b (i / 8) Hb Hk) as [-> Hx]. cbn.
  destruct (update_byte n b (i / 8) _ Hb Hk (lor_u8 _ _ Hx (mask_u8 i))) as (b' & -> & Hb' & Hm). exists b'. split_and!; [done|done|].
  intros j Hj. rewrite Hm, <- (same_bit i j) by lia. destruct (Z.eqb_spec (j / 8) (i / 8)) as [E|]; [|by rewrite orb_false_r].
  rewrite Z.lor_spec, mask_bit by mlia. unfold mem. by rewrite E.
Qed.

Lemma clear_mem n b i : bwf n b -> 0 <= i < n ->
  exists b', clear b i = Some b' /\ bwf n b' /\ forall j, 0 <= j -> mem b' j = mem b j && negb (j =? i).
Proof.
  intros Hb Hi. unfold clear. rewrite Z.shiftr_div_pow2 by lia. change (2 ^ 3) with 8. pose proof (byte_index n i Hi) as Hk.
  destruct (byte_of n b (i / 8) Hb Hk) as [-> Hx]. cbn.
  destruct (update_byte n b (i / 8) _ Hb Hk (land_u8 _ _ Hx (u8_range (Z.lnot (mask i))))) as (b' & -> & Hb' & Hm). exists b'. split_and!; [done|done|].
  intros j Hj. rewrite Hm, <- (same_bit i j) by lia. destruct (Z.eqb_spec (j / 8) (i / 8)) as [E|]; [|by rewrite andb_true_r].
  rewrite Z.land_spec, not_mask_bit, mask_bit by mlia. unfold mem. by rewrite E.
Qed.

Lemma reset_mem n b : bwf n b -> exists b', reset b = Some b' /\ bwf n b' /\ (forall j, 0 <= j < n -> mem b' j = false) /\ forall j, 0 <= j -> mem b' j = true -> mem b j = true.
Proof.
  intros [H1 H2 H3 H4]. unfold reset. rewrite (proj2 (Z.leb_le _ _)) by mlia. eexists. split; [done|]. split.
  - split; cbn [bit_buf buf_size]; [done| |done|].
    + rewrite Zlen_app, Zlen_replicate. unfold Zlen in *. rewrite length_drop. mlia.
    + apply Forall_app. split; [apply Forall_replicate; mlia|by apply Forall_drop].
  - set (l := replicate (Z.to_nat (buf_size b)) 0 ++ _).
    assert (forall i, 0 <= i < buf_size b -> rd0 l i = 0) as Hz.
    { intros i Hi. unfold rd0, l. rewrite rd_app_l by (rewrite Zlen_replicate; mlia). unfold rd. case_match; [done|]. by rewrite lookup_replicate_2 by lia. }
    split; [intros j Hj; unfold mem; cbn [bit_buf]; rewrite Hz by mlia; apply Z.bits_0|].
    intros j Hj. unfold mem. cbn [bit_buf]. destruct (Z.lt_ge_cases (j / 8) (buf_size b)); [rewrite Hz by mlia; by rewrite Z.bits_0|].
    unfold rd0 at 1, l. rewrite rd_app_r by (rewrite Zlen_replicate; mlia). rewrite Zlen_replicate. unfold rd0, rd.
    do 2 (case_match; breflect; [mlia|]). rewrite lookup_drop. replace (_ + _)%nat with (Z.to_nat (j / 8)) by mlia. done.
Qed.

Lemma new_bits n : 1 <= n -> bwf n (BitOp_new n) /\ forall j, mem (BitOp_new n) j = false.
Proof.
  intros Hn. unfold BitOp_new. split.
  - split; cbn [bit_buf buf_size]; [done|rewrite Zlen_replicate; lia| |apply Forall_replicate; mlia].
    rewrite (proj2 (Z.eqb_neq n 0)) by lia. by rewrite Z.shiftr_div_pow2.
  - intros j. unfold mem, rd0, rd. cbn [bit_buf]. case_match; [apply Z.bits_0|].
    destruct (replicate _ _ !! _) as [x|] eqn:E; [|apply Z.bits_0]. apply lookup_replicate in E as [-> _]. apply Z.bits_0.
Qed.

(** A byte of the group against a byte of the flow. *)
Lemma bytes_agree x y (P : Prop) : is_u8 x -> is_u8 y ->
  ((forall i, 0 <= i < 8 -> Z.testbit y i = true -> Z.testbit x i = true) <-> P) -> (Z.land x y =? y) = true <-> P.
Proof.
  intros Hx Hy <-. rewrite Z.eqb_eq. split.
  - intros E i Hi Hyi. rewrite <- E, Z.land_spec in Hyi. by apply andb_true_iff in Hyi as [? _].
  - intros H. apply Z.bits_inj'. intros i Hi. rewrite Z.land_spec. destruct (Z.testbit y i) eqn:E; [|by rewrite andb_false_r].
    rewrite H; [done| |done]. split; [done|]. destruct (Z.lt_ge_cases i 8); [done|]. exfalso.
    assert (Z.testbit y i = false); [|congruence]. destruct (Z.eq_dec y 0) as [->|]; [apply Z.bits_0|].
    apply Z.bits_above_log2; [mlia|]. assert (Z.log2 y < 8) by (apply Z.log2_lt_pow2; mlia). lia.
Qed.

Lemma truth_bits x y : is_u8 x -> is_u8 y ->
  truth (Z.land x y) = true <-> exists i, 0 <= i < 8 /\ Z.testbit x i = true /\ Z.testbit y i = true.
Proof.
  intros Hx Hy. rewrite truth_true. pose proof (land_u8 x y Hx Hy) as Hz. split.
  - intros H. exists (Z.log2 (Z.land x y)). assert (Z.testbit (Z.land x y) (Z.log2 (Z.land x y)) = true) as Hb by (apply Z.bit_log2; mlia).
    rewrite Z.land_spec in Hb. apply andb_true_iff in Hb. split; [|done]. split; [apply Z.log2_nonneg|]. apply Z.log2_lt_pow2; mlia.
  - intros (i & Hi & H1 & H2) E. assert (Z.testbit (Z.land x y) i = true) as Hb by (by rewrite Z.land_spec, H1, H2).
    rewrite E, Z.bits_0 in Hb. done.
Qed.

Lemma bit_place j : 0 <= j -> exists k i, k = j / 8 /\ i = 7 - j mod 8 /\ 0 <= i < 8 /\ 0 <= k.
Proof. intros Hj. eexists _, _. split_and!; [done|done|mlia|mlia|mlia]. Qed.
Lemma place_bit k i : 0 <= k -> 0 <= i < 8 -> exists j, 0 <= j /\ j / 8 = k /\ 7 - j mod 8 = i.
Proof. intros Hk Hi. exists (8 * k + (7 - i)). split_and!; mlia. Qed.
