(* ===== verification/Flowbits.v ===== *)
(** * Flowbits: named bits of a flow (ips_options/ips_flowbits.cc)

    Rules set and test named bits that live as long as the flow, so that one
    packet can prepare the ground for another.  The parser gives every name a
    number and collects the names of a group; a flow has a vector of bits
    ([BitOp]) by number.  Text is a list of bytes; the two name tables
    ([GHash]) are finite maps.  [None] stands for an access outside an array. *)

From S2P Require Import Prelude Extract MString BoyerMoore ParseUtils Hash BitOp.

(** ** Data *)

Inductive fb_type := FLOWBITS_SET | FLOWBITS_UNSET | FLOWBITS_TOGGLE | FLOWBITS_ISSET | FLOWBITS_ISNOTSET
  | FLOWBITS_RESET | FLOWBITS_NOALERT | FLOWBITS_SETX.
Inductive Flowbits_eval := FLOWBITS_AND | FLOWBITS_OR | FLOWBITS_ANY | FLOWBITS_ALL.
#[export] Instance fb_type_eq_dec : EqDecision fb_type.
Proof. solve_decision. Defined.
#[export] Instance fb_eval_eq_dec : EqDecision Flowbits_eval.
Proof. solve_decision. Defined.
(** The codes 0x01 .. 0x80. *)
Definition type_code (t : fb_type) : Z :=
  match t with
  | FLOWBITS_SET => 1 | FLOWBITS_UNSET => 2 | FLOWBITS_TOGGLE => 4 | FLOWBITS_ISSET => 8 | FLOWBITS_ISNOTSET => 16
  | FLOWBITS_RESET => 32 | FLOWBITS_NOALERT => 64 | FLOWBITS_SETX => 128
  end.

Abbreviation text := (list Z).

Record FLOWBITS_OBJECT := MkObj { obj_id : Z; types : Z; obj_toggle : Z; obj_set : Z; obj_isset : Z }.

(** [ids]: the array, if there is one; [num_ids] has 8 bits. *)
Record FLOWBITS_OP := MkOp {
  ids : option (list Z);
  num_ids : Z;
  type : fb_type;
  eval : Flowbits_eval;
  group : option text;
  group_id : Z }.

Record FLOWBITS_GRP := MkGrp { grp_count : Z; max_id : Z; grp_id : Z; GrpBitOp : option BitOp }.

Record FlowBitState := MkState {
  op_list : list FLOWBITS_OP;
  flowbits_hash : gmap text FLOWBITS_OBJECT;
  flowbits_grp_hash : gmap text FLOWBITS_GRP;
  flowbits_bit_queue : list Z;
  flowbits_count : Z;
  flowbits_grp_count : Z;
  flowbits_toggle : Z }.

Definition flowbits_ginit : FlowBitState := MkState [] ∅ ∅ [] 0 0 1.

(** ** Evaluation *)

Inductive fb_status := MATCH | NO_MATCH | NO_ALERT | FAILED_BIT.

(** [for (i = 0; i < num_ids; i++) ... ids[i]] *)
Definition op_ids (o : FLOWBITS_OP) : option (list Z) :=
  let l := default [] (ids o) in
  if num_ids o <=? Zlen l then Some (take (Z.to_nat (num_ids o)) l) else None.

Fixpoint set_all (b : BitOp) (l : list Z) : option BitOp :=
  match l with [] => Some b | i :: l => b ← set b i; set_all b l end.
Fixpoint clear_all (b : BitOp) (l : list Z) : option BitOp :=
  match l with [] => Some b | i :: l => b ← clear b i; clear_all b l end.
Fixpoint toggle_all (b : BitOp) (l : list Z) : option BitOp :=
  match l with
  | [] => Some b
  | i :: l => s ← is_set b i; b ← (if (s : bool) then clear b i else set b i); toggle_all b l
  end.

(** A loop over the first [n] bytes of a flow's bits and of a group's. *)
Fixpoint combine_bytes (f : Z -> Z -> Z) (g b : BitOp) (l : list Z) : option BitOp :=
  match l with
  | [] => Some b
  | i :: l =>
      x ← get_buf_element b i; y ← get_buf_element g i;
      b ← set_buf_element b i (f x y); combine_bytes f g b l
  end.

(** What [clear_group_bit] and [toggle_group_bit] share. *)
Definition change_group (f : Z -> Z -> Z) (s : FlowBitState) (b : BitOp) (grp : option text) : option (Z * BitOp) :=
  match grp ≫= (fun g => flowbits_grp_hash s !! g) with
  | None => Some (0, b)
  | Some g =>
      if (size b <=? max_id g) || (grp_count g =? 0) then Some (0, b)
      else
        gb ← GrpBitOp g;
        b ← combine_bytes f gb b (seqZ 0 (Z.shiftr (max_id g + 8) 3));
        Some (1, b)
  end.
Definition clear_group_bit := change_group (fun x y => Z.land x (u8 (Z.lnot y))).
Definition toggle_group_bit := change_group Z.lxor.

Definition set_xbits_to_group (s : FlowBitState) (b : BitOp) (l : list Z) (grp : option text) : option (Z * BitOp) :=
  '(r, b) ← clear_group_bit s b grp;
  if r =? 0 then Some (0, b) else b ← set_all b l; Some (1, b).

Fixpoint all_set (b : BitOp) (l : list Z) : option bool :=
  match l with [] => Some true | i :: l => s ← is_set b i; if (s : bool) then all_set b l else Some false end.
Fixpoint any_set (b : BitOp) (l : list Z) : option bool :=
  match l with [] => Some false | i :: l => s ← is_set b i; if (s : bool) then Some true else any_set b l end.
Fixpoint group_all (gb b : BitOp) (l : list Z) : option bool :=
  match l with
  | [] => Some true
  | i :: l =>
      x ← get_buf_element b i; y ← get_buf_element gb i;
      if negb (Z.land x y =? y) then Some false else group_all gb b l
  end.
Fixpoint group_any (gb b : BitOp) (l : list Z) : option bool :=
  match l with
  | [] => Some false
  | i :: l =>
      x ← get_buf_element b i; y ← get_buf_element gb i;
      if truth (Z.land x y) then Some true else group_any gb b l
  end.

(** The group of an option with [all] or [any]; a null group is not looked up. *)
Definition is_set_flowbits (s : FlowBitState) (b : BitOp) (e : Flowbits_eval) (l : list Z) (grp : option text) : option bool :=
  match e with
  | FLOWBITS_AND => all_set b l
  | FLOWBITS_OR => any_set b l
  | FLOWBITS_ALL | FLOWBITS_ANY =>
      name ← grp;
      match flowbits_grp_hash s !! name with
      | None => Some false
      | Some g =>
          gb ← GrpBitOp g;
          let bytes := seqZ 0 (Z.shiftr (max_id g) 3 + 1) in
          match e with FLOWBITS_ALL => group_all gb b bytes | _ => group_any gb b bytes end
      end
  end.

(** On the bits of the flow. *)
Definition check_bits (s : FlowBitState) (o : FLOWBITS_OP) (b : BitOp) : option (fb_status * BitOp) :=
  l ← op_ids o;
  match type o with
  | FLOWBITS_SET => b ← set_all b l; Some (MATCH, b)
  | FLOWBITS_SETX => '(r, b) ← set_xbits_to_group s b l (group o); Some (if r =? 1 then MATCH else NO_MATCH, b)
  | FLOWBITS_UNSET =>
      if decide (eval o = FLOWBITS_ALL) then '(_, b) ← clear_group_bit s b (group o); Some (MATCH, b)
      else b ← clear_all b l; Some (MATCH, b)
  | FLOWBITS_RESET =>
      match group o with
      | None => b ← reset b; Some (MATCH, b)
      | Some _ => '(_, b) ← clear_group_bit s b (group o); Some (MATCH, b)
      end
  | FLOWBITS_ISSET =>
      r ← is_set_flowbits s b (eval o) l (group o); Some (if (r : bool) then MATCH else FAILED_BIT, b)
  | FLOWBITS_ISNOTSET =>
      r ← is_set_flowbits s b (eval o) l (group o); Some (if negb r then MATCH else FAILED_BIT, b)
  | FLOWBITS_TOGGLE =>
      match group o with
      | Some _ => '(_, b) ← toggle_group_bit s b (group o); Some (MATCH, b)
      | None => b ← toggle_all b l; Some (MATCH, b)
      end
  | FLOWBITS_NOALERT => Some (NO_ALERT, b)
  end.

(** [flow]: [None] without a flow; its bits, made when first needed. *)
Definition check_flowbits (s : FlowBitState) (o : FLOWBITS_OP) (flow : option (option BitOp))
    : option (fb_status * option (option BitOp)) :=
  match flow with
  | None => Some (NO_MATCH, None)
  | Some bitop =>
      '(r, b) ← check_bits s o (default (BitOp_new (flowbits_count s)) bitop);
      Some (r, Some (Some b))
  end.

Definition FlowBits_SetOperation (o : FLOWBITS_OP) : bool :=
  truth (Z.land (type_code (type o)) (Z.lor (Z.lor (Z.lor (Z.lor 1 128) 2) 4) 32)).

(** ** Hash and equality *)

Definition eval_code (e : Flowbits_eval) : Z :=
  match e with FLOWBITS_AND => 0 | FLOWBITS_OR => 1 | FLOWBITS_ANY => 2 | FLOWBITS_ALL => 3 end.

(** The loop over the ids: [i] is taken when three came before it. *)
Definition hash_round (l : list Z) (st : triple * Z) (i : Z) : triple * Z :=
  let '((a, b, c), j) := st in
  let '(t, j) :=
    if j >=? 3 then (mix 32 (u32 (a + rd0 l (i - 2)), u32 (b + rd0 l (i - 1)), u32 (c + rd0 l i)), j - 3)
    else ((a, b, c), j) in
  (t, j + 1).

Definition hash (o : FLOWBITS_OP) : Z :=
  let l := default [] (ids o) in
  let n := num_ids o in
  let t := mix_name (mix 32 (eval_code (eval o), type_code (type o), 0)) "flowbits" in
  let '((a, b, c), j) := fold_left (hash_round l) (seqZ 0 n) (t, 0) in
  let '(a, b) :=
    if j =? 1 then (u32 (a + rd0 l (n - 1)), u32 (b + n))
    else if j =? 2 then (u32 (a + rd0 l (n - 2)), u32 (b + Z.lor (rd0 l (n - 1)) (Z.shiftl n 16)))
    else (a, b) in
  (finalize 32 (a, b, u32 (c + group_id o))).2.

(** [operator==]; the name is the same for all of them. *)
Definition eqb (l r : FLOWBITS_OP) : bool :=
  (num_ids l =? num_ids r) && bool_decide (eval l = eval r) && bool_decide (type l = type r) && (group_id l =? group_id r) &&
  forallb (fun i => rd0 (default [] (ids l)) i =? rd0 (default [] (ids r)) i) (seqZ 0 (num_ids l)).

Lemma hash_round_ext l r t j i :
  (forall k, 0 <= k <= i -> rd0 l k = rd0 r k) -> 0 <= j <= i -> hash_round l (t, j) i = hash_round r (t, j) i.
Proof.
  intros H Hj. unfold hash_round. destruct t as [[a b] c]. bcase (j >=? 3) as G; [|done]. by rewrite !H by lia.
Qed.

Lemma hash_rounds l r k : forall n t j,
  (forall i, 0 <= i < n -> rd0 l i = rd0 r i) -> 0 <= j <= k -> 0 <= k -> k <= n ->
  fold_left (hash_round l) (seqZ k (n - k)) (t, j) = fold_left (hash_round r) (seqZ k (n - k)) (t, j).
Proof.
  intros n. remember (Z.to_nat (n - k)) as m eqn:Em. revert k Em. induction m as [|m IH]; intros k Em t j H Hj Hk Hn.
  - replace (n - k) with 0 by lia. done.
  - rewrite seqZ_cons by lia. cbn [fold_left]. rewrite (hash_round_ext l r) by (done || intros; apply H; lia).
    destruct (hash_round r (t, j) k) as [t' j'] eqn:E. replace (Z.pred (n - k)) with (n - Z.succ k) by lia. apply IH; try done; try lia.
    unfold hash_round in E. destruct t as [[a b] c]. bcases_hyp; injection E as _ <-; lia.
Qed.

Lemma hash_rounds_bound l k : forall n t j, 0 <= j <= k -> k <= n -> 0 <= (fold_left (hash_round l) (seqZ k (n - k)) (t, j)).2 <= n.
Proof.
  intros n. remember (Z.to_nat (n - k)) as m eqn:Em. revert k Em. induction m as [|m IH]; intros k Em t j Hj Hn.
  - rewrite seqZ_nil by lia. cbn [fold_left snd]. lia.
  - rewrite seqZ_cons by lia. cbn [fold_left]. destruct (hash_round l (t, j) k) as [t' j'] eqn:E.
    replace (Z.pred (n - k)) with (n - Z.succ k) by lia. apply IH; try lia.
    unfold hash_round in E. destruct t as [[a b] c]. bcases_hyp; injection E as _ <-; lia.
Qed.

Lemma flowbits_eqb_hash x y : eqb x y = true -> hash x = hash y.
Proof.
  unfold eqb. intros H. repeat (apply andb_true_iff in H as [H ?]). breflect. repeat match goal with H : bool_decide _ = true |- _ => apply bool_decide_eq_true in H end.
  match goal with H : forallb _ _ = true |- _ => rename H into Hall end. rewrite forallb_forall in Hall.
  assert (forall i, 0 <= i < num_ids x -> rd0 (default [] (ids x)) i = rd0 (default [] (ids y)) i) as Hids.
  { intros i Hi. apply Z.eqb_eq, Hall, list_elem_of_In, elem_of_seqZ. lia. }
  unfold hash. repeat match goal with H : _ x = _ y |- _ => rewrite <- H end.
  destruct (Z.le_gt_cases 0 (num_ids x)) as [Hn|Hn].
  - pose proof (hash_rounds (default [] (ids x)) (default [] (ids y)) 0 (num_ids x) (mix_name (mix 32 (eval_code (eval x), type_code (type x), 0)) "flowbits") 0 Hids ltac:(lia) ltac:(lia) Hn) as Hr.
    pose proof (hash_rounds_bound (default [] (ids x)) 0 (num_ids x) (mix_name (mix 32 (eval_code (eval x), type_code (type x), 0)) "flowbits") 0 ltac:(lia) Hn) as Hb.
    rewrite Z.sub_0_r in *. rewrite <- Hr. destruct (fold_left _ _ _) as [[[a b] c] j]. cbn in Hb.
    bcase (j =? 1) as G1; [by rewrite Hids by lia|]. bcase (j =? 2) as G2; [by rewrite !Hids by lia|]. done.
  - rewrite seqZ_nil by lia. cbn. done.
Qed.

#[export] Instance Flowbits_key : OptionKey FLOWBITS_OP :=
  {| opt_hash := hash; opt_eqb := eqb; opt_eqb_hash := flowbits_eqb_hash |}.

(** ** Parsing

    A function that calls [ParseAbort] ends the program: [None].  [ParseError]
    counts an error and goes on: the state carries the number of errors. *)

Record pstate := MkP { fbs : FlowBitState; errors : nat }.
Definition ParseError (p : pstate) : pstate := MkP (fbs p) (S (errors p)).

Definition isalnum (c : Z) : bool := isdigit c || ((65 <=? c) && (c <=? 90)) || ((97 <=? c) && (c <=? 122)).
(** ".-_" *)
Definition validateName (name : text) : bool := forallb (fun c => isalnum c || existsb (Z.eqb c) [46; 45; 95]) name.

(** [strcasecmp]: 0 for equal. *)
Definition same_word (w : text) (s : text) : bool := bool_decide (map toupper w = map toupper s).
Definition word_set : text := [115; 101; 116].
Definition word_setx : text := [115; 101; 116; 120].
Definition word_unset : text := [117; 110; 115; 101; 116].
Definition word_toggle : text := [116; 111; 103; 103; 108; 101].
Definition word_isset : text := [105; 115; 115; 101; 116].
Definition word_isnotset : text := [105; 115; 110; 111; 116; 115; 101; 116].
Definition word_noalert : text := [110; 111; 97; 108; 101; 114; 116].
Definition word_reset : text := [114; 101; 115; 101; 116].
Definition word_all : text := [97; 108; 108].
Definition word_any : text := [97; 110; 121].

(** A new name: a number from the queue, or the next one. *)
Definition new_item (p : pstate) : FLOWBITS_OBJECT * pstate :=
  let s := fbs p in
  match flowbits_bit_queue s with
  | id :: q =>
      (MkObj (u16 id) 0 0 0 0,
       MkP (MkState (op_list s) (flowbits_hash s) (flowbits_grp_hash s) q (flowbits_count s) (flowbits_grp_count s)
              (flowbits_toggle s)) (errors p))
  | [] =>
      let id := flowbits_count s in
      let p := MkP (MkState (op_list s) (flowbits_hash s) (flowbits_grp_hash s) [] (u32 (id + 1)) (flowbits_grp_count s)
                      (flowbits_toggle s)) (errors p) in
      (MkObj (u16 id) 0 0 0 0, if u32 (id + 1) =? 0 then ParseError p else p)
  end.

Definition put_item (p : pstate) (name : text) (o : FLOWBITS_OBJECT) : pstate :=
  let s := fbs p in
  MkP (MkState (op_list s) (<[name := o]> (flowbits_hash s)) (flowbits_grp_hash s) (flowbits_bit_queue s)
         (flowbits_count s) (flowbits_grp_count s) (flowbits_toggle s)) (errors p).

Definition getFlowBitItem (p : pstate) (name : text) (ty : fb_type) : option (FLOWBITS_OBJECT * pstate) :=
  if negb (validateName name) then None
  else
    let '(item, p) :=
      match flowbits_hash (fbs p) !! name with
      | Some item => (item, p)
      | None => new_item p
      end in
    let sets := match ty with FLOWBITS_SET | FLOWBITS_SETX | FLOWBITS_UNSET | FLOWBITS_TOGGLE | FLOWBITS_RESET => 1 | _ => 0 end in
    let issets := match ty with FLOWBITS_ISSET | FLOWBITS_ISNOTSET => 1 | _ => 0 end in
    let item := MkObj (obj_id item) (Z.lor (types item) (type_code ty)) (flowbits_toggle (fbs p)) (obj_set item + sets)
                  (obj_isset item + issets) in
    Some (item, put_item p name item).

Fixpoint get_items (p : pstate) (names : list text) (ty : fb_type) : option (list Z * pstate) :=
  match names with
  | [] => Some ([], p)
  | n :: names =>
      '(item, p) ← getFlowBitItem p n ty;
      '(l, p) ← get_items p names ty;
      Some (obj_id item :: l, p)
  end.

Definition with_ids (o : FLOWBITS_OP) (l : list Z) (e : Flowbits_eval) : FLOWBITS_OP :=
  MkOp (Some l) (u8 (Zlen l)) (type o) e (group o) (group_id o).

(** The names between separators. *)
Definition split_names (sep : Z) (names : text) : option (list text) :=
  r ← mSplit [sep] 0 0 names; Some (default [] r).

Definition has_char (c : Z) (s : text) : bool := existsb (Z.eqb c) s.

Definition processFlowbits (p : pstate) (names : text) (o : FLOWBITS_OP) : option (FLOWBITS_OP * pstate) :=
  if Zlen names =? 0 then Some (o, p)
  else if has_char 124 names then
    if has_char 38 names then Some (o, ParseError p)
    else
      toks ← split_names 124 names;
      '(l, p) ← get_items p toks (type o);
      Some (with_ids o l FLOWBITS_OR, p)
  else if has_char 38 names then
    toks ← split_names 38 names;
    '(l, p) ← get_items p toks (type o);
    Some (with_ids o l FLOWBITS_AND, p)
  else if same_word names word_all then Some (MkOp (ids o) (num_ids o) (type o) FLOWBITS_ALL (group o) (group_id o), p)
  else if same_word names word_any then Some (MkOp (ids o) (num_ids o) (type o) FLOWBITS_ANY (group o) (group_id o), p)
  else
    '(item, p) ← getFlowBitItem p names (type o);
    Some (MkOp (Some [obj_id item]) 1 (type o) (eval o) (group o) (group_id o), p).

Definition is_some {A} (o : option A) : bool := match o with Some _ => true | None => false end.

(** The syntax that is accepted for each operation. *)
Definition syntax_ok (o : FLOWBITS_OP) : bool :=
  let has_ids := is_some (ids o) in
  let has_group := is_some (group o) in
  let e := eval o in
  match type o with
  | FLOWBITS_SET => bool_decide (e = FLOWBITS_AND) && has_ids
  | FLOWBITS_SETX => bool_decide (e = FLOWBITS_AND) && has_group && has_ids
  | FLOWBITS_UNSET | FLOWBITS_TOGGLE =>
      (bool_decide (e = FLOWBITS_AND) && negb has_group && has_ids) || (bool_decide (e = FLOWBITS_ALL) && has_group)
  | FLOWBITS_ISSET | FLOWBITS_ISNOTSET =>
      ((bool_decide (e = FLOWBITS_AND) || bool_decide (e = FLOWBITS_OR)) && negb has_group && has_ids) ||
      ((bool_decide (e = FLOWBITS_ANY) || bool_decide (e = FLOWBITS_ALL)) && has_group)
  | FLOWBITS_RESET => negb has_ids
  | FLOWBITS_NOALERT => negb has_ids && negb has_group
  end.
Definition validateFlowbitsSyntax (p : pstate) (o : FLOWBITS_OP) : pstate := if syntax_ok o then p else ParseError p.

Definition getFlowBitGroup (p : pstate) (name : text) : option (FLOWBITS_GRP * pstate) :=
  if negb (validateName name) then None
  else
    let s := fbs p in
    match flowbits_grp_hash s !! name with
    | Some g => Some (g, p)
    | None =>
        let n := u32 (flowbits_grp_count s + 1) in
        let g := MkGrp 0 0 n None in
        Some (g, MkP (MkState (op_list s) (flowbits_hash s) (<[name := g]> (flowbits_grp_hash s)) (flowbits_bit_queue s)
                        (flowbits_count s) n (flowbits_toggle s)) (errors p))
    end.

Definition set_group (o : FLOWBITS_OP) (name : text) (g : FLOWBITS_GRP) : FLOWBITS_OP :=
  MkOp (ids o) (num_ids o) (type o) (eval o) (Some name) (grp_id g).

Definition push_op (p : pstate) (o : FLOWBITS_OP) : pstate :=
  let s := fbs p in
  MkP (MkState (o :: op_list s) (flowbits_hash s) (flowbits_grp_hash s) (flowbits_bit_queue s) (flowbits_count s)
         (flowbits_grp_count s) (flowbits_toggle s)) (errors p).

(** The group of the option is null when this is called. *)
Definition processFlowBitsWithGroup (p : pstate) (names : text) (groupName : option text) (o : FLOWBITS_OP)
    : option (FLOWBITS_OP * pstate) :=
  '(o, p) ← processFlowbits p names o;
  '(o, p) ← (match groupName with
              | Some name => '(g, p) ← getFlowBitGroup p name; Some (set_group o name g, p)
              | None => Some (o, p)
              end);
  let p := validateFlowbitsSyntax p o in
  Some (o, if is_some (group o) then push_op p o else p).

Definition new_op (ty : fb_type) : FLOWBITS_OP := MkOp None 0 ty FLOWBITS_AND None 0.

(** The operations that take names of bits. *)
Definition bit_type (w : text) : option fb_type :=
  if same_word word_set w then Some FLOWBITS_SET
  else if same_word word_setx w then Some FLOWBITS_SETX
  else if same_word word_unset w then Some FLOWBITS_UNSET
  else if same_word word_toggle w then Some FLOWBITS_TOGGLE
  else if same_word word_isset w then Some FLOWBITS_ISSET
  else if same_word word_isnotset w then Some FLOWBITS_ISNOTSET
  else None.

Definition flowbits_parse (p : pstate) (data : text) : option (FLOWBITS_OP * pstate) :=
  toks ← mSplit [44] 0 0 data;
  match default [] toks with
  | [] => None
  | typeName :: args =>
      if Zlen args >? 2 then None
      else
        match bit_type typeName with
        | Some ty =>
            match args with
            | [] => None
            | names :: rest => processFlowBitsWithGroup p names (head rest) (new_op ty)
            end
        | None =>
            if same_word word_noalert typeName then
              match args with [] => Some (new_op FLOWBITS_NOALERT, p) | _ => None end
            else if same_word word_reset typeName then
              match args with
              | [] => Some (new_op FLOWBITS_RESET, p)
              | [name] => '(g, p) ← getFlowBitGroup p name; Some (set_group (new_op FLOWBITS_RESET) name g, p)
              | _ => None
              end
            else None
        end
  end.

(** [FlowbitsModule]: command and arguments put together again. *)
Definition module_args (command : text) (args : list text) : text := command ++ concat (map (fun a => [44; 32] ++ a) args).

(** *** Groups *)

Definition update_group (g : FLOWBITS_GRP) (id : Z) : option FLOWBITS_GRP :=
  gb ← GrpBitOp g;
  gb ← set gb id;
  Some (MkGrp (u16 (grp_count g + 1)) (if max_id g <? id then id else max_id g) (grp_id g) (Some gb)).
Fixpoint update_all (g : FLOWBITS_GRP) (l : list Z) : option FLOWBITS_GRP :=
  match l with [] => Some g | i :: l => g ← update_group g i; update_all g l end.

(** The queue of operations. *)
Fixpoint init_ops (groups : gmap text FLOWBITS_GRP) (l : list FLOWBITS_OP) : option (gmap text FLOWBITS_GRP) :=
  match l with
  | [] => Some groups
  | o :: l =>
      name ← group o;
      g ← groups !! name;
      l' ← op_ids o;
      g ← update_all g l';
      init_ops (<[name := g]> groups) l
  end.

Definition new_group_bits (n : Z) (g : FLOWBITS_GRP) : option FLOWBITS_GRP :=
  b ← reset (BitOp_new n); Some (MkGrp (grp_count g) (max_id g) (grp_id g) (Some b)).

Definition init_groups (s : FlowBitState) : option FlowBitState :=
  let fresh := omap (new_group_bits (flowbits_count s)) (flowbits_grp_hash s) in
  if decide (dom fresh = dom (flowbits_grp_hash s)) then
    groups ← init_ops fresh (op_list s);
    Some (MkState [] (flowbits_hash s) groups (flowbits_bit_queue s) (flowbits_count s) (flowbits_grp_count s)
            (flowbits_toggle s))
  else None.

(** ** Bits as a set of names *)

Section Names.
Variable n : Z.
(** The names, and their numbers. *)
Variable D : gset text.
Variable idf : text -> Z.
Hypothesis id_range : forall x, x ∈ D -> 0 <= idf x < n.
Hypothesis id_inj : forall x y, x ∈ D -> y ∈ D -> idf x = idf y -> x = y.

Record rel (S : gset text) (b : BitOp) : Prop := {
  rel_wf : bwf n b;
  rel_sub : S ⊆ D;
  rel_mem x : x ∈ D -> mem b (idf x) = bool_decide (x ∈ S) }.

(** A group: its bits are its members, and below [mx]. *)
Record grel (G : gset text) (gb : BitOp) (mx : Z) : Prop := {
  grel_rel : rel G gb;
  grel_max : 0 <= mx < n;
  grel_bits j : 0 <= j -> mem gb j = true -> j <= mx /\ exists x, x ∈ G /\ idf x = j }.

Lemma id_eqb x y : x ∈ D -> y ∈ D -> (idf x =? idf y) = bool_decide (x = y).
Proof.
  intros Hx Hy. case_bool_decide as H; [subst; apply Z.eqb_refl|]. apply Z.eqb_neq. intros E. by apply H, id_inj.
Qed.

Lemma rel_is_set S b x : rel S b -> x ∈ D -> is_set b (idf x) = Some (bool_decide (x ∈ S)).
Proof. intros [Hb Hs Hm] Hx. rewrite (is_set_mem n) by auto. by rewrite Hm. Qed.

Lemma rel_set S b x : rel S b -> x ∈ D -> exists b', set b (idf x) = Some b' /\ rel (S ∪ {[x]}) b'.
Proof.
  intros [Hb Hs Hm] Hx. destruct (set_mem n b (idf x) Hb (id_range x Hx)) as (b' & -> & Hb' & Hm'). exists b'. split; [done|].
  split; [done|set_solver|]. intros y Hy. rewrite Hm', Hm, id_eqb by (try apply id_range; done).
  destruct (decide (y ∈ S)), (decide (y = x)); repeat (case_bool_decide; try done); set_solver.
Qed.

Lemma rel_clear S b x : rel S b -> x ∈ D -> exists b', clear b (idf x) = Some b' /\ rel (S ∖ {[x]}) b'.
Proof.
  intros [Hb Hs Hm] Hx. destruct (clear_mem n b (idf x) Hb (id_range x Hx)) as (b' & -> & Hb' & Hm'). exists b'. split; [done|].
  split; [done|set_solver|]. intros y Hy. rewrite Hm', Hm, id_eqb by (try apply id_range; done).
  destruct (decide (y ∈ S)), (decide (y = x)); repeat (case_bool_decide; try done); set_solver.
Qed.

Definition toggle_name (x : text) (S : gset text) : gset text := if decide (x ∈ S) then S ∖ {[x]} else S ∪ {[x]}.

Lemma rel_ext S S' b : S ≡ S' -> rel S b -> rel S' b.
Proof. intros H%leibniz_equiv. by subst. Qed.

Lemma set_all_rel names : forall S b, rel S b -> Forall (fun x => x ∈ D) names ->
  exists b', set_all b (map idf names) = Some b' /\ rel (S ∪ list_to_set names) b'.
Proof.
  induction names as [|x names IH]; intros S b Hr Hn; cbn [map set_all list_to_set].
  - exists b. split; [done|]. eapply rel_ext; [|exact Hr]. set_solver.
  - apply Forall_cons in Hn as [Hx Hn]. destruct (rel_set S b x Hr Hx) as (b1 & -> & H1). cbn.
    destruct (IH _ _ H1 Hn) as (b2 & -> & H2). exists b2. split; [done|]. eapply rel_ext; [|exact H2]. set_solver.
Qed.

Lemma clear_all_rel names : forall S b, rel S b -> Forall (fun x => x ∈ D) names ->
  exists b', clear_all b (map idf names) = Some b' /\ rel (S ∖ list_to_set names) b'.
Proof.
  induction names as [|x names IH]; intros S b Hr Hn; cbn [map clear_all list_to_set].
  - exists b. split; [done|]. eapply rel_ext; [|exact Hr]. set_solver.
  - apply Forall_cons in Hn as [Hx Hn]. destruct (rel_clear S b x Hr Hx) as (b1 & -> & H1). cbn.
    destruct (IH _ _ H1 Hn) as (b2 & -> & H2). exists b2. split; [done|]. eapply rel_ext; [|exact H2]. set_solver.
Qed.

Lemma toggle_all_rel names : forall S b, rel S b -> Forall (fun x => x ∈ D) names ->
  exists b', toggle_all b (map idf names) = Some b' /\ rel (foldl (fun S x => toggle_name x S) S names) b'.
Proof.
  induction names as [|x names IH]; intros S b Hr Hn; cbn [map toggle_all foldl]; [by exists b|].
  apply Forall_cons in Hn as [Hx Hn]. rewrite (rel_is_set S b x Hr Hx). cbn. unfold toggle_name at 2.
  case_bool_decide as Hxs.
  - rewrite decide_True by done. destruct (rel_clear S b x Hr Hx) as (b1 & -> & H1). cbn. by apply IH.
  - rewrite decide_False by done. destruct (rel_set S b x Hr Hx) as (b1 & -> & H1). cbn. by apply IH.
Qed.

Lemma all_set_rel names S b : rel S b -> Forall (fun x => x ∈ D) names ->
  all_set b (map idf names) = Some (bool_decide (list_to_set names ⊆ S)).
Proof.
  intros Hr Hn. induction Hn as [|x names Hx Hn IH]; cbn [map all_set list_to_set].
  - by rewrite bool_decide_true by set_solver.
  - rewrite (rel_is_set S b x Hr Hx). cbn. destruct (decide (x ∈ S)) as [H|H].
    + rewrite (bool_decide_eq_true_2 _ H), IH. f_equal. apply bool_decide_ext. set_solver.
    + rewrite (bool_decide_eq_false_2 _ H), bool_decide_false by set_solver. done.
Qed.

Lemma any_set_rel names S b : rel S b -> Forall (fun x => x ∈ D) names ->
  any_set b (map idf names) = Some (bool_decide (list_to_set names ∩ S ≠ ∅)).
Proof.
  intros Hr Hn. induction Hn as [|x names Hx Hn IH]; cbn [map any_set list_to_set].
  - by rewrite bool_decide_false by set_solver.
  - rewrite (rel_is_set S b x Hr Hx). cbn. destruct (decide (x ∈ S)) as [H|H].
    + rewrite (bool_decide_eq_true_2 _ H), bool_decide_true by set_solver. done.
    + rewrite (bool_decide_eq_false_2 _ H), IH. f_equal. apply bool_decide_ext. set_solver.
Qed.

(** *** Groups *)

(** A loop over the first [m] bytes. *)
Lemma combine_mem (f : Z -> Z -> Z) (F : bool -> bool -> bool) gb :
  (forall x y i, is_u8 x -> is_u8 y -> 0 <= i < 8 -> Z.testbit (f x y) i = F (Z.testbit x i) (Z.testbit y i)) ->
  (forall x y, is_u8 x -> is_u8 y -> is_u8 (f x y)) -> bwf n gb ->
  forall l b, bwf n b -> NoDup l -> Forall (fun k => 0 <= k < n) l ->
  exists b', combine_bytes f gb b l = Some b' /\ bwf n b' /\
    forall j, 0 <= j -> mem b' j = if decide (j / 8 ∈ l) then F (mem b j) (mem gb j) else mem b j.
Proof.
  intros Hf Hu Hg. induction l as [|k l IH]; intros b Hb Hnd Hl; cbn [combine_bytes].
  - exists b. split_and!; [done|done|]. intros j _. by rewrite decide_False by set_solver.
  - apply Forall_cons in Hl as [Hk Hl]. apply NoDup_cons in Hnd as [Hnk Hnd].
    destruct (byte_of n b k Hb Hk) as [-> Hx]. destruct (byte_of n gb k Hg Hk) as [-> Hy]. cbn.
    destruct (update_byte n b k _ Hb Hk (Hu _ _ Hx Hy)) as (b1 & -> & Hb1 & Hm1). cbn.
    destruct (IH b1 Hb1 Hnd Hl) as (b2 & -> & Hb2 & Hm2). exists b2. split_and!; [done|done|].
    intros j Hj. rewrite Hm2, Hm1 by done. destruct (Z.eqb_spec (j / 8) k) as [E|E].
    + rewrite decide_False by congruence. rewrite decide_True by (rewrite E; left). rewrite Hf by mlia || done. unfold mem. by rewrite E.
    + destruct (decide (j / 8 ∈ l)) as [H|H]; [by rewrite decide_True by (by right)|].
      rewrite decide_False; [done|]. intros [?|?]%elem_of_cons; done.
Qed.

Lemma group_bytes mx : 0 <= mx < n -> NoDup (seqZ 0 (Z.shiftr (mx + 8) 3)) /\ Forall (fun k => 0 <= k < n) (seqZ 0 (Z.shiftr (mx + 8) 3)) /\
  Z.shiftr (mx + 8) 3 = Z.shiftr mx 3 + 1 /\ forall j, 0 <= j <= mx -> j / 8 ∈ seqZ 0 (Z.shiftr (mx + 8) 3).
Proof.
  intros Hm. rewrite !Z.shiftr_div_pow2 by lia. change (2 ^ 3) with 8. split_and!; [apply NoDup_seqZ| |mlia|].
  - apply Forall_forall. intros k Hk%elem_of_seqZ. mlia.
  - intros j Hj. apply elem_of_seqZ. mlia.
Qed.

Definition symdiff (S G : gset text) : gset text := (S ∖ G) ∪ (G ∖ S).

Section Group.
Variables (S G : gset text) (b gb : BitOp) (mx : Z).
Hypothesis (Hb : rel S b) (Hg : grel G gb mx).
Abbreviation group_range := (seqZ 0 (Z.shiftr (mx + 8) 3)).

Lemma group_mem x : x ∈ D -> mem gb (idf x) = bool_decide (x ∈ G).
Proof. apply (rel_mem _ _ (grel_rel _ _ _ Hg)). Qed.

(** Combining with a function that does nothing where the group has no bit. *)
Lemma combine_rel (f : Z -> Z -> Z) (F : bool -> bool -> bool) (T : gset text) :
  (forall x y i, is_u8 x -> is_u8 y -> 0 <= i < 8 -> Z.testbit (f x y) i = F (Z.testbit x i) (Z.testbit y i)) ->
  (forall x y, is_u8 x -> is_u8 y -> is_u8 (f x y)) -> (forall v, F v false = v) -> T ⊆ D ->
  (forall x, x ∈ D -> F (bool_decide (x ∈ S)) (bool_decide (x ∈ G)) = bool_decide (x ∈ T)) ->
  exists b', combine_bytes f gb b group_range = Some b' /\ rel T b'.
Proof.
  intros Hf Hu HF HT Hspec. destruct (group_bytes mx (grel_max _ _ _ Hg)) as (Hnd & Hin & _ & Hcov).
  destruct (combine_mem f F gb Hf Hu (rel_wf _ _ (grel_rel _ _ _ Hg)) group_range b (rel_wf _ _ Hb) Hnd Hin) as (b' & -> & Hb' & Hm).
  exists b'. split; [done|]. split; [done|done|]. intros x Hx. pose proof (id_range x Hx). rewrite Hm by lia.
  rewrite <- Hspec by done. destruct (decide (idf x / 8 ∈ group_range)) as [Hd|Hd].
  - by rewrite (rel_mem _ _ Hb x Hx), group_mem.
  - rewrite (rel_mem _ _ Hb x Hx). destruct (decide (x ∈ G)) as [HxG|HxG]; [|by rewrite (bool_decide_eq_false_2 _ HxG), HF].
    exfalso. apply Hd, Hcov. split; [lia|]. apply (grel_bits _ _ _ Hg); [lia|]. rewrite group_mem by done. by apply bool_decide_eq_true_2.
Qed.

Lemma clear_group_rel : exists b', combine_bytes (fun x y => Z.land x (u8 (Z.lnot y))) gb b group_range = Some b' /\ rel (S ∖ G) b'.
Proof.
  apply (combine_rel _ (fun v w => v && negb w)).
  - intros x y i _ _ Hi. by rewrite Z.land_spec, not_mask_bit.
  - intros x y Hx _. by apply land_u8; [|apply u8_range].
  - intros []; done.
  - pose proof (rel_sub _ _ Hb). set_solver.
  - intros x _. destruct (decide (x ∈ S)), (decide (x ∈ G)); repeat (case_bool_decide; try done); set_solver.
Qed.

Lemma toggle_group_rel : exists b', combine_bytes Z.lxor gb b group_range = Some b' /\ rel (symdiff S G) b'.
Proof.
  apply (combine_rel _ xorb).
  - intros x y i _ _ Hi. apply Z.lxor_spec.
  - apply lxor_u8.
  - by intros [].
  - pose proof (rel_sub _ _ Hb). pose proof (rel_sub _ _ (grel_rel _ _ _ Hg)). unfold symdiff. set_solver.
  - intros x _. unfold symdiff. destruct (decide (x ∈ S)), (decide (x ∈ G)); repeat (case_bool_decide; try done); set_solver.
Qed.

Lemma group_all_mem l : Forall (fun k => 0 <= k < n) l ->
  exists r, group_all gb b l = Some r /\ (r = true <-> forall j, 0 <= j -> j / 8 ∈ l -> mem gb j = true -> mem b j = true).
Proof.
  pose proof (rel_wf _ _ Hb) as Wb. pose proof (rel_wf _ _ (grel_rel _ _ _ Hg)) as Wg.
  induction l as [|k l IH]; intros Hl; cbn [group_all]; [exists true; split; [done|]; set_solver|].
  apply Forall_cons in Hl as [Hk Hl]. destruct (IH Hl) as (r & Er & Hr).
  destruct (byte_of n b k Wb Hk) as [-> Hx]. destruct (byte_of n gb k Wg Hk) as [-> Hy]. cbn.
  assert ((Z.land (rd0 (bit_buf b) k) (rd0 (bit_buf gb) k) =? rd0 (bit_buf gb) k) = true <->
    forall j, 0 <= j -> j / 8 = k -> mem gb j = true -> mem b j = true) as Hkb.
  { apply bytes_agree; [done|done|]. unfold mem. split.
    - intros H j Hj <- Hgj. apply H; [mlia|done].
    - intros H i Hi Hyi. destruct (place_bit k i ltac:(lia) Hi) as (j & Hj & Ek & Ei). specialize (H j Hj Ek). rewrite Ek, Ei in H. by apply H. }
  destruct (Z.land _ _ =? _); cbn [negb].
  - exists r. split; [done|]. rewrite Hr. split; [|intros H j Hj Hin; apply H; [done|by right]].
    intros H j Hj [E|Hin]%elem_of_cons; [by apply Hkb|by apply H].
  - exists false. split; [done|]. split; [done|]. intros H. apply Hkb. intros j Hj E. apply H; [done|]. rewrite E. left.
Qed.

Lemma group_any_mem l : Forall (fun k => 0 <= k < n) l ->
  exists r, group_any gb b l = Some r /\ (r = true <-> exists j, 0 <= j /\ j / 8 ∈ l /\ mem gb j = true /\ mem b j = true).
Proof.
  pose proof (rel_wf _ _ Hb) as Wb. pose proof (rel_wf _ _ (grel_rel _ _ _ Hg)) as Wg.
  induction l as [|k l IH]; intros Hl; cbn [group_any]; [exists false; split; [done|]; set_solver|].
  apply Forall_cons in Hl as [Hk Hl]. destruct (IH Hl) as (r & Er & Hr).
  destruct (byte_of n b k Wb Hk) as [-> Hx]. destruct (byte_of n gb k Wg Hk) as [-> Hy]. cbn.
  assert (truth (Z.land (rd0 (bit_buf b) k) (rd0 (bit_buf gb) k)) = true <->
    exists j, 0 <= j /\ j / 8 = k /\ mem gb j = true /\ mem b j = true) as Hkb.
  { rewrite truth_bits by done. unfold mem. split.
    - intros (i & Hi & H1 & H2). destruct (place_bit k i ltac:(lia) Hi) as (j & Hj & Ek & Ei). exists j. by rewrite Ek, Ei.
    - intros (j & Hj & <- & H1 & H2). exists (7 - j mod 8). split; [mlia|done]. }
  destruct (truth _).
  - exists true. split; [done|]. split; [|done]. intros _. destruct (proj1 Hkb eq_refl) as (j & Hj & E & ?). exists j. split; [done|]. split; [rewrite E; left|done].
  - exists r. split; [done|]. rewrite Hr. split.
    + intros (j & Hj & Hin & ?). exists j. split; [done|]. split; [by right|done].
    + intros (j & Hj & [E|Hin]%elem_of_cons & ?); [|by exists j]. exfalso. assert (false = true) by (apply Hkb; by exists j). done.
Qed.

Lemma group_all_rel : group_all gb b group_range = Some (bool_decide (G ⊆ S)).
Proof.
  destruct (group_bytes mx (grel_max _ _ _ Hg)) as (_ & Hin & _ & Hcov). destruct (group_all_mem _ Hin) as (r & -> & Hr). f_equal.
  apply Bool.eq_iff_eq_true. rewrite Hr, bool_decide_eq_true. pose proof (rel_sub _ _ (grel_rel _ _ _ Hg)) as HGD. split.
  - intros H x Hx. pose proof (id_range x (HGD x Hx)). assert (mem gb (idf x) = true) as Hgx by (rewrite group_mem by auto; by apply bool_decide_eq_true_2).
    destruct (grel_bits _ _ _ Hg (idf x) ltac:(lia) Hgx) as [Hm _]. specialize (H (idf x) ltac:(lia) (Hcov (idf x) ltac:(lia)) Hgx).
    rewrite (rel_mem _ _ Hb) in H by auto. by apply bool_decide_eq_true in H.
  - intros H j Hj _ Hgj. destruct (grel_bits _ _ _ Hg j Hj Hgj) as (_ & x & Hx & <-). rewrite (rel_mem _ _ Hb) by auto.
    apply bool_decide_eq_true_2. by apply H.
Qed.

Lemma group_any_rel : group_any gb b group_range = Some (bool_decide (G ∩ S ≠ ∅)).
Proof.
  destruct (group_bytes mx (grel_max _ _ _ Hg)) as (_ & Hin & _ & Hcov). destruct (group_any_mem _ Hin) as (r & -> & Hr). f_equal.
  apply Bool.eq_iff_eq_true. rewrite Hr, bool_decide_eq_true. pose proof (rel_sub _ _ (grel_rel _ _ _ Hg)) as HGD. split.
  - intros (j & Hj & _ & Hgj & Hbj). destruct (grel_bits _ _ _ Hg j Hj Hgj) as (_ & x & Hx & <-).
    rewrite (rel_mem _ _ Hb) in Hbj by auto. apply bool_decide_eq_true in Hbj. set_solver.
  - intros (x & Hx)%set_choose_L. apply elem_of_intersection in Hx as [HxG HxS]. exists (idf x). pose proof (id_range x (HGD x HxG)).
    assert (mem gb (idf x) = true) as Hgx by (rewrite group_mem by auto; by apply bool_decide_eq_true_2).
    destruct (grel_bits _ _ _ Hg (idf x) ltac:(lia) Hgx) as [Hm _]. split_and!; [lia|apply Hcov; lia|done|].
    rewrite (rel_mem _ _ Hb) by auto. by apply bool_decide_eq_true_2.
Qed.
End Group.

(** ** What an option means *)

Record absop := MkAbs { a_type : fb_type; a_eval : Flowbits_eval; a_names : list text; a_group : option text }.

(** The names of each group. *)
Variable members : text -> gset text.
Definition group_set (g : option text) : gset text := match g with Some g => members g | None => ∅ end.

Definition holds (a : absop) (S : gset text) : bool :=
  match a_eval a with
  | FLOWBITS_AND => bool_decide ((list_to_set (a_names a) : gset text) ⊆ S)
  | FLOWBITS_OR => bool_decide ((list_to_set (a_names a) : gset text) ∩ S ≠ ∅)
  | FLOWBITS_ALL => bool_decide (group_set (a_group a) ⊆ S)
  | FLOWBITS_ANY => bool_decide (group_set (a_group a) ∩ S ≠ ∅)
  end.

(** The answer and the names set afterwards. *)
Definition meaning (a : absop) (S : gset text) : fb_status * gset text :=
  let names : gset text := list_to_set (a_names a) in
  let G := group_set (a_group a) in
  match a_type a with
  | FLOWBITS_SET => (MATCH, S ∪ names)
  | FLOWBITS_SETX => if decide (G = ∅) then (NO_MATCH, S) else (MATCH, (S ∖ G) ∪ names)
  | FLOWBITS_UNSET => (MATCH, if decide (a_eval a = FLOWBITS_ALL) then S ∖ G else S ∖ names)
  | FLOWBITS_RESET => (MATCH, match a_group a with None => ∅ | Some _ => S ∖ G end)
  | FLOWBITS_ISSET => (if holds a S then MATCH else FAILED_BIT, S)
  | FLOWBITS_ISNOTSET => (if negb (holds a S) then MATCH else FAILED_BIT, S)
  | FLOWBITS_TOGGLE =>
      (MATCH, match a_group a with Some _ => symdiff S G | None => foldl (fun S x => toggle_name x S) S (a_names a) end)
  | FLOWBITS_NOALERT => (NO_ALERT, S)
  end.

(** The state behind the options. *)
Definition groups_ok (s : FlowBitState) : Prop := forall name g, flowbits_grp_hash s !! name = Some g ->
  exists gb, GrpBitOp g = Some gb /\ grel (members name) gb (max_id g) /\ (grp_count g = 0 <-> members name = ∅).

Record denotes (s : FlowBitState) (o : FLOWBITS_OP) (a : absop) : Prop := {
  den_type : type o = a_type a;
  den_eval : eval o = a_eval a;
  den_group : group o = a_group a;
  den_ids : default [] (ids o) = map idf (a_names a);
  den_num : num_ids o = Zlen (a_names a);
  den_names : Forall (fun x => x ∈ D) (a_names a);
  den_known name : a_group a = Some name -> is_Some (flowbits_grp_hash s !! name);
  den_syntax : (a_eval a = FLOWBITS_ANY \/ a_eval a = FLOWBITS_ALL) -> (a_type a = FLOWBITS_ISSET \/ a_type a = FLOWBITS_ISNOTSET) ->
    is_Some (a_group a) }.

Lemma op_ids_den s o a : denotes s o a -> op_ids o = Some (map idf (a_names a)).
Proof.
  intros H. unfold op_ids. rewrite (den_ids _ _ _ H), (den_num _ _ _ H).
  assert (Zlen (map idf (a_names a)) = Zlen (a_names a)) as E by (unfold Zlen; by rewrite length_map).
  rewrite E, Z.leb_refl. f_equal. apply take_ge. rewrite length_map. unfold Zlen. lia.
Qed.

Lemma change_group_rel (s : FlowBitState) (o : FLOWBITS_OP) (a : absop) (S : gset text) (b : BitOp) (f : Z -> Z -> Z) (T : gset text) :
  groups_ok s -> denotes s o a -> rel S b ->
  (forall gb mx, grel (group_set (a_group a)) gb mx -> exists b', combine_bytes f gb b (seqZ 0 (Z.shiftr (mx + 8) 3)) = Some b' /\ rel T b') ->
  (group_set (a_group a) = ∅ -> T = S) ->
  exists b', change_group f s b (group o) = Some (if decide (group_set (a_group a) = ∅) then 0 else 1, b') /\ rel T b'.
Proof.
  intros Hs Hd Hb Hf Hempty. unfold change_group. rewrite (den_group _ _ _ Hd). destruct (a_group a) as [name|] eqn:Eg; cbn.
  2: { exists b. rewrite decide_True by done. split; [done|]. by rewrite Hempty. }
  destruct (den_known _ _ _ Hd name Eg) as [g Hl]. rewrite Hl. destruct (Hs name g Hl) as (gb & Egb & Hgr & Hc).
  rewrite (proj2 (Z.leb_gt (size b) (max_id g))).
  2: { unfold size. rewrite (bwf_size _ _ (rel_wf _ _ Hb)), Z.shiftl_mul_pow2 by lia. pose proof (grel_max _ _ _ Hgr). mlia. }
  cbn [orb]. destruct (Z.eqb_spec (grp_count g) 0) as [E|E].
  - apply Hc in E. cbn in E. exists b. rewrite decide_True by done. split; [done|]. by rewrite Hempty.
  - rewrite decide_False by (intros ?; by apply E, Hc). rewrite Egb. cbn. destruct (Hf gb (max_id g) Hgr) as (b' & -> & Hr). by exists b'.
Qed.

Lemma is_set_rel (s : FlowBitState) (o : FLOWBITS_OP) (a : absop) (S : gset text) (b : BitOp) :
  groups_ok s -> denotes s o a -> rel S b -> (a_type a = FLOWBITS_ISSET \/ a_type a = FLOWBITS_ISNOTSET) ->
  is_set_flowbits s b (eval o) (map idf (a_names a)) (group o) = Some (holds a S).
Proof.
  intros Hs Hd Hb Hty. unfold is_set_flowbits, holds. rewrite (den_eval _ _ _ Hd), (den_group _ _ _ Hd).
  pose proof (den_names _ _ _ Hd) as Hn. pose proof (den_syntax _ _ _ Hd) as Hsyn.
  destruct (a_eval a); [by apply all_set_rel|by apply any_set_rel|..].
  all: destruct (Hsyn ltac:(auto) Hty) as [name Eg]; rewrite Eg; cbn;
    destruct (den_known _ _ _ Hd name Eg) as [g Hl]; rewrite Hl; destruct (Hs name g Hl) as (gb & -> & Hgr & _); cbn;
    destruct (group_bytes (max_id g) (grel_max _ _ _ Hgr)) as (_ & _ & <- & _); by first [apply group_any_rel|apply group_all_rel].
Qed.

(** Evaluating an option is what it means. *)
Lemma check_bits_rel (s : FlowBitState) (o : FLOWBITS_OP) (a : absop) (S : gset text) (b : BitOp) : groups_ok s -> denotes s o a -> rel S b ->
  exists b', check_bits s o b = Some ((meaning a S).1, b') /\ rel (meaning a S).2 b'.
Proof.
  intros Hs Hd Hb. pose proof (den_names _ _ _ Hd) as Hn. unfold check_bits, meaning. rewrite (op_ids_den s o a Hd), (den_type _ _ _ Hd). cbn.
  assert (forall S b, rel S b -> exists b', clear_group_bit s b (group o) = Some (if decide (group_set (a_group a) = ∅) then 0 else 1, b') /\
    rel (S ∖ group_set (a_group a)) b') as Hclear.
  { intros S' b0 Hb0. apply (change_group_rel s o a S'); [done|done|done|intros gb mx Hg; by apply clear_group_rel|]. intros ->. apply leibniz_equiv. set_solver. }
  destruct (a_type a) eqn:Ety; cbn [fst snd].
  - destruct (set_all_rel _ S b Hb Hn) as (b' & -> & Hr). cbn. eauto.
  - rewrite (den_eval _ _ _ Hd). destruct (decide (a_eval a = FLOWBITS_ALL)).
    + destruct (Hclear S b Hb) as (b' & -> & Hr). cbn. eauto.
    + destruct (clear_all_rel _ S b Hb Hn) as (b' & -> & Hr). cbn. eauto.
  - destruct (change_group_rel s o a S b Z.lxor (symdiff S (group_set (a_group a))) Hs Hd Hb) as (b' & E & Hr); [intros gb mx Hg; by apply toggle_group_rel| |].
    { intros ->. unfold symdiff. apply leibniz_equiv. set_solver. }
    change (change_group Z.lxor) with toggle_group_bit in E. rewrite (den_group _ _ _ Hd) in *. destruct (a_group a) as [name|].
    + rewrite E. cbn. eauto.
    + destruct (toggle_all_rel _ S b Hb Hn) as (b1 & -> & Hr1). cbn. eauto.
  - rewrite (is_set_rel s o a S b) by auto. cbn. eauto.
  - rewrite (is_set_rel s o a S b) by auto. cbn. eauto.
  - destruct (Hclear S b Hb) as (b1 & E & Hr1). rewrite (den_group _ _ _ Hd) in *. destruct (a_group a) as [name|].
    + rewrite E. cbn. eauto.
    + destruct (reset_mem n b (rel_wf _ _ Hb)) as (b' & -> & Hb' & Hm & _). cbn. exists b'. split; [done|]. split; [done|set_solver|].
      intros x Hx. rewrite Hm by (by apply id_range). by rewrite bool_decide_eq_false_2 by set_solver.
  - eauto.
  - unfold set_xbits_to_group. destruct (Hclear S b Hb) as (b1 & -> & H1). cbn. destruct (decide (group_set (a_group a) = ∅)) as [E|E]; cbn.
    + exists b1. split; [done|]. eapply rel_ext; [|exact H1]. rewrite E. set_solver.
    + destruct (set_all_rel _ _ b1 H1 Hn) as (b' & -> & Hr). cbn. eauto.
Qed.
End Names.

(** ** What the text of an option says *)

Definition read_bits (ty : fb_type) (names : text) : option absop :=
  if Zlen names =? 0 then Some (MkAbs ty FLOWBITS_AND [] None)
  else if has_char 124 names then
    if has_char 38 names then None
    else toks ← split_names 124 names; Some (MkAbs ty FLOWBITS_OR toks None)
  else if has_char 38 names then toks ← split_names 38 names; Some (MkAbs ty FLOWBITS_AND toks None)
  else if same_word names word_all then Some (MkAbs ty FLOWBITS_ALL [] None)
  else if same_word names word_any then Some (MkAbs ty FLOWBITS_ANY [] None)
  else Some (MkAbs ty FLOWBITS_AND [names] None).

Definition in_group (g : option text) (a : absop) : absop := MkAbs (a_type a) (a_eval a) (a_names a) g.

Definition read_op (data : text) : option absop :=
  toks ← mSplit [44] 0 0 data;
  match default [] toks with
  | [] => None
  | typeName :: args =>
      match bit_type typeName, args with
      | Some ty, names :: rest => in_group (head rest) <$> read_bits ty names
      | Some _, [] => None
      | None, _ =>
          if same_word word_noalert typeName then Some (MkAbs FLOWBITS_NOALERT FLOWBITS_AND [] None)
          else if same_word word_reset typeName then Some (MkAbs FLOWBITS_RESET FLOWBITS_AND [] (head args))
          else None
      end
  end.

(** *** Numbers of names *)

Abbreviation hash_of p := (flowbits_hash (fbs p)).
Abbreviation groups_of p := (flowbits_grp_hash (fbs p)).
Abbreviation count_of p := (flowbits_count (fbs p)).

Definition id_of (s : FlowBitState) (name : text) : Z := match flowbits_hash s !! name with Some o => obj_id o | None => -1 end.

Record pinv (p : pstate) : Prop := {
  pi_queue : flowbits_bit_queue (fbs p) = [];
  pi_count : 0 <= count_of p <= 65536;
  pi_range name o : hash_of p !! name = Some o -> 0 <= obj_id o < count_of p;
  pi_inj name name' o o' : hash_of p !! name = Some o -> hash_of p !! name' = Some o' -> obj_id o = obj_id o' -> name = name' }.

(** Later states know all the names and groups, with the same numbers. *)
Record extends (p p' : pstate) : Prop := {
  ex_hash name o : hash_of p !! name = Some o -> exists o', hash_of p' !! name = Some o' /\ obj_id o' = obj_id o;
  ex_groups name : is_Some (groups_of p !! name) -> is_Some (groups_of p' !! name);
  ex_count : count_of p <= count_of p';
  ex_errors : (errors p <= errors p')%nat }.

#[export] Instance extends_refl : Reflexive extends.
Proof. intros p. split; try done; eauto. Qed.
#[export] Instance extends_trans : Transitive extends.
Proof.
  intros p q r [H1 H2 H3 H4] [G1 G2 G3 G4]. split; [|auto|lia|lia].
  intros name o Ho. destruct (H1 _ _ Ho) as (o1 & Ho1 & E1). destruct (G1 _ _ Ho1) as (o2 & Ho2 & E2). exists o2. split; [done|congruence].
Qed.

Lemma id_of_extends p p' name : extends p p' -> is_Some (hash_of p !! name) -> id_of (fbs p') name = id_of (fbs p) name /\ is_Some (hash_of p' !! name).
Proof. intros H [o Ho]. destruct (ex_hash _ _ H _ _ Ho) as (o' & Ho' & E). unfold id_of. by rewrite Ho, Ho'. Qed.

(** What the functions that number names keep. *)
Definition same_rest (p p' : pstate) : Prop := groups_of p' = groups_of p /\ op_list (fbs p') = op_list (fbs p).

Lemma item_inv p name ty item p' :
  pinv p -> getFlowBitItem p name ty = Some (item, p') -> count_of p < 65536 ->
  pinv p' /\ extends p p' /\ same_rest p p' /\ hash_of p' !! name = Some item /\ errors p' = errors p /\ count_of p' <= count_of p + 1.
Proof.
  intros I. unfold getFlowBitItem. destruct (negb _); [done|]. destruct (hash_of p !! name) as [o|] eqn:Eh.
  - intros [= <- <-] Hc. cbn in *. destruct I as [I1 I2 I3 I4]. split_and!; try done.
    + split; cbn; [done|done|..].
      * intros name' o'. rewrite lookup_insert. case_decide as E; [intros [= <-]; cbn; by eapply I3|apply I3].
      * intros name1 name2 o1 o2. rewrite !lookup_insert. do 2 case_decide; [congruence| | |apply I4].
        -- intros [= <-] H2 E. cbn in E. subst. by eapply I4.
        -- intros H1 [= <-] E. cbn in E. subst. by eapply I4.
    + split; cbn; [|done|lia|lia]. intros name' o' Ho'. rewrite lookup_insert. case_decide; [|by exists o'].
      eexists; split; [done|]. cbn. subst. congruence.
    + cbn. by rewrite lookup_insert_eq.
    + cbn. lia.
  - unfold new_item. rewrite (pi_queue p I). intros [= <- <-] Hc. destruct I as [I1 I2 I3 I4]. cbn in *.
    assert (u32 (count_of p + 1) = count_of p + 1) as Eu by (apply u32_small; munfold; lia). rewrite Eu in *.
    rewrite (proj2 (Z.eqb_neq (count_of p + 1) 0)) in * by lia. cbn in *.
    assert (u16 (count_of p) = count_of p) as Ei by (apply u16_small; munfold; lia). rewrite Ei in *. split_and!; try done.
    + split; cbn; [done|lia|..].
      * intros name' o'. rewrite lookup_insert. case_decide as E; [intros [= <-]; cbn; lia|]. intros H. apply I3 in H. lia.
      * intros name1 name2 o1 o2. rewrite !lookup_insert. do 2 case_decide; [congruence| | |apply I4].
        -- intros [= <-] H2 E. cbn in E. apply I3 in H2. lia.
        -- intros H1 [= <-] E. cbn in E. apply I3 in H1. lia.
    + split; cbn; [|done|lia|lia]. intros name' o' Ho'. rewrite lookup_insert. case_decide; [congruence|by exists o'].
    + by rewrite lookup_insert_eq.
Qed.

Lemma items_inv names ty : forall p l p',
  pinv p -> get_items p names ty = Some (l, p') -> count_of p + Zlen names <= 65536 ->
  pinv p' /\ extends p p' /\ same_rest p p' /\ errors p' = errors p /\ count_of p' <= count_of p + Zlen names /\
  l = map (id_of (fbs p')) names /\ Forall (fun x => is_Some (hash_of p' !! x)) names.
Proof.
  induction names as [|x names IH]; intros p l p' I H Hc; cbn in H.
  - injection H as <- <-. rewrite Zlen_nil. split_and!; try done. lia.
  - rewrite Zlen_cons in *. pose proof (Zlen_nonneg names). destruct (getFlowBitItem p x ty) as [[item p1]|] eqn:E; [|done]. cbn in H.
    destruct (get_items p1 names ty) as [[l2 p2]|] eqn:E2; [|done]. cbn in H. injection H as <- <-.
    destruct (item_inv p x ty item p1 I E ltac:(lia)) as (I1 & X1 & [R1 R1'] & Hx & Er1 & Hc1).
    destruct (IH p1 l2 p2 I1 E2 ltac:(lia)) as (I2 & X2 & [R2 R2'] & Er2 & Hc2 & -> & Hn).
    destruct (id_of_extends p1 p2 x X2 ltac:(eauto)) as [Ex Hx2].
    split_and!; [done|by etrans|split; congruence|congruence|lia| |by constructor].
    cbn. f_equal. rewrite Ex. unfold id_of. by rewrite Hx.
Qed.

(** *** Options *)

Record parsed (p : pstate) (o : FLOWBITS_OP) (a : absop) : Prop := {
  pa_type : type o = a_type a;
  pa_eval : eval o = a_eval a;
  pa_group : group o = a_group a;
  pa_ids : default [] (ids o) = map (id_of (fbs p)) (a_names a);
  pa_num : num_ids o = u8 (Zlen (a_names a));
  pa_names : Forall (fun x => is_Some (hash_of p !! x)) (a_names a);
  pa_known name : a_group a = Some name -> is_Some (groups_of p !! name) }.

Lemma parsed_extends p p' o a : extends p p' -> parsed p o a -> parsed p' o a.
Proof.
  intros X [H1 H2 H3 H4 H5 H6 H7]. split; try done.
  - rewrite H4. apply map_ext_in. intros x Hx%list_elem_of_In. rewrite Forall_forall in H6. by destruct (id_of_extends p p' x X (H6 x Hx)) as [-> _].
  - eapply Forall_impl; [exact H6|]. intros x Hx. by apply (id_of_extends p p').
  - intros name E. by apply (ex_groups _ _ X), H7.
Qed.

(** What a parsing step promises. *)
Definition step_ok (p : pstate) (o : FLOWBITS_OP) (p' : pstate) (a : absop) : Prop :=
  count_of p + Zlen (a_names a) <= 65536 ->
  pinv p' /\ extends p p' /\ count_of p' <= count_of p + Zlen (a_names a) /\ parsed p' o a.

Lemma bits_read p names ty o p' :
  pinv p -> processFlowbits p names (new_op ty) = Some (o, p') -> errors p' = errors p ->
  exists a, read_bits ty names = Some a /\ a_group a = None /\ step_ok p o p' a /\
    (count_of p + Zlen (a_names a) <= 65536 -> same_rest p p').
Proof.
  intros I. unfold processFlowbits, read_bits.
  assert (forall sep e, (toks ← split_names sep names; '(l, q) ← get_items p toks ty; Some (with_ids (new_op ty) l e, q)) = Some (o, p') ->
    exists a, (toks ← split_names sep names; Some (MkAbs ty e toks None)) = Some a /\ a_group a = None /\ step_ok p o p' a /\
      (count_of p + Zlen (a_names a) <= 65536 -> same_rest p p')) as Hsplit.
  { intros sep e H. destruct (split_names sep names) as [toks|]; [|done]. cbn in *.
    destruct (get_items p toks ty) as [[l q]|] eqn:E; [|done]. cbn in H. injection H as <- <-.
    eexists. split; [done|]. split; [done|]. cbn. split; intros Hc; cbn in *; destruct (items_inv toks ty p l q I E Hc) as (? & ? & ? & ? & ? & -> & ?); [|done].
    split_and!; try done. split; cbn; try done. unfold Zlen. by rewrite length_map. }
  assert (forall e, Some (MkOp None 0 ty e None 0, p) = Some (o, p') -> step_ok p o p' (MkAbs ty e [] None) /\ same_rest p p') as Hnone.
  { intros e [= <- <-]. split; [|done]. intros _. cbn. rewrite Zlen_nil. split_and!; try done. lia. }
  destruct (Zlen names =? 0); [intros H _; eexists; split_and!; [done|done|by apply Hnone|by intros _; apply (Hnone _ H)]|].
  destruct (has_char 124 names).
  { destruct (has_char 38 names); [intros [= <- <-] He; cbn in He; lia|]. intros H _. by apply Hsplit. }
  destruct (has_char 38 names); [intros H _; by apply Hsplit|].
  destruct (same_word names word_all); [intros H _; eexists; split_and!; [done|done|by apply Hnone|by intros _; apply (Hnone _ H)]|].
  destruct (same_word names word_any); [intros H _; eexists; split_and!; [done|done|by apply Hnone|by intros _; apply (Hnone _ H)]|].
  intros H _. eexists. split; [done|]. split; [done|]. destruct (getFlowBitItem p names (type (new_op ty))) as [[item q]|] eqn:E; [|done].
  cbn in H. injection H as <- <-. unfold step_ok. cbn.
  split; intros Hc; rewrite Zlen_cons, Zlen_nil in Hc; destruct (item_inv p names ty item q I E ltac:(lia)) as (? & ? & ? & Hx & ? & ?); [|done].
  split_and!; try done. split; cbn; try done.
  - unfold id_of. by rewrite Hx.
  - repeat constructor. eauto.
Qed.

Lemma group_inv p name g p' :
  pinv p -> getFlowBitGroup p name = Some (g, p') ->
  pinv p' /\ extends p p' /\ is_Some (groups_of p' !! name) /\ fbs p' = MkState (op_list (fbs p)) (hash_of p) (groups_of p') [] (count_of p)
    (flowbits_grp_count (fbs p')) (flowbits_toggle (fbs p)) /\ errors p' = errors p /\
  (forall x, groups_of p' !! x = groups_of p !! x \/ (groups_of p !! x = None /\ exists k, groups_of p' !! x = Some (MkGrp 0 0 k None))).
Proof.
  intros I. unfold getFlowBitGroup. destruct (negb _); [done|]. destruct (groups_of p !! name) as [g'|] eqn:E; intros [= <- <-].
  - split_and!; [done|done|by rewrite E| |done|by left]. rewrite <- (pi_queue p I). by destruct (fbs p).
  - cbn. rewrite lookup_insert_eq. split_and!; try done; [destruct I; by split| |by rewrite (pi_queue p I)|].
    + split; cbn; [eauto| |lia|lia]. intros x Hx. rewrite lookup_insert. case_decide; [done|done].
    + intros x. rewrite lookup_insert. case_decide; [subst; right; eauto|by left].
Qed.

(** Groups have no bits yet. *)
Definition groups_fresh (p : pstate) : Prop := forall x g, groups_of p !! x = Some g -> exists k, g = MkGrp 0 0 k None.

Lemma parsed_regroup p o a name g : parsed p o a -> is_Some (groups_of p !! name) -> parsed p (set_group o name g) (in_group (Some name) a).
Proof. intros [H1 H2 H3 H4 H5 H6 H7] Hg. split; cbn; try done. by intros ? [= <-]. Qed.

Lemma in_group_same a : a_group a = None -> in_group None a = a.
Proof. destruct a; cbn. by intros ->. Qed.

(** The part of an option that is pushed to the list of operations. *)
Definition pushed (a : absop) : bool :=
  match a_type a with FLOWBITS_RESET | FLOWBITS_NOALERT => false | _ => is_some (a_group a) end.

Definition full_step (p : pstate) (o : FLOWBITS_OP) (p' : pstate) (a : absop) : Prop :=
  count_of p + Zlen (a_names a) <= 65536 ->
  pinv p' /\ extends p p' /\ count_of p' <= count_of p + Zlen (a_names a) /\ parsed p' o a /\ groups_fresh p' /\
  op_list (fbs p') = (if pushed a then [o] else []) ++ op_list (fbs p).

Lemma item_errors p name ty item p' : getFlowBitItem p name ty = Some (item, p') -> (errors p <= errors p')%nat.
Proof.
  unfold getFlowBitItem. destruct (negb _); [done|]. destruct (hash_of p !! name); [by intros [= <- <-]|].
  unfold new_item. destruct (flowbits_bit_queue (fbs p)); intros [= <- <-]; cbn; [|done]. destruct (_ =? 0); cbn; lia.
Qed.
Lemma items_errors names ty : forall p l p', get_items p names ty = Some (l, p') -> (errors p <= errors p')%nat.
Proof.
  induction names as [|x names IH]; intros p l p' H; cbn in H; [by injection H as <- <-|].
  destruct (getFlowBitItem p x ty) as [[item p1]|] eqn:E; [|done]. cbn in H.
  destruct (get_items p1 names ty) as [[l2 p2]|] eqn:E2; [|done]. cbn in H. injection H as <- <-.
  apply item_errors in E. apply IH in E2. lia.
Qed.
Lemma process_errors p names o o' p' : processFlowbits p names o = Some (o', p') -> (errors p <= errors p')%nat.
Proof.
  assert (forall sep e, (toks ← split_names sep names; '(l, q) ← get_items p toks (type o); Some (with_ids o l e, q)) = Some (o', p') -> (errors p <= errors p')%nat) as Hs.
  { intros sep e H. destruct (split_names sep names) as [toks|]; [|done]. cbn in H.
    destruct (get_items p toks (type o)) as [[l q]|] eqn:E; [|done]. cbn in H. injection H as <- <-. by eapply items_errors. }
  unfold processFlowbits. repeat (case_match; [first [by intros [= <- <-]|by apply Hs|intros [= <- <-]; cbn; lia|idtac]|]); try (by apply Hs).
  destruct (getFlowBitItem p names (type o)) as [[item q]|] eqn:E; [|done]. cbn. intros [= <- <-]. by eapply item_errors.
Qed.

Lemma read_bits_type ty names a : read_bits ty names = Some a -> a_type a = ty.
Proof.
  unfold read_bits. repeat (case_match; [first [done|by intros [= <-]|by (destruct (split_names _ _); cbn; [intros [= <-]|])|idtac]|]);
    try (by intros [= <-]); destruct (split_names _ _); cbn; by intros [= <-].
Qed.

Lemma with_group_read p names ty gname o p' :
  pinv p -> groups_fresh p -> ty <> FLOWBITS_RESET -> ty <> FLOWBITS_NOALERT ->
  processFlowBitsWithGroup p names gname (new_op ty) = Some (o, p') -> errors p' = errors p ->
  exists a, in_group gname <$> read_bits ty names = Some a /\ full_step p o p' a /\ syntax_ok o = true.
Proof.
  intros I Hf Ht1 Ht2. unfold processFlowBitsWithGroup.
  destruct (processFlowbits p names (new_op ty)) as [[o1 p1]|] eqn:E1; [|done]. cbn.
  pose proof (process_errors _ _ _ _ _ E1) as Hmono.
  destruct (match gname with Some name => _ | None => _ end) as [[o2 p2]|] eqn:E2; [|done]. cbn. intros [= <- <-] He.
  assert (errors p2 = errors p1) as He2.
  { destruct gname as [name|]; [|by injection E2 as <- <-]. unfold getFlowBitGroup in E2. destruct (negb _); [done|]. cbn in E2.
    destruct (groups_of p1 !! name); cbn in E2; by injection E2 as <- <-. }
  assert (syntax_ok o2 = true /\ errors p1 = errors p) as [Hsyn He1].
  { unfold validateFlowbitsSyntax in He. destruct (syntax_ok o2); [split; [done|]|]; destruct (is_some (group o2)); cbn in He; lia. }
  unfold validateFlowbitsSyntax. rewrite Hsyn. destruct (bits_read p names ty o1 p1 I E1 He1) as (a & Ha & Hg & Hstep & Hrest).
  pose proof (read_bits_type ty names a Ha) as Hty. rewrite Ha. eexists. split; [done|]. split; [|done]. intros Hc. cbn in Hc.
  destruct (Hstep Hc) as (I1 & X1 & Hc1 & P1). destruct (Hrest Hc) as [R1 R2].
  destruct gname as [name|].
  - destruct (getFlowBitGroup p1 name) as [[g q]|] eqn:E3; [|done]. cbn in E2. injection E2 as <- <-.
    destruct (group_inv p1 name g q I1 E3) as (I2 & X2 & Hk & Es & _ & Hgr). cbn.
    assert (pinv (push_op q (set_group o1 name g))) as I3 by (destruct I2; by split).
    assert (extends q (push_op q (set_group o1 name g))) as X3 by (split; cbn; [eauto|done|lia|lia]).
    split_and!; [done|by transitivity p1; [|transitivity q]| | | |].
    + rewrite Es. cbn. done.
    + apply (parsed_extends q); [done|]. apply parsed_regroup; [|done]. by apply (parsed_extends p1).
    + intros x gx. cbn. intros Hx. destruct (Hgr x) as [E|(_ & k & E)]; [|rewrite E in Hx; injection Hx as <-; eauto].
      rewrite E, R1 in Hx. by eapply Hf.
    + unfold pushed. cbn. rewrite Hty, Es. cbn. rewrite R2. by destruct ty.
  - injection E2 as <- <-. rewrite in_group_same by done. assert (is_some (group o1) = false) as Hgn by (by rewrite (pa_group _ _ _ P1), Hg).
    rewrite Hgn. split_and!; try done.
    + intros x gx Hx. rewrite R1 in Hx. by eapply Hf.
    + unfold pushed. rewrite Hg, R2. by destruct (a_type a).
Qed.

Lemma bit_type_bits w ty : bit_type w = Some ty -> ty <> FLOWBITS_RESET /\ ty <> FLOWBITS_NOALERT.
Proof. unfold bit_type. repeat (case_match; [by intros [= <-]|]). done. Qed.

Lemma group_errors p name g p' : getFlowBitGroup p name = Some (g, p') -> errors p' = errors p.
Proof. unfold getFlowBitGroup. destruct (negb _); [done|]. destruct (groups_of p !! name); by intros [= <- <-]. Qed.

Lemma parse_errors p data o p' : flowbits_parse p data = Some (o, p') -> (errors p <= errors p')%nat.
Proof.
  unfold flowbits_parse. destruct (mSplit _ _ _ data) as [toks|]; [|done]. cbn. destruct (default [] toks) as [|w args]; [done|].
  destruct (_ >? 2); [done|]. destruct (bit_type w) as [ty|].
  - destruct args as [|names rest]; [done|]. unfold processFlowBitsWithGroup.
    destruct (processFlowbits p names (new_op ty)) as [[o1 p1]|] eqn:E1; [|done]. cbn. apply process_errors in E1.
    destruct (head rest) as [name|]; cbn.
    + destruct (getFlowBitGroup p1 name) as [[g q]|] eqn:E2; [|done]. cbn. intros [= <- <-]. apply group_errors in E2.
      unfold validateFlowbitsSyntax. destruct (syntax_ok _); cbn; lia.
    + intros [= <- <-]. unfold validateFlowbitsSyntax. destruct (syntax_ok _), (is_some _); cbn; lia.
  - destruct (same_word word_noalert w); [destruct args; [by intros [= <- <-]|done]|]. destruct (same_word word_reset w); [|done].
    destruct args as [|name [|]]; [by intros [= <- <-]| |done].
    destruct (getFlowBitGroup p name) as [[g q]|] eqn:E2; [|done]. cbn. intros [= <- <-]. apply group_errors in E2. lia.
Qed.

Lemma parse_read p data o p' :
  pinv p -> groups_fresh p -> flowbits_parse p data = Some (o, p') -> errors p' = errors p ->
  exists a, read_op data = Some a /\ full_step p o p' a /\ syntax_ok o = true.
Proof.
  intros I Hf. unfold flowbits_parse, read_op. destruct (mSplit _ _ _ data) as [toks|]; [|done]. cbn.
  destruct (default [] toks) as [|w args]; [done|]. destruct (_ >? 2); [done|]. destruct (bit_type w) as [ty|] eqn:Ety.
  - destruct args as [|names rest]; [done|]. apply bit_type_bits in Ety as [? ?]. by apply with_group_read.
  - assert (forall ty, pushed (MkAbs ty FLOWBITS_AND [] None) = false -> full_step p (new_op ty) p (MkAbs ty FLOWBITS_AND [] None)) as Hplain.
    { intros ty Hp _. cbn. rewrite Zlen_nil, Hp. split_and!; try done. lia. }
    destruct (same_word word_noalert w); [destruct args; [|done]; intros [= <- <-] _; eexists; split_and!; [done|by apply Hplain|done]|].
    destruct (same_word word_reset w); [|done]. destruct args as [|name [|]]; [| |done].
    + intros [= <- <-] _. eexists. split_and!; [done|by apply Hplain|done].
    + destruct (getFlowBitGroup p name) as [[g q]|] eqn:E; [|done]. cbn. intros [= <- <-] _. eexists. split; [done|]. split; [|done].
      intros _. destruct (group_inv p name g q I E) as (I2 & X2 & Hk & Es & _ & Hgr). cbn. rewrite Es. cbn. rewrite Zlen_nil.
      split_and!; try done; [lia| |].
      * split; cbn; try done. by intros ? [= <-].
      * intros x gx Hx. destruct (Hgr x) as [E'|(_ & k & E')]; rewrite E' in Hx; [by eapply Hf|injection Hx as <-; eauto].
Qed.

Fixpoint parse_all (p : pstate) (texts : list text) : option (list FLOWBITS_OP * pstate) :=
  match texts with
  | [] => Some ([], p)
  | t :: texts => '(o, p) ← flowbits_parse p t; '(os, p) ← parse_all p texts; Some (o :: os, p)
  end.

Definition total_names (l : list absop) : Z := foldr (fun a n => Zlen (a_names a) + n) 0 l.

Lemma total_names_nonneg l : 0 <= total_names l.
Proof. induction l as [|a l IH]; cbn; [lia|]. pose proof (Zlen_nonneg (a_names a)). fold (total_names l). lia. Qed.

Lemma parse_all_errors texts : forall p os p', parse_all p texts = Some (os, p') -> (errors p <= errors p')%nat.
Proof.
  induction texts as [|t texts IH]; intros p os p' H; cbn in H; [by injection H as <- <-|].
  destruct (flowbits_parse p t) as [[o p1]|] eqn:E; [|done]. cbn in H. destruct (parse_all p1 texts) as [[os2 p2]|] eqn:E2; [|done].
  cbn in H. injection H as <- <-. apply parse_errors in E. apply IH in E2. lia.
Qed.

Lemma parse_all_read texts : forall p os p' abs,
  pinv p -> groups_fresh p -> parse_all p texts = Some (os, p') -> errors p' = errors p ->
  mapM read_op texts = Some abs -> count_of p + total_names abs <= 65536 ->
  Forall (fun o => syntax_ok o = true) os /\ pinv p' /\ extends p p' /\ groups_fresh p' /\ Forall2 (parsed p') os abs /\
  exists new, op_list (fbs p') = new ++ op_list (fbs p) /\ Forall2 (parsed p') new (rev (filter pushed abs)).
Proof.
  induction texts as [|t texts IH]; intros p os p' abs I Hf H He Hr Hc; cbn in H.
  - injection H as <- <-. injection Hr as <-. split_and!; try done. exists []. done.
  - destruct (flowbits_parse p t) as [[o p1]|] eqn:E; [|done]. cbn in H. destruct (parse_all p1 texts) as [[os2 p2]|] eqn:E2; [|done].
    cbn in H. injection H as <- <-. pose proof (parse_errors _ _ _ _ E). pose proof (parse_all_errors _ _ _ _ E2).
    destruct (parse_read p t o p1 I Hf E ltac:(lia)) as (a & Ha & Hstep & Hsyn).
    cbn in Hr. rewrite Ha in Hr. cbn in Hr. destruct (mapM read_op texts) as [abs2|] eqn:Hr2; [|done]. cbn in Hr. injection Hr as <-.
    cbn in Hc. fold (total_names abs2) in Hc. pose proof (total_names_nonneg abs2).
    destruct (Hstep ltac:(lia)) as (I1 & X1 & Hc1 & P1 & Hf1 & Hol).
    destruct (IH p1 os2 p2 abs2 I1 Hf1 E2 ltac:(lia) eq_refl ltac:(lia)) as (Hsyn2 & I2 & X2 & Hf2 & P2 & new & Hnew & Pn).
    pose proof (parsed_extends _ _ _ _ X2 P1) as P1'. split_and!; try done; [by constructor|by etrans|by constructor|].
    exists (new ++ if pushed a then [o] else []). rewrite Hnew, Hol, app_assoc. split; [done|].
    rewrite filter_cons. destruct (pushed a); cbn; [|by rewrite app_nil_r]. apply Forall2_app; [done|by constructor].
Qed.

(** *** Groups after parsing *)

Definition names_of (abs : list absop) (g : text) : list text := concat (a_names <$> filter (fun a => a_group a = Some g) abs).
Definition members_of (abs : list absop) (g : text) : gset text := list_to_set (names_of abs g).

Lemma names_of_snoc abs a g : names_of (abs ++ [a]) g = names_of abs g ++ (if decide (a_group a = Some g) then a_names a else []).
Proof.
  unfold names_of. rewrite filter_app, fmap_app, concat_app, filter_cons, filter_nil. case_decide; cbn; [by rewrite app_nil_r|done].
Qed.
Lemma elem_of_names_of abs g x : x ∈ names_of abs g <-> exists a, a ∈ abs /\ a_group a = Some g /\ x ∈ a_names a.
Proof.
  unfold names_of. rewrite list_elem_of_In, in_concat. split.
  - intros (l & Hl & Hx). apply list_elem_of_In, list_elem_of_fmap in Hl as (a & -> & Ha). apply list_elem_of_filter in Ha as [Hg Ha].
    exists a. split_and!; [done|done|by apply list_elem_of_In].
  - intros (a & Ha & Hg & Hx). exists (a_names a). split; [|by apply list_elem_of_In]. apply list_elem_of_In, list_elem_of_fmap.
    exists a. split; [done|]. by apply list_elem_of_filter.
Qed.
Lemma names_of_length abs g : Zlen (names_of abs g) <= total_names abs.
Proof.
  induction abs as [|a abs IH]; [done|]. unfold names_of in *. rewrite filter_cons. cbn [total_names foldr]. fold (total_names abs).
  pose proof (Zlen_nonneg (a_names a)). case_decide; cbn; rewrite ?Zlen_app; lia.
Qed.

Section Init.
Variable n : Z.
Variable D : gset text.
Variable idf : text -> Z.
Hypothesis id_range : forall x, x ∈ D -> 0 <= idf x < n.
Hypothesis id_inj : forall x y, x ∈ D -> y ∈ D -> idf x = idf y -> x = y.

(** A group that has been given the names [l]. *)
Definition given (l : list text) (g : FLOWBITS_GRP) : Prop :=
  exists gb, GrpBitOp g = Some gb /\ grel n D idf (list_to_set l) gb (max_id g) /\ grp_count g = Zlen l.

Lemma update_given names : forall l g,
  given l g -> Forall (fun x => x ∈ D) names -> Zlen l + Zlen names < 65536 ->
  exists g', update_all g (map idf names) = Some g' /\ given (l ++ names) g'.
Proof.
  induction names as [|x names IH]; intros l g Hg Hn Hc; cbn [map update_all]; [rewrite app_nil_r; eauto|].
  apply Forall_cons in Hn as [Hx Hn]. rewrite Zlen_cons in Hc. pose proof (Zlen_nonneg l). pose proof (Zlen_nonneg names).
  destruct Hg as (gb & Eg & [Hrel Hmax Hbits] & Hcnt). unfold update_group. rewrite Eg. cbn.
  destruct (rel_set n D idf id_range id_inj _ gb x Hrel Hx) as (gb' & Eset & Hrel').
  destruct (set_mem n gb (idf x) (rel_wf _ _ _ _ _ Hrel) (id_range x Hx)) as (gb2 & Eset2 & _ & Hm). rewrite Eset in Eset2. injection Eset2 as <-.
  rewrite Eset. cbn. replace (l ++ x :: names) with ((l ++ [x]) ++ names) by (by rewrite <- app_assoc). apply IH; [|done|].
  2: { rewrite Zlen_app, Zlen_cons, Zlen_nil. lia. }
  pose proof (id_range x Hx). exists gb'. cbn. split_and!; [done| |].
  - split.
    + eapply rel_ext; [|exact Hrel']. set_solver.
    + bcases; lia.
    + intros j Hj Hmj. rewrite Hm in Hmj by done. apply orb_true_iff in Hmj as [Hmj|Hmj].
      * destruct (Hbits j Hj Hmj) as (? & y & Hy & Ey). split; [bcases; lia|]. exists y. split; [set_solver|done].
      * apply Z.eqb_eq in Hmj. subst j. split; [bcases; lia|]. exists x. split; [set_solver|done].
  - rewrite Zlen_app, Zlen_cons, Zlen_nil, Hcnt. apply u16_small. munfold. lia.
Qed.

Lemma init_given ops : forall abs done groups,
  Forall2 (fun o a => op_ids o = Some (map idf (a_names a)) /\ group o = a_group a /\ Forall (fun x => x ∈ D) (a_names a) /\
    exists name, a_group a = Some name /\ is_Some (groups !! name)) ops abs ->
  (forall x g, groups !! x = Some g -> given (names_of done x) g) -> total_names done + total_names abs < 65536 ->
  exists groups', init_ops groups ops = Some groups' /\ dom groups' = dom groups /\
    forall x g, groups' !! x = Some g -> given (names_of (done ++ abs) x) g.
Proof.
  induction ops as [|o ops IH]; intros abs dn groups H2 Hg Ht; inversion H2 as [|? a ? abs' Ho H2' Eo Ea]; subst; cbn [init_ops].
  - exists groups. rewrite app_nil_r. eauto.
  - destruct Ho as (Eids & Egr & Hn & name & En & [g Hl]). rewrite Egr, En, Eids. cbn. rewrite Hl. cbn.
    cbn in Ht. fold (total_names abs') in Ht. pose proof (total_names_nonneg abs'). pose proof (names_of_length dn name).
    destruct (update_given (a_names a) _ g (Hg name g Hl) Hn ltac:(lia)) as (g' & -> & Hg'). cbn.
    assert (total_names (dn ++ [a]) = total_names dn + Zlen (a_names a)) as Htn.
    { clear. induction dn as [|b dn IH]; cbn; [lia|]. fold (total_names (dn ++ [a])). fold (total_names dn). lia. }
    destruct (IH abs' (dn ++ [a]) (<[name := g']> groups)) as (groups' & -> & Hd & Hgiven).
    + eapply Forall2_impl; [exact H2'|]. cbn. intros o' a' (? & ? & ? & name' & ? & Hs). split_and!; try done. exists name'. split; [done|].
      rewrite lookup_insert. case_decide; [done|done].
    + intros x gx. rewrite lookup_insert. rewrite names_of_snoc. case_decide as E; [subst|].
      * intros [= <-]. by rewrite decide_True by done.
      * intros Hx. rewrite decide_False by congruence. rewrite app_nil_r. by apply Hg.
    + rewrite Htn. lia.
    + exists groups'. split_and!; [done| |].
      * rewrite Hd. apply dom_insert_lookup_L. eauto.
      * by rewrite <- app_assoc in Hgiven.
Qed.
End Init.

(** ** From texts to bits *)

(** Options evaluated one after the other on a flow. *)
Fixpoint eval_all (s : FlowBitState) (os : list FLOWBITS_OP) (flow : option (option BitOp)) : option (list fb_status) :=
  match os with
  | [] => Some []
  | o :: os =>
      '(r, flow) ← check_flowbits s o flow;
      rs ← eval_all s os flow;
      Some (r :: rs)
  end.
Fixpoint mean_all (members : text -> gset text) (l : list absop) (S : gset text) : list fb_status :=
  match l with
  | [] => []
  | a :: l => let '(r, T) := meaning members a S in r :: mean_all members l T
  end.

Lemma read_unpushed data a name : read_op data = Some a -> pushed a = false -> a_group a = Some name -> a_names a = [].
Proof.
  unfold read_op. destruct (mSplit _ _ _ data) as [toks|]; [|done]. cbn. destruct (default [] toks) as [|w args]; [done|].
  destruct (bit_type w) as [ty|] eqn:Ety.
  - destruct args as [|names rest]; [done|]. destruct (read_bits ty names) as [b|] eqn:Eb; [|done]. intros [= <-]. unfold pushed. cbn.
    rewrite (read_bits_type _ _ _ Eb). apply bit_type_bits in Ety as [? ?]. intros Hp Hg. rewrite Hg in Hp. by destruct ty.
  - destruct (same_word word_noalert w); [by intros [= <-]|]. destruct (same_word word_reset w); [|done]. by intros [= <-].
Qed.

Lemma members_pushed texts abs g : mapM read_op texts = Some abs -> members_of (rev (filter pushed abs)) g = members_of abs g.
Proof.
  intros Hr. apply leibniz_equiv. intros x. unfold members_of. rewrite !elem_of_list_to_set, !elem_of_names_of. split.
  - intros (a & Ha & ?). exists a. split; [|done]. apply list_elem_of_In, in_rev, list_elem_of_In, list_elem_of_filter in Ha. tauto.
  - intros (a & Ha & Hg & Hx). exists a. split; [|done]. apply list_elem_of_In, in_rev. rewrite rev_involutive.
    apply list_elem_of_In, list_elem_of_filter. split; [|done]. apply Is_true_true. destruct (pushed a) eqn:Hp; [done|exfalso].
    apply mapM_Some in Hr. apply list_elem_of_lookup in Ha as (i & Hi). destruct (Forall2_lookup_r _ _ _ _ _ Hr Hi) as (t & _ & Ht).
    rewrite (read_unpushed t a g Ht Hp Hg) in Hx. by apply not_elem_of_nil in Hx.
Qed.

Lemma ginit_inv : pinv (MkP flowbits_ginit 0) /\ groups_fresh (MkP flowbits_ginit 0).
Proof. split; [|done]. split; cbn; try done; lia. Qed.

Lemma eval_all_mean n D idf members s (Hr : forall x, x ∈ D -> 0 <= idf x < n) (Hi : forall x y, x ∈ D -> y ∈ D -> idf x = idf y -> x = y) os abs :
  groups_ok n D idf members s -> Forall2 (denotes D idf s) os abs -> flowbits_count s = n -> 1 <= n ->
  forall flow S, (match flow with None => S = ∅ | Some b => rel n D idf S b end) ->
  eval_all s os (Some flow) = Some (mean_all members abs S).
Proof.
  intros Hs H2 Hn Hpos. induction H2 as [|o a os abs Hd H2 IH]; intros flow S Hf; cbn [eval_all mean_all]; [done|].
  assert (rel n D idf S (default (BitOp_new (flowbits_count s)) flow)) as Hb.
  { destruct flow as [b|]; [done|]. subst S. cbn. rewrite Hn. destruct (new_bits n Hpos) as [Hw Hm]. split; [done|set_solver|].
    intros x _. rewrite Hm. by rewrite bool_decide_eq_false_2 by set_solver. }
  unfold check_flowbits. destruct (check_bits_rel n D idf Hr Hi members s o a S _ Hs Hd Hb) as (b' & -> & Hb'). cbn.
  destruct (meaning members a S) as [r S']. cbn in *. by rewrite (IH (Some b') S').
Qed.

Lemma Forall2_in_r {A B} (P Q : A -> B -> Prop) l k :
  Forall2 P l k -> (forall x y, x ∈ l -> y ∈ k -> P x y -> Q x y) -> Forall2 Q l k.
Proof. induction 1 as [|x y l k Hxy _ IH]; intros H; constructor; [apply H; [left|left|done]|]. apply IH. intros x' y' ? ?. apply H; by right. Qed.

Lemma total_names_perm l l' : l ≡ₚ l' -> total_names l = total_names l'.
Proof. induction 1; cbn; [done|fold (total_names l); fold (total_names l'); lia|fold (total_names l); lia|lia]. Qed.
Lemma total_names_pushed abs : total_names (rev (filter pushed abs)) <= total_names abs.
Proof.
  rewrite (total_names_perm _ (filter pushed abs)) by (symmetry; apply Permutation_rev).
  induction abs as [|a abs IH]; [done|]. rewrite filter_cons. cbn [total_names foldr]. fold (total_names abs).
  pose proof (Zlen_nonneg (a_names a)). case_decide; cbn [total_names foldr]; fold (total_names (filter pushed abs)); lia.
Qed.

(** A parsed option, in a state with the same names. *)
Lemma parsed_denotes (p : pstate) (s : FlowBitState) (o : FLOWBITS_OP) (a : absop) :
  parsed p o a -> syntax_ok o = true -> Zlen (a_names a) < 256 ->
  dom (flowbits_grp_hash s) = dom (groups_of p) -> denotes (dom (hash_of p)) (id_of (fbs p)) s o a.
Proof.
  intros [H1 H2 H3 H4 H5 H6 H7] Hsyn Hlen Hdom. split; try done.
  - rewrite H5. apply u8_small. munfold. pose proof (Zlen_nonneg (a_names a)). lia.
  - eapply Forall_impl; [exact H6|]. intros x Hx. by apply elem_of_dom.
  - intros name E. apply elem_of_dom. rewrite Hdom. apply elem_of_dom. by apply H7.
  - intros He Hty. rewrite <- H3. destruct (group o) as [g|] eqn:Eg; [eauto|exfalso].
    unfold syntax_ok in Hsyn. rewrite Eg, H1, H2 in Hsyn. destruct He as [He|He], Hty as [Hty|Hty]; rewrite He, Hty in Hsyn; done.
Qed.

Lemma fresh_groups (p : pstate) (D : gset text) (idf : text -> Z) : groups_fresh p -> 1 <= count_of p -> (forall x, x ∈ D -> 0 <= idf x < count_of p) ->
  let fresh := omap (new_group_bits (count_of p)) (groups_of p) in
  dom fresh = dom (groups_of p) /\ forall x g, fresh !! x = Some g -> given (count_of p) D idf [] g.
Proof.
  intros Hf Hn Hid fresh. destruct (new_bits (count_of p) Hn) as [Hw Hm]. destruct (reset_mem _ _ Hw) as (b & Eb & Hb & Hlow & Hold).
  assert (forall x g, fresh !! x = Some g <-> exists k, groups_of p !! x = Some (MkGrp 0 0 k None) /\ g = MkGrp 0 0 k (Some b)) as Hl.
  { intros x g. unfold fresh. rewrite lookup_omap. destruct (groups_of p !! x) as [g0|] eqn:E; cbn; [|split; [done|by intros (? & ? & _)]].
    destruct (Hf x g0 E) as [k ->]. unfold new_group_bits. rewrite Eb. cbn. split; [intros [= <-]; eauto|by intros (? & [= <-] & ->)]. }
  split.
  - apply leibniz_equiv. intros x. rewrite !elem_of_dom. split; intros [g Hg].
    + apply Hl in Hg as (k & Hg & _). eauto.
    + destruct (Hf x g Hg) as [k ->]. eexists. apply Hl. eauto.
  - intros x g (k & _ & ->)%Hl. exists b. cbn. split_and!; [done| |done].
    assert (forall j, 0 <= j -> mem b j = false) as H0.
    { intros j Hj. destruct (mem b j) eqn:E; [|done]. apply Hold in E; [|done]. by rewrite Hm in E. }
    split; [|lia|].
    + split; [done|set_solver|]. intros y Hy. pose proof (Hid y Hy).
      rewrite H0 by lia. by rewrite bool_decide_eq_false_2 by set_solver.
    + intros j Hj Hmj. by rewrite H0 in Hmj.
Qed.

(** C17. Flowbits, from the texts of the options to the bits of a flow: when the
    options are parsed without error and have at least one name, fewer than 65536
    in all and fewer than 256 each, the groups are set up, and evaluating any of
    the options in any order on a new flow stays inside the vectors and gives the
    answers that the texts say on a set of names.  ([reset_without_bits],
    [many_names_lost] and [numbers_repeat] show that each of the three conditions
    is needed.) *)
Theorem flowbits_denote_names (texts : list text) os p abs :
  parse_all (MkP flowbits_ginit 0) texts = Some (os, p) -> errors p = 0%nat ->
  mapM read_op texts = Some abs -> total_names abs < 65536 -> Forall (fun a => Zlen (a_names a) < 256) abs ->
  1 <= flowbits_count (fbs p) ->
  exists s, init_groups (fbs p) = Some s /\
    forall order : list nat,
      eval_all s (omap (fun i => os !! i) order) (Some None) = Some (mean_all (members_of abs) (omap (fun i => abs !! i) order) ∅).
Proof.
  intros Hp He Hr Ht H256 Hpos. destruct ginit_inv as [I0 F0].
  destruct (parse_all_read texts _ os p abs I0 F0 Hp He Hr ltac:(cbn; lia)) as (Hsyn & I & _ & Hf & P & new & Hnew & Pn).
  cbn in Hnew. rewrite app_nil_r in Hnew. set (n := flowbits_count (fbs p)) in *. set (D := dom (flowbits_hash (fbs p))). set (idf := id_of (fbs p)).
  assert (forall x, x ∈ D -> 0 <= idf x < n) as Hrange.
  { intros x [o Hx]%elem_of_dom. unfold idf, id_of. rewrite Hx. by apply (pi_range p I x). }
  assert (forall x y, x ∈ D -> y ∈ D -> idf x = idf y -> x = y) as Hinj.
  { intros x y [o Hx]%elem_of_dom [o' Hy]%elem_of_dom. unfold idf, id_of. rewrite Hx, Hy. by apply (pi_inj p I). }
  destruct (fresh_groups p D idf Hf Hpos Hrange) as [Hdom Hgiven]. set (fresh := omap (new_group_bits (count_of p)) (groups_of p)) in *.
  set (s0 := MkState [] (flowbits_hash (fbs p)) (groups_of p) [] n 0 1).
  assert (forall o a, parsed p o a -> Zlen (a_names a) < 256 -> op_ids o = Some (map idf (a_names a))) as Hops.
  { intros o a [H1 H2 H3 H4 H5 H6 H7] Hlen. unfold op_ids. rewrite H4, H5, u8_small by (munfold; pose proof (Zlen_nonneg (a_names a)); lia).
    assert (Zlen (map (id_of (fbs p)) (a_names a)) = Zlen (a_names a)) as E by (unfold Zlen; by rewrite length_map).
    rewrite E, Z.leb_refl. f_equal. apply take_ge. rewrite length_map. unfold Zlen. lia. }
  assert (forall a, a ∈ rev (filter pushed abs) -> a ∈ abs /\ pushed a = true) as Hin.
  { intros a Ha. apply list_elem_of_In, in_rev, list_elem_of_In, list_elem_of_filter in Ha as [Hpa Ha]. split; [done|]. by apply Is_true_eq_true. }
  pose proof (total_names_pushed abs) as Htp. rewrite Forall_forall in H256.
  destruct (init_given n D idf Hrange Hinj new (rev (filter pushed abs)) [] fresh) as (groups & Einit & Hdom' & Hfinal).
  - apply (Forall2_in_r _ _ _ _ Pn). intros o a _ Ha P1. destruct (Hin a Ha) as [Hab Hpa].
    split_and!; [by apply Hops; [|by apply H256]|by apply (pa_group p)| |].
    + eapply Forall_impl; [exact (pa_names _ _ _ P1)|]. intros x Hx. by apply elem_of_dom.
    + unfold pushed in Hpa. destruct (a_group a) as [name|] eqn:Eg; [|by destruct (a_type a)]. exists name. split; [done|].
      apply elem_of_dom. rewrite Hdom. apply elem_of_dom. by apply (pa_known _ _ _ P1).
  - exact Hgiven.
  - cbn. lia.
  - set (s := MkState [] (flowbits_hash (fbs p)) groups (flowbits_bit_queue (fbs p)) n (flowbits_grp_count (fbs p)) (flowbits_toggle (fbs p))).
    exists s. split; [unfold init_groups; rewrite decide_True by exact Hdom; rewrite Hnew; fold fresh; by rewrite Einit|]. intros order.
    apply (eval_all_mean n D idf (members_of abs) s Hrange Hinj); [| |done|done|done].
    + intros name g Hg. destruct (Hfinal name g Hg) as (gb & Egb & Hgr & Hcnt). rewrite app_nil_l in *. exists gb. split; [done|].
      change (list_to_set (names_of ?l name)) with (members_of l name) in Hgr. pose proof (members_pushed texts abs name Hr) as Em. rewrite Em in Hgr.
      split; [done|]. rewrite Hcnt, <- Em. unfold members_of. destruct (names_of _ name) as [|x l]; cbn; [done|].
      rewrite Zlen_cons. pose proof (Zlen_nonneg l). split; [lia|]. set_solver.
    + assert (forall i o a, os !! i = Some o -> abs !! i = Some a -> denotes D idf s o a) as Hden.
      { intros i o a Ho Ha. apply parsed_denotes; [exact (Forall2_lookup_lr _ _ _ _ _ _ P Ho Ha)|rewrite Forall_forall in Hsyn; by apply Hsyn, (list_elem_of_lookup_2 _ i)| |].
        - by apply H256, (list_elem_of_lookup_2 _ i).
        - cbn. by rewrite Hdom'. }
      pose proof (Forall2_length _ _ _ P) as Hlen. clear -Hden Hlen. induction order as [|i order IH]; cbn; [constructor|].
      destruct (os !! i) as [o|] eqn:Eo, (abs !! i) as [a|] eqn:Ea; try done.
      * constructor; [by eapply Hden|done].
      * apply lookup_lt_Some in Eo. apply lookup_ge_None in Ea. lia.
      * apply lookup_lt_Some in Ea. apply lookup_ge_None in Eo. lia.
Qed.

(** ** Concrete options *)

Definition demo_texts : list text :=
  [ [115; 101; 116; 44; 97; 44; 103]; (* set,a,g *)
    [115; 101; 116; 44; 32; 98; 32; 44; 103]; (* set, b ,g *)
    [105; 115; 115; 101; 116; 44; 97; 38; 98]; (* isset,a&b *)
    [105; 115; 115; 101; 116; 44; 97; 110; 121; 44; 103]; (* isset,any,g *)
    [115; 101; 116; 120; 44; 99; 44; 103]; (* setx,c,g *)
    [116; 111; 103; 103; 108; 101; 44; 97] (* toggle,a *) ].

(** Nothing is set; a is, and then b; setx leaves only c; toggle sets a again. *)
Lemma flowbits_denote_names_witness :
  exists os p s, parse_all (MkP flowbits_ginit 0) demo_texts = Some (os, p) /\ init_groups (fbs p) = Some s /\
    eval_all s (omap (fun i => os !! i) [2; 3; 0; 3; 2; 1; 2; 4; 2; 5; 3]%nat) (Some None) =
    Some [FAILED_BIT; FAILED_BIT; MATCH; MATCH; FAILED_BIT; MATCH; MATCH; MATCH; FAILED_BIT; MATCH; MATCH].
Proof.
  destruct (parse_all (MkP flowbits_ginit 0) demo_texts) as [[os p]|] eqn:E; [|by vm_compute in E].
  destruct (mapM read_op demo_texts) as [abs|] eqn:Ea; [|by vm_compute in Ea].
  assert (errors p = 0%nat /\ flowbits_count (fbs p) = 3) as [He Hc]
    by (vm_compute in E; injection E as _ <-; split; reflexivity).
  assert (total_names abs = 6 /\ Forall (fun a => Zlen (a_names a) < 256) abs /\
    mean_all (members_of abs) (omap (fun i => abs !! i) [2; 3; 0; 3; 2; 1; 2; 4; 2; 5; 3]%nat) ∅ =
      [FAILED_BIT; FAILED_BIT; MATCH; MATCH; FAILED_BIT; MATCH; MATCH; MATCH; FAILED_BIT; MATCH; MATCH]) as (Ht & Hl & Hm).
  { vm_compute in Ea. injection Ea as <-. split; [reflexivity|]. split; [repeat (constructor; [by vm_compute|]); constructor|vm_compute; reflexivity]. }
  destruct (flowbits_denote_names demo_texts os p abs E He Ea ltac:(lia) Hl ltac:(lia)) as (s & Hs & Hrun).
  exists os, p, s. split; [reflexivity|]. split; [exact Hs|]. rewrite Hrun, Hm. reflexivity.
Defined.

(** With no named bits at all the vector has no bytes, but one is cleared. *)
Theorem reset_without_bits :
  parse_all (MkP flowbits_ginit 0) [word_reset] = Some ([new_op FLOWBITS_RESET], MkP flowbits_ginit 0) /\
  check_flowbits flowbits_ginit (new_op FLOWBITS_RESET) (Some None) = None.
Proof. split; reflexivity. Qed.

(** The number of names of an option is kept in eight bits: an option with 256
    names has none. *)
Theorem many_names_lost o l e : Zlen l = 256 -> op_ids (with_ids o l e) = Some [].
Proof. intros H. unfold op_ids, with_ids. cbn. rewrite H. done. Qed.

(** The 65537th name shares the number of the first. *)
Theorem numbers_repeat ops h g q t er :
  (new_item (MkP (MkState ops h g [] 65536 q t) er)).1 = MkObj 0 0 0 0 0 /\
  errors (new_item (MkP (MkState ops h g [] 65536 q t) er)).2 = er.
Proof. split; reflexivity. Qed.
