(* ===== verification/Hyperscan.v ===== *)
(** * Hyperscan: the pattern matcher's data (search_engines/hyperscan.h,
    search_engines/hyperscan.cc) as Pigasus uses it

    A matcher is a vector of patterns; the FPGA names rules by compressed SID,
    and [compressed_sid_id_map] takes such a SID to the index of its pattern.
    The hyperscan library itself (compilation, scanning) and the callbacks of
    the detection engine are parameters. *)

From S2P Require Import Prelude ParseUtils.

(** ** Patterns *)

Definition isprint (c : Z) : bool := (32 <=? c) && (c <=? 126).

(** The characters of [special], ".^$*+?()[]{}\|". *)
Definition special : list Z := [46; 94; 36; 42; 43; 63; 40; 41; 91; 93; 123; 125; 92; 124].

Definition strchr (l : list Z) (c : Z) : bool := existsb (Z.eqb c) l.

(** [Pattern::escape]: the expression for the byte string [s]. *)
Fixpoint escape (s : list Z) (literal : bool) : list Z :=
  match s with
  | [] => []
  | c :: s =>
      (if negb (isprint c) then [92; 120; hex_digit (c / 16); hex_digit (c mod 16)]
       else (if literal && strchr special c then [92] else []) ++ [c]) ++ escape s literal
  end.

(** [Mpse::PatternDescriptor] (framework/mpse.h) *)
Record PatternDescriptor := MkDesc { d_no_case : bool; d_negated : bool; d_literal : bool; d_flags : Z }.

Section Mpse.

(** [U]: the users' data of a pattern (a [PMX], which leads to a rule), [T]
    and [L]: the detection tree and the list of negated rules built for it. *)
Context {U T L : Type}.

(** Flags of the hyperscan library. *)
Variables HS_FLAG_CASELESS HS_FLAG_SINGLEMATCH : Z.

Record Pattern := MkPattern {
  pat : list Z; len : Z; flags : Z; no_case : bool; negate : bool;
  user : U; user_tree : option T; user_list : option L }.

(** The constructor. *)
Definition Pattern_new (s : list Z) (d : PatternDescriptor) (u : U) : Pattern :=
  let flags := if d_no_case d then Z.lor (d_flags d) HS_FLAG_CASELESS else d_flags d in
  {| pat := escape s (d_literal d); len := Zlen s; flags := Z.lor flags HS_FLAG_SINGLEMATCH;
     no_case := d_no_case d; negate := d_negated d;
     user := u; user_tree := None; user_list := None |}.

Record HyperscanMpse := MkMpse {
  pvector : list Pattern;
  compressed_sid_id_map : gmap Z Z;
  compressed_sid_id_map_outdated : bool }.

Definition Mpse_new : HyperscanMpse := MkMpse [] ∅ false.

Definition add_pattern (h : HyperscanMpse) (s : list Z) (d : PatternDescriptor) (u : U) : HyperscanMpse :=
  {| pvector := pvector h ++ [Pattern_new s d u];
     compressed_sid_id_map := compressed_sid_id_map h;
     compressed_sid_id_map_outdated := true |}.

(** ** Compressed SIDs *)

(** [sid_of u]: the SID of the rule that [u] leads to;
    [sid_compressed_sid_map]: the table of [SnortConfig]. *)
Variable sid_of : U -> Z.
Variable sid_compressed_sid_map : gmap Z Z.

(** The loop of [update_compressed_sid_id_map] from index [i] on. *)
Fixpoint sid_map_loop (ps : list Pattern) (i : Z) (m : gmap Z Z) : gmap Z Z :=
  match ps with
  | [] => m
  | p :: ps =>
      sid_map_loop ps (i + 1)
        match sid_compressed_sid_map !! sid_of (user p) with
        | Some compressed_sid => <[compressed_sid := i]> m
        | None => m
        end
  end.

Definition update_compressed_sid_id_map (h : HyperscanMpse) : HyperscanMpse :=
  {| pvector := pvector h;
     compressed_sid_id_map := sid_map_loop (pvector h) 0 ∅;
     compressed_sid_id_map_outdated := false |}.

(** [get_pattern_from_compressed_sid]: [None] for NULL. *)
Definition get_pattern_from_compressed_sid (h : HyperscanMpse) (compressed_sid : Z) : option Pattern :=
  match compressed_sid_id_map h !! compressed_sid with
  | None => None
  | Some id => rd (pvector h) id
  end.

(** ** Trees and searching *)

(** [agent]: the detection engine's callbacks; [build_tree None] is the call
    with a null user that ends the tree. *)
Definition user_ctor (negate_list : U -> option L -> option L)
    (build_tree : option U -> option T -> option T) (h : HyperscanMpse) : HyperscanMpse :=
  {| pvector :=
       map (fun p =>
         let p := if negate p
                  then MkPattern (pat p) (len p) (flags p) (no_case p) (negate p) (user p)
                         (user_tree p) (negate_list (user p) (user_list p))
                  else MkPattern (pat p) (len p) (flags p) (no_case p) (negate p) (user p)
                         (build_tree (Some (user p)) (user_tree p)) (user_list p) in
         MkPattern (pat p) (len p) (flags p) (no_case p) (negate p) (user p)
           (build_tree None (user_tree p)) (user_list p)) (pvector h);
     compressed_sid_id_map := compressed_sid_id_map h;
     compressed_sid_id_map_outdated := compressed_sid_id_map_outdated h |}.

(** [_search]: [hits] are the (id, end) pairs [hs_scan] reports in order; it
    stops when the callback returns non-zero.  The callback threads a state;
    the result is [nfound] and that state.  [None]: an id outside [pvector]
    (the assertion of [match]). *)
Fixpoint search {S : Type} (match_cb : U -> option T -> Z -> option L -> S -> Z * S)
    (h : HyperscanMpse) (hits : list (Z * Z)) (nfound : Z) (ctx : S) : option (Z * S) :=
  match hits with
  | [] => Some (nfound, ctx)
  | (id, to) :: hits =>
      match rd (pvector h) id with
      | None => None
      | Some p =>
          let '(stop, ctx) := match_cb (user p) (user_tree p) (s32 to) (user_list p) ctx in
          if truth stop then Some (nfound + 1, ctx) else search match_cb h hits (nfound + 1) ctx
      end
  end.

(** ** Lemmas on the SID map *)

(** The compressed SID of a pattern's rule. *)
Definition csid (p : Pattern) : option Z := sid_compressed_sid_map !! sid_of (user p).

(** [last_with ps s]: index of the last pattern of [ps] with compressed SID [s]. *)
Definition last_with (ps : list Pattern) (s i : Z) : Prop :=
  (exists p, rd ps i = Some p /\ csid p = Some s) /\
  forall j p, i < j -> rd ps j = Some p -> csid p <> Some s.

Lemma sid_map_loop_spec ps i m s :
  sid_map_loop ps i m !! s =
  match sid_map_loop ps i ∅ !! s with Some k => Some k | None => m !! s end.
Proof.
  revert i m. induction ps as [|p ps IH]; intros i m; simpl; [by rewrite lookup_empty|].
  rewrite IH. symmetry. rewrite IH. symmetry.
  destruct (sid_map_loop ps (i + 1) ∅ !! s); [done|].
  destruct (_ !! sid_of (user p)) as [k|]; [|by rewrite lookup_empty].
  destruct (decide (k = s)) as [->|]; [by rewrite !lookup_insert_eq|].
  by rewrite !lookup_insert_ne, lookup_empty by done.
Qed.

Lemma rd_cons_S {A} (x : A) l j : 0 <= j -> rd (x :: l) (j + 1) = rd l j.
Proof. intros H. rewrite rd_cons by lia. f_equal. lia. Qed.

Lemma last_with_cons p ps s i :
  0 <= i -> last_with (p :: ps) s (i + 1) <-> last_with ps s i.
Proof.
  intros Hi. unfold last_with. rewrite rd_cons_S by done. split; intros [He Hl]; (split; [done|]).
  - intros j q Hj Hq. apply (Hl (j + 1)); [lia|]. by rewrite rd_cons_S by lia.
  - intros j q Hj Hq. apply (Hl (j - 1)); [lia|]. by rewrite rd_cons in Hq by lia.
Qed.

Lemma sid_map_loop_last ps i s :
  match sid_map_loop ps i ∅ !! s with
  | Some k => 0 <= k - i /\ last_with ps s (k - i)
  | None => forall j p, rd ps j = Some p -> csid p <> Some s
  end.
Proof.
  revert i. induction ps as [|p ps IH]; intros i; simpl.
  { rewrite lookup_empty. intros j p Hj%rd_Some_range. unfold Zlen in Hj. simpl in Hj. lia. }
  rewrite sid_map_loop_spec. specialize (IH (i + 1)).
  destruct (sid_map_loop ps (i + 1) ∅ !! s) as [k|].
  { destruct IH as [Hk Hl]. split; [lia|]. replace (k - i) with (k - (i + 1) + 1) by lia.
    by apply last_with_cons. }
  assert (forall j q, 0 < j -> rd (p :: ps) j = Some q -> csid q <> Some s) as Hrest.
  { intros j q Hj Hq. rewrite rd_cons in Hq by done. by eapply IH. }
  destruct (sid_compressed_sid_map !! sid_of (user p)) as [k|] eqn:E;
    [destruct (decide (k = s)) as [->|Hne]|].
  - rewrite lookup_insert_eq. split; [lia|]. rewrite Z.sub_diag. split; [by exists p|].
    intros j q Hj. by apply Hrest.
  - rewrite lookup_insert_ne, lookup_empty by done. intros j q Hq.
    destruct (Z.eq_dec j 0) as [->|]; [|apply (Hrest j q); [apply rd_Some_range in Hq; lia|done]].
    injection Hq as <-. unfold csid. rewrite E. congruence.
  - rewrite lookup_empty. intros j q Hq.
    destruct (Z.eq_dec j 0) as [->|]; [|apply (Hrest j q); [apply rd_Some_range in Hq; lia|done]].
    injection Hq as <-. unfold csid. rewrite E. congruence.
Qed.

Lemma get_pattern_spec h s p :
  get_pattern_from_compressed_sid (update_compressed_sid_id_map h) s = Some p <->
  exists i, last_with (pvector h) s i /\ rd (pvector h) i = Some p.
Proof.
  unfold get_pattern_from_compressed_sid. simpl.
  pose proof (sid_map_loop_last (pvector h) 0 s) as H.
  destruct (sid_map_loop (pvector h) 0 ∅ !! s) as [k|].
  - rewrite Z.sub_0_r in H. destruct H as [_ Hl]. split; [eauto|].
    intros (i & [(q & Hq & Hs) Hi] & Hp). destruct Hl as [(r & Hr & Hrs) Hk].
    destruct (Z.lt_trichotomy i k) as [?|[->|?]]; [by destruct (Hi k r)|done|by destruct (Hk i q)].
  - split; [done|]. intros (i & [(q & Hq & Hs) _] & _). by destruct (H i q).
Qed.

End Mpse.

Arguments Pattern : clear implicits.
Arguments HyperscanMpse : clear implicits.

(** ** Reading an expression back *)

(** What an expression of plain characters, [\c] and [\xHH] matches: the byte
    string, or [None] when it has an operator in it. *)
Fixpoint unescape (fuel : nat) (e : list Z) : option (list Z) :=
  match fuel with
  | O => None
  | S fuel =>
      match e with
      | [] => Some []
      | c :: r =>
          if c =? 92 then
            match r with
            | x :: h :: l :: r' =>
                if x =? 120 then (fun s => (xton h * 16 + xton l) :: s) <$> unescape fuel r'
                else (fun s => x :: s) <$> unescape fuel (h :: l :: r')
            | x :: r' => (fun s => x :: s) <$> unescape fuel r'
            | [] => None
            end
          else if strchr special c then None
          else (fun s => c :: s) <$> unescape fuel r
      end
  end.

Lemma strchr_special_x c : strchr special c = true -> c <> 120.
Proof. intros H ->. by vm_compute in H. Qed.

Lemma unescape_backslash fuel c r :
  c <> 120 -> unescape (S fuel) (92 :: c :: r) = (fun s => c :: s) <$> unescape fuel r.
Proof.
  intros Hc. simpl. destruct r as [|h [|l r]]; try done. by bcase (c =? 120) as E.
Qed.

Lemma unescape_escape s fuel :
  bytes s -> (length s < fuel)%nat -> unescape fuel (escape s true) = Some s.
Proof.
  intros Hs. revert fuel. induction Hs as [|c s Hc Hs IH]; intros [|fuel] Hf; simpl in Hf; try lia.
  { done. }
  cbn [escape]. bcase (negb (isprint c)) as E.
  - assert (unescape (S fuel) (92 :: 120 :: hex_digit (c / 16) :: hex_digit (c mod 16) :: escape s true)
      = (fun s => (xton (hex_digit (c / 16)) * 16 + xton (hex_digit (c mod 16))) :: s) <$>
          unescape fuel (escape s true)) as Hu by done.
    simpl app. rewrite Hu, IH by lia. simpl. f_equal. f_equal.
    unfold is_u8 in Hc. pose proof (Z.div_mod c 16). pose proof (Z.mod_pos_bound c 16).
    destruct (hex_digit_spec (c / 16)) as (_ & H1 & _);
      [split; [apply Z.div_pos; lia|apply Z.div_lt_upper_bound; lia]|].
    destruct (hex_digit_spec (c mod 16)) as (_ & H2 & _); [lia|]. rewrite H1, H2. lia.
  - destruct (strchr special c) eqn:Es.
    + change (unescape (S fuel) (92 :: c :: escape s true) = Some (c :: s)).
      rewrite unescape_backslash by (by apply strchr_special_x). rewrite IH by lia. done.
    + change (unescape (S fuel) (c :: escape s true) = Some (c :: s)).
      cbn [unescape]. bcase (c =? 92) as E92; [by subst|]. rewrite Es, IH by lia. done.
Qed.

(** ** Properties *)

(** Escaping is faithful: the expression compiled for a literal pattern,
    read as a regular expression, contains no operator and denotes exactly the
    pattern's bytes, printable or not. *)
Theorem escape_literal s :
  bytes s -> unescape (S (length s)) (escape s true) = Some s.
Proof. intros Hs. apply unescape_escape; [done|lia]. Qed.

Lemma escape_literal_witness :
  escape [97; 46; 0; 92; 255] true =
    [97; 92; 46; 92; 120; 48; 48; 92; 92; 92; 120; 70; 70] /\
  unescape 6 (escape [97; 46; 0; 92; 255] true) = Some [97; 46; 0; 92; 255].
Proof.
  split; [reflexivity|]. apply (escape_literal [97; 46; 0; 92; 255]). repeat constructor; done.
Defined.

(** The SID map: once [update_compressed_sid_id_map] has run, a
    compressed SID is looked up to the last pattern whose rule has that
    compressed SID, and to nothing when there is none (rules without a
    compressed SID are never found). *)
Theorem sid_map_lookup {U T L} (sid_of : U -> Z) (m : gmap Z Z) (h : HyperscanMpse U T L) s :
  let h' := update_compressed_sid_id_map sid_of m h in
  (forall p, get_pattern_from_compressed_sid h' s = Some p <->
     exists i, last_with sid_of m (pvector h) s i /\ rd (pvector h) i = Some p) /\
  (get_pattern_from_compressed_sid h' s = None <->
     forall j p, rd (pvector h) j = Some p -> csid sid_of m p <> Some s) /\
  update_compressed_sid_id_map sid_of m h' = h'.
Proof.
  intros h'. split_and!; [intros p; apply get_pattern_spec| |done].
  unfold get_pattern_from_compressed_sid. simpl.
  pose proof (sid_map_loop_last sid_of m (pvector h) 0 s) as H.
  destruct (sid_map_loop sid_of m (pvector h) 0 ∅ !! s) as [k|]; [|done].
  rewrite Z.sub_0_r in H. destruct H as (_ & (p & Hp & Hs) & _). rewrite Hp. split; [done|].
  intros Hn. by destruct (Hn k p).
Qed.
