(* ===== verification/Pcrm.v ===== *)
(** * Pcrm: the rule groups of a port pair (detection/pcrm.cc, detection/pcrm.h)

    [G] is the type of pointers to port groups. *)

From S2P Require Import Prelude.

Definition ANYPORT : Z := -1.
Definition MAX_PORTS : Z := 65536.

Section Pcrm.
Context {G : Type}.

Record PORT_RULE_MAP := MkPrm {
  prmSrcPort : list (option G);
  prmDstPort : list (option G);
  prmGeneric : option G }.

(** [rule_count]: the field of the port group; [split_any_any]: the
    configuration flag. *)
Variable rule_count : G -> Z.
Variable split_any_any : bool.

(** What [prmFindRuleGroup] returns and stores. *)
Record groups := MkGroups { found : bool; src : option G; dst : option G; gen : option G }.

Definition prmFindRuleGroup (p : option PORT_RULE_MAP) (dport sport : Z) : groups :=
  match p with
  | None => MkGroups false None None None
  | Some p =>
      let dst := if negb (dport =? ANYPORT) && (dport <? MAX_PORTS)
                 then mjoin (rd (prmDstPort p) dport) else None in
      let src := if negb (sport =? ANYPORT) && (sport <? MAX_PORTS)
                 then mjoin (rd (prmSrcPort p) sport) else None in
      let gen := match prmGeneric p with
                 | None => None
                 | Some g =>
                     if rule_count g >? 0 then
                       if split_any_any || (bool_decide (src = None) && bool_decide (dst = None))
                       then Some g else None
                     else None
                 end in
      MkGroups (bool_decide (is_Some src) || bool_decide (is_Some dst) || bool_decide (is_Some gen))
        src dst gen
  end.

Definition prmFindRuleGroupTcp := prmFindRuleGroup.
Definition prmFindRuleGroupUdp := prmFindRuleGroup.
Definition prmFindRuleGroupIp (p : option PORT_RULE_MAP) (ip_proto : Z) : groups :=
  prmFindRuleGroup p ip_proto ANYPORT.
Definition prmFindRuleGroupIcmp (p : option PORT_RULE_MAP) (type : Z) : groups :=
  prmFindRuleGroup p type ANYPORT.

(** A map with an entry for each port, as [prmNewMap] allocates it. *)
Definition prm_wf (p : PORT_RULE_MAP) : Prop :=
  Zlen (prmSrcPort p) = MAX_PORTS /\ Zlen (prmDstPort p) = MAX_PORTS.

Definition prmNewMap : PORT_RULE_MAP :=
  MkPrm (replicate (Z.to_nat MAX_PORTS) None) (replicate (Z.to_nat MAX_PORTS) None) None.

Lemma found_spec (o1 o2 o3 : option G) :
  bool_decide (is_Some o1) || bool_decide (is_Some o2) || bool_decide (is_Some o3) = false <->
  o1 = None /\ o2 = None /\ o3 = None.
Proof.
  assert (forall o : option G, bool_decide (is_Some o) = false <-> o = None) as H.
  { intros o. rewrite bool_decide_eq_false. symmetry. apply eq_None_not_Some. }
  rewrite !orb_false_iff, !H. tauto.
Qed.

End Pcrm.
Arguments PORT_RULE_MAP : clear implicits.
Arguments groups : clear implicits.

(** Selecting the rule groups of a packet: the groups of its two ports
    are returned whenever they exist, the generic group exactly when it has
    rules and either the configuration splits any-any rules or no port has a
    group of its own, and 0 is returned exactly when there is nothing to
    evaluate. *)
Theorem prmFindRuleGroup_spec {G} (rule_count : G -> Z) split p dport sport :
  prm_wf p -> is_u16 dport -> is_u16 sport ->
  let r := prmFindRuleGroup rule_count split (Some p) dport sport in
  rd (prmDstPort p) dport = Some (dst r) /\
  rd (prmSrcPort p) sport = Some (src r) /\
  (forall g, gen r = Some g <->
     prmGeneric p = Some g /\ 0 < rule_count g /\ (split = true \/ src r = None /\ dst r = None)) /\
  (found r = false <-> src r = None /\ dst r = None /\ gen r = None).
Proof.
  unfold is_u16. intros [Hs Hd] Hdp Hsp. unfold prmFindRuleGroup, ANYPORT, MAX_PORTS in *.
  destruct (rd_is_Some (prmDstPort p) dport) as [d Ed]; [lia|].
  destruct (rd_is_Some (prmSrcPort p) sport) as [s Es]; [lia|]. rewrite Ed, Es.
  bcase (negb (dport =? -1) && (dport <? 65536)) as E1; [|lia].
  bcase (negb (sport =? -1) && (sport <? 65536)) as E2; [|lia].
  change (mjoin (Some d)) with d. change (mjoin (Some s)) with s. cbn [src dst gen found]. split_and!; [done|done| |].
  - intros g. destruct (prmGeneric p) as [g'|]; [|split; [done|by intros [? _]]].
    bcase (rule_count g' >? 0) as Er.
    2: { split; [done|]. intros ([= <-] & ? & _). lia. }
    destruct split; simpl; [split; [intros [= <-]; auto|by intros [? _]]|]. split.
    + destruct (bool_decide (s = None)) eqn:B1, (bool_decide (d = None)) eqn:B2; simpl; try done.
      apply bool_decide_eq_true in B1, B2. intros [= <-]. auto.
    + intros ([= <-] & _ & [?|[-> ->]]); [done|]. by rewrite !bool_decide_true.
  - apply found_spec.
Qed.

Lemma prmFindRuleGroup_spec_witness :
  let p := MkPrm (replicate (Z.to_nat MAX_PORTS) None)
             (replicate (Z.to_nat MAX_PORTS) None) (Some 7%nat) in
  let r := prmFindRuleGroup (fun _ => 1) false (Some p) 80 1025 in
  found r = false <-> src r = None /\ dst r = None /\ gen r = None.
Proof.
  apply (prmFindRuleGroup_spec (fun _ : nat => 1) false); [|done|done].
  split; cbn [prmSrcPort prmDstPort]; by rewrite Zlen_replicate, Z2Nat.id.
Defined.
