(* ===== verification/PortRules.v ===== *)
(** * PortRules: from rules to the rule groups of a packet

    parser/parse_rule.cc ([FinishPortListRule]) enters every rule into the port
    tables of its protocol (ports/rule_port_tables.{h,cc}); parser/parser.cc
    ([PortTablesFinish]) compiles the tables; detection/fp_create.cc makes a
    port group of every compiled object and a map from ports to groups, from which
    [Pcrm] selects the groups of a packet.  A port group is the list of the
    rules that were added to it. *)

From S2P Require Import Prelude Hash GHash PortObject PortTable RuleHeader Pcrm.

(** ** The tables of the protocols *)

Inductive SnortProtocolId := SNORT_PROTO_IP | SNORT_PROTO_ICMP | SNORT_PROTO_TCP | SNORT_PROTO_UDP | SNORT_PROTO_OTHER.

#[export] Instance SnortProtocolId_eq_dec : EqDecision SnortProtocolId.
Proof. solve_decision. Defined.

Definition is_network_protocol (p : SnortProtocolId) : bool := negb (bool_decide (p = SNORT_PROTO_OTHER)).

Definition DEFAULT_LARGE_RULE_GROUP : Z := 9.

Record rule_count_t := MkCnt { c_src : Z; c_dst : Z; c_any : Z; c_both : Z }.
Definition no_rules : rule_count_t := MkCnt 0 0 0 0.

(** With the counters of the protocol. *)
Record PortProto := MkProto { src_table : PortTable; dst_table : PortTable; any : PortObject; nfp : PortObject; cnt : rule_count_t }.

Definition PortProto_new : PortProto :=
  let t := MkPT (pt_optimize PortTableNew) (pt_polist PortTableNew) DEFAULT_LARGE_RULE_GROUP in
  MkProto t t (PortObjectAddPortAny PortObjectNew) (PortObjectAddPortAny PortObjectNew) no_rules.

(** [allocated]: how many port objects were allocated. *)
Record RulePortTables := MkRPT {
  ip : PortProto; icmp : PortProto; tcp : PortProto; udp : PortProto;
  svc_any : PortObject; svc_cnt : rule_count_t; allocated : nat }.

Definition PortTablesNew : RulePortTables :=
  MkRPT PortProto_new PortProto_new PortProto_new PortProto_new (PortObjectAddPortAny PortObjectNew) no_rules 0.

Definition proto_of (t : RulePortTables) (p : SnortProtocolId) : PortProto :=
  match p with
  | SNORT_PROTO_ICMP => icmp t | SNORT_PROTO_TCP => tcp t | SNORT_PROTO_UDP => udp t | _ => ip t
  end.
Definition set_proto (t : RulePortTables) (p : SnortProtocolId) (x : PortProto) (n : nat) : RulePortTables :=
  match p with
  | SNORT_PROTO_ICMP => MkRPT (ip t) x (tcp t) (udp t) (svc_any t) (svc_cnt t) n
  | SNORT_PROTO_TCP => MkRPT (ip t) (icmp t) x (udp t) (svc_any t) (svc_cnt t) n
  | SNORT_PROTO_UDP => MkRPT (ip t) (icmp t) (tcp t) x (svc_any t) (svc_cnt t) n
  | _ => MkRPT x (icmp t) (tcp t) (udp t) (svc_any t) (svc_cnt t) n
  end.

(** What a rule brings: flags and port objects of its header, its index. *)
Record port_rule := MkRule { r_flags : Z; r_src : PortObject; r_dst : PortObject; ruleIndex : Z; r_proto : SnortProtocolId }.
Definition has_flag (r : port_rule) (f : Z) : bool := truth (Z.land (r_flags r) f).

Section Rules.
(** The address of the n-th port object; the fast pattern configuration. *)
Variable alloc : nat -> Z.
Variable single_rule_group : bool.
Variable bleed_over_port_limit : Z.

(** A rule added to the object of the table with these ports, or to a new one. *)
Definition put (t : PortTable) (po : PortObject) (idx : Z) (n : nat) : PortTable * nat :=
  match PortTableFindInputPortObjectPorts t (item_list po) with
  | Some a =>
      (MkPT (pt_optimize t) (map (fun x => if x.1 =? a then (x.1, PortObjectAddRule x.2 idx) else x) (pt_polist t)) (pt_lrc t), n)
  | None => (PortTableAddObject t (alloc n) (PortObjectAddRule (PortObjectDupPorts po) idx), S n)
  end.

Definition add_any (p : PortProto) (idx : Z) : PortProto :=
  MkProto (src_table p) (dst_table p) (PortObjectAddRule (any p) idx) (nfp p) (MkCnt (c_src (cnt p)) (c_dst (cnt p)) (c_any (cnt p) + 1) (c_both (cnt p))).

(** One side of the rule: its ports go to the table of the side and, for a
    bidirectional rule, to the other one. *)
Definition put_side (any_ports bidir : bool) (po : PortObject) (idx : Z) (main other : PortTable) (n : nat) : PortTable * PortTable * nat :=
  if any_ports then (main, other, n)
  else
    let '(main, n) := put main po idx n in
    let '(other, n) := if bidir then put other po idx n else (other, n) in
    (main, other, n).

(** The last part of [FinishPortListRule]: destination ports, then source ports. *)
Definition put_ports (r : port_rule) (p : PortProto) (n : nat) : PortProto * nat :=
  let bidir := has_flag r BIDIRECTIONAL in
  let '(d, s, n) := put_side (has_flag r ANY_DST_PORT) bidir (r_dst r) (ruleIndex r) (dst_table p) (src_table p) n in
  let '(s, d, n) := put_side (has_flag r ANY_SRC_PORT) bidir (r_src r) (ruleIndex r) s d n in
  (MkProto s d (any p) (nfp p)
     (MkCnt (c_src (cnt p) + b2z (negb (has_flag r ANY_SRC_PORT))) (c_dst (cnt p) + b2z (negb (has_flag r ANY_DST_PORT))) (c_any (cnt p)) (c_both (cnt p))), n).

(** More ports than the limit on either side. *)
Definition large_port_group (r : port_rule) : bool :=
  negb single_rule_group && negb (has_flag r ANY_DST_PORT && has_flag r ANY_SRC_PORT) &&
  ((negb (has_flag r ANY_SRC_PORT) && (PortObjectPortCount (item_list (r_src r)) >=? bleed_over_port_limit)) ||
   (negb (has_flag r ANY_DST_PORT) && (PortObjectPortCount (item_list (r_dst r)) >=? bleed_over_port_limit))).

Definition to_any_any (r : port_rule) : bool :=
  (has_flag r ANY_DST_PORT && has_flag r ANY_SRC_PORT) || large_port_group r || single_rule_group.

Definition count_both (r : port_rule) (p : PortProto) : PortProto :=
  if negb (has_flag r ANY_DST_PORT) && negb (has_flag r ANY_SRC_PORT)
  then MkProto (src_table p) (dst_table p) (any p) (nfp p) (MkCnt (c_src (cnt p)) (c_dst (cnt p)) (c_any (cnt p)) (c_both (cnt p) + 1))
  else p.

Definition FinishPortListRule (t : RulePortTables) (r : port_rule) : RulePortTables :=
  match r_proto r with
  | SNORT_PROTO_OTHER =>
      let c := svc_cnt t in
      MkRPT (ip t) (icmp t) (tcp t) (udp t) (PortObjectAddRule (svc_any t) (ruleIndex r)) (MkCnt (c_src c) (c_dst c) (c_any c + 1) (c_both c)) (allocated t)
  | p =>
      let t := set_proto t p (count_both r (proto_of t p)) (allocated t) in
      if to_any_any r then
        let t :=
          if bool_decide (p = SNORT_PROTO_IP) then
            MkRPT (ip t) (add_any (icmp t) (ruleIndex r)) (add_any (tcp t) (ruleIndex r)) (add_any (udp t) (ruleIndex r))
              (svc_any t) (svc_cnt t) (allocated t)
          else t in
        set_proto t p (add_any (proto_of t p) (ruleIndex r)) (allocated t)
      else
        let '(x, n) := put_ports r (proto_of t p) (allocated t) in set_proto t p x n
  end.

Definition add_port_rules (l : list port_rule) : RulePortTables := fold_left FinishPortListRule l PortTablesNew.

End Rules.

(** ** Port groups and maps *)

(** What [fpAddPortGroupRule] looks at in the option tree node of a rule;
    [o_exclude]: no fast pattern can be used and the rule is not to be evaluated
    without one. *)
Record otn_info := MkOtn { o_proto : SnortProtocolId; o_builtin : bool; o_enabled : bool; o_exclude : bool }.

Abbreviation PortGroup := (list Z).

Section Groups.
Variable otn_of : Z -> otn_info.
Variable split_any_any : bool.
(** The constants of the hash functions: two of a table, and of the rules of an
    object. *)
Variable hp hx : HashFnc.
Variable hr : nat -> HashFnc.

Definition fpAddPortGroupRule (pg : PortGroup) (idx : Z) : PortGroup :=
  let o := otn_of idx in
  if o_builtin o then pg else if negb (o_enabled o) then pg else if o_exclude o then pg else pg ++ [idx].

(** The rules of an object, in the order of its hash. *)
Definition rules_list (po : PortObject2) : option (list Z) := '(nodes, _) ← ghash_iterate (rule_hash po); Some nodes.*2.

(** The group, if any rule was added. *)
Definition fpCreatePortObject2PortGroup (po : PortObject2) (poaa : option PortObject2) : option (option PortGroup) :=
  r1 ← rules_list po;
  r2 ← match poaa with None => Some [] | Some q => rules_list q end;
  let pg := fold_left (fun pg idx => if is_network_protocol (o_proto (otn_of idx)) then fpAddPortGroupRule pg idx else pg) (r1 ++ r2) [] in
  Some (if bool_decide (pg = []) then None else Some pg).

(** The groups of the objects a table uses, by object. *)
Fixpoint create_groups (objs : gmap nat PortObject2) (poaa : option PortObject2) (l : list nat) (gs : gmap nat PortGroup) : option (gmap nat PortGroup) :=
  match l with
  | [] => Some gs
  | n :: l =>
      ob ← objs !! n;
      if port_cnt ob =? 0 then create_groups objs poaa l gs
      else
        g ← fpCreatePortObject2PortGroup ob poaa;
        create_groups objs poaa l (match g with None => delete n gs | Some g => <[n := g]> gs end)
  end.
Definition fpCreatePortTablePortGroups (c : compiled) (poaa : option PortObject2) : option (gmap nat PortGroup) :=
  '(nodes, _) ← ghash_iterate (pt_mpo_hash c); create_groups (objects c) poaa nodes.*2 ∅.

(** The group stored at every port of an object. *)
Definition set_group (arr : list (option PortGroup)) (ob : PortObject2) (g : PortGroup) : list (option PortGroup) :=
  fold_left (fun a port => wr a port (Some g)) (PortObject2Iterate (items2 ob)) arr.
Fixpoint fill_ports (objs : gmap nat PortObject2) (gs : gmap nat PortGroup) (l : list nat) (arr : list (option PortGroup)) : option (list (option PortGroup)) :=
  match l with
  | [] => Some arr
  | n :: l =>
      ob ← objs !! n;
      fill_ports objs gs l (match gs !! n with None => arr | Some g => set_group arr ob g end)
  end.

(** One direction of [fpCreateInitRuleMap]. *)
Definition init_direction (c : compiled) (gs : gmap nat PortGroup) (arr : list (option PortGroup)) : option (list (option PortGroup)) :=
  '(nodes, _) ← ghash_iterate (pt_mpxo_hash c); fill_ports (objects c) gs nodes.*2 arr.

(** A table sorted and compiled ([finish_portlist_table]). *)
Definition finish_portlist_table (t : PortTable) : option (option compiled) := PortTableCompile hp hx hr (PortTableSortUniqRules t).

Definition finish_any (po : PortObject) : PortObject := MkPO (name po) (po_id po) (item_list po) (RuleListSortUniq (rule_list po)).

(** The rule map of one protocol: its tables compiled, the groups made, the
    map filled. *)
Definition fpCreateRuleMap (p : PortProto) : option (PORT_RULE_MAP PortGroup) :=
  cs ← mjoin (finish_portlist_table (src_table p));
  cd ← mjoin (finish_portlist_table (dst_table p));
  let po2 := PortObject2Dup (hr 0) (finish_any (any p)) in
  let poaa := if split_any_any then None else Some po2 in
  gsrc ← fpCreatePortTablePortGroups cs poaa;
  gdst ← fpCreatePortTablePortGroups cd poaa;
  gany ← fpCreatePortObject2PortGroup po2 None;
  s ← init_direction cs gsrc (prmSrcPort prmNewMap);
  d ← init_direction cd gdst (prmDstPort prmNewMap);
  Some (MkPrm s d gany).

End Groups.

(** The four maps. *)
Definition fpCreateRuleMaps otn_of split hp hx hr (t : RulePortTables) :
  option (PORT_RULE_MAP PortGroup * PORT_RULE_MAP PortGroup * PORT_RULE_MAP PortGroup * PORT_RULE_MAP PortGroup) :=
  i ← fpCreateRuleMap otn_of split hp hx hr (ip t);
  ic ← fpCreateRuleMap otn_of split hp hx hr (icmp t);
  tc ← fpCreateRuleMap otn_of split hp hx hr (tcp t);
  u ← fpCreateRuleMap otn_of split hp hx hr (udp t);
  Some (i, ic, tc, u).

(** ** Sorted rule lists *)

Lemma elem_of_uniq_above l : Sorted.StronglySorted Z.le l -> forall last x, x ∈ uniq_above last l <-> x ∈ l /\ last < x.
Proof.
  induction 1 as [|y l Hs IH Hy]; intros last x; cbn [uniq_above]; [set_solver|]. rewrite List.Forall_forall in Hy.
  assert (x ∈ l -> y <= x) as Hyx by (intros Hx; apply Hy; by apply list_elem_of_In).
  bcase (y >? last) as E; rewrite ?elem_of_cons, IH, ?elem_of_cons; [|naive_solver lia].
  split; [intros [->|[? ?]]; [split; [by left|lia]|split; [by right|lia]]|]. intros [[->|Hx] Hlt]; [by left|].
  destruct (decide (x = y)); [by left|right]. split; [done|]. specialize (Hyx Hx). lia.
Qed.

Lemma elem_of_SortUniq l r : r ∈ RuleListSortUniq l <-> r ∈ l /\ 0 <= r.
Proof.
  unfold RuleListSortUniq. rewrite elem_of_uniq_above.
  - rewrite sorting.merge_sort_Permutation. naive_solver lia.
  - apply sorting.StronglySorted_merge_sort; apply _.
Qed.

(** ** Entering rules *)

Section Entering.
Variable alloc : nat -> Z.
Hypothesis alloc_inj : forall i j, alloc i = alloc j -> i = j.
(** All rule indexes. *)
Variable I : list Z.

(** The object with these ports has the rule. *)
Definition contains (t : PortTable) (l : items) (idx : Z) : Prop :=
  exists a po, (a, po) ∈ pt_polist t /\ item_list po = l /\ idx ∈ rule_list po.

Definition normal (l : items) : Prop := canonical 0 l /\ PortObjectHasAny l = false.

Record tinv (t : PortTable) (n : nat) : Prop := {
  ti_opt : pt_optimize t = true;
  ti_nodup : NoDup (map fst (pt_polist t));
  ti_addr : forall a po, (a, po) ∈ pt_polist t -> exists k, (k < n)%nat /\ a = alloc k;
  ti_objects : forall a po, (a, po) ∈ pt_polist t -> normal (item_list po);
  ti_rules : forall a po r, (a, po) ∈ pt_polist t -> r ∈ rule_list po -> r ∈ I }.

Lemma tinv_later t n n' : (n <= n')%nat -> tinv t n -> tinv t n'.
Proof.
  intros Hn [H1 H2 H3 H4 H5]. split; try done. intros a po Hin. destruct (H3 a po Hin) as (k & ? & ?). exists k. split; [lia|done].
Qed.

Lemma fold_add_items l : forall k, fold_left PortObjectAddItem l k = k ++ l.
Proof.
  induction l as [|x l IH]; intros k; cbn [fold_left]; [by rewrite app_nil_r|]. rewrite IH. unfold PortObjectAddItem. by rewrite <- app_assoc.
Qed.

Lemma find_ports_spec l pox a : find_ports l pox = Some a -> exists po, (a, po) ∈ l /\ PortObjectEqual (item_list po) pox = true.
Proof.
  induction l as [|[b po] l IH]; cbn [find_ports]; [done|]. destruct (PortObjectEqual (item_list po) pox) eqn:E.
  - intros [= ->]. exists po. split; [left|done].
  - intros (po' & Hin & He)%IH. exists po'. split; [by right|done].
Qed.

Definition touch (a idx : Z) (x : Z * PortObject) : Z * PortObject := if x.1 =? a then (x.1, PortObjectAddRule x.2 idx) else x.
Lemma touch_fst a idx l : map fst (map (touch a idx) l) = map fst l.
Proof. induction l as [|x l IH]; [done|]. cbn. rewrite IH. unfold touch. by destruct (x.1 =? a). Qed.
Lemma elem_of_touch a idx l y : y ∈ map (touch a idx) l <-> exists x, x ∈ l /\ y = touch a idx x.
Proof. rewrite list_elem_of_In, List.in_map_iff. setoid_rewrite <- list_elem_of_In. naive_solver. Qed.

Lemma put_spec t n po idx : tinv t n -> normal (item_list po) -> idx ∈ I ->
  let '(t', n') := put alloc t po idx n in
  tinv t' n' /\ (n <= n')%nat /\ contains t' (item_list po) idx /\ (forall l r, contains t l r -> contains t' l r).
Proof.
  intros [H1 H2 H3 H4 H5] Hpo Hidx. unfold put. destruct (PortTableFindInputPortObjectPorts t (item_list po)) as [a|] eqn:E.
  - apply find_ports_spec in E as (po0 & Hin & He). destruct (H4 _ _ Hin) as [Hc _]. destruct Hpo as [Hc' _].
    rewrite (PortObjectEqual_canonical _ _ 0) in He by done.
    change (fun x : Z * PortObject => if x.1 =? a then (x.1, PortObjectAddRule x.2 idx) else x) with (touch a idx).
    split_and!; [split; cbn [pt_polist pt_optimize]|lia| |].
    + done.
    + by rewrite touch_fst.
    + intros b pb ([c pc] & Hx & E)%elem_of_touch. unfold touch in E. cbn in E. destruct (c =? a); simplify_eq; by eapply H3.
    + intros b pb ([c pc] & Hx & E)%elem_of_touch. unfold touch in E. cbn in E. destruct (c =? a); simplify_eq; by eapply (H4 _ pc).
    + intros b pb r ([c pc] & Hx & E)%elem_of_touch Hr. unfold touch in E. cbn in E.
      destruct (c =? a); simplify_eq; [|by eapply H5]. cbn in Hr. apply elem_of_app in Hr as [Hr|Hr]; [by eapply H5|set_solver].
    + exists a, (PortObjectAddRule po0 idx). split; [|split; [done|cbn; set_solver]]. apply elem_of_touch. exists (a, po0).
      split; [done|]. unfold touch. cbn. by rewrite Z.eqb_refl.
    + intros l r (b & pb & Hb & Hl & Hr). exists b, (touch a idx (b, pb)).2. split; [|split].
      * apply elem_of_touch. exists (b, pb). split; [done|]. unfold touch. cbn. by destruct (b =? a).
      * unfold touch. cbn. by destruct (b =? a).
      * unfold touch. cbn. destruct (b =? a); cbn; set_solver.
  - assert (forall po, (alloc n, po) ∉ pt_polist t) as Hnew.
    { intros po' Hin. destruct (H3 _ _ Hin) as (k & Hk & Ek%alloc_inj). lia. }
    assert (PortTableAddObject t (alloc n) (PortObjectAddRule (PortObjectDupPorts po) idx) =
      MkPT (pt_optimize t) (pt_polist t ++ [(alloc n, PortObjectAddRule (PortObjectDupPorts po) idx)]) (pt_lrc t)) as ->.
    { unfold PortTableAddObject. replace (existsb _ _) with false; [done|]. symmetry. apply not_true_iff_false.
      intros ([b pb] & Hin & Eb)%existsb_exists. breflect. simpl in Eb. subst. apply (Hnew pb). by apply list_elem_of_In. }
    assert (item_list (PortObjectAddRule (PortObjectDupPorts po) idx) = item_list po) as Hit by (cbn; by rewrite fold_add_items).
    assert (rule_list (PortObjectAddRule (PortObjectDupPorts po) idx) = [idx]) as Hrl by done.
    revert Hit Hrl. generalize (PortObjectAddRule (PortObjectDupPorts po) idx). intros nw Hit Hrl.
    assert (forall b pb, (b, pb) ∈ pt_polist t ++ [(alloc n, nw)] -> (b, pb) ∈ pt_polist t \/ b = alloc n /\ pb = nw) as Hsp.
    { intros b pb [?|Hx]%elem_of_app; [by left|]. apply list_elem_of_singleton in Hx. naive_solver. }
    split_and!; [split; cbn [pt_polist pt_optimize]|lia| |].
    + done.
    + rewrite map_app. apply NoDup_app. split_and!; [done| |apply NoDup_singleton]. cbn.
      intros b Hb Hin%list_elem_of_singleton. subst. apply list_elem_of_In, List.in_map_iff in Hb as ([c pc] & Ec & Hin). cbn in Ec. subst c.
      apply (Hnew pc). by apply list_elem_of_In.
    + intros b pb [Hin|[-> ->]]%Hsp; [destruct (H3 _ _ Hin) as (k & ? & ?); exists k; split; [lia|done]|]. exists n. split; [lia|done].
    + intros b pb [Hin|[-> ->]]%Hsp; [by eapply H4|]. by rewrite Hit.
    + intros b pb r [Hin|[-> ->]]%Hsp Hr; [by eapply H5|]. rewrite Hrl in Hr. set_solver.
    + exists (alloc n), nw. cbn. split; [set_solver|]. rewrite Hrl. split; [done|set_solver].
    + intros l r (b & pb & Hb & Hl & Hr). exists b, pb. cbn. split; [set_solver|done].
Qed.

Variable single_rule_group : bool.
Variable limit : Z.
Abbreviation to_any_any := (to_any_any single_rule_group limit).
Abbreviation finish_rule := (FinishPortListRule alloc single_rule_group limit).

Record pinv (p : PortProto) (n : nat) : Prop := {
  pi_src : tinv (src_table p) n;
  pi_dst : tinv (dst_table p) n;
  pi_any : forall r, r ∈ rule_list (any p) -> r ∈ I }.

(** Nothing that was entered is lost. *)
Record pgrow (p p' : PortProto) : Prop := {
  pg_src : forall l r, contains (src_table p) l r -> contains (src_table p') l r;
  pg_dst : forall l r, contains (dst_table p) l r -> contains (dst_table p') l r;
  pg_any : forall r, r ∈ rule_list (any p) -> r ∈ rule_list (any p') }.

#[local] Instance pgrow_preorder : PreOrder pgrow.
Proof. split; [by intros p; split|]. intros p q r [] []. split; auto. Qed.

(** Where a rule is found. *)
Definition recorded (r : port_rule) (p : PortProto) : Prop :=
  if to_any_any r then ruleIndex r ∈ rule_list (any p)
  else
    (has_flag r ANY_DST_PORT = false -> contains (dst_table p) (item_list (r_dst r)) (ruleIndex r) /\
      (has_flag r BIDIRECTIONAL = true -> contains (src_table p) (item_list (r_dst r)) (ruleIndex r))) /\
    (has_flag r ANY_SRC_PORT = false -> contains (src_table p) (item_list (r_src r)) (ruleIndex r) /\
      (has_flag r BIDIRECTIONAL = true -> contains (dst_table p) (item_list (r_src r)) (ruleIndex r))).

Lemma recorded_grow r p p' : pgrow p p' -> recorded r p -> recorded r p'.
Proof.
  intros [G1 G2 G3]. unfold recorded. destruct (to_any_any r); [apply G3|]. intros [H1 H2]. split; intros E.
  - destruct (H1 E). split; [by apply G2|]. intros ?. apply G1. auto.
  - destruct (H2 E). split; [by apply G1|]. intros ?. apply G2. auto.
Qed.

(** The ports of a rule are normalised lists unless they are "any". *)
Definition rule_ok (r : port_rule) : Prop :=
  (has_flag r ANY_DST_PORT = false -> normal (item_list (r_dst r))) /\
  (has_flag r ANY_SRC_PORT = false -> normal (item_list (r_src r))) /\ 0 <= ruleIndex r.

Lemma put_side_spec any_ports bidir po idx main other n : tinv main n -> tinv other n -> (any_ports = false -> normal (item_list po)) -> idx ∈ I ->
  let '(main', other', n') := put_side alloc any_ports bidir po idx main other n in
  tinv main' n' /\ tinv other' n' /\ (n <= n')%nat /\
  (forall l x, contains main l x -> contains main' l x) /\ (forall l x, contains other l x -> contains other' l x) /\
  (any_ports = false -> contains main' (item_list po) idx /\ (bidir = true -> contains other' (item_list po) idx)).
Proof.
  intros Hm Ho Hn Hi. unfold put_side. destruct any_ports; [by split_and!|]. specialize (Hn eq_refl).
  pose proof (put_spec main n po idx Hm Hn Hi) as Hp. destruct (put alloc main po idx n) as [m1 n1]. destruct Hp as (P1 & P2 & P3 & P4).
  destruct bidir.
  - pose proof (put_spec other n1 po idx (tinv_later _ _ _ P2 Ho) Hn Hi) as Hq. destruct (put alloc other po idx n1) as [o2 n2].
    destruct Hq as (Q1 & Q2 & Q3 & Q4). split_and!; try done; [by eapply tinv_later|lia].
  - split_and!; try done. by eapply tinv_later.
Qed.

Lemma put_ports_spec r p n : pinv p n -> rule_ok r -> ruleIndex r ∈ I -> to_any_any r = false ->
  let '(p', n') := put_ports alloc r p n in pinv p' n' /\ (n <= n')%nat /\ pgrow p p' /\ recorded r p'.
Proof.
  intros [Hs Hd Ha] (Kd & Ks & _) Hi Hany. unfold put_ports.
  pose proof (put_side_spec _ (has_flag r BIDIRECTIONAL) (r_dst r) (ruleIndex r) _ _ n Hd Hs Kd Hi) as H1.
  destruct (put_side _ (has_flag r ANY_DST_PORT) _ _ _ _ _ _) as [[d1 s1] n1]. destruct H1 as (D1 & S1 & N1 & GD1 & GS1 & R1).
  pose proof (put_side_spec _ (has_flag r BIDIRECTIONAL) (r_src r) (ruleIndex r) _ _ n1 S1 D1 Ks Hi) as H2.
  destruct (put_side _ (has_flag r ANY_SRC_PORT) _ _ _ _ _ _) as [[s2 d2] n2]. destruct H2 as (S2 & D2 & N2 & GS2 & GD2 & R2).
  split_and!; [by split|lia|split; cbn; auto|]. unfold recorded. rewrite Hany. cbn. split; [|done].
  intros E. destruct (R1 E) as [X Y]. split; [auto|]. intros B. auto.
Qed.

(** All protocols. *)
Definition tables_inv (t : RulePortTables) : Prop := forall q, pinv (proto_of t q) (allocated t).

Lemma pinv_later p n n' : (n <= n')%nat -> pinv p n -> pinv p n'.
Proof. intros Hn [? ? ?]. split; try done; by eapply tinv_later. Qed.

Lemma add_any_spec p n idx : pinv p n -> idx ∈ I -> pinv (add_any p idx) n /\ pgrow p (add_any p idx) /\ idx ∈ rule_list (any (add_any p idx)).
Proof.
  intros [H1 H2 H3] Hi. split_and!; [split; cbn; try done|split; cbn; try done|cbn; set_solver].
  - intros r [?|?%list_elem_of_singleton]%elem_of_app; [by apply H3|by subst].
  - intros r Hr. set_solver.
Qed.

Lemma count_both_spec r p n : pinv p n -> pinv (count_both r p) n /\ pgrow p (count_both r p).
Proof. intros [? ? ?]. unfold count_both. destruct (_ && _); by split. Qed.

Lemma proto_of_set t p x n q : p <> SNORT_PROTO_OTHER ->
  proto_of (set_proto t p x n) q = if decide (q = p \/ p = SNORT_PROTO_IP /\ q = SNORT_PROTO_OTHER) then x else proto_of t q.
Proof. intros Hp. destruct p, q; try done; cbn; by (rewrite decide_True by naive_solver || rewrite decide_False by naive_solver). Qed.

Lemma set_proto_spec t p x n : tables_inv t -> p <> SNORT_PROTO_OTHER -> pinv x n -> (allocated t <= n)%nat -> pgrow (proto_of t p) x ->
  tables_inv (set_proto t p x n) /\ (forall q, pgrow (proto_of t q) (proto_of (set_proto t p x n) q)) /\
  proto_of (set_proto t p x n) p = x /\ allocated (set_proto t p x n) = n.
Proof.
  intros Ht Hp Hx Hn Hg. assert (allocated (set_proto t p x n) = n) as Ha by by destruct p. split_and!; [..|done].
  - intros q. rewrite Ha, proto_of_set by done. destruct (decide _); [done|]. by eapply pinv_later.
  - intros q. rewrite proto_of_set by done. destruct (decide _) as [[->|[-> ->]]|]; done.
  - rewrite proto_of_set by done. by rewrite decide_True by (by left).
Qed.

(** The rules for any IP packet go to all protocols. *)
Definition add_any_ip (t : RulePortTables) (idx : Z) : RulePortTables :=
  MkRPT (ip t) (add_any (icmp t) idx) (add_any (tcp t) idx) (add_any (udp t) idx) (svc_any t) (svc_cnt t) (allocated t).
Lemma add_any_ip_spec t idx : tables_inv t -> idx ∈ I ->
  tables_inv (add_any_ip t idx) /\ (forall q, pgrow (proto_of t q) (proto_of (add_any_ip t idx) q)) /\
  (forall q, proto_of (add_any_ip t idx) q = proto_of t q \/ idx ∈ rule_list (any (proto_of (add_any_ip t idx) q))) /\
  proto_of (add_any_ip t idx) SNORT_PROTO_IP = proto_of t SNORT_PROTO_IP /\
  (forall q, q <> SNORT_PROTO_IP -> q <> SNORT_PROTO_OTHER -> idx ∈ rule_list (any (proto_of (add_any_ip t idx) q))).
Proof.
  intros Ht Hi. pose proof (fun q => add_any_spec (proto_of t q) (allocated t) idx (Ht q) Hi) as Ha.
  pose proof (Ha SNORT_PROTO_ICMP) as (A1 & A2 & A3). pose proof (Ha SNORT_PROTO_TCP) as (B1 & B2 & B3).
  pose proof (Ha SNORT_PROTO_UDP) as (C1 & C2 & C3). pose proof (Ht SNORT_PROTO_IP) as D1.
  split_and!; [intros []|intros []|intros []|done|intros []]; try done; try reflexivity; auto.
Qed.

(** Entering a rule. *)
Lemma finish_rule_spec t r : tables_inv t -> rule_ok r -> ruleIndex r ∈ I ->
  tables_inv (finish_rule t r) /\ (forall q, pgrow (proto_of t q) (proto_of (finish_rule t r) q)) /\
  (r_proto r <> SNORT_PROTO_OTHER -> recorded r (proto_of (finish_rule t r) (r_proto r))) /\
  (r_proto r = SNORT_PROTO_IP -> to_any_any r = true -> forall q, ruleIndex r ∈ rule_list (any (proto_of (finish_rule t r) q))).
Proof.
  intros Ht Hok Hi. destruct (decide (r_proto r = SNORT_PROTO_OTHER)) as [Ep|Hp].
  { unfold FinishPortListRule. rewrite Ep. split_and!; try done; intros []; try done; by apply Ht. }
  set (p := r_proto r) in *. destruct (count_both_spec r _ _ (Ht p)) as [C1 C2].
  destruct (set_proto_spec t p (count_both r (proto_of t p)) (allocated t) Ht Hp C1 ltac:(lia) C2) as (T1 & G1 & E1 & N1).
  set (t1 := set_proto t p (count_both r (proto_of t p)) (allocated t)) in *.
  assert (finish_rule t r = if to_any_any r then
      let t2 := if bool_decide (p = SNORT_PROTO_IP) then add_any_ip t1 (ruleIndex r) else t1 in
      set_proto t2 p (add_any (proto_of t2 p) (ruleIndex r)) (allocated t2)
    else let '(x, n) := put_ports alloc r (proto_of t1 p) (allocated t1) in set_proto t1 p x n) as ->.
  { unfold FinishPortListRule, t1, p in *. by destruct (r_proto r). }
  destruct (to_any_any r) eqn:Ea.
  - set (t2 := if bool_decide (p = SNORT_PROTO_IP) then add_any_ip t1 (ruleIndex r) else t1).
    assert (tables_inv t2 /\ (forall q, pgrow (proto_of t1 q) (proto_of t2 q)) /\
      (p = SNORT_PROTO_IP -> forall q, q <> SNORT_PROTO_IP -> q <> SNORT_PROTO_OTHER -> ruleIndex r ∈ rule_list (any (proto_of t2 q)))) as (T2 & G2 & X2).
    { unfold t2. case_bool_decide; [|by split_and!]. destruct (add_any_ip_spec t1 (ruleIndex r) T1 Hi) as (? & ? & _ & _ & ?). auto. }
    clearbody t2. destruct (add_any_spec _ _ _ (T2 p) Hi) as (A1 & A2 & A3). cbv zeta.
    destruct (set_proto_spec t2 p _ (allocated t2) T2 Hp A1 ltac:(lia) A2) as (T3 & G3 & E3 & _). split_and!; [done|..].
    + intros q. transitivity (proto_of t1 q); [done|]. by transitivity (proto_of t2 q).
    + intros _. unfold recorded. rewrite Ea, E3. done.
    + intros Hip _ q. rewrite proto_of_set by done. destruct (decide _) as [|Hq]; [done|]. apply X2; [done|naive_solver|naive_solver].
  - pose proof (put_ports_spec r (proto_of t1 p) (allocated t1) (T1 p) Hok Hi Ea) as Hput.
    destruct (put_ports alloc r (proto_of t1 p) (allocated t1)) as [x n]. destruct Hput as (P1 & P2 & P3 & P4).
    destruct (set_proto_spec t1 p x n T1 Hp P1 P2 P3) as (T3 & G3 & E3 & _). split_and!; [done|..|done].
    + intros q. by transitivity (proto_of t1 q).
    + intros _. by rewrite E3.
Qed.

Lemma tables_new_inv : tables_inv PortTablesNew.
Proof. intros []; (split; [split|split|]; cbn; try done; try set_solver; constructor). Qed.

(** Where the rules of a list are found after all were entered. *)
Lemma add_port_rules_spec l : Forall rule_ok l -> (forall r, r ∈ l -> ruleIndex r ∈ I) ->
  tables_inv (add_port_rules alloc single_rule_group limit l) /\
  forall r, r ∈ l -> r_proto r <> SNORT_PROTO_OTHER -> recorded r (proto_of (add_port_rules alloc single_rule_group limit l) (r_proto r)) /\
    (r_proto r = SNORT_PROTO_IP -> to_any_any r = true -> forall q, ruleIndex r ∈ rule_list (any (proto_of (add_port_rules alloc single_rule_group limit l) q))).
Proof.
  intros Hok HI. unfold add_port_rules. revert Hok HI. induction l as [|r l IH] using rev_ind; intros Hok HI; [split; [apply tables_new_inv|set_solver]|].
  rewrite fold_left_app. cbn [fold_left]. apply Forall_app in Hok as [Hl Hr]. inversion_clear Hr as [|? ? Hr1 _].
  rename Hr1 into Hr.
  destruct IH as [Ht Hrec]; [done|set_solver|]. revert Ht Hrec. generalize (fold_left finish_rule l PortTablesNew). intros t Ht Hrec.
  destruct (finish_rule_spec t r Ht Hr) as (F1 & F2 & F3 & F4); [set_solver|]. split; [done|].
  intros x [Hx| ->%list_elem_of_singleton]%elem_of_app Hp; [|by auto]. destruct (Hrec x Hx Hp) as [R1 R2]. split.
  - by apply (recorded_grow _ _ _ (F2 _)).
  - intros E1 E2 q. apply (pg_any _ _ (F2 q)). auto.
Qed.

End Entering.

(** ** Groups *)

Section Mapping.
Variable otn_of : Z -> otn_info.
Variable split_any_any : bool.
Variable hp hx : HashFnc.
Variable hr : nat -> HashFnc.

(** The rule of this index is evaluated at all. *)
Definition added (idx : Z) : bool :=
  let o := otn_of idx in is_network_protocol (o_proto o) && negb (o_builtin o) && o_enabled o && negb (o_exclude o).

Lemma group_list l : forall pg, fold_left (fun pg idx => if is_network_protocol (o_proto (otn_of idx)) then fpAddPortGroupRule otn_of pg idx else pg) l pg =
  pg ++ List.filter added l.
Proof.
  induction l as [|idx l IH]; intros pg; cbn [fold_left List.filter]; [by rewrite app_nil_r|]. rewrite IH. unfold fpAddPortGroupRule, added.
  destruct (is_network_protocol _), (o_builtin _), (o_enabled _), (o_exclude _); cbn; try done. by rewrite <- app_assoc.
Qed.

(** The rules of the any-any object of the protocol, when they are added to
    every group. *)
Definition rules_any (poaa : option PortObject2) (Q : gset Z) : Prop :=
  match poaa with None => Q = ∅ | Some q => rset (fnc q) (rule_hash q) Q end.

Lemma rules_list_spec f ob S : rset f (rule_hash ob) S -> exists l, rules_list ob = Some l /\ list_to_set l = S.
Proof. intros (l & h & Hi & _ & Hl)%rset_iterate. exists l.*2. unfold rules_list. by rewrite Hi. Qed.

Lemma group_spec ob S poaa Q : rset (fnc ob) (rule_hash ob) S -> rules_any poaa Q ->
  exists og, fpCreatePortObject2PortGroup otn_of ob poaa = Some og /\
    forall idx, added idx = true -> idx ∈ S ∪ Q -> exists g, og = Some g /\ idx ∈ g.
Proof.
  intros HS HQ. destruct (rules_list_spec _ _ _ HS) as (l1 & H1 & E1). unfold fpCreatePortObject2PortGroup. rewrite H1. cbn [mbind option_bind].
  assert (exists l2, match poaa with None => Some [] | Some q => rules_list q end = Some l2 /\ list_to_set l2 = Q) as (l2 & -> & E2).
  { destruct poaa as [q|]; [by eapply rules_list_spec|]. exists []. by rewrite HQ. }
  cbn [mbind option_bind]. eexists. split; [reflexivity|]. intros idx Ha Hin. rewrite group_list. cbn [app].
  assert (idx ∈ List.filter added (l1 ++ l2)) as Hf.
  { rewrite list_elem_of_In, List.filter_In, <- list_elem_of_In, elem_of_app. split; [|done].
    rewrite <- E1, <- E2, elem_of_union, !elem_of_list_to_set in Hin. done. }
  exists (List.filter added (l1 ++ l2)). rewrite bool_decide_false; [done|]. intros E. rewrite E in Hf. set_solver.
Qed.

Definition used_object (objs : gmap nat PortObject2) (n : nat) : bool := from_option (fun ob => negb (port_cnt ob =? 0)) false (objs !! n).
Definition group_of (objs : gmap nat PortObject2) (poaa : option PortObject2) (n : nat) : option PortGroup :=
  ob ← objs !! n; mjoin (fpCreatePortObject2PortGroup otn_of ob poaa).

Lemma create_groups_spec objs poaa l : (forall n, n ∈ l -> exists ob og, objs !! n = Some ob /\ fpCreatePortObject2PortGroup otn_of ob poaa = Some og) ->
  forall gs, exists gs', create_groups otn_of objs poaa l gs = Some gs' /\
    forall n, gs' !! n = if bool_decide (n ∈ l) && used_object objs n then group_of objs poaa n else gs !! n.
Proof.
  induction l as [|m l IH]; intros Hl gs; cbn [create_groups].
  - exists gs. split; [done|]. intros n. rewrite bool_decide_false by set_solver. done.
  - destruct (Hl m ltac:(set_solver)) as (ob & og & Hob & Hog). rewrite Hob. cbn [mbind option_bind].
    assert (used_object objs m = negb (port_cnt ob =? 0)) as Hu by (unfold used_object; by rewrite Hob).
    destruct (port_cnt ob =? 0) eqn:E.
    + destruct (IH ltac:(set_solver) gs) as (gs' & -> & H'). exists gs'. split; [done|]. intros n. rewrite H'.
      destruct (decide (n = m)) as [->|]; [rewrite Hu; by rewrite !andb_false_r|].
      f_equal. rewrite (bool_decide_ext (n ∈ m :: l) (n ∈ l)); [done|set_solver].
    + rewrite Hog. cbn [mbind option_bind].
      destruct (IH ltac:(set_solver) (match og with None => delete m gs | Some g => <[m := g]> gs end)) as (gs' & -> & H').
      exists gs'. split; [done|]. intros n. rewrite H'. destruct (decide (n = m)) as [->|].
      * rewrite (bool_decide_true (m ∈ m :: l)), Hu by set_solver. cbn [andb negb].
        assert (group_of objs poaa m = og) as Hg by (unfold group_of; by rewrite Hob; cbn [mbind option_bind]; rewrite Hog).
        destruct (bool_decide (m ∈ l)); [done|]. cbn [andb]. rewrite Hg. destruct og; by rewrite ?lookup_insert_eq, ?lookup_delete_eq.
      * rewrite (bool_decide_ext (n ∈ m :: l) (n ∈ l)) by set_solver. destruct og; by rewrite ?lookup_insert_ne, ?lookup_delete_ne by done.
Qed.

(** ** The map from ports to groups *)

Lemma elem_of_Iterate l lo j : canonical lo l -> PortObjectHasAny l = false -> j ∈ PortObject2Iterate l <-> listed false l j = true.
Proof.
  unfold PortObject2Iterate. revert lo. induction l as [|i l IH]; intros lo Hc Ha; [cbn; set_solver|].
  cbn in Ha. apply orb_false_iff in Ha as [Hi Ha]. destruct Hc as (Hn & _ & _ & Hc). cbn [map concat]. rewrite Hi, elem_of_app, (IH _ Hc Ha).
  rewrite listed_cons, Hn. cbn [eqb andb]. rewrite orb_true_iff, item_has_range. done.
Qed.

Lemma rd_set_group (l : list Z) (g : PortGroup) i : forall arr, (forall j, j ∈ l -> 0 <= j < Zlen arr) ->
  Zlen (fold_left (fun a port => wr a port (Some g)) l arr) = Zlen arr /\
  rd (fold_left (fun a port => wr a port (Some g)) l arr) i = if bool_decide (i ∈ l) then Some (Some g) else rd arr i.
Proof.
  induction l as [|j l IH]; intros arr Hl; cbn [fold_left]; [split; [done|]; rewrite bool_decide_false by set_solver; done|].
  destruct (IH (wr arr j (Some g))) as [L1 L2]; [intros k Hk; rewrite Zlen_wr; apply Hl; set_solver|]. rewrite L2. split; [by rewrite L1, Zlen_wr|].
  destruct (decide (i = j)) as [->|Hij].
  - rewrite (bool_decide_true (j ∈ j :: l)) by set_solver. rewrite rd_wr_eq by (apply Hl; set_solver). by destruct (bool_decide _).
  - rewrite rd_wr_ne by done. rewrite (bool_decide_ext (i ∈ j :: l) (i ∈ l)) by set_solver. done.
Qed.

Lemma fill_ports_spec objs gs (use : gmap Z nat) l : forall arr,
  (forall n, n ∈ l -> exists ob, objs !! n = Some ob /\
    (is_Some (gs !! n) -> forall j, j ∈ PortObject2Iterate (items2 ob) <-> use !! j = Some n)) ->
  (forall j n, use !! j = Some n -> 0 <= j < Zlen arr) ->
  exists arr', fill_ports objs gs l arr = Some arr' /\ Zlen arr' = Zlen arr /\
    (forall i n g, use !! i = Some n -> gs !! n = Some g -> n ∈ l \/ rd arr i = Some (Some g) -> rd arr' i = Some (Some g)) /\
    (forall i g, rd arr' i = Some (Some g) -> rd arr i = Some (Some g) \/ exists n, use !! i = Some n /\ gs !! n = Some g).
Proof.
  induction l as [|m l IH]; intros arr Hl Hr; cbn [fill_ports]; [exists arr; split_and!; try done; [set_solver|auto]|].
  destruct (Hl m ltac:(set_solver)) as (ob & Hob & Hit). rewrite Hob. cbn [mbind option_bind]. destruct (gs !! m) as [gm|] eqn:Egm.
  - assert (forall j, j ∈ PortObject2Iterate (items2 ob) <-> use !! j = Some m) as Hj by (by apply Hit).
    assert (forall j, j ∈ PortObject2Iterate (items2 ob) -> 0 <= j < Zlen arr) as Hj' by (intros j Hin%Hj; by eapply Hr).
    pose proof (fun i => rd_set_group (PortObject2Iterate (items2 ob)) gm i arr Hj') as Hset. unfold set_group.
    assert (Zlen (fold_left (fun a port => wr a port (Some gm)) (PortObject2Iterate (items2 ob)) arr) = Zlen arr) as Hlen by apply (Hset 0).
    pose proof (fun i => proj2 (Hset i)) as Hrd. clear Hset. revert Hlen Hrd.
    generalize (fold_left (fun a port => wr a port (Some gm)) (PortObject2Iterate (items2 ob)) arr). intros arr1 Hlen Hrd.
    destruct (IH arr1) as (arr' & -> & L & H1 & H2); [intros k Hk; apply Hl; by right|intros j n Hjn; rewrite Hlen; by eapply Hr|].
    exists arr'. split_and!; [done|lia| |].
    + intros i n g Hi Hg Hor. apply (H1 i n g Hi Hg). destruct (decide (n = m)) as [->|Hnm].
      * right. rewrite Hrd, bool_decide_true by (by apply Hj). congruence.
      * destruct Hor as [Hin|Hin]; [left; set_solver|right]. rewrite Hrd, bool_decide_false; [done|]. rewrite Hj. congruence.
    + intros i g Hi. destruct (H2 i g Hi) as [Ha|?]; [|by right]. rewrite Hrd in Ha. case_bool_decide as Eb; [|by left].
      right. exists m. split; [by apply Hj|congruence].
  - destruct (IH arr) as (arr' & -> & L & H1 & H2); [intros k Hk; apply Hl; by right|done|]. exists arr'. split_and!; [done|done| |done].
    intros i n g Hi Hg Hor. apply (H1 i n g Hi Hg). destruct Hor as [Hin|?]; [|by right]. left.
    apply elem_of_cons in Hin as [->|?]; [congruence|done].
Qed.

(** ** One direction *)

Definition sort_entry (x : Z * PortObject) : Z * PortObject :=
  (x.1, MkPO (name x.2) (po_id x.2) (item_list x.2) (RuleListSortUniq (rule_list x.2))).
Lemma sorted_polist t : pt_polist (PortTableSortUniqRules t) = map sort_entry (pt_polist t).
Proof. cbn. apply map_ext. by intros [a po]. Qed.

Lemma users_sorted l i : users (map sort_entry l) i = users l i.
Proof.
  unfold users. induction l as [|x l IH]; [done|]. cbn [map List.filter]. change (item_list (sort_entry x).2) with (item_list x.2).
  destruct (listed false (item_list x.2) i); cbn [map]; by rewrite IH.
Qed.

Lemma elem_of_sorted l y : y ∈ map sort_entry l <-> exists x, x ∈ l /\ y = sort_entry x.
Proof. rewrite list_elem_of_In, List.in_map_iff. setoid_rewrite <- list_elem_of_In. naive_solver. Qed.

Lemma size_list_le (l : list Z) : (size (list_to_set l : gset Z) <= length l)%nat.
Proof.
  induction l as [|x l IH]; [by vm_compute|]. cbn [list_to_set length]. pose proof (size_union_alt {[x]} (list_to_set l : gset Z)) as H.
  rewrite size_singleton in H. pose proof (subseteq_size (list_to_set l ∖ {[x]}) (list_to_set l : gset Z) ltac:(set_solver)). lia.
Qed.

Section Direction.
Variable alloc : nat -> Z.
Variable I : list Z.
Hypothesis few : Zlen I + 1 < 4294967296.

Lemma table_ok_sorted t n : tinv alloc I t n -> (forall i, (length (users (pt_polist t) i) <= SFPO_MAX_LPORTS)%nat) -> table_ok (PortTableSortUniqRules t).
Proof.
  intros [H1 H2 H3 H4 H5] Hu. split; rewrite ?sorted_polist.
  - rewrite map_map. exact H2.
  - apply Forall_forall. intros y ([a po] & Hin & ->)%elem_of_sorted. cbn. by eapply (H4 a po).
  - eapply small_subset; [|unfold small_set; pose proof (size_list_le I); unfold Zlen in few; instantiate (1 := list_to_set I); lia].
    intros r (a & _ & Hr)%elem_of_rules_in. unfold rules_of in Hr. destruct (obj _ a) as [po|] eqn:E; [|by apply elem_of_empty in Hr].
    apply obj_in, elem_of_sorted in E as ([b pb] & Hin & [= -> ->]). cbn in Hr. apply elem_of_list_to_set, elem_of_SortUniq in Hr as [Hr _].
    apply elem_of_list_to_set. by eapply H5.
  - intros i. rewrite users_sorted. apply Hu.
Qed.

(** The groups of a table reach every port that uses them, unless an object is
    used on all ports. *)
Lemma direction_spec t n poaa Q arr0 : tinv alloc I t n -> (forall i, (length (users (pt_polist t) i) <= SFPO_MAX_LPORTS)%nat) ->
  (exists i, 0 <= i < SFPO_MAX_PORTS /\ users (pt_polist t) i = []) -> rules_any poaa Q ->
  Zlen arr0 = SFPO_MAX_PORTS -> (forall i g, rd arr0 i <> Some (Some g)) ->
  exists c gs arr, mjoin (finish_portlist_table hp hx hr t) = Some c /\ fpCreatePortTablePortGroups otn_of c poaa = Some gs /\
    init_direction c gs arr0 = Some arr /\ Zlen arr = SFPO_MAX_PORTS /\
    (forall l idx i, contains t l idx -> 0 <= idx -> added idx = true -> 0 <= i < SFPO_MAX_PORTS -> listed false l i = true ->
       exists g, rd arr i = Some (Some g) /\ idx ∈ g) /\
    (forall i g idx, rd arr i = Some (Some g) -> idx ∈ Q -> added idx = true -> idx ∈ g).
Proof.
  intros Ht Hu (gap & Hgap & Hgap') HQ Hlen0 Hnone. pose proof (table_ok_sorted t n Ht Hu) as [Ta To Tr Tu].
  unfold finish_portlist_table, PortTableCompile. replace (pt_optimize (PortTableSortUniqRules t)) with true by (symmetry; apply Ht).
  destruct (compile_spec hp hx hr _ Tr To Ta (pt_lrc (PortTableSortUniqRules t)) Tu) as (c & X & R & -> & Hck).
  exists c. cbn [mjoin option_join option_fmap fmap option_map].
  assert (forall m, is_Some (R !! m) -> exists ob og S, objects c !! m = Some ob /\ R !! m = Some S /\ compiled_obj (pt_polist (PortTableSortUniqRules t)) (pt_port_object c) m ob S /\
    fpCreatePortObject2PortGroup otn_of ob poaa = Some og /\ forall idx, added idx = true -> idx ∈ S ∪ Q -> exists g, og = Some g /\ idx ∈ g) as Hobj.
  { intros m [S HS]. destruct (ck_obj _ _ _ _ _ Hck m S HS) as (ob & Hob & Hco). destruct (group_spec ob S poaa Q (co_rules _ _ _ _ _ Hco) HQ) as (og & Hog & Hin). by exists ob, og, S. }
  (* the groups *)
  destruct (ghash_iterate_spec _ (ck_count _ _ _ _ _ Hck)) as (t1 & Hi1 & _). unfold fpCreatePortTablePortGroups. rewrite Hi1. cbn [mbind option_bind].
  destruct (create_groups_spec (objects c) poaa (elements (pt_mpo_hash c)).*2) with (gs := ∅ : gmap nat PortGroup) as (gs & -> & Hgs).
  { intros m ([k d] & -> & Hin)%list_elem_of_fmap. destruct (Hobj d (ck_mpo _ _ _ _ _ Hck k d Hin)) as (ob & og & S & ? & _ & _ & ? & _). eauto. }
  exists gs.
  (* the ports *)
  destruct (refines_iterate _ _ _ (ck_x _ _ _ _ _ Hck)) as (nodes & t2 & Hi2 & _ & Hnodes). unfold init_direction. rewrite Hi2. cbn [mbind option_bind].
  assert (forall m ob S, compiled_obj (pt_polist (PortTableSortUniqRules t)) (pt_port_object c) m ob S -> port_cnt ob <> 0 ->
    forall j, j ∈ PortObject2Iterate (items2 ob) <-> pt_port_object c !! j = Some m) as Hiter.
  { intros m ob S Hco Hcnt j. destruct (co_items _ _ _ _ _ Hco Hcnt) as [Hcan Hls]. rewrite (elem_of_Iterate _ 0); [|done|].
    - rewrite Hls. unfold uses. by rewrite bool_decide_eq_true.
    - apply HasAny_false, Forall_forall. intros i Hi. apply not_true_iff_false. intros Hany. unfold item_any in Hany. breflect.
      assert (listed false (items2 ob) gap = true) as Hl.
      { apply listed_true. exists i. split; [done|]. pose proof (canonical_from _ _ Hcan) as Hf. rewrite Forall_forall in Hf. destruct (Hf i Hi). split; [done|lia]. }
      rewrite Hls in Hl. unfold uses in Hl. apply bool_decide_eq_true in Hl. destruct (ck_some _ _ _ _ _ Hck gap m Hl) as (_ & Hne & _).
      rewrite sorted_polist, users_sorted in Hne. done. }
  destruct (fill_ports_spec (objects c) gs (pt_port_object c) nodes.*2 arr0) as (arr & Hinit & Hlen & H1 & H2).
  { intros m Hm. apply Hnodes in Hm as [pl Hpl]. destruct (ck_in _ _ _ _ _ Hck pl m Hpl) as [HR _]. destruct (Hobj m HR) as (ob & og & S & Hob & _ & Hco & _).
    exists ob. split; [done|]. intros Hg. apply (Hiter m ob S Hco). rewrite Hgs, lookup_empty in Hg. intros E.
    unfold used_object in Hg. rewrite Hob in Hg. cbn in Hg. rewrite E in Hg. cbn in Hg. rewrite andb_false_r in Hg. by destruct Hg. }
  { intros j m Hj. destruct (ck_some _ _ _ _ _ Hck j m Hj) as [? _]. lia. }
  assert (forall m ob og, objects c !! m = Some ob -> fpCreatePortObject2PortGroup otn_of ob poaa = Some og -> group_of (objects c) poaa m = og) as Hgo.
  { intros m ob og Hob Hog. unfold group_of. by rewrite Hob; cbn [mbind option_bind]; rewrite Hog. }
  exists arr. split; [done|]. split; [done|]. split; [done|]. split; [lia|]. split.
  - intros l idx i (a & po & Hin & <- & Hr) Hidx Hadd Hi Hl.
    assert ((a, MkPO (name po) (po_id po) (item_list po) (RuleListSortUniq (rule_list po))) ∈ pt_polist (PortTableSortUniqRules t)) as Hin'.
    { rewrite sorted_polist. apply elem_of_sorted. by exists (a, po). }
    assert (idx ∈ rules_in (pt_polist (PortTableSortUniqRules t)) (users (pt_polist (PortTableSortUniqRules t)) i)) as Hri.
    { eapply users_rules; [done|exact Hin'|done|]. cbn. by apply elem_of_SortUniq. }
    destruct (ck_none _ _ _ _ _ Hck i Hi) as [m Hm].
    { intros E. rewrite E in Hri. apply elem_of_rules_in in Hri. set_solver. }
    destruct (ck_some _ _ _ _ _ Hck i m Hm) as (_ & _ & (S & HS & Hsub) & [pl Hpl]).
    destruct (Hobj m ltac:(by exists S)) as (ob & og & S' & Hob & HS' & Hco & Hog & Hin2). simplify_eq.
    destruct (Hin2 idx Hadd ltac:(set_solver)) as (g & -> & Hg). exists g. split; [|done].
    apply (H1 i m g Hm); [|left; apply Hnodes; by eexists]. rewrite Hgs. rewrite bool_decide_true.
    + unfold used_object. rewrite Hob. cbn [from_option]. replace (port_cnt ob =? 0) with false; [by rewrite (Hgo m ob (Some g))|].
      symmetry. apply Z.eqb_neq. rewrite (co_cnt _ _ _ _ _ Hco). by apply (used_count _ _ i).
    + destruct (ck_in _ _ _ _ _ Hck pl m Hpl) as [_ [k Hk]]. apply list_elem_of_fmap. by exists (k, m).
  - intros i g idx Hi HinQ Hadd. destruct (H2 i g Hi) as [?|(m & Hm & Hg)]; [by destruct (Hnone i g)|].
    destruct (ck_some _ _ _ _ _ Hck i m Hm) as (_ & _ & (S & HS & _) & _).
    destruct (Hobj m ltac:(by exists S)) as (ob & og & S' & Hob & HS' & Hco & Hog & Hin2).
    destruct (Hin2 idx Hadd ltac:(set_solver)) as (g' & -> & Hg'). rewrite Hgs, (Hgo m ob (Some g') Hob Hog), lookup_empty in Hg.
    destruct (_ && _); by simplify_eq.
Qed.

Lemma Dup_rules f po : (forall r, r ∈ rule_list po -> r ∈ I) ->
  rset (fnc (PortObject2Dup f po)) (rule_hash (PortObject2Dup f po)) (list_to_set (rule_list po)).
Proof.
  intros Hr. cbn [fnc rule_hash PortObject2Dup PortObject2New].
  replace (list_to_set (rule_list po)) with (∅ ∪ list_to_set (rule_list po) : gset Z) by set_solver. apply rset_adds.
  - apply rset_new. unfold PO_EXTRA_RULE_CNT. pose proof (Zlen_nonneg (rule_list po)). lia.
  - apply (small_subset _ (list_to_set I)); [set_solver|]. unfold small_set. pose proof (size_list_le I). unfold Zlen in few. lia.
Qed.

(** What a table needs for its rules to be found: room for the objects at every
    port, and a port without rules of its own. *)
Definition table_fits (t : PortTable) : Prop :=
  (forall i, (length (users (pt_polist t) i) <= SFPO_MAX_LPORTS)%nat) /\ exists i, 0 <= i < SFPO_MAX_PORTS /\ users (pt_polist t) i = [].

(** The groups of one direction. *)
Definition reaches (t : PortTable) (arr : list (option PortGroup)) : Prop :=
  forall l idx i, contains t l idx -> 0 <= idx -> added idx = true -> 0 <= i < SFPO_MAX_PORTS -> listed false l i = true ->
    exists g, rd arr i = Some (Some g) /\ idx ∈ g.
Definition in_every_group (idx : Z) (arr : list (option PortGroup)) : Prop := forall i g, rd arr i = Some (Some g) -> idx ∈ g.

Lemma no_group_yet : Zlen (replicate (Z.to_nat MAX_PORTS) None : list (option PortGroup)) = SFPO_MAX_PORTS /\
  forall i g, rd (replicate (Z.to_nat MAX_PORTS) None : list (option PortGroup)) i <> Some (Some g).
Proof.
  rewrite Zlen_replicate. split; [by rewrite Z2Nat.id|]. generalize (Z.to_nat MAX_PORTS). intros k i g E.
  unfold rd in E. destruct (i <? 0); [done|]. apply lookup_replicate in E as [? _]. done.
Qed.

Lemma map_spec p n : pinv alloc I p n -> table_fits (src_table p) -> table_fits (dst_table p) ->
  exists prm, fpCreateRuleMap otn_of split_any_any hp hx hr p = Some prm /\ prm_wf prm /\
    reaches (src_table p) (prmSrcPort prm) /\ reaches (dst_table p) (prmDstPort prm) /\
    forall idx, idx ∈ rule_list (any p) -> 0 <= idx -> added idx = true ->
      (exists g, prmGeneric prm = Some g /\ idx ∈ g) /\
      (split_any_any = false -> in_every_group idx (prmSrcPort prm) /\ in_every_group idx (prmDstPort prm)).
Proof.
  intros [Hs Hd Ha] [Fs Gs] [Fd Gd]. unfold fpCreateRuleMap.
  set (po2 := PortObject2Dup (hr 0) (finish_any (any p))). set (Q := list_to_set (rule_list (finish_any (any p))) : gset Z).
  assert (rset (fnc po2) (rule_hash po2) Q) as Hpo2.
  { apply Dup_rules. intros r Hr. cbn in Hr. apply elem_of_SortUniq in Hr as [Hr _]. auto. }
  assert (forall idx, idx ∈ rule_list (any p) -> 0 <= idx -> idx ∈ Q) as HQ.
  { intros idx Hi H0. unfold Q. apply elem_of_list_to_set. cbn. by apply elem_of_SortUniq. }
  clearbody po2 Q. set (poaa := if split_any_any then None else Some po2).
  assert (exists Q', rules_any poaa Q' /\ (split_any_any = false -> Q' = Q)) as (Q' & HQ' & EQ).
  { unfold poaa. destruct split_any_any; [exists ∅|exists Q]; by split. }
  clearbody poaa. destruct no_group_yet as [L0 N0].
  destruct (direction_spec _ _ poaa Q' _ Hs Fs Gs HQ' L0 N0) as (cs & gs & s & -> & H1 & H2 & Ls & Rs & As).
  destruct (direction_spec _ _ poaa Q' _ Hd Fd Gd HQ' L0 N0) as (cd & gd & d & -> & H3 & H4 & Ld & Rd & Ad).
  destruct (group_spec po2 Q None ∅ Hpo2 eq_refl) as (og & Hog & Hin).
  cbn [mbind option_bind]. rewrite H1. cbn [mbind option_bind]. rewrite H3. cbn [mbind option_bind]. rewrite Hog. cbn [mbind option_bind].
  cbn [prmSrcPort prmDstPort prmNewMap]. rewrite H2. cbn [mbind option_bind]. rewrite H4. cbn [mbind option_bind].
  eexists. split; [reflexivity|]. cbn [prmSrcPort prmDstPort prmGeneric]. split; [split; [exact Ls|exact Ld]|]. split; [exact Rs|]. split; [exact Rd|].
  intros idx Hi H0 Hadd. pose proof (HQ idx Hi H0) as HiQ. split.
  - destruct (Hin idx Hadd (elem_of_union_l _ _ _ HiQ)) as (g & -> & Hg). exists g. split; [reflexivity|exact Hg].
  - intros E. specialize (EQ E). subst Q'. split; intros i g Hig; [exact (As i g idx Hig HiQ Hadd)|exact (Ad i g idx Hig HiQ Hadd)].
Qed.
End Direction.
End Mapping.

Lemma Zlen_elem_of {A} (x : A) l : x ∈ l -> 0 < Zlen l.
Proof. intros H. destruct l as [|y l]; [by apply elem_of_nil in H|]. rewrite Zlen_cons. pose proof (Zlen_nonneg l). lia. Qed.

Lemma has_normal l port : normal l -> is_u16 port -> PortObjectHasPort (Some l) port = true -> 0 <= port < SFPO_MAX_PORTS /\ listed false l port = true.
Proof. intros [Hc Ha] Hp H. cbn [PortObjectHasPort] in H. rewrite (has_port_canonical l 0) in H by done. unfold is_u16 in Hp. unfold SFPO_MAX_PORTS. split; [lia|done]. Qed.

(** ** The rules of a packet *)

(** The ports of a packet are those of the rule, in one of its directions. *)
Definition ports_match (r : port_rule) (dport sport : Z) : bool :=
  let s port := has_flag r ANY_SRC_PORT || PortObjectHasPort (Some (item_list (r_src r))) port in
  let d port := has_flag r ANY_DST_PORT || PortObjectHasPort (Some (item_list (r_dst r))) port in
  (s sport && d dport) || (has_flag r BIDIRECTIONAL && (d sport && s dport)).

Definition selected (g : groups PortGroup) (idx : Z) : Prop := exists pg, (src g = Some pg \/ dst g = Some pg \/ gen g = Some pg) /\ idx ∈ pg.

Section Selection.
Variable otn_of : Z -> otn_info.
Variable split_any_any : bool.
Variable prm : PORT_RULE_MAP PortGroup.
Hypothesis wf : prm_wf prm.
Variable dport sport : Z.
Hypothesis dport_ok : is_u16 dport.
Hypothesis sport_ok : is_u16 sport.
Abbreviation packet_groups := (prmFindRuleGroup Zlen split_any_any (Some prm) dport sport).

Lemma selected_src g idx : rd (prmSrcPort prm) sport = Some (Some g) -> idx ∈ g -> selected packet_groups idx.
Proof.
  intros Hg Hi. destruct (prmFindRuleGroup_spec Zlen split_any_any prm dport sport wf dport_ok sport_ok) as (_ & Hs & _).
  exists g. split; [left; congruence|done].
Qed.
Lemma selected_dst g idx : rd (prmDstPort prm) dport = Some (Some g) -> idx ∈ g -> selected packet_groups idx.
Proof.
  intros Hg Hi. destruct (prmFindRuleGroup_spec Zlen split_any_any prm dport sport wf dport_ok sport_ok) as (Hd & _).
  exists g. split; [right; left; congruence|done].
Qed.
Lemma selected_any g idx : prmGeneric prm = Some g -> idx ∈ g ->
  (split_any_any = false -> in_every_group idx (prmSrcPort prm) /\ in_every_group idx (prmDstPort prm)) -> selected packet_groups idx.
Proof.
  intros Hg Hi He. destruct (prmFindRuleGroup_spec Zlen split_any_any prm dport sport wf dport_ok sport_ok) as (Hd & Hs & Hgen & _).
  destruct (src packet_groups) as [gs|] eqn:Es, (dst packet_groups) as [gd|] eqn:Ed;
    (destruct (decide (split_any_any = true)) as [E|E%not_true_is_false];
      [exists g; split; [right; right; apply Hgen|done]; split_and!; [done|apply Zlen_elem_of in Hi; lia|auto]|destruct (He E) as [H1 H2]]).
  - exists gs. split; [by left|]. by eapply H1.
  - exists gs. split; [by left|]. by eapply H1.
  - exists gd. split; [right; by left|]. by eapply H2.
  - exists g. split; [right; right; apply Hgen|done]. split_and!; [done|apply Zlen_elem_of in Hi; lia|auto].
Qed.
(** A rule that was put into the tables. *)
Lemma ports_selected single limit r p : to_any_any single limit r = false -> rule_ok r -> added otn_of (ruleIndex r) = true -> recorded single limit r p ->
  reaches otn_of (src_table p) (prmSrcPort prm) -> reaches otn_of (dst_table p) (prmDstPort prm) -> ports_match r dport sport = true ->
  selected packet_groups (ruleIndex r).
Proof.
  intros Etaa (Kd & Ks & K0) Ha Hrec Rs Rd Hm. unfold recorded in Hrec. rewrite Etaa in Hrec. destruct Hrec as [Cd Cs].
  assert (has_flag r ANY_DST_PORT && has_flag r ANY_SRC_PORT = false) as Hnb.
  { unfold to_any_any in Etaa. apply orb_false_iff in Etaa as [Etaa _]. by apply orb_false_iff in Etaa as [-> _]. }
  assert (forall k, contains (src_table p) k (ruleIndex r) -> normal k -> PortObjectHasPort (Some k) sport = true -> selected packet_groups (ruleIndex r)) as Ss.
  { intros k Hc Hn [Hr Hl]%has_normal; [|done..]. destruct (Rs _ _ _ Hc K0 Ha Hr Hl) as (g & Hg & Hi). by eapply selected_src. }
  assert (forall k, contains (dst_table p) k (ruleIndex r) -> normal k -> PortObjectHasPort (Some k) dport = true -> selected packet_groups (ruleIndex r)) as Sd.
  { intros k Hc Hn [Hr Hl]%has_normal; [|done..]. destruct (Rd _ _ _ Hc K0 Ha Hr Hl) as (g & Hg & Hi). by eapply selected_dst. }
  unfold ports_match in Hm. apply orb_true_iff in Hm as [[H1 H2]%andb_prop|[Hb [H1 H2]%andb_prop]%andb_prop].
  - destruct (has_flag r ANY_DST_PORT) eqn:Ed; [|by apply (Sd _ (proj1 (Cd eq_refl)) (Kd eq_refl))].
    destruct (has_flag r ANY_SRC_PORT) eqn:Es; [done|by apply (Ss _ (proj1 (Cs eq_refl)) (Ks eq_refl))].
  - destruct (has_flag r ANY_DST_PORT) eqn:Ed; [|by apply (Ss _ (proj2 (Cd eq_refl) Hb) (Kd eq_refl))].
    destruct (has_flag r ANY_SRC_PORT) eqn:Es; [done|by apply (Sd _ (proj2 (Cs eq_refl) Hb) (Ks eq_refl))].
Qed.
End Selection.

(** The rules of a protocol: its own, and those for any IP packet that go to
    every protocol. *)
Definition applies single limit (q : SnortProtocolId) (r : port_rule) : Prop :=
  r_proto r <> SNORT_PROTO_OTHER /\ (r_proto r = q \/ r_proto r = SNORT_PROTO_IP /\ to_any_any single limit r = true).

(** Rules are entered into the port tables of their protocol, the tables are
    compiled (objects on the same port merged), groups are made of the compiled
    objects and a map from ports to groups.  For every packet, each rule whose ports match
    it, in its own or, when it is bidirectional, in the other direction, is in
    a group that is selected for the packet, whatever the limit for large port
    groups, whether any-any rules are split off, and wherever the rule was put,
    provided that no port has more than 500 port objects of one direction and
    some port has none. *)
Theorem rules_selected otn_of split hp hx hr alloc single limit l q dport sport :
  (forall i j, alloc i = alloc j -> i = j) -> Forall rule_ok l -> Zlen l + 1 < 4294967296 ->
  table_fits (src_table (proto_of (add_port_rules alloc single limit l) q)) ->
  table_fits (dst_table (proto_of (add_port_rules alloc single limit l) q)) -> is_u16 dport -> is_u16 sport ->
  exists prm, fpCreateRuleMap otn_of split hp hx hr (proto_of (add_port_rules alloc single limit l) q) = Some prm /\
    forall r, r ∈ l -> applies single limit q r -> added otn_of (ruleIndex r) = true -> ports_match r dport sport = true ->
      selected (prmFindRuleGroup Zlen split (Some prm) dport sport) (ruleIndex r).
Proof.
  intros Hinj Hok Hlen Fs Fd Hdp Hsp. set (I := map ruleIndex l).
  assert (forall r, r ∈ l -> ruleIndex r ∈ I) as HI by (intros r Hr; apply list_elem_of_In, in_map, list_elem_of_In, Hr).
  destruct (add_port_rules_spec alloc Hinj I single limit l Hok HI) as [Ht Hrec].
  assert (Zlen I + 1 < 4294967296) as Hfew by (unfold I, Zlen in *; by rewrite length_map).
  destruct (map_spec otn_of split hp hx hr alloc I Hfew _ _ (Ht q) Fs Fd) as (prm & Hprm & Hwf & Rs & Rd & Ra). exists prm. split; [exact Hprm|].
  intros r Hr [Hno Happ] Hadd Hm. destruct (Hrec r Hr Hno) as [Hrec1 Hrec2]. rewrite Forall_forall in Hok.
  pose proof (Hok r Hr) as Hokr. pose proof (proj2 (proj2 Hokr)) as K0.
  assert (forall idx, idx ∈ rule_list (any (proto_of (add_port_rules alloc single limit l) q)) -> 0 <= idx -> added otn_of idx = true ->
    selected (prmFindRuleGroup Zlen split (Some prm) dport sport) idx) as Hany.
  { intros idx Hi H0 Ha. destruct (Ra idx Hi H0 Ha) as [(g & Hg & Hin) He]. by eapply selected_any. }
  destruct Happ as [<-|[Hip Htaa]]; [|apply Hany; [by apply Hrec2|done|done]].
  destruct (to_any_any single limit r) eqn:Etaa; [unfold recorded in Hrec1; rewrite Etaa in Hrec1; by apply Hany|].
  by eapply (ports_selected otn_of split prm Hwf dport sport Hdp Hsp).
Qed.

(** ** Three rules and a packet *)

Definition demo_web : PortObject := MkPO None 0 [MkItem false 80 80] [].
Definition demo_proxy : PortObject := MkPO None 0 [MkItem false 8080 8090] [].
Definition demo_high : PortObject := MkPO None 0 [MkItem false 1024 65535] [].
Definition demo_none : PortObject := MkPO None 0 [MkItem false 0 65535] [].
Definition demo_rules : list port_rule :=
  [MkRule ANY_SRC_PORT demo_none demo_web 0 SNORT_PROTO_TCP;
   MkRule (Z.lor ANY_SRC_PORT BIDIRECTIONAL) demo_none demo_proxy 1 SNORT_PROTO_TCP;
   MkRule 0 demo_high demo_web 2 SNORT_PROTO_TCP;
   MkRule (Z.lor ANY_SRC_PORT ANY_DST_PORT) demo_none demo_none 3 SNORT_PROTO_IP].
Definition demo_otn (_ : Z) : otn_info := MkOtn SNORT_PROTO_TCP false true false.
Abbreviation demo_proto := (proto_of (add_port_rules Z.of_nat false 1024 demo_rules) SNORT_PROTO_TCP).

Lemma few_fits t : pt_polist t = pt_polist (dst_table demo_proto) \/ pt_polist t = pt_polist (src_table demo_proto) -> table_fits t.
Proof.
  intros Ht. assert (exists l, pt_polist t = l /\ (length l <= 2)%nat /\ users l 0 = []) as (l & E & Hl & H0).
  { destruct Ht as [-> | ->]; (eexists; split; [vm_compute; reflexivity|split; [cbn; lia|reflexivity]]). }
  rewrite <- E in *. split.
  - intros i. unfold users. rewrite length_map. pose proof (List.filter_length_le (fun x => listed false (item_list x.2) i) (pt_polist t)).
    unfold SFPO_MAX_LPORTS. lia.
  - exists 0. split; [done|done].
Qed.

Lemma demo_rules_match : Forall (fun r => applies false 1024 SNORT_PROTO_TCP r /\ ports_match r 80 8080 = true) demo_rules.
Proof.
  repeat constructor; try done; try (right; split; [done|vm_compute; reflexivity]); by left.
Qed.

Lemma rules_selected_witness : exists prm,
  fpCreateRuleMap demo_otn false hashfcn_static hashfcn_static (fun _ => hashfcn_static) demo_proto = Some prm /\
  forall idx, idx ∈ [0; 1; 2; 3] -> selected (prmFindRuleGroup Zlen false (Some prm) 80 8080) idx.
Proof.
  destruct (rules_selected demo_otn false hashfcn_static hashfcn_static (fun _ => hashfcn_static) Z.of_nat false 1024 demo_rules SNORT_PROTO_TCP 80 8080)
    as (prm & Hprm & H).
  - intros i j. apply Nat2Z.inj.
  - repeat constructor; cbn; try done; lia.
  - reflexivity.
  - apply few_fits. right. exact eq_refl.
  - apply few_fits. left. exact eq_refl.
  - unfold is_u16. lia.
  - unfold is_u16. lia.
  - exists prm. split; [exact Hprm|]. intros idx Hidx.
    pose proof demo_rules_match as Hall. rewrite Forall_forall in Hall. assert (idx ∈ map ruleIndex demo_rules) as Hin by exact Hidx.
    apply list_elem_of_In, List.in_map_iff in Hin as (r & <- & Hr%list_elem_of_In). destruct (Hall r Hr) as [Ha Hm].
    exact (H r Hr Ha eq_refl Hm).
Defined.

(** ** Objects of all ports *)

(** An object that ends up on every port gets the ports "any", and the loop that
    fills the map skips them: its rules are never selected. *)
Lemma all_ports_skipped hp hx hr p c n : pt_optimize p = true -> table_ok p -> PortTableCompile hp hx hr p = Some (Some c) ->
  (forall i, 0 <= i < SFPO_MAX_PORTS -> pt_port_object c !! i = Some n) ->
  exists ob, objects c !! n = Some ob /\ items2 ob = [MkItem false 0 65535] /\ PortObject2Iterate (items2 ob) = [].
Proof.
  intros Hopt [Ta To Tr Tu] Hc Hall. unfold PortTableCompile in Hc. rewrite Hopt in Hc.
  destruct (compile_spec hp hx hr _ Tr To Ta (pt_lrc p) Tu) as (c' & X & R & E & Hck). rewrite E in Hc. injection Hc as ->. clear E.
  assert (0 <= 0 < SFPO_MAX_PORTS) as H0 by (unfold SFPO_MAX_PORTS; lia).
  destruct (ck_some _ _ _ _ _ Hck 0 n (Hall 0 H0)) as (_ & _ & (S & HS & _) & _). destruct (ck_obj _ _ _ _ _ Hck n S HS) as (ob & Hob & Hco).
  exists ob. split; [exact Hob|]. destruct (co_items _ _ _ _ _ Hco) as [Hcan Hls].
  { rewrite (co_cnt _ _ _ _ _ Hco). apply (used_count _ _ 0 H0). exact (Hall 0 H0). }
  assert (items2 ob = [MkItem false 0 65535]) as ->; [|split; reflexivity].
  apply (canonical_unique _ _ 0); [exact Hcan|cbn; unfold SFPO_MAX_PORTS; split_and!; done|].
  intros i. rewrite Hls. unfold uses. destruct (decide (0 <= i < SFPO_MAX_PORTS)) as [Hi|Hi].
  - rewrite (Hall i Hi), bool_decide_true by reflexivity. symmetry. apply listed_true. eexists. split; [left|]. split; [reflexivity|]. unfold SFPO_MAX_PORTS in Hi. cbn. lia.
  - rewrite bool_decide_false; [|intros Hx; destruct (ck_some _ _ _ _ _ Hck i n Hx); lia].
    symmetry. apply not_true_iff_false. intros (j & ->%list_elem_of_singleton & _ & Hj)%listed_true. unfold SFPO_MAX_PORTS in Hi. cbn in Hj. lia.
Qed.
