(* ===== verification/PortParse.v ===== *)
(** * PortParse: the text of ports (parser/parse_ports.cc, ports/port_var_table.cc,
    the port part of parser/parse_rule.cc and parser/vars.cc)

    Text is a list of character codes; a C string ends where the list does. *)

From S2P Require Import Prelude Extract ParseUtils Hash PrimeTable GHash PortObject PortTable RuleHeader Pcrm PortRules.

(** ** The parser *)

Definition POPERR_NO_NAME : Z := 1.
Definition POPERR_NO_ENDLIST_BRACKET : Z := 2.
Definition POPERR_NOT_A_NUMBER : Z := 3.
Definition POPERR_EXTRA_BRACKET : Z := 4.
Definition POPERR_INVALID_RANGE : Z := 8.
Definition POPERR_BOUNDS : Z := 10.
Definition POPERR_BAD_VARIABLE : Z := 11.

Definition POP_MAX_BUFFER_SIZE : Z := 256.

(** [rest]: from the pointer [s] on; [past]: the characters in front of it, last
    first; [token] without its terminating zero. *)
Record POParser := MkPop { past : text; rest : text; pos : Z; token : text; errflag : Z }.

Definition POParserInit (s : text) : POParser := MkPop [] s 0 [] 0.

Definition set_err (pop : POParser) (e : Z) : POParser := MkPop (past pop) (rest pop) (pos pop) (token pop) e.
Definition set_token (pop : POParser) (t : text) : POParser := MkPop (past pop) (rest pop) (pos pop) t (errflag pop).

Definition POPGetChar (pop : POParser) : Z * POParser :=
  match rest pop with
  | [] => (0, pop)
  | c :: r => (c, MkPop (c :: past pop) r (pos pop + 1) (token pop) (errflag pop))
  end.

(** The characters between elements. *)
Definition between (c : Z) : bool := isspace c || (c =? 44).

Fixpoint get_char2 (r p : text) (n : Z) : Z * text * text * Z :=
  match r with
  | [] => (0, p, [], n)
  | c :: r => if between c then get_char2 r (c :: p) (n + 1) else (c, c :: p, r, n + 1)
  end.
Definition POPGetChar2 (pop : POParser) : Z * POParser :=
  let '(c, p, r, n) := get_char2 (rest pop) (past pop) (pos pop) in (c, MkPop p r n (token pop) (errflag pop)).

Definition POPUnGetChar (pop : POParser) : POParser :=
  if pos pop >? 0 then
    match past pop with
    | [] => pop
    | c :: p => MkPop p (c :: rest pop) (pos pop - 1) (token pop) (errflag pop)
    end
  else pop.

Definition POPPeekChar (pop : POParser) : Z := match rest pop with [] => 0 | c :: _ => c end.

Fixpoint skip_space (r p : text) (n : Z) : text * text * Z :=
  match r with
  | [] => (p, [], n)
  | c :: r' => if between c then skip_space r' (c :: p) (n + 1) else (p, r, n)
  end.
Definition POPSkipSpace (pop : POParser) : POParser :=
  let '(p, r, n) := skip_space (rest pop) (past pop) (pos pop) in MkPop p r n (token pop) (errflag pop).

Definition isalnum (c : Z) : bool := isdigit c || ((65 <=? c) && (c <=? 90)) || ((97 <=? c) && (c <=? 122)).
Definition name_char (c : Z) : bool := isalnum c || (c =? 95) || (c =? 45) || (c =? 46).

(** The loop of [POParserName]; [k]: the length of the token. *)
Fixpoint name_loop (r p : text) (n k : Z) (tok : text) : text * text * Z * text :=
  match r with
  | [] => (p, [], n, tok)
  | c :: r' =>
      if (k <? POP_MAX_BUFFER_SIZE) then
        if name_char c then name_loop r' (c :: p) (n + 1) (k + 1) (tok ++ [c]) else (p, r, n, tok)
      else (c :: p, r', n + 1, tok)
  end.

Definition POParserName (pop : POParser) : option text * POParser :=
  if bool_decide (rest pop = []) then (None, pop)
  else
    let '(c, pop) := POPGetChar2 pop in
    if c =? 0 then (None, pop)
    else
      let '(c, pop) := if c =? 36 then POPGetChar2 pop else (c, pop) in
      if c =? 0 then (None, pop)
      else if isalnum c then
        let '(p, r, n, tok) := name_loop (rest pop) (past pop) (pos pop) 1 [c] in
        (Some tok, MkPop p r n tok (errflag pop))
      else (None, POPUnGetChar pop).

(** The characters that may follow a number: colon, blank, bracket, comma, tab
    and newline. *)
Definition ends_number (c : Z) : bool := existsb (Z.eqb c) [58; 32; 93; 44; 9; 10].

(** The loop of [POParserGetShort]; [None]: not a number. *)
Fixpoint get_digits (r p : text) (n : Z) (buffer : text) : option text * text * text * Z :=
  match r with
  | [] => (Some buffer, p, [], n)
  | c :: r' =>
      if isdigit c then
        if Zlen (buffer ++ [c]) =? 31 then (Some (buffer ++ [c]), c :: p, r', n + 1)
        else get_digits r' (c :: p) (n + 1) (buffer ++ [c])
      else if ends_number c then (Some buffer, p, r, n)
      else (None, c :: p, r', n + 1)
  end.

Definition POParserGetShort (pop : POParser) : Z * POParser :=
  let pop := POPSkipSpace pop in
  let '(buffer, p, r, n) := get_digits (rest pop) (past pop) (pos pop) [] in
  let pop := MkPop p r n (token pop) (errflag pop) in
  match buffer with
  | None => (0, set_err pop POPERR_NOT_A_NUMBER)
  | Some buffer =>
      let c := s32 (strtoul buffer 10).1 in
      if (c >? 65535) || (c <? 0) then (0, set_err pop POPERR_BOUNDS) else (u16 c, pop)
  end.

Section Parser.
(** [PortVarTableFind] on the table of the parser. *)
Variable find_var : text -> option PortObject.

Definition _POParseVar (pop : POParser) : option PortObject * POParser :=
  match POParserName pop with
  | (None, pop) => (None, MkPop (past pop) (rest pop) (pos pop + 1) (token pop) POPERR_NO_NAME)
  | (Some name, pop) =>
      match find_var name with
      | None => (None, set_err pop POPERR_BAD_VARIABLE)
      | Some pox => (Some (PortObjectDup pox), pop)
      end
  end.

Definition _POParsePort (pop : POParser) : option items * POParser :=
  let '(lport, pop) := POParserGetShort (set_token pop []) in
  if truth (errflag pop) then (None, pop)
  else if POPPeekChar pop =? 58 then
    let '(_, pop) := POPGetChar pop in
    let c := POPPeekChar pop in
    if ((c =? 0) && bool_decide (rest pop = [])) || (c =? 44) then (Some (PortObjectAddRange [] lport (MAX_PORTS - 1)), pop)
    else if negb (isdigit c) then (None, set_err pop POPERR_NOT_A_NUMBER)
    else
      let '(hport, pop) := POParserGetShort pop in
      if truth (errflag pop) then (None, pop)
      else if lport >? hport then (None, set_err pop POPERR_INVALID_RANGE)
      else (Some (PortObjectAddRange [] lport hport), pop)
  else (Some (PortObjectAddPort [] lport), pop).

(** The text in front of the last [c] ([strrchr]). *)
Fixpoint before_last (c : Z) (s : text) : option text :=
  match s with
  | [] => None
  | x :: s =>
      match before_last c s with
      | Some p => Some (x :: p)
      | None => if x =? c then Some [] else None
      end
  end.

(** The cursor moved until [left] characters are left. *)
Fixpoint advance (fuel : nat) (c : Z) (left : nat) (pop : POParser) : POParser :=
  match fuel with
  | O => pop
  | S fuel =>
      if (c =? 0) || bool_decide (length (rest pop) = left) then pop
      else let '(c, pop) := POPGetChar2 pop in advance fuel c left pop
  end.

(** [po]: what was read so far; fuel: the number of characters. *)
Fixpoint parse_string (fuel : nat) (po : items) (local_neg : bool) (list_count : Z) (pop : POParser) : option items * POParser :=
  match fuel with
  | O => (None, pop)
  | S fuel =>
      let add potmp :=
        parse_string fuel (PortObjectAddPortObject po (if local_neg then PortObjectToggle potmp else potmp)) false in
      let '(c, pop) := POPGetChar2 pop in
      if c =? 0 then
        if list_count >? 0 then (None, set_err pop POPERR_NO_ENDLIST_BRACKET)
        else if list_count <? 0 then (None, set_err pop POPERR_EXTRA_BRACKET)
        else (Some po, pop)
      else if c =? 33 then parse_string fuel po true list_count pop
      else if c =? 36 then
        match _POParseVar pop with
        | (None, pop) => (None, pop)
        | (Some pox, pop) => add (item_list pox) list_count pop
        end
      else if c =? 91 then
        match before_last 93 (rest pop) with
        | None => (None, set_err pop POPERR_NO_ENDLIST_BRACKET)
        | Some tok =>
            match parse_string fuel [] false 0 (POParserInit tok) with
            | (None, local_pop) => (None, set_err pop (errflag local_pop))
            | (Some potmp, _) =>
                let pop := advance (S (S (length (rest pop)))) c (length (rest pop) - length tok) pop in
                add potmp (list_count + 1) pop
            end
        end
      else if c =? 93 then
        if list_count - 1 <? 0 then (None, set_err pop POPERR_EXTRA_BRACKET)
        else parse_string fuel po local_neg (list_count - 1) pop
      else
        match _POParsePort (POPUnGetChar pop) with
        | (None, pop) => (None, pop)
        | (Some potmp, pop) => add potmp list_count pop
        end
  end.
Definition _POParseString (pop : POParser) : option items * POParser := parse_string (S (length (rest pop))) [] false 0 pop.

Definition name_noname : text := [110; 111; 110; 97; 109; 101].

Definition PortObjectParseString (name : option text) (s : text) (nameflag : bool) : option PortObject * POParser :=
  let pop := POParserInit s in
  let '(nm, pop) := if nameflag then POParserName pop else (Some (default name_noname name), pop) in
  match nm with
  | None => (None, set_err pop POPERR_NO_NAME)
  | Some nm =>
      match _POParseString pop with
      | (None, pop) => (None, pop)
      | (Some potmp, pop) =>
          let l := (PortObjectNormalize potmp).2 in
          if bool_decide (l = []) then (None, set_err pop POPERR_INVALID_RANGE)
          else (Some (set_items (PortObjectSetName PortObjectNew nm) (PortObjectAddPortObject [] l)), pop)
      end
  end.

End Parser.

(** ** Port variables *)

Abbreviation PortVarTable := (GHash text PortObject).

Section Variables.
(** The constants of the hash function of the table. *)
Variable hv : HashFnc.

(** Keys are strings with their terminating zero. *)
Definition name_hash (k : text) : Z := hashfcn_hash hv (k ++ [0]).
Definition strcmp (a b : text) : bool := bool_decide (a = b).

(** Objects in the table have names. *)
Definition PortVarTableAdd (h : PortVarTable) (po : PortObject) : Z * PortVarTable :=
  match name po with
  | None => (-1, h)
  | Some n => match ghash_add name_hash strcmp h n po with
              | (GHASH_INTABLE, h) => (1, h)
              | (GHASH_OK, h) => (0, h)
              | (_, h) => (-1, h)
              end
  end.
Definition PortVarTableFind (h : PortVarTable) (n : text) : option PortObject := ghash_find name_hash strcmp h n.
Definition PortVarTableCreate : PortVarTable := (PortVarTableAdd (ghash_new 1000 true) (PortObjectAddPortAny PortObjectNew)).2.

Definition tolower (c : Z) : Z := if (65 <=? c) && (c <=? 90) then c + 32 else c.
Definition strcasecmp (a b : text) : bool := bool_decide (map tolower a = map tolower b).

(** [SnortStrcasestr] for the string [ch :: substr]. *)
Fixpoint SnortStrcasestr (s : text) (ch : Z) (substr : text) : bool :=
  match s with
  | [] => false
  | nc :: s =>
      if bool_decide (s = []) then false
      else if tolower nc =? tolower ch then
        if Zlen s <? Zlen substr then false
        else if strcasecmp (take (length substr) s) substr then true
        else SnortStrcasestr s ch substr
      else SnortStrcasestr s ch substr
  end.

(** The table and how many errors were reported; [None]: fatal. *)
Definition PortVarDefine (h : PortVarTable) (nm s : text) : option (PortVarTable * Z) :=
  '(po, errs) ←
    (if SnortStrcasestr s 97 [110; 121] then
       Some (PortObjectAddPortAny (PortObjectSetName PortObjectNew nm), if existsb (Z.eqb 33) s then 1 else 0)
     else
       match PortObjectParseString (PortVarTableFind h) (Some nm) s false with
       | (None, _) => None
       | (Some po, _) => Some (po, 0)
       end);
  let '(rstat, h) := PortVarTableAdd h po in
  Some (h, errs + (if rstat <? 0 then 1 else 0)).

(** ** The ports of a rule *)

(** The tables of the policy: variables, port lists without name and the number
    of objects made for them. *)
Record ports_env := MkEnv { vars : PortVarTable; noname : PortTable; made : nat }.
Variable alloc : nat -> Z.

(** [None]: fatal. *)
Definition ParsePortListTcpUdpPort (e : ports_env) (port_str : text) : option (PortObject * ports_env) :=
  if strcasecmp port_str name_any then
    po ← PortVarTableFind (vars e) name_any; Some (po, e)
  else
    match port_str with
    | 36 :: nm => po ← PortVarTableFind (vars e) nm; Some (po, e)
    | _ =>
        match PortObjectParseString (PortVarTableFind (vars e)) None port_str false with
        | (None, _) => None
        | (Some po, _) =>
            match PortTableFindInputPortObjectPorts (noname e) (item_list po) with
            | Some a => pox ← obj (pt_polist (noname e)) a; Some (pox, e)
            | None => Some (po, MkEnv (vars e) (PortTableAddObject (noname e) (alloc (made e)) po) (S (made e)))
            end
        end
    end.

Definition PROTO_BIT__TCP : Z := 2.
Definition PROTO_BIT__UDP : Z := 4.
Definition PROTO_BIT__IP : Z := 1.
Definition PROTO_BIT__ICMP : Z := 8.

(** The flags of the rule and its port object; [inl]: an error is reported. *)
Definition ParsePortList (e : ports_env) (rule_proto flags : Z) (port_str : text) (dst_flag : bool) :
  option (unit + (Z * PortObject * ports_env)) :=
  r ← (if truth (Z.land rule_proto (Z.lor PROTO_BIT__TCP PROTO_BIT__UDP))
       then inr <$> ParsePortListTcpUdpPort e port_str
       else match PortVarTableFind (vars e) name_any with
            | Some po => Some (inr (po, e))
            | None => Some (inl tt)
            end);
  match r with
  | inl _ => Some (inl tt)
  | inr (po, e) =>
      let flags := if PortObjectHasAny (item_list po) then Z.lor flags (if dst_flag then ANY_DST_PORT else ANY_SRC_PORT) else flags in
      if PortObjectIsPureNot (item_list po) then Some (inl tt) else Some (inr (flags, po, e))
  end.

Definition text_tcp : text := [116; 99; 112].
Definition text_udp : text := [117; 100; 112].
Definition text_icmp : text := [105; 99; 109; 112].
Definition text_ip : text := [105; 112].

Definition parse_rule_proto (s : text) : SnortProtocolId * Z :=
  if bool_decide (s = text_tcp) then (SNORT_PROTO_TCP, PROTO_BIT__TCP)
  else if bool_decide (s = text_udp) then (SNORT_PROTO_UDP, PROTO_BIT__UDP)
  else if bool_decide (s = text_icmp) then (SNORT_PROTO_ICMP, PROTO_BIT__ICMP)
  else if bool_decide (s = text_ip) then (SNORT_PROTO_IP, PROTO_BIT__IP)
  else (SNORT_PROTO_OTHER, PROTO_BIT__TCP).

(** [None]: an illegal direction is reported. *)
Definition parse_rule_dir (s : text) (flags : Z) : option Z :=
  if bool_decide (s = [60; 62]) then Some (Z.lor flags BIDIRECTIONAL)
  else if bool_decide (s = [45; 62]) then Some flags else None.

(** What the parser of a rule does with protocol, source ports, direction and
    destination ports; only rules without errors are used. *)
Definition parse_rule_header (e : ports_env) (proto src dir dst : text) (idx : Z) : option (port_rule * ports_env) :=
  let '(id, rule_proto) := parse_rule_proto proto in
  '(flags, src_po, e) ← (r ← ParsePortList e rule_proto 0 src false; match r with inl _ => None | inr x => Some x end);
  flags ← parse_rule_dir dir flags;
  '(flags, dst_po, e) ← (r ← ParsePortList e rule_proto flags dst true; match r with inl _ => None | inr x => Some x end);
  Some (MkRule flags src_po dst_po idx id, e).

End Variables.

(** ** What is read from any text *)

Section AnyText.
Variable find_var : text -> option PortObject.
Hypothesis find_ok : forall nm po, find_var nm = Some po -> items_ok (item_list po).

Lemma items_ok_app l k : items_ok l -> items_ok k -> items_ok (l ++ k).
Proof. intros. by apply Forall_app. Qed.

Lemma items_ok_toggle l : items_ok l -> items_ok (PortObjectToggle l).
Proof. unfold items_ok, PortObjectToggle. rewrite Forall_map. done. Qed.

Lemma items_ok_range lp hp : items_ok (PortObjectAddRange [] lp hp).
Proof.
  unfold PortObjectAddRange. constructor; [|constructor]. cbn. unfold u16, SFPO_MAX_PORTS.
  pose proof (Z.mod_pos_bound lp 65536). pose proof (Z.mod_pos_bound hp 65536). lia.
Qed.

Lemma ParsePort_ok pop l pop' : _POParsePort pop = (Some l, pop') -> items_ok l.
Proof.
  unfold _POParsePort. destruct (POParserGetShort _) as [lp p1]. destruct (truth _); [done|]. destruct (_ =? 58).
  - destruct (POPGetChar p1) as [c p2]. destruct (_ || _); [intros [= <- _]; apply items_ok_range|]. destruct (negb _); [done|].
    destruct (POParserGetShort p2) as [hp p3]. destruct (truth _); [done|]. destruct (lp >? hp); [done|]. intros [= <- _]. apply items_ok_range.
  - intros [= <- _]. apply items_ok_range.
Qed.

Lemma add_object l k : PortObjectAddPortObject l k = l ++ k.
Proof. apply fold_add_items. Qed.

Lemma parse_string_ok fuel : forall po neg n pop l pop', items_ok po -> parse_string find_var fuel po neg n pop = (Some l, pop') -> items_ok l.
Proof.
  induction fuel as [|fuel IH]; intros po neg n pop l pop' Hpo; [done|]. cbn [parse_string]. destruct (POPGetChar2 pop) as [c p1].
  assert (forall k n pop, items_ok k -> parse_string find_var fuel (PortObjectAddPortObject po (if neg then PortObjectToggle k else k)) false n pop = (Some l, pop') -> items_ok l) as Hadd.
  { intros k m pp Hk. rewrite add_object. apply IH, items_ok_app; [done|]. destruct neg; [by apply items_ok_toggle|done]. }
  destruct (c =? 0).
  { destruct (n >? 0); [done|]. destruct (n <? 0); [done|]. by intros [= <- _]. }
  destruct (c =? 33); [by apply IH|]. destruct (c =? 36).
  { unfold _POParseVar. destruct (POParserName p1) as [[nm|] p2]; [|done]. destruct (find_var nm) as [pox|] eqn:E; [|done].
    apply Hadd. cbn. rewrite fold_add_items. by eapply find_ok. }
  destruct (c =? 91).
  { destruct (before_last 93 (rest p1)) as [tok|]; [|done]. destruct (parse_string find_var fuel [] false 0 (POParserInit tok)) as [[k|] lp] eqn:E; [|done].
    apply Hadd. apply (IH _ _ _ _ _ _ (List.Forall_nil _) E). }
  destruct (c =? 93); [destruct (_ <? 0); [done|by apply IH]|].
  destruct (_POParsePort _) as [[k|] p2] eqn:E; [|done]. apply Hadd. by eapply ParsePort_ok.
Qed.

(** Port lists in tables and rules: not empty, and normalised unless one of
    their items is "any". *)
Definition list_ok (l : items) : Prop := items_ok l /\ l <> [] /\ (PortObjectHasAny l = false -> canonical 0 l).

Lemma Normalize_ok l : items_ok l -> (PortObjectNormalize l).2 <> [] -> list_ok (PortObjectNormalize l).2.
Proof.
  intros Hl Hne. destruct (PortObjectHasAny l) eqn:E.
  - unfold PortObjectNormalize in *. rewrite E in *. split; [done|]. split; [done|]. cbn. by rewrite E.
  - destruct (decide (l = [])) as [->|Hl0].
    + rewrite (proj2 empty_becomes_any). split; [|by split]. repeat constructor; cbn; lia.
    + destruct (Normalize_spec l Hl Hl0 E) as (_ & Hc & _). split; [|by split]. by apply canonical_ok.
Qed.

Lemma ParseString_ok nm s nameflag po pop : PortObjectParseString find_var nm s nameflag = (Some po, pop) -> list_ok (item_list po) /\ is_Some (name po).
Proof.
  unfold PortObjectParseString. destruct (if nameflag then _ else _) as [[n|] p1]; [|done]. unfold _POParseString.
  destruct (parse_string _ _ _ _ _ _) as [[l|] p2] eqn:E; [|done]. apply parse_string_ok in E; [|apply List.Forall_nil].
  case_bool_decide as Hne; [done|]. intros [= <- _]. cbn [item_list set_items name PortObjectSetName]. rewrite add_object. cbn [app]. split; [by apply Normalize_ok|done].
Qed.
End AnyText.

(** ** Any configuration *)

Section Configured.
Variable hv : HashFnc.
Variable alloc : nat -> Z.

Record env_ok (e : ports_env) : Prop := {
  eo_rows : 0 < nrows (vars e);
  eo_vars : forall k po, (k, po) ∈ elements (vars e) -> list_ok (item_list po);
  eo_noname : forall a po, (a, po) ∈ pt_polist (noname e) -> list_ok (item_list po);
  eo_any : PortVarTableFind hv (vars e) name_any = Some (PortObjectAddPortAny PortObjectNew) }.

Lemma find_var_ok e nm po : env_ok e -> PortVarTableFind hv (vars e) nm = Some po -> list_ok (item_list po).
Proof. intros He (k & Hin & _)%ghash_find_elements; [|apply He]. by eapply eo_vars. Qed.

Lemma any_ok : list_ok [MkItem false 0 65535].
Proof. split; [repeat constructor; cbn; lia|]. split; [done|]. intros _. cbn. unfold SFPO_MAX_PORTS. lia. Qed.

Lemma elements_same {K D} (t t' : GHash K D) : table t' = table t -> nrows t' = nrows t -> elements t' = elements t.
Proof. intros E1 E2. unfold elements, nodes_from, row. by rewrite E1, E2. Qed.

Lemma VarTableAdd_ok (h : PortVarTable) po : 0 < nrows h -> (forall k po, (k, po) ∈ elements h -> list_ok (item_list po)) -> list_ok (item_list po) ->
  0 < nrows (PortVarTableAdd hv h po).2 /\ forall k po', (k, po') ∈ elements (PortVarTableAdd hv h po).2 -> list_ok (item_list po').
Proof.
  intros Hr Hall Hpo. unfold PortVarTableAdd. destruct (name po) as [n|]; [|done].
  pose proof (ghash_add_spec (name_hash hv) strcmp h n po Hr) as Ha. destruct (ghash_add _ _ h n po) as [[] h']; try done; cbn [snd].
  - destruct Ha as (_ & He & -> & _). split; [done|]. intros k po'. rewrite He. intros [[= -> ->]|Hin]%elem_of_cons; [done|by eapply Hall].
  - destruct Ha as (_ & E1 & E2 & _). rewrite (elements_same h h' E1 E2), E2. done.
Qed.

Lemma find_added (h : PortVarTable) po n : 0 < nrows h -> name po = Some n -> PortVarTableFind hv h n = None ->
  PortVarTableFind hv (PortVarTableAdd hv h po).2 n = Some po.
Proof.
  intros Hr Hn Hf. unfold PortVarTableAdd. rewrite Hn. pose proof (ghash_add_spec (name_hash hv) strcmp h n po Hr) as Ha.
  destruct (ghash_add _ _ h n po) as [[] h']; try done; cbn [snd].
  - destruct Ha as (_ & _ & E2 & _ & E1). unfold PortVarTableFind, ghash_find, ghash_find_node, index, row in *. rewrite E1, E2, lookup_insert_eq.
    cbn [from_option id find_node]. unfold strcmp. by rewrite bool_decide_true.
  - destruct Ha as ([x Hx] & _). unfold PortVarTableFind in Hf. congruence.
Qed.

(** What is in the table stays. *)
Lemma find_add_keeps (h : PortVarTable) po nm x : 0 < nrows h -> PortVarTableFind hv h nm = Some x -> PortVarTableFind hv (PortVarTableAdd hv h po).2 nm = Some x.
Proof.
  intros Hr Hf. unfold PortVarTableAdd. destruct (name po) as [n|]; [|done].
  pose proof (ghash_add_spec (name_hash hv) strcmp h n po Hr) as Ha. destruct (ghash_add _ _ h n po) as [[] h']; try done; cbn [snd].
  - destruct Ha as (Hnone & _ & E2 & _ & E1). assert (n <> nm) as Hne by (intros ->; unfold PortVarTableFind in Hf; congruence).
    unfold PortVarTableFind, ghash_find, ghash_find_node, index, row in *. rewrite E1, E2.
    destruct (decide (name_hash hv n mod nrows h = name_hash hv nm mod nrows h)) as [E|E].
    + rewrite E, lookup_insert_eq. cbn [from_option id find_node]. unfold strcmp at 1. rewrite bool_decide_false by done. done.
    + rewrite lookup_insert_ne by done. done.
  - destruct Ha as (_ & E1 & E2 & _). revert Hf. unfold PortVarTableFind, ghash_find, ghash_find_node, index, row. by rewrite E1, E2.
Qed.

(** Variables and rules, in any order. *)
Inductive configured : ports_env -> list port_rule -> Prop :=
  | configured_new : configured (MkEnv (PortVarTableCreate hv) PortTableNew 0) []
  | configured_var e l nm s h errs : configured e l -> PortVarDefine hv (vars e) nm s = Some (h, errs) ->
      configured (MkEnv h (noname e) (made e)) l
  | configured_rule e l proto src dir dst idx r e' : configured e l -> 0 <= idx ->
      parse_rule_header hv alloc e proto src dir dst idx = Some (r, e') -> configured e' (l ++ [r])
  | configured_merged e l proto src dir dst idx r e' : configured e l -> 0 <= idx ->
      parse_rule_header hv alloc e proto src dir dst idx = Some (r, e') -> configured e' l.

Lemma env_new_ok : env_ok (MkEnv (PortVarTableCreate hv) PortTableNew 0).
Proof.
  destruct (VarTableAdd_ok (ghash_new 1000 true) (PortObjectAddPortAny PortObjectNew)) as [H1 H2].
  - unfold ghash_new. cbn [nrows]. exact (nearest_prime_pos 1000).
  - intros k po Hin. exfalso. destruct (grefines_new (name_hash hv) 1000 true ltac:(done) : refines _ (_ : PortVarTable) ∅) as [_ _ He _].
    rewrite He, map_to_list_empty in Hin. set_solver.
  - apply any_ok.
  - split; [exact H1|exact H2| |].
    + intros a po Hin. by apply elem_of_nil in Hin.
    + apply (find_added (ghash_new 1000 true) (PortObjectAddPortAny PortObjectNew) name_any); [exact (nearest_prime_pos 1000)|done|].
      unfold PortVarTableFind, ghash_find, ghash_find_node, row, ghash_new. cbn [table]. by rewrite lookup_empty.
Qed.

Lemma VarDefine_ok e nm s h errs : env_ok e -> PortVarDefine hv (vars e) nm s = Some (h, errs) -> env_ok (MkEnv h (noname e) (made e)).
Proof.
  intros He. unfold PortVarDefine. intros ([po k] & Hpo & H)%bind_Some.
  assert (list_ok (item_list po)) as Hok.
  { destruct (SnortStrcasestr _ _ _); [injection Hpo as <- _; apply any_ok|].
    destruct (PortObjectParseString _ _ _ _) as [[p|] pop] eqn:E; [|done]. injection Hpo as -> _.
    eapply ParseString_ok; [|exact E]. intros n' p' Hf. by eapply find_var_ok. }
  destruct (VarTableAdd_ok (vars e) po (eo_rows _ He) (eo_vars _ He) Hok) as [H1 H2].
  pose proof (find_add_keeps (vars e) po _ _ (eo_rows _ He) (eo_any _ He)) as H3.
  destruct (PortVarTableAdd hv (vars e) po) as [rs h']. injection H as <- _. split; [done|done|apply He|done].
Qed.

Lemma TcpUdpPort_ok e s po e' : env_ok e -> ParsePortListTcpUdpPort hv alloc e s = Some (po, e') -> list_ok (item_list po) /\ env_ok e'.
Proof.
  intros He. unfold ParsePortListTcpUdpPort. destruct (strcasecmp s name_any).
  { intros (p & Hf & [= -> ->])%bind_Some. split; [by eapply find_var_ok|done]. }
  assert (forall nm, (p ← PortVarTableFind hv (vars e) nm; Some (p, e)) = Some (po, e') -> list_ok (item_list po) /\ env_ok e') as Hvar.
  { intros nm (p & Hf & [= -> ->])%bind_Some. split; [by eapply find_var_ok|done]. }
  set (raw := match PortObjectParseString _ _ _ _ with (None, _) => _ | (Some _, _) => _ end).
  assert (raw = Some (po, e') -> list_ok (item_list po) /\ env_ok e') as Hraw.
  { unfold raw. destruct (PortObjectParseString _ _ _ _) as [[p|] pop] eqn:E; [|done].
    apply ParseString_ok in E as [Hok _]; [|intros n' p' Hf; by eapply find_var_ok].
    destruct (PortTableFindInputPortObjectPorts _ _) as [a|] eqn:Ef.
    - intros (pox & Ho & [= -> ->])%bind_Some. apply obj_in in Ho. split; [by eapply eo_noname|done].
    - intros [= -> <-]. split; [done|]. split; [apply He|apply He| |apply He]. cbn [noname]. intros a q. unfold PortTableAddObject.
      destruct (existsb _ _); [apply He|]. cbn [pt_polist]. rewrite elem_of_app. intros [Hin|Hin%list_elem_of_singleton]; [by eapply eo_noname|].
      by injection Hin as -> ->. }
  clearbody raw. destruct s as [|c s]; [done|]. by repeat (case_match; try done); apply Hvar.
Qed.

Lemma PortList_ok e rp fl s d fl' po e' : env_ok e -> ParsePortList hv alloc e rp fl s d = Some (inr (fl', po, e')) ->
  list_ok (item_list po) /\ env_ok e' /\
  fl' = (if PortObjectHasAny (item_list po) then Z.lor fl (if d then ANY_DST_PORT else ANY_SRC_PORT) else fl) /\
  (Z.land rp (Z.lor PROTO_BIT__TCP PROTO_BIT__UDP) = 0 -> PortObjectHasAny (item_list po) = true).
Proof.
  intros He. unfold ParsePortList. rewrite (eo_any _ He).
  assert (forall x : unit + (PortObject * ports_env), (if truth (Z.land rp (Z.lor PROTO_BIT__TCP PROTO_BIT__UDP)) then inr <$> ParsePortListTcpUdpPort hv alloc e s
      else Some (inr (PortObjectAddPortAny PortObjectNew, e))) = Some x -> exists p e1, x = inr (p, e1) /\ list_ok (item_list p) /\ env_ok e1 /\
      (Z.land rp (Z.lor PROTO_BIT__TCP PROTO_BIT__UDP) = 0 -> PortObjectHasAny (item_list p) = true)) as Hx.
  { intros x. destruct (truth _) eqn:Et.
    - intros ([p e1] & Hp & ->)%fmap_Some. exists p, e1. apply TcpUdpPort_ok in Hp as [? ?]; [|done]. split_and!; try done.
      intros E. rewrite E in Et. done.
    - intros [= <-]. eexists _, e. split_and!; [done|apply any_ok|done|done]. }
  intros (x & H1 & H2)%bind_Some. destruct (Hx x H1) as (p & e1 & -> & A1 & A2 & A3). clear Hx H1.
  destruct (PortObjectIsPureNot _); [done|]. injection H2 as <- -> ->. done.
Qed.

(** A rule that was read. *)
Record rule_read (r : port_rule) : Prop := {
  rr_src : list_ok (item_list (r_src r));
  rr_dst : list_ok (item_list (r_dst r));
  rr_any_src : has_flag r ANY_SRC_PORT = PortObjectHasAny (item_list (r_src r));
  rr_any_dst : has_flag r ANY_DST_PORT = PortObjectHasAny (item_list (r_dst r));
  rr_ip : r_proto r = SNORT_PROTO_IP \/ r_proto r = SNORT_PROTO_ICMP -> has_flag r ANY_SRC_PORT = true /\ has_flag r ANY_DST_PORT = true;
  rr_index : 0 <= ruleIndex r }.

Lemma rule_header_ok e proto src dir dst idx r e' : env_ok e -> 0 <= idx -> parse_rule_header hv alloc e proto src dir dst idx = Some (r, e') ->
  rule_read r /\ env_ok e'.
Proof.
  intros He Hi. unfold parse_rule_header.
  assert (forall id rp, parse_rule_proto proto = (id, rp) -> id = SNORT_PROTO_IP \/ id = SNORT_PROTO_ICMP ->
    Z.land rp (Z.lor PROTO_BIT__TCP PROTO_BIT__UDP) = 0) as Hrp.
  { intros id rp. unfold parse_rule_proto. repeat case_match; intros [= <- <-]; try done; by intros [?|?]. }
  destruct (parse_rule_proto proto) as [id rp]. specialize (Hrp id rp eq_refl).
  intros ([[f1 p1] e1] & (x1 & H1 & E1)%bind_Some & H)%bind_Some. destruct x1 as [|x1]; [done|]. injection E1 as ->.
  apply PortList_ok in H1 as (A1 & A2 & A3 & A4); [|done]. apply bind_Some in H as (f2 & Hdir & H).
  apply bind_Some in H as ([[f3 p2] e2] & (x2 & H2 & E2)%bind_Some & H). destruct x2 as [|x2]; [done|]. injection E2 as ->.
  apply PortList_ok in H2 as (B1 & B2 & B3 & B4); [|done]. injection H as <- <-. split; [|done].
  assert (f2 = f1 \/ f2 = Z.lor f1 BIDIRECTIONAL) as Hf2.
  { unfold parse_rule_dir in Hdir. repeat case_match; simplify_eq; auto. }
  split; cbn [r_src r_dst r_flags r_proto ruleIndex]; try done; unfold has_flag; cbn [r_flags]; subst f3 f1;
    [..|intros Hid; rewrite (A4 (Hrp Hid)), (B4 (Hrp Hid)) in *];
    destruct Hf2 as [-> | ->]; try (destruct (PortObjectHasAny (item_list p1)), (PortObjectHasAny (item_list p2))); by vm_compute.
Qed.

Lemma configured_ok e l : configured e l -> env_ok e /\ Forall rule_read l.
Proof.
  induction 1 as [|e l nm s h errs _ [IH1 IH2] H|e l proto src dir dst idx r e' _ [IH1 IH2] Hi H|e l proto src dir dst idx r e' _ [IH1 IH2] Hi H].
  - split; [apply env_new_ok|apply List.Forall_nil].
  - split; [by eapply VarDefine_ok|done].
  - destruct (rule_header_ok _ _ _ _ _ _ _ _ IH1 Hi H) as [Hr He]. split; [done|]. apply Forall_app. split; [done|by constructor].
  - by destruct (rule_header_ok _ _ _ _ _ _ _ _ IH1 Hi H).
Qed.

Lemma rule_read_ok r : rule_read r -> rule_ok r.
Proof.
  intros [(H1 & H2 & H3) (H4 & H5 & H6) Hs Hd _ Hi]. unfold rule_ok, normal. rewrite Hs, Hd. split_and!; [|..|done]; auto.
Qed.

(** The check for port lists of exceptions alone never finds one, because the
    lists were normalised. *)
Lemma never_pure_not l : list_ok l -> PortObjectIsPureNot l = false.
Proof.
  intros (Hok & Hne & Hc). unfold PortObjectIsPureNot. rewrite bool_decide_false by done. cbn [negb andb]. apply not_true_iff_false.
  rewrite forallb_forall. intros Hall. destruct (PortObjectHasAny l) eqn:E.
  - clear -E Hall. induction l as [|i l IH]; [done|]. cbn in E. apply orb_true_iff in E as [E|E].
    + unfold item_any in E. rewrite (Hall i) in E by (by left). done.
    + apply IH; try done. intros x Hx. apply Hall. by right.
  - destruct l as [|i l]; [done|]. destruct (Hc eq_refl) as [Hn _]. rewrite (Hall i) in Hn by (by left). done.
Qed.
End Configured.

(** ** Written port lists *)

(** One element: digits of a port or of the ends of a range (an end that is left
    out is the least or greatest port), or the name of a variable. *)
Inductive element := Ports (lo : text) (hi : option text) | PortVar (nm : text).

Definition element_text (e : element) : text :=
  match e with
  | Ports lo None => lo
  | Ports lo (Some hi) => lo ++ 58 :: hi
  | PortVar nm => 36 :: nm
  end.
Definition signed_text (x : bool * element) : text := (if x.1 then [33] else []) ++ element_text x.2.

(** With a comma in front of every element, and without the first one. *)
Definition tail_text (l : list (bool * element)) : text := concat (map (fun x => 44 :: signed_text x) l).
Definition list_text (l : list (bool * element)) : text :=
  match l with [] => [] | x :: l => signed_text x ++ tail_text l end.

(** The list as it is, or in brackets, with or without a negation in front. *)
Definition port_text (brackets : option bool) (l : list (bool * element)) : text :=
  match brackets with
  | None => list_text l
  | Some neg => (if neg then [33] else []) ++ 91 :: list_text l ++ [93]
  end.

Section Written.
Variable find_var : text -> option PortObject.

Definition element_items (e : element) : items :=
  match e with
  | Ports lo None => [MkItem false (dec_value lo) (dec_value lo)]
  | Ports lo (Some []) => [MkItem false (dec_value lo) 65535]
  | Ports lo (Some hi) => [MkItem false (dec_value lo) (dec_value hi)]
  | PortVar nm => from_option item_list [] (find_var nm)
  end.
Definition signed_items (x : bool * element) : items := if x.1 then PortObjectToggle (element_items x.2) else element_items x.2.
Definition written_items (brackets : option bool) (l : list (bool * element)) : items :=
  let its := concat (map signed_items l) in match brackets with Some true => PortObjectToggle its | _ => its end.

(** A number of at most 30 digits that is a port. *)
Definition number_ok (s : text) : Prop := Forall is_digit s /\ (length s <= 30)%nat /\ dec_value s <= 65535.
Definition element_ok (e : element) : Prop :=
  match e with
  | Ports lo None => number_ok lo /\ lo <> []
  | Ports lo (Some hi) => number_ok lo /\ number_ok hi /\ (hi = [] \/ dec_value lo <= dec_value hi)
  | PortVar nm => exists c s, nm = c :: s /\ isalnum c = true /\ forallb name_char s = true /\ Zlen nm < 256 /\ is_Some (find_var nm)
  end.

(** The state of the parser that matters. *)
Definition at_text (pop : POParser) (s : text) : Prop := rest pop = s /\ errflag pop = 0 /\ 0 <= pos pop.

Lemma get_char2_spec sep : forallb between sep = true -> forall c r p n, between c = false ->
  get_char2 (sep ++ c :: r) p n = (c, c :: rev sep ++ p, r, n + Zlen sep + 1).
Proof.
  induction sep as [|x sep IH]; intros Hs c r p n Hc; cbn [app get_char2].
  - rewrite Hc, Zlen_nil. cbn. by rewrite Z.add_0_r.
  - cbn in Hs. apply andb_prop in Hs as [-> Hs]. rewrite (IH Hs) by done. cbn [rev]. rewrite <- app_assoc, Zlen_cons. cbn. f_equal. lia.
Qed.

Lemma GetChar2_spec pop sep c r : at_text pop (sep ++ c :: r) -> forallb between sep = true -> between c = false ->
  exists pop', POPGetChar2 pop = (c, pop') /\ at_text pop' r /\ at_text (POPUnGetChar pop') (c :: r).
Proof.
  intros (Hr & He & Hp) Hs Hc. unfold POPGetChar2. rewrite Hr, get_char2_spec by done. eexists. split; [reflexivity|].
  pose proof (Zlen_nonneg sep). split; [split_and!; cbn; [done|done|lia]|]. unfold POPUnGetChar. cbn [pos past]. bcases; [|lia].
  split_and!; cbn; [done|done|lia].
Qed.

Lemma GetChar2_end pop sep : at_text pop sep -> forallb between sep = true -> exists pop', POPGetChar2 pop = (0, pop') /\ at_text pop' [].
Proof.
  intros (Hr & He & Hp) Hs. unfold POPGetChar2. rewrite Hr.
  assert (forall p n, 0 <= n -> exists p' n', get_char2 sep p n = (0, p', [], n') /\ 0 <= n') as H.
  { clear -Hs. induction sep as [|x sep IH]; intros p n Hn; cbn [get_char2]; [by exists p, n|]. cbn in Hs. apply andb_prop in Hs as [-> Hs].
    apply (IH Hs). lia. }
  destruct (H (past pop) (pos pop) Hp) as (p' & n' & -> & Hn'). eexists. split; [reflexivity|]. by split_and!.
Qed.

(** Digits up to the end of the text or a character that ends a number. *)
Definition number_end (s : text) : Prop := match s with [] => True | c :: _ => isdigit c = false /\ ends_number c = true end.

Lemma get_digits_spec ds tl : Forall is_digit ds -> number_end tl -> forall p n buf, (length buf + length ds <= 30)%nat ->
  exists p', get_digits (ds ++ tl) p n buf = (Some (buf ++ ds), p', tl, n + Zlen ds).
Proof.
  intros Hd Htl. induction Hd as [|c ds Hc _ IH]; intros p n buf Hl; cbn [app get_digits].
  - rewrite app_nil_r, Zlen_nil, Z.add_0_r. destruct tl as [|c tl]; [by exists p|]. destruct Htl as [H1 H2]. cbn [get_digits]. rewrite H1, H2. by exists p.
  - unfold is_digit in Hc. unfold isdigit. bcase ((48 <=? c) && (c <=? 57)) as E; [|lia].
    cbn [length] in Hl. rewrite Zlen_app, Zlen_cons, Zlen_nil. unfold Zlen at 1. bcase (Z.of_nat (length buf) + (1 + 0) =? 31) as E'; [lia|].
    destruct (IH (c :: p) (n + 1) (buf ++ [c])) as [p' ->]; [rewrite length_app; cbn; lia|]. exists p'. rewrite <- app_assoc, Zlen_cons. cbn. f_equal. lia.
Qed.

Lemma strtoul_digits ds : Forall is_digit ds -> dec_value ds <= 65535 -> (strtoul ds 10).1 = dec_value ds /\ 0 <= dec_value ds.
Proof.
  intros Hd Hv. destruct ds as [|c ds]; [done|]. rewrite strtoul_dec by done. cbn [fst].
  assert (forall s a, Forall is_digit s -> 0 <= a -> 0 <= fold_left (fun a c => a * 10 + (c - 48)) s a) as H.
  { clear. intros s. induction s as [|c s IH]; intros a Hs Ha; cbn; [done|]. inversion_clear Hs as [|? ? Hc Hs']. apply IH; [done|]. unfold is_digit in Hc. lia. }
  split; [lia|]. by apply H.
Qed.

Lemma skip_none r p n : (forall c s, r = c :: s -> between c = false) -> skip_space r p n = (p, r, n).
Proof. intros H. destruct r as [|c r]; [done|]. cbn. by rewrite (H c r). Qed.

Lemma GetShort_spec pop ds tl : at_text pop (ds ++ tl) -> number_ok ds -> number_end tl -> (ds = [] -> exists s, tl = 58 :: s) ->
  exists pop', POParserGetShort pop = (dec_value ds, pop') /\ at_text pop' tl.
Proof.
  intros (Hr & He & Hp) (Hd & Hl & Hv) Htl Hne. unfold POParserGetShort, POPSkipSpace. rewrite skip_none.
  2:{ intros c s E. rewrite Hr in E. destruct ds as [|d ds]; [destruct (Hne eq_refl) as [s' ->]; by injection E as <- _|].
      injection E as <- _. apply Forall_cons_1 in Hd as [Hd _]. unfold is_digit in Hd. unfold between, isspace. bcases; try done; lia. }
  cbn [rest past pos token errflag]. rewrite Hr. destruct (get_digits_spec ds tl Hd Htl (past pop) (pos pop) []) as [p' ->]; [cbn; lia|].
  cbn [app]. destruct (strtoul_digits ds Hd Hv) as [-> H0]. unfold s32. rewrite Z.mod_small by lia.
  replace (dec_value ds + 2147483648 - 2147483648) with (dec_value ds) by lia. bcases; [lia|].
  eexists. split; [rewrite u16_small by (unfold is_u16; lia); reflexivity|]. split_and!; cbn; [done|done|pose proof (Zlen_nonneg ds); lia].
Qed.

Definition follows (tl : text) : Prop := tl = [] \/ exists s, tl = 44 :: s.

Lemma follows_end tl : follows tl -> number_end tl.
Proof. by intros [-> | [s ->]]. Qed.

Lemma number_pos ds : number_ok ds -> is_u16 (dec_value ds).
Proof. intros (Hd & _ & Hv). unfold is_u16. destruct (strtoul_digits ds Hd Hv). lia. Qed.

Lemma range_items lo hi : is_u16 lo -> is_u16 hi -> PortObjectAddRange [] lo hi = [MkItem false lo hi].
Proof. intros. unfold PortObjectAddRange. cbn. by rewrite !u16_small. Qed.

Lemma GetChar_spec pop c r : at_text pop (c :: r) -> exists pop', POPGetChar pop = (c, pop') /\ at_text pop' r.
Proof. intros (Hr & He & Hp). unfold POPGetChar. rewrite Hr. eexists. split; [reflexivity|]. split_and!; cbn; [done|done|lia]. Qed.

Lemma Peek_spec pop s : at_text pop s -> POPPeekChar pop = match s with [] => 0 | c :: _ => c end.
Proof. intros (Hr & _). unfold POPPeekChar. by rewrite Hr. Qed.

Lemma ParsePort_spec pop lo hi tl : at_text pop (element_text (Ports lo hi) ++ tl) -> element_ok (Ports lo hi) -> follows tl ->
  exists pop', _POParsePort pop = (Some (element_items (Ports lo hi)), pop') /\ at_text pop' tl.
Proof.
  intros Hpop Hok Htl. unfold _POParsePort. assert (at_text (set_token pop []) (element_text (Ports lo hi) ++ tl)) as Hpop' by exact Hpop.
  destruct hi as [hi|]; cbn [element_text element_ok element_items] in *.
  - destruct Hok as (Hlo & Hhi & Hle). rewrite <- app_assoc in Hpop'. pose proof (number_pos lo Hlo) as Ul.
    destruct (GetShort_spec _ lo (58 :: hi ++ tl) Hpop' Hlo) as (p1 & -> & H1); [done|by eexists|].
    rewrite (proj1 (proj2 H1)). cbn [truth Z.eqb negb]. rewrite (Peek_spec p1 _ H1). cbn [Z.eqb Pos.eqb].
    destruct (GetChar_spec _ _ _ H1) as (p2 & -> & H2). rewrite (Peek_spec p2 _ H2). destruct hi as [|d hi].
    + cbn [app]. assert (match tl with [] => 0 | c :: _ => c end = 0 /\ tl = [] \/ match tl with [] => 0 | c :: _ => c end = 44) as [[-> E]| ->].
      { destruct Htl as [-> | [s ->]]; auto. }
      * rewrite (proj1 H2). cbn [app]. rewrite E, bool_decide_true by done. exists p2. cbn [Z.eqb andb orb]. rewrite range_items by done. by subst.
      * exists p2. cbn [Z.eqb Pos.eqb andb orb]. by rewrite range_items.
    + destruct Hle as [?|Hle]; [done|]. cbn [app]. pose proof Hhi as (Hd & _ & _). apply Forall_cons_1 in Hd as [Hd _]. unfold is_digit in Hd.
      bcase (((d =? 0) && bool_decide (rest p2 = [])) || (d =? 44)) as E; [lia|].
      unfold isdigit. bcase ((48 <=? d) && (d <=? 57)) as E'; [|lia]. cbn [negb].
      destruct (GetShort_spec p2 (d :: hi) tl H2 Hhi (follows_end _ Htl)) as (p3 & -> & Hp3); [done|]. rewrite (proj1 (proj2 Hp3)). cbn [truth Z.eqb negb].
      bcase (dec_value lo >? dec_value (d :: hi)) as E''; [lia|]. exists p3. rewrite range_items; [done|done|by apply number_pos].
  - destruct Hok as (Hlo & Hne). destruct (GetShort_spec _ lo tl Hpop' Hlo (follows_end _ Htl)) as (p1 & -> & H1); [done|].
    rewrite (proj1 (proj2 H1)). cbn [truth Z.eqb negb]. rewrite (Peek_spec p1 _ H1). exists p1. unfold PortObjectAddPort.
    replace (match tl with [] => 0 | c :: _ => c end =? 58) with false by (destruct Htl as [-> | [s ->]]; done).
    by rewrite range_items by (by apply number_pos).
Qed.

Lemma name_loop_spec s tl : forallb name_char s = true -> follows tl -> forall p n k tok, k + Zlen s < POP_MAX_BUFFER_SIZE -> 0 <= n ->
  exists p' n', name_loop (s ++ tl) p n k tok = (p', tl, n', tok ++ s) /\ 0 <= n'.
Proof.
  intros Hs Htl. induction s as [|c s IH]; intros p n k tok Hk Hn; cbn [app name_loop].
  - rewrite app_nil_r. rewrite Zlen_nil in Hk. destruct Htl as [-> | [s ->]]; [by exists p, n|]. cbn [name_loop].
    bcase (k <? POP_MAX_BUFFER_SIZE) as E; [|lia]. by exists p, n.
  - cbn in Hs. apply andb_prop in Hs as [-> Hs]. rewrite Zlen_cons in Hk. pose proof (Zlen_nonneg s).
    bcase (k <? POP_MAX_BUFFER_SIZE) as E; [|lia]. destruct (IH Hs (c :: p) (n + 1) (k + 1) (tok ++ [c])) as (p' & n' & -> & Hn'); [lia|lia|]. exists p', n'. by rewrite <- app_assoc.
Qed.

Lemma alnum_not c : isalnum c = true -> between c = false /\ (c =? 0) = false /\ (c =? 36) = false.
Proof. unfold isalnum, isdigit, between, isspace. intros H. breflect. repeat split; bcases; try done; lia. Qed.

Lemma ParseVar_spec pop nm tl : at_text pop (nm ++ tl) -> element_ok (PortVar nm) -> follows tl ->
  exists po pop', _POParseVar find_var pop = (Some po, pop') /\ item_list po = element_items (PortVar nm) /\ at_text pop' tl.
Proof.
  intros Hpop (c & s & -> & Hc & Hs & Hl & [po Hpo]) Htl. unfold _POParseVar, POParserName. rewrite bool_decide_false by (destruct Hpop as [-> _]; done).
  destruct (alnum_not c Hc) as (Hb & H0 & H36). destruct (GetChar2_spec pop [] c (s ++ tl) Hpop eq_refl Hb) as (p1 & -> & H1 & _).
  rewrite H0, H36, H0, Hc. destruct H1 as (Hr & He & Hp). rewrite Hr. rewrite Zlen_cons in Hl.
  destruct (name_loop_spec s tl Hs Htl (past p1) (pos p1) 1 [c]) as (p' & n' & -> & Hn'); [unfold POP_MAX_BUFFER_SIZE; lia|done|].
  cbn [app]. rewrite Hpo. eexists _, _. split; [reflexivity|]. split; [|by split_and!]. cbn [element_items]. rewrite Hpo. cbn. by rewrite fold_add_items.
Qed.

Lemma parse_element x neg fuel po n pop sep tl : at_text pop (sep ++ element_text x ++ tl) -> forallb between sep = true -> element_ok x -> follows tl ->
  exists pop', parse_string find_var (S fuel) po neg n pop =
    parse_string find_var fuel (po ++ (if neg then PortObjectToggle (element_items x) else element_items x)) false n pop' /\ at_text pop' tl.
Proof.
  intros Hpop Hsep Hok Htl. cbn [parse_string]. destruct x as [lo hi|nm].
  - assert (exists c r, element_text (Ports lo hi) ++ tl = c :: r /\ (48 <= c <= 57 \/ c = 58)) as (c & r & E & Hc).
    { destruct lo as [|d lo].
      - destruct hi as [hi|]; [cbn; eauto|by destruct Hok].
      - assert (is_digit d) as Hd.
        { destruct hi; cbn in Hok; destruct Hok as [(Hd & _) _]; by apply Forall_cons_1 in Hd as [? _]. }
        destruct hi; cbn; eauto. }
    rewrite E in Hpop. destruct (GetChar2_spec pop sep c r Hpop Hsep) as (p1 & -> & _ & H1).
    { unfold between, isspace. bcases; try done; lia. }
    rewrite <- E in H1. destruct (ParsePort_spec _ _ _ _ H1 Hok Htl) as (p2 & Hp2 & H2).
    bcase (c =? 0) as E0; [lia|]. bcase (c =? 33) as E1; [lia|]. bcase (c =? 36) as E2; [lia|]. bcase (c =? 91) as E3; [lia|]. bcase (c =? 93) as E4; [lia|].
    rewrite Hp2. exists p2. split; [|done]. by rewrite add_object.
  - destruct (GetChar2_spec pop sep 36 (nm ++ tl) Hpop Hsep eq_refl) as (p1 & -> & H1 & _). cbn [Z.eqb Pos.eqb].
    destruct (ParseVar_spec _ _ _ H1 Hok Htl) as (po' & p2 & -> & <- & H2). exists p2. split; [|done]. by rewrite add_object.
Qed.

Lemma parse_signed x fuel po n pop sep tl : at_text pop (sep ++ signed_text x ++ tl) -> forallb between sep = true -> element_ok x.2 -> follows tl ->
  exists pop', parse_string find_var (S (if x.1 then S fuel else fuel)) po false n pop =
    parse_string find_var fuel (po ++ signed_items x) false n pop' /\ at_text pop' tl.
Proof.
  intros Hpop Hsep Hok Htl. destruct x as [[] x]; cbn [signed_text fst snd signed_items app] in *.
  - destruct (GetChar2_spec pop sep 33 _ Hpop Hsep eq_refl) as (p1 & E & H1 & _).
    destruct (parse_element x true fuel po n p1 [] tl H1 eq_refl Hok Htl) as (p2 & E2 & H2). exists p2. split; [|done]. rewrite <- E2.
    cbn [parse_string]. rewrite E. done.
  - by apply (parse_element x false fuel po n pop sep tl).
Qed.

Lemma tail_follows l : follows (tail_text l).
Proof. destruct l as [|x l]; [by left|right]. by eexists. Qed.

(** The fuel an element takes. *)
Definition signed_fuel (x : bool * element) : nat := if x.1 then 2 else 1.
Definition list_fuel (l : list (bool * element)) : nat := list_sum (map signed_fuel l).

Lemma parse_tail l : Forall (fun x => element_ok x.2) l -> forall fuel po n pop, at_text pop (tail_text l) ->
  exists pop', parse_string find_var (list_fuel l + fuel) po false n pop = parse_string find_var fuel (po ++ concat (map signed_items l)) false n pop' /\ at_text pop' [].
Proof.
  induction 1 as [|x l Hx _ IH]; intros fuel po n pop Hpop; [exists pop; cbn; by rewrite app_nil_r|].
  destruct (parse_signed x (list_fuel l + fuel) po n pop [44] (tail_text l)) as (p1 & E1 & H1); [exact Hpop|done|done|apply tail_follows|].
  destruct (IH fuel (po ++ signed_items x) n p1 H1) as (p2 & E2 & H2). exists p2. split; [|done]. cbn [map concat]. rewrite app_assoc, <- E2, <- E1.
  f_equal. unfold list_fuel, signed_fuel. cbn. by destruct x.1.
Qed.

Lemma parse_list l fuel po n pop : Forall (fun x => element_ok x.2) l -> at_text pop (list_text l) ->
  exists pop', parse_string find_var (list_fuel l + fuel) po false n pop = parse_string find_var fuel (po ++ concat (map signed_items l)) false n pop' /\ at_text pop' [].
Proof.
  intros Hl Hpop. destruct Hl as [|x l Hx Hl]; [exists pop; cbn; by rewrite app_nil_r|].
  destruct (parse_signed x (list_fuel l + fuel) po n pop [] (tail_text l)) as (p1 & E1 & H1); [exact Hpop|done|done|apply tail_follows|].
  destruct (parse_tail l Hl fuel (po ++ signed_items x) n p1 H1) as (p2 & E2 & H2). exists p2. split; [|done]. cbn [map concat]. rewrite app_assoc, <- E2, <- E1.
  f_equal. unfold list_fuel, signed_fuel. cbn. by destruct x.1.
Qed.

Lemma parse_end fuel po pop : at_text pop [] -> exists pop', parse_string find_var (S fuel) po false 0 pop = (Some po, pop').
Proof. intros H. destruct (GetChar2_end pop [] H eq_refl) as (p & E & _). exists p. cbn [parse_string]. by rewrite E. Qed.

(** Every element takes at least as many characters as fuel. *)
Lemma signed_length x : element_ok x.2 -> (signed_fuel x <= length (signed_text x))%nat.
Proof.
  destruct x as [neg x]. cbn [snd]. intros Hx. unfold signed_fuel, signed_text. rewrite length_app. cbn [fst snd].
  assert (1 <= length (element_text x))%nat as H; [|destruct neg; cbn; lia]. destruct x as [lo [hi|]|nm]; cbn [element_text].
  - rewrite length_app. cbn. lia.
  - destruct Hx as [_ Hx]. destruct lo; [done|cbn; lia].
  - cbn. lia.
Qed.
Lemma tail_length l : Forall (fun x => element_ok x.2) l -> (list_fuel l <= length (tail_text l))%nat.
Proof.
  induction 1 as [|x l Hx _ IH]; [done|]. change (list_fuel (x :: l)) with (signed_fuel x + list_fuel l)%nat.
  change (tail_text (x :: l)) with ((44 :: signed_text x) ++ tail_text l). rewrite length_app. cbn [length]. pose proof (signed_length x Hx). lia.
Qed.
Lemma list_length l : Forall (fun x => element_ok x.2) l -> (list_fuel l <= length (list_text l))%nat.
Proof.
  intros Hl. destruct Hl as [|x l Hx Hl]; [done|]. cbn [list_text]. rewrite length_app. pose proof (signed_length x Hx). pose proof (tail_length l Hl).
  change (list_fuel (x :: l)) with (signed_fuel x + list_fuel l)%nat. lia.
Qed.

(** *** Brackets *)

Lemma before_last_app c s : before_last c (s ++ [c]) = Some s.
Proof. induction s as [|x s IH]; cbn; [by rewrite Z.eqb_refl|]. by rewrite IH. Qed.

(** No zero, and no separator at the end. *)
Definition closed_text (s : text) : Prop := Forall (fun c => c <> 0) s /\ forall c, last s = Some c -> between c = false.

Lemma closed_split s : s <> [] -> closed_text s -> exists sep c r, s = sep ++ c :: r /\ forallb between sep = true /\ between c = false /\ c <> 0 /\ closed_text r.
Proof.
  induction s as [|x s IH]; intros Hne [H0 Hl]; [done|]. inversion_clear H0 as [|? ? Hx Hs]. destruct (between x) eqn:E.
  - assert (s <> []) as Hs' by (intros ->; by rewrite (Hl x) in E).
    destruct IH as (sep & c & r & -> & ? & ? & ? & ?); [done| |].
    { split; [done|]. intros c Hc. apply Hl. by rewrite last_cons, Hc. }
    exists (x :: sep), c, r. split_and!; try done. cbn. by rewrite E.
  - exists [], x, s. split_and!; try done. split; [done|]. intros c Hc. apply Hl. by rewrite last_cons, Hc.
Qed.

Lemma advance_spec fuel : forall c body tl pop, c <> 0 -> at_text pop (body ++ tl) -> closed_text body -> (length body < fuel)%nat ->
  at_text (advance fuel c (length tl) pop) tl.
Proof.
  induction fuel as [|fuel IH]; intros c body tl pop Hc Hpop Hb Hf; [lia|]. cbn [advance]. bcase (c =? 0) as E; [done|]. cbn [orb].
  destruct Hpop as (Hr & He & Hp). rewrite Hr, length_app. destruct (decide (body = [])) as [->|Hne].
  - rewrite bool_decide_true by (cbn; lia). by split_and!.
  - rewrite bool_decide_false by (destruct body; cbn; [done|lia]). destruct (closed_split body Hne Hb) as (sep & d & r & -> & H1 & H2 & H3 & H4).
    destruct (GetChar2_spec pop sep d (r ++ tl)) as (p1 & -> & Hp1 & _); [by split_and!; rewrite ?Hr, <- ?app_assoc|done|done|].
    apply (IH d r); try done. rewrite length_app in Hf. cbn in Hf. lia.
Qed.

Definition solid (s : text) : Prop := Forall (fun c => c <> 0 /\ between c = false) s.

Lemma digits_solid s : Forall is_digit s -> solid s.
Proof. intros H. eapply Forall_impl; [exact H|]. intros c Hc. unfold is_digit in Hc. unfold between, isspace. split; [lia|]. bcases; try done; lia. Qed.

Lemma names_solid s : forallb name_char s = true -> solid s.
Proof.
  intros H. rewrite forallb_forall in H. apply Forall_forall. intros c Hc%list_elem_of_In. specialize (H c Hc). unfold name_char, isalnum, isdigit in H.
  unfold between, isspace. breflect. split; [lia|]. bcases; try done; lia.
Qed.

Lemma signed_solid x : element_ok x.2 -> solid (signed_text x) /\ signed_text x <> [].
Proof.
  destruct x as [neg x]. cbn [snd]. intros Hx. assert (solid (element_text x)) as Hs.
  { destruct x as [lo [hi|]|nm]; cbn [element_text].
    - destruct Hx as ((Hlo & _) & (Hhi & _) & _). apply Forall_app. split; [by apply digits_solid|]. constructor; [done|by apply digits_solid].
    - destruct Hx as [(Hlo & _) _]. by apply digits_solid.
    - destruct Hx as (c & s & -> & Hc & Hs & _). constructor; [done|]. apply names_solid. cbn. rewrite Hs. unfold name_char. by rewrite Hc. }
  pose proof (signed_length (neg, x) Hx) as Hl. unfold signed_text in *. cbn [fst snd] in *. split.
  - apply Forall_app. split; [|done]. destruct neg; repeat constructor; done.
  - intros E. rewrite E in Hl. unfold signed_fuel in Hl. cbn in Hl. destruct neg; lia.
Qed.

Lemma nonzero_list l : Forall (fun x => element_ok x.2) l -> Forall (fun c => c <> 0) (list_text l).
Proof.
  assert (forall x, element_ok x.2 -> Forall (fun c => c <> 0) (signed_text x)) as Hx.
  { intros x Hx. destruct (signed_solid x Hx) as [Hs _]. eapply Forall_impl; [exact Hs|]. by intros c [? _]. }
  assert (Forall (fun x => element_ok x.2) l -> Forall (fun c => c <> 0) (tail_text l)) as Ht.
  { induction 1 as [|x k H _ IH]; [constructor|]. change (tail_text (x :: k)) with ((44 :: signed_text x) ++ tail_text k).
    apply Forall_app. split; [constructor; [done|by apply Hx]|done]. }
  intros Hl. specialize (Ht Hl). destruct Hl as [|x k H _]; [constructor|]. change (tail_text (x :: k)) with ((44 :: signed_text x) ++ tail_text k) in Ht.
  cbn [list_text]. by inversion_clear Ht.
Qed.

Lemma list_text_snoc l x : exists pre, list_text (l ++ [x]) = pre ++ signed_text x.
Proof.
  destruct l as [|y l]; [exists []; cbn; by rewrite app_nil_r|]. cbn [app list_text].
  assert (exists pre, tail_text (l ++ [x]) = pre ++ signed_text x) as [pre ->]; [|exists (signed_text y ++ pre); by rewrite <- app_assoc].
  unfold tail_text. rewrite map_app, concat_app. cbn. rewrite app_nil_r. eexists (_ ++ [44]). by rewrite <- app_assoc.
Qed.

Lemma list_closed l : Forall (fun x => element_ok x.2) l -> closed_text (list_text l).
Proof.
  intros Hl. split; [by apply nonzero_list|]. destruct l as [|x l _] using rev_ind; [done|]. apply Forall_app in Hl as [_ Hx]. inversion_clear Hx as [|? ? Hx' _].
  destruct (signed_solid x Hx') as [Hs Hne]. destruct (list_text_snoc l x) as [pre ->]. intros c. rewrite last_app.
  destruct (last (signed_text x)) as [y|] eqn:E; [|apply last_None in E; done]. intros [= ->]. apply last_Some_elem_of in E. unfold solid in Hs.
  rewrite Forall_forall in Hs. by apply Hs.
Qed.

(** The list in brackets. *)
Lemma parse_brackets l neg fuel pop : Forall (fun x => element_ok x.2) l -> at_text pop (91 :: list_text l ++ [93]) -> (length (list_text l) + 1 < fuel)%nat ->
  exists pop', parse_string find_var (S fuel) [] neg 0 pop = (Some (if neg then PortObjectToggle (concat (map signed_items l)) else concat (map signed_items l)), pop').
Proof.
  intros Hl Hpop Hf. cbn [parse_string]. destruct (GetChar2_spec pop [] 91 _ Hpop eq_refl eq_refl) as (p1 & -> & H1 & _). cbn [Z.eqb Pos.eqb].
  destruct H1 as (Hr & H1). rewrite Hr, before_last_app. pose proof (list_length l Hl) as Hlen.
  assert (exists lp, parse_string find_var fuel [] false 0 (POParserInit (list_text l)) = (Some (concat (map signed_items l)), lp)) as [lp ->].
  { destruct (parse_list l (fuel - list_fuel l) [] 0 (POParserInit (list_text l)) Hl) as (p2 & E2 & H2); [done|].
    rewrite Nat.add_comm, Nat.sub_add in E2 by lia. rewrite E2. cbn [app].
    destruct (fuel - list_fuel l)%nat as [|k] eqn:Ek; [lia|]. by apply parse_end. }
  assert (at_text (advance (S (S (length (list_text l ++ [93])))) 91 (length (list_text l ++ [93]) - length (list_text l)) p1) [93]) as H2.
  { rewrite !length_app. rewrite (Nat.add_comm (length (list_text l))), Nat.add_sub.
    apply (advance_spec _ _ (list_text l)); [done|by split|by apply list_closed|cbn; lia]. }
  revert H2. generalize (advance (S (S (length (list_text l ++ [93])))) 91 (length (list_text l ++ [93]) - length (list_text l)) p1). intros p3 H3.
  rewrite add_object. cbn [app]. destruct fuel as [|fuel]; [lia|]. cbn [parse_string].
  destruct (GetChar2_spec p3 [] 93 [] H3 eq_refl eq_refl) as (p4 & -> & H4 & _). cbn [Z.eqb Pos.eqb Z.sub Z.add Z.opp Z.pos_sub Z.ltb Z.compare].
  destruct fuel as [|fuel]; [lia|]. by apply parse_end.
Qed.

Lemma parse_negation fuel po n pop p1 : POPGetChar2 pop = (33, p1) ->
  parse_string find_var (S fuel) po false n pop = parse_string find_var fuel po true n p1.
Proof. intros E. cbn [parse_string]. by rewrite E. Qed.

(** Any form of the list. *)
Lemma parse_text b l pop : Forall (fun x => element_ok x.2) l -> at_text pop (port_text b l) ->
  exists pop', _POParseString find_var pop = (Some (written_items b l), pop').
Proof.
  intros Hl Hpop. unfold _POParseString. rewrite (proj1 Hpop). pose proof (list_length l Hl) as Hlen. destruct b as [neg|]; cbn [port_text written_items] in *.
  - destruct neg.
    + destruct (GetChar2_spec pop [] 33 _ Hpop eq_refl eq_refl) as (p1 & E & H1 & _). cbn [app length]. rewrite (parse_negation _ _ _ _ _ E).
      cbn [app] in H1. apply (parse_brackets l true _ p1 Hl H1). rewrite length_app. cbn. lia.
    + apply (parse_brackets l false _ pop Hl Hpop). rewrite length_app. cbn [app length]. rewrite length_app. cbn. lia.
  - destruct (parse_list l (S (length (list_text l)) - list_fuel l) [] 0 pop Hl Hpop) as (p2 & E2 & H2).
    rewrite Nat.add_comm, Nat.sub_add in E2 by lia. rewrite E2. destruct (S _ - _)%nat eqn:E; [lia|]. by apply parse_end.
Qed.
End Written.

(** C33.  Port lists as rules and variables write them: ports, ranges with one
    or both ends, variables, each with or without a negation, separated by
    commas, alone or in brackets, which may be negated.  The parser returns the
    normal form of the items that are written, or the error for an empty set of
    ports.  When some item is not negated and none is for all ports, the ports of
    the normal form are those of the items that are not negated less those of the
    negated ones, and the error is returned when none is left.
    ([pure_negation_accepted] and [empty_list_any] show the lists left out.) *)
Theorem port_text_parsed find_var nm b l : Forall (fun x => element_ok find_var x.2) l ->
  let its := written_items find_var b l in
  let '(po, pop) := PortObjectParseString find_var nm (port_text b l) false in
  match po with
  | None => errflag pop = POPERR_INVALID_RANGE /\ (PortObjectNormalize its).2 = []
  | Some po => item_list po = (PortObjectNormalize its).2 /\ name po = Some (default name_noname nm)
  end /\
  (items_ok its -> only_negated its = false -> PortObjectHasAny its = false ->
    (forall p, 0 <= p < SFPO_MAX_PORTS ->
      from_option (fun po => listed false (item_list po) p) false po = listed false its p && negb (listed true its p)) /\
    (po = None <-> forall p, 0 <= p < SFPO_MAX_PORTS -> listed false its p && negb (listed true its p) = false)).
Proof.
  intros Hl its. unfold PortObjectParseString.
  destruct (parse_text find_var b l (POParserInit (port_text b l)) Hl) as [pop ->]; [by split_and!|]. fold its.
  assert (items_ok its -> only_negated its = false -> PortObjectHasAny its = false -> canonical 0 (PortObjectNormalize its).2 /\
    forall p, 0 <= p < SFPO_MAX_PORTS -> listed false (PortObjectNormalize its).2 p = listed false its p && negb (listed true its p)) as Hp.
  { intros Hok Hon Ha. assert (its <> []) as Hne by (intros E; by rewrite E in Hon). destruct (Normalize_spec its Hok Hne Ha) as (_ & Hc & H).
    split; [exact Hc|]. intros p Hp. rewrite H by done. unfold denotes. by rewrite Ha, Hon, andb_false_r. }
  clearbody its. revert Hp. generalize (PortObjectNormalize its).2. intros n Hp. case_bool_decide as E.
  - split; [by split|]. intros Hok Hon Ha. destruct (Hp Hok Hon Ha) as [_ Hpp]. rewrite E in Hpp. cbn [from_option].
    split; [intros p H; by rewrite <- Hpp|]. split; [|done]. intros _ p H. by rewrite <- Hpp.
  - cbn [item_list set_items name PortObjectSetName from_option]. rewrite add_object. cbn [app]. split; [by split|].
    intros Hok Hon Ha. destruct (Hp Hok Hon Ha) as [Hc Hpp]. split; [exact Hpp|]. split; [done|]. intros Hno. exfalso.
    destruct n as [|i n]; [done|]. destruct Hc as (Hn & Hr & Hh & _). assert (0 <= lport i < SFPO_MAX_PORTS) as Hi by (unfold SFPO_MAX_PORTS in *; lia). specialize (Hno _ Hi). rewrite <- Hpp in Hno by done.
    assert (listed false (i :: n) (lport i) = true) as Ht by (apply listed_true; exists i; split; [left|split; [done|lia]]). congruence.
Qed.

(** Ports 80 to 90 without 85, and the variable [p]. *)
Definition demo_elements : list (bool * element) := [(false, Ports [56; 48] (Some [57; 48])); (true, Ports [56; 53] None); (false, PortVar [112])].
Definition demo_var (nm : text) : option PortObject := if bool_decide (nm = [112]) then Some (MkPO (Some [112]) 0 [MkItem false 8080 8080] []) else None.

Lemma demo_elements_ok : Forall (fun x => element_ok demo_var x.2) demo_elements.
Proof.
  assert (number_ok [56; 48] /\ number_ok [57; 48] /\ number_ok [56; 53]) as (H1 & H2 & H3).
  { split_and!; (split; [repeat constructor; unfold is_digit; lia|split; [cbn; lia|vm_compute; done]]). }
  repeat apply Forall_cons_2; [| | |constructor]; cbn [snd element_ok].
  - split_and!; [done|done|right; vm_compute; done].
  - by split.
  - exists 112, []. split_and!; try done.
Qed.

Lemma port_text_parsed_witness :
  port_text (Some false) demo_elements = [91; 56; 48; 58; 57; 48; 44; 33; 56; 53; 44; 36; 112; 93] /\
  from_option (fun po => listed false (item_list po) 86) false (PortObjectParseString demo_var None (port_text (Some false) demo_elements) false).1 = true /\
  from_option (fun po => listed false (item_list po) 85) false (PortObjectParseString demo_var None (port_text (Some false) demo_elements) false).1 = false.
Proof.
  split; [reflexivity|].
  pose proof (port_text_parsed demo_var None (Some false) demo_elements demo_elements_ok) as H. revert H.
  destruct (PortObjectParseString demo_var None (port_text (Some false) demo_elements) false) as [po pop]. intros [_ H]. cbn [fst].
  assert (items_ok (written_items demo_var (Some false) demo_elements)) as Hok by (repeat constructor; cbn; lia).
  destruct (H Hok eq_refl eq_refl) as [Hp _]. split; [rewrite (Hp 86)|rewrite (Hp 85)]; try done; reflexivity.
Defined.

(** ** From text to packets *)

(** Whatever variables and rules are read, in any order: a rule whose ports
    match a packet, in the direction of the rule or, if it is bidirectional, in
    the other, is in a group that is selected for the packet, among the rules of
    the packet's protocol and those for IP.  The port tables are those into which
    the rules are entered, compiled, and made into groups and a map; no more than
    500 port lists of one direction may have a port and some port must be in
    none. *)
Theorem configured_rules_selected hv alloc e l otn_of split hp hx hr single limit q dport sport :
  configured hv alloc e l -> (forall i j, alloc i = alloc j -> i = j) -> Zlen l + 1 < 4294967296 ->
  table_fits (src_table (proto_of (add_port_rules alloc single limit l) q)) ->
  table_fits (dst_table (proto_of (add_port_rules alloc single limit l) q)) -> is_u16 dport -> is_u16 sport ->
  exists prm, fpCreateRuleMap otn_of split hp hx hr (proto_of (add_port_rules alloc single limit l) q) = Some prm /\
    forall r, r ∈ l -> r_proto r <> SNORT_PROTO_OTHER -> r_proto r = q \/ r_proto r = SNORT_PROTO_IP ->
      added otn_of (ruleIndex r) = true -> ports_match r dport sport = true ->
      selected (prmFindRuleGroup Zlen split (Some prm) dport sport) (ruleIndex r).
Proof.
  intros [_ Hl]%configured_ok Hinj Hlen Fs Fd Hdp Hsp.
  destruct (rules_selected otn_of split hp hx hr alloc single limit l q dport sport Hinj) as (prm & Hprm & H); try done.
  - eapply Forall_impl; [exact Hl|]. apply rule_read_ok.
  - exists prm. split; [exact Hprm|]. intros r Hr Hno Hq. apply H; [exact Hr|]. split; [exact Hno|]. destruct Hq as [Hq|Hip]; [by left|right].
    rewrite Forall_forall in Hl. destruct (rr_ip r (Hl r Hr) (or_introl Hip)) as [E1 E2]. split; [done|]. unfold to_any_any. by rewrite E1, E2.
Qed.

(** A list in normal form stays as it is. *)
Lemma Normalize_canonical l : canonical 0 l -> l <> [] -> PortObjectHasAny l = false -> (PortObjectNormalize l).2 = l.
Proof.
  intros Hc Hne Ha. destruct (Normalize_spec l (canonical_ok l Hc) Hne Ha) as (_ & Hcan & Hl). apply (canonical_unique _ _ 0 Hcan Hc). intros p.
  destruct (decide (0 <= p < SFPO_MAX_PORTS)) as [Hp|Hp]; [rewrite Hl by done; by apply (canonical_denotes 0)|].
  transitivity false; [|symmetry]; apply not_true_iff_false; intros H%canonical_range; done.
Qed.

(** *** A variable, rules to it, from and to 20:22 and for any IP packet *)

Definition text_to : text := [45; 62].
Definition text_both : text := [60; 62].
Definition demo_p : PortObject := MkPO (Some [112]) 0 [MkItem false 80 80; MkItem false 85 90] [].
Definition demo_ftp : PortObject := MkPO (Some name_noname) 0 [MkItem false 20 22] [].
Definition any_object : PortObject := PortObjectAddPortAny PortObjectNew.
Definition demo_table : PortVarTable := (PortVarTableAdd hashfcn_static (PortVarTableCreate hashfcn_static) demo_p).2.
Definition demo_env (t : PortTable) (n : nat) : ports_env := MkEnv demo_table t n.
Definition demo_rule0 : port_rule := MkRule ANY_SRC_PORT any_object demo_p 0 SNORT_PROTO_TCP.
Definition demo_rule1 : port_rule := MkRule (Z.lor ANY_SRC_PORT BIDIRECTIONAL) any_object demo_ftp 1 SNORT_PROTO_TCP.
Definition demo_rule2 : port_rule := MkRule (Z.lor ANY_SRC_PORT ANY_DST_PORT) any_object any_object 2 SNORT_PROTO_IP.

Lemma parsed_canonical find_var nm s l pop : _POParseString find_var (POParserInit s) = (Some l, pop) -> canonical 0 l -> l <> [] -> PortObjectHasAny l = false ->
  PortObjectParseString find_var nm s false = (Some (MkPO (Some (default name_noname nm)) 0 l []), pop).
Proof.
  intros E Hc Hne Ha. unfold PortObjectParseString. rewrite E, Normalize_canonical by done. rewrite bool_decide_false by done. by rewrite add_object.
Qed.

Lemma demo_defined : PortVarDefine hashfcn_static (PortVarTableCreate hashfcn_static) [112] [91; 56; 48; 44; 56; 53; 58; 57; 48; 93] = Some (demo_table, 0).
Proof.
  unfold PortVarDefine. change (SnortStrcasestr [91; 56; 48; 44; 56; 53; 58; 57; 48; 93] 97 [110; 121]) with false. cbv iota.
  erewrite parsed_canonical; [|vm_compute; reflexivity|cbn; unfold SFPO_MAX_PORTS; repeat split; lia|done|done]. reflexivity.
Qed.

Lemma demo_read0 : parse_rule_header hashfcn_static Z.of_nat (demo_env PortTableNew 0) text_tcp name_any text_to [36; 112] 0 = Some (demo_rule0, demo_env PortTableNew 0).
Proof. vm_compute. reflexivity. Qed.

Lemma demo_read1 : parse_rule_header hashfcn_static Z.of_nat (demo_env PortTableNew 0) text_tcp name_any text_both [50; 48; 58; 50; 50] 1 =
  Some (demo_rule1, demo_env (PortTableAddObject PortTableNew 0 demo_ftp) 1).
Proof.
  unfold parse_rule_header. change (parse_rule_proto text_tcp) with (SNORT_PROTO_TCP, PROTO_BIT__TCP). cbv iota beta.
  replace (ParsePortList hashfcn_static Z.of_nat (demo_env PortTableNew 0) PROTO_BIT__TCP 0 name_any false)
    with (Some (inr (1, any_object, demo_env PortTableNew 0)) : option (unit + _)) by (vm_compute; reflexivity).
  cbn [mbind option_bind]. change (parse_rule_dir text_both 1) with (Some 9). cbn [mbind option_bind].
  assert (ParsePortListTcpUdpPort hashfcn_static Z.of_nat (demo_env PortTableNew 0) [50; 48; 58; 50; 50] =
    Some (demo_ftp, demo_env (PortTableAddObject PortTableNew 0 demo_ftp) 1)) as E.
  { unfold ParsePortListTcpUdpPort. rewrite (parsed_canonical _ _ _ [MkItem false 20 22] (MkPop [50; 50; 58; 48; 50] [] 5 [] 0));
      [reflexivity|vm_compute; reflexivity|cbn; unfold SFPO_MAX_PORTS; repeat split; lia|done|done]. }
  unfold ParsePortList. rewrite E. reflexivity.
Qed.

Lemma demo_read2 t n : parse_rule_header hashfcn_static Z.of_nat (demo_env t n) text_ip name_any text_to name_any 2 = Some (demo_rule2, demo_env t n).
Proof. vm_compute. reflexivity. Qed.

Lemma demo_configured : configured hashfcn_static Z.of_nat (demo_env (PortTableAddObject PortTableNew 0 demo_ftp) 1) [demo_rule0; demo_rule1; demo_rule2].
Proof.
  pose proof (configured_var hashfcn_static Z.of_nat _ _ _ _ _ _ (configured_new _ _) demo_defined) as H0.
  pose proof (configured_rule _ _ _ _ _ _ _ _ 0 _ _ H0 ltac:(lia) demo_read0) as H1.
  pose proof (configured_rule _ _ _ _ _ _ _ _ 1 _ _ H1 ltac:(lia) demo_read1) as H2.
  exact (configured_rule _ _ _ _ _ _ _ _ 2 _ _ H2 ltac:(lia) (demo_read2 _ _)).
Qed.

Abbreviation demo_text_rules := [demo_rule0; demo_rule1; demo_rule2].
Abbreviation demo_tables := (proto_of (add_port_rules Z.of_nat false 1024 demo_text_rules) SNORT_PROTO_TCP).

Lemma demo_fits t : pt_polist t = pt_polist (dst_table demo_tables) \/ pt_polist t = pt_polist (src_table demo_tables) -> table_fits t.
Proof.
  intros Ht. assert (exists l, pt_polist t = l /\ (length l <= 2)%nat /\ users l 0 = []) as (l & E & Hl & H0).
  { destruct Ht as [-> | ->]; (eexists; split; [vm_compute; reflexivity|split; [cbn; lia|reflexivity]]). }
  rewrite <- E in *. split.
  - intros i. unfold users. rewrite length_map. pose proof (List.filter_length_le (fun x => listed false (item_list x.2) i) (pt_polist t)).
    unfold SFPO_MAX_LPORTS. lia.
  - exists 0. by split.
Qed.

Lemma demo_text_match : Forall (fun r => r_proto r <> SNORT_PROTO_OTHER /\ (r_proto r = SNORT_PROTO_TCP \/ r_proto r = SNORT_PROTO_IP) /\ ports_match r 85 21 = true) demo_text_rules.
Proof. repeat constructor; try done; try (by left); by right. Qed.

Lemma configured_rules_selected_witness : exists prm,
  fpCreateRuleMap demo_otn false hashfcn_static hashfcn_static (fun _ => hashfcn_static) demo_tables = Some prm /\
  forall idx, idx ∈ [0; 1; 2] -> selected (prmFindRuleGroup Zlen false (Some prm) 85 21) idx.
Proof.
  destruct (configured_rules_selected hashfcn_static Z.of_nat _ _ demo_otn false hashfcn_static hashfcn_static (fun _ => hashfcn_static) false 1024 SNORT_PROTO_TCP 85 21
    demo_configured) as (prm & Hprm & H).
  - intros i j. apply Nat2Z.inj.
  - reflexivity.
  - apply demo_fits. right. exact eq_refl.
  - apply demo_fits. left. exact eq_refl.
  - unfold is_u16. lia.
  - unfold is_u16. lia.
  - exists prm. split; [exact Hprm|]. intros idx Hidx. pose proof demo_text_match as Hall. rewrite Forall_forall in Hall.
    assert (idx ∈ map ruleIndex demo_text_rules) as Hin by exact Hidx.
    apply list_elem_of_In, List.in_map_iff in Hin as (r & <- & Hr%list_elem_of_In). destruct (Hall r Hr) as (H1 & H2 & H3).
    exact (H r Hr H1 H2 eq_refl H3).
Defined.

(** ** Corner cases *)

(** A number of more than 32 bits is cut off: 4294967376 is port 80. *)
Example large_number_is_port : (POParserGetShort (POParserInit [52; 50; 57; 52; 57; 54; 55; 51; 55; 54])).1 = 80.
Proof. vm_compute. reflexivity. Qed.

(** A variable whose text has the letters of "any" in it, here [$company], has
    all ports. *)
Example any_inside_name : exists h, PortVarDefine hashfcn_static (PortVarTableCreate hashfcn_static) [112] [36; 99; 111; 109; 112; 97; 110; 121] = Some (h, 0) /\
  item_list <$> PortVarTableFind hashfcn_static h [112] = Some [MkItem false 0 65535].
Proof. eexists. split; [reflexivity|]. vm_compute. reflexivity. Qed.

(** Two lists side by side are refused: the first bracket is closed by the last
    one. *)
Example two_lists : (_POParseString (fun _ => None) (POParserInit [91; 56; 48; 93; 44; 91; 57; 48; 93])).1 = None /\
  errflag (_POParseString (fun _ => None) (POParserInit [91; 56; 48; 93; 44; 91; 57; 48; 93])).2 = POPERR_EXTRA_BRACKET.
Proof. vm_compute. done. Qed.

(** A list of exceptions alone, here [!80], is read as all the other ports; the
    error text for such lists in a rule, for pure NOT ports, is never given,
    because [PortObjectIsPureNot] looks at the normalised list. *)
Example pure_negation_accepted :
  (item_list <$> (PortObjectParseString (fun _ => None) None [33; 56; 48] false).1) = Some [MkItem false 0 79; MkItem false 81 65535] /\ PortObjectIsPureNot [MkItem true 80 80] = true /\ PortObjectIsPureNot [MkItem false 0 79; MkItem false 81 65535] = false.
Proof. split_and!; vm_compute; reflexivity. Qed.

(** [[]] has all ports. *)
Lemma empty_list_any find_var nm : from_option item_list [] (PortObjectParseString find_var nm [91; 93] false).1 = [MkItem false 0 65535].
Proof.
  unfold PortObjectParseString. replace (_POParseString find_var (POParserInit [91; 93])) with (Some ([] : items), MkPop [93; 91] [] 2 [] 0) by reflexivity.
  cbv beta iota zeta. pose proof (proj2 empty_becomes_any) as E. revert E. generalize (PortObjectNormalize []).2. by intros n ->.
Qed.
