(* ===== verification/ParseStream.v ===== *)
(** * ParseStream: the text of rules (parser/parse_stream.cc)

    The scanner, the state table and the loop that turns the text of a rule file
    into calls of the rule parser.  Text is a list of character codes; the
    numbers that are only counted for statistics and messages are left out. *)

From S2P Require Import Prelude Extract ParseUtils PortParse.

Abbreviation text := (list Z).

(** The codes of a string constant. *)
Fixpoint codes (s : string) : text :=
  match s with
  | EmptyString => []
  | String c s => Z.of_nat (Ascii.nat_of_ascii c) :: codes s
  end.

(** ** The scanner *)

Inductive TokenType := TT_NONE | TT_PUNCT | TT_STRING | TT_LIST | TT_LITERAL.

#[export] Instance TokenType_eq_dec : EqDecision TokenType.
Proof. solve_decision. Defined.

Definition tt_is (a b : TokenType) : bool :=
  match a, b with
  | TT_NONE, TT_NONE | TT_PUNCT, TT_PUNCT | TT_STRING, TT_STRING | TT_LIST, TT_LIST | TT_LITERAL, TT_LITERAL => true
  | _, _ => false
  end.

Definition unescape (c : Z) : Z :=
  if c =? 97 then 7 else if c =? 98 then 8 else if c =? 102 then 12 else if c =? 110 then 10
  else if c =? 114 then 13 else if c =? 116 then 9 else if c =? 118 then 11 else c.

Definition isupper (c : Z) : bool := (65 <=? c) && (c <=? 90).
Definition to_hex (c : Z) : Z := u8 (if isdigit c then c - 48 else if isupper c then 10 + c - 65 else 10 + c - 97).

(** The states 0 to 16 of [get_token]. *)
Inductive scan_state :=
  | Idle | LineComment | InList | InString | QuotedEscape | UnquotedEscape | InToken | NotString | BeginBlock | TokenEscape
  | MaybeComment | BlockComment | BlockCommentEnd | CommentString | HexFirst | HexSecond | RawEscape.

Definition strchr (s : text) (c : Z) : bool := (c =? 0) || existsb (Z.eqb c) s.

(** After a character: another state with the token so far, the depth of
    brackets and the hexadecimal digit; or the token, with the character if it
    is to be read again. *)
Inductive scanned := Go (st : scan_state) (s : text) (list_ hex : Z) | Token (t : TokenType) (s : text) (prev : option Z).

Definition scan_char (punct : text) (esc pos : Z) (st : scan_state) (s : text) (list_ hex c : Z) : scanned :=
  let go st s := Go st s list_ hex in
  let token_char :=
    if negb (esc =? 0) && (c =? 92) then go TokenEscape s
    else if isspace c || strchr punct c then Token TT_LITERAL s (Some c)
    else go InToken (s ++ [c]) in
  match st with
  | Idle =>
      if strchr punct c then Token TT_PUNCT [c] None
      else if c =? 35 then go LineComment [c]
      else if c =? 47 then go MaybeComment [c]
      else if c =? 91 then Go InList (s ++ [c]) 1 hex
      else if c =? 34 then go InString (s ++ [c])
      else if c =? 33 then go NotString (s ++ [c])
      else if c =? 92 then go UnquotedEscape s
      else if negb (isspace c) then go InToken (s ++ [c])
      else go Idle s
  | LineComment =>
      if c =? 10 then go Idle []
      else if Zlen s <? 6 then
        go (if (pos =? 6) && strcasecmp (s ++ [c]) (codes "#begin") then BeginBlock else LineComment) (s ++ [c])
      else go LineComment s
  | InList =>
      let s := s ++ [c] in
      let list_ := if c =? 91 then list_ + 1 else if c =? 93 then list_ - 1 else list_ in
      if list_ =? 0 then Token TT_LIST s None else Go InList s list_ hex
  | InString =>
      if negb (esc =? 0) && (c =? 34) then Token TT_STRING (s ++ [c]) None
      else if (esc =? 0) && (c =? 59) then Token TT_STRING s (Some c)
      else if c =? 92 then go (if esc >? 0 then QuotedEscape else RawEscape) s
      else if c =? 10 then go InString s
      else go InString (s ++ [c])
  | QuotedEscape => if c =? 120 then go HexFirst s else go InString (s ++ [unescape c])
  | UnquotedEscape => go Idle s
  | InToken => token_char
  | NotString =>
      if c =? 34 then go InString (s ++ [c])
      else if isspace c || strchr punct c then Token TT_LITERAL s (Some c)
      else go InToken (s ++ [c])
  | BeginBlock =>
      if c =? 10 then go BeginBlock []
      else if Zlen s <? 4 then go (if strcasecmp (s ++ [c]) (codes "#end") then LineComment else BeginBlock) (s ++ [c])
      else go BeginBlock s
  | TokenEscape => go InToken (s ++ [c])
  | MaybeComment => if c =? 42 then go BlockComment [] else token_char
  | BlockComment => go (if c =? 42 then BlockCommentEnd else if c =? 34 then CommentString else BlockComment) s
  | BlockCommentEnd => go (if c =? 47 then Idle else BlockCommentEnd) s
  | CommentString => go (if (c =? 34) || (c =? 10) then BlockComment else CommentString) s
  | HexFirst => if isxdigit c then Go HexSecond s list_ (to_hex c) else go InString (s ++ [c])
  | HexSecond =>
      if isxdigit c then
        let hex := u8 (Z.lor (u8 (Z.shiftl hex 4)) (to_hex c)) in Go InString (s ++ [hex]) list_ hex
      else go InString (s ++ [hex; c])
  | RawEscape => go InString (s ++ [92; c])
  end.

(** [prev]: the character to be read again; [pos]: the column. *)
Record scanner := MkScan { prev : option Z; col : Z }.

Fixpoint scan (punct : text) (esc : Z) (input : text) (st : scan_state) (s : text) (list_ hex pos : Z) : TokenType * text * scanner * text :=
  match input with
  | [] => (TT_NONE, s, MkScan None pos, [])
  | c :: input =>
      let pos := if c =? 10 then 0 else pos + 1 in
      match scan_char punct esc pos st s list_ hex c with
      | Token t s p => (t, s, MkScan p pos, input)
      | Go st s list_ hex => scan punct esc input st s list_ hex pos
      end
  end.

Definition get_token (sc : scanner) (input : text) (punct : text) (esc : Z) : TokenType * text * scanner * text :=
  scan punct esc (match prev sc with Some c => c :: input | None => input end) Idle [] 0 0 (col sc).

(** ** The state table *)

Inductive FsmAction :=
  | FSM_ACT | FSM_PRO | FSM_HDR | FSM_SIP | FSM_SP | FSM_SPX | FSM_DIR | FSM_DIP | FSM_DP | FSM_DPX | FSM_SOB | FSM_STB | FSM_EOB
  | FSM_KEY | FSM_OPT | FSM_VAL | FSM_SET | FSM_ADD | FSM_INC | FSM_END | FSM_NOP | FSM_ERR.

#[export] Instance FsmAction_eq_dec : EqDecision FsmAction.
Proof. solve_decision. Defined.

Record State := MkState { num : Z; next : Z; type : TokenType; action : FsmAction; match_ : option string; punct_ : option string }.

Definition fsm : list State :=
  [ MkState (-1) 0 TT_NONE FSM_ERR None (Some "");
    MkState 0 15 TT_LITERAL FSM_KEY (Some "include") (Some "");
    MkState 0 1 TT_LITERAL FSM_ACT None (Some "(");
    MkState 1 8 TT_PUNCT FSM_STB (Some "(") (Some "(:,;)");
    MkState 1 2 TT_LITERAL FSM_PRO None (Some "(");
    MkState 2 8 TT_PUNCT FSM_HDR (Some "(") (Some "(:,;)");
    MkState 2 3 TT_LIST FSM_SIP None (Some "");
    MkState 2 3 TT_LITERAL FSM_SIP None (Some "");
    MkState 3 5 TT_LITERAL FSM_SPX (Some "->") None;
    MkState 3 5 TT_LITERAL FSM_SPX (Some "<>") None;
    MkState 3 4 TT_LIST FSM_SP None None;
    MkState 3 4 TT_LITERAL FSM_SP None None;
    MkState 4 5 TT_LITERAL FSM_DIR None None;
    MkState 5 6 TT_LIST FSM_DIP None (Some "(");
    MkState 5 6 TT_LITERAL FSM_DIP None (Some "(");
    MkState 6 8 TT_PUNCT FSM_DPX (Some "(") (Some "(:,;)");
    MkState 6 7 TT_LIST FSM_DP None (Some "(:,;)");
    MkState 6 7 TT_LITERAL FSM_DP None (Some "(:,;)");
    MkState 7 8 TT_PUNCT FSM_SOB (Some "(") None;
    MkState 8 0 TT_PUNCT FSM_EOB (Some ")") None;
    MkState 8 13 TT_LITERAL FSM_KEY (Some "metadata") None;
    MkState 8 16 TT_LITERAL FSM_KEY (Some "reference") (Some ":;");
    MkState 8 9 TT_LITERAL FSM_KEY None None;
    MkState 9 8 TT_PUNCT FSM_END (Some ";") None;
    MkState 9 10 TT_PUNCT FSM_NOP (Some ":") None;
    MkState 10 12 TT_STRING FSM_OPT None None;
    MkState 10 11 TT_LITERAL FSM_OPT None None;
    MkState 11 12 TT_STRING FSM_VAL None None;
    MkState 11 12 TT_LITERAL FSM_VAL None None;
    MkState 11 8 TT_PUNCT FSM_END (Some ";") None;
    MkState 11 0 TT_PUNCT FSM_EOB (Some ")") (Some "");
    MkState 11 10 TT_PUNCT FSM_SET (Some ",") None;
    MkState 12 8 TT_PUNCT FSM_END (Some ";") None;
    MkState 12 0 TT_PUNCT FSM_EOB (Some ")") (Some "");
    MkState 12 10 TT_PUNCT FSM_SET (Some ",") None;
    MkState 13 14 TT_PUNCT FSM_NOP (Some ":") None;
    MkState 14 8 TT_PUNCT FSM_END (Some ";") (Some "(:,;)");
    MkState 14 14 TT_NONE FSM_SET (Some ",") None;
    MkState 14 14 TT_NONE FSM_ADD None None;
    MkState 15 0 TT_LITERAL FSM_INC None None;
    MkState 16 14 TT_PUNCT FSM_NOP (Some ":") (Some ";") ]%string.
Definition fsm0 : State := MkState (-1) 0 TT_NONE FSM_ERR None (Some ""%string).

Definition state_matches (n : Z) (t : TokenType) (tok : text) (s : State) : bool :=
  (n =? num s) && (tt_is (type s) TT_NONE || tt_is t (type s)) &&
  match match_ s with None => true | Some m => bool_decide (tok = codes m) end.

(** The entry, and whether there was none. *)
Definition get_state (n : Z) (t : TokenType) (tok : text) : State * bool :=
  match List.find (state_matches n t tok) fsm with
  | Some s => (s, false)
  | None => (fsm0, true)
  end.

(** ** Calls *)

(** The calls of the rule parser, with the strings they are given. *)
Inductive call :=
  | C_type (s : text) | C_proto (s : text) | C_nets (s : text) (src : bool) | C_ports (s : text) (src : bool) | C_dir (s : text)
  | C_open (stub : bool) | C_close | C_opt_begin (key : text) | C_opt_set (key opt val : text) | C_opt_end (key : text)
  | C_include (s : text) | C_reset_options | C_error (s : text).

Record RuleParseState := MkRps { key : text; opt : text; val : text; tbd : bool }.

(** A string as a C string: what a callee sees of it. *)
Fixpoint c_str (s : text) : text :=
  match s with
  | [] => []
  | c :: s => if c =? 0 then [] else c :: c_str s
  end.

Definition opt_set (r : RuleParseState) : call := C_opt_set (c_str (key r)) (c_str (opt r)) (c_str (val r)).

(** The action [FSM_END]. *)
Definition opt_end (r : RuleParseState) : list call * RuleParseState :=
  ((if bool_decide (opt r = []) then [] else [opt_set r]) ++ [C_opt_end (c_str (key r))], MkRps (key r) [] [] false).

Definition any_ : text := codes "any".

(** All of [exec] but the body of a rule stub and an included file, which the
    loop below reads; the last result ends the parser. *)
Definition exec (act : FsmAction) (tok : text) (r : RuleParseState) : list call * RuleParseState * bool :=
  match act with
  | FSM_ACT => if bool_decide (tok = codes "END") then ([], r, true) else ([C_type (c_str tok)], r, false)
  | FSM_PRO => ([C_proto (c_str tok)], r, false)
  | FSM_HDR => ([C_nets any_ true; C_ports any_ true; C_dir (codes "->"); C_nets any_ false; C_ports any_ false; C_open false], r, false)
  | FSM_SIP => ([C_nets (c_str tok) true], r, false)
  | FSM_SP => ([C_ports (c_str tok) true], r, false)
  | FSM_SPX => ([C_ports any_ true; C_dir (c_str tok)], r, false)
  | FSM_DIR => ([C_dir (c_str tok)], r, false)
  | FSM_DIP => ([C_nets (c_str tok) false], r, false)
  | FSM_DP => ([C_ports (c_str tok) false], r, false)
  | FSM_DPX => ([C_ports any_ false; C_open false], r, false)
  | FSM_SOB => ([C_open false], r, false)
  | FSM_STB => ([C_open true], r, false)
  | FSM_EOB => let '(l, r) := if tbd r then opt_end r else ([], r) in (l ++ [C_close], r, false)
  | FSM_KEY => (if bool_decide (tok = codes "include") then [] else [C_opt_begin (c_str tok)], MkRps tok [] [] true, false)
  | FSM_OPT => ([], MkRps (key r) tok [] true, false)
  | FSM_VAL => ([], MkRps (key r) (opt r) tok true, false)
  | FSM_SET => ([opt_set r], MkRps (key r) [] [] false, false)
  | FSM_END => let '(l, r) := opt_end r in (l, r, false)
  | FSM_ADD =>
      if bool_decide (opt r = []) then ([], MkRps (key r) tok (val r) true, false)
      else ([], MkRps (key r) (opt r) ((if bool_decide (val r = []) then [] else val r ++ [32]) ++ tok) true, false)
  | FSM_INC => ([C_include (c_str tok)], r, false)
  | FSM_NOP | FSM_ERR => ([], r, false)
  end.

Definition get_escape (s : text) : Z :=
  if bool_decide (s = codes "pcre") then 0
  else if bool_decide (s = codes "regex") || bool_decide (s = codes "sd_pattern") then -1
  else 1.

Section Stream.
(** The options of the shared object for a stub that was closed after these
    calls ([parse_rule_close]); what reading an included file leaves of the
    scanner's static variables. *)
Variable extra : list call -> option text.
Variable included : text -> scanner -> scanner.

(** The loops of [parse_stream] and [parse_body]; what ends them is the end of
    the input, or "END" outside of a body.  A body is read by a nested loop;
    [None]: the fuel, one for every token, is used up. *)
Fixpoint parse_loop (fuel : nat) (body : bool) (sc : scanner) (input : text) (n : Z) (punct : text) (esc : Z) (r : RuleParseState) (out : list call) :
  option (list call * Z * RuleParseState * scanner) :=
  match fuel with
  | O => None
  | S fuel =>
      let '(t, tok, sc, input) := get_token sc input punct esc in
      if tt_is t TT_NONE then Some (out, n, r, sc)
      else
        let '(s, bad) := get_state n t tok in
        let '(calls, r, stop) := exec (action s) tok r in
        let out := out ++ (if bad then [C_error (codes "syntax error")] else []) ++ calls in
        let continue r sc out :=
          if stop && negb body then Some (out, n, r, sc)
          else parse_loop fuel body sc input (next s) (match punct_ s with Some p => codes p | None => punct end) (get_escape (key r)) r out in
        match action s with
        | FSM_EOB =>
            match extra out with
            | None => continue r sc out
            | Some b =>
                match parse_loop fuel true sc b 8 (codes "(:,;)") 1 r (out ++ [C_reset_options]) with
                | Some (out, _, r, sc) => continue r sc out
                | None => None
                end
            end
        | FSM_INC => continue r (included (c_str tok) sc) out
        | _ => continue r sc out
        end
  end.

(** [tbd0]: [RuleParseState] does not initialise the flag. *)
Definition parse_stream (fuel : nat) (tbd0 : bool) (input : text) : option (list call) :=
  match parse_loop fuel false (MkScan None 0) input 0 [] 1 (MkRps [] [] [] tbd0) [] with
  | Some (out, n, _, _) => Some (out ++ (if n =? 0 then [] else [C_error (codes "incomplete rule")]))
  | None => None
  end.
End Stream.

Abbreviation no_extra := (fun _ : list call => @None text).
Abbreviation no_include := (fun (_ : text) (sc : scanner) => sc).

Example small_rule : parse_stream no_extra no_include 20 true (codes "alert tcp any any -> any 80 ( sid:1; )") =
  Some [C_type (codes "alert"); C_proto (codes "tcp"); C_nets any_ true; C_ports any_ true; C_dir (codes "->"); C_nets any_ false; C_ports (codes "80") false;
   C_open false; C_opt_begin (codes "sid"); C_opt_set (codes "sid") (codes "1") []; C_opt_end (codes "sid"); C_close].
Proof. vm_compute. reflexivity. Qed.

(** ** Tokens *)

(** What is to be read, including the character that is read again. *)
Definition ahead (sc : scanner) (input : text) : text := match prev sc with Some c => c :: input | None => input end.

(** All punctuation; every state uses a part of it. *)
Definition all_punct : text := codes "(:,;)".
Definition some_punct (punct : text) : Prop := forall c, c ∈ punct -> c ∈ all_punct.

Lemma strchr_sub punct P c : (forall x, x ∈ punct -> x ∈ P) -> strchr P c = false -> strchr punct c = false.
Proof.
  intros Hs. unfold strchr. intros [-> H]%orb_false_iff. cbn [orb]. apply not_true_iff_false. intros (x & Hx%list_elem_of_In & E)%existsb_exists.
  apply Hs in Hx. apply not_true_iff_false in H. apply H, existsb_exists. exists x. split; [by apply list_elem_of_In|done].
Qed.

Lemma space_not_punct punct c : some_punct punct -> isspace c = true -> strchr punct c = false.
Proof.
  intros Hp Hc. apply (strchr_sub _ all_punct); [exact Hp|]. apply not_true_iff_false. intros Ht. unfold strchr in Ht. cbn in Ht.
  repeat (apply orb_prop in Ht as [Ht|Ht]); try (apply Z.eqb_eq in Ht; subst c; vm_compute in Hc; discriminate). discriminate.
Qed.

(** One or more characters that leave the scanner in the given state. *)
Definition goes (punct : text) (esc : Z) (st : scan_state) (s v : text) (st' : scan_state) (s' v' : text) : Prop :=
  forall pos, exists pos', scan punct esc v st s 0 0 pos = scan punct esc v' st' s' 0 0 pos'.

Lemma goes_refl punct esc st s v : goes punct esc st s v st s v.
Proof. intros pos. by exists pos. Qed.
Lemma goes_trans punct esc a s v b s' v' c s'' v'' :
  goes punct esc a s v b s' v' -> goes punct esc b s' v' c s'' v'' -> goes punct esc a s v c s'' v''.
Proof. intros H1 H2 pos. destruct (H1 pos) as [p1 ->]. apply H2. Qed.
Lemma goes_char punct esc st s c v st' s' : (forall pos, scan_char punct esc pos st s 0 0 c = Go st' s' 0 0) ->
  goes punct esc st s (c :: v) st' s' v.
Proof. intros H pos. cbn [scan]. rewrite H. by eexists. Qed.

Ltac go_char := eapply goes_trans; [apply goes_char; intros ?; cbn [scan_char]|].

(** The text of a block comment up to the star that may end it: characters other
    than stars and quotes, and strings, which a line break ends too. *)
Inductive commented : text -> Prop :=
  | CM_nil : commented []
  | CM_char c s : c <> 42 -> c <> 34 -> commented s -> commented (c :: s)
  | CM_string t c s : 34 ∉ t -> 10 ∉ t -> c = 34 \/ c = 10 -> commented s -> commented (34 :: t ++ c :: s).

Definition lines_of (ls : list text) : text := ls ≫= (fun l => l ++ [10]).

(** Between tokens: blanks, line breaks behind a backslash, and comments: a line;
    a block, in which no slash follows a star but the one that ends it; the lines
    from one that starts with #begin to one that starts with #end. *)
Inductive filler : text -> Prop :=
  | F_nil : filler []
  | F_space c f : isspace c = true -> filler f -> filler (c :: f)
  | F_continue f : filler f -> filler (92 :: 10 :: f)
  | F_line s f : 10 ∉ s -> strcasecmp (take 5 s) (codes "begin") = false -> filler f -> filler (35 :: s ++ 10 :: f)
  | F_block s t f : commented s -> 47 ∉ t -> last (42 :: t) = Some 42 -> filler f -> filler (47 :: 42 :: s ++ 42 :: t ++ 47 :: f)
  | F_begin b s ls e t f : strcasecmp b (codes "#begin") = true -> 10 ∉ s -> Forall (fun l => 10 ∉ l /\ strcasecmp (take 4 l) (codes "#end") = false) ls ->
      strcasecmp e (codes "#end") = true -> 10 ∉ t -> filler f -> filler (10 :: b ++ s ++ 10 :: lines_of ls ++ e ++ t ++ 10 :: f).

Lemma not_punct punct c : some_punct punct -> strchr all_punct c = false -> strchr punct c = false.
Proof. intros Hp. by apply strchr_sub. Qed.

Lemma skip_space punct esc c v : some_punct punct -> isspace c = true -> goes punct esc Idle [] (c :: v) Idle [] v.
Proof.
  intros Hp Hc. apply goes_char. intros ?. cbn [scan_char]. rewrite (space_not_punct _ _ Hp Hc), Hc. cbn [negb].
  assert (forall n, isspace n = false -> (c =? n) = false) as Hn.
  { intros n Hn. apply Z.eqb_neq. congruence. }
  by rewrite !Hn.
Qed.

Lemma skip_line punct esc s v : 10 ∉ s -> forall acc, acc <> [] -> strcasecmp (take 6 (acc ++ s)) (codes "#begin") = false ->
  goes punct esc LineComment acc (s ++ 10 :: v) Idle [] v.
Proof.
  induction s as [|c s IH]; intros Hn acc Ha Hb; cbn [app].
  - apply goes_char. intros ?. reflexivity.
  - apply not_elem_of_cons in Hn as [Hc Hn].
    assert (forall pos, scan_char punct esc pos LineComment acc 0 0 c = Go LineComment (if Zlen acc <? 6 then acc ++ [c] else acc) 0 0) as E.
    { intros pos. cbn [scan_char]. bcase (c =? 10) as E1; [congruence|]. bcase (Zlen acc <? 6) as E2; [|done].
      unfold strcasecmp. case_bool_decide as E3; [|by rewrite andb_false_r].
      assert (length (acc ++ [c]) = 6%nat) as L by (apply (f_equal length) in E3; rewrite !length_map in E3; exact E3).
      rewrite cons_middle, app_assoc, take_app_length' in Hb by done. unfold strcasecmp in Hb. by apply bool_decide_eq_false in Hb. }
    eapply goes_trans; [apply goes_char, E|]. apply (IH Hn); [destruct (Zlen acc <? 6); [by destruct acc|done]|].
    bcase (Zlen acc <? 6) as E2; [by rewrite <- app_assoc|].
    rewrite take_app_le by (unfold Zlen in E2; lia). rewrite take_app_le in Hb by (unfold Zlen in E2; lia). done.
Qed.

Lemma skip_stars punct esc t v : 47 ∉ t -> goes punct esc BlockCommentEnd [] (t ++ 47 :: v) Idle [] v.
Proof.
  induction t as [|c t IH]; intros Ht; cbn [app]; [by apply goes_char|]. apply not_elem_of_cons in Ht as [Hc Ht].
  eapply goes_trans; [|apply (IH Ht)]. apply goes_char. intros ?. cbn [scan_char]. bcase (c =? 47) as E; [congruence|done].
Qed.
Lemma skip_comment_string punct esc t c v : 34 ∉ t -> 10 ∉ t -> c = 34 \/ c = 10 -> goes punct esc CommentString [] (t ++ c :: v) BlockComment [] v.
Proof.
  induction t as [|d t IH]; intros H1 H2 Hc; cbn [app]; [apply goes_char; intros ?; destruct Hc as [-> | ->]; reflexivity|].
  apply not_elem_of_cons in H1 as [Hq H1]. apply not_elem_of_cons in H2 as [Hl H2]. eapply goes_trans; [|by apply IH].
  apply goes_char. intros ?. cbn [scan_char]. bcase (d =? 34) as E1; [congruence|]. bcase (d =? 10) as E2; [congruence|done].
Qed.
Lemma skip_block punct esc s t v : commented s -> 47 ∉ t -> goes punct esc BlockComment [] (s ++ 42 :: t ++ 47 :: v) Idle [] v.
Proof.
  intros Hs Ht. induction Hs as [|c s Hc Hq _ IH|u c s H1 H2 Hc _ IH]; cbn [app].
  - go_char; [reflexivity|]. by apply skip_stars.
  - eapply goes_trans; [|exact IH]. apply goes_char. intros ?. cbn [scan_char]. bcase (c =? 42) as E; [congruence|]. bcase (c =? 34) as E'; [congruence|done].
  - go_char; [reflexivity|]. rewrite <- app_assoc. eapply goes_trans; [|exact IH]. by apply skip_comment_string.
Qed.

(** Lines from #begin to #end. *)
Lemma skip_begin_line punct esc l v : 10 ∉ l -> forall acc, strcasecmp (take 4 (acc ++ l)) (codes "#end") = false ->
  goes punct esc BeginBlock acc (l ++ 10 :: v) BeginBlock [] v.
Proof.
  induction l as [|c l IH]; intros Hn acc Hb; cbn [app]; [by apply goes_char|]. apply not_elem_of_cons in Hn as [Hc Hn].
  assert (forall pos, scan_char punct esc pos BeginBlock acc 0 0 c = Go BeginBlock (if Zlen acc <? 4 then acc ++ [c] else acc) 0 0) as E.
  { intros pos. cbn [scan_char]. bcase (c =? 10) as E1; [congruence|]. bcase (Zlen acc <? 4) as E2; [|done].
    unfold strcasecmp. case_bool_decide as E3; [|done].
    assert (length (acc ++ [c]) = 4%nat) as L by (apply (f_equal length) in E3; rewrite !length_map in E3; exact E3).
    rewrite cons_middle, app_assoc, take_app_length' in Hb by done. unfold strcasecmp in Hb. by apply bool_decide_eq_false in Hb. }
  eapply goes_trans; [apply goes_char, E|]. apply (IH Hn).
  bcase (Zlen acc <? 4) as E2; [by rewrite <- app_assoc|].
  rewrite take_app_le by (unfold Zlen in E2; lia). rewrite take_app_le in Hb by (unfold Zlen in E2; lia). done.
Qed.
Lemma skip_lines punct esc ls v : Forall (fun l => 10 ∉ l /\ strcasecmp (take 4 l) (codes "#end") = false) ls ->
  goes punct esc BeginBlock [] (lines_of ls ++ v) BeginBlock [] v.
Proof.
  induction 1 as [|l ls [H1 H2] _ IH]; [apply goes_refl|]. unfold lines_of. cbn [mbind list_bind]. rewrite <- !app_assoc. eapply goes_trans; [|exact IH].
  by apply skip_begin_line.
Qed.

(** A character that is equal to a letter or [#] but for its case. *)
Lemma same_letter c d : tolower c = d -> d <> 10 -> (c =? 10) = false.
Proof. intros <- H. apply Z.eqb_neq. by intros ->. Qed.

Lemma same_hash c : tolower c = 35 -> c = 35.
Proof. unfold tolower. destruct (_ && _) eqn:E; lia. Qed.

Lemma begin_letters b : strcasecmp b (codes "#begin") = true -> exists c1 c2 c3 c4 c5, b = [35; c1; c2; c3; c4; c5] /\
  tolower c1 = 98 /\ tolower c2 = 101 /\ tolower c3 = 103 /\ tolower c4 = 105 /\ tolower c5 = 110.
Proof.
  unfold strcasecmp. intros Hb%bool_decide_eq_true. destruct b as [|c0 [|c1 [|c2 [|c3 [|c4 [|c5 [|]]]]]]]; try done.
  injection Hb as E0 E1 E2 E3 E4 E5. apply same_hash in E0. subst c0. by exists c1, c2, c3, c4, c5.
Qed.
Lemma end_letters e : strcasecmp e (codes "#end") = true -> exists c1 c2 c3, e = [35; c1; c2; c3] /\ tolower c1 = 101 /\ tolower c2 = 110 /\ tolower c3 = 100.
Proof.
  unfold strcasecmp. intros Hb%bool_decide_eq_true. destruct e as [|c0 [|c1 [|c2 [|c3 [|]]]]]; try done.
  injection Hb as E0 E1 E2 E3. apply same_hash in E0. subst c0. by exists c1, c2, c3.
Qed.

Lemma line_char punct esc pos acc c : (c =? 10) = false -> (Zlen acc <? 6) = true -> (pos =? 6) = false ->
  scan_char punct esc pos LineComment acc 0 0 c = Go LineComment (acc ++ [c]) 0 0.
Proof. intros E1 E2 E3. cbn [scan_char]. by rewrite E1, E2, E3. Qed.

Lemma skip_begin punct esc b v pos : some_punct punct -> strcasecmp b (codes "#begin") = true ->
  scan punct esc (10 :: b ++ v) Idle [] 0 0 pos = scan punct esc v BeginBlock b 0 0 6.
Proof.
  intros Hp Hb. destruct (begin_letters b Hb) as (c1 & c2 & c3 & c4 & c5 & -> & E1 & E2 & E3 & E4 & E5). cbn [app scan].
  assert (scan_char punct esc 0 Idle [] 0 0 10 = Go Idle [] 0 0) as H0 by (cbn [scan_char]; by rewrite (space_not_punct punct 10 Hp eq_refl)).
  assert (scan_char punct esc 1 Idle [] 0 0 35 = Go LineComment [35] 0 0) as H1 by (cbn [scan_char]; by rewrite (not_punct punct 35 Hp)).
  cbn [Z.eqb Pos.eqb]. rewrite H0, (same_letter _ _ E1), (same_letter _ _ E2), (same_letter _ _ E3), (same_letter _ _ E4), (same_letter _ _ E5) by done.
  change (0 + 1) with 1. rewrite H1. change (1 + 1) with 2. change (2 + 1) with 3. change (3 + 1) with 4. change (4 + 1) with 5. change (5 + 1) with 6.
  rewrite (line_char _ _ _ _ c1), (line_char _ _ _ _ c2), (line_char _ _ _ _ c3), (line_char _ _ _ _ c4) by (try reflexivity; by eapply same_letter).
  cbn [scan_char app]. by rewrite (same_letter _ _ E5), Hb by done.
Qed.
Lemma block_char punct esc pos acc c : (c =? 10) = false -> (length acc < 3)%nat -> scan_char punct esc pos BeginBlock acc 0 0 c = Go BeginBlock (acc ++ [c]) 0 0.
Proof.
  intros E1 E2. cbn [scan_char]. rewrite E1, (proj2 (Z.ltb_lt _ _)) by (unfold Zlen; lia). unfold strcasecmp. case_bool_decide as E3; [|done].
  apply (f_equal length) in E3. rewrite !length_map, length_app in E3. cbn in E3. lia.
Qed.
Lemma skip_end punct esc e v : strcasecmp e (codes "#end") = true -> goes punct esc BeginBlock [] (e ++ v) LineComment e v.
Proof.
  intros He. destruct (end_letters e He) as (c1 & c2 & c3 & -> & E1 & E2 & E3). cbn [app].
  eapply goes_trans; [apply goes_char; intros ?; apply block_char; [done|cbn; lia]|]. cbn [app].
  eapply goes_trans; [apply goes_char; intros ?; apply block_char; [by eapply same_letter|cbn; lia]|]. cbn [app].
  eapply goes_trans; [apply goes_char; intros ?; apply block_char; [by eapply same_letter|cbn; lia]|]. cbn [app].
  apply goes_char. intros ?. cbn [scan_char app]. by rewrite (same_letter _ _ E3), He by done.
Qed.
Lemma begin_not_end b s : strcasecmp b (codes "#begin") = true -> strcasecmp (take 4 (b ++ s)) (codes "#end") = false.
Proof.
  intros (c1 & c2 & c3 & c4 & c5 & -> & E1 & _)%begin_letters. cbn [app take]. unfold strcasecmp. apply bool_decide_eq_false. cbn [map]. rewrite E1. done.
Qed.
Lemma end_not_begin e t : strcasecmp e (codes "#end") = true -> strcasecmp (take 6 (e ++ t)) (codes "#begin") = false.
Proof.
  intros (c1 & c2 & c3 & -> & E1 & _)%end_letters. cbn [app take]. unfold strcasecmp. apply bool_decide_eq_false. cbn [map]. rewrite E1. done.
Qed.

Lemma skip_filler punct esc f v : some_punct punct -> filler f -> goes punct esc Idle [] (f ++ v) Idle [] v.
Proof.
  intros Hp. induction 1 as [|c f Hc _ IH|f _ IH|s f Hs Hb _ IH|s t f Hs Ht _ _ IH|b s ls e t f Hb Hs Hls He Ht _ IH]; [apply goes_refl| | | | |].
  - eapply goes_trans; [|exact IH]. by apply skip_space.
  - cbn [app]. go_char; [rewrite (not_punct punct 92 Hp) by reflexivity; cbn; reflexivity|]. go_char; [reflexivity|exact IH].
  - cbn [app]. rewrite <- app_assoc. go_char; [rewrite (not_punct punct 35 Hp) by reflexivity; cbn; reflexivity|].
    eapply goes_trans; [|exact IH]. apply skip_line; [done|done|]. cbn [app take]. unfold strcasecmp in *. cbn [map] in *.
    apply bool_decide_eq_false. intros E. apply bool_decide_eq_false in Hb. apply Hb. by injection E.
  - cbn [app]. rewrite <- app_assoc. cbn [app]. rewrite <- app_assoc. go_char; [rewrite (not_punct punct 47 Hp) by reflexivity; cbn; reflexivity|].
    go_char; [cbn; reflexivity|]. eapply goes_trans; [|exact IH]. by apply skip_block.
  - intros pos. replace ((10 :: b ++ s ++ 10 :: lines_of ls ++ e ++ t ++ 10 :: f) ++ v) with (10 :: b ++ s ++ 10 :: lines_of ls ++ e ++ t ++ 10 :: f ++ v)
      by (cbn [app]; rewrite <- !app_assoc; cbn [app]; rewrite <- !app_assoc; reflexivity).
    rewrite skip_begin by done. cut (goes punct esc BeginBlock b (s ++ 10 :: lines_of ls ++ e ++ t ++ 10 :: f ++ v) Idle [] v); [by intros H|].
    eapply goes_trans; [by apply skip_begin_line, begin_not_end|]. eapply goes_trans; [by apply skip_lines|]. eapply goes_trans; [by apply skip_end|].
    eapply goes_trans; [|exact IH]. apply skip_line; [done|by intros ->|]. by apply end_not_begin.
Qed.

(** *** Strings *)

Definition quote_char (c : Z) : text := if (c =? 34) || (c =? 92) then [92; c] else if c =? 10 then [92; 110] else [c].
Definition quote (s : text) : text := s ≫= quote_char.

(** Text in which this character and the line break only follow a backslash. *)
Fixpoint raw_ok (stop : Z) (s : text) : bool :=
  match s with
  | [] => true
  | c :: s =>
      if c =? 92 then match s with [] => false | _ :: s => raw_ok stop s end
      else negb ((c =? stop) || (c =? 10)) && raw_ok stop s
  end.

Lemma read_quote punct esc s v tok : 0 < esc -> goes punct esc InString tok (quote s ++ v) InString (tok ++ s) v.
Proof.
  intros He. revert tok. induction s as [|c s IH]; intros tok; cbn [quote mbind list_bind app].
  - rewrite app_nil_r. apply goes_refl.
  - rewrite <- app_assoc. replace (tok ++ c :: s) with ((tok ++ [c]) ++ s) by (by rewrite <- app_assoc).
    eapply goes_trans; [|apply IH]. unfold quote_char.
    assert ((esc =? 0) = false) as E0 by (apply Z.eqb_neq; lia). assert ((esc >? 0) = true) as E1 by (apply Z.gtb_lt; lia).
    destruct (c =? 34) eqn:H1; [apply Z.eqb_eq in H1 as ->; do 2 (go_char; [rewrite ?E0, ?E1; reflexivity|]); apply goes_refl|].
    destruct (c =? 92) eqn:H2; [apply Z.eqb_eq in H2 as ->; do 2 (go_char; [rewrite ?E0, ?E1; reflexivity|]); apply goes_refl|].
    destruct (c =? 10) eqn:H3; [apply Z.eqb_eq in H3 as ->; do 2 (go_char; [rewrite ?E0, ?E1; reflexivity|]); apply goes_refl|]. cbn [orb app].
    apply goes_char. intros ?. cbn [scan_char]. rewrite E0. cbn [negb andb].
    by rewrite H1, H2, H3.
Qed.

Lemma read_raw punct esc stop v : esc <= 0 -> stop = (if esc =? 0 then 59 else 34) ->
  forall k s tok, (length s <= k)%nat -> raw_ok stop s = true -> goes punct esc InString tok (s ++ v) InString (tok ++ s) v.
Proof.
  intros He Hs. assert ((esc >? 0) = false) as E1 by (rewrite Z.gtb_ltb; apply Z.ltb_ge; lia).
  induction k as [|k IH]; intros s tok Hk Hr; (destruct s as [|c s]; [rewrite app_nil_r; apply goes_refl|]); cbn [length] in Hk; [lia|].
  cbn [raw_ok] in Hr. destruct (c =? 92) eqn:E.
  - apply Z.eqb_eq in E as ->. destruct s as [|d s]; [done|]. cbn [app].
    go_char; [rewrite !andb_false_r, E1; reflexivity|]. go_char; [reflexivity|].
    replace (tok ++ 92 :: d :: s) with ((tok ++ [92; d]) ++ s) by (by rewrite <- app_assoc).
    apply IH; [cbn [length] in Hk; lia|done].
  - apply andb_prop in Hr as [Hc Hr]. apply negb_true_iff, orb_false_iff in Hc as [Hc Hn]. cbn [app].
    replace (tok ++ c :: s) with ((tok ++ [c]) ++ s) by (by rewrite <- app_assoc).
    go_char; [|apply IH; [lia|done]]. rewrite E, Hn. subst stop.
    destruct (esc =? 0); cbn [negb andb]; rewrite Hc; reflexivity.
Qed.

(** *** Tokens and their text *)

(** A literal for these punctuation characters. *)
Definition plain (P : text) (c : Z) : bool := negb (isspace c || strchr P c || (c =? 92)).
Definition lit_ok (P s : text) : Prop :=
  forallb (plain P) s = true /\
  match s with
  | [] => False
  | c :: s => existsb (Z.eqb c) [35; 47; 91; 34] = false /\ (c = 33 -> head s <> Some 34)
  end.

(** The depth of brackets after a text, [None] if all are closed on the way. *)
Fixpoint nest (d : Z) (s : text) : option Z :=
  match s with
  | [] => Some d
  | c :: s => let d := if c =? 91 then d + 1 else if c =? 93 then d - 1 else d in if d =? 0 then None else nest d s
  end.

(** A literal, with punctuation that ends it; punctuation; a list; a string,
    with the mode of escapes in force, perhaps negated. *)
Inductive tok := TLit (P s : text) | TPun (c : Z) | TLst (s : text) | TStr (esc : Z) (neg : bool) (s : text).

Definition tok_type (t : tok) : TokenType :=
  match t with TLit _ _ => TT_LITERAL | TPun _ => TT_PUNCT | TLst _ => TT_LIST | TStr _ _ _ => TT_STRING end.
Definition not_ (neg : bool) : text := if neg then [33] else [].
Definition tok_text (t : tok) : text :=
  match t with
  | TLit _ s => s
  | TPun c => [c]
  | TLst s => 91 :: s ++ [93]
  | TStr _ neg s => not_ neg ++ 34 :: s ++ [34]
  end.
(** How a token is written. *)
Definition tok_show (t : tok) : text :=
  match t with
  | TStr esc neg s => not_ neg ++ 34 :: (if 0 <? esc then quote s else s) ++ [34]
  | t => tok_text t
  end.

(** Tokens the scanner can read with this punctuation and mode of escapes. *)
Definition tok_ok (punct : text) (esc : Z) (t : tok) : Prop :=
  match t with
  | TLit P s => (forall c, c ∈ P -> c ∈ punct) /\ lit_ok punct s
  | TPun c => c ∈ punct
  | TLst s => nest 1 s = Some 1
  | TStr e _ s => e = esc /\ (if e =? 0 then raw_ok 59 (s ++ [34]) = true else if e <? 0 then raw_ok 34 s = true else True)
  end.

(** What may follow: blanks or punctuation after a literal, a semicolon after a
    string without escapes. *)
Definition ends (t : tok) (v : text) : Prop :=
  match t, v with
  | TLit P _, c :: _ => isspace c || strchr P c = true
  | TLit _ _, [] => False
  | TStr e _ _, _ => e = 0 -> head v = Some 59
  | _, _ => True
  end.

(** Texts of a sequence of tokens. *)
Inductive spells : list tok -> text -> Prop :=
  | spells_nil f : filler f -> spells [] f
  | spells_cons t ts f v : filler f -> ends t v -> spells ts v -> spells (t :: ts) (f ++ tok_show t ++ v).

Lemma spells_nil_inv v : spells [] v -> filler v.
Proof. by inversion 1. Qed.
Lemma spells_cons_inv t ts w : spells (t :: ts) w -> exists f v, w = f ++ tok_show t ++ v /\ filler f /\ ends t v /\ spells ts v.
Proof. inversion 1; subst; eauto 10. Qed.

(** The scanner finds a token and what is left. *)
Definition finds (punct : text) (esc : Z) (st : scan_state) (s v : text) (t : TokenType) (s' v' : text) : Prop :=
  forall pos, exists sc input, scan punct esc v st s 0 0 pos = (t, s', sc, input) /\ ahead sc input = v'.

Lemma goes_finds punct esc a s v b s' v' t s'' v'' :
  goes punct esc a s v b s' v' -> finds punct esc b s' v' t s'' v'' -> finds punct esc a s v t s'' v''.
Proof. intros H1 H2 pos. destruct (H1 pos) as [p ->]. apply H2. Qed.
Lemma finds_char punct esc st s c v t s' p : (forall pos, scan_char punct esc pos st s 0 0 c = Token t s' p) ->
  finds punct esc st s (c :: v) t s' (match p with Some c => c :: v | None => v end).
Proof. intros H pos. cbn [scan]. rewrite H. by repeat eexists. Qed.

Lemma plain_spec P c : plain P c = true -> isspace c = false /\ strchr P c = false /\ (c =? 92) = false.
Proof. unfold plain. intros H%negb_true_iff. apply orb_false_iff in H as [H ?]. by apply orb_false_iff in H as [? ?]. Qed.

(** A character that ends a literal. *)
Lemma ender_spec P c : some_punct P -> isspace c || strchr P c = true -> (c =? 92) = false /\ (c =? 34) = false.
Proof.
  intros Hp Hc. split; apply Z.eqb_neq; intros ->; cbn [isspace] in Hc; rewrite (not_punct P _ Hp) in Hc by reflexivity; vm_compute in Hc; discriminate.
Qed.

Lemma read_literal P esc c v s : some_punct P -> isspace c || strchr P c = true -> forallb (plain P) s = true ->
  forall acc, finds P esc InToken acc (s ++ c :: v) TT_LITERAL (acc ++ s) (c :: v).
Proof.
  intros Hp Hc. destruct (ender_spec _ _ Hp Hc) as [H92 _]. induction s as [|x s IH]; intros Hl acc; cbn [app].
  - rewrite app_nil_r. apply (finds_char _ _ _ _ _ _ _ _ (Some c)). intros ?. cbn [scan_char]. by rewrite H92, andb_false_r, Hc.
  - cbn [forallb] in Hl. apply andb_prop in Hl as [(H1 & H2 & H3)%plain_spec Hl].
    replace (acc ++ x :: s) with ((acc ++ [x]) ++ s) by (by rewrite <- app_assoc). eapply goes_finds; [|apply (IH Hl)].
    apply goes_char. intros ?. cbn [scan_char]. by rewrite H3, andb_false_r, H1, H2.
Qed.

Lemma find_literal P esc c v s : some_punct P -> isspace c || strchr P c = true -> lit_ok P s ->
  finds P esc Idle [] (s ++ c :: v) TT_LITERAL s (c :: v).
Proof.
  intros Hp Hc [Hl Hf]. destruct (ender_spec _ _ Hp Hc) as [H92 H34]. destruct s as [|x s]; [done|]. destruct Hf as [Hf Hq].
  cbn [forallb] in Hl. apply andb_prop in Hl as [(H1 & H2 & H3)%plain_spec Hl]. cbn [existsb] in Hf.
  do 4 (apply orb_false_iff in Hf as [? Hf]). cbn [app]. destruct (x =? 33) eqn:E.
  - apply Z.eqb_eq in E as ->. eapply goes_finds; [apply goes_char; intros ?; cbn [scan_char]; rewrite H2; reflexivity|]. cbn [app].
    destruct s as [|y s]; [apply (finds_char _ _ _ _ _ _ _ _ (Some c)); intros ?; cbn [scan_char]; by rewrite H34, Hc|].
    cbn [forallb] in Hl. apply andb_prop in Hl as [(Y1 & Y2 & Y3)%plain_spec Hl].
    assert ((y =? 34) = false) as Y4 by (apply Z.eqb_neq; intros ->; by apply (Hq eq_refl)).
    eapply goes_finds; [|apply (read_literal P esc c v s Hp Hc Hl [33; y])]. apply goes_char. intros ?. cbn [scan_char]. by rewrite Y4, Y1, Y2.
  - eapply goes_finds; [|apply (read_literal P esc c v s Hp Hc Hl [x])]. apply goes_char. intros ?. cbn [scan_char].
    rewrite H2, E, H3, H1. repeat match goal with H : (x =? _) = false |- _ => rewrite H; clear H end. reflexivity.
Qed.

Lemma read_list punct esc v s h pos : forall d acc, nest d s = Some 1 ->
  exists pos', scan punct esc (s ++ 93 :: v) InList acc d h pos = (TT_LIST, acc ++ s ++ [93], MkScan None pos', v).
Proof.
  revert pos. induction s as [|c s IH]; intros pos d acc Hn; cbn [app scan]; cbn [scan_char].
  - cbn in Hn. injection Hn as ->. cbn. by eexists.
  - cbn [nest] in Hn. cbv zeta in Hn. destruct (_ =? 0) eqn:E in Hn; [done|]. rewrite E.
    destruct (IH (if c =? 10 then 0 else pos + 1) _ (acc ++ [c]) Hn) as [pos' ->]. exists pos'. by rewrite <- app_assoc.
Qed.

Lemma find_list punct esc v s : some_punct punct -> nest 1 s = Some 1 -> finds punct esc Idle [] (91 :: s ++ 93 :: v) TT_LIST (91 :: s ++ [93]) v.
Proof.
  intros Hp Hn pos. cbn [scan]. cbn [scan_char]. rewrite (not_punct punct 91 Hp) by reflexivity. cbn [Z.eqb Pos.eqb app].
  destruct (read_list punct esc v s 0 (pos + 1) 1 [91] Hn) as [pos' ->]. by repeat eexists.
Qed.

(** From the quote on. *)
Lemma find_string_rest punct esc neg s v : (if esc =? 0 then raw_ok 59 (s ++ [34]) = true else if esc <? 0 then raw_ok 34 s = true else True) ->
  (esc = 0 -> head v = Some 59) ->
  finds punct esc InString (not_ neg ++ [34]) ((if 0 <? esc then quote s else s) ++ 34 :: v) TT_STRING (not_ neg ++ 34 :: s ++ [34]) v.
Proof.
  intros Hr Hv. destruct (esc =? 0) eqn:E.
  - assert (esc = 0) as -> by lia. cbn [Z.ltb Z.compare]. replace (s ++ 34 :: v) with ((s ++ [34]) ++ v) by (by rewrite <- app_assoc).
    replace (not_ neg ++ 34 :: s ++ [34]) with ((not_ neg ++ [34]) ++ s ++ [34]) by (by rewrite <- app_assoc).
    eapply goes_finds; [apply (read_raw punct 0 59 v) with (k := length (s ++ [34])); [lia|done|done|exact Hr]|].
    destruct v as [|c v]; [by specialize (Hv eq_refl)|]. specialize (Hv eq_refl). cbn in Hv. injection Hv as ->.
    apply (finds_char _ _ _ _ _ _ _ _ (Some 59)). intros ?. reflexivity.
  - replace (not_ neg ++ 34 :: s ++ [34]) with (((not_ neg ++ [34]) ++ s) ++ [34]) by (by rewrite <- !app_assoc).
    eapply goes_finds; [|apply (finds_char _ _ InString _ 34 _ _ _ None); intros ?; cbn [scan_char]; rewrite E; reflexivity].
    destruct (0 <? esc) eqn:E1; [apply read_quote; lia|].
    assert ((esc <? 0) = true) as E2 by lia. rewrite E2 in Hr.
    apply (read_raw punct esc 34) with (k := length s); [lia|by rewrite E|done|exact Hr].
Qed.

Lemma find_string punct esc neg s v : some_punct punct ->
  (if esc =? 0 then raw_ok 59 (s ++ [34]) = true else if esc <? 0 then raw_ok 34 s = true else True) -> (esc = 0 -> head v = Some 59) ->
  finds punct esc Idle [] (not_ neg ++ 34 :: (if 0 <? esc then quote s else s) ++ 34 :: v) TT_STRING (not_ neg ++ 34 :: s ++ [34]) v.
Proof.
  intros Hp Hr Hv. eapply goes_finds; [|apply (find_string_rest punct esc neg s v Hr Hv)].
  destruct neg; cbn [not_ app].
  - go_char; [rewrite (not_punct punct 33 Hp) by reflexivity; reflexivity|]. apply goes_char. intros ?. reflexivity.
  - apply goes_char. intros ?. cbn [scan_char]. rewrite (not_punct punct 34 Hp) by reflexivity. reflexivity.
Qed.

(** A written token is read. *)
Lemma find_tok punct esc t f v : some_punct punct -> filler f -> tok_ok punct esc t -> ends t v ->
  finds punct esc Idle [] (f ++ tok_show t ++ v) (tok_type t) (tok_text t) v.
Proof.
  intros Hp Hf Ht He. eapply goes_finds; [by apply skip_filler|]. destruct t as [P s|c|s|e neg s]; cbn [tok_show tok_type tok_text tok_ok ends app] in *.
  - destruct Ht as [HP Hl]. destruct v as [|c v]; [done|]. apply find_literal; [done| |done]. destruct (isspace c); [done|]. cbn [orb] in *.
    apply not_false_iff_true. intros H%(strchr_sub P punct c HP). congruence.
  - apply (finds_char _ _ _ _ _ _ _ _ None). intros ?. cbn [scan_char]. replace (strchr punct c) with true; [done|].
    symmetry. unfold strchr. apply orb_true_iff. right. apply existsb_exists. exists c. split; [by apply list_elem_of_In|apply Z.eqb_refl].
  - rewrite <- app_assoc. by apply find_list.
  - destruct Ht as [-> Hr]. rewrite <- app_assoc. cbn [app]. rewrite <- app_assoc. by apply find_string.
Qed.

(** ** Tokens through the state table *)

(** The loop's steps on a sequence of tokens. *)
Inductive runs : Z -> text -> RuleParseState -> list tok -> list call -> Z -> text -> RuleParseState -> Prop :=
  | runs_nil n p r : runs n p r [] [] n p r
  | runs_cons n p r t ts s calls r1 calls' n' p' r' :
      some_punct p -> tok_ok p (get_escape (key r)) t -> get_state n (tok_type t) (tok_text t) = (s, false) -> action s <> FSM_INC ->
      exec (action s) (tok_text t) r = (calls, r1, false) ->
      runs (next s) (match punct_ s with Some p => codes p | None => p end) r1 ts calls' n' p' r' ->
      runs n p r (t :: ts) (calls ++ calls') n' p' r'.

Lemma runs_app n p r ts calls n1 p1 r1 ts' calls' n2 p2 r2 :
  runs n p r ts calls n1 p1 r1 -> runs n1 p1 r1 ts' calls' n2 p2 r2 -> runs n p r (ts ++ ts') (calls ++ calls') n2 p2 r2.
Proof.
  induction 1; intros H'; [exact H'|]. rewrite <- app_comm_cons, <- app_assoc. eapply runs_cons; eauto.
Qed.

Lemma tok_show_pos p esc t : tok_ok p esc t -> (0 < length (tok_show t))%nat.
Proof.
  destruct t as [P s|c|s|e neg s]; cbn [tok_ok tok_show tok_text length]; [|lia..|].
  - intros [_ [_ H]]. destruct s; [done|cbn [length]; lia].
  - intros _. destruct neg; cbn [not_ app length]; lia.
Qed.

Lemma tok_not_none t : tt_is (tok_type t) TT_NONE = false.
Proof. by destruct t. Qed.

Lemma get_token_ahead sc input v punct esc : ahead sc input = v -> get_token sc input punct esc = scan punct esc v Idle [] 0 0 (col sc).
Proof. by intros <-. Qed.

(** The loop reads a text as its tokens run. *)
Lemma runs_parse extra included n p r ts calls n' p' r' : (forall out, extra out = None) -> some_punct p' -> runs n p r ts calls n' p' r' ->
  forall v sc input out fuel, spells ts v -> ahead sc input = v -> (length v < fuel)%nat ->
  exists sc', parse_loop extra included fuel false sc input n p (get_escape (key r)) r out = Some (out ++ calls, n', r', sc').
Proof.
  intros He Hp'. induction 1 as [n p r|n p r t ts s calls r1 calls' n' p' r' Hp Ht Hs Hi Hx _ IH]; intros v sc input out [|fuel] Hsp Ha Hf; try lia;
    cbn [parse_loop]; rewrite (get_token_ahead _ _ _ _ _ Ha).
  - destruct (skip_filler p (get_escape (key r)) v [] Hp' (spells_nil_inv _ Hsp) (col sc)) as [pos E]. rewrite app_nil_r in E. rewrite E.
    cbn [scan tt_is]. rewrite app_nil_r. by eexists.
  - destruct (spells_cons_inv _ _ _ Hsp) as (f & v' & Hv & Hfi & Hend & Hsp').
    destruct (find_tok p (get_escape (key r)) t f v' Hp Hfi Ht Hend (col sc)) as (sc' & input' & E & Ha'). rewrite Hv, E, tok_not_none, Hs, Hx.
    cbn [app andb]. rewrite app_assoc. pose proof (tok_show_pos _ _ _ Ht).
    assert (length v' < fuel)%nat as Hl by (rewrite Hv, !length_app in Hf; lia).
    destruct (IH Hp' v' sc' input' (out ++ calls) fuel Hsp' Ha' Hl) as [sc'' E'].
    destruct (action s); try done; rewrite ?He; rewrite E'; by eexists.
Qed.

(** ** Rules *)

(** An address or port list of the header. *)
Inductive item := ILit (s : text) | ILst (s : text).
Inductive value := VLit (s : text) | VStr (neg : bool) (s : text).
(** A setting of an option: a string, or a word with perhaps a value. *)
Inductive arg := AStr (neg : bool) (s : text) | AWord (s : text) (v : option value).
(** [key;], [key: arg, arg;], [metadata: words, words;], [reference: words;] *)
Inductive rule_option :=
  | OFlag (k : text) | OArgs (k : text) (a : arg) (more : list arg)
  | OMetadata (ws : text * list text) (more : list (text * list text)) | OReference (ws : text * list text).
Inductive rule_head :=
  | HStub | HProto (p : text)
  | HFull (p : text) (sip : item) (sp : option item) (both : bool) (dip : item) (dp : option item).
Record rule := MkRule { r_action : text; r_head : rule_head; r_options : list rule_option }.

Definition key_metadata : text := codes "metadata".
Definition key_reference : text := codes "reference".

(** *** Their tokens *)

Definition open_ : text := codes "(".
Definition item_tok (P : text) (i : item) : tok := match i with ILit s => TLit P s | ILst s => TLst s end.
Definition dir_text (both : bool) : text := codes (if both then "<>" else "->").
Definition head_toks (h : rule_head) : list tok :=
  match h with
  | HStub => [TPun 40]
  | HProto p => [TLit open_ p; TPun 40]
  | HFull p sip sp both dip dp =>
      [TLit open_ p; item_tok open_ sip] ++ match sp with Some i => [item_tok [] i] | None => [] end ++
      [TLit [] (dir_text both); item_tok [] dip] ++ match dp with Some i => [item_tok open_ i] | None => [] end ++ [TPun 40]
  end.
Definition value_tok (k : text) (v : value) : tok :=
  match v with VLit s => TLit all_punct s | VStr neg s => TStr (get_escape k) neg s end.
Definition arg_toks (k : text) (a : arg) : list tok :=
  match a with
  | AStr neg s => [value_tok k (VStr neg s)]
  | AWord s v => TLit all_punct s :: match v with Some v => [value_tok k v] | None => [] end
  end.
Definition words_toks (P : text) (ws : text * list text) : list tok := map (TLit P) (ws.1 :: ws.2).
Definition option_toks (o : rule_option) : list tok :=
  match o with
  | OFlag k => [TLit all_punct k; TPun 59]
  | OArgs k a more => [TLit all_punct k; TPun 58] ++ arg_toks k a ++ (more ≫= fun a => TPun 44 :: arg_toks k a) ++ [TPun 59]
  | OMetadata ws more => [TLit all_punct key_metadata; TPun 58] ++ words_toks all_punct ws ++ (more ≫= fun ws => TPun 44 :: words_toks all_punct ws) ++ [TPun 59]
  | OReference ws => [TLit all_punct key_reference; TPun 58] ++ words_toks [59] ws ++ [TPun 59]
  end.
Definition rule_toks (r : rule) : list tok := TLit [] (r_action r) :: head_toks (r_head r) ++ (r_options r ≫= option_toks) ++ [TPun 41].

(** *** Their calls *)

Definition item_text (i : item) : text := match i with ILit s => s | ILst s => 91 :: s ++ [93] end.
Definition port_text (i : option item) : text := match i with Some i => item_text i | None => any_ end.
Definition head_calls (h : rule_head) : list call :=
  match h with
  | HStub => [C_open true]
  | HProto p => [C_proto p; C_nets any_ true; C_ports any_ true; C_dir (codes "->"); C_nets any_ false; C_ports any_ false; C_open false]
  | HFull p sip sp both dip dp =>
      [C_proto p; C_nets (item_text sip) true; C_ports (port_text sp) true; C_dir (dir_text both);
       C_nets (item_text dip) false; C_ports (port_text dp) false; C_open false]
  end.
Definition value_text (v : value) : text := match v with VLit s => s | VStr neg s => not_ neg ++ 34 :: s ++ [34] end.
Definition arg_call (k : text) (a : arg) : call :=
  match a with
  | AStr neg s => C_opt_set k (value_text (VStr neg s)) []
  | AWord s v => C_opt_set k s (match v with Some v => value_text v | None => [] end)
  end.
(** The words after the first, with single blanks. *)
Definition join (ws : list text) : text := match ws with [] => [] | w :: ws => w ++ (ws ≫= fun w => 32 :: w) end.
Definition words_call (k : text) (ws : text * list text) : call := C_opt_set k ws.1 (join ws.2).
Definition option_key (o : rule_option) : text :=
  match o with OFlag k | OArgs k _ _ => k | OMetadata _ _ => key_metadata | OReference _ => key_reference end.
Definition option_calls (o : rule_option) : list call :=
  let k := option_key o in
  C_opt_begin k ::
  match o with
  | OFlag _ => []
  | OArgs _ a more => map (arg_call k) (a :: more)
  | OMetadata ws more => map (words_call k) (ws :: more)
  | OReference ws => [words_call k ws]
  end ++ [C_opt_end k].
Definition rule_calls (r : rule) : list call := C_type (r_action r) :: head_calls (r_head r) ++ (r_options r ≫= option_calls) ++ [C_close].

(** *** Well-formed rules *)

Definition item_ok (P : text) (i : item) : Prop := match i with ILit s => lit_ok P s | ILst s => nest 1 s = Some 1 /\ 0 ∉ s end.
Definition head_ok (h : rule_head) : Prop :=
  match h with
  | HStub => True
  | HProto p => lit_ok open_ p
  | HFull p sip sp _ dip dp =>
      lit_ok open_ p /\ item_ok open_ sip /\
      match sp with Some i => item_ok [] i /\ item_text i <> codes "->" /\ item_text i <> codes "<>" | None => True end /\
      item_ok [] dip /\ match dp with Some i => item_ok open_ i | None => True end
  end.
Definition str_ok (k s : text) : Prop :=
  0 ∉ s /\ (if get_escape k =? 0 then raw_ok 59 (s ++ [34]) = true else if get_escape k <? 0 then raw_ok 34 s = true else True).
Definition value_ok (k : text) (v : value) : Prop := match v with VLit s => lit_ok all_punct s | VStr _ s => str_ok k s end.
Definition arg_ok (k : text) (a : arg) : Prop :=
  match a with
  | AStr _ s => str_ok k s
  | AWord s v => lit_ok all_punct s /\ match v with Some v => value_ok k v | None => True end
  end.
Definition words_ok (P : text) (ws : text * list text) : Prop := Forall (fun w => lit_ok P w /\ w <> codes ",") (ws.1 :: ws.2).
Definition key_ok (k : text) : Prop := lit_ok all_punct k /\ k <> key_metadata /\ k <> key_reference /\ k <> codes "include".
Definition option_ok (o : rule_option) : Prop :=
  match o with
  | OFlag k => key_ok k
  | OArgs k a more => key_ok k /\ Forall (arg_ok k) (a :: more)
  | OMetadata ws more => Forall (words_ok all_punct) (ws :: more)
  | OReference ws => words_ok [59] ws
  end.
Definition rule_ok (r : rule) : Prop :=
  lit_ok all_punct (r_action r) /\ r_action r <> codes "include" /\ r_action r <> codes "END" /\ head_ok (r_head r) /\ Forall option_ok (r_options r).

#[export] Instance lit_ok_dec P s : Decision (lit_ok P s).
Proof. unfold lit_ok. destruct s; apply _. Defined.
#[export] Instance item_ok_dec P i : Decision (item_ok P i).
Proof. destruct i; unfold item_ok; apply _. Defined.
#[export] Instance head_ok_dec h : Decision (head_ok h).
Proof. destruct h as [|p|p sip sp both dip dp]; [..|destruct sp, dp]; unfold head_ok; apply _. Defined.
#[export] Instance str_ok_dec k s : Decision (str_ok k s).
Proof. unfold str_ok. destruct (_ =? 0); [|destruct (_ <? 0)]; apply _. Defined.
#[export] Instance arg_ok_dec k a : Decision (arg_ok k a).
Proof. destruct a as [|s [[]|]]; unfold arg_ok, value_ok; apply _. Defined.
#[export] Instance words_ok_dec P ws : Decision (words_ok P ws).
Proof. unfold words_ok. apply _. Defined.
#[export] Instance option_ok_dec o : Decision (option_ok o).
Proof. destruct o; unfold option_ok, key_ok; apply _. Defined.
#[export] Instance rule_ok_dec r : Decision (rule_ok r).
Proof. unfold rule_ok. apply _. Defined.

(** *** Rules run through the table *)

Lemma c_str_id s : 0 ∉ s -> c_str s = s.
Proof.
  induction s as [|c s IH]; [done|]. intros [Hc Hs]%not_elem_of_cons. cbn [c_str]. rewrite (IH Hs). bcase (c =? 0) as E; [congruence|done].
Qed.
Lemma lit_no_nul P s : lit_ok P s -> 0 ∉ s.
Proof.
  intros [H _] H0%list_elem_of_In. apply (proj1 (forallb_forall _ _) H) in H0. apply plain_spec in H0 as (_ & H0 & _). discriminate.
Qed.
Lemma lit_c_str P s : lit_ok P s -> c_str s = s.
Proof. intros H. apply c_str_id. by eapply lit_no_nul. Qed.
Lemma lit_sub P Q s : (forall c, c ∈ Q -> c ∈ P) -> lit_ok P s -> lit_ok Q s.
Proof.
  intros Hs [H Hf]. split; [|done]. apply forallb_forall. intros c Hc. apply (proj1 (forallb_forall _ _) H) in Hc.
  unfold plain in *. apply negb_true_iff in Hc. apply negb_true_iff. apply orb_false_iff in Hc as [Hc ->]. apply orb_false_iff in Hc as [-> Hc].
  by rewrite (strchr_sub Q P c Hs Hc).
Qed.
Lemma list_c_str s : 0 ∉ s -> c_str (91 :: s ++ [93]) = 91 :: s ++ [93].
Proof. intros H. apply c_str_id. set_solver. Qed.
Lemma str_c_str (neg : bool) s : 0 ∉ s -> c_str (not_ neg ++ 34 :: s ++ [34]) = not_ neg ++ 34 :: s ++ [34].
Proof. intros H. apply c_str_id. destruct neg; set_solver. Qed.

Lemma some_punct_nil : some_punct [].
Proof. intros c H. by apply elem_of_nil in H. Qed.
Lemma some_punct_all : some_punct all_punct.
Proof. by intros c. Qed.
Lemma some_punct_open : some_punct open_.
Proof. intros c H. change open_ with [40] in H. change all_punct with [40; 58; 44; 59; 41]. set_solver. Qed.
Lemma some_punct_semi : some_punct [59].
Proof. intros c H. change all_punct with [40; 58; 44; 59; 41]. set_solver. Qed.
Lemma some_punct_colon : some_punct (codes ":;").
Proof. intros c H. change (codes ":;") with [58; 59] in H. change all_punct with [40; 58; 44; 59; 41]. set_solver. Qed.

Create HintDb stream.
#[local] Hint Resolve some_punct_nil some_punct_all some_punct_open some_punct_semi some_punct_colon : stream.

(** The table's entry for a token, for an opaque text and a known state. *)
Ltac entry :=
  unfold get_state, fsm, state_matches; cbn -[bool_decide codes]; rewrite ?bool_decide_false by assumption; reflexivity.

Lemma runs_one n p r t s calls r1 n1 p1 :
  some_punct p -> tok_ok p (get_escape (key r)) t -> get_state n (tok_type t) (tok_text t) = (s, false) -> action s <> FSM_INC ->
  exec (action s) (tok_text t) r = (calls, r1, false) -> next s = n1 -> (match punct_ s with Some p => codes p | None => p end) = p1 ->
  runs n p r [t] calls n1 p1 r1.
Proof. intros ? ? ? ? ? <- <-. rewrite <- (app_nil_r calls). eapply runs_cons; eauto. apply runs_nil. Qed.

Ltac one := eapply runs_one; [auto with stream| |entry|discriminate|cbn [exec action]|reflexivity|reflexivity].
Ltac one_then := eapply (runs_app _ _ _ [_]); [one|].

Lemma item_tok_ok P Q esc i : (forall c, c ∈ Q -> c ∈ P) -> item_ok P i -> tok_ok P esc (item_tok Q i).
Proof. destruct i; cbn; [done|]. by intros _ []. Qed.
Lemma item_c_str P i : item_ok P i -> c_str (item_text i) = item_text i.
Proof. destruct i as [s|s]; cbn [item_ok item_text]; [apply lit_c_str|]. intros [_ H]. by apply list_c_str. Qed.
Lemma item_tok_text P i : tok_text (item_tok P i) = item_text i.
Proof. by destruct i. Qed.

Lemma run_sip i r : item_ok open_ i -> runs 2 open_ r [item_tok open_ i] [C_nets (item_text i) true] 3 [] r.
Proof. intros Hi. destruct i; one; try (by apply item_tok_ok); by rewrite item_tok_text, (item_c_str _ _ Hi). Qed.
Lemma run_dip i r : item_ok [] i -> runs 5 [] r [item_tok [] i] [C_nets (item_text i) false] 6 open_ r.
Proof. intros Hi. destruct i; one; try (by apply item_tok_ok); by rewrite item_tok_text, (item_c_str _ _ Hi). Qed.
Lemma run_sp i r : item_ok [] i -> item_text i <> codes "->" -> item_text i <> codes "<>" ->
  runs 3 [] r [item_tok [] i] [C_ports (item_text i) true] 4 [] r.
Proof. intros Hi H1 H2. destruct i; cbn in H1, H2; one; try (by apply item_tok_ok); by rewrite item_tok_text, (item_c_str _ _ Hi). Qed.
Lemma run_dp i r : item_ok open_ i -> runs 6 open_ r [item_tok open_ i] [C_ports (item_text i) false] 7 all_punct r.
Proof. intros Hi. destruct i; one; try (by apply item_tok_ok); by rewrite item_tok_text, (item_c_str _ _ Hi). Qed.

Lemma dir_lit_ok both P : (P = [] \/ P = open_) -> lit_ok P (dir_text both).
Proof. intros [-> | ->]; destruct both; (split; [reflexivity|split; [reflexivity|discriminate]]). Qed.

Lemma run_ports_dir sp both r : match sp with Some i => item_ok [] i /\ item_text i <> codes "->" /\ item_text i <> codes "<>" | None => True end ->
  runs 3 [] r (match sp with Some i => [item_tok [] i] | None => [] end ++ [TLit [] (dir_text both)])
    [C_ports (port_text sp) true; C_dir (dir_text both)] 5 [] r.
Proof.
  destruct sp as [i|]; cbn [app port_text].
  - intros (Hi & H1 & H2). eapply (runs_app _ _ _ [_] [_]); [by apply run_sp|]. one; [split; [done|apply dir_lit_ok; by left]|by destruct both].
  - intros _. destruct both; one; try (split; [done|apply (dir_lit_ok true); by left]); try (split; [done|apply (dir_lit_ok false); by left]); reflexivity.
Qed.

Lemma run_dport_open dp r : match dp with Some i => item_ok open_ i | None => True end ->
  runs 6 open_ r (match dp with Some i => [item_tok open_ i] | None => [] end ++ [TPun 40]) [C_ports (port_text dp) false; C_open false] 8 all_punct r.
Proof.
  destruct dp as [i|]; cbn [app port_text].
  - intros Hi. eapply (runs_app _ _ _ [_] [_]); [by apply run_dp|]. one; [cbn; set_solver|reflexivity].
  - intros _. one; [cbn; set_solver|reflexivity].
Qed.

Lemma run_proto p r : lit_ok open_ p -> runs 1 open_ r [TLit open_ p] [C_proto p] 2 open_ r.
Proof. intros Hl. one; [done|]. cbn [tok_text]. by rewrite (lit_c_str _ _ Hl). Qed.

Lemma run_head h r : head_ok h -> runs 1 open_ r (head_toks h) (head_calls h) 8 all_punct r.
Proof.
  destruct h as [|p|p sip sp both dip dp]; cbn [head_ok head_toks head_calls].
  - intros _. one; [cbn; set_solver|reflexivity].
  - intros Hl. eapply (runs_app _ _ _ [_] [_]); [by apply run_proto|]. one; [cbn; set_solver|reflexivity].
  - intros (Hl & Hs & Hsp & Hd & Hdp). eapply (runs_app _ _ _ [_] [_]); [by apply run_proto|].
    eapply (runs_app _ _ _ [_] [_]); [by apply run_sip|].
    change ([TLit [] (dir_text both); item_tok [] dip] ++ ?l) with ([TLit [] (dir_text both)] ++ [item_tok [] dip] ++ l). rewrite app_assoc.
    eapply (runs_app _ _ _ _ [_; _]); [by apply run_ports_dir|]. eapply (runs_app _ _ _ [_] [_]); [by apply run_dip|]. by apply run_dport_open.
Qed.

(** **** Options *)

Abbreviation settled k := (MkRps k [] [] false).

Lemma str_c_str_ok k neg s : str_ok k s -> c_str (not_ neg ++ 34 :: s ++ [34]) = not_ neg ++ 34 :: s ++ [34].
Proof. intros [H _]. by apply str_c_str. Qed.
Lemma value_c_str k v : value_ok k v -> c_str (value_text v) = value_text v.
Proof. destruct v; cbn [value_ok value_text]; [apply lit_c_str|apply str_c_str_ok]. Qed.
Lemma value_tok_ok k v : value_ok k v -> tok_ok all_punct (get_escape k) (value_tok k v).
Proof. destruct v; cbn [value_ok value_tok tok_ok]; [by split|]. intros [_ H]. by split. Qed.
Lemma value_tok_text k v : tok_text (value_tok k v) = value_text v.
Proof. by destruct v. Qed.

(** The setting that is read, and what it calls. *)
Definition arg_rps (k : text) (a : arg) : RuleParseState :=
  match a with
  | AStr neg s => MkRps k (value_text (VStr neg s)) [] true
  | AWord s v => MkRps k s (match v with Some v => value_text v | None => [] end) true
  end.
Lemma arg_rps_call k a : key_ok k -> arg_ok k a -> opt_set (arg_rps k a) = arg_call k a.
Proof.
  intros [Hk _]. unfold opt_set. destruct a as [neg s|s v]; cbn [arg_rps arg_call arg_ok key opt val]; rewrite (lit_c_str _ _ Hk).
  - intros Hs. by rewrite (value_c_str k (VStr neg s)).
  - intros [Hs Hv]. rewrite (lit_c_str _ _ Hs). destruct v as [v|]; [by rewrite (value_c_str k v)|done].
Qed.
Lemma arg_rps_opt k a : arg_ok k a -> opt (arg_rps k a) <> [].
Proof. destruct a as [neg s|s v]; cbn; [by destruct neg|]. intros [[_ H] _]. by destruct s. Qed.

Definition arg_state (a : arg) : Z := match a with AWord _ None => 11 | _ => 12 end.
Lemma run_arg k a r : key r = k -> arg_ok k a -> runs 10 all_punct r (arg_toks k a) [] (arg_state a) all_punct (arg_rps k a).
Proof.
  intros Hk. destruct a as [neg s|s [v|]]; cbn [arg_ok arg_toks arg_state].
  - intros Hs. one; [rewrite Hk; by apply (value_tok_ok k (VStr neg s))|]. by rewrite Hk.
  - intros [Hs Hv]. eapply (runs_app _ _ _ [_] []); [one; [by split|reflexivity]|]. rewrite Hk.
    destruct v; one; try (by apply value_tok_ok); reflexivity.
  - intros [Hs _]. one; [by split|]. by rewrite Hk.
Qed.

(** After a setting: a comma, or the end of the option. *)
Lemma run_comma k a : key_ok k -> arg_ok k a -> runs (arg_state a) all_punct (arg_rps k a) [TPun 44] [arg_call k a] 10 all_punct (settled k).
Proof.
  intros Hk Ha. rewrite <- (arg_rps_call k a Hk Ha).
  destruct a as [neg s|s [v|]]; one; try (cbn; set_solver); reflexivity.
Qed.
Lemma run_semi k a : key_ok k -> arg_ok k a ->
  runs (arg_state a) all_punct (arg_rps k a) [TPun 59] [arg_call k a; C_opt_end k] 8 all_punct (settled k).
Proof.
  intros Hk Ha. rewrite <- (arg_rps_call k a Hk Ha). pose proof (arg_rps_opt k a Ha) as Hn.
  destruct a as [neg s|s [v|]]; one; try (cbn; set_solver); unfold opt_end; rewrite bool_decide_false by exact Hn; cbn [key arg_rps app];
    by rewrite (lit_c_str _ _ (proj1 Hk)).
Qed.

Lemma run_args k : key_ok k -> forall more a r, key r = k -> Forall (arg_ok k) (a :: more) ->
  runs 10 all_punct r (arg_toks k a ++ (more ≫= fun a => TPun 44 :: arg_toks k a) ++ [TPun 59])
    (map (arg_call k) (a :: more) ++ [C_opt_end k]) 8 all_punct (settled k).
Proof.
  intros Hk. induction more as [|b more IH]; intros a r Hr [Ha Hm]%Forall_cons; (eapply (runs_app _ _ _ _ []); [by apply run_arg|]).
  - by apply run_semi.
  - cbn [mbind list_bind app map]. rewrite <- app_assoc. eapply (runs_app _ _ _ [_] [_]); [by apply run_comma|]. by apply IH.
Qed.

Lemma run_more_words P k w : some_punct P -> w <> [] -> forall l acc, Forall (fun w => lit_ok P w /\ w <> codes ",") l ->
  runs 14 P (MkRps k w acc true) (map (TLit P) l) [] 14 P (MkRps k w (if bool_decide (acc = []) then join l else acc ++ (l ≫= fun w => 32 :: w)) true).
Proof.
  intros Hp Hw. induction l as [|x l IH]; intros acc Hl.
  - cbn [map join mbind list_bind]. rewrite app_nil_r. case_bool_decide; subst; apply runs_nil.
  - apply Forall_cons in Hl as [[Hx Hc] Hl]. cbn [map].
    eapply (runs_app _ _ _ [_] [] _ _ (MkRps k w ((if bool_decide (acc = []) then [] else acc ++ [32]) ++ x) true)).
    { one; [by split|]. cbn [opt val key]. by rewrite (bool_decide_false (w = [])). }
    assert (x <> []) as Hx0 by (destruct Hx as [_ Hx]; by destruct x).
    specialize (IH ((if bool_decide (acc = []) then [] else acc ++ [32]) ++ x) Hl).
    rewrite (bool_decide_false (_ ++ x = [])) in IH by (intros [_ E]%app_eq_nil; done).
    case_bool_decide; [exact IH|].
    replace (acc ++ ((x :: l) ≫= fun w => 32 :: w)) with (((acc ++ [32]) ++ x) ++ (l ≫= fun w => 32 :: w)) by (cbn; by rewrite <- !app_assoc).
    exact IH.
Qed.

Lemma run_words P k b ws : some_punct P -> words_ok P ws ->
  runs 14 P (MkRps k [] [] b) (words_toks P ws) [] 14 P (MkRps k ws.1 (join ws.2) true).
Proof.
  intros Hp [[Hw Hc] Hl]%Forall_cons. unfold words_toks. cbn [map]. eapply (runs_app _ _ _ [_] []); [one; [by split|reflexivity]|].
  cbn [key val]. apply (run_more_words P k ws.1 Hp); [|done]. destruct Hw as [_ Hw]. by destruct (ws.1).
Qed.

Lemma join_no_nul l : Forall (fun w => 0 ∉ w) l -> 0 ∉ join l.
Proof.
  destruct l as [|w l]; [by intros _ H%elem_of_nil|]. intros [Hw Hl]%Forall_cons. cbn [join]. intros [H|H]%elem_of_app; [done|].
  apply list_elem_of_bind in H as (y & [H|H]%elem_of_cons & Hy); [done|]. rewrite Forall_forall in Hl. by apply (Hl y).
Qed.
Lemma words_rps_call P k ws : c_str k = k -> words_ok P ws -> opt_set (MkRps k ws.1 (join ws.2) true) = words_call k ws.
Proof.
  intros Hk [[Hw _] Hl]%Forall_cons. unfold opt_set, words_call. cbn [key opt val]. rewrite Hk, (lit_c_str _ _ Hw), c_str_id; [done|].
  apply join_no_nul. eapply Forall_impl; [exact Hl|]. intros w [H _]. by eapply lit_no_nul.
Qed.

Lemma run_words_comma k ws : c_str k = k -> words_ok all_punct ws ->
  runs 14 all_punct (MkRps k ws.1 (join ws.2) true) [TPun 44] [words_call k ws] 14 all_punct (settled k).
Proof. intros Hk Hw. rewrite <- (words_rps_call all_punct k ws Hk Hw). one; [cbn; set_solver|reflexivity]. Qed.

Lemma run_words_semi P k ws : P = all_punct \/ P = [59] -> c_str k = k -> words_ok P ws ->
  runs 14 P (MkRps k ws.1 (join ws.2) true) [TPun 59] [words_call k ws; C_opt_end k] 8 all_punct (settled k).
Proof.
  intros HP Hk Hw. rewrite <- (words_rps_call P k ws Hk Hw). apply Forall_cons in Hw as [[[_ Hw] _] _].
  destruct HP as [-> | ->]; one; try (cbn; set_solver); unfold opt_end; cbn [key opt];
    (rewrite bool_decide_false by (by destruct (ws.1))); cbn [app]; by rewrite Hk.
Qed.

Lemma run_metadata k : c_str k = k -> forall more ws b, Forall (words_ok all_punct) (ws :: more) ->
  runs 14 all_punct (MkRps k [] [] b) (words_toks all_punct ws ++ (more ≫= fun ws => TPun 44 :: words_toks all_punct ws) ++ [TPun 59])
    (map (words_call k) (ws :: more) ++ [C_opt_end k]) 8 all_punct (settled k).
Proof.
  intros Hk. induction more as [|ws' more IH]; intros ws b [Hw Hm]%Forall_cons;
    (eapply (runs_app _ _ _ _ []); [apply run_words; [auto with stream|done]|]).
  - apply (run_words_semi all_punct); [by left|done|done].
  - cbn [mbind list_bind app map]. rewrite <- app_assoc. eapply (runs_app _ _ _ [_] [_]); [by apply run_words_comma|]. by apply IH.
Qed.

(** *** Whole options and rules *)

Lemma run_key k r : key_ok k -> runs 8 all_punct r [TLit all_punct k] [C_opt_begin k] 9 all_punct (MkRps k [] [] true).
Proof.
  intros (Hl & H1 & H2 & H3). unfold key_metadata, key_reference in *. one; [by split|]. cbn [tok_text].
  by rewrite (bool_decide_false _ H3), (lit_c_str _ _ Hl).
Qed.

Lemma run_option o r : option_ok o -> runs 8 all_punct r (option_toks o) (option_calls o) 8 all_punct (settled (option_key o)).
Proof.
  destruct o as [k|k a more|ws more|ws]; cbn [option_ok option_toks option_key]; unfold option_calls; cbn [option_key].
  - intros Hk. eapply (runs_app _ _ _ [_] [_]); [by apply run_key|]. one; [cbn; set_solver|]. unfold opt_end. cbn [opt key app].
    by rewrite (lit_c_str _ _ (proj1 Hk)).
  - intros [Hk Ha]. eapply (runs_app _ _ _ [_] [_]); [by apply run_key|]. eapply (runs_app _ _ _ [_] []); [one; [cbn; set_solver|reflexivity]|].
    by apply run_args.
  - intros Hw. eapply (runs_app _ _ _ [_] [_]).
    { one; [split; [done|]; split; [reflexivity|split; [reflexivity|discriminate]]|reflexivity]. }
    eapply (runs_app _ _ _ [_] []); [one; [cbn; set_solver|reflexivity]|]. by apply run_metadata.
  - intros Hw. eapply (runs_app _ _ _ [_] [_]).
    { one; [split; [done|]; split; [reflexivity|split; [reflexivity|discriminate]]|reflexivity]. }
    eapply (runs_app _ _ _ [_] []); [one; [cbn; set_solver|reflexivity]|].
    eapply (runs_app _ _ _ _ []); [apply (run_words [59]); [auto with stream|done]|]. apply (run_words_semi [59]); [by right|reflexivity|done].
Qed.

Lemma run_options os : Forall option_ok os -> forall r, exists r', runs 8 all_punct r (os ≫= option_toks) (os ≫= option_calls) 8 all_punct r' /\
  (tbd r' = true -> tbd r = true /\ os = []).
Proof.
  induction 1 as [|o os Ho _ IH]; intros r; [exists r; split; [apply runs_nil|done]|].
  destruct (IH (settled (option_key o))) as (r' & Hr & Ht). exists r'. cbn [mbind list_bind].
  split; [eapply runs_app; [by apply run_option|exact Hr]|]. intros [H _]%Ht. done.
Qed.

Lemma run_rule ru p r : rule_ok ru -> p = [] \/ p = all_punct -> (tbd r = true -> r_options ru <> []) ->
  exists r', tbd r' = false /\ runs 0 p r (rule_toks ru) (rule_calls ru) 0 all_punct r'.
Proof.
  intros (Hl & H1 & H2 & Hh & Ho) Hp Ht. destruct (run_options _ Ho r) as (r' & Hr & Ht').
  assert (tbd r' = false) as Hf by (destruct (tbd r'); [|done]; destruct (Ht' eq_refl) as [H ?]; by destruct (Ht H)).
  exists r'. split; [done|]. unfold rule_toks, rule_calls. eapply (runs_app _ _ _ [_] [_]).
  { assert (some_punct p) as Hs by (destruct Hp as [-> | ->]; auto with stream).
    one; [split; [by intros ? ?%elem_of_nil|eapply lit_sub; [exact Hs|done]]|]. cbn [tok_text]. by rewrite (bool_decide_false _ H2), (lit_c_str _ _ Hl). }
  eapply runs_app; [by apply run_head|]. eapply runs_app; [exact Hr|]. one; [cbn; set_solver|]. by rewrite Hf.
Qed.

Lemma run_rules rules : Forall rule_ok rules -> forall p r, p = [] \/ p = all_punct -> (tbd r = true -> match rules with ru :: _ => r_options ru <> [] | [] => True end) ->
  exists p' r', some_punct p' /\ runs 0 p r (rules ≫= rule_toks) (rules ≫= rule_calls) 0 p' r'.
Proof.
  induction 1 as [|ru rules Hru _ IH]; intros p r Hp Ht.
  - exists p, r. split; [destruct Hp as [-> | ->]; auto with stream|apply runs_nil].
  - destruct (run_rule ru p r Hru Hp Ht) as (r1 & Hf & H1). destruct (IH all_punct r1) as (p' & r' & Hp' & H2); [by right|by rewrite Hf|].
    exists p', r'. split; [done|]. cbn [mbind list_bind]. by eapply runs_app.
Qed.

Lemma stream_calls extra included tbd0 rules v :
  (forall out, extra out = None) -> Forall rule_ok rules -> (tbd0 = true -> match rules with ru :: _ => r_options ru <> [] | [] => True end) ->
  spells (rules ≫= rule_toks) v ->
  parse_stream extra included (S (length v)) tbd0 v = Some (rules ≫= rule_calls).
Proof.
  intros He Hok Ht Hs. destruct (run_rules rules Hok [] (MkRps [] [] [] tbd0)) as (p' & r' & Hp' & Hr); [by left|exact Ht|].
  destruct (runs_parse extra included _ _ _ _ _ _ _ _ He Hp' Hr v (MkScan None 0) v [] (S (length v)) Hs eq_refl) as [sc' E]; [lia|].
  unfold parse_stream. change (get_escape (key (MkRps [] [] [] tbd0))) with 1 in E. rewrite E. cbn [app Z.eqb]. by rewrite app_nil_r.
Qed.

(** C30.  The text of rules is parsed into exactly the calls for these rules, however
    it is laid out: between the tokens any blanks, line breaks behind a backslash
    and comments of one line, of a block or from #begin to #end ([filler]), blanks
    left out where punctuation separates tokens, strings with their characters
    escaped as the option demands ([rule_ok], [tok_ok]).  In a block comment, no
    slash may come between the first star outside strings and the one that ends it,
    and a line comment does not start with #begin; the rules have no options from
    shared objects; the first rule has options unless the flag that the code leaves
    uninitialised is false.  ([comment_ends_at_slash] and [uninitialised_flag] show
    the need of these.) *)
Theorem rules_parsed extra included tbd0 rules v :
  (forall out, extra out = None) -> Forall rule_ok rules -> (tbd0 = true -> match rules with ru :: _ => r_options ru <> [] | [] => True end) ->
  spells (rules ≫= rule_toks) v ->
  parse_stream extra included (S (length v)) tbd0 v = Some (rules ≫= rule_calls).
Proof.
  apply stream_calls.
Qed.

(** ** Termination *)

(** Every token takes at least a character off the input. *)
Lemma scan_progress punct esc input : forall st s l h pos t s' sc rest, scan punct esc input st s l h pos = (t, s', sc, rest) -> t <> TT_NONE ->
  (length (ahead sc rest) + (match st with Idle => 1 | _ => 0 end) <= length input)%nat.
Proof.
  induction input as [|c input IH]; intros st s l h pos t s' sc rest E Ht; cbn [scan] in E; [by injection E as <-|].
  destruct (scan_char _ _ _ _ _ _ _ _) as [st1 s1 l1 h1|t1 s1 p1] eqn:Ec in E.
  - specialize (IH _ _ _ _ _ _ _ _ _ E Ht). cbn [length]. destruct st; lia.
  - injection E as <- <- <- <-. unfold ahead. cbn [prev length].
    assert (st = Idle -> p1 = None) as Hi by (intros ->; cbn [scan_char] in Ec; repeat case_match; congruence).
    destruct st; [rewrite Hi by done|..]; try destruct p1; cbn [length]; lia.
Qed.

(** Without stubs the parser ends, with at most one token per character. *)
Theorem parse_stream_total extra included tbd0 input :
  (forall out, extra out = None) -> (forall s sc, prev (included s sc) = None) -> exists calls, parse_stream extra included (S (length input)) tbd0 input = Some calls.
Proof.
  intros He Hi.
  assert (forall fuel sc input n p e r out, (length (ahead sc input) < fuel)%nat -> is_Some (parse_loop extra included fuel false sc input n p e r out)) as H.
  { clear input. induction fuel as [|fuel IH]; intros sc input n p e r out Hf; [lia|]. cbn [parse_loop]. rewrite (get_token_ahead sc input _ p e eq_refl).
    destruct (scan _ _ _ _ _ _ _ _) as [[[t tok] sc'] rest] eqn:E. destruct (tt_is t TT_NONE) eqn:Et; [by eexists|].
    assert (t <> TT_NONE) as Hn by (by intros ->). pose proof (scan_progress _ _ _ _ _ _ _ _ _ _ _ _ E Hn) as Hl. cbn beta iota in Hl.
    destruct (get_state n t tok) as [s bad]. destruct (exec (action s) tok r) as [[calls r'] stop].
    assert (length (ahead (included (c_str tok) sc') rest) <= length (ahead sc' rest))%nat by (unfold ahead at 1; rewrite Hi; unfold ahead; destruct (prev sc'); cbn [length]; lia).
    destruct (action s); rewrite ?He; (destruct (stop && negb false); [by eexists|apply IH; lia]). }
  destruct (H (S (length input)) (MkScan None 0) input 0 [] 1 (MkRps [] [] [] tbd0) []) as [[[[calls n] r] sc] E]; [cbn; lia|].
  unfold parse_stream. rewrite E. by eexists.
Qed.

(** ** Checking a layout *)

Fixpoint skip_blanks (v : text) : text := match v with [] => [] | c :: v' => if isspace c then skip_blanks v' else v end.
Fixpoint strip (p v : text) : option text :=
  match p, v with
  | [], _ => Some v
  | c :: p, d :: v => if c =? d then strip p v else None
  | _ :: _, [] => None
  end.
Definition endsb (t : tok) (v : text) : bool :=
  match t, v with
  | TLit P _, c :: _ => isspace c || strchr P c
  | TLit _ _, [] => false
  | TStr e _ _, _ => negb (e =? 0) || bool_decide (head v = Some 59)
  | _, _ => true
  end.
Fixpoint spelt (ts : list tok) (v : text) : bool :=
  match ts with
  | [] => bool_decide (skip_blanks v = [])
  | t :: ts => match strip (tok_show t) (skip_blanks v) with Some v => endsb t v && spelt ts v | None => false end
  end.

Lemma skip_blanks_spec v : exists f, filler f /\ v = f ++ skip_blanks v.
Proof.
  induction v as [|c v (f & Hf & E)]; [exists []; split; [constructor|done]|]. cbn [skip_blanks]. destruct (isspace c) eqn:Ec.
  - exists (c :: f). split; [by constructor|]. by rewrite E at 1.
  - exists []. split; [constructor|done].
Qed.
Lemma strip_spec p : forall v w, strip p v = Some w -> v = p ++ w.
Proof.
  induction p as [|c p IH]; intros v w H; [by injection H as ->|]. destruct v as [|d v]; [done|]. cbn [strip] in H.
  bcase (c =? d) as E; [subst|done]. cbn [app]. f_equal. by apply IH.
Qed.
Lemma endsb_spec t v : endsb t v = true -> ends t v.
Proof.
  destruct t as [P s|c|s|e neg s]; cbn [endsb ends]; try done; [by destruct v|]. intros H ->. by apply bool_decide_eq_true in H.
Qed.
Lemma spelt_spells ts : forall v, spelt ts v = true -> spells ts v.
Proof.
  induction ts as [|t ts IH]; intros v H; cbn [spelt] in H; destruct (skip_blanks_spec v) as (f & Hf & E).
  - apply bool_decide_eq_true in H. rewrite H, app_nil_r in E. subst. by constructor.
  - destruct (strip _ _) as [w|] eqn:Es in H; [|done]. apply andb_prop in H as [He H]. apply strip_spec in Es. rewrite E, Es.
    constructor; [done|by apply endsb_spec|by apply IH].
Qed.

(** ** Instances *)

(** Text with single quotes for double quotes. *)
Definition q (s : string) : text := map (fun c => if c =? 39 then 34 else c) (codes s).

Definition sample_rules : list rule :=
  [ MkRule (codes "alert") (HFull (codes "tcp") (ILit (codes "!$HOME_NET")) (Some (ILst (codes "80,443"))) false (ILit (codes "any")) None)
      [ OArgs (codes "msg") (AStr false (q "say \'hi'")) [];
        OArgs (codes "content") (AStr true (codes "x;y")) [AWord (codes "depth") (Some (VLit (codes "4")))];
        OFlag (codes "file_data"); OArgs (codes "pcre") (AStr false (codes "/a\;b/i")) []; OMetadata (codes "service", [codes "http"]) [(codes "a", [])];
        OReference (codes "url,example.com", []); OArgs (codes "sid") (AWord (codes "7") None) [] ];
    MkRule (codes "drop") (HProto (codes "udp")) [] ]%string.
Definition sample_text : text :=
  q "alert tcp !$HOME_NET [80,443] -> any ( msg:'say \\\'hi\''; content:!'x;y', depth 4; file_data; pcre:'/a\;b/i';
    metadata: service http, a; reference:url,example.com; sid:7; ) drop udp( )"%string.

(** Comments of each kind. *)
Definition sample_comments : text :=
  codes "# a line" ++ 10 :: q "/* 2 '*/' *3 **/" ++ [10] ++ codes "#Begin" ++ codes " old" ++ 10 :: codes "alert" ++ 10 :: codes "#END" ++ codes " old" ++ [10; 92; 10].

Lemma filler_app f g : filler f -> filler g -> filler (f ++ g).
Proof.
  intros Hf Hg. induction Hf; cbn [app]; rewrite <- ?app_assoc; cbn [app]; rewrite <- ?app_assoc; cbn [app]; rewrite <- ?app_assoc; try (by constructor); done.
Qed.
Lemma spells_after ts f v : filler f -> spells ts v -> spells ts (f ++ v).
Proof. intros Hf Hs. destruct Hs; [constructor; by apply filler_app|]. rewrite app_assoc. constructor; [by apply filler_app|done|done]. Qed.

Lemma sample_comments_filler : filler sample_comments.
Proof.
  apply (F_line (codes " a line") (drop 9 sample_comments)); [apply (bool_decide_unpack _); vm_compute; exact I|reflexivity|].
  apply (F_block (q " 2 '*/' ") (codes "3 **") (drop 25 sample_comments)); [|apply (bool_decide_unpack _); vm_compute; exact I|reflexivity|].
  - do 3 (apply CM_char; [done|done|]). apply (CM_string (codes "*/") 34 [32]); [apply (bool_decide_unpack _); vm_compute; exact I..|by left|].
    apply CM_char; [done|done|constructor].
  - apply (F_begin (codes "#Begin") (codes " old") [codes "alert"] (codes "#END") (codes " old") [92; 10]); try reflexivity; try (apply (bool_decide_unpack _); vm_compute; exact I).
    apply F_continue, F_nil.
Qed.

(** The theorem on a file of two rules behind comments. *)
Lemma rules_parsed_witness : parse_stream no_extra no_include (S (length (sample_comments ++ sample_text))) false (sample_comments ++ sample_text) = Some (sample_rules ≫= rule_calls).
Proof.
  apply rules_parsed; [done|apply (bool_decide_unpack _); vm_compute; exact I|done|].
  apply spells_after; [apply sample_comments_filler|apply spelt_spells; vm_compute; reflexivity].
Defined.

Lemma parse_stream_total_witness : exists calls, parse_stream no_extra (fun _ sc => MkScan None (col sc)) (S (length sample_text)) true sample_text = Some calls.
Proof. apply parse_stream_total; done. Defined.

(** After a star, a block comment goes on to the next slash, wherever it is. *)
Theorem comment_ends_at_slash : get_token (MkScan None 0) (codes "/* 2*3 km/h */ alert ") [] 1 = (TT_LITERAL, codes "h", MkScan (Some 32) 12, codes "*/ alert ").
Proof. vm_compute. reflexivity. Qed.

(** An escape without two digits before the end of a string takes the quote. *)
Theorem hex_escape_takes_quote : exists sc, get_token (MkScan None 0) (q "'\x4'; sid:7; ) ' ") all_punct 1 = (TT_STRING, 34 :: 4 :: q "'; sid:7; ) '", sc, [32]).
Proof. eexists. vm_compute. reflexivity. Qed.

(** The flag that no constructor sets decides about a call for an option that
    the rule does not have. *)
Theorem uninitialised_flag : parse_stream no_extra no_include 20 true (codes "alert ( )") <> parse_stream no_extra no_include 20 false (codes "alert ( )").
Proof. vm_compute. discriminate. Qed.

(** A last line without a line break is not included, but an incomplete rule. *)
Theorem include_without_newline : parse_stream no_extra no_include 20 false (codes "include a.rules") = Some [C_error (codes "incomplete rule")].
Proof. vm_compute. reflexivity. Qed.
