(* ===== verification/RuleFile.v ===== *)
(** * RuleFile: from the text of a rule file to the rules selected for packets

    The calls that [ParseStream] makes, carried out by the rule parser
    (parser/parse_rule.cc, the parts that concern ports, the protocol and the
    number of a rule; addresses are in [RuleHeader]).  Together with the port
    lists of [PortParse] and the port groups of [PortRules] this leads from the
    characters of a file to the groups that are selected for a packet. *)

From S2P Require Import Prelude Extract ParseUtils Hash RuleHeader Pcrm PortObject PortTable PortRules PortParse ParseStream.

(** ** Actions *)

Inductive action_type := A_NONE | A_LOG | A_PASS | A_ALERT | A_DROP | A_BLOCK | A_RESET.

#[export] Instance action_type_eq_dec : EqDecision action_type.
Proof. solve_decision. Defined.

Definition get_type (s : text) : action_type :=
  if strcasecmp s (codes "log") then A_LOG
  else if strcasecmp s (codes "pass") then A_PASS
  else if strcasecmp s (codes "alert") then A_ALERT
  else if strcasecmp s (codes "drop") then A_DROP
  else if strcasecmp s (codes "block") then A_BLOCK
  else if strcasecmp s (codes "reset") then A_RESET
  else A_NONE.

(** The run mode: drop rules become alerts, or are kept; rules with equal numbers
    are an error. *)
Record run_mode := MkMode { treat_drop_as_alert : bool; keep_drop_rules : bool; load_as_drop_rules : bool; conf_error_out : bool }.

Section Rules.
Variable mode : run_mode.
(** Actions of plugins, by name. *)
Variable get_action_type : text -> action_type.
(** The actions for which there is a list of rules. *)
Variable rule_lists : list text.
Variable hv : HashFnc.
Variable alloc : nat -> Z.

(** [None]: the type is unknown, which is an error. *)
Definition get_rule_type (s : text) : option action_type :=
  let rt := match get_type s with A_NONE => get_action_type s | t => t end in
  match rt with
  | A_DROP | A_BLOCK | A_RESET =>
      Some (if treat_drop_as_alert mode then A_ALERT else if keep_drop_rules mode || load_as_drop_rules mode then rt else A_NONE)
  | A_NONE => None
  | _ => Some rt
  end.

(** ** Rule numbers *)

(** The numbers of the rules by index (detection/sfrim.cc). *)
Definition rule_index_map := list (Z * Z).
Definition RuleIndexMapAdd (rim : rule_index_map) (gid sid : Z) : Z * rule_index_map := (Zlen rim, rim ++ [(gid, sid)]).
Definition RuleIndexMapGet (rim : rule_index_map) (index : Z) : option (Z * Z) :=
  if u32 index <? Zlen rim then rim !! Z.to_nat (u32 index) else None.

(** ** The rule that is being read *)

(** The header; of the protocol both the name and what the ports depend on. *)
Record RuleTreeNode := MkRtn {
  type : action_type; proto_name : text; snort_protocol_id : SnortProtocolId; flags : Z; src_po : option PortObject; dst_po : option PortObject }.
(** The number and the revision. *)
Record SigInfo := MkSig { gid : Z; sid : Z; rev : Z }.
(** A rule in the table of all rules. *)
Record OptTreeNode := MkOtn { o_rev : Z; o_proto : text; o_type : action_type; o_index : Z }.

Record parse_state := MkPs {
  s_ignore : bool; rule_proto : Z; rtn : RuleTreeNode; sigInfo : SigInfo; env : ports_env;
  otn_map : gmap (Z * Z) OptTreeNode; ruleIndexMap : rule_index_map; rules : list port_rule }.

Definition set_rtn (p : parse_state) (ignore : bool) (rp : Z) (n : RuleTreeNode) (e : ports_env) : parse_state :=
  MkPs ignore rp n (sigInfo p) e (otn_map p) (ruleIndexMap p) (rules p).
Definition set_sig (p : parse_state) (si : SigInfo) : parse_state :=
  MkPs (s_ignore p) (rule_proto p) (rtn p) si (env p) (otn_map p) (ruleIndexMap p) (rules p).

(** [None] in the following: an error is reported, for which the configuration is
    refused. *)
Definition parse_rule_type (s : text) (p : parse_state) : option parse_state :=
  t ← get_rule_type s;
  let n := MkRtn t [] SNORT_PROTO_OTHER 0 None None in
  if bool_decide (t = A_NONE) then Some (set_rtn p true (rule_proto p) n (env p))
  else if bool_decide (s ∈ rule_lists) then Some (set_rtn p (s_ignore p) (rule_proto p) n (env p)) else None.

Definition rule_proto_call (s : text) (p : parse_state) : option parse_state :=
  if s_ignore p then Some p
  else
    let '(id, rp) := parse_rule_proto s in
    let n := rtn p in
    Some (set_rtn p false rp (MkRtn (type n) s id (flags n) (src_po n) (dst_po n)) (env p)).

Definition rule_ports_call (s : text) (src : bool) (p : parse_state) : option parse_state :=
  if s_ignore p then Some p
  else
    let n := rtn p in
    r ← ParsePortList hv alloc (env p) (rule_proto p) (flags n) s (negb src);
    match r with
    | inl _ => None
    | inr (f, po, e) =>
        Some (set_rtn p false (rule_proto p)
                (if src then MkRtn (type n) (proto_name n) (snort_protocol_id n) f (Some po) (dst_po n)
                 else MkRtn (type n) (proto_name n) (snort_protocol_id n) f (src_po n) (Some po)) e)
    end.

Definition rule_dir_call (s : text) (p : parse_state) : option parse_state :=
  if s_ignore p then Some p
  else
    let n := rtn p in
    f ← parse_rule_dir s (flags n);
    Some (set_rtn p false (rule_proto p) (MkRtn (type n) (proto_name n) (snort_protocol_id n) f (src_po n) (dst_po n)) (env p)).

(** A rule has the generator 1, a stub none, until they are set. *)
Definition parse_rule_open (stub : bool) (p : parse_state) : option parse_state :=
  if s_ignore p then Some p
  else
    p ← (if stub then
           p ← rule_proto_call text_tcp p; p ← rule_ports_call any_ true p; p ← rule_dir_call (codes "->") p; rule_ports_call any_ false p
         else Some p);
    Some (set_sig p (MkSig (if stub then 0 else 1) 0 0)).

(** The value of the digits of an option. *)
Definition dec (s : text) : Z := u32 (foldl (fun a c => 10 * a + (c - 48)) 0 s).

(** The options gid, sid and rev; the other options do not concern the number. *)
Definition set_number (k o : text) (si : SigInfo) : SigInfo :=
  if bool_decide (k = codes "gid") then MkSig (dec o) (sid si) (rev si)
  else if bool_decide (k = codes "sid") then MkSig (gid si) (dec o) (rev si)
  else if bool_decide (k = codes "rev") then MkSig (gid si) (sid si) (dec o)
  else si.
Definition parse_rule_opt_set (k o : text) (p : parse_state) : parse_state :=
  if s_ignore p then p else set_sig p (set_number k o (sigInfo p)).

(** A rule with the numbers of an earlier one.  [inl]: the earlier rule is kept;
    [None]: an error. *)
Definition mergeDuplicateOtn (otn_cur otn_new : OptTreeNode) : option (unit + OptTreeNode) :=
  if negb (bool_decide (o_proto otn_cur = o_proto otn_new)) then None
  else if negb (bool_decide (o_type otn_cur = o_type otn_new)) then None
  else if o_rev otn_new <? o_rev otn_cur then Some (inl tt)
  else if conf_error_out mode then None
  else Some (inr otn_new).

(** The rule is entered with its number, and its ports are recorded for
    [FinishPortListRule]; those of a rule that it replaces stay recorded for the
    same index. *)
Definition enter_otn (key : Z * Z) (o : OptTreeNode) (rim : rule_index_map) (p : parse_state) : option parse_state :=
  let n := rtn p in
  a ← src_po n;
  b ← dst_po n;
  Some (MkPs false (rule_proto p) n (sigInfo p) (env p) (<[key := o]> (otn_map p)) rim
    (rules p ++ [PortRules.MkRule (flags n) a b (o_index o) (snort_protocol_id n)])).

Definition parse_rule_close (p : parse_state) : option parse_state :=
  let n := rtn p in
  let si := sigInfo p in
  let key := (gid si, sid si) in
  if s_ignore p then Some (set_rtn p false (rule_proto p) n (env p))
  else match otn_map p !! key with
  | Some otn_dup =>
      kept ← mergeDuplicateOtn otn_dup (MkOtn (rev si) (proto_name n) (type n) (o_index otn_dup));
      match kept with
      | inl _ => Some p
      | inr otn => enter_otn key otn (ruleIndexMap p) p
      end
  | None =>
      let '(idx, rim) := RuleIndexMapAdd (ruleIndexMap p) (gid si) (sid si) in
      enter_otn key (MkOtn (rev si) (proto_name n) (type n) idx) rim p
  end.

Definition carry_out (c : call) (p : parse_state) : option parse_state :=
  match c with
  | C_type s => parse_rule_type s p
  | C_proto s => rule_proto_call s p
  | C_ports s src => rule_ports_call s src p
  | C_dir s => rule_dir_call s p
  | C_open stub => parse_rule_open stub p
  | C_opt_set k o _ => Some (parse_rule_opt_set k o p)
  | C_close => parse_rule_close p
  | C_nets _ _ | C_opt_begin _ | C_opt_end _ => Some p
  | C_include _ | C_reset_options | C_error _ => None
  end.

Fixpoint carry_out_all (l : list call) (p : parse_state) : option parse_state :=
  match l with
  | [] => Some p
  | c :: l => p ← carry_out c p; carry_out_all l p
  end.

Definition rtn_init : RuleTreeNode := MkRtn A_NONE [] SNORT_PROTO_OTHER 0 None None.
Definition parse_init (e : ports_env) : parse_state := MkPs false 0 rtn_init (MkSig 0 0 0) e ∅ [] [].

(** ** Headers *)

(** The protocol, the ports and the direction of a header, with what is implied. *)
Definition head_texts (h : rule_head) : text * text * text * text :=
  match h with
  | HStub => (text_tcp, any_, codes "->", any_)
  | HProto p => (p, any_, codes "->", any_)
  | HFull p _ sp both _ dp => (p, port_text sp, dir_text both, port_text dp)
  end.

(** The protocol, and the number before the options. *)
Definition head_proto (h : rule_head) : text := match h with HStub => text_tcp | HProto p | HFull p _ _ _ _ _ => p end.
Definition first_sig (h : rule_head) : SigInfo := MkSig (match h with HStub => 0 | _ => 1 end) 0 0.

(** Rules that are not ignored. *)
Definition kept (ru : rule) : bool := negb (bool_decide (get_rule_type (r_action ru) = Some A_NONE)).

Lemma carry_out_app l k p : carry_out_all (l ++ k) p = (p ← carry_out_all l p; carry_out_all k p).
Proof. revert p. induction l as [|c l IH]; intros p; [done|]. cbn [app carry_out_all]. destruct (carry_out c p); [apply IH|done]. Qed.

(** What an ignored rule and the options of a rule leave as it is. *)
Record same_header (p p' : parse_state) : Prop := MkSame {
  sh_ignore : s_ignore p' = s_ignore p; sh_rtn : rtn p' = rtn p; sh_env : env p' = env p;
  sh_otns : otn_map p' = otn_map p; sh_index : ruleIndexMap p' = ruleIndexMap p; sh_rules : rules p' = rules p }.

Lemma same_refl p : same_header p p.
Proof. by constructor. Qed.
Lemma same_trans p q r : same_header p q -> same_header q r -> same_header p r.
Proof. intros [] []. constructor; congruence. Qed.

(** Calls for options, and the numbers they set. *)
Definition option_call (c : call) : bool := match c with C_opt_begin _ | C_opt_set _ _ _ | C_opt_end _ => true | _ => false end.
Definition call_number (si : SigInfo) (c : call) : SigInfo := match c with C_opt_set k o _ => set_number k o si | _ => si end.
Lemma carry_options l : forallb option_call l = true -> forall p, s_ignore p = false ->
  exists p', carry_out_all l p = Some p' /\ same_header p p' /\ sigInfo p' = foldl call_number (sigInfo p) l.
Proof.
  induction l as [|c l IH]; intros Hl p Hi; [exists p; split_and!; [done|apply same_refl|done]|]. cbn [forallb] in Hl. apply andb_prop in Hl as [Hc Hl].
  assert (exists q, carry_out c p = Some q /\ same_header p q /\ sigInfo q = call_number (sigInfo p) c) as (q & E & Hq & Hs).
  { destruct c; try done; cbn [carry_out]; eexists; (split; [reflexivity|]); try (split; [apply same_refl|done]). unfold parse_rule_opt_set. rewrite Hi. by split. }
  destruct (IH Hl q) as (p' & E' & Hp' & Hs'); [by rewrite (sh_ignore _ _ Hq)|]. exists p'. cbn [carry_out_all foldl]. rewrite E, <- Hs. split_and!; [exact E'|by eapply same_trans|done].
Qed.
Lemma option_calls_only os : forallb option_call (os ≫= option_calls) = true.
Proof.
  induction os as [|o os IH]; [done|]. cbn [mbind list_bind]. rewrite forallb_app, IH, andb_true_r. unfold option_calls. cbn [forallb].
  rewrite forallb_app. cbn [forallb option_call andb]. rewrite !andb_true_r.
  destruct o as [k|k a more|ws more|ws]; [done|..|done]; apply forallb_forall; intros c (x & <- & _)%in_map_iff; [by destruct x|done].
Qed.

(** While a rule is ignored its calls do nothing. *)
Definition inside (c : call) : bool := match c with C_type _ | C_close | C_include _ | C_reset_options | C_error _ => false | _ => true end.
Lemma carry_ignored l p : s_ignore p = true -> forallb inside l = true -> carry_out_all l p = Some p.
Proof.
  intros Hi. induction l as [|c l IH]; intros Hl; [done|]. cbn [forallb] in Hl. apply andb_prop in Hl as [Hc Hl]. cbn [carry_out_all].
  assert (carry_out c p = Some p) as ->; [|by apply IH].
  destruct c; try done; cbn [carry_out]; unfold rule_proto_call, rule_ports_call, rule_dir_call, parse_rule_open, parse_rule_opt_set; by rewrite Hi.
Qed.
Lemma head_calls_inside h : forallb inside (head_calls h) = true.
Proof. by destruct h. Qed.
Lemma option_calls_inside os : forallb inside (os ≫= option_calls) = true.
Proof.
  apply forallb_forall. intros c Hc. pose proof (proj1 (forallb_forall _ _) (option_calls_only os) c Hc). by destruct c.
Qed.

(** The rule that a header makes. *)
Definition header_done (p p' : parse_state) (pr : text) (r : port_rule) : Prop :=
  s_ignore p' = false /\ rtn p' = MkRtn (type (rtn p)) pr (r_proto r) (r_flags r) (Some (r_src r)) (Some (r_dst r)) /\
  otn_map p' = otn_map p /\ ruleIndexMap p' = ruleIndexMap p /\ rules p' = rules p.

(** The steps that every header consists of. *)
Lemma carry_steps p q1 q2 q3 q4 pr sp dir dp idx : s_ignore p = false -> flags (rtn p) = 0 ->
  rule_proto_call pr p = Some q1 -> rule_ports_call sp true q1 = Some q2 -> rule_dir_call dir q2 = Some q3 -> rule_ports_call dp false q3 = Some q4 ->
  exists r, parse_rule_header hv alloc (env p) pr sp dir dp idx = Some (r, env q4) /\ ruleIndex r = idx /\ header_done p q4 pr r.
Proof.
  intros Hi Hf. unfold rule_proto_call. rewrite Hi. unfold parse_rule_header. destruct (parse_rule_proto pr) as [id rp]. intros [= <-] H2 H3 H4.
  unfold rule_ports_call in H2. cbn in H2. rewrite Hf in H2. apply bind_Some in H2 as (r1 & H1 & H2).
  destruct r1 as [|[[f1 p1] e1]]; [done|]. injection H2 as <-. rewrite H1. unfold rule_dir_call in H3. cbn in H3.
  apply bind_Some in H3 as (f2 & H3 & E3). injection E3 as <-. cbn. rewrite H3. unfold rule_ports_call in H4. cbn in H4.
  apply bind_Some in H4 as (r2 & H4 & E4). destruct r2 as [|[[f3 p2] e2]]; [done|]. injection E4 as <-. cbn. rewrite H4. cbn. by eexists.
Qed.

Lemma carry_head h p p' idx : s_ignore p = false -> flags (rtn p) = 0 -> carry_out_all (head_calls h) p = Some p' ->
  exists r, (let '(pr, sp, dir, dp) := head_texts h in parse_rule_header hv alloc (env p) pr sp dir dp idx) = Some (r, env p') /\
    ruleIndex r = idx /\ header_done p p' (head_proto h) r /\ sigInfo p' = first_sig h.
Proof.
  intros Hi Hf. destruct h as [|pr|pr sip sp both dip dp]; cbn [head_calls head_texts head_proto first_sig carry_out_all carry_out].
  - intros (p1 & E & [= <-])%bind_Some. unfold parse_rule_open in E. rewrite Hi in E. apply bind_Some in E as (q4 & E & [= <-]).
    apply bind_Some in E as (q1 & E1 & E). apply bind_Some in E as (q2 & E2 & E). apply bind_Some in E as (q3 & E3 & E4).
    destruct (carry_steps p q1 q2 q3 q4 _ _ _ _ idx Hi Hf E1 E2 E3 E4) as (r & Hr & Hx & Hd). by exists r.
  - intros (q1 & E1 & E)%bind_Some. cbn [mbind option_bind] in E. apply bind_Some in E as (q2 & E2 & E). apply bind_Some in E as (q3 & E3 & E). cbn [mbind option_bind] in E.
    apply bind_Some in E as (q4 & E4 & E). apply bind_Some in E as (q5 & E & [= <-]).
    destruct (carry_steps p q1 q2 q3 q4 _ _ _ _ idx Hi Hf E1 E2 E3 E4) as (r & Hr & Hx & Hd). exists r. unfold parse_rule_open in E. rewrite (proj1 Hd) in E. cbn in E. injection E as <-. done.
  - intros (q1 & E1 & E)%bind_Some. cbn [mbind option_bind] in E. apply bind_Some in E as (q2 & E2 & E). apply bind_Some in E as (q3 & E3 & E). cbn [mbind option_bind] in E.
    apply bind_Some in E as (q4 & E4 & E). apply bind_Some in E as (q5 & E & [= <-]).
    destruct (carry_steps p q1 q2 q3 q4 _ _ _ _ idx Hi Hf E1 E2 E3 E4) as (r & Hr & Hx & Hd). exists r. unfold parse_rule_open in E. rewrite (proj1 Hd) in E. cbn in E. injection E as <-. done.
Qed.

(** *** Whole rules *)

(** The number and revision that a rule is written with. *)
Definition rule_sig (ru : rule) : SigInfo := foldl call_number (first_sig (r_head ru)) (r_options ru ≫= option_calls).
Definition rule_key (ru : rule) : Z * Z := (gid (rule_sig ru), sid (rule_sig ru)).

(** A rule that is not kept changes nothing; one that is makes the header of a
    rule with its numbers, which is then closed. *)
Lemma carry_rule ru p p' idx : s_ignore p = false -> carry_out_all (rule_calls ru) p = Some p' ->
  if kept ru then
    exists t q r, get_rule_type (r_action ru) = Some t /\
      (let '(pr, sp, dir, dp) := head_texts (r_head ru) in parse_rule_header hv alloc (env p) pr sp dir dp idx) = Some (r, env q) /\ ruleIndex r = idx /\
      s_ignore q = false /\ rtn q = MkRtn t (head_proto (r_head ru)) (r_proto r) (r_flags r) (Some (r_src r)) (Some (r_dst r)) /\
      otn_map q = otn_map p /\ ruleIndexMap q = ruleIndexMap p /\ rules q = rules p /\ sigInfo q = rule_sig ru /\ parse_rule_close q = Some p'
  else s_ignore p' = false /\ env p' = env p /\ otn_map p' = otn_map p /\ ruleIndexMap p' = ruleIndexMap p /\ rules p' = rules p.
Proof.
  intros Hi. unfold rule_calls. cbn [carry_out_all carry_out]. unfold parse_rule_type, kept. intros (p1 & Ht & E)%bind_Some. apply bind_Some in Ht as (t & Ht & E1). rewrite Ht.
  rewrite carry_out_app in E. apply bind_Some in E as (p2 & E2 & E). rewrite carry_out_app in E. apply bind_Some in E as (p3 & E3 & E). cbn [carry_out_all carry_out] in E.
  apply bind_Some in E as (p4 & E4 & [= <-]). case_bool_decide as Hn.
  - subst t. injection E1 as <-. rewrite bool_decide_true by done. cbn [negb]. rewrite carry_ignored in E2; [|done|apply head_calls_inside]. injection E2 as <-.
    rewrite carry_ignored in E3; [|done|apply option_calls_inside]. injection E3 as <-. unfold parse_rule_close in E4. cbn in E4. by injection E4 as <-.
  - case_bool_decide; [|done]. injection E1 as <-. rewrite bool_decide_false by congruence. cbn [negb].
    apply (carry_head _ _ _ idx) in E2 as (r & Hr & Hx & (Hi2 & Hn2 & Ho2 & Hm2 & Hru2) & Hs2); [|done|done]. cbn in Hr, Hn2, Ho2, Hm2, Hru2.
    destruct (carry_options _ (option_calls_only (r_options ru)) p2 Hi2) as (p3' & E3' & [S1 S2 S3 S4 S5 S6] & Hs3). rewrite E3' in E3. injection E3 as <-.
    exists t, p3', r. unfold rule_sig. rewrite S1, S2, S3, S4, S5, S6, Hs3, Hs2. done.
Qed.

(** *** Rules with equal numbers *)

(** The rules that are entered, in order: those that are kept, less those for
    which there was one with the same numbers and a higher revision. *)
Fixpoint entered (revs : gmap (Z * Z) Z) (rus : list rule) : list rule :=
  match rus with
  | [] => []
  | ru :: rus =>
      if kept ru && negb (from_option (Z.ltb (rev (rule_sig ru))) false (revs !! rule_key ru))
      then ru :: entered (<[rule_key ru := rev (rule_sig ru)]> revs) rus else entered revs rus
  end.

(** A rule read from a written one, whose index stands for its numbers. *)
Definition read_as (rim : rule_index_map) (ru : rule) (r : port_rule) : Prop :=
  (exists e e', (let '(pr, sp, dir, dp) := head_texts (r_head ru) in parse_rule_header hv alloc e pr sp dir dp (ruleIndex r)) = Some (r, e')) /\
  RuleIndexMapGet rim (ruleIndex r) = Some (rule_key ru).

(** The table of rules and the numbers by index agree. *)
Record tables_ok (p : parse_state) (revs : gmap (Z * Z) Z) : Prop := MkTables {
  to_nodup : NoDup (ruleIndexMap p);
  to_index : forall key o, otn_map p !! key = Some o -> 0 <= o_index o /\ ruleIndexMap p !! Z.to_nat (o_index o) = Some key;
  to_known : forall key, key ∈ ruleIndexMap p -> is_Some (otn_map p !! key);
  to_revs : revs = o_rev <$> otn_map p }.

(** Closing a rule keeps the earlier one or enters the new one, with the index of
    the earlier or the next index. *)
Lemma close_entered q p' revs ru : s_ignore q = false -> is_Some (src_po (rtn q)) -> is_Some (dst_po (rtn q)) -> sigInfo q = rule_sig ru -> tables_ok q revs ->
  parse_rule_close q = Some p' ->
  s_ignore p' = false /\ env p' = env q /\
  if negb (from_option (Z.ltb (rev (rule_sig ru))) false (revs !! rule_key ru)) then
    tables_ok p' (<[rule_key ru := rev (rule_sig ru)]> revs) /\ ruleIndexMap q `prefix_of` ruleIndexMap p' /\ (length (ruleIndexMap p') <= S (length (ruleIndexMap q)))%nat /\
    exists a b idx, src_po (rtn q) = Some a /\ dst_po (rtn q) = Some b /\ 0 <= idx /\ ruleIndexMap p' !! Z.to_nat idx = Some (rule_key ru) /\
      rules p' = rules q ++ [PortRules.MkRule (flags (rtn q)) a b idx (snort_protocol_id (rtn q))]
  else p' = q.
Proof.
  intros Hi [a Ha] [b Hb] Hs [Hnd Hix Hkn Hrev]. unfold parse_rule_close. rewrite Hi, Hs. change (gid (rule_sig ru), sid (rule_sig ru)) with (rule_key ru).
  rewrite Hrev, lookup_fmap. destruct (otn_map q !! rule_key ru) as [o|] eqn:Eo; cbn [fmap option_fmap option_map from_option].
  - unfold mergeDuplicateOtn. cbn [o_proto o_type o_rev]. destruct (bool_decide _); [|done]. destruct (bool_decide _); [|done]. cbn [negb].
    destruct (_ <? _) eqn:Er; cbn [negb].
    + intros [= <-]. done.
    + destruct (conf_error_out mode); [done|]. cbn [mbind option_bind]. unfold enter_otn. rewrite Ha, Hb. cbn [mbind option_bind]. intros [= <-]. cbn.
      destruct (Hix _ _ Eo) as [Hi0 Hi1]. split_and!; try done; [|lia|by exists a, b, (o_index o)].
      constructor; cbn; [done| | |by rewrite fmap_insert].
      * intros key o' [[<- <-]|[? ?]]%lookup_insert_Some; [done|by apply Hix].
      * intros key Hk. apply lookup_insert_is_Some'. right. by apply Hkn.
  - unfold RuleIndexMapAdd, enter_otn. rewrite Ha, Hb. cbn [mbind option_bind]. intros [= <-]. cbn.
    assert (rule_key ru ∉ ruleIndexMap q) as Hnew by (intros [x Hx]%Hkn; congruence).
    assert (Z.to_nat (Zlen (ruleIndexMap q)) = length (ruleIndexMap q)) as El by (unfold Zlen; lia).
    assert ((ruleIndexMap q ++ [rule_key ru]) !! Z.to_nat (Zlen (ruleIndexMap q)) = Some (rule_key ru)) as Hlast by (rewrite El; apply list_lookup_middle; done).
    split_and!; try done; [|by apply prefix_app_r|rewrite length_app; cbn; lia|by exists a, b, (Zlen (ruleIndexMap q)); split_and!; try done; unfold Zlen; lia].
    constructor; cbn; [| | |by rewrite fmap_insert].
    + apply NoDup_app. split_and!; [done| |apply NoDup_singleton]. intros x Hx ->%list_elem_of_singleton. done.
    + intros key o' [[<- <-]|[? H]]%lookup_insert_Some; cbn; [split; [unfold Zlen; lia|done]|]. destruct (Hix _ _ H) as [H1 H2]. split; [done|]. by apply lookup_app_l_Some.
    + intros key [Hk| ->%list_elem_of_singleton]%elem_of_app; apply lookup_insert_is_Some'; [right; by apply Hkn|by left].
Qed.

(** What is read of the rules, while indexes may still be added. *)
Definition read_at (rim : rule_index_map) (ru : rule) (r : port_rule) : Prop :=
  (exists e e', (let '(pr, sp, dir, dp) := head_texts (r_head ru) in parse_rule_header hv alloc e pr sp dir dp (ruleIndex r)) = Some (r, e')) /\
  0 <= ruleIndex r /\ rim !! Z.to_nat (ruleIndex r) = Some (rule_key ru).

Lemma read_at_as rim ru r : Zlen rim < 4294967296 -> read_at rim ru r -> read_as rim ru r.
Proof.
  intros Hlen (Hr & H0 & Hi). split; [done|]. unfold RuleIndexMapGet. pose proof (lookup_lt_Some _ _ _ Hi). unfold Zlen in *.
  rewrite u32_small by (unfold is_u32; lia). by rewrite (proj2 (Z.ltb_lt _ _)) by lia.
Qed.

Lemma header_index e pr sp dir dp idx r e' : parse_rule_header hv alloc e pr sp dir dp idx = Some (r, e') ->
  ruleIndex r = idx /\ forall idx', parse_rule_header hv alloc e pr sp dir dp idx' = Some (PortRules.MkRule (r_flags r) (r_src r) (r_dst r) idx' (r_proto r), e').
Proof.
  unfold parse_rule_header. destruct (parse_rule_proto pr) as [id rp]. intros ([[f1 p1] e1] & -> & H)%bind_Some. apply bind_Some in H as (f2 & E2 & H). cbn. rewrite E2.
  apply bind_Some in H as ([[f3 p2] e2] & E3 & H). cbn. rewrite E3. cbn. by injection H as <- <-.
Qed.

Lemma carry_rules rus : forall p p' revs, s_ignore p = false -> configured hv alloc (env p) (rules p) -> tables_ok p revs ->
  carry_out_all (rus ≫= rule_calls) p = Some p' ->
  configured hv alloc (env p') (rules p') /\ NoDup (ruleIndexMap p') /\ ruleIndexMap p `prefix_of` ruleIndexMap p' /\
  exists l, rules p' = rules p ++ l /\ (length (ruleIndexMap p') <= length (ruleIndexMap p) + length l)%nat /\ Forall2 (read_at (ruleIndexMap p')) (entered revs rus) l.
Proof.
  induction rus as [|ru rus IH]; intros p p' revs Hi Hc Ht E.
  - injection E as <-. split_and!; [done|apply Ht|done|]. exists []. rewrite app_nil_r. split_and!; [done|lia|done].
  - cbn [mbind list_bind] in E. rewrite carry_out_app in E. apply bind_Some in E as (p1 & E1 & E2). apply (carry_rule _ _ _ 0) in E1; [|done]. cbn [entered].
    destruct (kept ru); cbn [andb].
    + destruct E1 as (t & q & r & _ & Hr & _ & Hiq & Hq & Ho & Hm & Hru & Hs & E1).
      assert (tables_ok q revs) as Htq by (destruct Ht; constructor; rewrite ?Ho, ?Hm; done).
      apply (close_entered q p1 revs ru) in E1 as (Hi1 & He1 & E1); [|done|by rewrite Hq|by rewrite Hq|done|done]. rewrite Hq in E1. cbn [src_po dst_po flags snort_protocol_id] in E1.
      destruct (head_texts (r_head ru)) as [[[pr sp] dir] dp] eqn:Eh. apply header_index in Hr as [_ Hr]. destruct (negb _).
      * destruct E1 as (Ht1 & Hpre & Hlen & a & b & idx & [= <-] & [= <-] & H0 & Hk & Hru1). specialize (Hr idx). rewrite <- He1 in Hr.
        destruct (IH p1 p' (<[rule_key ru := rev (rule_sig ru)]> revs) Hi1) as (Hc' & Hnd & Hpre' & l & Hl & Hlen' & Hf); [|exact Ht1|done|].
        { rewrite Hru1, Hru. by eapply configured_rule. }
        split_and!; [done|done|by etrans; [rewrite <- Hm|]|]. eexists (_ :: l). rewrite Hl, Hru1, Hru, <- app_assoc. split; [done|]. split; [rewrite Hm in Hlen; cbn; lia|]. constructor; [|done].
        split; [rewrite Eh; eauto|]. split; [done|]. cbn [ruleIndex]. by eapply prefix_lookup_Some.
      * subst p1. rewrite <- Hru, <- Hm. apply (IH q p' revs); try done. rewrite Hru. by eapply configured_merged; [|apply (Z.le_refl 0)|].
    + destruct E1 as (Hi1 & He & Ho & Hm & Hru). rewrite <- Hru, <- Hm. apply (IH p1 p' revs); [done|by rewrite He, Hru| |done].
      destruct Ht; constructor; rewrite ?Ho, ?Hm; done.
Qed.
End Rules.

(** ** From characters to packets *)


(** *** A file with a rule to a port variable, one that is not kept, one for IP
    and two with the number of the first, of a lower and a higher revision *)

Definition demo_file_rules : list rule :=
  [ MkRule (codes "alert") (HFull (codes "tcp") (ILit any_) (Some (ILit any_)) false (ILit any_) (Some (ILit (codes "$p")))) [OArgs (codes "sid") (AWord (codes "7") None) []; OArgs (codes "rev") (AWord (codes "2") None) []];
    MkRule (codes "drop") (HProto (codes "tcp")) [OArgs (codes "sid") (AWord (codes "8") None) []];
    MkRule (codes "alert") (HProto (codes "ip")) [OArgs (codes "sid") (AWord (codes "9") None) []];
    MkRule (codes "alert") (HProto (codes "tcp")) [OArgs (codes "sid") (AWord (codes "7") None) []; OArgs (codes "rev") (AWord (codes "1") None) []];
    MkRule (codes "alert") (HProto (codes "tcp")) [OArgs (codes "sid") (AWord (codes "7") None) []; OArgs (codes "rev") (AWord (codes "3") None) []] ]%string.
Definition demo_file : text := codes "alert tcp any any -> any $p ( sid:7; rev:2; ) drop tcp ( sid:8; ) alert ip ( sid:9; ) alert tcp ( sid:7; rev:1; ) alert tcp ( sid:7; rev:3; )"%string.
Definition demo_mode : run_mode := MkMode false false false false.
Definition demo_file_state : option parse_state :=
  calls ← parse_stream no_extra no_include (S (length demo_file)) false demo_file;
  carry_out_all demo_mode (fun _ => A_NONE) [codes "alert"]%string hashfcn_static Z.of_nat calls (parse_init (demo_env PortTableNew 0)).
Definition pick (l : list rule) (js : list nat) : list rule := omap (fun i => l !! i) js.
Definition demo_file_read : list port_rule := [demo_rule0; PortRules.MkRule (Z.lor ANY_SRC_PORT ANY_DST_PORT) any_object any_object 1 SNORT_PROTO_IP;
   PortRules.MkRule (Z.lor ANY_SRC_PORT ANY_DST_PORT) any_object any_object 0 SNORT_PROTO_TCP].

Lemma demo_file_ok : exists p, demo_file_state = Some p /\ rules p = demo_file_read /\ ruleIndexMap p = [(1, 7); (1, 9)].
Proof. eexists. split_and!; vm_compute; reflexivity. Qed.

Lemma demo_indexes idx : idx ∈ [0; 1] -> idx ∈ map ruleIndex demo_file_read.
Proof.
  replace (map ruleIndex demo_file_read) with [0; 1; 0] by (vm_compute; reflexivity). intros H%list_elem_of_In. apply list_elem_of_In. cbn in *. tauto.
Qed.

(** Tables of few port lists fit. *)
Lemma few_lists_fit t : (length (pt_polist t) <= 500)%nat -> users (pt_polist t) 0 = [] -> table_fits t.
Proof.
  intros Hl H0. split; [|exists 0; by split]. intros i. unfold users. rewrite length_map.
  pose proof (List.filter_length_le (fun x => listed false (item_list x.2) i) (pt_polist t)). unfold SFPO_MAX_LPORTS. lia.
Qed.

Abbreviation demo_file_tables := (proto_of (add_port_rules Z.of_nat false 1024 demo_file_read) SNORT_PROTO_TCP).
Lemma demo_file_fits : table_fits (src_table demo_file_tables) /\ table_fits (dst_table demo_file_tables).
Proof. split; apply few_lists_fit; vm_compute; try reflexivity; lia. Qed.
Lemma demo_file_match : Forall (fun r => r_proto r <> SNORT_PROTO_OTHER /\ (r_proto r = SNORT_PROTO_TCP \/ r_proto r = SNORT_PROTO_IP) /\ ports_match r 85 21 = true) demo_file_read.
Proof. repeat constructor; try done; try (by left); by right. Qed.

