(* ===== verification/Pigasus.v ===== *)
(** * Pigasus: the full matcher behind the FPGA (pigasus/pigasus.cc)

    The FPGA hands over PDUs with the compressed SIDs of the rules that may
    match them; [process_pdu] evaluates the detection trees of these rules and
    counts the verdict.  A content option is used through the interface
    [ContentEval], which the [content] option implements.

    [None] stands for what the code cannot do: dereference a null pointer, or
    leave a loop that never ends. *)

From S2P Require Import Prelude Pcie Cursor Extract ParseUtils BoyerMoore Content Hash Hyperscan Pcrm.

(** ** The interface to content options *)

(** [ce_ok o n]: [o] can be evaluated on buffers of [n] bytes. *)
Class ContentEval (Opt : Type) := {
  ce_eval : Opt -> Cursor -> option (EvalStatus * Cursor);
  ce_ok : Opt -> Z -> Prop;
  ce_eval_ok : forall o c, cursor_wf c -> ce_ok o (sz c) ->
    exists st c', ce_eval o c = Some (st, c') /\ cursor_wf c' /\ sz c' = sz c /\
      (st = MATCH \/ st = NO_MATCH) }.

(** ** Detection trees *)

(** [detection_option_tree_node_t]: the data is the option of a content node. *)
Inductive tree (Opt : Type) :=
  Node (option_type : option_type_t) (option_data : option Opt) (children : list (tree Opt)).
Arguments Node {Opt}.

(** [detection_option_tree_root_t]: its children. *)
Abbreviation root Opt := (list (tree Opt)).

Section Trees.
Context {Opt : Type} `{!ContentEval Opt}.

(** [eval_node]; the cursor is passed by value, which is the copy. *)
Fixpoint eval_node (node : tree Opt) (cursor : Cursor) : option EvalStatus :=
  match node with
  | Node option_type option_data children =>
      let cursor := cursor_copy cursor in
      let eval_children (cursor : Cursor) :=
        (fix loop (l : list (tree Opt)) : option EvalStatus :=
           match l with
           | [] => Some MATCH
           | n :: l =>
               match eval_node n cursor with
               | Some MATCH => loop l
               | r => r
               end
           end) children in
      match option_type with
      | RULE_OPTION_TYPE_LEAF_NODE => Some MATCH
      | RULE_OPTION_TYPE_CONTENT =>
          match option_data with
          | None => None
          | Some opt =>
              match ce_eval opt cursor with
              | None => None
              | Some (MATCH, cursor) => eval_children cursor
              | Some (eval_status, _) => Some eval_status
              end
          end
      | _ => eval_children cursor
      end
  end.

Fixpoint eval_tree_loop (l : list (tree Opt)) (cursor : Cursor) : option EvalStatus :=
  match l with
  | [] => Some MATCH
  | n :: l =>
      match eval_node n cursor with
      | Some MATCH => eval_tree_loop l cursor
      | r => r
      end
  end.

Definition eval_tree (r : root Opt) (cursor : Cursor) : option EvalStatus :=
  eval_tree_loop r (cursor_copy cursor).

End Trees.

(** ** Port groups *)

Section Engine.
Context {Opt U L : Type} `{!ContentEval Opt}.

(** [PortGroup]: the matchers by [PmType] ([PM_TYPE_PKT] is 0) and the number
    of rules.  Groups are shared between ports: a pointer is an index into
    the list of all groups. *)
Record PortGroup := MkGroup {
  mpse : list (option (HyperscanMpse U (root Opt) L));
  rule_count : Z }.

Definition pg_rule_count (s : list PortGroup) (g : nat) : Z :=
  match s !! g with Some pg => rule_count pg | None => 0 end.

Variable sid_of : U -> Z.
Variable sid_compressed_sid_map : gmap Z Z.

Definition init_mpse (m : option (HyperscanMpse U (root Opt) L)) :=
  update_compressed_sid_id_map sid_of sid_compressed_sid_map <$> m.

Definition init_group (g : PortGroup) : PortGroup :=
  MkGroup (map init_mpse (mpse g)) (rule_count g).

Definition init_rule_id_map (s : list PortGroup) (port_group : option nat) : list PortGroup :=
  match port_group with
  | None => s
  | Some g => alter init_group g s
  end.

(** [pigasus_init]: the destination and the source group of each port, then
    the generic group. *)
Fixpoint init_ports (dst src : list (option nat)) (s : list PortGroup) : list PortGroup :=
  match dst, src with
  | d :: dst, r :: src => init_ports dst src (init_rule_id_map (init_rule_id_map s d) r)
  | _, _ => s
  end.

Definition pigasus_init (tcp_prm : PORT_RULE_MAP nat) (s : list PortGroup) : list PortGroup :=
  init_rule_id_map (init_ports (prmDstPort tcp_prm) (prmSrcPort tcp_prm) s) (prmGeneric tcp_prm).

(** ** Processing a PDU *)

(** The loop of [process_pdu_payload] over the SIDs, with the status so far. *)
Fixpoint payload_loop (so : HyperscanMpse U (root Opt) L) (cursor : Cursor) (rule_sids : list Z)
    (eval_status : EvalStatus) : option EvalStatus :=
  match rule_sids with
  | [] => Some eval_status
  | rule_sid :: rule_sids =>
      match get_pattern_from_compressed_sid so rule_sid with
      | None => payload_loop so cursor rule_sids eval_status
      | Some patt =>
          match user_tree patt with
          | None => None
          | Some r =>
              match eval_tree r cursor with
              | None => None
              | Some NO_MATCH => payload_loop so cursor rule_sids NO_MATCH
              | Some eval_status => Some eval_status
              end
          end
      end
  end.

Definition process_pdu_payload (s : list PortGroup) (port_group : nat) (data : list Z) (size : Z)
    (rule_sids : list Z) : option EvalStatus :=
  match s !! port_group with
  | None => None
  | Some pg =>
      let cursor := cursor_set "pkt_data" data size in
      match rule_sids, mpse pg !! 0%nat with
      | [], _ => Some NO_MATCH
      | _, Some (Some so) => payload_loop so cursor rule_sids NO_MATCH
      | _, _ => None
      end
  end.

(** [process_pdu] on a payload: the groups of the destination port, of the
    source port and the generic group, until one gives a verdict. *)
Definition process_groups (s : list PortGroup) (l : list (option nat)) (data : list Z) (size : Z)
    (rule_sids : list Z) : option EvalStatus :=
  (fix loop (l : list (option nat)) (eval_status : EvalStatus) : option EvalStatus :=
     match l with
     | [] => Some eval_status
     | None :: l => loop l eval_status
     | Some g :: l =>
         match process_pdu_payload s g data size rule_sids with
         | None => None
         | Some NO_MATCH => loop l NO_MATCH
         | Some eval_status => Some eval_status
         end
     end) l NO_MATCH.

Variable split_any_any : bool.

Definition process_pdu (s : list PortGroup) (tcp_prm : PORT_RULE_MAP nat) (data : list Z) (size s_port d_port : Z)
    (rule_sids : list Z) : option EvalStatus :=
  let r := prmFindRuleGroupTcp (pg_rule_count s) split_any_any (Some tcp_prm) d_port s_port in
  if negb (found r) then Some NO_MATCH
  else process_groups s [dst r; src r; gen r] data size rule_sids.

(** ** Processing a block *)

Definition NB_RULES_IN_LINE : Z := 32.

(** The loop that collects the distinct non-zero SIDs; [i] is [uint16_t]. *)
Fixpoint collect_sids (fuel : nat) (i bound : Z) (raw_sids : Z -> Z) (vec : list Z)
    : option (list Z) :=
  match fuel with
  | 0%nat => None
  | S fuel =>
      if i <? bound then
        let vec := if truth (raw_sids i) then
                     if existsb (Z.eqb (raw_sids i)) vec then vec else vec ++ [raw_sids i]
                   else vec in
        collect_sids fuel (u16 (i + 1)) bound raw_sids vec
      else Some vec
  end.

(** Little-endian views of the mapped words: bytes and 16-bit ids at a pointer. *)
Definition byte_at (m : mem) (p i : Z) : Z := u8 (Z.shiftr (m (p + i / 4)) (8 * (i mod 4))).
Definition half_at (m : mem) (p i : Z) : Z := u16 (Z.shiftr (m (p + i / 2)) (16 * (i mod 2))).

Definition payload (m : mem) (b : block_s) : list Z :=
  map (byte_at m (pdu_payload b)) (seqZ 0 (pdu_size b)).

(** The two counters. *)
Record counters := MkCounters { match_cntr : Z; no_match_cntr : Z }.

Definition count (c : counters) (eval_status : EvalStatus) : counters :=
  match eval_status with
  | NO_MATCH => MkCounters (match_cntr c) (u64 (no_match_cntr c + 1))
  | MATCH => MkCounters (u64 (match_cntr c + 1)) (no_match_cntr c)
  | _ => c
  end.

(** The verdict on a block: collect the SIDs, evaluate. *)
Definition block_verdict (s : list PortGroup) (tcp_prm : PORT_RULE_MAP nat) (m : mem) (b : block_s)
    : option EvalStatus :=
  match collect_sids (Z.to_nat 65537) 0 (u32 (num_rule_id b * NB_RULES_IN_LINE))
          (half_at m (rule_id b)) [] with
  | None => None
  | Some sids => process_pdu s tcp_prm (payload m b) (pdu_size b) (src_port b) (dst_port b) sids
  end.

Definition process_block (s : list PortGroup) (tcp_prm : PORT_RULE_MAP nat) (m : mem) (b : block_s)
    (c : option counters) : option counters :=
  match c, block_verdict s tcp_prm m b with
  | Some c, Some eval_status => Some (count c eval_status)
  | _, _ => None
  end.

End Engine.

(** ** What a tree evaluation means *)

Section TreeSpec.
Context {Opt : Type} `{!ContentEval Opt}.

(** Induction on trees with the hypothesis for all children. *)
Lemma tree_induction (P : tree Opt -> Prop) :
  (forall ty o ch, Forall P ch -> P (Node ty o ch)) -> forall n, P n.
Proof.
  intros H. fix IH 1. intros [ty o ch]. apply H. induction ch; constructor; auto.
Qed.

Lemma eval_node_eq ty o ch c :
  eval_node (Node ty o ch) c =
  match ty with
  | RULE_OPTION_TYPE_LEAF_NODE => Some MATCH
  | RULE_OPTION_TYPE_CONTENT =>
      match o with
      | None => None
      | Some opt =>
          match ce_eval opt (cursor_copy c) with
          | None => None
          | Some (MATCH, c') => eval_tree_loop ch c'
          | Some (st, _) => Some st
          end
      end
  | _ => eval_tree_loop ch (cursor_copy c)
  end.
Proof.
  assert (forall c l,
    (fix loop (l : list (tree Opt)) : option EvalStatus :=
       match l with
       | [] => Some MATCH
       | n :: l => match eval_node n c with Some MATCH => loop l | r => r end
       end) l = eval_tree_loop l c) as Hl.
  { intros c0 l. induction l as [|n l IH]; simpl; [done|]. by rewrite IH. }
  simpl. destruct ty; try done; try apply Hl.
  destruct o as [opt|]; [|done]. destruct (ce_eval opt (cursor_copy c)) as [[[] c']|]; try done.
Qed.

(** The sequence of content options on each path from a node down. *)
Fixpoint node_paths (n : tree Opt) : list (list Opt) :=
  match n with
  | Node ty o ch =>
      let below := match ch with [] => [[]] | _ => flat_map node_paths ch end in
      match ty with
      | RULE_OPTION_TYPE_LEAF_NODE => [[]]
      | RULE_OPTION_TYPE_CONTENT =>
          match o with Some o => map (cons o) below | None => below end
      | _ => below
      end
  end.

(** One sequence of contents, each evaluated where the one before left the
    cursor. *)
Fixpoint seq_eval (os : list Opt) (c : Cursor) : option EvalStatus :=
  match os with
  | [] => Some MATCH
  | o :: os =>
      match ce_eval o (cursor_copy c) with
      | None => None
      | Some (MATCH, c') => seq_eval os c'
      | Some (st, _) => Some st
      end
  end.

(** Trees whose content nodes carry an option that works on [n] bytes. *)
Inductive tree_ok (n : Z) : tree Opt -> Prop :=
| ok_leaf o ch : tree_ok n (Node RULE_OPTION_TYPE_LEAF_NODE o ch)
| ok_content o ch : ce_ok o n -> Forall (tree_ok n) ch ->
    tree_ok n (Node RULE_OPTION_TYPE_CONTENT (Some o) ch)
| ok_other ty o ch : ty <> RULE_OPTION_TYPE_LEAF_NODE -> ty <> RULE_OPTION_TYPE_CONTENT ->
    Forall (tree_ok n) ch -> tree_ok n (Node ty o ch).

Definition verdict (r : option EvalStatus) : Prop := r = Some MATCH \/ r = Some NO_MATCH.

Lemma eval_tree_loop_verdict l c :
  Forall (fun n => verdict (eval_node n c)) l -> verdict (eval_tree_loop l c).
Proof.
  induction 1 as [|n l Hn Hl IH]; simpl; [by left|]. by destruct Hn as [-> | ->]; [|right].
Qed.

Lemma eval_node_total n t c :
  tree_ok n t -> cursor_wf c -> sz c = n -> verdict (eval_node t c).
Proof.
  revert c. induction t as [ty o ch IH] using tree_induction. intros c Hok Hc Hsz.
  assert (forall c', cursor_wf c' -> sz c' = n -> Forall (tree_ok n) ch ->
    verdict (eval_tree_loop ch c')) as Hch.
  { intros c' Hc' Hs' Hf. apply eval_tree_loop_verdict. rewrite Forall_forall in IH, Hf |- *.
    intros t Ht. by apply IH; [|apply Hf| |]. }
  rewrite eval_node_eq. inversion Hok as [| |? ? ? Hl Hct]; subst.
  - by left.
  - destruct (ce_eval_ok o0 (cursor_copy c)) as (st & c' & -> & Hc' & Hs' & Hst);
      [by apply cursor_copy_wf|done|].
    destruct Hst as [-> | ->]; [|by right]. apply Hch; done.
  - destruct ty; try done; apply Hch; auto using cursor_copy_wf.
Qed.

Lemma eval_tree_loop_match l c :
  eval_tree_loop l c = Some MATCH <-> Forall (fun n => eval_node n c = Some MATCH) l.
Proof.
  induction l as [|n l IH]; simpl; [split; [constructor|done]|].
  rewrite Forall_cons, <- IH. destruct (eval_node n c) as [[]|]; intuition congruence.
Qed.

Lemma seq_eval_copy os c : seq_eval os (cursor_copy c) = seq_eval os c.
Proof. by destruct os. Qed.

Lemma Forall_flat_map_paths (P : list Opt -> Prop) (l : list (tree Opt)) :
  Forall P (flat_map node_paths l) <-> Forall (fun n => Forall P (node_paths n)) l.
Proof.
  induction l as [|n l IH]; simpl; [by split|]. by rewrite Forall_app, IH, Forall_cons.
Qed.

(** The paths below a node's children. *)
Lemma below_match ch c :
  Forall (fun n => forall c, eval_node n c = Some MATCH <->
    Forall (fun p => seq_eval p c = Some MATCH) (node_paths n)) ch ->
  eval_tree_loop ch c = Some MATCH <->
  Forall (fun p => seq_eval p c = Some MATCH)
    (match ch with [] => [[]] | _ => flat_map node_paths ch end).
Proof.
  intros IH. rewrite eval_tree_loop_match. destruct ch as [|n ch].
  { split; [|done]. by repeat constructor. }
  rewrite Forall_flat_map_paths. rewrite !Forall_forall. rewrite Forall_forall in IH.
  split; intros H t Ht; apply IH; auto.
Qed.

Lemma node_paths_nonempty t : node_paths t <> [].
Proof.
  induction t as [ty o ch IH] using tree_induction.
  assert ((match ch with [] => [[]] | _ => flat_map node_paths ch end) <> []) as Hb.
  { destruct ch as [|n ch]; [done|]. apply Forall_cons in IH as [Hn _]. simpl.
    by destruct (node_paths n). }
  cbn [node_paths]. destruct ty; try done. destruct o; [|done].
  intros E. apply Hb. by apply map_eq_nil in E.
Qed.

Lemma below_nonempty (ch : list (tree Opt)) :
  exists p l, (match ch with [] => [[]] | _ => flat_map node_paths ch end) = p :: l.
Proof.
  pose proof (node_paths_nonempty (Node RULE_OPTION_TYPE_OTHER None ch)) as H. cbn [node_paths] in H.
  destruct (match ch with [] => [[]] | _ => flat_map node_paths ch end) as [|p l]; [done|eauto].
Qed.

Lemma node_match n t c :
  tree_ok n t ->
  eval_node t c = Some MATCH <-> Forall (fun p => seq_eval p c = Some MATCH) (node_paths t).
Proof.
  revert c. induction t as [ty o ch IH] using tree_induction. intros c Hok.
  assert (Forall (tree_ok n) ch -> forall c, eval_tree_loop ch c = Some MATCH <->
    Forall (fun p => seq_eval p c = Some MATCH)
      (match ch with [] => [[]] | _ => flat_map node_paths ch end)) as Hch.
  { intros Hf c'. apply below_match. rewrite Forall_forall in IH, Hf |- *.
    intros t Ht c0. apply IH; [done|]. by apply Hf. }
  rewrite eval_node_eq. inversion Hok as [| |? ? ? Hl Hct]; subst.
  - simpl. split; [|done]. by repeat constructor.
  - cbn [node_paths]. rewrite Forall_map. destruct (below_nonempty ch) as (p0 & l & Hb).
    assert (forall p, seq_eval (o0 :: p) c =
        match ce_eval o0 (cursor_copy c) with
        | None => None | Some (MATCH, c') => seq_eval p c' | Some (st, _) => Some st
        end) as Hs by done.
    destruct (ce_eval o0 (cursor_copy c)) as [[[] c']|]; try (rewrite Hb, Forall_cons, Hs; intuition congruence).
    setoid_rewrite Hs. by apply Hch.
  - assert (forall p, seq_eval p c = seq_eval p (cursor_copy c)) as Hcp
      by (intros; by rewrite seq_eval_copy).
    setoid_rewrite Hcp. cbn [node_paths]. destruct ty; try done; by apply Hch.
Qed.

Lemma eval_tree_paths n r c :
  Forall (tree_ok n) r ->
  eval_tree r c = Some MATCH <->
  Forall (fun p => seq_eval p c = Some MATCH) (flat_map node_paths r).
Proof.
  intros Hr. unfold eval_tree. rewrite eval_tree_loop_match, Forall_flat_map_paths, !Forall_forall.
  rewrite Forall_forall in Hr. split; intros H t Ht.
  - apply H in Ht as Hm. apply (node_match n) in Hm; [|auto].
    eapply Forall_impl; [exact Hm|]. intros p. simpl. by rewrite seq_eval_copy.
  - apply (node_match n); [auto|]. eapply Forall_impl; [by apply H|]. intros p. simpl.
    by rewrite seq_eval_copy.
Qed.

Lemma eval_tree_total n r c :
  Forall (tree_ok n) r -> cursor_wf c -> sz c = n -> verdict (eval_tree r c).
Proof.
  intros Hr Hc Hsz. apply eval_tree_loop_verdict. eapply Forall_impl; [exact Hr|].
  intros t Ht. by eapply eval_node_total; [|apply cursor_copy_wf|].
Qed.
End TreeSpec.

(** ** Collecting the SIDs of a block *)

Definition add_sid (vec : list Z) (x : Z) : list Z :=
  if truth x then if existsb (Z.eqb x) vec then vec else vec ++ [x] else vec.

Lemma existsb_eqb x (l : list Z) : existsb (Z.eqb x) l = true <-> x ∈ l.
Proof.
  rewrite existsb_exists. split.
  - intros (y & Hy & E%Z.eqb_eq). subst. by apply list_elem_of_In.
  - intros H%list_elem_of_In. exists x. by rewrite Z.eqb_refl.
Qed.

Lemma add_sid_spec vec x :
  (NoDup vec -> NoDup (add_sid vec x)) /\
  (forall y, y ∈ add_sid vec x <-> y ∈ vec \/ y = x /\ x <> 0).
Proof.
  unfold add_sid. bcase (truth x) as E; [|split; [done|]; intros y; intuition lia].
  destruct (existsb (Z.eqb x) vec) eqn:Ex.
  - apply existsb_eqb in Ex. split; [done|]. intros y. split; [auto|]. by intros [?|[-> _]].
  - assert (x ∉ vec) as Hx by (rewrite <- existsb_eqb; congruence). split.
    + intros Hn. apply NoDup_app. split_and!; [done| |apply NoDup_singleton].
      intros y Hy Hy'%list_elem_of_singleton. by subst.
    + intros y. rewrite elem_of_app, list_elem_of_singleton. intuition lia.
Qed.

Lemma collect_sids_S fuel i bound raw vec :
  collect_sids (S fuel) i bound raw vec =
  if i <? bound then collect_sids fuel (u16 (i + 1)) bound raw (add_sid vec (raw i)) else Some vec.
Proof. done. Qed.

Lemma collect_sids_ends fuel i bound raw vec :
  0 <= i <= bound -> bound <= 65535 -> bound - i < Z.of_nat fuel ->
  exists vec', collect_sids fuel i bound raw vec = Some vec' /\
    (NoDup vec -> NoDup vec') /\
    forall x, x ∈ vec' <-> x ∈ vec \/ (x <> 0 /\ exists j, i <= j < bound /\ raw j = x).
Proof.
  revert i vec. induction fuel as [|fuel IH]; intros i vec Hi Hb Hf; [lia|].
  rewrite collect_sids_S. bcase (i <? bound) as E.
  - rewrite u16_small by (unfold is_u16; lia).
    destruct (IH (i + 1) (add_sid vec (raw i))) as (vec' & Hv & Hn & Hx); [lia..|].
    destruct (add_sid_spec vec (raw i)) as [Hn1 Hx1].
    exists vec'. split_and!; [done|auto|]. intros x. rewrite Hx, Hx1. split.
    + intros [[?|[-> ?]]|(? & j & ? & ?)]; [auto|right|right]; (split; [done|]);
        [exists i|exists j]; (split; [lia|done]).
    + intros [?|(? & j & ? & Hj)]; [auto|]. destruct (Z.eq_dec j i) as [->|];
        [left; right; by subst|]. right. split; [done|]. exists j. split; [lia|done].
  - exists vec. split_and!; [done|done|]. intros x. split; [auto|].
    intros [?|(_ & j & ? & _)]; [done|lia].
Qed.

Lemma collect_sids_stuck fuel i bound raw vec :
  is_u16 i -> 65535 < bound -> collect_sids fuel i bound raw vec = None.
Proof.
  revert i vec. induction fuel as [|fuel IH]; intros i vec Hi Hb; [done|].
  rewrite collect_sids_S. unfold is_u16 in Hi. bcase (i <? bound) as E; [|lia].
  apply IH; [apply u16_range|done].
Qed.

(** ** Verdicts *)

Section EngineSpec.
Context {Opt U L : Type} `{!ContentEval Opt}.
Implicit Types (so : HyperscanMpse U (root Opt) L) (s : list (PortGroup (Opt := Opt) (U := U) (L := L))).

(** Every pattern has its tree, and the trees work on [n] bytes. *)
Definition mpse_ok (n : Z) so : Prop :=
  Forall (fun p => exists r, user_tree p = Some r /\ Forall (tree_ok n) r) (pvector so).

Definition group_ok (n : Z) s (g : nat) : Prop :=
  exists pg so, s !! g = Some pg /\ mpse pg !! 0%nat = Some (Some so) /\ mpse_ok n so.

(** The rule with compressed SID [sid], in group [g], matches. *)
Definition rule_matches so (c : Cursor) (sid : Z) : Prop :=
  exists p r, get_pattern_from_compressed_sid so sid = Some p /\ user_tree p = Some r /\
    eval_tree r c = Some MATCH.

Definition sid_matches s (g : nat) (c : Cursor) (sid : Z) : Prop :=
  exists pg so, s !! g = Some pg /\ mpse pg !! 0%nat = Some (Some so) /\ rule_matches so c sid.

Lemma get_pattern_in so sid p :
  get_pattern_from_compressed_sid so sid = Some p -> p ∈ pvector so.
Proof.
  unfold get_pattern_from_compressed_sid. destruct (_ !! sid) as [i|]; [|done].
  unfold rd. bcases; [done|]. apply list_elem_of_lookup_2.
Qed.

Lemma payload_loop_spec n so c sids :
  mpse_ok n so -> cursor_wf c -> sz c = n ->
  verdict (payload_loop so c sids NO_MATCH) /\
  (payload_loop so c sids NO_MATCH = Some MATCH <-> exists sid, sid ∈ sids /\ rule_matches so c sid).
Proof.
  intros Hok Hc Hsz. induction sids as [|sid sids [IHv IHm]]; simpl.
  { split; [by right|]. split; [done|]. intros (? & ?%not_elem_of_nil & _). done. }
  assert (forall P : Z -> Prop, ~ P sid ->
    (exists x, x ∈ sids /\ P x) <-> (exists x, x ∈ sid :: sids /\ P x)) as Hskip.
  { intros P HP. split; intros (x & Hx & Px); exists x; (split; [|done]).
    - by right.
    - apply elem_of_cons in Hx as [->|?]; done. }
  destruct (get_pattern_from_compressed_sid so sid) as [p|] eqn:Ep.
  2: { split; [done|]. rewrite IHm. apply Hskip. intros (p & r & ? & _). congruence. }
  destruct (proj1 (Forall_forall _ _) Hok p (get_pattern_in _ _ _ Ep)) as (r & Hr & Htr).
  rewrite Hr. destruct (eval_tree_total n r c Htr Hc Hsz) as [Ev|Ev]; rewrite Ev.
  - split; [by left|]. split; [|done]. intros _. exists sid. split; [left|]. by exists p, r.
  - split; [done|]. rewrite IHm. apply Hskip. intros (p' & r' & ? & ? & ?). congruence.
Qed.

Lemma process_pdu_payload_spec n s g data sids :
  group_ok n s g -> bytes data -> Zlen data = n -> is_u32 n ->
  let r := process_pdu_payload s g data n sids in
  verdict r /\
  (r = Some MATCH <-> exists sid, sid ∈ sids /\ sid_matches s g (cursor_set "pkt_data" data n) sid).
Proof.
  intros (pg & so & Hg & Hm & Hok) Hb Hl Hn. unfold process_pdu_payload. rewrite Hg, Hm.
  assert (cursor_wf (cursor_set "pkt_data" data n)) as Hc.
  { apply cursor_set_wf; [done| |done]. unfold is_u32 in Hn. lia. }
  assert (sz (cursor_set "pkt_data" data n) = n) as Hs by (simpl; by apply u32_small).
  destruct (payload_loop_spec n so _ sids Hok Hc Hs) as [Hv Hmt].
  destruct sids as [|sid sids].
  { simpl. split; [by right|]. split; [done|]. intros (? & ?%not_elem_of_nil & _). done. }
  split; [done|]. rewrite Hmt. split.
  - intros (x & Hx & Hr). exists x. split; [done|]. by exists pg, so.
  - intros (x & Hx & pg' & so' & Hg' & Hm' & Hr). exists x. split; [done|]. congruence.
Qed.

Lemma process_groups_spec n s l data sids :
  Forall (fun g => forall i, g = Some i -> group_ok n s i) l ->
  bytes data -> Zlen data = n -> is_u32 n ->
  let r := process_groups s l data n sids in
  verdict r /\
  (r = Some MATCH <-> exists g sid, Some g ∈ l /\ sid ∈ sids /\
     sid_matches s g (cursor_set "pkt_data" data n) sid).
Proof.
  intros Hl Hb Hlen Hn. unfold process_groups.
  induction Hl as [|g l Hg Hl [IHv IHm]]; simpl.
  { split; [by right|]. split; [done|]. intros (? & ? & ?%not_elem_of_nil & _). done. }
  assert (forall P : nat -> Z -> Prop, (forall i x, g = Some i -> ~ P i x) ->
    (exists i x, Some i ∈ l /\ P i x) <-> (exists i x, Some i ∈ g :: l /\ P i x)) as Hskip.
  { intros P HP. split; intros (i & x & Hi & Px); exists i, x; (split; [|done]).
    - by right.
    - apply elem_of_cons in Hi as [<-|?]; [by destruct (HP i x)|done]. }
  destruct g as [g|].
  2: { split; [done|]. rewrite IHm. by apply Hskip. }
  destruct (process_pdu_payload_spec n s g data sids (Hg g eq_refl) Hb Hlen Hn) as [Hv Hm].
  destruct Hv as [E|E]; rewrite E in *.
  - split; [by left|]. split; [|done]. intros _. destruct Hm as [(sid & ? & ?) _]; [done|].
    exists g, sid. split; [left|done].
  - split; [done|]. rewrite IHm. apply Hskip. intros i x [= <-] [Hx Hmx].
    destruct Hm as [_ Hm]. by discriminate Hm; eauto.
Qed.

(** ** Initialisation *)

Variable sid_of : U -> Z.
Variable sid_compressed_sid_map : gmap Z Z.
Abbreviation init := (init_rule_id_map sid_of sid_compressed_sid_map).
Abbreviation initg := (init_group sid_of sid_compressed_sid_map).

Lemma init_group_idem (g : PortGroup (Opt := Opt) (U := U) (L := L)) : initg (initg g) = initg g.
Proof.
  unfold init_group. simpl. f_equal. rewrite map_map. apply map_ext. by intros [m|].
Qed.

(** [done_ P s s']: [s'] is [s] with exactly the groups in [P] initialised. *)
Definition initialised (P : nat -> Prop) s s' : Prop :=
  forall i, (P i -> s' !! i = initg <$> s !! i) /\ (~ P i -> s' !! i = s !! i).

Lemma init_rule_id_map_spec P s s' o :
  (forall i, P i \/ ~ P i) ->
  initialised P s s' -> initialised (fun i => P i \/ o = Some i) s (init s' o).
Proof.
  intros HP H i. destruct o as [g|]; simpl.
  2: { split; [intros [Hp|?]; [by apply H|done]|]. intros Hn. apply H. tauto. }
  destruct (decide (i = g)) as [->|Hne].
  - split; [intros _|tauto]. rewrite list_lookup_alter_eq. destruct (HP g) as [Hp|Hp].
    + rewrite (proj1 (H g) Hp). destruct (s !! g); simpl; [by rewrite init_group_idem|done].
    + by rewrite (proj2 (H g) Hp).
  - rewrite list_lookup_alter_ne by done. split; [intros [?|[= ->]]; [by apply H|done]|].
    intros Hn. apply H. tauto.
Qed.

Lemma initialised_ext P Q s s' :
  (forall i, P i <-> Q i) -> initialised P s s' -> initialised Q s s'.
Proof. intros HPQ H i. split; intros Hq; apply H; by rewrite HPQ. Qed.

Lemma init_ports_spec dst src P s s' :
  (forall i, P i \/ ~ P i) -> length dst = length src -> initialised P s s' ->
  initialised (fun i => P i \/ Some i ∈ dst \/ Some i ∈ src) s
    (init_ports sid_of sid_compressed_sid_map dst src s').
Proof.
  revert src P s'. induction dst as [|d dst IH]; intros [|r src] P s' HP Hlen H; try done.
  - eapply initialised_ext; [|exact H]. intros i. rewrite !elem_of_nil. tauto.
  - simpl. assert (forall (o : option nat) i, o = Some i \/ o <> Some i) as Hdec
      by (intros o i; destruct (decide (o = Some i)); auto).
    eapply initialised_ext; [|apply (IH src (fun i => (P i \/ d = Some i) \/ r = Some i));
      [| simpl in Hlen; lia |]].
    + intros i. simpl. rewrite !elem_of_cons. intuition congruence.
    + intros i. destruct (HP i), (Hdec d i), (Hdec r i); tauto.
    + apply init_rule_id_map_spec; [intros i; destruct (HP i), (Hdec d i); tauto|].
      by apply init_rule_id_map_spec.
Qed.

End EngineSpec.

(** ** The [content] option implements the interface *)

Lemma content_ce_ok v cd c :
  cursor_wf c -> content_ok cd /\ small cd c ->
  exists st c', CheckANDPatternMatch v cd c = Some (st, c') /\ cursor_wf c' /\ sz c' = sz c /\
    (st = MATCH \/ st = NO_MATCH).
Proof.
  intros Hc [Hok Hs]. destruct (search_window v cd c) as [p d] eqn:Ew.
  destruct (uniSearchReal_eq v cd c p d Hok Hc Hs Ew) as (r & _ & Hu).
  unfold CheckANDPatternMatch. rewrite Hu.
  destruct (r >=? 0).
  - eexists _, _. split; [done|]. split; [by apply cursor_after_match_wf|]. split.
    + destruct (set_delta_data c (p + r + match_delta cd)) as (_ & <- & _). apply set_pos_data.
    + bcases; auto.
  - eexists _, c. split; [done|]. split; [done|]. split; [done|]. bcases; auto.
Qed.

#[export] Instance content_interface (v : ips_vars) : ContentEval ContentData := {
  ce_eval := CheckANDPatternMatch v;
  ce_ok cd n := content_ok cd /\ n < 2 ^ 29 /\ Zlen (pattern_buf (pmd cd)) < 2 ^ 29 /\
                0 <= match_delta cd < 2 ^ 29;
  ce_eval_ok := content_ce_ok v }.

(** ** Whole PDUs *)

Section Whole.
Context {Opt U L : Type} `{!ContentEval Opt}.
Variable split_any_any : bool.
Variable s : list (PortGroup (Opt := Opt) (U := U) (L := L)).
Variable prm : PORT_RULE_MAP nat.

(** The groups [process_pdu] evaluates for a port pair. *)
Definition selected (sport dport : Z) (g : nat) : Prop :=
  let r := prmFindRuleGroupTcp (pg_rule_count s) split_any_any (Some prm) dport sport in
  dst r = Some g \/ src r = Some g \/ gen r = Some g.

Definition engine_ok : Prop :=
  forall n sport dport g, 0 <= n < 2 ^ 29 -> selected sport dport g -> group_ok n s g.

(** Memory that holds just the words of a PDU. *)
Definition words_mem (w : list Z) : mem := rd0 w.

Definition no_block : block_s := Block 0 0 0 0 0 0 0 0 0 0 0 0.

Definition block_of (w : list Z) : block_s := fill_block (words_mem w) 0 no_block.

(** The handler [dma_run] is given, on the words of one PDU. *)
Definition handle (w : list Z) (c : option counters) : option counters :=
  process_block split_any_any s prm (words_mem w) (block_of w) c.

(** A PDU with less than 2048 lines of rule ids and a payload below 2^29. *)
Definition pdu_good (w : list Z) : Prop :=
  0 <= num_rule_id (block_of w) < 2048 /\ 0 <= pdu_size (block_of w) < 2 ^ 29.

(** The payload and the lines of rule ids lie in the flits of the PDU. *)
Definition pdu_fits (w : list Z) : Prop :=
  rule_id (block_of w) + 16 * num_rule_id (block_of w) <= Zlen w.

(** Some rule the FPGA named for this PDU, in a group selected by the ports,
    matches the payload. *)
Definition pdu_matches (w : list Z) : Prop :=
  let b := block_of w in let m := words_mem w in
  exists g sid i, 0 <= i < num_rule_id b * NB_RULES_IN_LINE /\
    half_at m (rule_id b) i = sid /\ sid <> 0 /\
    selected (src_port b) (dst_port b) g /\
    sid_matches s g (cursor_set "pkt_data" (payload m b) (pdu_size b)) sid.

Lemma payload_bytes m b : 0 <= pdu_size b -> bytes (payload m b) /\ Zlen (payload m b) = pdu_size b.
Proof.
  intros Hn. unfold payload. split.
  - apply Forall_map, Forall_forall. intros x _. apply u8_range.
  - unfold Zlen. rewrite length_map, length_seqZ. lia.
Qed.

Lemma process_pdu_spec data n sport dport sids :
  engine_ok -> bytes data -> Zlen data = n -> n < 2 ^ 29 ->
  let r := process_pdu split_any_any s prm data n sport dport sids in
  verdict r /\
  (r = Some MATCH <-> exists g sid, selected sport dport g /\ sid ∈ sids /\
     sid_matches s g (cursor_set "pkt_data" data n) sid).
Proof.
  intros Hok Hb Hl Hn r. subst r. unfold process_pdu, selected.
  assert (is_u32 n) as Hu by (unfold is_u32; pose proof (Zlen_nonneg data); lia).
  pose proof (Zlen_nonneg data) as Hnn. rewrite Hl in Hnn.
  assert (forall g, selected sport dport g -> group_ok n s g) as Hg by (intros; by eapply Hok).
  unfold selected in Hg.
  set (r := prmFindRuleGroupTcp _ _ _ _ _) in *.
  destruct (found r) eqn:Ef; simpl negb; cbv iota.
  - destruct (process_groups_spec n s [dst r; src r; gen r] data sids) as [Hv Hm]; try done.
    { repeat constructor; intros i Hi; apply Hg; auto. }
    split; [done|]. rewrite Hm. split; intros (g & sid & Hin & Hrest); exists g, sid; (split; [|done]).
    + rewrite !elem_of_cons, elem_of_nil in Hin. destruct Hin as [?|[?|[?|[]]]]; auto.
    + rewrite !elem_of_cons. destruct Hin as [->|[->| ->]]; auto.
  - assert (src r = None /\ dst r = None /\ gen r = None) as (E1 & E2 & E3)
      by (by apply found_spec in Ef).
    split; [by right|]. split; [done|]. intros (g & sid & Hin & _). rewrite E1, E2, E3 in Hin.
    by destruct Hin as [?|[?|?]].
Qed.

Lemma block_verdict_spec w :
  engine_ok -> pdu_good w ->
  let r := block_verdict split_any_any s prm (words_mem w) (block_of w) in
  verdict r /\ (r = Some MATCH <-> pdu_matches w).
Proof.
  intros Hok [Hr Hs] r. subst r. unfold block_verdict.
  assert (u32 (num_rule_id (block_of w) * NB_RULES_IN_LINE) =
          num_rule_id (block_of w) * NB_RULES_IN_LINE) as ->.
  { unfold NB_RULES_IN_LINE. apply u32_small. unfold is_u32. lia. }
  destruct (collect_sids_ends (Z.to_nat 65537) 0 (num_rule_id (block_of w) * NB_RULES_IN_LINE)
    (half_at (words_mem w) (rule_id (block_of w))) []) as (sids & -> & _ & Hx);
    [unfold NB_RULES_IN_LINE; lia..|].
  destruct (payload_bytes (words_mem w) (block_of w)) as [Hb Hl]; [lia|].
  destruct (process_pdu_spec _ _ (src_port (block_of w)) (dst_port (block_of w)) sids Hok Hb Hl)
    as [Hv Hm]; [lia|].
  split; [done|]. rewrite Hm. unfold pdu_matches. split.
  - intros (g & sid & Hg & Hin & Hmt). apply Hx in Hin as [?%not_elem_of_nil|(Hnz & j & Hj & E)]; [done|].
    exists g, sid, j. done.
  - intros (g & sid & j & Hj & E & Hnz & Hg & Hmt). exists g, sid. split; [done|]. split; [|done].
    apply Hx. right. split; [done|]. by exists j.
Qed.

(** *** On the memory of the ring *)

Lemma collect_sids_ext fuel i bound raw raw' vec : 0 <= i -> (forall j, 0 <= j < bound -> raw j = raw' j) ->
  collect_sids fuel i bound raw vec = collect_sids fuel i bound raw' vec.
Proof.
  intros Hi H. revert i vec Hi. induction fuel as [|fuel IH]; intros i vec Hi; [done|]. simpl.
  bcase (i <? bound) as E; [|done]. rewrite (H i) by lia. apply IH. apply u16_range.
Qed.

Lemma pdu_words_at m addr b0 w k : pdu_words m (fill_block m addr b0) = w -> 0 <= k < Zlen w -> m (addr + k) = rd0 w k.
Proof.
  intros <-. unfold pdu_words, read_words. cbn [pdu_payload fill_block]. set (n := Z.to_nat _). intros Hk. unfold Zlen in Hk.
  rewrite length_map, length_seq in Hk. unfold rd0, rd. bcases; [lia|]. rewrite list_lookup_fmap, lookup_seq_lt by lia. simpl. f_equal. lia.
Qed.

(** The rule ids begin behind the payload. *)
Lemma rule_id_behind m addr b0 i : 0 <= i < pdu_size (fill_block m addr b0) ->
  16 <= 16 + i / 4 < rule_id (fill_block m addr b0) - addr.
Proof.
  cbn [pdu_size rule_id fill_block]. change 63 with (Z.ones 6). rewrite Z.land_ones, Z.shiftr_div_pow2 by lia. change (2 ^ 6) with 64.
  intros Hi. set (n := m (addr + 6)) in *. bcase (n mod 64 >? 0) as E; Z.to_euclidean_division_equations; lia.
Qed.

(** In the memory of the ring a block has the verdict of its words. *)
Lemma block_verdict_words m addr b0 w : pdu_good w -> pdu_fits w -> pdu_words m (fill_block m addr b0) = w ->
  block_verdict split_any_any s prm m (fill_block m addr b0) = block_verdict split_any_any s prm (words_mem w) (block_of w).
Proof.
  intros [Hr Hs] Hf Ew. pose proof (fun k => pdu_words_at m addr b0 w k Ew) as Hm. unfold pdu_fits in Hf.
  assert (16 <= rule_id (block_of w)) as H16.
  { destruct (Z.eq_dec (pdu_size (block_of w)) 0) as [E|E].
    - unfold block_of in E |- *. cbn [pdu_size rule_id fill_block] in E |- *. rewrite E. done.
    - pose proof (rule_id_behind (words_mem w) 0 no_block 0) as H. fold (block_of w) in H. specialize (H ltac:(lia)). change (0 / 4) with 0 in H. lia. }
  assert (forall k, 0 <= k < 16 -> m (addr + k) = words_mem w (0 + k)) as Hh by (intros k Hk; rewrite Z.add_0_l; apply Hm; lia).
  assert (rule_id (fill_block m addr b0) = addr + rule_id (block_of w)) as Eid.
  { unfold block_of. cbn [rule_id fill_block]. by rewrite Hh, Z.add_0_l by lia. }
  assert (num_rule_id (fill_block m addr b0) = num_rule_id (block_of w)) as En by (unfold block_of; cbn [num_rule_id fill_block]; by rewrite Hh by lia).
  assert (pdu_size (fill_block m addr b0) = pdu_size (block_of w)) as Es by (unfold block_of; cbn [pdu_size fill_block]; by rewrite Hh by lia).
  assert (payload m (fill_block m addr b0) = payload (words_mem w) (block_of w)) as Ep.
  { unfold payload. rewrite Es. apply map_ext_in. intros i Hi%list_elem_of_In%elem_of_seqZ. unfold byte_at. do 2 f_equal.
    pose proof (rule_id_behind (words_mem w) 0 no_block i ltac:(fold (block_of w); lia)) as Hb. fold (block_of w) in Hb.
    change (pdu_payload (fill_block m addr b0)) with (addr + 16). change (pdu_payload (block_of w)) with (0 + 16).
    rewrite <- Z.add_assoc, Hm by lia. unfold words_mem. by rewrite Z.add_0_l. }
  unfold block_verdict. rewrite En, Ep, Es, (collect_sids_ext _ _ _ _ (half_at (words_mem w) (rule_id (block_of w)))).
  - unfold block_of. cbn [src_port dst_port fill_block]. by rewrite Hh by lia.
  - done.
  - intros j Hj. unfold half_at. do 2 f_equal. rewrite Eid, <- Z.add_assoc. apply Hm.
    unfold NB_RULES_IN_LINE in Hj. rewrite u32_small in Hj by (unfold is_u32; lia). Z.to_euclidean_division_equations; lia.
Qed.

Lemma process_block_handle m addr b0 c w : pdu_good w /\ pdu_fits w -> pdu_words m (fill_block m addr b0) = w ->
  process_block split_any_any s prm m (fill_block m addr b0) c = handle w c.
Proof. intros [Hg Hf] Ew. unfold handle, process_block. by rewrite (block_verdict_words m addr b0 w Hg Hf Ew). Qed.

(** How many PDUs of a list match. *)
Definition matching (ws : list (list Z)) : Z :=
  Zlen (filter (fun w => block_verdict split_any_any s prm (words_mem w) (block_of w) = Some MATCH) ws).

Lemma handle_all ws m nm :
  engine_ok -> Forall pdu_good ws ->
  fold_left (fun c w => handle w c) ws (Some (MkCounters (u64 m) (u64 nm))) =
  Some (MkCounters (u64 (m + matching ws)) (u64 (nm + (Zlen ws - matching ws)))).
Proof.
  intros Hok Hgood. revert m nm. unfold matching.
  induction Hgood as [|w ws Hw Hws IH]; intros m nm; cbn [fold_left].
  { unfold Zlen; simpl. do 2 f_equal; f_equal; lia. }
  destruct (block_verdict_spec w Hok Hw) as [Hv _].
  assert (forall c, handle w (Some c) =
    match block_verdict split_any_any s prm (words_mem w) (block_of w) with
    | Some st => Some (count c st) | None => None end) as -> by done.
  destruct Hv as [E|E]; rewrite E.
  - rewrite filter_cons_True by done. rewrite !Zlen_cons. simpl count.
    replace (u64 (u64 m + 1)) with (u64 (m + 1)) by mlia. rewrite IH.
    do 2 f_equal; f_equal; lia.
  - rewrite filter_cons_False by (rewrite E; done). rewrite !Zlen_cons. simpl count.
    replace (u64 (u64 nm + 1)) with (u64 (nm + 1)) by mlia. rewrite IH.
    do 2 f_equal; f_equal; lia.
Qed.

End Whole.

(** ** An engine with one rule, for the examples

    One generic group whose matcher has one pattern; the rule's SID 1000 has
    the compressed SID 5 and its tree is the content [demo_cd], "ab" without
    case. *)

Definition leaf {Opt} : tree Opt := Node RULE_OPTION_TYPE_LEAF_NODE None [].
Definition demo_root : root ContentData := [Node RULE_OPTION_TYPE_CONTENT (Some demo_cd) [leaf]].
Definition demo_sid_map : gmap Z Z := {[ 1000 := 5 ]}.

Definition demo_pattern : Pattern Z (root ContentData) unit :=
  MkPattern [97; 98] 2 0 true false 1000 (Some demo_root) None.
Definition demo_mpse : HyperscanMpse Z (root ContentData) unit :=
  update_compressed_sid_id_map (fun u => u) demo_sid_map (MkMpse [demo_pattern] ∅ true).
Definition demo_store : list (PortGroup (Opt := ContentData) (U := Z) (L := unit)) :=
  [MkGroup [Some demo_mpse; None; None; None; None; None] 1].
Definition demo_prm : PORT_RULE_MAP nat := MkPrm [] [] (Some 0%nat).

(** A PDU: header, the payload "xAbaB" in one flit, one flit of rule ids. *)
Definition demo_words : list Z :=
  [7; 1025 * 65536 + 80; 1; 2; 6; 1; 5; 3; 0; 0; 0; 0; 0; 0; 0; 0] ++
  [1633829240; 66; 0; 0; 0; 0; 0; 0; 0; 0; 0; 0; 0; 0; 0; 0] ++
  [5; 327680; 0; 0; 0; 0; 0; 0; 0; 0; 0; 0; 0; 0; 0; 0].

#[local] Instance demo_content_interface : ContentEval ContentData := content_interface demo_vars.

Lemma demo_root_ok n : n < 2 ^ 29 -> Forall (tree_ok n) demo_root.
Proof.
  intros Hn. repeat constructor; try done; apply demo_cd_ok.
Qed.

Lemma demo_selected sp dp g : selected false demo_store demo_prm sp dp g -> g = 0%nat.
Proof.
  unfold selected, prmFindRuleGroupTcp, prmFindRuleGroup. cbn [prmDstPort prmSrcPort demo_prm].
  assert (forall i, mjoin (rd (@nil (option nat)) i) = None) as Hn
    by (intros i; unfold rd; by bcases).
  rewrite !Hn. assert (forall b : bool, (if b then @None nat else None) = None) as Hb by (by intros []).
  rewrite !Hb. simpl. intros [?|[?|[= ->]]]; done.
Qed.

Lemma demo_engine_ok : engine_ok false demo_store demo_prm.
Proof.
  intros n sp dp g Hn ->%demo_selected. exists (MkGroup [Some demo_mpse; None; None; None; None; None] 1), demo_mpse.
  split; [done|]. split; [done|]. repeat constructor. exists demo_root. split; [done|].
  apply demo_root_ok. lia.
Qed.

(** ** Properties *)

(** C6. The SIDs of a block: with less than 65536 id slots the loop ends and
    leaves every non-zero id of the block exactly once and nothing else; with
    more slots than its 16-bit counter can reach it never ends. *)
Theorem collect_sids_spec num raw :
  let bound := u32 (num * NB_RULES_IN_LINE) in
  (bound <= 65535 -> exists vec,
     collect_sids (S (Z.to_nat bound)) 0 bound raw [] = Some vec /\ NoDup vec /\
     forall x, x ∈ vec <-> x <> 0 /\ exists i, 0 <= i < bound /\ raw i = x) /\
  (65535 < bound -> forall fuel, collect_sids fuel 0 bound raw [] = None).
Proof.
  intros bound. pose proof (u32_range (num * NB_RULES_IN_LINE)) as Hr. fold bound in Hr.
  unfold is_u32 in Hr. split.
  - intros Hb. destruct (collect_sids_ends (S (Z.to_nat bound)) 0 bound raw []) as (vec & Hv & Hn & Hx);
      [lia..|]. exists vec. split_and!; [done|apply Hn; constructor|].
    intros x. rewrite Hx, elem_of_nil. tauto.
  - intros Hb fuel. apply collect_sids_stuck; [unfold is_u16; lia|done].
Qed.

Lemma collect_sids_spec_witness :
  collect_sids 500 0 (u32 (2048 * NB_RULES_IN_LINE)) (fun _ => 0) [] = None /\
  exists vec, collect_sids 65 0 (u32 (2 * NB_RULES_IN_LINE)) (fun i => i / 2) [] = Some vec /\ NoDup vec.
Proof.
  split.
  - apply (proj2 (collect_sids_spec 2048 (fun _ => 0))). reflexivity.
  - destruct (proj1 (collect_sids_spec 2 (fun i => i / 2)) ltac:(vm_compute; congruence))
      as (vec & Hv & Hn & _).
    exists vec. split; [exact Hv|exact Hn].
Defined.

(** C7. Tree evaluation: it always gives MATCH or NO_MATCH, and it gives
    MATCH exactly when on every path of the tree each content option matches
    where the one before it on the path left the cursor (other option types
    are not evaluated). *)
Theorem eval_tree_all_paths {Opt} `{!ContentEval Opt} n (r : root Opt) c :
  Forall (tree_ok n) r -> cursor_wf c -> sz c = n ->
  verdict (eval_tree r c) /\
  (eval_tree r c = Some MATCH <->
   Forall (fun p => seq_eval p c = Some MATCH) (flat_map node_paths r)).
Proof.
  intros Hr Hc Hs. split; [by eapply eval_tree_total|by eapply eval_tree_paths].
Qed.

Lemma eval_tree_all_paths_witness :
  verdict (eval_tree demo_root demo_cursor) /\
  (eval_tree demo_root demo_cursor = Some MATCH <->
   Forall (fun p => seq_eval p demo_cursor = Some MATCH) (flat_map node_paths demo_root)).
Proof.
  apply (eval_tree_all_paths 5 demo_root demo_cursor);
    [apply demo_root_ok; reflexivity|apply demo_cursor_wf|reflexivity].
Defined.

(** The contents "a" and, right behind it, "b". *)
Definition rule_a : option ContentData :=
  content_module demo_vars [MkValue "~data" 0 [34; 97; 34] None].
Definition rule_b : option ContentData :=
  content_module demo_vars
    [MkValue "~data" 0 [34; 98; 34] None; MkValue "distance" 0 [48] None; MkValue "within" 0 [49] None].

Definition chain (a b : ContentData) : root ContentData :=
  [Node RULE_OPTION_TYPE_CONTENT (Some a) [Node RULE_OPTION_TYPE_CONTENT (Some b) [leaf]]].

(** The cursor an evaluation leaves. *)
Definition after (a : ContentData) (c : Cursor) : Cursor :=
  match ce_eval a c with Some (_, c') => c' | None => c end.

(** Evaluation does not backtrack: for the contents "a" and, right
    behind it, "b" on the payload "axab", the tree gives NO_MATCH after the
    first "a", although the content option offers a retry, which finds the
    second "a", behind which "b" matches. *)
Theorem eval_tree_never_retries :
  exists a b, rule_a = Some a /\ rule_b = Some b /\
    let c := cursor_set "pkt_data" [97; 120; 97; 98] 4 in
    let c1 := after a c in let c2 := after a c1 in
    eval_tree (chain a b) c = Some NO_MATCH /\
    ce_eval a c = Some (MATCH, c1) /\ retry a c1 = true /\
    ce_eval a c1 = Some (MATCH, c2) /\
    ce_eval b (cursor_copy c2) = Some (MATCH, after b (cursor_copy c2)).
Proof.
  exists (default content_begin rule_a), (default content_begin rule_b).
  split; [vm_compute; reflexivity|]. split; [vm_compute; reflexivity|]. cbv zeta.
  split; [vm_compute; reflexivity|]. split; [vm_compute; reflexivity|].
  split; [vm_compute; reflexivity|]. split; vm_compute; reflexivity.
Qed.

(** C5. The verdict on a PDU: it is MATCH exactly when some rule named in the
    PDU's id lines (by its non-zero compressed SID), found in one of the port
    groups its ports select, has a tree that matches the payload; otherwise
    it is NO_MATCH. *)
Theorem block_verdict_exact {Opt U L} `{!ContentEval Opt} split
    (s : list (PortGroup (Opt := Opt) (U := U) (L := L))) prm w :
  engine_ok split s prm -> pdu_good w ->
  block_verdict split s prm (words_mem w) (block_of w) = Some MATCH /\ pdu_matches split s prm w \/
  block_verdict split s prm (words_mem w) (block_of w) = Some NO_MATCH /\ ~ pdu_matches split s prm w.
Proof.
  intros Hok Hw. destruct (block_verdict_spec split s prm w Hok Hw) as [[E|E] Hm].
  - left. by rewrite <- Hm.
  - right. rewrite <- Hm, E. done.
Qed.

Lemma block_verdict_exact_witness :
  block_verdict false demo_store demo_prm (words_mem demo_words) (block_of demo_words) = Some MATCH /\
    pdu_matches false demo_store demo_prm demo_words \/
  block_verdict false demo_store demo_prm (words_mem demo_words) (block_of demo_words) = Some NO_MATCH /\
    ~ pdu_matches false demo_store demo_prm demo_words.
Proof.
  apply (block_verdict_exact false demo_store demo_prm demo_words demo_engine_ok).
  split; vm_compute; split; congruence.
Defined.

(** C4. Ring and matcher together, [process_pdu] reading payload and rule ids
    from the shared memory: after any interleaving of loop iterations and FPGA
    transfers of PDUs of at most 65 flits with fewer than 2048 id lines, whose
    payload and id lines lie within their flits, and for groups whose patterns all
    have their trees ([engine_ok]), polling the ring empty leaves in [match_cntr] the number of all
    transferred PDUs that some named rule matches and in [no_match_cntr] the
    number of the others (64-bit counters). *)
Theorem pigasus_counts_matches {Opt U L} `{!ContentEval Opt} split
    (s : list (PortGroup (Opt := Opt) (U := U) (L := L))) prm e b0 m st0 ls st :
  let proc := process_block split s prm in
  engine_ok split s prm -> Forall (fun w => pdu_good w /\ pdu_fits w) (transfers ls) ->
  mmap_kmem e = Some m -> m 0 = 0 -> dma_setup e b0 (Some (MkCounters 0 0)) = Some st0 ->
  star (mem_step proc) st0 ls st ->
  let n := matching split s prm (transfers ls) in
  Pcie.user (Nat.iter (length (transfers ls)) (dma_body proc) st) =
    Some (MkCounters (u64 n) (u64 (Zlen (transfers ls) - n))) /\
  Forall (fun w => block_verdict split s prm (words_mem w) (block_of w) = Some MATCH <->
                   pdu_matches split s prm w) (transfers ls).
Proof.
  intros proc Hok Hgood Hm H0 Hst Hstar n.
  assert (Forall pdu_good (transfers ls)) as Hg by (eapply Forall_impl; [exact Hgood|]; by intros w [? _]). split.
  - rewrite (ring_drained proc (handle split s prm) _ (process_block_handle split s prm) e b0 _ m st0 ls st Hm H0 Hst Hstar Hgood).
    apply (handle_all split s prm (transfers ls) 0 0 Hok Hg).
  - eapply Forall_impl; [exact Hg|]. intros w Hw. by apply block_verdict_spec.
Qed.

Definition demo_proc := process_block false demo_store demo_prm.
Definition demo_s0 : dma_state (option counters) :=
  DmaState (fun _ => 0) 0 0 0 demo_block 0 0 (Some (MkCounters 0 0)).
Definition demo_s1 : dma_state (option counters) :=
  DmaState (store (write_words (fun _ => 0) 16 demo_words) 0 3) 0 0 0 demo_block 0 0
    (Some (MkCounters 0 0)).

Lemma demo_transfer : star (mem_step demo_proc) demo_s0 [Transfer demo_words] demo_s1.
Proof.
  apply (star_snoc _ _ [] demo_s0 (Transfer demo_words)); [constructor|].
  apply (step_transfer demo_proc demo_s0); [|reflexivity].
  exists 3. split_and!; vm_compute; congruence.
Qed.

Lemma pigasus_counts_matches_witness :
  let n := matching false demo_store demo_prm [demo_words] in
  Pcie.user (dma_body demo_proc demo_s1) = Some (MkCounters (u64 n) (u64 (1 - n))) /\
  Forall (fun w => block_verdict false demo_store demo_prm (words_mem w) (block_of w) = Some MATCH <->
                   pdu_matches false demo_store demo_prm w) [demo_words].
Proof.
  apply (pigasus_counts_matches false demo_store demo_prm demo_env demo_block (fun _ => 0) demo_s0
    [Transfer demo_words] demo_s1 demo_engine_ok).
  - repeat constructor; vm_compute; congruence.
  - reflexivity.
  - reflexivity.
  - reflexivity.
  - exact demo_transfer.
Defined.

Example demo_verdict :
  block_verdict false demo_store demo_prm (words_mem demo_words) (block_of demo_words) = Some MATCH.
Proof. vm_compute. reflexivity. Qed.

(** Initialisation with shared groups: [pigasus_init] builds the SID map
    of every matcher of every group some port or the generic entry points to
    - however many ports share the group - and leaves all other groups alone. *)
Theorem pigasus_init_spec {Opt U L} `{!ContentEval Opt} (sid_of : U -> Z) m prm
    (s : list (PortGroup (Opt := Opt) (U := U) (L := L))) i :
  prm_wf prm ->
  let s' := pigasus_init sid_of m prm s in
  let used := Some i ∈ prmDstPort prm \/ Some i ∈ prmSrcPort prm \/ prmGeneric prm = Some i in
  (used -> s' !! i = init_group sid_of m <$> s !! i) /\ (~ used -> s' !! i = s !! i).
Proof.
  intros [Hs Hd] s' used. unfold s', pigasus_init.
  assert (initialised sid_of m (fun _ => False) s s) as H0 by (intros j; tauto).
  assert (length (prmDstPort prm) = length (prmSrcPort prm)) as Hlen by (unfold Zlen in *; lia).
  apply (init_ports_spec sid_of m (prmDstPort prm) (prmSrcPort prm) (fun _ => False)) in H0;
    [|tauto|exact Hlen].
  apply (init_rule_id_map_spec sid_of m _ _ _ (prmGeneric prm)) in H0.
  - specialize (H0 i). unfold used. split; intros Hu; apply H0; tauto.
  - intros j. destruct (decide (Some j ∈ prmDstPort prm)), (decide (Some j ∈ prmSrcPort prm)); tauto.
Qed.

Lemma pigasus_init_spec_witness :
  let prm := MkPrm (replicate (Z.to_nat MAX_PORTS) (Some 0%nat))
               (replicate (Z.to_nat MAX_PORTS) None) None in
  let s' := pigasus_init (fun u => u) demo_sid_map prm demo_store in
  let used := Some 0%nat ∈ prmDstPort prm \/ Some 0%nat ∈ prmSrcPort prm \/ prmGeneric prm = Some 0%nat in
  (used -> s' !! 0%nat = init_group (fun u => u) demo_sid_map <$> demo_store !! 0%nat) /\
  (~ used -> s' !! 0%nat = demo_store !! 0%nat).
Proof.
  apply (pigasus_init_spec (fun u => u) demo_sid_map
    (MkPrm (replicate (Z.to_nat MAX_PORTS) (Some 0%nat)) (replicate (Z.to_nat MAX_PORTS) None) None)).
  split; cbn [prmSrcPort prmDstPort]; by rewrite Zlen_replicate, Z2Nat.id.
Defined.
